(* ===== verification/_CoqProject ===== *)
-Q . S2P
Prelude.v
HashTable.v
LogRecord.v
ClassAd.v
Transaction.v
ClassAdLog.v
Recovery.v
Compaction.v
TransactionView.v
Backup.v
ArgList.v
Env.v
ClassAdOps.v
ClassAdEval.v
ClassAdFunctions.v
ClassAdRuns.v
ClassAdTermination.v
ClassAdMatch.v
UserPolicy.v
Sinful.v
CondorList.v
StringList.v
Had.v
HadElection.v
Replication.v
ReplicationInv.v
ReplicationVersions.v
CondorId.v
CheckEvents.v
PriorityList.v
DagJob.v
Dag.v
DagCycle.v
DagBuild.v
DagRun.v
DagLogic.v
DagSafety.v
DagTermination.v
DagBooks.v
DagRetries.v
DagProgress.v
DagStart.v
DagParse.v
DagRead.v
Rescue.v
ToyExprs.v
EnvExamples.v
ClassAdExamples.v
PolicyExamples.v
HadExamples.v
ReplicationExamples.v
Examples.v
DagExamples.v
DagRunExamples.v
ParseExamples.v
