(* ===== verification/Prelude.v ===== *)
(** * A verification of the core of HTCondor

    HTCondor is a batch system made of cooperating daemons.  This development models, in C++ source
    order and with the source's names, the parts every daemon relies on to keep its promises about
    jobs, and proves what makes them correct.  Paths below are relative to src/src/.

    ** The program and its parts

    - condor_utils/HashTable.h: a chained hash table with a built-in iterator.  Nearly every other
      part keeps its state in one.
    - condor_utils/log.cpp, classad_log.cpp, log_transaction.cpp: ClassAdLog, the persistent table of
      ads that holds the job queue.  An update is appended to a text log, synced, and then applied
      to the table in memory; a transaction is a bracketed group of records; the constructor replays
      the log; TruncLog() replaces it by a compact one.
    - classad/classad.cpp, condor_utils/compat_classad.cpp, classad_merge.cpp: the attribute table of
      an ad, with a chained parent.
    - condor_utils/condor_arglist.cpp: job arguments in their V1, V2, wire and Windows syntaxes;
      condor_utils/env.cpp: job environments, in the same syntaxes; condor_utils/condor_sinful.cpp:
      the addresses by which daemons reach each other.
    - classad/operators.cpp, value.cpp, literals.cpp, attrrefs.cpp, exprList.cpp, exprTree.cpp,
      fnCall.cpp: the ClassAd expression language, with its three-valued logic, scopes and functions;
      classad/matchClassad.cpp: the match of two ads, which the negotiator asks for every job and
      machine; condor_utils/user_job_policy.cpp: the expressions by which a job is held, released and
      removed.
    - condor_utils/list.h, string_list.cpp: the circular linked list and the lists of strings that
      all daemons use for their configuration.
    - condor_had/StateMachine.cpp: the high availability daemon (HAD), which elects one of several head
      nodes; its master then runs the controlled daemon.  condor_had/ReplicatorStateMachine.cpp and
      AbstractReplicatorStateMachine.cpp, HAD_Version.cpp, FilesOperations.cpp: the replication
      daemon beside it, which the HAD tells about its elections and which copies the state of the
      controlled daemon from the leader to the others.
    - condor_utils/condor_id.cpp, check_events.cpp: job ids, and the checker of user log events that
      DAGMan consults for every event.
    - condor_utils/prioritysimplelist.h, condor_dagman/job.cpp, dag.cpp, dagman_commands.cpp: the
      priority list DAGMan keeps ready nodes in, the nodes and dependencies of a DAG, and the check
      for cycles.
    - condor_dagman/dag.cpp, scriptQ.cpp, script.cpp, dagman_main.cpp: the scheduler.  A timer submits
      ready nodes and reads the events that appeared in the job logs; the events and the reapers of
      scripts move nodes through their states, start the children of nodes that end, retry the ones
      that fail and finish the DAG.
    - condor_dagman/parse.cpp, dag.cpp, dagman_main.cpp: the reader of DAG files with splices and
      several DAGs, and the rescue DAG written when a DAG fails and read when it is run again.

    ** Files

    - Prelude (this file): characters and C strings as lists of [ascii] without the final NUL, the
      type [outcome] of code that may call EXCEPT and end the process, [let!], printing and scanning
      of numbers, machine integers as [Z] with explicit wrap-around, record update, lemmas on lists.
    - HashTable: the Module HT.  [HashTable] has the source's fields; a bucket has an address, so that
      the iterator's pointer [currentItem] and its repair in remove() are modelled; [brk] numbers the
      allocations.  Operations: initialize, insert, addItem, lookup, modify (writing through a pointer
      from lookup), exists_, getNext, remove, clear, iterate, walk, resize_hash_table, copy_deep.
    - LogRecord: streams ([FILE]: the bytes written, how many were flushed and synced, a script of
      faults), readword, readline, and WriteBody and ReadBody of the seven record kinds.
    - ClassAd: [ClassAd] and the interface [ExprLang] of the expression language; [ExprLangLaws] says
      that a string literal evaluates to its string, which the arguments and environments in job ads
      need.  That the text of a value is read back as the value is not a law, because the unparser does
      not print all reals and strings so: it is a condition on the values, [faithful].  Insert, Lookup,
      Delete, chaining, dirty attributes, merging.
    - Transaction: Play() of each record on the table, class Transaction, Commit() with its backup file.
    - ClassAdLog: class ClassAdLog, every method; the constructor is [open_log] around [recover].
    - Recovery, Compaction, TransactionView, Backup: the theorems on the log, in that order: the
      refinement to a map of ads and crash recovery; rotation and reopening; the queries that look
      through the open transaction; backups of failed commits.
    - ArgList: class ArgList, every syntax; Env: class Env, on either platform (the class [Platform]).
    - ClassAdOps: values, trees and _doOperation() with all it calls; a double is a [spec_float].
      ClassAdEval: the EvalState and a heap of ads, _Evaluate() of every kind of tree, and the match ad.
      ClassAdFunctions: the functions, as an instance of the class [Functions] that ClassAdEval takes
      as its parameter; the class [Outside] holds what they need from parts that are not modelled.
      ClassAdRuns, ClassAdTermination, ClassAdMatch: the rules for runs of the evaluator and the
      theorems on it.
    - UserPolicy: class UserPolicy and user_job_policy() on the heap of ads; the class [Site] gives the
      clock, the configuration, the parser and the unparser.
    - Sinful: class Sinful, the URL encoding of its parameters and split_sin().
    - CondorList: [LinkedList], the template List on a heap of items, and the sequence with a cursor
      ([Seq]) that it implements; StringList: class StringList, on that sequence.
    - Had: class HADStateMachine as a monad over its fields and a world of timers and messages sent;
      which connections succeed is the parameter [reaches].  HadElection: the pool of daemons that take
      turns and receive each other's messages, and the election.
    - Replication: class ReplicatorStateMachine in the same way, over the files, the timers and what was
      done so far; [System] is the operating system and the network.  ReplicationInv: its invariant;
      ReplicationVersions: the choice of a version, the version file and the transfer.
    - CondorId, CheckEvents: class CondorID, class CheckEvents.
    - PriorityList: BinarySearch and PrioritySimpleList.
    - DagJob, Dag: class Job, class ThrottleByCategory, class Dag and AddNode(); DagCycle: isCycle();
      DagBuild: DAGs built by the parser.
    - DagRun: the scheduler, every handler, as a state monad over [Run] (the Dag, its script queues,
      its event checkers and the static variables) that returns, exits or stops with EXCEPT.  The
      class [Config] holds the knobs, the class [World] the answers of programs and system calls,
      [trace] what was asked of them.  [run_dag] is Bootstrap() followed by any sequence of timer
      calls, script ends and a removal.
    - DagLogic: the rules for reasoning about the monad and their automation; DagSafety,
      DagTermination: dependencies and termination of [run_dag]; DagRetries: how often the job of a node
      is run, and the counts; DagBooks, DagProgress: the statuses of the nodes against the counters,
      with the throttles and that nodes are not forgotten; DagStart: every DAG that was built can be
      run.
    - DagParse: lines, tokens and every keyword of DAG files, splices and the munging of names, as a
      function from the content of the files to a [Parser] or an error; DagRead: main_init() up to the
      start of the DAG and what it guarantees; Rescue: the text of rescue DAGs.
    - ToyExprs: a concrete expression language (an expression is a line of text), which shows that the
      law of [ExprLang] can hold; Examples, EnvExamples, ClassAdExamples, PolicyExamples,
      HadExamples, ReplicationExamples, DagExamples, DagRunExamples, ParseExamples: the theorems at
      concrete inputs, and runs that exhibit defects.

    ** What the theorems show

    - Hash table.  Over any sequence of calls a table with unique keys is a finite map
      ([hash_table_refines_map]); the load factor stays below 0.8; an iteration visits everything once
      and survives the removal of the current element; with duplicate keys a resize changes which
      entry is found.
    - Log format.  Every record is read back, whatever follows it ([write_read_record]); no proper
      prefix of a record is taken for one ([torn_record_not_read]); the reading loop ends on every
      file ([recover_terminates]).
    - Log.  The abstract specification is a map from keys to attribute maps with a pending
      transaction (Recovery).  Clients append records of the format and create no ad twice ([ops_legal]);
      I/O calls may fail by any script as long as every commit is durable, and must not fail when
      nondurable commits are used ([tolerable]; [nondurable_write_error_loses_commits] is why).  The
      table and the log file track the specification until an error ends the process
      ([log_refines_store]), and any prefix of the file not shorter than what was synced (a crash
      image) recovers to the store after some prefix of the committed units, which contains every unit
      whose commit returned with durability on ([crash_recovery]).  For ads whose names, types and
      values the text format carries ([storable]), and without a temporary file from an earlier crash,
      rotation keeps the store ([rotation_keeps_store]) and the constructor gets through any crash
      image ([reopen_after_crash]).  A failed commit of writable records leaves a backup on a device
      that works ([failed_commit_backed_up]); a lookup through the open transaction tells what the
      commit will do ([lookup_in_transaction_sound]).
    - Arguments and environments.  The round trips of the syntaxes, and where they lose arguments or
      change variables; environments are finite maps over any sequence of calls, merges of one into
      another included ([env_refines_map]).
    - ClassAd language.  Operators give a value on all operands but those C++ leaves open, exactly
      when it fits; a subscript is left to the caller ([operators_total]); the logic is Kleene's ([logical_kleene]); evaluation comes back although
      attributes may refer to each other in circles ([evaluation_terminates]), unless a subscript
      starts a new count ([self_subscript_diverges]); the functions on lists and strings compute what
      their names say ([list_functions_spec], [substr_perl]).  In a match a reference to the target
      is evaluated in the other ad ([target_crosses]), and the two ads match when the Requirements of
      both hold ([symmetric_match_both]).
    - Job policy.  The decision on a job is explained by the values of the expressions and the one that
      is reported ([policy_explained]); for constant expressions in an ad without an attribute my the
      order of the expressions is fixed, though not the documented one, and the ad comes back as it was
      ([policy_precedence]); the older interface removes a job that should be released
      ([released_job_is_removed]).
    - Addresses.  An address with a plain host, digits for a port and parameters in ASCII with keys that
      are not empty is read back as it was written ([sinful_roundtrip]); the search
      through the private addresses inside an address ends ([address_search_terminates]).
    - Lists.  The pointer operations of List are those of a sequence with a cursor ([list_refines]); a
      list of strings that hold no delimiter is read back as it was printed ([string_list_roundtrip]), and the wildcards,
      comparison, sorting and shuffling of lists do what their names say, within limits.
    - HAD.  Over any sequence of messages (of less than 1024 characters), timers and reconfigurations a
      daemon keeps its two timers, and the last command it tried to send to its master is to switch the
      controlled daemon on, and arrived, exactly when it leads ([had_invariant]).  While the daemons of
      a settled pool all run and reach each other and their masters, ten rounds of cycles in any order
      elect exactly one leader, the primary if there is one ([one_leader_elected]); a network that is split
      elects several ([partition_splits_the_pool]).  Changed addresses are not noticed
      ([changed_peers_ignored]).
    - Replication.  Unless its HAD makes it join again, the timers of the daemon fit its state after any
      sequence of calls, and the versions of others are known only while it joins
      ([replication_invariant]), so that a new gid is never chosen; the
      version fetched is a leader's or the one with the latest clock, and never an older one than its own
      ([replica_selection]); the version file
      survives a torn write with a clock that is not later ([version_file_roundtrip]); a transfer
      installs what it fetched ([download_installs]).  A HAD that is reconfigured while it leads ends its
      replication daemon ([reconfigured_had_ends_replicator]).
    - Events.  Every event is called okay exactly when every job's own events follow the life cycle ([events_okay_iff_lifecycle]); tolerance is monotone; a final check can mask an error.
    - DAGs.  Priority insertion is stable; a built DAG is consistent; isCycle() is right and ends.
    - Scheduler.  Whatever the world answers, nothing is done for a node before its parents have ended
      ([dependencies_respected]), a job is run at most as often as the retries of its node allow and the
      count of finished nodes is right ([bookkeeping_right]), and every handler comes back
      ([scheduler_terminates]).  Without recovery, with log files that can be monitored, nested DAGs
      that can be prepared and one job per cluster, and until the final node starts, the throttles hold
      of the nodes that are submitted ([throttles_respected]), and when nothing is going on any more
      the DAG is done, a node has failed or there is a cycle ([dag_not_stuck]).
    - DAG files.  Every DAG the parser accepts is well formed ([parsed_dag_well_formed]), so that the
      theorems on the scheduler apply to it; a rescue DAG restores what was done and the retries that
      were left ([rescue_dag_restores]), and its VARS lines restore the variables ([vars_roundtrip]).  A
      file that includes itself is not noticed by the parser; reading ends because the process runs out
      of file descriptors ([reading_terminates]).

    Theorems that state a defect say so; they are kept because the code depends on the callers to
    avoid the situation.

    ** Fuel

    Loops that are not structural take a fuel that is shown to be enough: [recover] one more than the
    size of the file (each record read takes a byte), [HT.drain] one more than the number of elements,
    [reverse_loop] 32 turns for 32 bits, [print_u] the number of binary digits, [search_loop] the
    length of the array, [DFSVisit] one more than the number of nodes (each nested call marks one),
    [StartNode] the bound [dag_fuel] of DagTermination (a nested call uses up a retry or a node that
    has not ended), [submit_loop] the length of the ready queue.  The parser takes the depth to which
    splices may be nested, which is enough when it is greater than the number of files the process can
    open ([reading_terminates]); evaluation takes the depth of calls of _Evaluate(), which the source
    does not bound, and [None] stands for a stack that is exhausted.  [evaluation_terminates] gives a depth that is
    enough for expressions without subscripts, lists and calls.  [StringList.items_of] and the loops over
    string lists take one more than the length of the text or list.  The ten rounds of
    [one_leader_elected] are no fuel: a daemon steps in every second round, and a pool in any states has
    elected its leader after that many.

    ** Not modelled

    Sockets, processes, signals, locking and the file system beyond the bytes of the files above; the
    HAD and replication daemons see connections, processes, files and the clock through parameters.
    Debug output; ClassAdLog plug-ins; the transferer processes of the replication daemon.  Numbers are mathematical integers where the code counts
    objects in memory or events, and have their width where the source mixes bits (hash functions,
    reverse_bits), parses text or computes values of ClassAd expressions.  There, sums and products of integers that
    overflow, which C++ leaves undefined, wrap around as on all machines the code is built for; seconds
    of absolute times, and the sizes and counts of hash tables, are not bounded.  Memory allocation
    does not fail.

    Of DAGMan, the text of log files and of submit output, dot and status files and the jobstate log.

    Of the ClassAd language, the lexer, parser and unparser, flattening and the optimisation of ads for
    matchmaking built on it, the significance trees, and the functions that need the clock, regular
    expressions or the parser.  The log and the attribute store see expressions as text through the
    interface [ExprLang]: they never evaluate them. *)

From stdpp Require Export base gmap strings list fin_maps.
From Stdlib Require Export Ascii ZArith Lia.

#[export] Set Default Goal Selector "!".
Open Scope Z_scope.

(** * Bytes and C strings

    A [char const *] or a [MyString] is the list of its characters, without the
    terminating NUL; the content of a file is the list of its bytes. *)

Notation bytes := (list ascii).

(** A string literal of the source. *)
Definition s2b (s : string) : bytes := String.list_ascii_of_string s.
Arguments s2b s%_string : simpl never.

Definition NUL : ascii := ascii_of_nat 0.
Definition TAB : ascii := ascii_of_nat 9.
Definition LF : ascii := ascii_of_nat 10.
Definition CR : ascii := ascii_of_nat 13.
Definition SP : ascii := ascii_of_nat 32.
Definition DQUOTE : ascii := ascii_of_nat 34.
Definition SQUOTE : ascii := ascii_of_nat 39.
Definition BSLASH : ascii := ascii_of_nat 92.

(** [isspace] in the C locale: space, \t, \n, \v, \f and \r. *)
Definition isspace (c : ascii) : bool :=
  let n := nat_of_ascii c in
  (n =? 32)%nat || ((9 <=? n)%nat && (n <=? 13)%nat).

(** [tolower] in the C locale. *)
Definition tolower (c : ascii) : ascii :=
  let n := nat_of_ascii c in
  if (65 <=? n)%nat && (n <=? 90)%nat then ascii_of_nat (n + 32) else c.

(** The longest prefix of characters that satisfy [p], and the rest. *)
Fixpoint span (p : ascii -> bool) (s : bytes) : bytes * bytes :=
  match s with
  | c :: s' => if p c then (c :: (span p s').1, (span p s').2) else ([], s)
  | [] => ([], [])
  end.

(** [toupper] in the C locale. *)
Definition toupper (c : ascii) : ascii :=
  let n := nat_of_ascii c in if (97 <=? n)%nat && (n <=? 122)%nat then ascii_of_nat (n - 32) else c.
Definition upper (s : bytes) : bytes := toupper <$> s.

(** [strcasecmp(a,b) == 0] compares the strings with every letter lowered. *)
Definition lower (s : bytes) : bytes := tolower <$> s.
Definition strcaseeq (a b : bytes) : bool := bool_decide (lower a = lower b).

(** [strcmp(a,b) == 0]. *)
Definition streq (a b : bytes) : bool := bool_decide (a = b).

(** * The outcome of code that may call EXCEPT

    [EXCEPT] (condor_utils/condor_debug.h) logs its message and ends the process;
    [ASSERT(c)] is [if(!c) EXCEPT]. *)

Inductive outcome (A : Type) : Type :=
| Done (a : A)
| EXCEPT (msg : string).
Arguments Done {A} a.
Arguments EXCEPT {A} msg%_string.

Definition obind {A B} (m : outcome A) (f : A -> outcome B) : outcome B :=
  match m with
  | Done a => f a
  | EXCEPT e => EXCEPT e
  end.

Declare Scope outcome_scope.
Delimit Scope outcome_scope with outcome.
Notation "'let!' x ':=' m 'in' k" := (obind m (fun x => k))
  (at level 200, x pattern, m at level 100, k at level 200, right associativity)
  : outcome_scope.


(** * Record update

    [r <| f := v |>] is the record [r] with its field [f] set to [v], the assignment [r->f = v] of
    the source; [r <| f ::= g |>] applies [g] to the field.  A record type declares how it is rebuilt
    from its fields ([Rebuild]), and each assigned field an instance of [Setter], which
    [solve_setter] derives. *)

Class Rebuild (R : Type) := rebuild : R -> R.
Class Setter {R T : Type} (field : R -> T) := set_field : (T -> T) -> R -> R.
Arguments set_field {R T} field {_} g r.

Ltac solve_setter :=
  lazymatch goal with
  | |- Setter ?field =>
      intros g r;
      let whole := eval hnf in (rebuild r) in
      let abstracted := eval pattern (field r) in whole in
      lazymatch abstracted with
      | ?around _ => let t := eval cbv beta in (around (g (field r))) in exact t
      end
  end.

Declare Scope record_scope.
Delimit Scope record_scope with record.
Notation "r '<|' f '::=' g '|>'" := (set_field f g r)
  (at level 1, f at next level, g at level 99, left associativity) : record_scope.
Notation "r '<|' f ':=' v '|>'" := (set_field f (fun _ => v) r)
  (at level 1, f at next level, v at level 99, left associativity) : record_scope.
Open Scope record_scope.

(** * Machine integers *)

Definition INT_MAX : Z := 2 ^ 31 - 1.
Definition ULONG_MAX : Z := 2 ^ 64 - 1.

(** Two's complement wrap-around to a 32-bit [int]. *)
Definition wrap32 (z : Z) : Z := (z + 2 ^ 31) mod 2 ^ 32 - 2 ^ 31.
(** Wrap-around to an [unsigned int]. *)
Definition wrapu32 (z : Z) : Z := z mod 2 ^ 32.

(** * Decimal numbers, as printf's %d/%lu print them *)

Definition digit_char (d : Z) : ascii := ascii_of_nat (Z.to_nat (48 + d)).

(** The digits of [n] before the ones already produced; [fuel] bounds their number. *)
Fixpoint print_digits (fuel : nat) (n : Z) (acc : bytes) : bytes :=
  match fuel with
  | O => acc
  | S fuel' =>
      let acc' := digit_char (n mod 10) :: acc in
      if n <? 10 then acc' else print_digits fuel' (n / 10) acc'
  end.

(** A number has no more decimal digits than binary ones. *)
Definition print_u (n : Z) : bytes := print_digits (S (Z.to_nat (Z.log2 n))) n [].
Arguments print_u n : simpl never.
Definition print_d (n : Z) : bytes :=
  if n <? 0 then "-"%char :: print_u (- n) else print_u n.

(** The value of a decimal digit. *)
Definition digit (c : ascii) : option Z :=
  let n := nat_of_ascii c in
  if (48 <=? n)%nat && (n <=? 57)%nat then Some (Z.of_nat n - 48) else None.

(** The digits at the head of a string: their value in base ten, accumulated on
    [acc], and whether there was one. *)
Fixpoint scan_digits (s : bytes) (acc : Z) (some : bool) : Z * bool :=
  match s with
  | [] => (acc, some)
  | c :: s' =>
      match digit c with
      | Some d => scan_digits s' (10 * acc + d) true
      | None => (acc, some)
      end
  end.

Fixpoint skip_spaces (s : bytes) : bytes :=
  match s with
  | c :: s' => if isspace c then skip_spaces s' else s
  | [] => []
  end.

(** A C string read through [char*] functions ends at the first NUL. *)
Fixpoint until_nul (s : bytes) : bytes :=
  match s with
  | [] => []
  | c :: s' => if bool_decide (c = NUL) then [] else c :: until_nul s'
  end.

(** The integer at the head of [s] the way strtol and the scanf family read it: white
    space, an optional sign, digits.  [None] when there is no digit. *)
Definition scan_int (s : bytes) : option Z :=
  let s := skip_spaces (until_nul s) in
  let '(neg, s) :=
    match s with
    | "-"%char :: s' => (true, s')
    | "+"%char :: s' => (false, s')
    | _ => (false, s)
    end in
  match scan_digits s 0 false with
  | (v, true) => Some (if neg then - v else v)
  | (_, false) => None
  end.

(** strtol saturates at the bounds of a 64-bit long. *)
Definition clamp_long (z : Z) : Z := Z.max (- 2 ^ 63) (Z.min (2 ^ 63 - 1) z).

(** [atoi]: [(int) strtol(s, NULL, 10)]; 0 when there is no number. *)
Definition atoi (s : bytes) : Z :=
  match scan_int s with
  | Some z => wrap32 (clamp_long z)
  | None => 0
  end.

(** [sscanf(s,"%d",&x) == 1]: the int stored, if a number was matched. *)
Definition sscanf_d (s : bytes) : option Z :=
  match scan_int s with
  | Some z => Some (wrap32 (clamp_long z))
  | None => None
  end.

(** [sscanf(s,"%lu",&x)] leaves [x] alone when nothing matches; strtoul saturates at
    ULONG_MAX and negates modulo 2^64. *)
Definition sscanf_lu (s : bytes) (old : Z) : Z :=
  match scan_int s with
  | Some z => if ULONG_MAX <? Z.abs z then ULONG_MAX else z mod 2 ^ 64
  | None => old
  end.

(** * Printed numbers are read back *)

Lemma digit_digit_char d : 0 <= d < 10 -> digit (digit_char d) = Some d.
Proof.
  intros Hd. assert (Hc : d = 0 \/ d = 1 \/ d = 2 \/ d = 3 \/ d = 4 \/ d = 5 \/ d = 6 \/ d = 7
    \/ d = 8 \/ d = 9) by lia. by repeat destruct Hc as [->|Hc]; subst.
Qed.

Lemma scan_print_digits fuel n acc :
  0 <= n < 2 ^ Z.of_nat fuel -> (0 < fuel)%nat ->
  exists k, 0 <= k /\ forall a b,
    scan_digits (print_digits fuel n acc) a b = scan_digits acc (a * 10 ^ k + n) true.
Proof.
  revert n acc. induction fuel as [|fuel IH]; intros n acc Hn Hf; [lia|]. simpl.
  pose proof (Z.mod_pos_bound n 10 ltac:(lia)) as Hm.
  destruct (Z.ltb_spec n 10) as [Hlt|Hge].
  - exists 1. split; [lia|]. intros a b. simpl. rewrite digit_digit_char by done.
    f_equal. rewrite Z.mod_small by lia. lia.
  - assert (Hdiv : 0 <= n / 10 < 2 ^ Z.of_nat fuel).
    { split; [apply Z.div_pos; lia|]. apply Z.div_lt_upper_bound; [lia|].
      rewrite Nat2Z.inj_succ, Z.pow_succ_r in Hn by lia. lia. }
    assert (Hf' : (0 < fuel)%nat).
    { destruct fuel; [|lia]. change (2 ^ Z.of_nat 1) with 2 in Hn. lia. }
    destruct (IH (n / 10) (digit_char (n mod 10) :: acc) Hdiv Hf') as (k & Hk & Hs).
    exists (k + 1). split; [lia|]. intros a b. rewrite Hs. simpl. rewrite digit_digit_char by done.
    f_equal. rewrite Z.pow_add_r by lia. pose proof (Z.div_mod n 10 ltac:(lia)). nia.
Qed.

Lemma log2_fuel n : 0 <= n -> n < 2 ^ Z.of_nat (S (Z.to_nat (Z.log2 n))).
Proof.
  intros Hn. rewrite Nat2Z.inj_succ, Z2Nat.id by apply Z.log2_nonneg.
  destruct (Z.eq_dec n 0) as [->|]; [done|]. apply Z.log2_spec. lia.
Qed.

Lemma scan_print_u n : 0 <= n -> scan_digits (print_u n) 0 false = (n, true).
Proof.
  intros Hn. destruct (scan_print_digits (S (Z.to_nat (Z.log2 n))) n []) as (k & _ & Hs).
  - split; [done|]. by apply log2_fuel.
  - lia.
  - unfold print_u. rewrite Hs. simpl. f_equal.
Qed.

(** Characters that are neither white space nor NUL. *)
Definition wordchar (c : ascii) : bool := negb (isspace c) && negb (bool_decide (c = NUL)).
(** A non-empty word, and a non-empty line. *)
Definition wordb (w : bytes) : bool := negb (bool_decide (w = [])) && forallb wordchar w.
Definition lineb (w : bytes) : bool :=
  negb (bool_decide (w = [])) &&
  forallb (fun c => negb (bool_decide (c = LF)) && negb (bool_decide (c = NUL))) w.

Definition isdigit (c : ascii) : bool := match digit c with Some _ => true | None => false end.

Lemma print_digits_all fuel n acc :
  0 <= n -> forallb isdigit acc -> forallb isdigit (print_digits fuel n acc).
Proof.
  revert n acc. induction fuel as [|fuel IH]; intros n acc Hn Hacc; [done|]. simpl.
  assert (Hc : forallb isdigit (digit_char (n mod 10) :: acc)).
  { simpl. unfold isdigit at 1. rewrite digit_digit_char by (apply Z.mod_pos_bound; lia). done. }
  destruct (n <? 10); [done|]. apply IH; [apply Z.div_pos; lia | done].
Qed.
Lemma print_digits_nonnil fuel n acc : acc <> [] -> print_digits fuel n acc <> [].
Proof.
  revert n acc. induction fuel as [|fuel IH]; intros n acc Hacc; [done|]. simpl.
  destruct (n <? 10); [done|]. by apply IH.
Qed.

Lemma isdigit_wordchar c : isdigit c -> wordchar c.
Proof.
  unfold isdigit, digit, wordchar, isspace. intros Hd.
  set (n := nat_of_ascii c) in *.
  assert (Hn : (48 <= n <= 57)%nat).
  { destruct ((48 <=? n) && (n <=? 57))%nat eqn:He; [|done].
    apply andb_true_iff in He as [?%Nat.leb_le ?%Nat.leb_le]. lia. }
  rewrite bool_decide_false by (intros ->; subst n; vm_compute in Hn; lia).
  destruct (Nat.eqb_spec n 32), (Nat.leb_spec 9 n), (Nat.leb_spec n 13); simpl; try done; lia.
Qed.

Lemma print_u_word n : 0 <= n -> wordb (print_u n).
Proof.
  intros Hn. unfold wordb. rewrite bool_decide_false; simpl.
  - eapply Is_true_true, forallb_forall. intros c Hc. apply Is_true_true, isdigit_wordchar.
    pose proof (print_digits_all (S (Z.to_nat (Z.log2 n))) n [] Hn I) as Ha.
    apply Is_true_true in Ha. rewrite forallb_forall in Ha. by apply Is_true_true, Ha.
  - unfold print_u. simpl. destruct (n <? 10); [done|]. by apply print_digits_nonnil.
Qed.

Lemma word_no_nul w : forallb wordchar w -> until_nul w = w.
Proof.
  induction w as [|c w IH]; simpl; [done|]. intros [Hc Hw]%andb_True.
  unfold wordchar in Hc. apply andb_True in Hc as [_ Hc].
  case_bool_decide; [done|]. by rewrite IH.
Qed.
Lemma word_no_space w : forallb wordchar w -> skip_spaces w = w.
Proof.
  destruct w as [|c w]; simpl; [done|]. intros [Hc _]%andb_True.
  unfold wordchar in Hc. apply andb_True in Hc as [Hc _]. by destruct (isspace c).
Qed.
Lemma wordb_chars w : wordb w -> w <> [] /\ forallb wordchar w.
Proof. unfold wordb. intros [H1 H2]%andb_True. split; [|done]. by intros ->. Qed.

Lemma scan_int_print_u n : 0 <= n -> scan_int (print_u n) = Some n.
Proof.
  intros Hn. destruct (wordb_chars _ (print_u_word n Hn)) as [Hnil Hw]. unfold scan_int.
  rewrite word_no_nul, word_no_space by (rewrite ?word_no_nul; done).
  pose proof (scan_print_u n Hn) as Hs.
  pose proof (print_digits_all (S (Z.to_nat (Z.log2 n))) n [] Hn I) as Ha. fold (print_u n) in Ha.
  destruct (print_u n) as [|c w]; [done|]. simpl in Ha. apply andb_True in Ha as [Hc _].
  assert (He : forall (A : Type) (x y z : A), match c with "-"%char => x | "+"%char => y | _ => z end = z)
    by (intros; destruct c as [[] [] [] [] [] [] [] []]; done).
  replace (match c with "-"%char => (true, w) | "+"%char => (false, w) | _ => (false, c :: w) end)
    with (false, c :: w) by by rewrite He.
  by rewrite Hs.
Qed.

Lemma sscanf_print_u n old : 0 <= n <= ULONG_MAX -> sscanf_lu (print_u n) old = n.
Proof.
  intros Hn. unfold sscanf_lu. rewrite scan_int_print_u by lia.
  rewrite (proj2 (Z.ltb_ge _ _)) by lia. apply Z.mod_small. unfold ULONG_MAX in Hn. lia.
Qed.

(** * Lists *)

Section lists.
Context {A : Type}.
Implicit Types (h : list (list A)) (c l : list A).

(** A table of chains around its [i]-th chain. *)
Lemma concat_split h i c :
  h !! i = Some c -> concat h = concat (take i h) ++ c ++ concat (drop (S i) h).
Proof.
  intros Hi. rewrite <- (take_drop_middle h i c Hi) at 1. by rewrite concat_app.
Qed.

Lemma concat_insert h i c c' :
  h !! i = Some c ->
  concat (<[i:=c']> h) = concat (take i h) ++ c' ++ concat (drop (S i) h).
Proof.
  intros Hi. rewrite insert_take_drop by by eapply lookup_lt_Some.
  by rewrite concat_app.
Qed.

Lemma concat_insert_perm h i c c' :
  h !! i = Some c ->
  exists rest, concat h ≡ₚ c ++ rest /\ concat (<[i:=c']> h) ≡ₚ c' ++ rest.
Proof.
  intros Hi. exists (concat (take i h) ++ concat (drop (S i) h)).
  rewrite (concat_split h i c Hi), (concat_insert h i c c' Hi). split; solve_Permutation.
Qed.

Lemma elem_of_concat h (x : A) :
  x ∈ concat h <-> exists i c, h !! i = Some c /\ x ∈ c.
Proof.
  rewrite list_elem_of_In, in_concat. split.
  - intros (c & Hc & Hx). apply list_elem_of_In, list_elem_of_lookup in Hc as [i Hi].
    exists i, c. by rewrite list_elem_of_In.
  - intros (i & c & Hi & Hx). exists c. rewrite <- !list_elem_of_In.
    split; [by eapply list_elem_of_lookup_2 | done].
Qed.
End lists.
