(* ===== verification/HashTable.v ===== *)
(** The chained hash table of condor_utils/HashTable.h.

    A bucket ([HashBucket]) is a heap object: it has an address, which is what the iterator
    pointer [currentItem] holds.  [ht] is the array of chains, each chain the list of the
    buckets linked by [next].  [brk] is the allocator: the next address [new] returns.
    The first part defines the operations, the second part the invariant [wf], the
    abstraction [to_map] and the laws of every operation. *)

From S2P Require Import Prelude.

Open Scope Z_scope.

Module HT.

(** What insert() does with a key that is already in the table. *)
Inductive duplicateKeyBehavior_t :=
| allowDuplicateKeys
| rejectDuplicateKeys
| updateDuplicateKeys.

#[export] Instance duplicateKeyBehavior_eq_dec : EqDecision duplicateKeyBehavior_t.
Proof. solve_decision. Defined.

Record HashBucket (Index Value : Type) := mkBucket {
  addr : nat;        (** where the bucket was allocated *)
  index : Index;
  value : Value
}.
Arguments mkBucket {Index Value} addr index value.
Arguments addr {Index Value} b : rename.
Arguments index {Index Value} b : rename.
Arguments value {Index Value} b : rename.

Record HashTable (Index Value : Type) := mkTable {
  tableSize : Z;
  ht : list (list (HashBucket Index Value));
  duplicateKeyBehavior : duplicateKeyBehavior_t;
  currentBucket : Z;
  currentItem : option nat;
  numElems : Z;
  brk : nat
}.
Arguments mkTable {Index Value}.
Arguments tableSize {Index Value} t : rename.
Arguments ht {Index Value} t : rename.
Arguments duplicateKeyBehavior {Index Value} t : rename.
Arguments currentBucket {Index Value} t : rename.
Arguments currentItem {Index Value} t : rename.
Arguments numElems {Index Value} t : rename.
Arguments brk {Index Value} t : rename.

Section operations.
Context {Index Value : Type} `{EqDecision Index}.
(** The user-provided hash function, an [unsigned int]. *)
Variable hashfcn : Index -> Z.

Implicit Types (t : HashTable Index Value) (k : Index) (v : Value).
Implicit Types (c : list (HashBucket Index Value)).

Definition set_ht t h : HashTable Index Value :=
  mkTable (tableSize t) h (duplicateKeyBehavior t) (currentBucket t) (currentItem t)
    (numElems t) (brk t).
Definition set_cursor t (b : Z) (i : option nat) : HashTable Index Value :=
  mkTable (tableSize t) (ht t) (duplicateKeyBehavior t) b i (numElems t) (brk t).
Definition set_numElems t (n : Z) : HashTable Index Value :=
  mkTable (tableSize t) (ht t) (duplicateKeyBehavior t) (currentBucket t) (currentItem t)
    n (brk t).

(** [new HashBucket* [tableSize]] with every chain NULL, tableSize = 7. *)
Definition initialize (behavior : duplicateKeyBehavior_t) : HashTable Index Value :=
  mkTable 7 (replicate 7 []) behavior (-1) None 0 0.

(** [(int)(hashfcn(index) % n)], and the chain [ht[i]]. *)
Definition slot (n : Z) k : nat := Z.to_nat (hashfcn k mod n).
Definition chain t (i : nat) : list (HashBucket Index Value) := default [] (ht t !! i).

(** The [while(bucket) if(bucket->index == index)] loops. *)
Fixpoint find_bucket k c : option (HashBucket Index Value) :=
  match c with
  | [] => None
  | b :: c' => if bool_decide (index b = k) then Some b else find_bucket k c'
  end.

(** [bucket->value = f(bucket->value)] at the first bucket with the key. *)
Fixpoint update_bucket k (f : Value -> Value) c : list (HashBucket Index Value) :=
  match c with
  | [] => []
  | b :: c' =>
      if bool_decide (index b = k)
      then mkBucket (addr b) (index b) (f (value b)) :: c'
      else b :: update_bucket k f c'
  end.

(** [(double) numElems / (double) tableSize >= 0.8].  For positive 31-bit operands the
    correctly rounded quotient reaches the double nearest to 4/5 exactly when the exact
    quotient reaches 4/5: two such quotients differ by at least 1/(5*2^31), far more
    than half a unit in the last place of 0.8. *)
Definition needs_resizing t : bool := 4 * tableSize t <=? 5 * numElems t.

(** One step of the rehashing loop: [cur->next = htcopy[idx]; htcopy[idx] = cur]. *)
Definition push (n : Z) (h : list (list (HashBucket Index Value)))
    (b : HashBucket Index Value) : list (list (HashBucket Index Value)) :=
  <[slot n (index b) := b :: default [] (h !! slot n (index b))]> h.

Definition resize_hash_table t (newsize : Z) : HashTable Index Value :=
  let newsize := if newsize <=? 0 then (tableSize t + 1) * 2 - 1 else newsize in
  let htcopy := replicate (Z.to_nat newsize) [] in
  mkTable newsize (foldl (push newsize) htcopy (concat (ht t)))
    (duplicateKeyBehavior t) (-1) None (numElems t) (brk t).

Definition addItem t k v : HashTable Index Value :=
  let idx := slot (tableSize t) k in
  let t1 := mkTable (tableSize t) (<[idx := mkBucket (brk t) k v :: chain t idx]> (ht t))
              (duplicateKeyBehavior t) (currentBucket t) (currentItem t)
              (numElems t + 1) (S (brk t)) in
  if needs_resizing t1 then resize_hash_table t1 (-1) else t1.

Definition insert t k v : HashTable Index Value * Z :=
  let idx := slot (tableSize t) k in
  match duplicateKeyBehavior t with
  | rejectDuplicateKeys =>
      match find_bucket k (chain t idx) with
      | Some _ => (t, -1)
      | None => (addItem t k v, 0)
      end
  | updateDuplicateKeys =>
      match find_bucket k (chain t idx) with
      | Some _ => (set_ht t (<[idx := update_bucket k (fun _ => v) (chain t idx)]> (ht t)), 0)
      | None => (addItem t k v, 0)
      end
  | allowDuplicateKeys => (addItem t k v, 0)
  end.

(** [None] is the return code -1. *)
Definition lookup t k : option Value :=
  if numElems t =? 0 then None
  else value <$> find_bucket k (chain t (slot (tableSize t) k)).

Definition exists_ t k : Z :=
  if numElems t =? 0 then -1
  else match find_bucket k (chain t (slot (tableSize t) k)) with
       | Some _ => 0
       | None => -1
       end.

(** A write through the pointer that lookup() stored: the value of the bucket found is
    changed in place. *)
Definition modify t k (f : Value -> Value) : HashTable Index Value :=
  let idx := slot (tableSize t) k in
  if numElems t =? 0 then t
  else set_ht t (<[idx := update_bucket k f (chain t idx)]> (ht t)).

(** The rest of the chain after the bucket at address [a]; [None] when the chain does not
    hold it. *)
Fixpoint after (a : nat) c : option (list (HashBucket Index Value)) :=
  match c with
  | [] => None
  | b :: c' => if bool_decide (addr b = a) then Some c' else after a c'
  end.
Fixpoint find_after (a : nat) (h : list (list (HashBucket Index Value)))
  : option (list (HashBucket Index Value)) :=
  match h with
  | [] => None
  | c :: h' => match after a c with Some r => Some r | None => find_after a h' end
  end.

(** getNext(): the next bucket with the key after [current] (a bucket address, NULL for
    the head of the chain).  The outer [None] is the dereference of a freed bucket. *)
Definition getNext t k (current : option nat) : option (option (Value * nat)) :=
  match current with
  | None =>
      Some ((fun b => (value b, addr b)) <$> find_bucket k (chain t (slot (tableSize t) k)))
  | Some a =>
      match find_after a (ht t) with
      | Some rest => Some ((fun b => (value b, addr b)) <$> find_bucket k rest)
      | None => None
      end
  end.

(** The unlinking loop of remove(): the chain without the first bucket with the key, the
    address of that bucket, and the address of its predecessor (NULL at the head). *)
Fixpoint unlink k (prevBuc : option nat) c
  : option (list (HashBucket Index Value) * nat * option nat) :=
  match c with
  | [] => None
  | b :: c' =>
      if bool_decide (index b = k) then Some (c', addr b, prevBuc)
      else match unlink k (Some (addr b)) c' with
           | Some (r, a, p) => Some (b :: r, a, p)
           | None => None
           end
  end.

Definition remove t k : HashTable Index Value * Z :=
  let idx := slot (tableSize t) k in
  match unlink k None (chain t idx) with
  | None => (t, -1)
  | Some (c, a, prevBuc) =>
      let t1 := set_numElems (set_ht t (<[idx := c]> (ht t))) (numElems t - 1) in
      let t2 :=
        if bool_decide (currentItem t = Some a) then
          match prevBuc with
          | None => set_cursor t1 (currentBucket t - 1) None
          | Some p => set_cursor t1 (currentBucket t) (Some p)
          end
        else t1 in
      (t2, 0)
  end.

(** clear() frees every bucket; it leaves the iterator where it was. *)
Definition clear t : HashTable Index Value :=
  set_numElems (set_ht t ((fun _ => []) <$> ht t)) 0.

Definition startIterations t : HashTable Index Value := set_cursor t (-1) None.

(** [do { currentBucket++; ... currentItem = ht[currentBucket]; } while(!currentItem)] over
    the chains from [currentBucket+1] on. *)
Fixpoint next_bucket (h : list (list (HashBucket Index Value))) (b : Z)
  : option (Z * HashBucket Index Value) :=
  match h with
  | [] => None
  | [] :: h' => next_bucket h' (b + 1)
  | (x :: _) :: _ => Some (b, x)
  end.

Definition advance t : HashTable Index Value * option (Index * Value) :=
  match next_bucket (drop (Z.to_nat (currentBucket t + 1)) (ht t)) (currentBucket t + 1) with
  | Some (b, x) => (set_cursor t b (Some (addr x)), Some (index x, value x))
  | None => (set_cursor t (-1) None, None)
  end.

(** iterate(index, value); the outer [None] is the dereference of a freed bucket, the inner
    one the return code 0 at the end of the table. *)
Definition iterate t : option (HashTable Index Value * option (Index * Value)) :=
  match currentItem t with
  | None => Some (advance t)
  | Some a =>
      match find_after a (ht t) with
      | None => None
      | Some (x :: _) =>
          Some (set_cursor t (currentBucket t) (Some (addr x)), Some (index x, value x))
      | Some [] => Some (advance t)
      end
  end.

(** iterate(value) *)
Definition iterate_value t : option (HashTable Index Value * option Value) :=
  match iterate t with
  | Some (t', r) => Some (t', snd <$> r)
  | None => None
  end.

Fixpoint find_addr (a : nat) c : option (HashBucket Index Value) :=
  match c with
  | [] => None
  | b :: c' => if bool_decide (addr b = a) then Some b else find_addr a c'
  end.

(** getCurrentKey(): -1 when there is no current item. *)
Definition getCurrentKey t : option (option Index) :=
  match currentItem t with
  | None => Some None
  | Some a => match find_addr a (concat (ht t)) with
              | Some b => Some (Some (index b))
              | None => None
              end
  end.

(** walk(): [walkfunc] is an effectful callback; the walk stops at the first zero. *)
Section walk.
Context {S : Type}.
Variable walkfunc : S -> Value -> S * bool.
Fixpoint walk_list (c : list (HashBucket Index Value)) (s : S) : S * bool :=
  match c with
  | [] => (s, true)
  | b :: c' => match walkfunc s (value b) with
               | (s', true) => walk_list c' s'
               | (s', false) => (s', false)
               end
  end.
Definition walk t (s : S) : S * bool := walk_list (concat (ht t)) s.
End walk.

(** copy_deep(): every chain is duplicated bucket by bucket (addresses are local to a
    table); the current item is taken over only if it is one of the copied buckets. *)
Definition copy_deep t : HashTable Index Value :=
  set_cursor t (currentBucket t)
    match currentItem t with
    | Some a => match find_addr a (concat (ht t)) with Some _ => Some a | None => None end
    | None => None
    end.
End operations.

(** ** The invariant and the abstraction *)

Section laws.
Context {Index Value : Type} `{Countable Index}.
Variable hashfcn : Index -> Z.

Implicit Types (t : HashTable Index Value) (k : Index) (v : Value).
Implicit Types (b : HashBucket Index Value) (c : list (HashBucket Index Value)).
Implicit Types (h : list (list (HashBucket Index Value))).

Definition contents t : list (HashBucket Index Value) := concat (ht t).
Definition entry b : Index * Value := (index b, value b).
Definition entries t : list (Index * Value) := entry <$> contents t.

(** Every bucket of the [i]-th chain hashes to [i]. *)
Definition placed (n : Z) h : Prop :=
  forall i c b, h !! i = Some c -> b ∈ c -> slot hashfcn n (index b) = i.

(** The iterator is before a chain, or at a bucket of the current chain. *)
Definition cursor_ok t : Prop :=
  match currentItem t with
  | None => -1 <= currentBucket t < tableSize t
  | Some a => 0 <= currentBucket t < tableSize t /\
              a ∈ addr <$> chain t (Z.to_nat (currentBucket t))
  end.

Record wf t : Prop := {
  wf_pos : 0 < tableSize t;
  wf_len : length (ht t) = Z.to_nat (tableSize t);
  wf_placed : placed (tableSize t) (ht t);
  wf_addr : NoDup (addr <$> contents t);
  wf_brk : Forall (fun b => (addr b < brk t)%nat) (contents t);
  wf_num : numElems t = Z.of_nat (length (contents t));
  wf_cursor : cursor_ok t
}.

(** No key occurs twice. *)
Definition unique t : Prop := NoDup (index <$> contents t).

(** The finite map a table with unique keys stands for. *)
Definition to_map t : gmap Index Value := list_to_map (entries t).

(** The load factor is below 0.8. *)
Definition light t : Prop := 5 * numElems t < 4 * tableSize t.

Lemma fst_entries t : (entries t).*1 = index <$> contents t.
Proof. unfold entries. by rewrite <- list_fmap_compose. Qed.

Lemma slot_lt n k : 0 < n -> (slot hashfcn n k < Z.to_nat n)%nat.
Proof. intros Hn. unfold slot. pose proof (Z.mod_pos_bound (hashfcn k) n Hn). lia. Qed.

Lemma chain_Some t k :
  wf t -> ht t !! slot hashfcn (tableSize t) k = Some (chain t (slot hashfcn (tableSize t) k)).
Proof.
  intros Hwf. unfold chain.
  destruct (lookup_lt_is_Some_2 (ht t) (slot hashfcn (tableSize t) k)) as [c Hc].
  { rewrite (wf_len t Hwf). apply slot_lt, Hwf. }
  by rewrite Hc.
Qed.

(** A bucket with key [k] is in the table iff it is in the chain of [k]. *)
Lemma in_chain t b k :
  wf t -> index b = k ->
  b ∈ contents t <-> b ∈ chain t (slot hashfcn (tableSize t) k).
Proof.
  intros Hwf <-. unfold contents. rewrite elem_of_concat. split.
  - intros (i & c & Hi & Hb). rewrite (wf_placed t Hwf i c b Hi Hb).
    unfold chain. by rewrite Hi.
  - intros Hb. eauto using chain_Some.
Qed.

Lemma find_bucket_Some k c b :
  find_bucket k c = Some b -> b ∈ c /\ index b = k.
Proof.
  induction c as [|b' c IH]; simpl; [done|].
  case_bool_decide; intros; simplify_eq; [set_solver|]. destruct IH; set_solver.
Qed.
Lemma find_bucket_None k c b :
  find_bucket k c = None -> b ∈ c -> index b <> k.
Proof.
  induction c as [|b' c IH]; simpl; [set_solver|].
  case_bool_decide; [done|]. set_solver.
Qed.
Lemma find_bucket_unique k c b :
  NoDup (index <$> c) -> b ∈ c -> index b = k -> find_bucket k c = Some b.
Proof.
  induction c as [|b' c IH]; simpl; [set_solver|].
  intros [Hn Hd]%NoDup_cons Hb Hk. case_bool_decide as He.
  - apply elem_of_cons in Hb as [->|Hb]; [done|].
    destruct Hn. rewrite He, <- Hk. by apply list_elem_of_fmap_2.
  - apply IH; set_solver.
Qed.

Lemma to_map_Some t k v :
  unique t -> to_map t !! k = Some v <-> exists b, b ∈ contents t /\ entry b = (k, v).
Proof.
  intros Hu. unfold to_map. rewrite <- elem_of_list_to_map by by rewrite fst_entries.
  unfold entries. rewrite list_elem_of_fmap. naive_solver.
Qed.

Lemma unique_chain t k : wf t -> unique t -> NoDup (index <$> chain t (slot hashfcn (tableSize t) k)).
Proof.
  intros Hwf Hu. unfold unique, contents in Hu.
  rewrite (concat_split _ _ _ (chain_Some t k Hwf)), !fmap_app in Hu.
  apply NoDup_app in Hu as (_ & _ & Hu). by apply NoDup_app in Hu as (Hu & _).
Qed.

Lemma find_to_map t k :
  wf t -> unique t ->
  value <$> find_bucket k (chain t (slot hashfcn (tableSize t) k)) = to_map t !! k.
Proof.
  intros Hwf Hu. destruct (find_bucket _ _) as [b|] eqn:Hf; simpl; symmetry.
  - apply find_bucket_Some in Hf as [Hb Hk]. apply to_map_Some; [done|].
    exists b. unfold entry. split; [by eapply in_chain | congruence].
  - apply eq_None_not_Some. intros [v (b & Hb & [= Hk Hv])%to_map_Some]; [|done].
    eapply find_bucket_None; [exact Hf | by apply in_chain | done].
Qed.

Lemma numElems_0 t : wf t -> numElems t = 0 -> contents t = [].
Proof. intros Hwf Hn. pose proof (wf_num t Hwf). destruct (contents t); [done | simpl in *; lia]. Qed.

(** lookup() on a table with unique keys is the lookup of the map. *)
Lemma lookup_to_map t k : wf t -> unique t -> lookup hashfcn t k = to_map t !! k.
Proof.
  intros Hwf Hu. unfold lookup. destruct (Z.eqb_spec (numElems t) 0) as [He|].
  - unfold to_map, entries. by rewrite (numElems_0 t Hwf He).
  - by apply find_to_map.
Qed.

(** *** Insertion and rehashing *)

Lemma push_spec n h b :
  0 < n -> length h = Z.to_nat n -> placed n h ->
  length (push hashfcn n h b) = Z.to_nat n /\ placed n (push hashfcn n h b) /\
  concat (push hashfcn n h b) ≡ₚ b :: concat h.
Proof.
  intros Hn Hl Hp. unfold push. set (i := slot hashfcn n (index b)).
  assert (Hi : (i < length h)%nat) by (rewrite Hl; by apply slot_lt).
  destruct (lookup_lt_is_Some_2 h i Hi) as [c Hc]. rewrite Hc; simpl.
  split; [by rewrite length_insert|]. split.
  - intros j c' b' Hj Hb'. destruct (decide (i = j)) as [<-|].
    + rewrite list_lookup_insert_eq in Hj by done. simplify_eq.
      apply elem_of_cons in Hb' as [->|Hb']; [done | by eapply Hp].
    + rewrite list_lookup_insert_ne in Hj by done. by eapply Hp.
  - destruct (concat_insert_perm h i c (b :: c) Hc) as (r & H1 & H2).
    by rewrite H2, H1.
Qed.

Lemma foldl_push_spec n l h :
  0 < n -> length h = Z.to_nat n -> placed n h ->
  length (foldl (push hashfcn n) h l) = Z.to_nat n /\
  placed n (foldl (push hashfcn n) h l) /\
  concat (foldl (push hashfcn n) h l) ≡ₚ l ++ concat h.
Proof.
  intros Hn. revert h. induction l as [|b l IH]; intros h Hl Hp; simpl; [done|].
  destruct (push_spec n h b Hn Hl Hp) as (Hl' & Hp' & Hc).
  destruct (IH _ Hl' Hp') as (? & ? & Hc'). repeat split; [done..|].
  rewrite Hc', Hc. solve_Permutation.
Qed.

Lemma replicate_nil_placed n m : placed n (replicate m []).
Proof. intros i c b [-> _]%lookup_replicate. set_solver. Qed.
Lemma concat_replicate_nil {A} m : concat (replicate m (@nil A)) = [].
Proof. by induction m. Qed.

Lemma resize_spec t ns :
  wf t ->
  let n := if ns <=? 0 then (tableSize t + 1) * 2 - 1 else ns in
  wf (resize_hash_table hashfcn t ns) /\
  contents (resize_hash_table hashfcn t ns) ≡ₚ contents t /\
  tableSize (resize_hash_table hashfcn t ns) = n.
Proof.
  intros Hwf n. pose proof (wf_pos t Hwf).
  assert (Hn : 0 < n) by (unfold n; destruct (Z.leb_spec ns 0); lia).
  destruct (foldl_push_spec n (concat (ht t)) (replicate (Z.to_nat n) [])) as (Hl & Hp & Hc);
    [done | by rewrite length_replicate | apply replicate_nil_placed |].
  rewrite concat_replicate_nil, app_nil_r in Hc.
  assert (Hperm : contents (resize_hash_table hashfcn t ns) ≡ₚ contents t) by done.
  split; [|done]. split; try done.
  - by rewrite Hperm; apply Hwf.
  - by rewrite Hperm; apply Hwf.
  - simpl. rewrite (wf_num t Hwf). by rewrite Hperm.
  - unfold cursor_ok; simpl. lia.
Qed.

(** The table of addItem() before the load factor is checked. *)
Definition link t k v : HashTable Index Value :=
  let idx := slot hashfcn (tableSize t) k in
  mkTable (tableSize t) (<[idx := mkBucket (brk t) k v :: chain t idx]> (ht t))
    (duplicateKeyBehavior t) (currentBucket t) (currentItem t) (numElems t + 1) (S (brk t)).

Lemma link_spec t k v :
  wf t -> wf (link t k v) /\ contents (link t k v) ≡ₚ mkBucket (brk t) k v :: contents t.
Proof.
  intros Hwf. pose proof (chain_Some t k Hwf) as Hc.
  set (idx := slot hashfcn (tableSize t) k) in *.
  set (b := mkBucket (brk t) k v).
  assert (Hperm : contents (link t k v) ≡ₚ b :: contents t).
  { unfold contents; simpl.
    destruct (concat_insert_perm _ idx _ (b :: chain t idx) Hc) as (r & H1 & H2).
    fold idx b. by rewrite H2, H1. }
  split; [|done]. split.
  - apply Hwf.
  - simpl. rewrite length_insert. apply Hwf.
  - intros j c' b' Hj Hb'; simpl in *. fold idx b in Hj. destruct (decide (idx = j)) as [<-|].
    + rewrite list_lookup_insert_eq in Hj by by eapply lookup_lt_Some. simplify_eq.
      apply elem_of_cons in Hb' as [->|Hb']; [done | by eapply (wf_placed t Hwf)].
    + rewrite list_lookup_insert_ne in Hj by done. by eapply (wf_placed t Hwf).
  - rewrite Hperm. simpl. apply NoDup_cons. split; [|apply Hwf].
    intros (b' & Hb' & Hin)%list_elem_of_fmap.
    pose proof (wf_brk t Hwf) as Hbrk. rewrite Forall_forall in Hbrk.
    specialize (Hbrk b' Hin). simpl in *. lia.
  - rewrite Hperm. constructor; [simpl; lia|].
    eapply Forall_impl; [apply Hwf|]. simpl. intros; lia.
  - simpl. rewrite (wf_num t Hwf), Hperm. simpl. lia.
  - pose proof (wf_cursor t Hwf) as Hcur. unfold cursor_ok in *; simpl.
    destruct (currentItem t) as [a|]; [|done]. destruct Hcur as [Hb Ha]. split; [done|].
    unfold chain in *; simpl. fold idx b. destruct (decide (idx = Z.to_nat (currentBucket t))) as [He|].
    + rewrite <- He in *. rewrite list_lookup_insert_eq by by eapply lookup_lt_Some.
      simpl. apply elem_of_cons. by right.
    + by rewrite list_lookup_insert_ne.
Qed.

(** addItem() keeps the invariant, adds exactly one bucket, and leaves the load factor
    below 0.8 if it was below before. *)
Lemma addItem_spec t k v :
  wf t ->
  wf (addItem hashfcn t k v) /\
  contents (addItem hashfcn t k v) ≡ₚ mkBucket (brk t) k v :: contents t /\
  duplicateKeyBehavior (addItem hashfcn t k v) = duplicateKeyBehavior t /\
  (light t -> light (addItem hashfcn t k v)).
Proof.
  intros Hwf. destruct (link_spec t k v Hwf) as [Hwf1 Hc1]. pose proof (wf_pos t Hwf).
  change (addItem hashfcn t k v) with
    (if needs_resizing (link t k v) then resize_hash_table hashfcn (link t k v) (-1)
     else link t k v).
  unfold needs_resizing, light. destruct (Z.leb_spec (4 * tableSize (link t k v)) (5 * numElems (link t k v))).
  - destruct (resize_spec (link t k v) (-1) Hwf1) as (Hwf2 & Hc2 & Hs).
    split_and!; [done | by rewrite Hc2 | done |]. rewrite Hs. simpl in *. lia.
  - split_and!; [done..|]. simpl in *; lia.
Qed.

Lemma perm_to_map t t' k v :
  unique t -> contents t' ≡ₚ mkBucket (brk t) k v :: contents t ->
  to_map t !! k = None ->
  unique t' /\ to_map t' = <[k:=v]> (to_map t).
Proof.
  intros Hu Hp Hk. assert (Hu' : unique t').
  { unfold unique. rewrite Hp. simpl. apply NoDup_cons. split; [|done].
    apply not_elem_of_list_to_map in Hk. by rewrite fst_entries in Hk. }
  split; [done|]. unfold to_map.
  rewrite (list_to_map_proper (entries t') ((k, v) :: entries t)).
  - done.
  - by rewrite fst_entries.
  - unfold entries. by rewrite Hp.
Qed.

(** *** In-place updates *)

Lemma update_bucket_shape k f c :
  addr <$> update_bucket k f c = addr <$> c /\ index <$> update_bucket k f c = index <$> c.
Proof.
  induction c as [|b c [IH1 IH2]]; simpl; [done|].
  case_bool_decide; simpl; split; [done..| |]; f_equal; done.
Qed.

Lemma fmap_contents_set {B} (g : HashBucket Index Value -> B) t i c c' :
  ht t !! i = Some c -> g <$> c' = g <$> c ->
  g <$> contents (set_ht t (<[i:=c']> (ht t))) = g <$> contents t.
Proof.
  intros Hi Hg. unfold contents; simpl.
  rewrite (concat_insert _ _ _ _ Hi), (concat_split _ _ _ Hi), !fmap_app. by rewrite Hg.
Qed.

Lemma wf_same_shape t i c c' :
  wf t -> ht t !! i = Some c -> addr <$> c' = addr <$> c -> index <$> c' = index <$> c ->
  wf (set_ht t (<[i:=c']> (ht t))).
Proof.
  intros Hwf Hi Ha Hx. pose proof (fmap_contents_set addr t i c c' Hi Ha) as Hac.
  split; try apply Hwf.
  - simpl. rewrite length_insert. apply Hwf.
  - intros j cj b Hj Hb; simpl in *. destruct (decide (i = j)) as [<-|].
    + rewrite list_lookup_insert_eq in Hj by by eapply lookup_lt_Some. simplify_eq.
      apply (list_elem_of_fmap_2 index) in Hb. rewrite Hx in Hb.
      apply list_elem_of_fmap in Hb as (b' & -> & Hb'). by eapply (wf_placed t Hwf).
    + rewrite list_lookup_insert_ne in Hj by done. by eapply (wf_placed t Hwf).
  - rewrite Hac. apply Hwf.
  - pose proof (wf_brk t Hwf) as Hb. rewrite Forall_forall in Hb |- *. intros b Hin.
    apply (list_elem_of_fmap_2 addr) in Hin. rewrite Hac in Hin.
    apply list_elem_of_fmap in Hin as (b' & -> & ?). simpl. eauto.
  - rewrite <- (length_fmap addr), Hac, length_fmap. apply Hwf.
  - pose proof (wf_cursor t Hwf) as Hcur. unfold cursor_ok in *; simpl.
    destruct (currentItem t); [|done]. destruct Hcur as [? Hin]. split; [done|].
    unfold chain in *; simpl. destruct (decide (i = Z.to_nat (currentBucket t))) as [->|].
    + rewrite list_lookup_insert_eq by by eapply lookup_lt_Some.
      rewrite Hi in Hin. simpl in *. by rewrite Ha.
    + by rewrite list_lookup_insert_ne.
Qed.

Lemma elem_of_update k f c b :
  NoDup (index <$> c) ->
  b ∈ update_bucket k f c <->
  exists b', b' ∈ c /\ b = if bool_decide (index b' = k)
                          then mkBucket (addr b') (index b') (f (value b')) else b'.
Proof.
  induction c as [|b0 c IH]; simpl; [set_solver|]. intros [Hn Hd]%NoDup_cons.
  case_bool_decide as He; rewrite !elem_of_cons.
  - split.
    + intros [->|Hb]; [exists b0; case_bool_decide; set_solver|].
      exists b. rewrite bool_decide_false; [set_solver|].
      intros <-. destruct Hn. rewrite He. by apply list_elem_of_fmap_2.
    + intros (b' & Hb' & ->). apply elem_of_cons in Hb' as [->|Hb']; [rewrite bool_decide_true by done; by left|].
      rewrite bool_decide_false; [by right|].
      intros <-. destruct Hn. rewrite He. by apply list_elem_of_fmap_2.
  - rewrite (IH Hd). setoid_rewrite elem_of_cons. split.
    + intros [->|(b' & ? & ?)]; [exists b0; rewrite bool_decide_false; auto|eauto].
    + intros (b' & [->|Hb'] & ->); [left; by rewrite bool_decide_false|eauto].
Qed.

Lemma update_bucket_app k f c c' :
  Forall (fun b => index b <> k) c' -> update_bucket k f (c ++ c') = update_bucket k f c ++ c'.
Proof.
  intros Hc'. induction c as [|b c IH]; simpl.
  - induction Hc' as [|b' c' ? ? IH]; simpl; [done|]. rewrite bool_decide_false by done. congruence.
  - case_bool_decide; [done|]. simpl. congruence.
Qed.
Lemma update_bucket_skip k f c c' :
  Forall (fun b => index b <> k) c -> update_bucket k f (c ++ c') = c ++ update_bucket k f c'.
Proof. induction 1; simpl; [done|]. rewrite bool_decide_false by done. congruence. Qed.

(** Outside its chain the key does not occur. *)
Lemma other_chains t k :
  wf t ->
  let i := slot hashfcn (tableSize t) k in
  Forall (fun b => index b <> k) (concat (take i (ht t))) /\
  Forall (fun b => index b <> k) (concat (drop (S i) (ht t))).
Proof.
  intros Hwf i. split; apply Forall_forall; intros b (j & c & Hj & Hb)%elem_of_concat Hk.
  - apply lookup_take_Some in Hj as [Hj Hlt].
    pose proof (wf_placed t Hwf j c b Hj Hb). subst k. lia.
  - rewrite lookup_drop in Hj. pose proof (wf_placed t Hwf _ c b Hj Hb). subst k. lia.
Qed.

Definition poke t k f : HashTable Index Value :=
  set_ht t (<[slot hashfcn (tableSize t) k :=
    update_bucket k f (chain t (slot hashfcn (tableSize t) k))]> (ht t)).

Lemma contents_poke t k f : wf t -> contents (poke t k f) = update_bucket k f (contents t).
Proof.
  intros Hwf. unfold contents; simpl. pose proof (chain_Some t k Hwf) as Hc.
  destruct (other_chains t k Hwf) as [H1 H2].
  rewrite (concat_insert _ _ _ _ Hc), (concat_split _ _ _ Hc).
  by rewrite update_bucket_skip, update_bucket_app.
Qed.

Lemma poke_spec t k f :
  wf t -> unique t ->
  wf (poke t k f) /\ unique (poke t k f) /\ to_map (poke t k f) = alter f k (to_map t).
Proof.
  intros Hwf Hu. destruct (update_bucket_shape k f (chain t (slot hashfcn (tableSize t) k))) as [Ha Hi].
  assert (Hu' : unique (poke t k f)).
  { unfold unique. rewrite contents_poke by done.
    by destruct (update_bucket_shape k f (contents t)) as [_ ->]. }
  split_and!; [by eapply wf_same_shape; eauto using chain_Some | done |].
  apply map_eq. intros j. apply option_eq. intros v.
  rewrite to_map_Some by done. rewrite contents_poke by done.
  setoid_rewrite elem_of_update; [|done]. rewrite lookup_alter.
  case_decide as Hj; [subst j; rewrite fmap_Some | rewrite to_map_Some by done].
  - split.
    + intros (b & (b' & Hb' & ->) & He). unfold entry in He. case_bool_decide; simplify_eq/=.
      exists (value b'). split; [|done]. apply to_map_Some; [done|].
      eexists; split; [done|]. unfold entry. congruence.
    + intros (x & (b & Hb & [= <- <-])%to_map_Some & ->); [|done].
      eexists. split; [eexists; split; [exact Hb | reflexivity]|].
      by rewrite bool_decide_true.
  - split.
    + intros (b & (b' & Hb' & ->) & He). unfold entry in He. case_bool_decide; simplify_eq/=.
      by exists b'.
    + intros (b & Hb & [= Hk Hv]). exists b. split; [|by unfold entry; congruence].
      exists b. split; [done|]. rewrite bool_decide_false; congruence.
Qed.

Lemma modify_spec t k f :
  wf t -> unique t ->
  wf (modify hashfcn t k f) /\ unique (modify hashfcn t k f) /\
  to_map (modify hashfcn t k f) = alter f k (to_map t).
Proof.
  intros Hwf Hu. unfold modify. destruct (Z.eqb_spec (numElems t) 0) as [He|].
  - split_and!; [done..|]. unfold to_map, entries. rewrite (numElems_0 t Hwf He). simpl.
    by rewrite alter_empty.
  - by apply poke_spec.
Qed.

(** insert() against the map: what each duplicate-key policy does. *)
Lemma insert_spec t k v :
  wf t -> unique t ->
  (duplicateKeyBehavior t = allowDuplicateKeys -> to_map t !! k = None) ->
  let '(t', r) := insert hashfcn t k v in
  wf t' /\ unique t' /\ (light t -> light t') /\
  duplicateKeyBehavior t' = duplicateKeyBehavior t /\
  if bool_decide (duplicateKeyBehavior t = rejectDuplicateKeys /\ is_Some (to_map t !! k))
  then t' = t /\ r = -1
  else to_map t' = <[k:=v]> (to_map t) /\ r = 0.
Proof.
  intros Hwf Hu Hallow. pose proof (find_to_map t k Hwf Hu) as Hf.
  destruct (addItem_spec t k v Hwf) as (Hwf' & Hp & Hd & Hl).
  assert (Hnew : to_map t !! k = None ->
    unique (addItem hashfcn t k v) /\ to_map (addItem hashfcn t k v) = <[k:=v]> (to_map t))
    by (intros; by apply perm_to_map).
  unfold insert. destruct (duplicateKeyBehavior t) eqn:Ht.
  - destruct Hnew; [by apply Hallow|]. rewrite bool_decide_false by naive_solver. done.
  - destruct (find_bucket _ _) as [b|]; simpl in Hf.
    + rewrite bool_decide_true by (rewrite <- Hf; eauto). done.
    + destruct Hnew; [done|]. rewrite bool_decide_false by (rewrite <- Hf; intros [_ []]; done).
      done.
  - rewrite bool_decide_false by naive_solver.
    destruct (find_bucket _ _) as [b|]; simpl in Hf.
    + destruct (poke_spec t k (fun _ => v) Hwf Hu) as (? & ? & Hm).
      split_and!; try done. transitivity (to_map (poke t k (fun _ => v))); [done|]. rewrite Hm.
      apply map_eq. intros j. rewrite lookup_alter, lookup_insert.
      case_decide; [subst; by rewrite <- Hf|done].
    + destruct Hnew; [done|]. done.
Qed.

(** *** Removal *)

Lemma unlink_spec k p c :
  match unlink k p c with
  | None => Forall (fun b => index b <> k) c
  | Some (c', a, p') => exists l1 b l2,
      c = l1 ++ b :: l2 /\ c' = l1 ++ l2 /\ index b = k /\ addr b = a /\
      p' = match last l1 with Some x => Some (addr x) | None => p end
  end.
Proof.
  revert p. induction c as [|b c IH]; intros p; simpl; [done|].
  case_bool_decide as Hk; [by exists [], b, c|].
  specialize (IH (Some (addr b))). destruct (unlink _ _ c) as [[[c' a] p']|].
  - destruct IH as (l1 & b' & l2 & -> & -> & Hb' & Ha & ->).
    exists (b :: l1), b', l2. split_and!; try done. destruct l1 as [|x l1]; [done|].
    rewrite last_cons_cons. destruct (last (x :: l1)) eqn:Hl; [done|].
    by apply last_None in Hl.
  - by constructor.
Qed.

(** Dropping the bucket at address [a] from a chain. *)
Definition without (a : nat) c : list (HashBucket Index Value) :=
  filter (fun b => addr b <> a) c.

Lemma without_id a c : a ∉ addr <$> c -> without a c = c.
Proof.
  induction c as [|b c IH]; intros Ha; [done|].
  unfold without. rewrite filter_cons_True by set_solver. f_equal. apply IH. set_solver.
Qed.
Lemma without_mid l1 b l2 :
  NoDup (addr <$> l1 ++ b :: l2) -> without (addr b) (l1 ++ b :: l2) = l1 ++ l2.
Proof.
  rewrite fmap_app. intros (_ & Hd & [Hn _]%NoDup_cons)%NoDup_app.
  unfold without. rewrite filter_app, filter_cons_False by naive_solver.
  fold (without (addr b) l1) (without (addr b) l2). rewrite !without_id; [done|set_solver..].
Qed.
Lemma without_app a c c' : without a (c ++ c') = without a c ++ without a c'.
Proof. apply filter_app. Qed.
Lemma without_concat a h : without a (concat h) = concat (without a <$> h).
Proof. induction h as [|c h IH]; [done|]. unfold without in *. simpl. by rewrite filter_app, IH. Qed.

Lemma NoDup_concat_addr h i j c c' a :
  NoDup (addr <$> concat h) -> h !! i = Some c -> h !! j = Some c' ->
  a ∈ addr <$> c -> a ∈ addr <$> c' -> i = j.
Proof.
  revert i j. induction h as [|c0 h IH]; intros i j Hd Hi Hj Ha Ha'; [done|].
  simpl in Hd. rewrite fmap_app in Hd. apply NoDup_app in Hd as (_ & Hd1 & Hd2).
  assert (Hsub : forall n d, h !! n = Some d -> a ∈ addr <$> d -> a ∈ addr <$> concat h).
  { intros n d Hn (b & -> & Hb)%list_elem_of_fmap. apply list_elem_of_fmap_2, elem_of_concat. eauto. }
  destruct i, j; simplify_eq/=; [done|naive_solver..|]. f_equal. by eapply IH.
Qed.

Lemma chain_nodup t i c : wf t -> ht t !! i = Some c -> NoDup (addr <$> c).
Proof.
  intros Hwf Hi. pose proof (wf_addr t Hwf) as Hd. unfold contents in Hd.
  rewrite (concat_split _ _ _ Hi), !fmap_app in Hd.
  by apply NoDup_app in Hd as (_ & _ & [Hd _]%NoDup_app).
Qed.

(** remove() of a key that is there: the table without that bucket. *)
Lemma remove_ht t k :
  wf t ->
  match unlink k None (chain t (slot hashfcn (tableSize t) k)) with
  | None => Forall (fun b => index b <> k) (contents t)
  | Some (c', a, _) => exists b, b ∈ contents t /\ index b = k /\ addr b = a /\
      <[slot hashfcn (tableSize t) k := c']> (ht t) = without a <$> ht t /\
      contents t ≡ₚ b :: without a (contents t)
  end.
Proof.
  intros Hwf. pose proof (chain_Some t k Hwf) as Hc. set (i := slot _ _ _) in *.
  pose proof (unlink_spec k None (chain t i)) as Hu.
  destruct (unlink _ _ _) as [[[c' a] p]|].
  - destruct Hu as (l1 & b & l2 & Hch & -> & Hk & <- & _).
    assert (Hin : b ∈ chain t i) by (rewrite Hch; set_solver).
    assert (Hnd : NoDup (addr <$> chain t i)).
    { by eapply chain_nodup. }
    exists b. split_and!; [by eapply in_chain | done | done | |].
    + apply list_eq. intros j. rewrite list_lookup_fmap. destruct (decide (i = j)) as [<-|Hne].
      * rewrite list_lookup_insert_eq by by eapply lookup_lt_Some.
        rewrite Hc. simpl. f_equal. symmetry. rewrite Hch. apply without_mid. by rewrite <- Hch.
      * rewrite list_lookup_insert_ne by done. destruct (ht t !! j) as [cj|] eqn:Hj; [|done].
        simpl. f_equal. symmetry. apply without_id. intros Ha. apply Hne.
        eapply NoDup_concat_addr; [apply Hwf| exact Hc | exact Hj | by apply list_elem_of_fmap_2 | done].
    + apply Permutation_sym. destruct (list_elem_of_split (contents t) b) as (m1 & m2 & Hm).
      { by eapply in_chain. }
      pose proof (wf_addr t Hwf) as Hd. rewrite Hm in Hd |- *. rewrite without_mid by done.
      solve_Permutation.
  - apply Forall_forall. intros b Hb Hk. rewrite Forall_forall in Hu.
    eapply Hu; [by eapply in_chain | done].
Qed.

Lemma after_app a l1 l2 b :
  a ∉ addr <$> l1 -> addr b = a -> after a (l1 ++ b :: l2) = Some l2.
Proof.
  intros Hn Hb. induction l1 as [|x l1 IH]; simpl.
  - by rewrite bool_decide_true.
  - rewrite bool_decide_false by set_solver. apply IH. set_solver.
Qed.
Lemma after_Some a c r : after a c = Some r -> exists l1 b, c = l1 ++ b :: r /\ addr b = a.
Proof.
  induction c as [|b c IH]; simpl; [done|]. case_bool_decide; intros; simplify_eq.
  - by exists [], b.
  - destruct IH as (l1 & b' & -> & ?); [done|]. by exists (b :: l1), b'.
Qed.
Lemma after_None a c : after a c = None <-> a ∉ addr <$> c.
Proof.
  induction c as [|b c IH]; simpl; [set_solver|]. rewrite not_elem_of_cons.
  case_bool_decide; naive_solver.
Qed.
Lemma after_without a a' c :
  a <> a' -> after a' (without a c) = without a <$> after a' c.
Proof.
  intros Hne. induction c as [|b c IH]; simpl; [done|].
  destruct (decide (addr b = a)) as [Ha|Ha].
  - unfold without. rewrite filter_cons_False by naive_solver.
    rewrite (bool_decide_false (addr b = a')) by congruence. apply IH.
  - unfold without. rewrite filter_cons_True by done. simpl.
    case_bool_decide; [done|]. apply IH.
Qed.

(** *** Iteration *)

(** The buckets the iterator has still to return. *)
Definition remaining t : list (HashBucket Index Value) :=
  match currentItem t with
  | None => concat (drop (Z.to_nat (currentBucket t + 1)) (ht t))
  | Some a =>
      default [] (after a (chain t (Z.to_nat (currentBucket t)))) ++
      concat (drop (S (Z.to_nat (currentBucket t))) (ht t))
  end.

Lemma find_after_chain h i c a :
  NoDup (addr <$> concat h) -> h !! i = Some c -> a ∈ addr <$> c ->
  find_after a h = after a c.
Proof.
  intros Hd Hi Ha. revert i Hi Hd. induction h as [|c0 h IH]; intros i Hi Hd; [done|]. simpl.
  destruct (after a c0) as [r|] eqn:Haf.
  - assert (Ha0 : a ∈ addr <$> c0).
    { destruct (decide (a ∈ addr <$> c0)) as [|Hn]; [done|]. by apply after_None in Hn; congruence. }
    assert (i = O) as -> by by eapply (NoDup_concat_addr (c0 :: h) i O).
    by simplify_eq/=.
  - destruct i as [|i]; simplify_eq/=; [by apply after_None in Haf|].
    eapply IH; [done|]. rewrite fmap_app in Hd. by apply NoDup_app in Hd as (_ & _ & Hd).
Qed.

Lemma next_bucket_spec h (b0 : Z) :
  match next_bucket h b0 with
  | None => concat h = []
  | Some (b, x) => exists (j : nat) r,
      b = b0 + Z.of_nat j /\ h !! j = Some (x :: r) /\
      concat h = x :: r ++ concat (drop (S j) h)
  end.
Proof.
  revert b0. induction h as [|[|x r] h IH]; intros b0; simpl; [done| |].
  - specialize (IH (b0 + 1)). destruct (next_bucket h (b0 + 1)) as [[b x]|]; [|done].
    destruct IH as (j & r & -> & Hj & Hc). exists (S j), r. split; [lia|]. done.
  - exists O, r. split; [lia|]. by rewrite drop_0.
Qed.

Lemma wf_set_cursor t (n : Z) i : wf t -> cursor_ok (set_cursor t n i) -> wf (set_cursor t n i).
Proof. intros Hwf Hc. split; [apply Hwf..|done]. Qed.

Lemma advance_spec t :
  wf t -> -1 <= currentBucket t < tableSize t ->
  match concat (drop (Z.to_nat (currentBucket t + 1)) (ht t)) with
  | [] => advance t = (startIterations t, None)
  | b :: r => exists n, advance t = (set_cursor t n (Some (addr b)), Some (entry b)) /\
      wf (set_cursor t n (Some (addr b))) /\ remaining (set_cursor t n (Some (addr b))) = r
  end.
Proof.
  intros Hwf Hcb. unfold advance. set (m := Z.to_nat (currentBucket t + 1)).
  pose proof (next_bucket_spec (drop m (ht t)) (currentBucket t + 1)) as Hn.
  destruct (next_bucket _ _) as [[n x]|]; [|by rewrite Hn].
  destruct Hn as (j & r & -> & Hj & ->). rewrite lookup_drop in Hj.
  assert (Hlt : (m + j < length (ht t))%nat) by by eapply lookup_lt_Some.
  rewrite (wf_len t Hwf) in Hlt.
  assert (Hm : Z.to_nat (currentBucket t + 1 + Z.of_nat j) = (m + j)%nat) by lia.
  exists (currentBucket t + 1 + Z.of_nat j). split; [done|]. split.
  - apply wf_set_cursor; [done|]. unfold cursor_ok, chain; simpl. split; [lia|].
    rewrite Hm, Hj. simpl. set_solver.
  - unfold remaining, chain; simpl. rewrite Hm, Hj. simpl. rewrite bool_decide_true by done. simpl.
    rewrite drop_drop. do 3 f_equal. lia.
Qed.

(** One call of iterate() returns the next of the remaining buckets; with none left it
    returns 0 and rewinds. *)
Lemma iterate_spec t :
  wf t ->
  match remaining t with
  | [] => iterate t = Some (startIterations t, None)
  | b :: r => exists n, iterate t = Some (set_cursor t n (Some (addr b)), Some (entry b)) /\
      wf (set_cursor t n (Some (addr b))) /\ remaining (set_cursor t n (Some (addr b))) = r
  end.
Proof.
  intros Hwf. pose proof (wf_cursor t Hwf) as Hc. unfold cursor_ok in Hc.
  unfold iterate, remaining at 1. destruct (currentItem t) as [a|] eqn:Hcur.
  - destruct Hc as [Hb Ha]. set (n := Z.to_nat (currentBucket t)) in *.
    destruct (lookup_lt_is_Some_2 (ht t) n) as [c Hi]; [rewrite (wf_len t Hwf); lia|].
    assert (Hch : chain t n = c) by (unfold chain; by rewrite Hi). rewrite Hch in *.
    rewrite (find_after_chain _ _ _ _ (wf_addr t Hwf) Hi Ha).
    destruct (after a c) as [[|x r]|] eqn:Haf; [| |by apply after_None in Haf].
    + pose proof (advance_spec t Hwf ltac:(lia)) as Hadv.
      replace (Z.to_nat (currentBucket t + 1)) with (S n) in Hadv by lia. simpl.
      destruct (concat (drop (S n) (ht t))) as [|b rest]; [by rewrite Hadv|].
      destruct Hadv as (m & Hadv & Hw & Hr). exists m. by rewrite Hadv.
    + simpl. exists (currentBucket t). split; [done|].
      destruct (after_Some a c _ Haf) as (l1 & b & -> & Hab).
      assert (Hnx : addr x ∉ addr <$> l1 ++ [b]).
      { pose proof (chain_nodup t n _ Hwf Hi) as Hd.
        replace (l1 ++ b :: x :: r) with ((l1 ++ [b]) ++ x :: r) in Hd by by rewrite <- app_assoc.
        rewrite fmap_app in Hd. apply NoDup_app in Hd as (_ & Hd & _).
        intros Hx. eapply Hd; [exact Hx|]. set_solver. }
      assert (Hax : after (addr x) (l1 ++ b :: x :: r) = Some r).
      { replace (l1 ++ b :: x :: r) with ((l1 ++ [b]) ++ x :: r) by by rewrite <- app_assoc.
        by apply after_app. }
      split.
      * apply wf_set_cursor; [done|]. unfold cursor_ok, chain; simpl. fold n. rewrite Hi. simpl.
        split; [lia|]. rewrite fmap_app. set_solver.
      * unfold remaining, chain; simpl. fold n. rewrite Hi. simpl. by rewrite Hax.
  - pose proof (advance_spec t Hwf Hc) as Hadv.
    destruct (concat _) as [|b rest]; [by rewrite Hadv|].
    destruct Hadv as (m & Hadv & Hw & Hr). exists m. by rewrite Hadv.
Qed.

(** The remaining buckets are the end of the table, after the current one. *)
Lemma remaining_suffix t :
  wf t -> exists pre, contents t = pre ++ remaining t /\
    match currentItem t with
    | Some a => exists pre' x, pre = pre' ++ [x] /\ addr x = a
    | None => True
    end.
Proof.
  intros Hwf. pose proof (wf_cursor t Hwf) as Hc. unfold cursor_ok in Hc. unfold remaining, contents.
  destruct (currentItem t) as [a|].
  - destruct Hc as [Hb Ha]. set (n := Z.to_nat (currentBucket t)) in *.
    destruct (lookup_lt_is_Some_2 (ht t) n) as [c Hi]; [rewrite (wf_len t Hwf); lia|].
    unfold chain in *. rewrite Hi in *. simpl in *.
    destruct (after a c) as [r|] eqn:Haf; [|by apply after_None in Haf].
    destruct (after_Some a c r Haf) as (l1 & x & -> & Hx).
    exists ((concat (take n (ht t)) ++ l1) ++ [x]). rewrite (concat_split _ _ _ Hi). split; [|eauto].
    simpl. by rewrite <- !app_assoc.
  - exists (concat (take (Z.to_nat (currentBucket t + 1)) (ht t))). split; [|done].
    by rewrite <- concat_app, take_drop.
Qed.

Lemma unique_index t b b' :
  unique t -> b ∈ contents t -> b' ∈ contents t -> index b' = index b -> b' = b.
Proof.
  intros Hu Hb Hb' Hi. pose proof (find_bucket_unique (index b) _ b Hu Hb eq_refl) as H1.
  pose proof (find_bucket_unique (index b) _ b' Hu Hb' Hi). congruence.
Qed.

(** Calling iterate() until it returns 0. *)
Fixpoint drain (fuel : nat) t : option (list (Index * Value) * HashTable Index Value) :=
  match fuel with
  | O => None
  | S fuel' =>
      match iterate t with
      | Some (t', Some e) =>
          match drain fuel' t' with
          | Some (l, t'') => Some (e :: l, t'')
          | None => None
          end
      | Some (t', None) => Some ([], t')
      | None => None
      end
  end.

Lemma drain_spec t :
  wf t -> drain (S (length (remaining t))) t = Some (entry <$> remaining t, startIterations t).
Proof.
  remember (remaining t) as l eqn:Hl. revert t Hl.
  induction l as [|b l IH]; intros t Hl Hwf; pose proof (iterate_spec t Hwf) as Hi;
    rewrite <- Hl in Hi.
  - simpl. by rewrite Hi.
  - destruct Hi as (n & Hi & Hw & Hr). change (length (b :: l)) with (S (length l)).
    remember (S (length l)) as m eqn:Hm. simpl. rewrite Hi. subst m. by rewrite (IH _ (eq_sym Hr) Hw).
Qed.

Lemma drain_all t :
  wf t ->
  drain (S (Z.to_nat (numElems t))) (startIterations t) = Some (entries t, startIterations t).
Proof.
  intros Hwf. assert (Hs : wf (startIterations t)).
  { apply wf_set_cursor; [done|]. pose proof (wf_pos t Hwf). unfold cursor_ok; simpl. lia. }
  pose proof (drain_spec _ Hs) as Hd. replace (remaining (startIterations t)) with (contents t) in Hd
    by (unfold remaining, contents; simpl; by rewrite drop_0).
  replace (Z.to_nat (numElems t)) with (length (contents t)) by (rewrite (wf_num t Hwf); lia).
  exact Hd.
Qed.

(** *** remove() *)

Lemma fmap_without_lookup h a i c : h !! i = Some c -> (without a <$> h) !! i = Some (without a c).
Proof. intros Hi. by rewrite list_lookup_fmap, Hi. Qed.

Lemma elem_of_without a b c : b ∈ without a c <-> addr b <> a /\ b ∈ c.
Proof. unfold without. by rewrite list_elem_of_filter. Qed.

(** The cursor after remove(): still valid, and the iteration goes on as before less the
    removed bucket. *)
Lemma remove_cursor t k c' a p :
  wf t ->
  let i := slot hashfcn (tableSize t) k in
  unlink k None (chain t i) = Some (c', a, p) ->
  let h' := without a <$> ht t in
  let t1 := set_numElems (set_ht t h') (numElems t - 1) in
  let t' := if bool_decide (currentItem t = Some a) then
              match p with
              | None => set_cursor t1 (currentBucket t - 1) None
              | Some x => set_cursor t1 (currentBucket t) (Some x)
              end
            else t1 in
  cursor_ok t' /\ remaining t' = without a (remaining t).
Proof.
  intros Hwf i Hun h' t1 t'. pose proof (wf_cursor t Hwf) as Hcur. unfold cursor_ok in Hcur.
  pose proof (unlink_spec k None (chain t i)) as Hs. rewrite Hun in Hs.
  destruct Hs as (l1 & b & l2 & Hch & -> & Hk & Hab & Hp).
  pose proof (chain_Some t k Hwf) as Hi. fold i in Hi.
  pose proof (chain_nodup t i _ Hwf Hi) as Hnd. rewrite Hch in Hnd.
  unfold remaining at 2.
  destruct (currentItem t) as [a0|] eqn:Hc0.
  - destruct Hcur as [Hb Ha0]. set (n := Z.to_nat (currentBucket t)) in *.
    destruct (lookup_lt_is_Some_2 (ht t) n) as [c Hn]; [rewrite (wf_len t Hwf); lia|].
    assert (Hcn : chain t n = c) by (unfold chain; by rewrite Hn). rewrite Hcn in *.
    rewrite without_app, without_concat, fmap_drop. subst t'. case_bool_decide as He.
    + injection He as ->.
      assert (Hni' : n = i).
      { eapply (NoDup_concat_addr (ht t)); [apply Hwf | exact Hn | exact Hi | done |].
        rewrite Hch, <- Hab. apply list_elem_of_fmap_2. set_solver. }
      assert (c = l1 ++ b :: l2) as -> by (rewrite Hni' in Hn; congruence).
      assert (Hni : (a ∉ addr <$> l1) /\ (a ∉ addr <$> l2)).
      { rewrite fmap_app in Hnd. simpl in Hnd. apply NoDup_app in Hnd as (_ & Hd & [Hd2 _]%NoDup_cons).
        rewrite Hab in *. split; [|done]. intros Hx. eapply Hd; [exact Hx|]. set_solver. }
      rewrite (after_app a l1 l2 b) by naive_solver. simpl default. rewrite (without_id a l2) by naive_solver.
      assert (Hwi : without a (l1 ++ b :: l2) = l1 ++ l2) by (rewrite <- Hab; by apply without_mid).
      destruct (last l1) as [x|] eqn:Hlast; subst p.
      * apply last_Some in Hlast as (l1' & ->).
        assert (Hx : addr x ∉ addr <$> l1').
        { rewrite <- app_assoc in Hnd. simpl in Hnd. rewrite fmap_app in Hnd.
          apply NoDup_app in Hnd as (_ & Hd & _). intros Hx. eapply Hd; [exact Hx|]. set_solver. }
        unfold cursor_ok, remaining, chain; simpl. unfold h'. fold n.
        rewrite (fmap_without_lookup _ _ _ _ Hn), Hwi. simpl. split.
        { split; [lia|]. rewrite !fmap_app. set_solver. }
        rewrite <- app_assoc. simpl. by rewrite after_app.
      * apply last_None in Hlast as ->. simpl in *.
        unfold cursor_ok, remaining; simpl. split; [lia|].
        replace (Z.to_nat (currentBucket t - 1 + 1)) with n by lia. unfold h'.
        rewrite (drop_S _ (without a (b :: l2)) n) by by apply fmap_without_lookup.
        simpl. by rewrite Hwi.
    + unfold cursor_ok, remaining, chain; simpl. rewrite Hc0. unfold h'. fold n.
      rewrite (fmap_without_lookup _ _ _ _ Hn). simpl. split.
      * split; [done|]. apply list_elem_of_fmap in Ha0 as (b0 & -> & Hb0).
        apply list_elem_of_fmap_2, elem_of_without. split; [congruence|done].
      * rewrite after_without by congruence. by destruct (after a0 c).
  - subst t'. rewrite bool_decide_false by done.
    unfold cursor_ok, remaining; simpl. rewrite Hc0. split; [done|].
    by rewrite without_concat, fmap_drop.
Qed.

Lemma remove_spec t k :
  wf t ->
  let '(t', r) := remove hashfcn t k in
  wf t' /\ (unique t -> unique t' /\ to_map t' = delete k (to_map t) /\
             r = if bool_decide (is_Some (to_map t !! k)) then 0 else -1) /\
  (light t -> light t') /\ duplicateKeyBehavior t' = duplicateKeyBehavior t /\
  (currentItem t = None -> currentItem t' = None).
Proof.
  intros Hwf. unfold remove. pose proof (remove_ht t k Hwf) as Hr.
  destruct (unlink _ _ _) as [[[c' a] p]|] eqn:Hun.
  - destruct Hr as (b & Hb & Hk & Hab & Hht & Hperm). rewrite Hht.
    destruct (remove_cursor t k c' a p Hwf Hun) as [Hcur _]. simpl in Hcur.
    set (t' := if bool_decide _ then _ else _) in *.
    assert (Ht : tableSize t' = tableSize t /\ ht t' = without a <$> ht t /\ brk t' = brk t /\
                 numElems t' = numElems t - 1 /\
                 duplicateKeyBehavior t' = duplicateKeyBehavior t /\
                 (currentItem t = None -> currentItem t' = None)).
    { subst t'. case_bool_decide; [destruct p|]; split_and!; try done; intros; congruence. }
    destruct Ht as (Hts & Hth & Htb & Htn & Htd & Hti).
    assert (Hc : contents t' = without a (contents t)) by (unfold contents; by rewrite Hth, <- without_concat).
    split_and!; [split| | |done|done].
    + rewrite Hts. apply Hwf.
    + rewrite Hth, Hts, length_fmap. apply Hwf.
    + rewrite Hth, Hts. intros i c x Hi Hx. rewrite list_lookup_fmap in Hi.
      destruct (ht t !! i) as [c0|] eqn:Hi0; simplify_eq/=.
      apply elem_of_without in Hx as [_ Hx]. by eapply (wf_placed t Hwf).
    + pose proof (wf_addr t Hwf) as Hd. rewrite Hperm in Hd. rewrite Hc. by apply NoDup_cons in Hd as [_ Hd].
    + pose proof (wf_brk t Hwf) as Hd. rewrite Hperm in Hd. rewrite Hc, Htb. by apply Forall_cons in Hd as [_ Hd].
    + rewrite Htn, (wf_num t Hwf), Hperm, Hc. simpl. lia.
    + done.
    + intros Hu. unfold unique in Hu. rewrite Hperm in Hu. simpl in Hu. apply NoDup_cons in Hu as [Hn Hu].
      assert (Hu' : unique t') by (unfold unique; by rewrite Hc). split; [done|].
      assert (Hm : to_map t = <[k:=value b]> (to_map t')).
      { unfold to_map. rewrite (list_to_map_proper (entries t) ((k, value b) :: entries t')); [done| |].
        - rewrite fst_entries, Hperm. by constructor.
        - unfold entries. rewrite Hperm, Hc. by rewrite <- Hk. }
      assert (Hnone : to_map t' !! k = None).
      { apply not_elem_of_list_to_map. rewrite fst_entries, Hc, <- Hk. exact Hn. }
      rewrite Hm, delete_insert_id by done. rewrite lookup_insert_eq, bool_decide_true by eauto. done.
    + unfold light. rewrite Htn, Hts. lia.
  - split_and!; try done. intros Hu. assert (Hm : to_map t !! k = None).
    { apply eq_None_not_Some. intros [v (b & Hb & [= ? _])%to_map_Some]; [|done].
      rewrite Forall_forall in Hr. by eapply Hr. }
    rewrite delete_id, Hm, bool_decide_false by (rewrite ?Hm; done || apply is_Some_None). done.
Qed.

Lemma initialize_wf d : wf (initialize d) /\ unique (initialize d) /\ light (initialize d).
Proof.
  split_and!; [split| |]; try done; try (unfold unique; constructor).
  apply (replicate_nil_placed 7 7).
Qed.

(** The buckets with one key, in chain order, after rehashing: reversed. *)
Lemma push_key n h b k :
  0 < n -> length h = Z.to_nat n ->
  filter (fun x => index x = k) (default [] (push hashfcn n h b !! slot hashfcn n k)) =
  filter (fun x => index x = k) [b] ++
  filter (fun x => index x = k) (default [] (h !! slot hashfcn n k)).
Proof.
  intros Hn Hl. unfold push. destruct (decide (slot hashfcn n (index b) = slot hashfcn n k)) as [He|He].
  - rewrite He, list_lookup_insert_eq by (rewrite Hl; by apply slot_lt). simpl.
    by rewrite !filter_cons; case_decide.
  - rewrite list_lookup_insert_ne by done. rewrite filter_cons_False by congruence. done.
Qed.
Lemma foldl_push_key n l h k :
  0 < n -> length h = Z.to_nat n ->
  filter (fun x => index x = k) (default [] (foldl (push hashfcn n) h l !! slot hashfcn n k)) =
  reverse (filter (fun x => index x = k) l) ++
  filter (fun x => index x = k) (default [] (h !! slot hashfcn n k)).
Proof.
  intros Hn. revert h. induction l as [|b l IH]; intros h Hl; simpl; [done|].
  rewrite IH by (unfold push; by rewrite length_insert).
  rewrite push_key by done. rewrite app_assoc. f_equal. rewrite (filter_cons _ b l).
  rewrite filter_cons. case_decide; simpl; rewrite ?reverse_cons, ?app_nil_r; done.
Qed.

Lemma find_bucket_filter k c :
  find_bucket k c = head (filter (fun x => index x = k) c).
Proof.
  induction c as [|b c IH]; simpl; [done|]. case_bool_decide.
  - by rewrite filter_cons_True.
  - by rewrite filter_cons_False.
Qed.

(** *** Sequences of operations against the map *)

Inductive table_op :=
| OpInsert (k : Index) (v : Value)
| OpLookup (k : Index)
| OpExists (k : Index)
| OpRemove (k : Index)
| OpClear.

(** What a call reports: a return code, and the value lookup() stores. *)
Definition table_step t (o : table_op) : HashTable Index Value * (Z * option Value) :=
  match o with
  | OpInsert k v => let '(t', r) := insert hashfcn t k v in (t', (r, None))
  | OpLookup k => (t, match lookup hashfcn t k with Some v => (0, Some v) | None => (-1, None) end)
  | OpExists k => (t, (exists_ hashfcn t k, None))
  | OpRemove k => let '(t', r) := remove hashfcn t k in (t', (r, None))
  | OpClear => (clear t, (0, None))
  end.
Fixpoint table_run t (os : list table_op) : HashTable Index Value * list (Z * option Value) :=
  match os with
  | [] => (t, [])
  | o :: os' => let '(t1, r) := table_step t o in
                let '(t2, rs) := table_run t1 os' in (t2, r :: rs)
  end.

(** The same operations on a finite map. *)
Definition map_step (d : duplicateKeyBehavior_t) (m : gmap Index Value) (o : table_op)
  : gmap Index Value * (Z * option Value) :=
  match o with
  | OpInsert k v =>
      match d, m !! k with
      | rejectDuplicateKeys, Some _ => (m, (-1, None))
      | _, _ => (<[k:=v]> m, (0, None))
      end
  | OpLookup k => (m, match m !! k with Some v => (0, Some v) | None => (-1, None) end)
  | OpExists k => (m, (match m !! k with Some _ => 0 | None => -1 end, None))
  | OpRemove k => (delete k m, (match m !! k with Some _ => 0 | None => -1 end, None))
  | OpClear => (∅, (0, None))
  end.
Fixpoint map_run d (m : gmap Index Value) (os : list table_op)
  : gmap Index Value * list (Z * option Value) :=
  match os with
  | [] => (m, [])
  | o :: os' => let '(m1, r) := map_step d m o in
                let '(m2, rs) := map_run d m1 os' in (m2, r :: rs)
  end.

(** The simulation relation. *)
Record sim t (m : gmap Index Value) : Prop := {
  sim_wf : wf t;
  sim_unique : unique t;
  sim_light : light t;
  sim_idle : currentItem t = None;
  sim_map : to_map t = m
}.

Lemma addItem_idle t k v : currentItem t = None -> currentItem (addItem hashfcn t k v) = None.
Proof. intros Ht. unfold addItem. by destruct (needs_resizing _). Qed.

Lemma clear_spec t : wf t -> currentItem t = None -> sim (clear t) ∅.
Proof.
  intros Hwf Hc. assert (Hn : contents (clear t) = []).
  { unfold contents; simpl. by induction (ht t). }
  pose proof (wf_pos t Hwf). split; [split| | | |].
  - done.
  - simpl. rewrite length_fmap. apply Hwf.
  - intros i c b Hi Hb; simpl in Hi. rewrite list_lookup_fmap in Hi.
    destruct (ht t !! i); simplify_eq/=. set_solver.
  - rewrite Hn. constructor.
  - rewrite Hn. constructor.
  - by rewrite Hn.
  - pose proof (wf_cursor t Hwf) as Hcur. unfold cursor_ok in *; simpl. by rewrite Hc in *.
  - unfold unique. rewrite Hn. constructor.
  - unfold light; simpl. lia.
  - done.
  - unfold to_map, entries. by rewrite Hn.
Qed.

Lemma step_sim t m o :
  duplicateKeyBehavior t <> allowDuplicateKeys -> sim t m ->
  let '(t', r) := table_step t o in
  let '(m', r') := map_step (duplicateKeyBehavior t) m o in
  r = r' /\ sim t' m' /\ duplicateKeyBehavior t' = duplicateKeyBehavior t.
Proof.
  intros Hd [Hwf Hu Hl Hc <-]. destruct o as [k v|k|k|k|]; simpl.
  - pose proof (insert_spec t k v Hwf Hu ltac:(done)) as Hi.
    destruct (insert hashfcn t k v) as [t' r] eqn:Hins.
    assert (Hc' : currentItem t' = None).
    { unfold insert in Hins. destruct (duplicateKeyBehavior t);
        [|destruct (find_bucket _ _)..]; simplify_eq; by try apply addItem_idle. }
    destruct Hi as (Hwf' & Hu' & Hl' & Hd' & Hi). case_bool_decide as Hb.
    + destruct Hb as [Hr [x Hx]]. destruct Hi as [-> ->]. rewrite Hr, Hx. done.
    + destruct Hi as [Hm ->].
      assert (Hms : map_step (duplicateKeyBehavior t) (to_map t) (OpInsert k v) = (<[k:=v]> (to_map t), (0, None))).
      { simpl. destruct (duplicateKeyBehavior t), (to_map t !! k) eqn:Hk; try done.
        destruct Hb. split; [done|]. by eexists. }
      simpl in Hms. rewrite Hms. split_and!; [done| |done]. split; auto.
  - rewrite lookup_to_map by done. by destruct (to_map t !! k).
  - unfold exists_. pose proof (lookup_to_map t k Hwf Hu) as Hk. unfold lookup in Hk.
    destruct (Z.eqb_spec (numElems t) 0); [by rewrite <- Hk|].
    rewrite <- Hk. by destruct (find_bucket _ _).
  - pose proof (remove_spec t k Hwf) as Hr. destruct (remove hashfcn t k) as [t' r].
    destruct Hr as (Hwf' & Hm & Hl' & Hd' & Hc'). destruct (Hm Hu) as (Hu' & Hm' & ->).
    split_and!; [|split; auto|done].
    case_bool_decide as Hb; [destruct Hb as [x Hx]; by rewrite Hx|].
    by apply eq_None_not_Some in Hb as ->.
  - split_and!; [done| |done]. by apply clear_spec.
Qed.

(** Any sequence of calls keeps the simulation, with equal reports. *)
Lemma run_sim d os t m :
  d <> allowDuplicateKeys -> duplicateKeyBehavior t = d -> sim t m ->
  (table_run t os).2 = (map_run d m os).2 /\ sim (table_run t os).1 (map_run d m os).1.
Proof.
  intros Hd. revert t m. induction os as [|o os IH]; intros t m Ht Hs; simpl; [done|].
  pose proof (step_sim t m o) as Hst. rewrite Ht in Hst. specialize (Hst Hd Hs).
  destruct (table_step t o) as [t' r], (map_step d m o) as [m' r'].
  destruct Hst as (-> & Hs' & Ht'). destruct (IH t' m' Ht' Hs') as [H1 H2].
  destruct (table_run t' os), (map_run d m' os); simplify_eq/=. done.
Qed.

Lemma initialize_sim d : sim (initialize d) ∅.
Proof. destruct (initialize_wf d) as (? & ? & ?). by split. Qed.

(** C15 (refinement): a table built with rejectDuplicateKeys or updateDuplicateKeys behaves,
    over any sequence of insert(), lookup(), exists(), remove() and clear() calls, exactly
    like a finite map: every return code and every value handed back is the one the map
    gives, through all the rehashing. *)
Theorem hash_table_refines_map (d : duplicateKeyBehavior_t) (os : list table_op) :
  d <> allowDuplicateKeys ->
  (table_run (initialize d) os).2 = (map_run d ∅ os).2 /\
  to_map (table_run (initialize d) os).1 = (map_run d ∅ os).1.
Proof.
  intros Hd. destruct (run_sim d os (initialize d) ∅ Hd eq_refl (initialize_sim d)) as [? Hs].
  split; [done | apply Hs].
Qed.

(** Through any such sequence of calls the load factor stays below 0.8, so a
    single doubling per insertion is enough, and numElems counts the entries. *)
Theorem load_factor_bounded (d : duplicateKeyBehavior_t) (os : list table_op) :
  d <> allowDuplicateKeys ->
  let t := (table_run (initialize d) os).1 in
  5 * numElems t < 4 * tableSize t /\ numElems t = Z.of_nat (size (map_run d ∅ os).1).
Proof.
  intros Hd. destruct (run_sim d os (initialize d) ∅ Hd eq_refl (initialize_sim d)) as [_ Hs].
  simpl. split; [apply Hs|]. rewrite <- (sim_map _ _ Hs), (wf_num _ (sim_wf _ _ Hs)).
  f_equal. unfold to_map. rewrite <- (length_fmap entry).
  set (l := entries _). assert (Hnd : NoDup l.*1) by (subst l; rewrite fst_entries; apply Hs).
  change (entry <$> contents _) with l. clearbody l. induction l as [|[k v] l IH]; [done|].
  apply NoDup_cons in Hnd as [Hn Hnd]. simpl.
  rewrite map_size_insert_None by by apply not_elem_of_list_to_map. f_equal. by apply IH.
Qed.

(** After startIterations(), calling iterate() until it returns 0 visits
    every entry of the table and nothing else, numElems of them, in numElems + 1 calls, and
    leaves the iterator rewound. *)
Theorem iteration_visits_all t :
  wf t ->
  exists l, drain (S (Z.to_nat (numElems t))) (startIterations t) = Some (l, startIterations t) /\
    (forall k v, (k, v) ∈ l <-> exists b, b ∈ contents t /\ entry b = (k, v)) /\
    Z.of_nat (length l) = numElems t.
Proof.
  intros Hwf. exists (entries t). split; [by apply drain_all|]. unfold entries. split.
  - intros k v. rewrite list_elem_of_fmap. naive_solver.
  - rewrite length_fmap. symmetry. apply Hwf.
Qed.

(** Removing the element that iterate() just returned does not disturb the
    iteration: remove() returns 0 and the calls that follow return exactly the elements
    that were still to come, in the same order. *)
Theorem remove_current_keeps_iteration t t1 k v :
  wf t -> unique t -> iterate t = Some (t1, Some (k, v)) ->
  let '(t2, r) := remove hashfcn t1 k in
  r = 0 /\ wf t2 /\
  drain (S (length (remaining t1))) t2 = Some (entry <$> remaining t1, startIterations t2).
Proof.
  intros Hwf Hu Hit. pose proof (iterate_spec t Hwf) as Hi.
  destruct (remaining t) as [|b l] eqn:Hrest; [congruence|].
  destruct Hi as (n & Hi & Hwf1 & Hrem). rewrite Hit in Hi. injection Hi as -> -> ->.
  set (t1 := set_cursor t n (Some (addr b))) in *. change (unique t1) in Hu.
  destruct (remaining_suffix t Hwf) as (pre & Hpre & _). rewrite Hrest in Hpre.
  destruct (remaining_suffix t1 Hwf1) as (pre1 & Hpre1 & Hcur). simpl in Hcur.
  destruct Hcur as (pre' & x & -> & Hx).
  assert (Hfresh : addr b ∉ addr <$> remaining t1).
  { pose proof (wf_addr t1 Hwf1) as Hd. rewrite Hpre1, <- app_assoc, fmap_app in Hd.
    apply NoDup_app in Hd as (_ & _ & [Hd _]%NoDup_cons). by rewrite <- Hx. }
  assert (Hb : b ∈ contents t1) by (change (contents t1) with (contents t); rewrite Hpre; set_solver).
  pose proof (remove_ht t1 (index b) Hwf1) as Hr. pose proof (remove_spec t1 (index b) Hwf1) as Hspec.
  unfold remove in Hspec |- *. destruct (unlink _ _ _) as [[[c' a] p]|] eqn:Hun.
  - destruct Hr as (b' & Hb' & Hk & Hab & Hht & _). rewrite Hht in Hspec |- *.
    assert (b' = b) as -> by by eapply unique_index.
    destruct (remove_cursor t1 (index b) c' a p Hwf1 Hun) as [_ Hrm]. simpl in Hrm.
    rewrite (without_id a) in Hrm by by rewrite <- Hab. rewrite <- Hrm.
    split_and!; [done | apply Hspec | apply drain_spec, Hspec].
  - rewrite Forall_forall in Hr. by destruct (Hr b Hb).
Qed.

(** Rehashing reverses every chain.  In a table that allows duplicate keys,
    where lookup() finds the newest of several entries with one key, it finds the oldest one
    once the table has been resized. *)
Theorem resize_reverses_duplicates t k :
  wf t ->
  lookup hashfcn (resize_hash_table hashfcn t (-1)) k =
  value <$> last (filter (fun b => index b = k) (chain t (slot hashfcn (tableSize t) k))) /\
  lookup hashfcn t k =
  value <$> head (filter (fun b => index b = k) (chain t (slot hashfcn (tableSize t) k))).
Proof.
  intros Hwf. pose proof (wf_pos t Hwf) as Hpos.
  assert (Hkey : filter (fun b => index b = k) (contents t) =
                 filter (fun b => index b = k) (chain t (slot hashfcn (tableSize t) k))).
  { unfold contents. rewrite (concat_split _ _ _ (chain_Some t k Hwf)), !filter_app.
    destruct (other_chains t k Hwf) as [H1 H2].
    assert (Hf : forall c, Forall (fun b => index b <> k) c -> filter (fun b => index b = k) c = [])
      by (induction 1; [done|]; by rewrite filter_cons_False).
    by rewrite (Hf _ H1), (Hf _ H2), app_nil_r. }
  assert (Hzero : numElems t = 0 -> filter (fun b => index b = k) (contents t) = [])
    by (intros; by rewrite numElems_0).
  unfold lookup. change (numElems (resize_hash_table hashfcn t (-1))) with (numElems t).
  rewrite !find_bucket_filter. destruct (Z.eqb_spec (numElems t) 0) as [He|].
  { rewrite <- Hkey, Hzero by done. done. }
  split; [|done]. unfold chain at 1. simpl. set (ns := tableSize t + 1).
  rewrite foldl_push_key by (rewrite ?length_replicate; lia). fold (contents t). rewrite Hkey.
  assert (Hnil : default [] (replicate (Z.to_nat (ns * 2 - 1)) [] !! slot hashfcn (ns * 2 - 1) k) =
    @nil (HashBucket Index Value)).
  { destruct (replicate _ _ !! _) as [c|] eqn:Hc; [|done]. by apply lookup_replicate in Hc as [-> _]. }
  rewrite Hnil. simpl. rewrite app_nil_r. by rewrite head_reverse.
Qed.
End laws.
End HT.
