(* ===== verification/LogRecord.v ===== *)
(** Log records and their text format: condor_utils/log.cpp and the record classes of
    condor_utils/classad_log.cpp.

    A log entry is the line "op_type body\n".  Reading goes through [fgetc]: the state of a
    stream open for reading is the list of bytes not yet read.  Writing goes through stdio:
    a [FILE] open for writing holds the bytes accepted so far, how many of them were
    flushed to the kernel and synced to the disk, and the script of I/O faults the
    environment plays.  The second part proves that every record the log accepts is read back
    as it was written, and that a record cut short by a crash is never read as a record. *)

From S2P Require Import Prelude.

Open Scope Z_scope.

(** ** Streams *)

(** What the environment does to one stdio call: succeed, or accept only the first [n] bytes
    (fwrite, fprintf) or fail (fflush, fsync), setting errno. *)
Inductive io :=
| IoOk
| IoFail (n : nat) (err : Z).

Record FILE := mkFILE {
  data : bytes;          (** every byte accepted by the stream, in order *)
  flushed : nat;         (** length of the prefix handed to the kernel *)
  durable : nat;         (** length of the prefix known to be on the disk *)
  script : list io;      (** the faults to come; all calls succeed once it is used up *)
  errno : Z
}.

Definition next_io (f : FILE) : io * FILE :=
  match script f with
  | [] => (IoOk, f)
  | o :: s => (o, mkFILE (data f) (flushed f) (durable f) s (errno f))
  end.

Definition append (s : bytes) (f : FILE) : FILE :=
  mkFILE (data f ++ s) (flushed f) (durable f) (script f) (errno f).

(** [fwrite(s,1,strlen(s),fp) == strlen(s)], and the same test on fprintf. *)
Definition fwrite (s : bytes) (f : FILE) : bool * FILE :=
  match next_io f with
  | (IoOk, f') => (true, append s f')
  | (IoFail n e, f') =>
      if (length s <=? n)%nat then (true, append s f')
      else (false, append (take n s)
                     (mkFILE (data f') (flushed f') (durable f') (script f') e))
  end.

(** [fflush(fp) == 0]: the buffered bytes reach the kernel. *)
Definition fflush (f : FILE) : bool * FILE :=
  match next_io f with
  | (IoOk, f') => (true, mkFILE (data f') (length (data f')) (durable f') (script f') (errno f'))
  | (IoFail _ e, f') => (false, mkFILE (data f') (flushed f') (durable f') (script f') e)
  end.

(** [condor_fsync(fileno(fp)) >= 0]: what the kernel holds reaches the disk. *)
Definition fsync (f : FILE) : bool * FILE :=
  match next_io f with
  | (IoOk, f') => (true, mkFILE (data f') (flushed f') (flushed f') (script f') (errno f'))
  | (IoFail _ e, f') => (false, mkFILE (data f') (flushed f') (durable f') (script f') e)
  end.

(** What a crash may leave of the file: any prefix of what was written that contains
    everything synced. *)
Definition crash_image (f : FILE) (img : bytes) : Prop :=
  exists n : nat, (durable f <= n <= length (data f))%nat /\ img = take n (data f).

(** A sequence of writes, each tested, abandoned at the first short one. *)
Fixpoint fwrites (ss : list bytes) (f : FILE) : bool * FILE :=
  match ss with
  | [] => (true, f)
  | s :: ss' => match fwrite s f with
                | (true, f') => fwrites ss' f'
                | (false, f') => (false, f')
                end
  end.

(** ** Words and lines *)

(** The loops of readword() and readline(): starting from the character already read, read
    until a stop character; EOF and NUL are errors. *)
Fixpoint read_until (stop : ascii -> bool) (c : ascii) (fp : bytes) : option bytes * bytes :=
  if stop c then (Some [], fp)
  else match fp with
       | [] => (None, [])
       | c' :: fp' =>
           if bool_decide (c' = NUL) then (None, fp')
           else match read_until stop c' fp' with
                | (Some w, r) => (Some (c :: w), r)
                | (None, r) => (None, r)
                end
       end.

(** The do-while loop: skip white space, but do not pass a newline. *)
Fixpoint skip_blank (fp : bytes) : option ascii * bytes :=
  match fp with
  | [] => (None, [])
  | c :: fp' =>
      if bool_decide (c = NUL) then (None, fp')
      else if isspace c && negb (bool_decide (c = LF)) then skip_blank fp'
      else (Some c, fp')
  end.

(** An empty word (or line) is an error too. *)
Definition nonempty (r : option bytes * bytes) : option bytes * bytes :=
  match r with
  | (Some [], fp) => (None, fp)
  | _ => r
  end.

Definition readword (fp : bytes) : option bytes * bytes :=
  match skip_blank fp with
  | (None, r) => (None, r)
  | (Some c, r) => nonempty (read_until isspace c r)
  end.

Definition readline (fp : bytes) : option bytes * bytes :=
  match fp with
  | [] => (None, [])
  | c :: r =>
      if bool_decide (c = NUL) then (None, r)
      else nonempty (read_until (fun c => bool_decide (c = LF)) c r)
  end.

(** ** The records *)

Definition CondorLogOp_NewClassAd : Z := 101.
Definition CondorLogOp_DestroyClassAd : Z := 102.
Definition CondorLogOp_SetAttribute : Z := 103.
Definition CondorLogOp_DeleteAttribute : Z := 104.
Definition CondorLogOp_BeginTransaction : Z := 105.
Definition CondorLogOp_EndTransaction : Z := 106.
Definition CondorLogOp_LogHistoricalSequenceNumber : Z := 107.

Definition EMPTY_CLASSAD_TYPE_NAME : bytes := s2b "(empty)".

Inductive LogRecord :=
| LogNewClassAd (key mytype targettype : bytes)
| LogDestroyClassAd (key : bytes)
| LogSetAttribute (key name value : bytes) (is_dirty : bool)
| LogDeleteAttribute (key name : bytes)
| LogBeginTransaction
| LogEndTransaction
| LogHistoricalSequenceNumber (historical_sequence_number timestamp : Z).

#[export] Instance LogRecord_eq_dec : EqDecision LogRecord.
Proof. solve_decision. Defined.

(** The constructor of LogSetAttribute: an empty value becomes UNDEFINED. *)
Definition new_LogSetAttribute (k n : bytes) (val : option bytes) (dirty : bool) : LogRecord :=
  match val with
  | Some (c :: v) => LogSetAttribute k n (c :: v) dirty
  | _ => LogSetAttribute k n (s2b "UNDEFINED") dirty
  end.

Definition get_op_type (r : LogRecord) : Z :=
  match r with
  | LogNewClassAd _ _ _ => CondorLogOp_NewClassAd
  | LogDestroyClassAd _ => CondorLogOp_DestroyClassAd
  | LogSetAttribute _ _ _ _ => CondorLogOp_SetAttribute
  | LogDeleteAttribute _ _ => CondorLogOp_DeleteAttribute
  | LogBeginTransaction => CondorLogOp_BeginTransaction
  | LogEndTransaction => CondorLogOp_EndTransaction
  | LogHistoricalSequenceNumber _ _ => CondorLogOp_LogHistoricalSequenceNumber
  end.

Definition get_key (r : LogRecord) : option bytes :=
  match r with
  | LogNewClassAd k _ _ | LogDestroyClassAd k | LogSetAttribute k _ _ _
  | LogDeleteAttribute k _ => Some k
  | _ => None
  end.

(** ** Writing *)

(** A placeholder stands for an empty type name. *)
Definition type_field (s : bytes) : bytes :=
  match s with [] => EMPTY_CLASSAD_TYPE_NAME | _ => s end.

Definition has_newline (s : bytes) : bool := bool_decide (LF ∈ s).

Definition LogNewClassAd_WriteBody (k m t : bytes) (f : FILE) : bool * FILE :=
  fwrites [k; [SP]; type_field m; [SP]; type_field t] f.
Definition LogDestroyClassAd_WriteBody (k : bytes) (f : FILE) : bool * FILE := fwrites [k] f.
(** A line break in the key, the name or the value would break the format: the record is refused,
    after its header has been written. *)
Definition LogSetAttribute_WriteBody (k n v : bytes) (f : FILE) : bool * FILE :=
  if has_newline k || has_newline n || has_newline v then (false, f)
  else fwrites [k; [SP]; n; [SP]; v] f.
Definition LogDeleteAttribute_WriteBody (k n : bytes) (f : FILE) : bool * FILE :=
  fwrites [k; [SP]; n] f.
Definition LogHistoricalSequenceNumber_WriteBody (n ts : Z) (f : FILE) : bool * FILE :=
  fwrites [print_u n ++ s2b " CreationTimestamp " ++ print_u ts] f.

(** The virtual WriteBody(). *)
Definition WriteBody (r : LogRecord) (f : FILE) : bool * FILE :=
  match r with
  | LogNewClassAd k m t => LogNewClassAd_WriteBody k m t f
  | LogDestroyClassAd k => LogDestroyClassAd_WriteBody k f
  | LogSetAttribute k n v _ => LogSetAttribute_WriteBody k n v f
  | LogDeleteAttribute k n => LogDeleteAttribute_WriteBody k n f
  | LogBeginTransaction | LogEndTransaction => (true, f)
  | LogHistoricalSequenceNumber n ts => LogHistoricalSequenceNumber_WriteBody n ts f
  end.

Definition WriteHeader (r : LogRecord) (f : FILE) : bool * FILE :=
  fwrite (print_d (get_op_type r) ++ [SP]) f.
Definition WriteTail (f : FILE) : bool * FILE := fwrite [LF] f.

Definition Write (r : LogRecord) (f : FILE) : bool * FILE :=
  match WriteHeader r f with
  | (false, f1) => (false, f1)
  | (true, f1) =>
      match WriteBody r f1 with
      | (false, f2) => (false, f2)
      | (true, f2) => WriteTail f2
      end
  end.

(** ** Reading *)

(** ReadHeader(): the op type is the atoi of the first word. *)
Definition ReadHeader (fp : bytes) : option Z * bytes :=
  match readword fp with
  | (Some w, r) => (Some (atoi w), r)
  | (None, r) => (None, r)
  end.

Definition type_name (s : bytes) : bytes :=
  if streq s EMPTY_CLASSAD_TYPE_NAME then [] else s.

(** [fread(&ch,1,1,fp) >= 1 && ch == '\n'] *)
Definition read_newline (fp : bytes) : bool * bytes :=
  match fp with
  | [] => (false, [])
  | c :: r => (bool_decide (c = LF), r)
  end.

Definition LogNewClassAd_ReadBody (fp : bytes) : option LogRecord * bytes :=
  match readword fp with
  | (Some k, r1) =>
      match readword r1 with
      | (Some m, r2) =>
          match readword r2 with
          | (Some t, r3) => (Some (LogNewClassAd k (type_name m) (type_name t)), r3)
          | (None, r3) => (None, r3)
          end
      | (None, r2) => (None, r2)
      end
  | (None, r1) => (None, r1)
  end.
Definition LogDestroyClassAd_ReadBody (fp : bytes) : option LogRecord * bytes :=
  match readword fp with
  | (Some k, r) => (Some (LogDestroyClassAd k), r)
  | (None, r) => (None, r)
  end.
Definition LogSetAttribute_ReadBody (fp : bytes) : option LogRecord * bytes :=
  match readword fp with
  | (Some k, r1) =>
      match readword r1 with
      | (Some n, r2) =>
          match readline r2 with
          | (Some v, r3) => (Some (LogSetAttribute k n v false), r3)
          | (None, r3) => (None, r3)
          end
      | (None, r2) => (None, r2)
      end
  | (None, r1) => (None, r1)
  end.
Definition LogDeleteAttribute_ReadBody (fp : bytes) : option LogRecord * bytes :=
  match readword fp with
  | (Some k, r1) =>
      match readword r1 with
      | (Some n, r2) => (Some (LogDeleteAttribute k n), r2)
      | (None, r2) => (None, r2)
      end
  | (None, r1) => (None, r1)
  end.
Definition LogBeginTransaction_ReadBody (fp : bytes) : option LogRecord * bytes :=
  match read_newline fp with
  | (true, r) => (Some LogBeginTransaction, r)
  | (false, r) => (None, r)
  end.
Definition LogEndTransaction_ReadBody (fp : bytes) : option LogRecord * bytes :=
  match read_newline fp with
  | (true, r) => (Some LogEndTransaction, r)
  | (false, r) => (None, r)
  end.
Definition LogHistoricalSequenceNumber_ReadBody (fp : bytes) : option LogRecord * bytes :=
  match readword fp with
  | (Some n, r1) =>
      match readword r1 with
      | (Some _, r2) =>
          match readword r2 with
          | (Some ts, r3) =>
              (Some (LogHistoricalSequenceNumber (sscanf_lu n 0) (sscanf_lu ts 0)), r3)
          | (None, r3) => (None, r3)
          end
      | (None, r2) => (None, r2)
      end
  | (None, r1) => (None, r1)
  end.

(** ReadBody() of the record class of the op type; [None] for an unknown op type. *)
Definition ReadBody (type : Z) (fp : bytes) : option (option LogRecord * bytes) :=
  if type =? CondorLogOp_NewClassAd then Some (LogNewClassAd_ReadBody fp)
  else if type =? CondorLogOp_DestroyClassAd then Some (LogDestroyClassAd_ReadBody fp)
  else if type =? CondorLogOp_SetAttribute then Some (LogSetAttribute_ReadBody fp)
  else if type =? CondorLogOp_DeleteAttribute then Some (LogDeleteAttribute_ReadBody fp)
  else if type =? CondorLogOp_BeginTransaction then Some (LogBeginTransaction_ReadBody fp)
  else if type =? CondorLogOp_EndTransaction then Some (LogEndTransaction_ReadBody fp)
  else if type =? CondorLogOp_LogHistoricalSequenceNumber
  then Some (LogHistoricalSequenceNumber_ReadBody fp)
  else None.

Definition ATTRLIST_MAX_EXPRESSION : nat := Z.to_nat 10240.

(** The lines successive calls of fgets(line, lim + 1, fp) return. *)
Fixpoint fgets_all (lim : nat) (fp line : bytes) : list bytes :=
  match fp with
  | [] => match line with [] => [] | _ => [line] end
  | c :: r =>
      let line' := line ++ [c] in
      if bool_decide (c = LF) || (lim <=? length line')%nat
      then line' :: fgets_all lim r []
      else fgets_all lim r line'
  end.

(** InstantiateLogEntry(): a record whose body cannot be read ends the log, unless an end of
    transaction follows: then the log is corrupt. *)
Definition InstantiateLogEntry (fp : bytes) (type : Z) : outcome (option LogRecord * bytes) :=
  match ReadBody type fp with
  | None => Done (None, fp)
  | Some (Some rec, r) => Done (Some rec, r)
  | Some (None, r) =>
      if existsb (fun line => bool_decide (sscanf_d line = Some CondorLogOp_EndTransaction))
           (fgets_all (ATTRLIST_MAX_EXPRESSION + 63) r [])
      then EXCEPT "Error: bad record in corrupt logfile"
      else Done (None, [])
  end.

Definition ReadLogEntry (fp : bytes) : outcome (option LogRecord * bytes) :=
  match ReadHeader fp with
  | (None, r) => Done (None, r)
  | (Some type, r) => InstantiateLogEntry r type
  end.

(** ** What is written *)

Definition body_text (r : LogRecord) : bytes :=
  match r with
  | LogNewClassAd k m t => k ++ [SP] ++ type_field m ++ [SP] ++ type_field t
  | LogDestroyClassAd k => k
  | LogSetAttribute k n v _ => k ++ [SP] ++ n ++ [SP] ++ v
  | LogDeleteAttribute k n => k ++ [SP] ++ n
  | LogBeginTransaction | LogEndTransaction => []
  | LogHistoricalSequenceNumber n ts =>
      print_u n ++ s2b " CreationTimestamp " ++ print_u ts
  end.
Definition record_text (r : LogRecord) : bytes :=
  (print_d (get_op_type r) ++ [SP]) ++ body_text r ++ [LF].

(** The records the text format can carry: keys, attribute names and type names are words,
    values are lines, numbers fit an unsigned long. *)
Definition type_okb (m : bytes) : bool :=
  match m with [] => true | _ => wordb m && negb (streq m EMPTY_CLASSAD_TYPE_NAME) end.
Definition ulongb (n : Z) : bool := (0 <=? n) && (n <=? ULONG_MAX).
Definition record_okb (r : LogRecord) : bool :=
  match r with
  | LogNewClassAd k m t => wordb k && type_okb m && type_okb t
  | LogDestroyClassAd k => wordb k
  | LogSetAttribute k n v _ => wordb k && wordb n && lineb v
  | LogDeleteAttribute k n => wordb k && wordb n
  | LogBeginTransaction | LogEndTransaction => true
  | LogHistoricalSequenceNumber n ts => ulongb n && ulongb ts
  end.

(** The dirty flag of a set-attribute record is not part of the log. *)
Definition reread (r : LogRecord) : LogRecord :=
  match r with
  | LogSetAttribute k n v _ => LogSetAttribute k n v false
  | _ => r
  end.

(** [p] is a prefix of [s] and not all of it. *)
Definition torn (p s : bytes) : Prop := exists q, s = p ++ q /\ q <> [].

Lemma torn_nil s : s <> [] -> torn [] s.
Proof. intros Hs. by exists s. Qed.
Lemma torn_app_l p s s' : torn p s -> torn p (s ++ s').
Proof. intros (q & -> & Hq). exists (q ++ s'). split; [by rewrite app_assoc|]. by destruct q. Qed.
Lemma torn_app_r p s s' : torn p s' -> torn (s ++ p) (s ++ s').
Proof. intros (q & -> & Hq). exists q. by rewrite app_assoc. Qed.
Lemma torn_app p s s' : torn p (s ++ s') -> torn p s \/ exists p', p = s ++ p' /\ torn p' s'.
Proof.
  intros (q & He & Hq). apply app_eq_inv in He as [(k & -> & ->)|(k & -> & ->)].
  - destruct k as [|c k].
    + right. exists []. rewrite !app_nil_r. split; [done|]. by apply torn_nil.
    + left. by exists (c :: k).
  - right. exists k. split; [done|]. by exists q.
Qed.

(** A stream [f'] that extends [f] with the bytes [s]; nothing is flushed or synced. *)
Definition extends (f f' : FILE) (s : bytes) : Prop :=
  data f' = data f ++ s /\ flushed f' = flushed f /\ durable f' = durable f.

Lemma extends_refl f : extends f f [].
Proof. unfold extends. by rewrite app_nil_r. Qed.
Lemma extends_trans f f' f'' s s' : extends f f' s -> extends f' f'' s' -> extends f f'' (s ++ s').
Proof. unfold extends. intros (H1 & H2 & H3) (H4 & H5 & H6). rewrite H4, H1, app_assoc. split_and!; congruence. Qed.

Lemma fwrite_spec s f :
  let '(ok, f') := fwrite s f in
  exists p, extends f f' p /\ if ok then p = s else torn p s.
Proof.
  unfold fwrite, next_io. destruct (script f) as [|[|n e] sc]; [by exists s.. |].
  destruct (Nat.leb_spec (length s) n) as [|Hlt]; [by exists s|].
  exists (take n s). split; [done|]. exists (drop n s). split; [by rewrite take_drop|].
  intros Hd%(f_equal length). rewrite length_drop in Hd. simpl in Hd. lia.
Qed.

Lemma fwrites_spec ss f :
  let '(ok, f') := fwrites ss f in
  exists p, extends f f' p /\ if ok then p = concat ss else torn p (concat ss).
Proof.
  revert f. induction ss as [|s ss IH]; intros f; simpl; [by exists []; split; [apply extends_refl|]|].
  pose proof (fwrite_spec s f) as Hw. destruct (fwrite s f) as [[|] f1].
  - destruct Hw as (p & Hp & ->). specialize (IH f1). destruct (fwrites ss f1) as [ok f2].
    destruct IH as (p' & Hp' & Hok). exists (s ++ p'). split; [by eapply extends_trans|].
    destruct ok; [by subst|]. by apply torn_app_r.
  - destruct Hw as (p & Hp & Ht). exists p. split; [done|]. by apply torn_app_l.
Qed.

Lemma WriteBody_spec r f :
  let '(ok, f') := WriteBody r f in
  exists p, extends f f' p /\ if ok then p = body_text r else torn p (body_text r) \/ p = [].
Proof.
  assert (Hgen : forall ss, concat ss = body_text r ->
    let '(ok, f') := fwrites ss f in
    exists p, extends f f' p /\ if ok then p = body_text r else torn p (body_text r) \/ p = []).
  { intros ss Hss. pose proof (fwrites_spec ss f) as Hw. rewrite Hss in Hw.
    destruct (fwrites ss f) as [[] f']; [done|]. destruct Hw as (p & ? & ?). eauto. }
  destruct r; cbn [WriteBody]; try (apply Hgen; simpl; by rewrite ?app_nil_r).
  - unfold LogSetAttribute_WriteBody. destruct (_ || _); [exists []; eauto using extends_refl|]. apply Hgen. simpl. by rewrite app_nil_r.
  - exists []. eauto using extends_refl.
  - exists []. eauto using extends_refl.
Qed.

(** LogRecord::Write(): on success exactly the record's line was added to the stream, on
    failure a proper prefix of it. *)
Lemma Write_spec r f :
  let '(ok, f') := Write r f in
  exists p, extends f f' p /\ if ok then p = record_text r else torn p (record_text r).
Proof.
  unfold Write, WriteHeader, record_text. set (hd := print_d _ ++ [SP]).
  pose proof (fwrite_spec hd f) as H1. destruct (fwrite hd f) as [[|] f1].
  - destruct H1 as (p1 & E1 & ->). pose proof (WriteBody_spec r f1) as H2.
    destruct (WriteBody r f1) as [[|] f2].
    + destruct H2 as (p2 & E2 & ->). unfold WriteTail. pose proof (fwrite_spec [LF] f2) as H3.
      destruct (fwrite [LF] f2) as [ok f3]. destruct H3 as (p3 & E3 & H3).
      exists (hd ++ body_text r ++ p3). split; [by eapply extends_trans; [|eapply extends_trans]|].
      destruct ok; [by subst|]. by apply torn_app_r, torn_app_r.
    + destruct H2 as (p2 & E2 & H2). exists (hd ++ p2). split; [by eapply extends_trans|].
      apply torn_app_r. destruct H2 as [H2| ->]; [by apply torn_app_l|].
      apply torn_nil. by destruct (body_text r).
  - destruct H1 as (p & E & Ht). exists p. split; [done|]. by apply torn_app_l.
Qed.

(** ** What is read back *)

Lemma negb_decide (P : Prop) `{Decision P} : negb (bool_decide P) -> ~ P.
Proof. by case_bool_decide. Qed.

Lemma read_until_stop (stop : ascii -> bool) c w d rest :
  forallb (fun x => negb (stop x) && negb (bool_decide (x = NUL))) (c :: w) ->
  stop d -> d <> NUL ->
  read_until stop c (w ++ d :: rest) = (Some (c :: w), rest).
Proof.
  intros Hw Hd Hn. revert c Hw. induction w as [|c' w IH]; intros c Hw; simpl in Hw;
    apply andb_True in Hw as [Hc Hw]; apply andb_True in Hc as [Hc _]; simpl.
  - destruct (stop c); [done|]. rewrite bool_decide_false by done.
    destruct rest; simpl; by destruct (stop d).
  - destruct (stop c); [done|]. pose proof Hw as Hw'. apply andb_True in Hw' as [Hc' _].
    apply andb_True in Hc' as [_ Hc'%negb_decide]. rewrite bool_decide_false by done. by rewrite (IH c' Hw).
Qed.

Lemma read_until_eof (stop : ascii -> bool) c w :
  forallb (fun x => negb (stop x) && negb (bool_decide (x = NUL))) (c :: w) ->
  read_until stop c w = (None, []).
Proof.
  intros Hw. revert c Hw. induction w as [|c' w IH]; intros c Hw; simpl in Hw;
    apply andb_True in Hw as [Hc Hw]; apply andb_True in Hc as [Hc _]; simpl.
  - by destruct (stop c).
  - destruct (stop c); [done|]. pose proof Hw as Hw'. apply andb_True in Hw' as [Hc' _].
    apply andb_True in Hc' as [_ Hc'%negb_decide]. rewrite bool_decide_false by done. by rewrite (IH c' Hw).
Qed.

(** A field of a record: read whole it is consumed with its terminator, cut short it is an
    end-of-file error. *)
Definition field_spec {A} (read : bytes -> option A * bytes) (text : bytes) (x : A) : Prop :=
  (forall rest, read (text ++ rest) = (Some x, rest)) /\
  (forall p, torn p text -> read p = (None, [])).

Lemma torn_snoc p w d : torn p (w ++ [d]) -> p `prefix_of` w.
Proof.
  intros [(q & -> & _)|(p' & -> & (q & Hq & Hn))]%torn_app; [by exists q|].
  destruct p' as [|x p']; [rewrite app_nil_r; done|].
  destruct p', q; simplify_eq/=.
Qed.
Lemma forallb_prefix (P : ascii -> bool) p w : p `prefix_of` w -> forallb P w -> forallb P p.
Proof. intros [q ->]. rewrite forallb_app. by intros [? _]%andb_True. Qed.

Lemma skip_blank_word c w : wordchar c -> skip_blank (c :: w) = (Some c, w).
Proof.
  unfold wordchar. intros [Hs Hn]%andb_True. simpl. case_bool_decide; [done|]. by destruct (isspace c).
Qed.

Lemma readword_field w d :
  wordb w -> isspace d -> d <> NUL -> field_spec readword (w ++ [d]) w.
Proof.
  intros [Hnil Hw]%wordb_chars Hd Hn. destruct w as [|c w]; [done|]. split.
  - intros rest. unfold readword. rewrite <- app_assoc. simpl app.
    rewrite skip_blank_word by by simpl in Hw; apply andb_True in Hw as [? _].
    by rewrite read_until_stop.
  - intros p Ht%torn_snoc. unfold readword.
    pose proof (forallb_prefix _ _ _ Ht Hw) as Hp. destruct p as [|c' p]; [done|].
    rewrite skip_blank_word by by simpl in Hp; apply andb_True in Hp as [? _].
    by rewrite read_until_eof.
Qed.

Lemma readline_field v : lineb v -> field_spec readline (v ++ [LF]) v.
Proof.
  unfold lineb. intros [Hnil Hw]%andb_True. destruct v as [|c v]; [done|]. split.
  - intros rest. rewrite <- app_assoc. simpl app. unfold readline.
    pose proof Hw as Hc. simpl in Hc. apply andb_True in Hc as [[_ Hc%negb_decide]%andb_True _].
    rewrite bool_decide_false by done. by rewrite read_until_stop.
  - intros p Ht%torn_snoc. pose proof (forallb_prefix _ _ _ Ht Hw) as Hp.
    destruct p as [|c' p]; [done|]. unfold readline.
    pose proof Hp as Hc. simpl in Hc. apply andb_True in Hc as [[_ Hc%negb_decide]%andb_True _].
    rewrite bool_decide_false by done. by rewrite read_until_eof.
Qed.

Lemma torn_nonnil_or {A} (read : bytes -> option A * bytes) text x p :
  field_spec read text x -> torn p text -> read p = (None, []).
Proof. intros [_ Ht]. apply Ht. Qed.

Lemma isspace_SP : isspace SP. Proof. done. Qed.
Lemma isspace_LF : isspace LF. Proof. done. Qed.
Lemma SP_not_NUL : SP <> NUL. Proof. done. Qed.
Lemma LF_not_NUL : LF <> NUL. Proof. done. Qed.

Create HintDb fields.
#[export] Hint Resolve isspace_SP isspace_LF SP_not_NUL LF_not_NUL : fields.
#[export] Hint Resolve readword_field readline_field : fields.

(** A record is a sequence of fields: reading one field after the other. *)
Lemma field_bind {A B} (r1 : bytes -> option A * bytes) (r2 : A -> bytes -> option B * bytes)
    t1 x t2 y :
  field_spec r1 t1 x -> field_spec (r2 x) t2 y ->
  field_spec (fun fp => match r1 fp with
                        | (Some a, r) => r2 a r
                        | (None, r) => (None, r)
                        end) (t1 ++ t2) y.
Proof.
  intros [H1 E1] [H2 E2]. split.
  - intros rest. rewrite <- app_assoc, H1. apply H2.
  - intros p [Ht|(p' & -> & Ht)]%torn_app; [by rewrite E1|]. by rewrite H1, E2.
Qed.
Lemma field_map {A B} (r1 : bytes -> option A * bytes) (g : A -> B) t1 x :
  field_spec r1 t1 x ->
  field_spec (fun fp => match r1 fp with
                        | (Some a, r) => (Some (g a), r)
                        | (None, r) => (None, r)
                        end) t1 (g x).
Proof. intros [H1 E1]. split; [intros rest; by rewrite H1 | intros p Ht; by rewrite E1]. Qed.

Lemma type_field_word m : type_okb m -> wordb (type_field m) /\ type_name (type_field m) = m.
Proof.
  destruct m as [|c m]; [done|]. unfold type_okb. intros [Hw He]%andb_True. split; [done|].
  unfold type_name, type_field. by destruct (streq _ _).
Qed.

Lemma ulongb_bounds n : ulongb n -> 0 <= n <= ULONG_MAX.
Proof. unfold ulongb. intros [H1 H2]%andb_True. apply Is_true_true in H1, H2. lia. Qed.

Lemma words2_field {C} (g : bytes -> bytes -> C) k n :
  wordb k -> wordb n ->
  field_spec (fun fp => match readword fp with
                        | (Some k, r1) => match readword r1 with
                                          | (Some n, r2) => (Some (g k n), r2)
                                          | (None, r2) => (None, r2)
                                          end
                        | (None, r1) => (None, r1)
                        end) ((k ++ [SP]) ++ n ++ [LF]) (g k n).
Proof.
  intros Hk Hn. eapply (field_bind readword (fun k fp => match readword fp with
    | (Some n, r2) => (Some (g k n), r2) | (None, r2) => (None, r2) end)); [auto with fields|].
  apply (field_map readword). auto with fields.
Qed.

Lemma words3_field {A C} (last : bytes -> option A * bytes) (g : bytes -> bytes -> A -> C) k n t x :
  wordb k -> wordb n -> field_spec last t x ->
  field_spec (fun fp => match readword fp with
                        | (Some k, r1) =>
                            match readword r1 with
                            | (Some n, r2) => match last r2 with
                                              | (Some v, r3) => (Some (g k n v), r3)
                                              | (None, r3) => (None, r3)
                                              end
                            | (None, r2) => (None, r2)
                            end
                        | (None, r1) => (None, r1)
                        end) ((k ++ [SP]) ++ (n ++ [SP]) ++ t) (g k n x).
Proof.
  intros Hk Hn Ht. eapply (field_bind readword (fun k fp => match readword fp with
    | (Some n, r2) => match last r2 with
                      | (Some v, r3) => (Some (g k n v), r3) | (None, r3) => (None, r3) end
    | (None, r2) => (None, r2) end)); [auto with fields|].
  eapply (field_bind readword (fun n fp => match last fp with
    | (Some v, r3) => (Some (g k n v), r3) | (None, r3) => (None, r3) end)); [auto with fields|].
  by apply (field_map last).
Qed.

Lemma newline_field {C} (y : C) :
  field_spec (fun fp => match read_newline fp with
                        | (true, r) => (Some y, r)
                        | (false, r) => (None, r)
                        end) [LF] y.
Proof.
  split; [done|]. intros p (q & Hq & Hn). destruct p as [|c p]; [done|].
  destruct p, q; simplify_eq/=.
Qed.

Lemma body_text_words k n t : k ++ [SP] ++ (n ++ [SP] ++ t) = (k ++ [SP]) ++ (n ++ [SP]) ++ t.
Proof. by rewrite <- !app_assoc. Qed.

Lemma ReadBody_field r :
  record_okb r ->
  exists rb, (forall fp, ReadBody (get_op_type r) fp = Some (rb fp)) /\
             field_spec rb (body_text r ++ [LF]) (reread r).
Proof.
  destruct r as [k m t|k|k n v d|k n| | |n ts]; simpl record_okb; intros Hok;
    (eexists; split; [intros fp; reflexivity|]); cbn [body_text].
  - apply andb_True in Hok as [[Hk Hm]%andb_True Ht].
    apply type_field_word in Hm as [Hm Em], Ht as [Ht Et].
    replace ((k ++ [SP] ++ type_field m ++ [SP] ++ type_field t) ++ [LF])
      with ((k ++ [SP]) ++ (type_field m ++ [SP]) ++ type_field t ++ [LF])
      by by rewrite <- !app_assoc.
    cbn [reread]. rewrite <- Em, <- Et at 2.
    apply (words3_field readword (fun k m t => LogNewClassAd k (type_name m) (type_name t)));
      auto with fields.
  - apply (field_map readword LogDestroyClassAd). auto with fields.
  - apply andb_True in Hok as [[Hk Hn]%andb_True Hv].
    replace ((k ++ [SP] ++ n ++ [SP] ++ v) ++ [LF]) with ((k ++ [SP]) ++ (n ++ [SP]) ++ v ++ [LF])
      by by rewrite <- !app_assoc.
    apply (words3_field readline (fun k n v => LogSetAttribute k n v false)); auto with fields.
  - apply andb_True in Hok as [Hk Hn].
    replace ((k ++ [SP] ++ n) ++ [LF]) with ((k ++ [SP]) ++ n ++ [LF])
      by by rewrite <- !app_assoc.
    by apply (words2_field LogDeleteAttribute).
  - apply (newline_field LogBeginTransaction).
  - apply (newline_field LogEndTransaction).
  - apply andb_True in Hok as [Hn%ulongb_bounds Ht%ulongb_bounds]. cbn [reread].
    assert (En := sscanf_print_u n 0 Hn). assert (Et := sscanf_print_u ts 0 Ht).
    replace ((print_u n ++ s2b " CreationTimestamp " ++ print_u ts) ++ [LF])
      with ((print_u n ++ [SP]) ++ (s2b "CreationTimestamp" ++ [SP]) ++ print_u ts ++ [LF])
      by by rewrite <- !app_assoc.
    rewrite <- En, <- Et at 2.
    apply (words3_field readword (fun n _ ts =>
      LogHistoricalSequenceNumber (sscanf_lu n 0) (sscanf_lu ts 0)));
      auto using print_u_word with lia fields.
Qed.

Lemma header_field r : field_spec ReadHeader (print_d (get_op_type r) ++ [SP]) (get_op_type r).
Proof.
  assert (Hw : wordb (print_d (get_op_type r))) by by destruct r.
  assert (Ha : atoi (print_d (get_op_type r)) = get_op_type r) by by destruct r.
  rewrite <- Ha at 2. apply (field_map readword atoi). auto with fields.
Qed.

Lemma ReadLogEntry_text r rest :
  record_okb r -> ReadLogEntry (record_text r ++ rest) = Done (Some (reread r), rest).
Proof.
  intros Hok. destruct (ReadBody_field r Hok) as (rb & Hrb & [Hr _]).
  destruct (header_field r) as [Hh _]. unfold ReadLogEntry, record_text.
  rewrite <- app_assoc, Hh. unfold InstantiateLogEntry. by rewrite Hrb, Hr.
Qed.

Lemma ReadLogEntry_torn r p :
  record_okb r -> torn p (record_text r) -> ReadLogEntry p = Done (None, []).
Proof.
  intros Hok Ht. destruct (ReadBody_field r Hok) as (rb & Hrb & [_ Hr]).
  destruct (header_field r) as [Hh Eh]. unfold ReadLogEntry.
  apply torn_app in Ht as [Ht|(p' & -> & Ht)]; [by rewrite Eh|].
  rewrite Hh. unfold InstantiateLogEntry. by rewrite Hrb, Hr.
Qed.

Lemma ReadLogEntry_eof : ReadLogEntry [] = Done (None, []).
Proof. done. Qed.

(** C32 (roundtrip): the line LogRecord::Write() produces for any record the format can carry is
    read back by ReadLogEntry() as the same record (with its dirty flag cleared), and exactly that
    line is consumed. *)
Theorem write_read_record r f f' rest :
  record_okb r -> Write r f = (true, f') ->
  exists line, data f' = data f ++ line /\
    ReadLogEntry (line ++ rest) = Done (Some (reread r), rest).
Proof.
  intros Hok Hw. pose proof (Write_spec r f) as Hs. rewrite Hw in Hs.
  destruct Hs as (p & (Hd & _) & ->). exists (record_text r). split; [done|].
  by apply ReadLogEntry_text.
Qed.

(** C33 (safety): a record that was cut short, by a failing write or by a crash, is never taken
    for a record: whatever proper prefix of its line is on the disk, ReadLogEntry() reports the
    end of the log, and does not call EXCEPT. *)
Theorem torn_record_not_read r p :
  record_okb r -> torn p (record_text r) -> ReadLogEntry p = Done (None, []).
Proof. apply ReadLogEntry_torn. Qed.

(** ** Every record read takes at least a byte of the file *)

Lemma read_until_length stop c fp w r :
  read_until stop c fp = (w, r) -> (length r <= length fp)%nat.
Proof.
  revert c w r. induction fp as [|c' fp IH]; intros c w r; simpl.
  - destruct (stop c); intros [= <- <-]; done.
  - destruct (stop c); [by intros [= <- <-]|]. case_bool_decide; [intros [= <- <-]; lia|].
    destruct (read_until stop c' fp) as [[w'|] r'] eqn:Hr; intros [= <- <-]; apply IH in Hr; lia.
Qed.
Lemma skip_blank_length fp c r : skip_blank fp = (Some c, r) -> (length r < length fp)%nat.
Proof.
  induction fp as [|c' fp IH]; simpl; [done|]. case_bool_decide; [done|].
  destruct (_ && _); [intros Hs; apply IH in Hs; lia|]. intros [= _ <-]. lia.
Qed.
Lemma nonempty_Some x w r : nonempty x = (Some w, r) -> x = (Some w, r).
Proof. by destruct x as [[[|]|] ?]. Qed.
Lemma readword_length fp w r : readword fp = (Some w, r) -> (length r < length fp)%nat.
Proof.
  unfold readword. destruct (skip_blank fp) as [[c|] r1] eqn:Hs; [|done].
  intros Hr%nonempty_Some. apply skip_blank_length in Hs. apply read_until_length in Hr. lia.
Qed.
Lemma readline_length fp w r : readline fp = (Some w, r) -> (length r < length fp)%nat.
Proof.
  destruct fp as [|c fp]; [done|]. unfold readline. case_bool_decide; [done|].
  intros Hr%nonempty_Some%read_until_length. simpl. lia.
Qed.

Ltac field_lengths :=
  repeat match goal with
    | |- context [match readword ?fp with _ => _ end] =>
        let H := fresh "Hrd" in destruct (readword fp) as [[?|] ?] eqn:H; [apply readword_length in H|]
    | |- context [match readline ?fp with _ => _ end] =>
        let H := fresh "Hrd" in destruct (readline fp) as [[?|] ?] eqn:H; [apply readline_length in H|]
    | |- context [match read_newline ?fp with _ => _ end] => destruct fp as [|? ?]; simpl
    end.

Lemma ReadBody_length ty fp x r :
  ReadBody ty fp = Some (Some x, r) -> (length r <= length fp)%nat.
Proof.
  unfold ReadBody, LogNewClassAd_ReadBody, LogDestroyClassAd_ReadBody, LogSetAttribute_ReadBody,
    LogDeleteAttribute_ReadBody, LogBeginTransaction_ReadBody, LogEndTransaction_ReadBody,
    LogHistoricalSequenceNumber_ReadBody.
  repeat (destruct (_ =? _); [|]); try done; field_lengths;
    try case_bool_decide; intros [= _ <-] || done; simpl; lia.
Qed.

(** A record that was read took at least a byte. *)
Lemma ReadLogEntry_length fp x r :
  ReadLogEntry fp = Done (Some x, r) -> (length r < length fp)%nat.
Proof.
  unfold ReadLogEntry, ReadHeader. destruct (readword fp) as [[w|] r1] eqn:Hw; [|done].
  apply readword_length in Hw. unfold InstantiateLogEntry.
  destruct (ReadBody (atoi w) r1) as [[[rec|] r2]|] eqn:Hb; [|by destruct (existsb _ _)|done].
  intros [= _ <-]. apply ReadBody_length in Hb. lia.
Qed.
