(* ===== verification/ClassAd.v ===== *)
(** The attribute store of a ClassAd: the part of classad/classad.cpp and of its wrapper
    condor_utils/compat_classad.cpp that the job queue log works on.

    The expression language itself (classad/source.cpp, sink.cpp and the evaluator) is seen
    through the interface [ExprLang]; [ExprLangLaws] has the one law the users of string attributes
    rely on.  That an expression is read back from its text is no law, since it does not hold of
    every expression: it is a condition on expressions, [faithful].  Attribute names are compared without regard to case: the attribute list is a map
    keyed by the lowered name, which keeps the spelling of the first insertion. *)

From S2P Require Import Prelude.

Open Scope Z_scope.

Class ExprLang := {
  expr : Type;
  expr_eq_dec :: EqDecision expr;
  (** [ClassAdParser::ParseExpression(ConvertEscapingOldToNew(s), expr, true)] *)
  ParseExpression : bytes -> option expr;
  (** [ExprTreeToString(expr)], the unparser in old ClassAd syntax *)
  ExprTreeToString : expr -> bytes;
  (** [Literal::MakeLiteral] of a string and of UNDEFINED *)
  StringLiteral : bytes -> expr;
  UndefinedLiteral : expr;
  (** [EvaluateExpr] to a string value, in the scope of an ad given by its lookup *)
  EvaluateString : (bytes -> option expr) -> expr -> option bytes
}.

(** A string literal has its string as value. *)
Class ExprLangLaws (L : ExprLang) : Prop := {
  evaluate_literal scope s : EvaluateString scope (StringLiteral s) = Some s
}.

(** The text of the expression is one line, and is read back as the expression.  This fails for a
    string with a newline, which the unparser does not escape in the old syntax, and for a real number
    with more digits than are printed. *)
Definition faithful `{ExprLang} (e : expr) : bool :=
  bool_decide (ParseExpression (ExprTreeToString e) = Some e) && lineb (ExprTreeToString e).

Section ClassAd.
Context `{L : ExprLang}.

(** [attrList], [dirtyAttrList], [do_dirty_tracking] and [chained_parent_ad]. *)
Inductive ClassAd := mkClassAd {
  attrList : gmap bytes (bytes * expr);
  dirtyAttrList : gset bytes;
  do_dirty_tracking : bool;
  chained_parent_ad : option ClassAd
}.

Definition set_attrList ad l :=
  mkClassAd l (dirtyAttrList ad) (do_dirty_tracking ad) (chained_parent_ad ad).
Definition set_dirty ad d :=
  mkClassAd (attrList ad) d (do_dirty_tracking ad) (chained_parent_ad ad).

Definition MarkAttributeDirty (ad : ClassAd) (name : bytes) : ClassAd :=
  if do_dirty_tracking ad then set_dirty ad ({[lower name]} ∪ dirtyAttrList ad) else ad.
Definition MarkAttributeClean (ad : ClassAd) (name : bytes) : ClassAd :=
  if do_dirty_tracking ad then set_dirty ad (dirtyAttrList ad ∖ {[lower name]}) else ad.
Definition IsAttributeDirty (ad : ClassAd) (name : bytes) : bool :=
  bool_decide (lower name ∈ dirtyAttrList ad).
Definition SetDirtyFlag (ad : ClassAd) (name : bytes) (dirty : bool) : ClassAd :=
  if dirty then MarkAttributeDirty ad name else MarkAttributeClean ad name.

(** Insert(): an empty name is refused; an existing attribute keeps its spelling. *)
Definition Insert (ad : ClassAd) (name : bytes) (tree : expr) : ClassAd * bool :=
  match name with
  | [] => (ad, false)
  | _ =>
      let spelling := match attrList ad !! lower name with
                      | Some (old, _) => old
                      | None => name
                      end in
      (MarkAttributeDirty
         (set_attrList ad (<[lower name := (spelling, tree)]> (attrList ad))) name, true)
  end.

Definition InsertAttr (ad : ClassAd) (name value : bytes) : ClassAd * bool :=
  Insert ad name (StringLiteral value).

(** Lookup() falls back on the chained parent. *)
Fixpoint Lookup (ad : ClassAd) (name : bytes) : option expr :=
  match attrList ad !! lower name with
  | Some (_, tree) => Some tree
  | None => match chained_parent_ad ad with
            | Some p => Lookup p name
            | None => None
            end
  end.

(** Delete(): an attribute the chained parent defines is redefined here as UNDEFINED. *)
Definition Delete (ad : ClassAd) (name : bytes) : ClassAd * bool :=
  let deleted := bool_decide (is_Some (attrList ad !! lower name)) in
  let ad1 := set_attrList ad (delete (lower name) (attrList ad)) in
  match chained_parent_ad ad with
  | Some p => match Lookup p name with
              | Some _ => ((Insert ad1 name UndefinedLiteral).1, true)
              | None => (ad1, deleted)
              end
  | None => (ad1, deleted)
  end.

Definition ChainToAd (ad : ClassAd) (parent : option ClassAd) : ClassAd :=
  match parent with
  | Some p => mkClassAd (attrList ad) (dirtyAttrList ad) (do_dirty_tracking ad) (Some p)
  | None => ad
  end.
Definition Unchain (ad : ClassAd) : ClassAd :=
  mkClassAd (attrList ad) (dirtyAttrList ad) (do_dirty_tracking ad) None.

(** AssignExpr(): NULL means Undefined; a value that does not parse changes nothing. *)
Definition AssignExpr (ad : ClassAd) (name : bytes) (value : option bytes) : ClassAd * bool :=
  match ParseExpression (default (s2b "Undefined") value) with
  | None => (ad, false)
  | Some tree => Insert ad name tree
  end.

Definition ATTR_MY_TYPE : bytes := s2b "MyType".
Definition ATTR_TARGET_TYPE : bytes := s2b "TargetType".
Definition ATTR_CURRENT_TIME : bytes := s2b "CurrentTime".

(** The constructor of the wrapper: unless evaluation is strict, an ad is born with
    CurrentTime = time(). *)
Definition new_ClassAd (m_strictEvaluation : bool) : ClassAd :=
  let ad := mkClassAd ∅ ∅ true None in
  if m_strictEvaluation then ad
  else (AssignExpr ad ATTR_CURRENT_TIME (Some (s2b "time()"))).1.

Definition EvaluateAttrString (ad : ClassAd) (name : bytes) : option bytes :=
  match Lookup ad name with
  | Some tree => EvaluateString (Lookup ad) tree
  | None => None
  end.
Definition SetMyTypeName (ad : ClassAd) (myType : bytes) : ClassAd :=
  (InsertAttr ad ATTR_MY_TYPE myType).1.
Definition GetMyTypeName (ad : ClassAd) : bytes :=
  default [] (EvaluateAttrString ad ATTR_MY_TYPE).
Definition SetTargetTypeName (ad : ClassAd) (targetType : bytes) : ClassAd :=
  (InsertAttr ad ATTR_TARGET_TYPE targetType).1.
Definition GetTargetTypeName (ad : ClassAd) : bytes :=
  default [] (EvaluateAttrString ad ATTR_TARGET_TYPE).

(** The attributes of the ad itself, in the order of the hash map. *)
Definition own_attrs (ad : ClassAd) : list (bytes * expr) := (map_to_list (attrList ad)).*2.

(** NextNameOriginal() from ResetName() to NULL: the names of this ad, then those of its
    chained parent. *)
Definition all_names (ad : ClassAd) : list bytes :=
  (own_attrs ad).*1 ++ match chained_parent_ad ad with
                       | Some p => (own_attrs p).*1
                       | None => []
                       end.

(** NextExpr() from ResetExpr() to the end. *)
Definition all_exprs (ad : ClassAd) : list (bytes * expr) :=
  own_attrs ad ++ match chained_parent_ad ad with
                  | Some p => own_attrs p
                  | None => []
                  end.

(** condor_utils/classad_merge.cpp *)
Definition merge_one (merge_conflicts mark_dirty : bool) (into : ClassAd) (ne : bytes * expr)
  : ClassAd :=
  let '(name, tree) := ne in
  if merge_conflicts || bool_decide (Lookup into name = None) then
    let into := (Insert into name tree).1 in
    if mark_dirty then into else SetDirtyFlag into name false
  else into.
Definition MergeClassAds (merge_into merge_from : ClassAd) (merge_conflicts mark_dirty : bool)
  : ClassAd :=
  foldl (merge_one merge_conflicts mark_dirty) merge_into (all_exprs merge_from).

(** ** What lookups see *)

Lemma Lookup_dirty ad x k : Lookup (MarkAttributeDirty ad x) k = Lookup ad k.
Proof. unfold MarkAttributeDirty. destruct ad as [al dl [|] ch]; done. Qed.
Lemma Lookup_clean ad x k : Lookup (MarkAttributeClean ad x) k = Lookup ad k.
Proof. unfold MarkAttributeClean. destruct ad as [al dl [|] ch]; done. Qed.

Lemma Insert_lookup ad name e k :
  name <> [] -> Lookup (Insert ad name e).1 k =
    if decide (lower k = lower name) then Some e else Lookup ad k.
Proof.
  intros Hn. unfold Insert. destruct name as [|c n]; [done|]. cbn [fst]. rewrite Lookup_dirty.
  destruct ad as [al dl dt ch]. cbn [Lookup set_attrList attrList chained_parent_ad].
  rewrite lookup_insert. repeat case_decide; try done; congruence.
Qed.
Lemma Insert_refused ad e : (Insert ad [] e) = (ad, false).
Proof. done. Qed.

(** The value the chained parent gives. *)
Definition inherited (ad : ClassAd) (name : bytes) : option expr :=
  match chained_parent_ad ad with Some p => Lookup p name | None => None end.

Lemma Delete_lookup ad name k :
  name <> [] -> Lookup (Delete ad name).1 k =
    if decide (lower k = lower name) then
      match inherited ad name with Some _ => Some UndefinedLiteral | None => None end
    else Lookup ad k.
Proof.
  intros Hn. unfold Delete, inherited. set (ad1 := set_attrList ad _).
  assert (H1 : lower k <> lower name -> Lookup ad1 k = Lookup ad k).
  { intros Hk. subst ad1. destruct ad as [al dl dt ch]. cbn [Lookup set_attrList attrList chained_parent_ad].
    by rewrite lookup_delete_ne by congruence. }
  assert (H2 : lower k = lower name -> Lookup ad1 k =
    match chained_parent_ad ad with Some p => Lookup p k | None => None end).
  { intros Hk. subst ad1. destruct ad as [al dl dt ch]. cbn [Lookup set_attrList attrList chained_parent_ad].
    by rewrite Hk, lookup_delete_eq. }
  assert (H3 : lower k = lower name -> forall p, Lookup p k = Lookup p name).
  { intros Hk. fix IH 1. intros [al dl dt ch]. cbn [Lookup attrList chained_parent_ad]. rewrite Hk.
    destruct (al !! lower name) as [[]|]; [done|]. destruct ch as [p|]; [apply IH|done]. }
  destruct (chained_parent_ad ad) as [p|].
  - destruct (Lookup p name) eqn:Hp; cbn [fst].
    + rewrite Insert_lookup by done. case_decide; [done|auto].
    + case_decide as Hd; [|auto]. by rewrite H2, H3.
  - cbn [fst]. case_decide; auto.
Qed.

(** Insert() and Delete() against Lookup(), without regard to the case of names
    and through a chain of parent ads: an inserted attribute is found with its new value under
    any spelling of its name; a deleted one is gone, or reads as UNDEFINED if a parent still
    defines it, so that the parent's value never shows through; no other attribute changes. *)
Theorem insert_delete_lookup ad name e k :
  name <> [] ->
  (lower k = lower name -> Lookup (Insert ad name e).1 k = Some e) /\
  (lower k = lower name ->
    Lookup (Delete ad name).1 k =
      match inherited ad name with Some _ => Some UndefinedLiteral | None => None end) /\
  (lower k <> lower name ->
    Lookup (Insert ad name e).1 k = Lookup ad k /\ Lookup (Delete ad name).1 k = Lookup ad k).
Proof.
  intros Hn. rewrite Insert_lookup, Delete_lookup by done. split_and!; intros Hk.
  - by rewrite decide_True.
  - by rewrite decide_True.
  - by rewrite !decide_False.
Qed.

(** Deleting an attribute that an ad inherits from the ad it is chained to hides
    it (it reads as UNDEFINED), but the deletion does not survive a restart: the log replays it on
    the ad alone, where there is nothing to delete, and once the ad is chained again the
    inherited value is back. *)
Theorem chained_delete_lost_on_replay (ad p : ClassAd) name e :
  name <> [] -> chained_parent_ad ad = Some p -> Lookup p name = Some e ->
  Lookup (Delete ad name).1 name = Some UndefinedLiteral /\
  Lookup (ChainToAd (Delete (Unchain ad) name).1 (Some p)) name = Some e.
Proof.
  intros Hn Hc He. split.
  - rewrite Delete_lookup, decide_True by done. unfold inherited. by rewrite Hc, He.
  - unfold Delete. simpl. by rewrite lookup_delete_eq.
Qed.

(** *** Merging *)

Lemma merge_one_lookup (mark_dirty : bool) into n e k :
  n <> [] ->
  Lookup (merge_one true mark_dirty into (n, e)) k =
  if decide (lower k = lower n) then Some e else Lookup into k.
Proof.
  intros Hn. unfold merge_one. cbn [orb].
  assert (Hl : Lookup (if mark_dirty then (Insert into n e).1 else SetDirtyFlag (Insert into n e).1 n false) k =
    Lookup (Insert into n e).1 k) by (destruct mark_dirty; [done|]; apply Lookup_clean).
  rewrite Hl. by apply Insert_lookup.
Qed.

(** The attribute list of an ad is keyed by the lowered names. *)
Definition keyed (m : gmap bytes (bytes * expr)) : Prop :=
  map_Forall (fun k ne => k = lower ne.1 /\ ne.1 <> []) m.

Lemma merge_list_lookup (mark_dirty : bool) (l : list (bytes * (bytes * expr))) into k :
  NoDup l.*1 -> Forall (fun kne => kne.1 = lower kne.2.1 /\ kne.2.1 <> []) l ->
  Lookup (foldl (merge_one true mark_dirty) into l.*2) k =
  match (list_to_map l : gmap bytes (bytes * expr)) !! lower k with
  | Some (_, e) => Some e
  | None => Lookup into k
  end.
Proof.
  revert into. induction l as [|[j [n e]] l IH]; intros into Hnd Hok; [done|].
  rewrite !fmap_cons in *. cbn [fst snd foldl] in *. apply NoDup_cons in Hnd as [Hni Hnd].
  apply Forall_cons in Hok as [[Hj Hn] Hok]. cbn [fst snd] in *.
  rewrite IH, list_to_map_cons, lookup_insert, merge_one_lookup by done.
  destruct (decide (j = lower k)) as [->|Hjk].
  - rewrite (not_elem_of_list_to_map_1 l) by done. by rewrite decide_True.
  - destruct (list_to_map l !! lower k) as [[]|]; [done|]. by rewrite decide_False by congruence.
Qed.

(** MergeClassAds() with merge_conflicts gives every attribute of the merged ad
    the value it has there, and leaves the others of the target alone, whatever the spelling of
    the names. *)
Theorem merge_overrides (into from : ClassAd) (mark_dirty : bool) k :
  chained_parent_ad from = None -> keyed (attrList from) ->
  Lookup (MergeClassAds into from true mark_dirty) k =
  match Lookup from k with Some e => Some e | None => Lookup into k end.
Proof.
  intros Hc Hk. unfold MergeClassAds, all_exprs, own_attrs. rewrite Hc, app_nil_r, merge_list_lookup.
  - rewrite list_to_map_to_list. destruct from as [al dl dt ch]. simpl in *. subst ch.
    by destruct (al !! lower k) as [[]|].
  - apply NoDup_fst_map_to_list.
  - apply Forall_forall. intros [j ne] Hj%elem_of_map_to_list. exact (Hk j ne Hj).
Qed.
End ClassAd.
