(* ===== verification/Transaction.v ===== *)
(** Transactions on the job queue log: condor_utils/log_transaction.cpp, and the effect of a
    record on the table of ads, the Play() methods of condor_utils/classad_log.cpp.

    The table is the hash table of HashTable.v, keyed by the job id string, that the log
    declares with the default (allowDuplicateKeys) policy.  The ClassAdLog plug-ins, which are
    told of every Play(), are not part of the model. *)

From S2P Require Import Prelude HashTable LogRecord ClassAd.

Open Scope Z_scope.

(** ** Hash keys: condor_utils/classad_hashtable.cpp *)

(** [hash = (hash<<5)+hash + (unsigned char)*p], on an unsigned int. *)
Definition hashFunction (key : bytes) : Z :=
  foldl (fun hash c => wrapu32 (wrapu32 (Z.shiftl hash 5) + hash + Z.of_nat (nat_of_ascii c)))
    0 key.

Section Play.
Context `{L : ExprLang}.
(** The configuration knob STRICT_CLASSAD_EVALUATION. *)
Variable m_strictEvaluation : bool.

Abbreviation ClassAdHashTable := (HT.HashTable bytes ClassAd).

(** The ad a NewClassAd record creates. *)
Definition fresh_ad (mytype targettype : bytes) : ClassAd :=
  SetTargetTypeName (SetMyTypeName (new_ClassAd m_strictEvaluation) mytype) targettype.

(** What SetAttribute does to the ad, and what Play() returns. *)
Definition set_attribute (name value : bytes) (is_dirty : bool) (ad : ClassAd) : ClassAd * bool :=
  let '(ad1, rval) := AssignExpr ad name (Some value) in
  (SetDirtyFlag ad1 name is_dirty, rval).

Definition LogNewClassAd_Play (key mytype targettype : bytes) (table : ClassAdHashTable)
  : ClassAdHashTable * Z :=
  HT.insert hashFunction table key (fresh_ad mytype targettype).
Definition LogDestroyClassAd_Play (key : bytes) (table : ClassAdHashTable) : ClassAdHashTable * Z :=
  match HT.lookup hashFunction table key with
  | None => (table, -1)
  | Some _ => HT.remove hashFunction table key
  end.
Definition LogSetAttribute_Play (key name value : bytes) (is_dirty : bool) (table : ClassAdHashTable)
  : ClassAdHashTable * Z :=
  match HT.lookup hashFunction table key with
  | None => (table, -1)
  | Some ad =>
      (HT.modify hashFunction table key (fun ad => (set_attribute name value is_dirty ad).1),
       if (set_attribute name value is_dirty ad).2 then 1 else 0)
  end.
Definition LogDeleteAttribute_Play (key name : bytes) (table : ClassAdHashTable)
  : ClassAdHashTable * Z :=
  match HT.lookup hashFunction table key with
  | None => (table, -1)
  | Some ad =>
      (HT.modify hashFunction table key (fun ad => (Delete ad name).1),
       if (Delete ad name).2 then 1 else 0)
  end.

(** The virtual Play(). *)
Definition Play (r : LogRecord) (table : ClassAdHashTable) : ClassAdHashTable * Z :=
  match r with
  | LogNewClassAd key mytype targettype => LogNewClassAd_Play key mytype targettype table
  | LogDestroyClassAd key => LogDestroyClassAd_Play key table
  | LogSetAttribute key name value is_dirty => LogSetAttribute_Play key name value is_dirty table
  | LogDeleteAttribute key name => LogDeleteAttribute_Play key name table
  | LogBeginTransaction | LogEndTransaction => (table, 0)
  | LogHistoricalSequenceNumber _ _ => (table, 1)
  end.

Definition play (table : ClassAdHashTable) (r : LogRecord) : ClassAdHashTable :=
  (Play r table).1.

(** ** class Transaction *)

(** The records of the transaction in order, and the same records by key. *)
Record Transaction := mkTransaction {
  op_log : gmap bytes (list LogRecord);
  ordered_op_log : list LogRecord;
  m_EmptyTransaction : bool
}.

Definition new_Transaction : Transaction := mkTransaction ∅ [] true.

Definition append_record (t : Transaction) (log : LogRecord) : Transaction :=
  let key := default [] (get_key log) in
  mkTransaction (<[key := default [] (op_log t !! key) ++ [log]]> (op_log t))
    (ordered_op_log t ++ [log]) false.

(** FirstEntry(key) and NextEntry() until NULL. *)
Definition entries_of (t : Transaction) (key : bytes) : list LogRecord :=
  default [] (op_log t !! key).

Definition InTransactionListKeysWithOpType (t : Transaction) (op_type : Z) : list bytes :=
  omap (fun log => if get_op_type log =? op_type then get_key log else None) (ordered_op_log t).

(** ** Streams with status *)

Inductive stream_failure_t := WHY_OK | WHY_WRITE | WHY_FFLUSH | WHY_FSYNC | WHY_FCLOSE.

#[export] Instance stream_failure_eq_dec : EqDecision stream_failure_t.
Proof. solve_decision. Defined.

(** [fp] is the stream pointer (NULL: [None]); [closed] is the file behind it once it has
    been closed. *)
Record stream_with_status_t := mkStream {
  fp : option FILE;
  why : stream_failure_t;
  err : Z;
  closed : option FILE
}.

Definition init_stream_with_status (f : option FILE) : stream_with_status_t :=
  mkStream f WHY_OK 0 None.

(** The wrappers do nothing on a NULL stream or after a failure. *)
Definition with_status (io : FILE -> bool * FILE) (failure : stream_failure_t)
    (s : stream_with_status_t) : stream_with_status_t :=
  match fp s, why s with
  | Some f, WHY_OK =>
      match io f with
      | (true, f') => mkStream (Some f') WHY_OK (err s) (closed s)
      | (false, f') => mkStream (Some f') failure (errno f') (closed s)
      end
  | _, _ => s
  end.
Definition write_with_status (log : LogRecord) := with_status (Write log) WHY_WRITE.
Definition fflush_with_status := with_status fflush WHY_FFLUSH.
Definition fsync_with_status := with_status fsync WHY_FSYNC.

(** fclose() flushes; after a failure the pointer is kept. *)
Definition fclose_with_status (s : stream_with_status_t) : stream_with_status_t :=
  match fp s with
  | None => s
  | Some f =>
      match fflush f with
      | (true, f') => mkStream None (why s) (err s) (Some f')
      | (false, f') => mkStream (Some f') WHY_FCLOSE (errno f') (Some f')
      end
  end.

(** ** Local backups of transactions *)

Inductive backup_filter_t := BF_NONE | BF_ALL | BF_FAILED.

#[export] Instance backup_filter_eq_dec : EqDecision backup_filter_t.
Proof. solve_decision. Defined.

(** The two configuration parameters, what condor_mkstemp() and fdopen() do, and the faults
    of the backup's device. *)
Record BackupEnv := mkBackupEnv {
  LOCAL_XACT_BACKUP_FILTER : option bytes;
  LOCAL_QUEUE_BACKUP_DIR : option bytes;
  mkstemp_ok : bool;
  fdopen_ok : bool;
  backup_script : list io
}.

Record backup_info_t := mkBackupInfo {
  filt : backup_filter_t;
  fn : option bytes;
  bfp : option FILE;
  success : bool
}.

(** [strncasecmp(w, s, strlen(w)) == 0] *)
Definition strncaseprefix (w s : bytes) : bool := bool_decide (lower w = lower (take (length w) s)).

Definition new_FILE (sc : list io) : FILE := mkFILE [] 0 0 sc 0.

Definition init_backup_info (env : BackupEnv) (skip_backup : bool) : backup_info_t :=
  let none := mkBackupInfo BF_NONE None None false in
  if skip_backup then none
  else match LOCAL_XACT_BACKUP_FILTER env, LOCAL_QUEUE_BACKUP_DIR env with
  | Some filter, Some dir =>
      if strncaseprefix (s2b "NONE") filter then none
      else
        let with_file filt :=
          let name := dir ++ s2b "/job_queue_log_backup_XXXXXX" in
          if mkstemp_ok env then
            let f := if fdopen_ok env then Some (new_FILE (backup_script env)) else None in
            mkBackupInfo filt (Some name) f (fdopen_ok env)
          else mkBackupInfo BF_NONE (Some name) None false in
        if strncaseprefix (s2b "ALL") filter then with_file BF_ALL
        else if strncaseprefix (s2b "FAILED") filter then with_file BF_FAILED
        else none
  | _, _ => none
  end.

(** ** Transaction::Commit() *)

(** What is left when Commit() returns or dies: the table, the log stream, the backup
    stream, whether the backup file is still there, and the report of the EXCEPT if there
    was a failure: which call failed, errno, and whether a backup was made. *)
Record CommitResult := mkCommitResult {
  c_table : ClassAdHashTable;
  c_log : stream_with_status_t;
  c_backup : stream_with_status_t;
  c_backup_kept : bool;
  c_except : option (stream_failure_t * Z * bool)
}.

(** The write loop: every record goes to both streams and is played on the table. *)
Fixpoint commit_loop (logs : list LogRecord) (table : ClassAdHashTable)
    (fps0 fps1 : stream_with_status_t)
  : ClassAdHashTable * stream_with_status_t * stream_with_status_t :=
  match logs with
  | [] => (table, fps0, fps1)
  | log :: logs' =>
      commit_loop logs' (play table log) (write_with_status log fps0)
        (write_with_status log fps1)
  end.

Definition Commit (env : BackupEnv) (t : Transaction) (file : option FILE)
    (table : ClassAdHashTable) (nondurable : bool) : CommitResult :=
  let bi := init_backup_info env (nondurable || match file with Some _ => false | None => true end) in
  let '(table, fps0, fps1) :=
    commit_loop (ordered_op_log t) table (init_stream_with_status file)
      (init_stream_with_status (bfp bi)) in
  if nondurable then mkCommitResult table fps0 fps1 (bool_decide (is_Some (fn bi))) None
  else
    let fussy := bool_decide (filt bi = BF_ALL) in
    let fps0 := fsync_with_status (fflush_with_status fps0) in
    let failure := negb (bool_decide (why fps0 = WHY_OK)) in
    let keep := (failure || fussy) && negb (bool_decide (filt bi = BF_NONE)) in
    let fps1 :=
      if keep then fclose_with_status (fsync_with_status (fflush_with_status fps1))
      else fclose_with_status fps1 in
    let kept := keep && bool_decide (is_Some (fn bi)) in
    let made_backup :=
      negb (bool_decide (filt bi = BF_NONE)) && success bi && bool_decide (why fps1 = WHY_OK) in
    mkCommitResult table fps0 fps1 kept
      (if failure then Some (why fps0, err fps0, made_backup) else None).
End Play.
