(* ===== verification/ClassAdLog.v ===== *)
(** The transactional, crash-safe table of ads of condor_utils/classad_log.cpp, on which the
    job queue of the schedd is kept.

    A [ClassAdLog] is the table in memory, the active transaction and the log file; the log
    file is a [FILE] of LogRecord.v, which knows what a crash may leave of it.  An operation
    that may call EXCEPT returns a [run]: [Dies] carries the state the process died in, so
    that its log file can be recovered from.  [Disk] holds the files around the log: the
    temporary file of a rotation and the historical logs. *)

From S2P Require Import Prelude HashTable LogRecord ClassAd Transaction.

Open Scope Z_scope.

Section ClassAdLog.
Context `{L : ExprLang}.
Variable m_strictEvaluation : bool.

Abbreviation ClassAdHashTable := (HT.HashTable bytes ClassAd).

Record ClassAdLog := mkLog {
  table : ClassAdHashTable;
  active_transaction : option Transaction;
  log_fp : option FILE;
  max_historical_logs : Z;
  historical_sequence_number : Z;
  m_original_log_birthdate : Z;
  m_nondurable_level : Z
}.

Definition set_table l t := mkLog t (active_transaction l) (log_fp l) (max_historical_logs l)
  (historical_sequence_number l) (m_original_log_birthdate l) (m_nondurable_level l).
Definition set_active l a := mkLog (table l) a (log_fp l) (max_historical_logs l)
  (historical_sequence_number l) (m_original_log_birthdate l) (m_nondurable_level l).
Definition set_log_fp l f := mkLog (table l) (active_transaction l) f (max_historical_logs l)
  (historical_sequence_number l) (m_original_log_birthdate l) (m_nondurable_level l).
Definition set_seq l n := mkLog (table l) (active_transaction l) (log_fp l)
  (max_historical_logs l) n (m_original_log_birthdate l) (m_nondurable_level l).
Definition set_level l n := mkLog (table l) (active_transaction l) (log_fp l)
  (max_historical_logs l) (historical_sequence_number l) (m_original_log_birthdate l) n.

Inductive run (A : Type) :=
| Returns (l : ClassAdLog) (a : A)
| Dies (l : ClassAdLog) (msg : string).
Arguments Returns {A} l a.
Arguments Dies {A} l msg%_string.

(** ** Appending and transactions *)

Definition AppendLog (l : ClassAdLog) (log : LogRecord) : run unit :=
  match active_transaction l with
  | Some t =>
      let t := if m_EmptyTransaction t then append_record t LogBeginTransaction else t in
      Returns (set_active l (Some (append_record t log))) tt
  | None =>
      match log_fp l with
      | None => Returns (set_table l (play m_strictEvaluation (table l) log)) tt
      | Some f =>
          match Write log f with
          | (false, f1) => Dies (set_log_fp l (Some f1)) "write failed"
          | (true, f1) =>
              if m_nondurable_level l =? 0 then
                match fflush f1 with
                | (false, f2) => Dies (set_log_fp l (Some f2)) "flush failed"
                | (true, f2) =>
                    match fsync f2 with
                    | (false, f3) => Dies (set_log_fp l (Some f3)) "fsync failed"
                    | (true, f3) =>
                        Returns (set_table (set_log_fp l (Some f3))
                                   (play m_strictEvaluation (table l) log)) tt
                    end
                end
              else Returns (set_table (set_log_fp l (Some f1))
                              (play m_strictEvaluation (table l) log)) tt
          end
      end
  end.

Definition FlushLog (l : ClassAdLog) : run unit :=
  match log_fp l with
  | None => Returns l tt
  | Some f => match fflush f with
              | (true, f') => Returns (set_log_fp l (Some f')) tt
              | (false, f') => Dies (set_log_fp l (Some f')) "flush failed"
              end
  end.

Definition IncNondurableCommitLevel (l : ClassAdLog) : ClassAdLog * Z :=
  (set_level l (m_nondurable_level l + 1), m_nondurable_level l).
Definition DecNondurableCommitLevel (l : ClassAdLog) (old_level : Z) : run unit :=
  let l' := set_level l (m_nondurable_level l - 1) in
  if m_nondurable_level l' =? old_level then Returns l' tt
  else Dies l' "ClassAdLog::DecNondurableCommitLevel".

Definition BeginTransaction (l : ClassAdLog) : run unit :=
  match active_transaction l with
  | Some _ => Dies l "Assertion ERROR on (!active_transaction)"
  | None => Returns (set_active l (Some new_Transaction)) tt
  end.

Definition AbortTransaction (l : ClassAdLog) : run bool :=
  match active_transaction l with
  | Some _ => Returns (set_active l None) true
  | None => Returns l false
  end.

Definition CommitTransaction (env : BackupEnv) (l : ClassAdLog) : run unit :=
  match active_transaction l with
  | None => Returns l tt
  | Some t =>
      if m_EmptyTransaction t then Returns (set_active l None) tt
      else
        let t := append_record t LogEndTransaction in
        let nondurable := 0 <? m_nondurable_level l in
        let c := Commit m_strictEvaluation env t (log_fp l) (table l) nondurable in
        let l' := set_log_fp (set_table l (c_table c)) (fp (c_log c)) in
        match c_except c with
        | None => Returns (set_active l' None) tt
        | Some _ => Dies l' "Failed to write real job queue log"
        end
  end.

Definition CommitNondurableTransaction (env : BackupEnv) (l : ClassAdLog) : run unit :=
  let '(l1, old_level) := IncNondurableCommitLevel l in
  match CommitTransaction env l1 with
  | Returns l2 _ => DecNondurableCommitLevel l2 old_level
  | Dies l2 msg => Dies l2 msg
  end.

(** ** Looking into the active transaction *)

Definition AdExistsInTableOrTransaction (l : ClassAdLog) (key : bytes) : bool :=
  let adexists := bool_decide (is_Some (HT.lookup hashFunction (table l) key)) in
  match active_transaction l with
  | None => adexists
  | Some t =>
      foldl (fun adexists log =>
               match log with
               | LogNewClassAd _ _ _ => true
               | LogDestroyClassAd _ => false
               | _ => adexists
               end) adexists (entries_of t key)
  end.

(** The local variables of ExamineTransaction(). *)
Record Examine := mkExamine {
  AdDeleted : bool;
  ValDeleted : bool;
  ValFound : bool;
  val : option bytes;
  ad : option ClassAd;
  attrsAdded : Z
}.

Definition examine_step (name : option bytes) (s : Examine) (log : LogRecord) : Examine :=
  match log with
  | LogNewClassAd _ _ _ =>
      mkExamine false (ValDeleted s) (ValFound s) (val s) (ad s) (attrsAdded s)
  | LogDestroyClassAd _ =>
      match ad s with
      | Some _ => mkExamine true (ValDeleted s) (ValFound s) (val s) None 0
      | None => mkExamine true (ValDeleted s) (ValFound s) (val s) None (attrsAdded s)
      end
  | LogSetAttribute _ lname value _ =>
      match name with
      | Some n =>
          if strcaseeq lname n
          then mkExamine (AdDeleted s) false true (Some value) (ad s) (attrsAdded s)
          else s
      | None =>
          let a := default (new_ClassAd m_strictEvaluation) (ad s) in
          mkExamine (AdDeleted s) (ValDeleted s) (ValFound s) (Some value)
            (Some (AssignExpr a lname (Some value)).1) (attrsAdded s + 1)
      end
  | LogDeleteAttribute _ lname =>
      match name with
      | Some n =>
          if strcaseeq lname n
          then mkExamine (AdDeleted s) true false (if ValFound s then None else val s)
                 (ad s) (attrsAdded s)
          else s
      | None =>
          match ad s with
          | Some a => mkExamine (AdDeleted s) (ValDeleted s) (ValFound s) (val s)
                        (Some (Delete a lname).1) (attrsAdded s - 1)
          | None => s
          end
      end
  | _ => s
  end.

Definition ExamineTransaction (l : ClassAdLog) (key : bytes) (name : option bytes)
  : Z * option bytes * option ClassAd :=
  match active_transaction l with
  | None => (0, None, None)
  | Some t =>
      let s := foldl (examine_step name) (mkExamine false false false None None 0)
                 (entries_of t key) in
      let code :=
        match name with
        | Some _ => if AdDeleted s || ValDeleted s then -1 else if ValFound s then 1 else 0
        | None => if attrsAdded s <? 0 then 0 else attrsAdded s
        end in
      (code, val s, ad s)
  end.

Definition LookupInTransaction (l : ClassAdLog) (key : bytes) (name : option bytes)
  : Z * option bytes :=
  match name with
  | None => (0, None)
  | Some _ => let '(code, v, _) := ExamineTransaction l key name in (code, v)
  end.

Definition AddAttrsFromTransaction (l : ClassAdLog) (key : bytes) (a : ClassAd)
  : ClassAd * bool :=
  match active_transaction l with
  | None => (a, false)
  | Some _ =>
      match ExamineTransaction l key None with
      | (_, _, Some attrsFromTransaction) =>
          (MergeClassAds a attrsFromTransaction true true, true)
      | _ => (a, false)
      end
  end.

Definition getActiveTransaction (l : ClassAdLog) : ClassAdLog * option Transaction :=
  (set_active l None, active_transaction l).
Definition setActiveTransaction (l : ClassAdLog) (t : option Transaction)
  : ClassAdLog * option Transaction * bool :=
  match active_transaction l with
  | Some _ => (l, t, false)
  | None => (set_active l t, None, true)
  end.

Definition ListNewAdsInTransaction (l : ClassAdLog) : list bytes :=
  match active_transaction l with
  | None => []
  | Some t => InTransactionListKeysWithOpType t CondorLogOp_NewClassAd
  end.

(** ** Compaction *)

(** The records LogState() writes for one ad: the ad is unchained first, so that only its
    own attributes are written. *)
Definition ad_records (key : bytes) (a : ClassAd) : list LogRecord :=
  LogNewClassAd key (GetMyTypeName a) (GetTargetTypeName a) ::
  ((fun ne => new_LogSetAttribute key ne.1 (Some (ExprTreeToString ne.2)) false)
     <$> own_attrs (Unchain a)).

(** The ads in the order table.iterate() returns them. *)
Definition table_ads (t : ClassAdHashTable) : list (bytes * ClassAd) :=
  match HT.drain (S (Z.to_nat (HT.numElems t))) (HT.startIterations t) with
  | Some (l, _) => l
  | None => []
  end.

Definition state_records (l : ClassAdLog) : list LogRecord :=
  LogHistoricalSequenceNumber (historical_sequence_number l) (m_original_log_birthdate l) ::
  concat ((fun ka => ad_records ka.1 ka.2) <$> table_ads (table l)).

Fixpoint write_records (rs : list LogRecord) (f : FILE) : bool * FILE :=
  match rs with
  | [] => (true, f)
  | r :: rs' => match Write r f with
                | (true, f') => write_records rs' f'
                | (false, f') => (false, f')
                end
  end.

(** LogState(): [false] is the EXCEPT of a failed write, flush or sync. *)
Definition LogState (l : ClassAdLog) (f : FILE) : bool * FILE :=
  match write_records (state_records l) f with
  | (false, f1) => (false, f1)
  | (true, f1) =>
      match fflush f1 with
      | (false, f2) => (false, f2)
      | (true, f2) => fsync f2
      end
  end.

(** The temporary file (logname.tmp) and the historical logs (logname.N). *)
Record Disk := mkDisk {
  tmp : option bytes;
  hist : gmap Z bytes
}.

(** What the system calls of a rotation do. *)
Record RotateEnv := mkRotateEnv {
  hardlink_ok : bool;
  unlink_ok : bool;
  tmp_open_ok : bool;
  tmp_fdopen_ok : bool;
  tmp_script : list io;
  rotate_ok : bool;
  reopen_ok : bool;
  log_script : list io
}.

Definition SaveHistoricalLogs (env : RotateEnv) (l : ClassAdLog) (d : Disk) : Disk * bool :=
  if max_historical_logs l =? 0 then (d, true)
  else if hardlink_ok env then
    let content := match log_fp l with Some f => data f | None => [] end in
    let d1 := mkDisk (tmp d) (<[historical_sequence_number l := content]> (hist d)) in
    let old := (historical_sequence_number l - max_historical_logs l) mod 2 ^ 64 in
    (if unlink_ok env then mkDisk (tmp d1) (delete old (hist d1)) else d1, true)
  else (d, false).

(** Writing [s] at the start of a file that holds [old] and is not truncated. *)
Definition overwrite (old s : bytes) : bytes := s ++ drop (length s) old.

(** TruncLog(): the temporary file is opened with O_RDWR|O_CREAT and fdopen mode r+.  The
    results of fclose() are not looked at: if the old log cannot be flushed there, what was
    buffered is lost.  The file reopened after a rotation is the one LogState() synced. *)
Definition TruncLog (env : RotateEnv) (l : ClassAdLog) (d : Disk) : run bool * Disk :=
  let '(d, saved) := SaveHistoricalLogs env l d in
  if negb saved then (Returns l false, d)
  else if negb (tmp_open_ok env) then (Returns l false, d)
  else
    let old := default [] (tmp d) in
    if negb (tmp_fdopen_ok env) then (Returns l false, mkDisk (Some old) (hist d))
    else
      let l1 := set_seq l ((historical_sequence_number l + 1) mod 2 ^ 64) in
      let '(ok, new) := LogState l1 (new_FILE (tmp_script env)) in
      let content := overwrite old (data new) in
      let l2 := set_table l1 (HT.startIterations (table l1)) in
      match log_fp l with
      | None => (Dies l2 "fclose(NULL)", mkDisk (Some content) (hist d))
      | Some f =>
          let reopened c n := Some (mkFILE c (length c) n (log_script env) 0) in
          let closed := match fflush f with
                        | (true, _) => data f
                        | (false, _) => take (flushed f) (data f)
                        end in
          if negb ok then (Dies l2 "write to log failed", mkDisk (Some content) (hist d))
          else if negb (rotate_ok env) then
            let l3 := set_seq l2 (historical_sequence_number l) in
            if reopen_ok env
            then (Returns (set_log_fp l3 (reopened closed (durable f))) false,
                  mkDisk (Some content) (hist d))
            else (Dies l3 "failed to reopen log", mkDisk (Some content) (hist d))
          else if reopen_ok env
            then (Returns (set_log_fp l2 (reopened content (length content))) true, mkDisk None (hist d))
            else (Dies (set_log_fp l2 (reopened content (length content))) "failed to open log in append mode",
                  mkDisk None (hist d))
      end.

(** ** Recovery: the constructor *)

(** The local variables of the loop that reads the log. *)
Record Replay := mkReplay {
  r_table : ClassAdHashTable;
  r_active : option Transaction;
  r_seq : Z;
  r_birthdate : Z;
  r_count : Z;
  r_is_clean : bool
}.

(** The body of the switch. *)
Definition replay_step (s : Replay) (log_rec : LogRecord) : Replay :=
  let count := r_count s + 1 in
  match log_rec with
  | LogBeginTransaction =>
      let a := match r_active s with Some t => Some t | None => Some new_Transaction end in
      mkReplay (r_table s) a (r_seq s) (r_birthdate s) count false
  | LogEndTransaction =>
      match r_active s with
      | None => mkReplay (r_table s) None (r_seq s) (r_birthdate s) count (r_is_clean s)
      | Some t =>
          let c := Commit m_strictEvaluation (mkBackupEnv None None false false []) t None
                     (r_table s) false in
          mkReplay (c_table c) None (r_seq s) (r_birthdate s) count (r_is_clean s)
      end
  | LogHistoricalSequenceNumber n ts =>
      mkReplay (r_table s) (r_active s) n ts count (r_is_clean s)
  | _ =>
      match r_active s with
      | Some t => mkReplay (r_table s) (Some (append_record t log_rec)) (r_seq s)
                    (r_birthdate s) count (r_is_clean s)
      | None => mkReplay (play m_strictEvaluation (r_table s) log_rec) None (r_seq s)
                  (r_birthdate s) count (r_is_clean s)
      end
  end.

(** The while loop.  The result is the final state, the bytes that were left after the last
    good record, and those left when the reading stopped; [None] is an exhausted fuel. *)
Fixpoint read_log (fuel : nat) (input : bytes) (s : Replay)
  : option (outcome (Replay * bytes * bytes)) :=
  match fuel with
  | O => None
  | S fuel' =>
      match ReadLogEntry input with
      | EXCEPT e => Some (EXCEPT e)
      | Done (None, r) => Some (Done (s, input, r))
      | Done (Some rec, r) => read_log fuel' r (replay_step s rec)
      end
  end.

Definition initial_replay (now : Z) : Replay :=
  mkReplay (HT.initialize HT.allowDuplicateKeys) None 1 now 0 true.

(** Each good record consumes at least a byte. *)
Definition recover (input : bytes) (now : Z) : option (outcome (Replay * bytes * bytes)) :=
  read_log (S (length input)) input (initial_replay now).

(** A record written at the read position of the log (not always its end). *)
Definition write_at (pos : nat) (content : bytes) (r : LogRecord) (sc : list io) : bool * FILE :=
  match Write r (mkFILE (take pos content) pos pos sc 0) with
  | (ok, f) => (ok, mkFILE (overwrite content (data f)) (flushed f) (durable f) (script f) (errno f))
  end.

(** ClassAdLog::ClassAdLog(filename, max_historical_logs). *)
Definition open_log (env : RotateEnv) (sc : list io) (content : bytes) (d : Disk) (max now : Z)
  : option (outcome (run unit * Disk)) :=
  match recover content now with
  | None => None
  | Some (EXCEPT e) => Some (EXCEPT e)
  | Some (Done (s, last_good, rest)) =>
      let broken := negb (length last_good =? length rest)%nat in
      let requires_successful_cleaning :=
        broken || match r_active s with Some _ => true | None => false end in
      let pos := (length content - length rest)%nat in
      let '(ok, f) :=
        if r_count s =? 0 then
          write_at pos content (LogHistoricalSequenceNumber (r_seq s) (r_birthdate s)) sc
        else (true, mkFILE content (length content) (length content) sc 0) in
      let l := mkLog (r_table s) None (Some f) max (r_seq s) (r_birthdate s) 0 in
      Some (Done
        (if negb ok then (Dies l "write to log failed", d)
         else if negb (r_is_clean s) || requires_successful_cleaning then
           match TruncLog env l d with
           | (Returns l' true, d') => (Returns l' tt, d')
           | (Returns l' false, d') =>
               if requires_successful_cleaning
               then (Dies l' "Failed to rotate ClassAd log", d')
               else (Returns l' tt, d')
           | (Dies l' msg, d') => (Dies l' msg, d')
           end
         else (Returns l tt, d)))
  end.

(** ** The reading loop ends on every file *)

Lemma read_log_total fuel input s :
  (length input < fuel)%nat -> exists o, read_log fuel input s = Some o.
Proof.
  revert input s. induction fuel as [|fuel IH]; intros input s Hf; [lia|]. simpl.
  destruct (ReadLogEntry input) as [[[x|] r]|e] eqn:Hr; [|eauto..].
  apply ReadLogEntry_length in Hr. apply IH. lia.
Qed.

(** Whatever bytes the log file holds, the loop of the constructor ends: with
    a table, or with the EXCEPT that reports a corrupt log.  (The fuel of the model, one more
    than the size of the file, is always enough.) *)
Theorem recover_terminates input now : exists o, recover input now = Some o.
Proof. apply read_log_total. lia. Qed.
End ClassAdLog.
