(* ===== verification/Recovery.v ===== *)
(** Crash recovery of the ClassAd log: condor_utils/classad_log.cpp against an abstract store.

    The abstract store [ads] maps a key to the attributes of its ad.  A log is a sequence of
    [commit_unit]s: a record appended outside a transaction, or a whole transaction.  The
    theorems relate the operations of ClassAdLog.v, run under a script of I/O faults (arbitrary, when
    every commit is durable), to that store: what a crash leaves of the log file is always recovered as the
    effect of a prefix of the units, which contains every unit that was reported durable. *)

From S2P Require Import Prelude HashTable LogRecord ClassAd Transaction ClassAdLog.

Open Scope Z_scope.

Section Recovery.
Context `{L : ExprLang}.
Variable m_strictEvaluation : bool.

Abbreviation attrs := (gmap bytes (bytes * expr)).
Abbreviation ads := (gmap bytes (gmap bytes (bytes * expr))).
Abbreviation ClassAdHashTable := (HT.HashTable bytes ClassAd).
Abbreviation play := (play m_strictEvaluation).
Abbreviation replay_step := (replay_step m_strictEvaluation).
Abbreviation read_log := (read_log m_strictEvaluation).
Abbreviation recover := (recover m_strictEvaluation).

(** ** The abstract store *)

Definition put_attr (m : attrs) (name : bytes) (tree : expr) : attrs :=
  match name with
  | [] => m
  | _ => <[lower name := (match m !! lower name with Some (old, _) => old | None => name end,
                          tree)]> m
  end.

Definition store_step (m : ads) (r : LogRecord) : ads :=
  match r with
  | LogNewClassAd k mytype targettype =>
      <[k := attrList (fresh_ad m_strictEvaluation mytype targettype)]> m
  | LogDestroyClassAd k => delete k m
  | LogSetAttribute k name value _ =>
      match ParseExpression value with
      | Some tree => alter (fun a => put_attr a name tree) k m
      | None => m
      end
  | LogDeleteAttribute k name => alter (delete (lower name)) k m
  | _ => m
  end.

(** A NewClassAd record must create a key that is not there. *)
Definition freshb (m : ads) (r : LogRecord) : bool :=
  match r with
  | LogNewClassAd k _ _ => bool_decide (m !! k = None)
  | _ => true
  end.
Fixpoint legal (m : ads) (rs : list LogRecord) : bool :=
  match rs with
  | [] => true
  | r :: rs' => freshb m r && legal (store_step m r) rs'
  end.

(** The table seen as a store. *)
Definition abs (t : ClassAdHashTable) : ads := attrList <$> HT.to_map t.

(** A table the log manages: well-formed, without duplicate keys or chained ads. *)
Record managed (t : ClassAdHashTable) : Prop := {
  man_wf : HT.wf hashFunction t;
  man_unique : HT.unique t;
  man_unchained : map_Forall (fun _ a => chained_parent_ad a = None) (HT.to_map t)
}.

Lemma MarkAttributeDirty_spec a n :
  attrList (MarkAttributeDirty a n) = attrList a /\
  chained_parent_ad (MarkAttributeDirty a n) = chained_parent_ad a.
Proof. unfold MarkAttributeDirty. by destruct (do_dirty_tracking a). Qed.
Lemma SetDirtyFlag_spec a n d :
  attrList (SetDirtyFlag a n d) = attrList a /\
  chained_parent_ad (SetDirtyFlag a n d) = chained_parent_ad a.
Proof.
  unfold SetDirtyFlag, MarkAttributeDirty, MarkAttributeClean.
  by destruct d, (do_dirty_tracking a).
Qed.
Lemma Insert_spec a n e :
  attrList (Insert a n e).1 = put_attr (attrList a) n e /\
  chained_parent_ad (Insert a n e).1 = chained_parent_ad a.
Proof.
  destruct n as [|c n]; [done|]. cbn [Insert fst put_attr].
  by destruct (MarkAttributeDirty_spec (set_attrList a (<[lower (c :: n):=
    (match attrList a !! lower (c :: n) with Some (old, _) => old | None => c :: n end, e)]> (attrList a)))
    (c :: n)) as [-> ->].
Qed.
Lemma set_attribute_spec n v d a :
  attrList (set_attribute n v d a).1 =
    match ParseExpression v with Some e => put_attr (attrList a) n e | None => attrList a end /\
  chained_parent_ad (set_attribute n v d a).1 = chained_parent_ad a.
Proof.
  unfold set_attribute, AssignExpr. simpl default. destruct (ParseExpression v) as [e|]; cbn [fst].
  - destruct (Insert_spec a n e) as [H1 H2]. destruct (Insert a n e) as [a' b]. cbn [fst] in *.
    destruct (SetDirtyFlag_spec a' n d) as [-> ->]. done.
  - apply SetDirtyFlag_spec.
Qed.
Lemma new_ClassAd_unchained : chained_parent_ad (new_ClassAd m_strictEvaluation) = None.
Proof.
  unfold new_ClassAd. destruct m_strictEvaluation; [done|]. unfold AssignExpr.
  destruct (ParseExpression _); [|done]. by rewrite (proj2 (Insert_spec _ _ _)).
Qed.
Lemma fresh_ad_unchained m t : chained_parent_ad (fresh_ad m_strictEvaluation m t) = None.
Proof.
  unfold fresh_ad, SetTargetTypeName, SetMyTypeName, InsertAttr.
  rewrite !(proj2 (Insert_spec _ _ _)). apply new_ClassAd_unchained.
Qed.

Lemma abs_lookup t k : managed t -> abs t !! k = attrList <$> HT.lookup hashFunction t k.
Proof. intros Ht. unfold abs. by rewrite lookup_fmap, HT.lookup_to_map by apply Ht. Qed.

(** Writing through the pointer lookup() returns changes that ad and nothing else. *)
Lemma modify_abs t k f g :
  managed t ->
  (forall a, chained_parent_ad a = None ->
    attrList (f a) = g (attrList a) /\ chained_parent_ad (f a) = None) ->
  managed (HT.modify hashFunction t k f) /\ abs (HT.modify hashFunction t k f) = alter g k (abs t).
Proof.
  intros [Hwf Hu Hc] Hfg. destruct (HT.modify_spec hashFunction t k f Hwf Hu) as (Hw' & Hu' & Hm).
  split; [split; [done..|]|].
  - rewrite Hm. intros j a. rewrite lookup_alter. case_decide; [|by apply Hc].
    subst j. destruct (HT.to_map t !! k) as [x|] eqn:Hk; [|done]. intros [= <-].
    apply Hfg. by eapply Hc.
  - unfold abs. rewrite Hm. apply map_eq. intros j. rewrite lookup_alter, !lookup_fmap, lookup_alter.
    case_decide; [|done]. subst j. destruct (HT.to_map t !! k) as [x|] eqn:Hk; [|done]. simpl.
    f_equal. apply Hfg. by eapply Hc.
Qed.
(** Play() does to the table what the record does to the store. *)
Lemma play_abs t r :
  managed t -> freshb (abs t) r -> managed (play t r) /\ abs (play t r) = store_step (abs t) r.
Proof.
  intros Ht Hf. pose proof Ht as [Hwf Hu Hc].
  assert (Hlk : forall k, HT.lookup hashFunction t k = None -> abs t !! k = None)
    by (intros k Hk; by rewrite abs_lookup, Hk).
  destruct r as [k m ty|k|k n v d|k n| | |s ts]; unfold Transaction.play, Play, LogNewClassAd_Play,
    LogDestroyClassAd_Play, LogSetAttribute_Play, LogDeleteAttribute_Play; simpl; try done.
  - simpl in Hf. apply bool_decide_unpack in Hf. unfold abs in Hf. rewrite lookup_fmap in Hf.
    apply fmap_None in Hf.
    pose proof (HT.insert_spec hashFunction t k (fresh_ad m_strictEvaluation m ty) Hwf Hu
      (fun _ => Hf)) as Hi.
    destruct (HT.insert _ _ _ _) as [t' z]. destruct Hi as (Hw' & Hu' & _ & _ & Hi).
    rewrite bool_decide_false in Hi by (rewrite Hf; intros [_ []]; done). destruct Hi as [Hm _].
    simpl. split; [split; [done..|]|].
    + rewrite Hm. apply map_Forall_insert_2; [apply fresh_ad_unchained | done].
    + unfold abs. by rewrite Hm, fmap_insert.
  - destruct (HT.lookup hashFunction t k) eqn:Hk; [|by rewrite delete_id by auto].
    pose proof (HT.remove_spec hashFunction t k Hwf) as Hr.
    destruct (HT.remove _ _ _) as [t' z]. destruct Hr as (Hw' & Hr & _).
    destruct (Hr Hu) as (Hu' & Hm & _). simpl. split; [split; [done..|]|].
    + rewrite Hm. by apply map_Forall_delete.
    + unfold abs. by rewrite Hm, fmap_delete.
  - destruct (HT.lookup hashFunction t k) eqn:Hk; simpl.
    + destruct (modify_abs t k (fun a => (set_attribute n v d a).1)
        (fun a => match ParseExpression v with Some e => put_attr a n e | None => a end) Ht) as [? ->].
      { intros a Ha. destruct (set_attribute_spec n v d a) as [-> ->]. done. }
      split; [done|]. destruct (ParseExpression v); [done|]. by apply alter_id.
    + destruct (ParseExpression v); [|done]. by rewrite alter_id by (intros a Ha; by rewrite Hlk in Ha).
  - destruct (HT.lookup hashFunction t k) eqn:Hk; simpl; [|by rewrite alter_id by (intros a Ha; by rewrite Hlk in Ha)].
    apply modify_abs; [done|]. intros a Ha. unfold Delete. rewrite Ha. done.
Qed.

Lemma store_step_reread m r : store_step m (reread r) = store_step m r.
Proof. by destruct r. Qed.
Lemma freshb_reread m r : freshb m (reread r) = freshb m r.
Proof. by destruct r. Qed.
Lemma legal_reread m rs : legal m (reread <$> rs) = legal m rs.
Proof.
  revert m. induction rs as [|r rs IH]; intros m; [done|]. simpl.
  by rewrite freshb_reread, store_step_reread, IH.
Qed.
Lemma fold_reread m rs : foldl store_step m (reread <$> rs) = foldl store_step m rs.
Proof. revert m. induction rs as [|r rs IH]; intros m; simpl; [done|]. by rewrite store_step_reread. Qed.
Lemma legal_app m rs rs' : legal m (rs ++ rs') = legal m rs && legal (foldl store_step m rs) rs'.
Proof. revert m. induction rs as [|r rs IH]; intros m; simpl; [done|]. by rewrite IH, andb_assoc. Qed.

Lemma plays_abs rs t :
  managed t -> legal (abs t) rs ->
  managed (foldl play t rs) /\ abs (foldl play t rs) = foldl store_step (abs t) rs.
Proof.
  revert t. induction rs as [|r rs IH]; intros t Ht Hl; simpl in *; [done|].
  apply andb_True in Hl as [Hf Hl]. destruct (play_abs t r Ht Hf) as [Ht' Ha].
  rewrite <- Ha in *. by apply IH.
Qed.

Lemma managed_initialize d : managed (HT.initialize d) /\ abs (HT.initialize d) = ∅.
Proof.
  destruct (HT.initialize_wf hashFunction (Value:=ClassAd) d) as (? & ? & _).
  split; [split; [done..|]|]; [apply map_Forall_empty | apply fmap_empty].
Qed.
(** ** Texts and their prefixes *)

Definition log_text (rs : list LogRecord) : bytes := concat (record_text <$> rs).

Lemma record_text_nonnil r : record_text r <> [].
Proof. unfold record_text. by destruct r. Qed.
Lemma log_text_app rs rs' : log_text (rs ++ rs') = log_text rs ++ log_text rs'.
Proof. unfold log_text. by rewrite fmap_app, concat_app. Qed.
Lemma log_text_length rs : (length rs <= length (log_text rs))%nat.
Proof.
  induction rs as [|r rs IH]; [done|].
  change (log_text (r :: rs)) with (record_text r ++ log_text rs). rewrite length_app.
  pose proof (record_text_nonnil r) as Hn. destruct (record_text r); [done|]. simpl. lia.
Qed.

(** A record at most begun. *)
Definition partial (p : bytes) : Prop := p = [] \/ exists r, record_okb r /\ torn p (record_text r).

Lemma ReadLogEntry_partial p : partial p -> ReadLogEntry p = Done (None, []).
Proof. intros [->|(r & Hr & Ht)]; [apply ReadLogEntry_eof | by eapply ReadLogEntry_torn]. Qed.

(** The loop of the constructor reads whole records and stops at the partial one. *)
Lemma read_log_text rs p s fuel :
  Forall record_okb rs -> partial p -> (length rs < fuel)%nat ->
  read_log fuel (log_text rs ++ p) s =
  Some (Done (foldl replay_step s (reread <$> rs), p, [])).
Proof.
  intros Hrs Hp. revert s fuel. induction Hrs as [|r rs Hr Hrs IH]; intros s fuel Hf;
    (destruct fuel as [|fuel]; [simpl in Hf; lia|]).
  - simpl. by rewrite ReadLogEntry_partial.
  - simpl in Hf. change (log_text (r :: rs)) with (record_text r ++ log_text rs).
    rewrite <- app_assoc. cbn [ClassAdLog.read_log]. rewrite ReadLogEntry_text by done.
    rewrite IH by lia. done.
Qed.
Lemma recover_text rs p now :
  Forall record_okb rs -> partial p ->
  recover (log_text rs ++ p) now =
  Some (Done (foldl replay_step (initial_replay now) (reread <$> rs), p, [])).
Proof.
  intros Hrs Hp. unfold ClassAdLog.recover. apply read_log_text; [done..|].
  rewrite length_app. pose proof (log_text_length rs). lia.
Qed.

(** A prefix of a concatenation: whole pieces, then part of the next one. *)
Lemma prefix_concat (ls : list bytes) q :
  q `prefix_of` concat ls ->
  exists k p, (k <= length ls)%nat /\ q = concat (take k ls) ++ p /\
    (p = [] \/ exists s, ls !! k = Some s /\ torn p s).
Proof.
  revert q. induction ls as [|s ls IH]; intros q Hq.
  - exists O, []. apply prefix_nil_inv in Hq as ->. eauto.
  - simpl in Hq. destruct Hq as [q' Hq]. symmetry in Hq.
    apply app_eq_inv in Hq as [(m & -> & Hq)|(m & -> & ->)].
    + destruct (IH m) as (k & p & Hk & -> & Hp); [by exists q'|]. exists (S k), p. simpl.
      rewrite app_assoc. split_and!; [lia|done|]. done.
    + destruct m as [|c m].
      * exists 1%nat, []. simpl. rewrite !app_nil_r. split_and!; [lia|done|auto].
      * exists O, q. simpl. split_and!; [lia|done|]. right. eexists. split; [done|].
        by exists (c :: m).
Qed.

Lemma torn_length p s : torn p s -> (length p < length s)%nat.
Proof. intros (q & -> & Hq). rewrite length_app. destruct q; [done|simpl; lia]. Qed.
Lemma concat_take_mono (ls : list bytes) i j :
  (i <= j)%nat -> (length (concat (take i ls)) <= length (concat (take j ls)))%nat.
Proof.
  intros Hij. replace (take i ls) with (take i (take j ls)) by (rewrite take_take; f_equal; lia).
  rewrite <- (take_drop i (take j ls)) at 2. rewrite concat_app, length_app. lia.
Qed.

(** The number of whole pieces is at least [d] once the first [d] pieces fit. *)
Lemma prefix_concat_bound (ls : list bytes) k p d :
  Forall (fun s => s <> []) ls -> (d <= length ls)%nat ->
  (p = [] \/ exists s, ls !! k = Some s /\ torn p s) ->
  (length (concat (take d ls)) <= length (concat (take k ls) ++ p))%nat -> (d <= k)%nat.
Proof.
  intros Hne Hd Hp Hlen. destruct (le_lt_dec d k) as [|Hlt]; [done|exfalso].
  destruct (lookup_lt_is_Some_2 ls k) as [s Hs]; [lia|].
  pose proof (concat_take_mono ls (S k) d Hlt) as Hm.
  rewrite (take_S_r _ _ _ Hs), concat_app, length_app in Hm. simpl in Hm. rewrite app_nil_r in Hm.
  rewrite length_app in Hlen. rewrite Forall_lookup in Hne. specialize (Hne k s Hs).
  destruct Hp as [->|(s' & Hs' & Ht)].
  - simpl in Hlen. destruct s; [done|]. simpl in Hm. lia.
  - simplify_eq. apply torn_length in Ht. lia.
Qed.

(** ** Commit units *)

Inductive commit_unit :=
| Single (r : LogRecord)
| Txn (rs : list LogRecord).

Definition unit_records (u : commit_unit) : list LogRecord :=
  match u with
  | Single r => [r]
  | Txn rs => LogBeginTransaction :: rs ++ [LogEndTransaction]
  end.
Definition unit_ops (u : commit_unit) : list LogRecord :=
  match u with Single r => [r] | Txn rs => rs end.

(** Records about an ad; only they may appear in a transaction. *)
Definition ad_record (r : LogRecord) : bool :=
  match get_key r with Some _ => true | None => false end.
Definition unit_okb (u : commit_unit) : bool :=
  match u with
  | Single LogBeginTransaction | Single LogEndTransaction => false
  | Single r => record_okb r
  | Txn rs => forallb record_okb rs && forallb ad_record rs
  end.

Definition unit_text (u : commit_unit) : bytes := log_text (unit_records u).
Definition units_text (us : list commit_unit) : bytes := concat (unit_text <$> us).
Definition store_of (us : list commit_unit) : ads := foldl store_step ∅ (concat (unit_ops <$> us)).
Definition legal_units (us : list commit_unit) : bool := legal ∅ (concat (unit_ops <$> us)).

Lemma unit_records_ok u : unit_okb u -> Forall record_okb (unit_records u).
Proof.
  destruct u as [r|rs]; simpl; [by destruct r; repeat constructor|].
  intros [Hrs _]%andb_True. constructor; [done|]. apply Forall_app. split; [|by repeat constructor].
  by apply forallb_True.
Qed.
Lemma unit_text_nonnil u : unit_text u <> [].
Proof. by destruct u as [[]|]. Qed.

(** ** Replaying units *)

Lemma commit_loop_table rs t f0 f1 :
  exists f0' f1', commit_loop m_strictEvaluation rs t f0 f1 = (foldl play t rs, f0', f1').
Proof.
  revert t f0 f1. induction rs as [|r rs IH]; intros t f0 f1; simpl; [eauto|]. apply IH.
Qed.
Lemma Commit_table env t f table nd :
  c_table (Commit m_strictEvaluation env t f table nd) = foldl play table (ordered_op_log t).
Proof.
  unfold Commit. edestruct commit_loop_table as (f0 & f1 & ->). by destruct nd.
Qed.
Lemma appends_ordered t rs :
  ordered_op_log (foldl append_record t rs) = ordered_op_log t ++ rs.
Proof.
  revert t. induction rs as [|r rs IH]; intros t; simpl; [by rewrite app_nil_r|].
  rewrite IH. simpl. by rewrite <- app_assoc.
Qed.
Lemma ad_record_reread r : ad_record (reread r) = ad_record r.
Proof. by destruct r. Qed.

(** Inside a transaction, records are collected and the table does not move. *)
Lemma replay_collect rs s t :
  r_active s = Some t -> forallb ad_record rs ->
  let s' := foldl replay_step s (reread <$> rs) in
  r_table s' = r_table s /\ r_active s' = Some (foldl append_record t (reread <$> rs)).
Proof.
  revert s t. induction rs as [|r rs IH]; intros s t Hs Hrs; [done|].
  simpl in Hrs. apply andb_True in Hrs as [Hr Hrs]. rewrite fmap_cons. cbn [foldl].
  assert (Hst : exists c, replay_step s (reread r) =
    mkReplay (r_table s) (Some (append_record t (reread r))) (r_seq s) (r_birthdate s) c (r_is_clean s)).
  { exists (r_count s + 1). destruct r; try done; simpl; by rewrite Hs. }
  destruct Hst as [c ->]. exact (IH (mkReplay _ _ _ _ _ _) (append_record t (reread r)) eq_refl Hrs).
Qed.

Lemma replay_unit s u :
  r_active s = None -> managed (r_table s) -> unit_okb u -> legal (abs (r_table s)) (unit_ops u) ->
  let s' := foldl replay_step s (reread <$> unit_records u) in
  r_active s' = None /\ managed (r_table s') /\
  abs (r_table s') = foldl store_step (abs (r_table s)) (unit_ops u).
Proof.
  intros Hs Hm Hok Hl. destruct u as [r|rs]; simpl in Hok, Hl |- *.
  - rewrite andb_true_r in Hl.
    destruct (play_abs (r_table s) (reread r) Hm) as [Hm' Ha]; [by rewrite freshb_reread|].
    rewrite store_step_reread in Ha. destruct r; try done; simpl; rewrite Hs; done.
  - apply andb_True in Hok as [_ Hrs]. rewrite Hs, fmap_app, foldl_app.
    set (s1 := mkReplay _ _ _ _ _ _).
    destruct (replay_collect rs s1 new_Transaction eq_refl Hrs) as [Ht Ha].
    simpl. rewrite Ha. cbn [r_active r_table]. rewrite Commit_table, appends_ordered, Ht. simpl.
    destruct (plays_abs (reread <$> rs) (r_table s) Hm) as [? Hp]; [by rewrite legal_reread|].
    rewrite fold_reread in Hp. done.
Qed.

(** An unfinished unit leaves the table alone. *)
Lemma replay_unfinished s u rs :
  r_active s = None -> unit_okb u -> rs `prefix_of` unit_records u -> rs <> unit_records u ->
  let s' := foldl replay_step s (reread <$> rs) in
  r_table s' = r_table s /\ (r_active s' = None -> rs = []).
Proof.
  intros Hs Hok Hp Hne. destruct rs as [|r rs]; [done|]. destruct u as [r0|rs0]; cbn [unit_okb unit_records] in *.
  - destruct Hp as [q Hq]. destruct rs; simplify_eq/=.
  - apply andb_True in Hok as [_ Hrs]. destruct Hp as [q Hq]. injection Hq as <- Hq.
    assert (Hpre : rs `prefix_of` rs0).
    { symmetry in Hq. apply app_eq_inv in Hq as [(m & -> & Hm)|(m & -> & Hm)].
      - destruct m as [|x m]; [by rewrite app_nil_r|]. destruct m; simplify_eq/=.
      - by exists m. }
    destruct Hpre as [q' ->]. rewrite forallb_app in Hrs. apply andb_True in Hrs as [Hrs _].
    rewrite fmap_cons. cbn [foldl reread]. set (s1 := replay_step s LogBeginTransaction).
    assert (Ha1 : r_active s1 = Some new_Transaction) by (simpl; by rewrite Hs).
    destruct (replay_collect rs s1 _ Ha1 Hrs) as [-> ->]. done.
Qed.

Lemma replay_units us s :
  r_active s = None -> managed (r_table s) -> Forall unit_okb us ->
  legal (abs (r_table s)) (concat (unit_ops <$> us)) ->
  let s' := foldl replay_step s (reread <$> concat (unit_records <$> us)) in
  r_active s' = None /\ managed (r_table s') /\
  abs (r_table s') = foldl store_step (abs (r_table s)) (concat (unit_ops <$> us)).
Proof.
  intros Hs Hm Hok. revert s Hs Hm. induction Hok as [|u us Hu Hok IH]; intros s Hs Hm Hl; [done|].
  rewrite !fmap_cons in Hl |- *. simpl concat in Hl |- *. rewrite legal_app in Hl. apply andb_True in Hl as [H1 H2].
  rewrite fmap_app, !foldl_app. destruct (replay_unit s u Hs Hm Hu H1) as (Hs' & Hm' & Ha).
  rewrite <- Ha in H2 |- *. by apply IH.
Qed.

Lemma units_text_records us : units_text us = log_text (concat (unit_records <$> us)).
Proof.
  unfold units_text. induction us as [|u us IH]; [done|]. simpl. rewrite log_text_app. by f_equal.
Qed.
Lemma units_records_ok us : Forall unit_okb us -> Forall record_okb (concat (unit_records <$> us)).
Proof. induction 1; [constructor|]. simpl. apply Forall_app. eauto using unit_records_ok. Qed.

(** What is left of a unit that was cut short: whole records and at most part of one. *)
Lemma torn_unit u p :
  unit_okb u -> torn p (unit_text u) ->
  exists rs q, p = log_text rs ++ q /\ partial q /\ Forall record_okb rs /\
    rs `prefix_of` unit_records u /\ rs <> unit_records u.
Proof.
  intros Hu Ht. pose proof (unit_records_ok u Hu) as Hok. pose proof Ht as (x & Hx & _).
  destruct (prefix_concat (record_text <$> unit_records u) p) as (k & q & Hk & -> & Hq).
  { by exists x. }
  exists (take k (unit_records u)), q. unfold log_text. rewrite fmap_take. split_and!.
  - done.
  - destruct Hq as [->|(s & Hs & Hq)]; [by left|]. right.
    apply list_lookup_fmap_Some in Hs as (r & -> & Hr). exists r. split; [|done].
    by rewrite Forall_lookup in Hok; eapply Hok.
  - by apply Forall_take.
  - apply prefix_take.
  - intros He. apply torn_length in Ht. rewrite length_app in Ht.
    rewrite <- fmap_take, He in Ht. unfold unit_text, log_text in Ht. lia.
Qed.

(** The result of reading [img]: the whole records [rs], and [p], the part of one more. *)
Record readout (img : bytes) (now : Z) (rs : list LogRecord) (p : bytes) (s : Replay) : Prop := {
  ro_recover : recover img now = Some (Done (s, p, []));
  ro_text : img = log_text rs ++ p;
  ro_partial : partial p;
  ro_ok : Forall record_okb rs;
  ro_state : s = foldl replay_step (initial_replay now) (reread <$> rs)
}.

(** The contents of a crashed log: it recovers to a prefix of the units. *)
Lemma recover_prefix us img d now :
  Forall unit_okb us -> legal_units us -> img `prefix_of` units_text us ->
  (d <= length us)%nat -> (length (units_text (take d us)) <= length img)%nat ->
  exists k rs p s, (d <= k <= length us)%nat /\ readout img now rs p s /\
    managed (r_table s) /\ abs (r_table s) = store_of (take k us) /\
    (r_active s = None -> img = units_text (take k us) ++ p).
Proof.
  intros Hok Hl Himg Hd Hlen. destruct (prefix_concat _ _ Himg) as (k & p & Hk & -> & Hp).
  rewrite length_fmap in Hk. unfold units_text in Hlen. rewrite fmap_take in Hlen.
  assert (Hdk : (d <= k)%nat).
  { eapply prefix_concat_bound; [| |exact Hp|exact Hlen]; [|by rewrite length_fmap].
    apply Forall_fmap, Forall_true. apply unit_text_nonnil. }
  rewrite <- fmap_take. fold (units_text (take k us)). rewrite units_text_records.
  assert (Htk : Forall unit_okb (take k us)) by by apply Forall_take.
  assert (Hlk : legal ∅ (concat (unit_ops <$> take k us))).
  { unfold legal_units in Hl. rewrite <- (take_drop k us), fmap_app, concat_app, legal_app in Hl.
    by apply andb_True in Hl as [? _]. }
  destruct (managed_initialize HT.allowDuplicateKeys) as [Hm0 Ha0].
  change (abs (r_table (initial_replay now)) = ∅) in Ha0.
  destruct (replay_units (take k us) (initial_replay now)) as (Hs & Hm & Ha); [done..|by rewrite Ha0|].
  rewrite Ha0 in Ha. set (rk := concat (unit_records <$> take k us)) in *.
  set (s := foldl replay_step (initial_replay now) (reread <$> rk)) in *.
  assert (Hp' : exists rs q, p = log_text rs ++ q /\ partial q /\ Forall record_okb rs /\
    r_table (foldl replay_step s (reread <$> rs)) = r_table s /\
    (r_active (foldl replay_step s (reread <$> rs)) = None -> rs = [])).
  { destruct Hp as [->|(x & Hx & Ht)].
    - exists [], []. split_and!; [done|by left|done..].
    - apply list_lookup_fmap_Some in Hx as (u & -> & Hu).
      assert (Huk : unit_okb u) by (by rewrite Forall_lookup in Hok; eapply Hok).
      destruct (torn_unit u p Huk Ht) as (rs & q & -> & Hq & Hrs & Hpre & Hne).
      exists rs, q. split_and!; [done..| |]; by apply (replay_unfinished s u). }
  destruct Hp' as (rs & q & -> & Hq & Hrs & Heq & Hact).
  rewrite app_assoc, <- log_text_app.
  assert (Hrr : Forall record_okb (rk ++ rs)) by (apply Forall_app; split; [by apply units_records_ok|done]).
  exists k, (rk ++ rs), q, (foldl replay_step s (reread <$> rs)).
  split_and!; [done..| | | |].
  - split; [|done..|]; [|by rewrite fmap_app, foldl_app].
    rewrite recover_text by done. by rewrite fmap_app, foldl_app.
  - by rewrite Heq.
  - by rewrite Heq.
  - intros ->%Hact. by rewrite !app_nil_r, units_text_records.
Qed.

(** ** Writing *)

Lemma fflush_spec f :
  let '(ok, f') := fflush f in
  data f' = data f /\ durable f' = durable f /\
  (ok = true -> flushed f' = length (data f)) /\
  (script f = [] -> ok = true /\ script f' = []).
Proof. unfold fflush, next_io. destruct (script f) as [|[|] ?] eqn:Hs; simpl; split_and!; try done; congruence. Qed.
Lemma fsync_spec f :
  let '(ok, f') := fsync f in
  data f' = data f /\ durable f' = (if ok then flushed f else durable f) /\
  (script f = [] -> ok = true /\ script f' = []).
Proof. unfold fsync, next_io. destruct (script f) as [|[|] ?] eqn:Hs; simpl; split_and!; try done; congruence. Qed.

Lemma fwrite_quiet s f : script f = [] -> fwrite s f = (true, append s f).
Proof. intros Hs. unfold fwrite, next_io. by rewrite Hs. Qed.
Lemma fwrites_quiet ss f :
  script f = [] -> exists f', fwrites ss f = (true, f') /\ script f' = [].
Proof.
  revert f. induction ss as [|s ss IH]; intros f Hs; simpl; [eauto|].
  rewrite fwrite_quiet by done. by apply IH.
Qed.
Lemma wordb_no_newline w : wordb w -> has_newline w = false.
Proof.
  intros [_ Hw]%wordb_chars. unfold has_newline. apply bool_decide_false. intros Hin.
  apply Is_true_true in Hw. rewrite forallb_forall in Hw. apply list_elem_of_In, Hw in Hin. done.
Qed.
Lemma lineb_no_newline w : lineb w -> has_newline w = false.
Proof.
  unfold lineb. intros [_ Hw]%andb_True. unfold has_newline. apply bool_decide_false. intros Hin.
  apply Is_true_true in Hw. rewrite forallb_forall in Hw. apply list_elem_of_In, Hw in Hin. done.
Qed.
Lemma Write_quiet r f :
  script f = [] -> record_okb r -> exists f', Write r f = (true, f') /\ script f' = [].
Proof.
  intros Hs Hok. unfold Write, WriteHeader. rewrite fwrite_quiet by done.
  set (f1 := append _ f). assert (Hb : exists f2, WriteBody r f1 = (true, f2) /\ script f2 = []).
  { destruct r as [| |k n v d| | | |]; cbn [WriteBody]; try (by apply fwrites_quiet); [|by eauto..].
    unfold LogSetAttribute_WriteBody.
    simpl in Hok. apply andb_True in Hok as [[Hk Hn]%andb_True Hv].
    rewrite !wordb_no_newline, lineb_no_newline by done. by apply fwrites_quiet. }
  destruct Hb as (f2 & -> & Hs2). unfold WriteTail. rewrite fwrite_quiet by done. eauto.
Qed.

(** The log stream of a commit: all the records, or a proper prefix and a failure. *)
Lemma commit_loop_stuck rs t s f1 :
  why s <> WHY_OK -> (commit_loop m_strictEvaluation rs t s f1).1.2 = s.
Proof.
  revert t f1. induction rs as [|r rs IH]; intros t f1 Hs; simpl; [done|].
  replace (write_with_status r s) with s; [by apply IH|].
  unfold write_with_status, with_status. by destruct (fp s), (why s).
Qed.
Lemma commit_loop_log rs t s f f1 :
  fp s = Some f -> why s = WHY_OK ->
  let s' := (commit_loop m_strictEvaluation rs t s f1).1.2 in
  exists f' p, fp s' = Some f' /\ extends f f' p /\
    (if decide (why s' = WHY_OK) then p = log_text rs else torn p (log_text rs)) /\
    (script f = [] -> Forall record_okb rs -> why s' = WHY_OK /\ script f' = []).
Proof.
  revert t s f f1. induction rs as [|r rs IH]; intros t s f f1 Hf Hw; simpl.
  - exists f, []. rewrite decide_True by done. split_and!; auto using extends_refl.
  - pose proof (Write_spec r f) as Hr. destruct (Write r f) as [ok f2] eqn:Hwr.
    destruct Hr as (p & He & Hok).
    assert (Hws : write_with_status r s = if ok then mkStream (Some f2) WHY_OK (err s) (closed s)
      else mkStream (Some f2) WHY_WRITE (errno f2) (closed s)).
    { unfold write_with_status, with_status. rewrite Hf, Hw, Hwr. by destruct ok. }
    rewrite Hws. destruct ok.
    + destruct (IH (play t r) (mkStream (Some f2) WHY_OK (err s) (closed s)) f2 (write_with_status r f1)
        eq_refl eq_refl) as (f' & p' & Hf' & He' & Hp & Hq).
      exists f', (p ++ p'). split_and!; [done|by eapply extends_trans| |].
      * subst p. change (log_text (r :: rs)) with (record_text r ++ log_text rs).
        case_decide; [by subst|]. by apply torn_app_r.
      * intros Hs [Hr Hrs]%Forall_cons. apply Hq; [|done].
        destruct (Write_quiet r f Hs Hr) as (? & ? & ?). congruence.
    + rewrite commit_loop_stuck by done. exists f2, p. split_and!; [done..| |].
      * rewrite decide_False by done.
        change (log_text (r :: rs)) with (record_text r ++ log_text rs). by apply torn_app_l.
      * intros Hs [Hr Hrs]%Forall_cons. destruct (Write_quiet r f Hs Hr) as (? & ? & ?). congruence.
Qed.

(** fflush and fsync after the loop. *)
Lemma sync_stream s f :
  fp s = Some f ->
  let s' := fsync_with_status (fflush_with_status s) in
  exists f', fp s' = Some f' /\ data f' = data f /\
    (why s' = WHY_OK -> why s = WHY_OK /\ durable f' = length (data f)) /\
    (durable f' = durable f \/ durable f' = length (data f)) /\
    (script f = [] -> why s = WHY_OK -> why s' = WHY_OK /\ script f' = []).
Proof.
  intros Hf. unfold fsync_with_status, fflush_with_status, with_status. rewrite Hf.
  destruct (why s) eqn:Hw; [|rewrite Hf, Hw; simpl; exists f; rewrite ?Hw; split_and!; naive_solver..].
  pose proof (fflush_spec f) as Hfl. destruct (fflush f) as [[|] f2]; simpl.
  - destruct Hfl as (Hd & Hdu & Hfl & Hq). pose proof (fsync_spec f2) as Hsy.
    destruct (fsync f2) as [[|] f3]; simpl; destruct Hsy as (Hd' & Hdu' & Hq'); exists f3.
    + rewrite Hdu', Hfl, Hd', Hd by done. split_and!; auto. intros Hs _.
      destruct (Hq Hs) as [_ Hs2]. by destruct (Hq' Hs2).
    + rewrite Hdu', Hd', Hdu, Hd. split_and!; auto; [done|]. intros Hs _.
      destruct (Hq Hs) as [_ Hs2]. by destruct (Hq' Hs2).
  - destruct Hfl as (Hd & Hdu & _ & Hq). exists f2. rewrite Hdu, Hd. split_and!; auto; [done|].
    intros Hs _. by destruct (Hq Hs).
Qed.

(** ** Sequences of client operations and the store they promise *)

Inductive client_op :=
| CAppend (r : LogRecord)
| CBegin
| CAbort
| CCommit
| CCommitNondurable
| CFlush
| CIncLevel
| CDecLevel (old_level : Z).

Definition exec_op (env : BackupEnv) (l : ClassAdLog) (o : client_op) : run unit :=
  match o with
  | CAppend r => AppendLog m_strictEvaluation l r
  | CBegin => BeginTransaction l
  | CAbort => match AbortTransaction l with
              | Returns _ l' _ => Returns _ l' tt
              | Dies _ l' msg => Dies _ l' msg
              end
  | CCommit => CommitTransaction m_strictEvaluation env l
  | CCommitNondurable => CommitNondurableTransaction m_strictEvaluation env l
  | CFlush => FlushLog l
  | CIncLevel => Returns _ (IncNondurableCommitLevel l).1 tt
  | CDecLevel old_level => DecNondurableCommitLevel l old_level
  end.
Fixpoint exec (env : BackupEnv) (l : ClassAdLog) (os : list client_op) : run unit :=
  match os with
  | [] => Returns _ l tt
  | o :: os' => match exec_op env l o with
                | Returns _ l' _ => exec env l' os'
                | Dies _ l' msg => Dies _ l' msg
                end
  end.

(** What the client was promised: the units committed so far, how many of them are known
    to be on the disk, the records of the open transaction, the nondurable level. *)
Record Store := mkStore {
  committed : list commit_unit;
  synced : nat;
  pending : option (list LogRecord);
  level : Z
}.

Definition commit (sp : Store) (u : commit_unit) (nondurable : bool) : Store :=
  mkStore (committed sp ++ [u])
    (if nondurable then synced sp else S (length (committed sp))) None (level sp).
Definition commit_pending (sp : Store) (nondurable : bool) : Store :=
  match pending sp with
  | None => sp
  | Some [] => mkStore (committed sp) (synced sp) None (level sp)
  | Some rs => commit sp (Txn rs) nondurable
  end.

Definition spec_op (sp : Store) (o : client_op) : Store :=
  match o with
  | CAppend r =>
      match pending sp with
      | None => commit sp (Single r) (negb (level sp =? 0))
      | Some rs => mkStore (committed sp) (synced sp) (Some (rs ++ [r])) (level sp)
      end
  | CBegin => mkStore (committed sp) (synced sp) (Some []) (level sp)
  | CAbort => mkStore (committed sp) (synced sp) None (level sp)
  | CCommit => commit_pending sp (0 <? level sp)
  | CCommitNondurable => commit_pending sp (0 <? level sp + 1)
  | CFlush => sp
  | CIncLevel => mkStore (committed sp) (synced sp) (pending sp) (level sp + 1)
  | CDecLevel _ => mkStore (committed sp) (synced sp) (pending sp) (level sp - 1)
  end.
Definition spec_run (sp : Store) (os : list client_op) : Store := foldl spec_op sp os.

(** The client appends records about ads, in the format, and creates no ad twice. *)
Definition op_legal (sp : Store) (o : client_op) : bool :=
  match o with
  | CAppend r =>
      record_okb r && ad_record r &&
      freshb (foldl store_step (store_of (committed sp)) (default [] (pending sp))) r
  | _ => true
  end.
Fixpoint ops_legal (sp : Store) (os : list client_op) : bool :=
  match os with
  | [] => true
  | o :: os' => op_legal sp o && ops_legal (spec_op sp o) os'
  end.

(** Operations after which a commit is not synced, whose write errors it ignores. *)
Definition raises (o : client_op) : bool :=
  match o with CIncLevel | CCommitNondurable => true | _ => false end.

(** The records by key are those of the ordered list. *)
Definition indexed (t : Transaction) : Prop :=
  forall k, entries_of t k = filter (fun r => default [] (get_key r) = k) (ordered_op_log t).
Lemma append_indexed t r : indexed t -> indexed (append_record t r).
Proof.
  intros Hi k. specialize (Hi k). unfold entries_of in *. simpl.
  rewrite filter_app, filter_cons, filter_nil. rewrite lookup_insert. case_decide as Hk; simpl.
  - subst k. by rewrite Hi.
  - by rewrite Hi, app_nil_r.
Qed.

(** The transaction in memory holds the pending records, after its begin record. *)
Definition holds (t : Transaction) (rs : list LogRecord) : Prop :=
  m_EmptyTransaction t = bool_decide (rs = []) /\
  ordered_op_log t = match rs with [] => [] | _ => LogBeginTransaction :: rs end /\
  indexed t.

(** A log file whose crash images are prefixes of the units, the first [d] included. *)
Record file_of (f : FILE) (us : list commit_unit) (d : nat) : Prop := {
  file_prefix : data f `prefix_of` units_text us;
  file_synced : (d <= length us)%nat;
  file_durable : (length (units_text (take d us)) <= durable f <= length (data f))%nat;
  file_ok : Forall unit_okb us;
  file_legal : legal_units us
}.

Record tracks (l : ClassAdLog) (f : FILE) (sp : Store) : Prop := {
  tr_fp : log_fp l = Some f;
  tr_file : file_of f (committed sp) (synced sp);
  tr_data : data f = units_text (committed sp);
  tr_managed : managed (table l);
  tr_abs : abs (table l) = store_of (committed sp);
  tr_pending : match active_transaction l, pending sp with
               | None, None => True
               | Some t, Some rs => holds t rs /\ unit_okb (Txn rs) /\
                                    legal (store_of (committed sp)) rs
               | _, _ => False
               end;
  tr_level : m_nondurable_level l = level sp
}.

(** A crash image of such a file recovers to a prefix of the units. *)
Lemma file_readout f us d img now :
  file_of f us d -> crash_image f img ->
  exists k rs p s, (d <= k <= length us)%nat /\ readout img now rs p s /\
    managed (r_table s) /\ abs (r_table s) = store_of (take k us) /\
    (r_active s = None -> img = units_text (take k us) ++ p).
Proof.
  intros [Hp Hd Hdu Hok Hl] (n & Hn & ->). apply recover_prefix; try done.
  - etransitivity; [apply prefix_take|done].
  - rewrite length_take. lia.
Qed.
Lemma file_recovers f us d img now :
  file_of f us d -> crash_image f img ->
  exists k s p, (d <= k <= length us)%nat /\ recover img now = Some (Done (s, p, [])) /\
    managed (r_table s) /\ abs (r_table s) = store_of (take k us).
Proof.
  intros Hf Hi. destruct (file_readout f us d img now Hf Hi) as (k & rs & p & s & ? & [] & ? & ? & _).
  eauto 8.
Qed.

(** Whatever a crash leaves of the file, the constructor reads it without an EXCEPT, as the store
    after a prefix of [us] that includes the first [d] units. *)
Definition recovers (f : FILE) (us : list commit_unit) (d : nat) : Prop :=
  forall img now, crash_image f img ->
  exists k s p, (d <= k <= length us)%nat /\ recover img now = Some (Done (s, p, [])) /\
    abs (r_table s) = store_of (take k us).

Lemma file_of_recovers f us d : file_of f us d -> recovers f us d.
Proof.
  intros Hf img now Hi. destruct (file_recovers f us d img now Hf Hi) as (k & s & p & ? & ? & _ & ?).
  eauto 8.
Qed.

Lemma store_of_snoc us u : store_of (us ++ [u]) = foldl store_step (store_of us) (unit_ops u).
Proof. unfold store_of. rewrite fmap_app, concat_app, foldl_app. simpl. by rewrite app_nil_r. Qed.
Lemma units_text_snoc us u : units_text (us ++ [u]) = units_text us ++ unit_text u.
Proof. unfold units_text. rewrite fmap_app, concat_app. simpl. by rewrite app_nil_r. Qed.
Lemma legal_snoc us u :
  legal_units us -> legal (store_of us) (unit_ops u) -> legal_units (us ++ [u]).
Proof.
  intros H1 H2. unfold legal_units. rewrite fmap_app, concat_app, legal_app. simpl.
  rewrite app_nil_r. apply andb_True. done.
Qed.

(** The file after part of one more unit has been written. *)
Lemma file_of_grow f f' us d u p :
  file_of f us d -> data f = units_text us -> unit_okb u -> legal (store_of us) (unit_ops u) ->
  data f' = data f ++ p -> p `prefix_of` unit_text u ->
  durable f' = durable f \/ durable f' = length (data f') ->
  file_of f' (us ++ [u]) d.
Proof.
  intros [Hp Hd Hdu Hok Hl] Hda Hu Hlu Hda' [q Hq] Hdu'. split.
  - rewrite units_text_snoc, Hda', Hda, Hq. exists q. by rewrite app_assoc.
  - rewrite length_app. lia.
  - rewrite take_app_le by done. rewrite Hda' in *. rewrite !length_app in *. lia.
  - apply Forall_app. by repeat constructor.
  - by apply legal_snoc.
Qed.
(** All units are on the disk. *)
Lemma file_of_synced f us d :
  file_of f us d -> data f = units_text us -> durable f = length (data f) ->
  file_of f us (length us).
Proof.
  intros [Hp Hd Hdu Hok Hl] Hda Hdf. split; try done. rewrite take_ge by done. rewrite Hdf, Hda. lia.
Qed.
Lemma file_of_same f f' us d :
  file_of f us d -> data f' = data f -> durable f' = durable f -> file_of f' us d.
Proof. intros [Hp Hd Hdu Hok Hl] H1 H2. split; try done; by rewrite ?H1, ?H2. Qed.

(** ** Every operation keeps the promise *)

Lemma tracks_commit l l' f f' sp u nd :
  tracks l f sp -> unit_okb u -> legal (store_of (committed sp)) (unit_ops u) ->
  data f' = data f ++ unit_text u ->
  (durable f' = durable f /\ nd = true) \/ durable f' = length (data f') ->
  log_fp l' = Some f' -> active_transaction l' = None -> m_nondurable_level l' = level sp ->
  managed (table l') -> abs (table l') = foldl store_step (store_of (committed sp)) (unit_ops u) ->
  tracks l' f' (commit sp u nd).
Proof.
  intros Ht Hu Hl Hd Hdu Hfp Hac Hlv Hm Ha.
  assert (Hfile : file_of f' (committed sp ++ [u]) (synced sp)).
  { eapply file_of_grow; [apply Ht|apply Ht|done..|reflexivity|naive_solver]. }
  assert (Hdat : data f' = units_text (committed sp ++ [u])).
  { rewrite units_text_snoc, Hd. f_equal. apply Ht. }
  split; simpl; try done.
  - destruct Hdu as [[_ ->]|Hdu]; [done|]. destruct nd; [done|].
    replace (S (length (committed sp))) with (length (committed sp ++ [u])) by (rewrite length_app; simpl; lia).
    by eapply file_of_synced.
  - by rewrite store_of_snoc.
  - by rewrite Hac.
Qed.

Lemma tracks_table l f sp :
  tracks l f sp -> managed (table l) /\ abs (table l) = store_of (committed sp).
Proof. intros Ht. split; apply Ht. Qed.

Lemma append_single l f sp r :
  tracks l f sp -> pending sp = None -> op_legal sp (CAppend r) ->
  match AppendLog m_strictEvaluation l r with
  | Returns _ l' _ => exists f', tracks l' f' (commit sp (Single r) (negb (level sp =? 0))) /\
                                 (script f = [] -> script f' = [])
  | Dies _ l' _ => exists f', log_fp l' = Some f' /\
                              file_of f' (committed sp ++ [Single r]) (synced sp)
  end.
Proof.
  intros Ht Hpend Hop. simpl in Hop. rewrite Hpend in Hop. apply andb_True in Hop as [[Hok Had]%andb_True Hfr].
  assert (Hu : unit_okb (Single r)) by by destruct r.
  assert (Hlg : legal (store_of (committed sp)) (unit_ops (Single r))) by (simpl; by rewrite andb_true_r).
  pose proof (tr_pending _ _ _ Ht) as Hac. rewrite Hpend in Hac.
  unfold AppendLog. destruct (active_transaction l) as [t|] eqn:Hal; [done|]. rewrite (tr_fp _ _ _ Ht).
  pose proof (Write_spec r f) as Hw. destruct (Write r f) as [ok f1] eqn:Hwr.
  destruct Hw as (p & (Hd1 & _ & Hdu1) & Hp).
  assert (Htext : unit_text (Single r) = record_text r) by (unfold unit_text, log_text; simpl; by rewrite app_nil_r).
  assert (Hplay : managed (play (table l) r) /\
    abs (play (table l) r) = foldl store_step (store_of (committed sp)) (unit_ops (Single r))).
  { destruct (tracks_table _ _ _ Ht) as [Hm <-]. apply play_abs; [done|]. by rewrite (tr_abs _ _ _ Ht). }
  assert (Hgrow : forall f', data f' = data f1 -> ok = true ->
    durable f' = durable f \/ durable f' = length (data f') ->
    file_of f' (committed sp ++ [Single r]) (synced sp)).
  { intros f' Hd' -> Hdu'. eapply file_of_grow; [apply Ht|apply Ht|done..|rewrite Hd'; exact Hd1| |done].
    rewrite Htext, Hp. done. }
  assert (Hquiet : script f = [] -> script f1 = []).
  { intros Hs. destruct (Write_quiet r f Hs Hok) as (? & ? & ?). congruence. }
  destruct ok; simpl.
  2: { exists f1. split; [done|]. eapply file_of_grow; [apply Ht|apply Ht|done|done|exact Hd1| |by left].
       rewrite Htext. destruct Hp as (q & -> & _). by exists q. }
  assert (Hd1' : data f1 = data f ++ unit_text (Single r)) by (rewrite Htext, Hd1, Hp; done).
  rewrite (tr_level _ _ _ Ht). destruct (Z.eqb_spec (level sp) 0) as [Hlv|Hlv]; simpl.
  - pose proof (fflush_spec f1) as Hfl. destruct (fflush f1) as [[|] f2]; simpl.
    2: { exists f2. split; [done|]. apply Hgrow; [apply Hfl|done|left; destruct Hfl as (_ & -> & _); done]. }
    destruct Hfl as (Hd2 & Hdu2 & Hf2 & Hq2). pose proof (fsync_spec f2) as Hsy.
    destruct (fsync f2) as [[|] f3]; simpl; destruct Hsy as (Hd3 & Hdu3 & Hq3); exists f3.
    + split; [|intros Hs; apply Hq3, Hq2, Hquiet, Hs].
      apply (tracks_commit l _ f); try done; simpl; try by apply Hplay.
      * by rewrite Hd3, Hd2.
      * right. rewrite Hdu3, Hf2, Hd3, Hd2; done.
      * by apply (tr_level _ _ _ Ht).
    + split; [done|]. apply Hgrow; [by rewrite Hd3|done|left; by rewrite Hdu3, Hdu2].
  - exists f1. split; [|done].
    apply (tracks_commit l _ f); try done; simpl; try (by apply Hplay); [by left|by apply (tr_level _ _ _ Ht)].
Qed.

Lemma append_pending l f sp r rs :
  tracks l f sp -> pending sp = Some rs -> op_legal sp (CAppend r) ->
  exists l', AppendLog m_strictEvaluation l r = Returns _ l' tt /\
    tracks l' f (mkStore (committed sp) (synced sp) (Some (rs ++ [r])) (level sp)).
Proof.
  intros Ht Hpend Hop. simpl in Hop. rewrite Hpend in Hop. apply andb_True in Hop as [[Hok Had]%andb_True Hfr].
  pose proof Ht as [Hfp Hfile Hdata Hm Ha Hac Hlv]. rewrite Hpend in Hac.
  unfold AppendLog. destruct (active_transaction l) as [t|] eqn:Hal; [|done].
  eexists. split; [done|]. destruct Hac as ((He & Ho & Hi) & Hu & Hlg). split; try done. cbn [active_transaction pending set_active].
  split; [|split].
  - split; [by destruct rs|]. rewrite He. destruct rs as [|r0 rs]; simpl; rewrite Ho;
      eauto using append_indexed.
  - simpl in *. rewrite !forallb_app. simpl. apply andb_True in Hu as [H1 H2].
    rewrite !andb_true_r. repeat (apply andb_True; split); done.
  - rewrite legal_app. simpl in *. rewrite andb_true_r. by apply andb_True.
Qed.

(** CommitTransaction() of a transaction that holds records. *)
Lemma commit_txn env l f sp rs :
  tracks l f sp -> pending sp = Some rs -> rs <> [] ->
  script f = [] \/ level sp <= 0 ->
  match CommitTransaction m_strictEvaluation env l with
  | Returns _ l' _ => exists f', tracks l' f' (commit sp (Txn rs) (0 <? level sp)) /\
                                 (script f = [] -> script f' = [])
  | Dies _ l' _ => exists f', log_fp l' = Some f' /\
                              file_of f' (committed sp ++ [Txn rs]) (synced sp)
  end.
Proof.
  intros Ht Hpend Hne Hsafe. pose proof Ht as [Hfp Hfile Hdata Hm Ha Hac Hlv]. rewrite Hpend in Hac.
  unfold CommitTransaction. destruct (active_transaction l) as [t|] eqn:Hal; [|done].
  destruct Hac as ((He & Ho & _) & Hu & Hlg). rewrite He, bool_decide_false, Hlv, Hfp by done.
  set (t' := append_record t LogEndTransaction).
  assert (Ho' : ordered_op_log t' = unit_records (Txn rs)).
  { simpl. rewrite Ho. by destruct rs. }
  assert (Hplay : managed (foldl play (table l) (unit_records (Txn rs))) /\
    abs (foldl play (table l) (unit_records (Txn rs))) =
    foldl store_step (store_of (committed sp)) (unit_ops (Txn rs))).
  { simpl. rewrite foldl_app. simpl. rewrite <- Ha. apply plays_abs; [done|]. by rewrite Ha. }
  unfold Commit. rewrite Ho'. set (bi := init_backup_info _ _).
  pose proof (commit_loop_log (unit_records (Txn rs)) (table l) (init_stream_with_status (Some f)) f
    (init_stream_with_status (bfp bi)) eq_refl eq_refl) as Hloop.
  destruct (commit_loop_table (unit_records (Txn rs)) (table l) (init_stream_with_status (Some f))
    (init_stream_with_status (bfp bi))) as (s0 & s1 & Hcl).
  rewrite Hcl in Hloop |- *. simpl in Hloop. destruct Hloop as (f' & p & Hf' & (Hd' & _ & Hdu') & Hp & Hq).
  assert (Hpre : p `prefix_of` unit_text (Txn rs)).
  { case_decide; [by subst|]. destruct Hp as (q & Heq & _). by exists q. }
  destruct (Z.ltb_spec 0 (level sp)) as [Hpos|Hpos]; simpl.
  - exists f'. destruct Hsafe as [Hs|]; [|lia].
    destruct (Hq Hs (unit_records_ok _ Hu)) as [Hok Hs']. rewrite decide_True in Hp by done.
    split; [|done]. apply (tracks_commit l _ f); try done; simpl; try by apply Hplay.
    + by rewrite Hd', Hp.
    + by left.
  - destruct (sync_stream s0 f' Hf') as (f2 & Hf2 & Hd2 & Hok2 & Hdu2 & Hq2).
    set (s2 := fsync_with_status (fflush_with_status s0)) in *.
    destruct (decide (why s2 = WHY_OK)) as [Hw|Hw].
    + destruct (Hok2 Hw) as [Hw0 Hdu]. rewrite decide_True in Hp by done.
      rewrite (bool_decide_true (why s2 = WHY_OK)) by done. simpl.
      exists f2. split; [|intros Hs; apply Hq2; [by apply Hq, (unit_records_ok (Txn rs))|done]].
      apply (tracks_commit l _ f); try done; simpl; try by apply Hplay.
      * by rewrite Hd2, Hd', Hp.
      * right. by rewrite Hdu, Hd2.
    + rewrite (bool_decide_false (why s2 = WHY_OK)) by done. simpl. exists f2. split; [done|].
      eapply file_of_grow; [exact Hfile|done..|rewrite Hd2; exact Hd'|exact Hpre|].
      rewrite Hd2. destruct Hdu2 as [->| ->]; auto.
Qed.

(** I/O faults are allowed as long as no commit runs in the nondurable mode. *)
Definition tolerable (f : FILE) (sp : Store) (os : list client_op) : Prop :=
  script f = [] \/ (level sp <= 0 /\ forallb (fun o => negb (raises o)) os).

(** The result of an operation: the promise is kept, or the process died with a log file that
    still holds every synced unit. *)
Definition kept (f : FILE) (sp sp' : Store) (r : run unit) : Prop :=
  match r with
  | Returns _ l' _ => exists f', tracks l' f' sp' /\ (script f = [] -> script f' = [])
  | Dies _ l' _ => exists f', log_fp l' = Some f' /\ file_of f' (committed sp') (synced sp)
  end.

Lemma commit_pending_spec env l f sp :
  tracks l f sp -> script f = [] \/ level sp <= 0 ->
  kept f sp (commit_pending sp (0 <? level sp)) (CommitTransaction m_strictEvaluation env l).
Proof.
  intros Ht Hs. unfold commit_pending. destruct (pending sp) as [[|r rs]|] eqn:Hp.
  - pose proof (tr_pending _ _ _ Ht) as Hac. rewrite Hp in Hac. unfold CommitTransaction.
    destruct (active_transaction l) as [t|]; [|done]. destruct Hac as ((-> & _) & _). simpl.
    exists f. split; [|done]. destruct Ht. by split.
  - pose proof (commit_txn env l f sp (r :: rs) Ht Hp ltac:(done) Hs) as Hc.
    unfold kept. by destruct (CommitTransaction _ _ _).
  - pose proof (tr_pending _ _ _ Ht) as Hac. rewrite Hp in Hac. unfold CommitTransaction.
    destruct (active_transaction l) as [t|]; [done|]. by exists f.
Qed.

Lemma commit_pending_level sp nd n :
  commit_pending (mkStore (committed sp) (synced sp) (pending sp) n) nd =
  mkStore (committed (commit_pending sp nd)) (synced (commit_pending sp nd))
    (pending (commit_pending sp nd)) n /\ level (commit_pending sp nd) = level sp.
Proof. unfold commit_pending. destruct sp as [us d p v]; simpl. by destruct p as [[|]|]. Qed.

Lemma tracks_level l f sp n :
  tracks l f sp ->
  tracks (set_level l n) f (mkStore (committed sp) (synced sp) (pending sp) n).
Proof. intros []. by split. Qed.

Lemma exec_op_spec env l f sp o :
  tracks l f sp -> op_legal sp o -> tolerable f sp [o] ->
  kept f sp (spec_op sp o) (exec_op env l o).
Proof.
  intros Ht Hop Htol.
  assert (Hsafe : script f = [] \/ level sp <= 0) by (destruct Htol as [?|[? _]]; auto).
  destruct o as [r| | | | | | |old]; cbn [exec_op spec_op].
  - destruct (pending sp) as [rs|] eqn:Hp.
    + destruct (append_pending l f sp r rs Ht Hp Hop) as (l' & -> & ?). by exists f.
    + pose proof (append_single l f sp r Ht Hp Hop) as Ha. unfold kept.
      by destruct (AppendLog _ _ _).
  - unfold BeginTransaction. pose proof Ht as [Hfp Hfile Hdata Hm Ha Hac Hlv].
    destruct (active_transaction l); [by exists f|]. exists f. split; [|done]. by split.
  - unfold AbortTransaction. pose proof Ht as [Hfp Hfile Hdata Hm Ha Hac Hlv].
    destruct (active_transaction l) eqn:Hal; exists f; (split; [|done]); split; try done.
    simpl. by rewrite Hal.
  - by apply commit_pending_spec.
  - destruct Htol as [Hs|[_ [[] _]%andb_True]]. unfold CommitNondurableTransaction, IncNondurableCommitLevel.
    rewrite (tr_level _ _ _ Ht).
    pose proof (commit_pending_spec env _ f _ (tracks_level l f sp (level sp + 1) Ht) (or_introl Hs)) as Hc.
    cbn [level] in Hc. destruct (commit_pending_level sp (0 <? level sp + 1) (level sp + 1)) as [Hcp Hlv].
    rewrite Hcp in Hc. unfold kept in Hc. destruct (CommitTransaction _ _ _) as [l' ?|l' msg]; [|done].
    destruct Hc as (f' & Ht' & Hs'). unfold DecNondurableCommitLevel.
    rewrite (tr_level _ _ _ Ht'). simpl. rewrite (proj2 (Z.eqb_eq _ _)) by lia.
    exists f'. split; [|done]. pose proof (tracks_level _ _ _ (level sp) Ht') as Ht2. simpl in Ht2.
    replace (level sp + 1 - 1) with (level sp) by lia.
    destruct (commit_pending sp (0 <? level sp + 1)); simpl in *. by rewrite Hlv.
  - unfold FlushLog. rewrite (tr_fp _ _ _ Ht). pose proof (fflush_spec f) as Hfl.
    destruct (fflush f) as [[|] f2]; destruct Hfl as (Hd & Hdu & _ & Hq).
    + exists f2. split; [|by intros; apply Hq]. destruct Ht. split; try done.
      * by eapply file_of_same.
      * by rewrite Hd.
    + exists f2. split; [done|]. eapply file_of_same; [apply Ht|done..].
  - exists f. split; [|done]. simpl. rewrite (tr_level _ _ _ Ht). by apply tracks_level.
  - unfold DecNondurableCommitLevel. simpl. rewrite (tr_level _ _ _ Ht).
    destruct (_ =? _); simpl; exists f; [|split; apply Ht]. split; [|done]. by apply tracks_level.
Qed.

Lemma spec_op_level sp o : raises o = false -> level sp <= 0 -> level (spec_op sp o) <= 0.
Proof.
  intros Hr Hl. destruct o; simpl in *; try done; try lia.
  - by destruct (pending sp).
  - by rewrite (proj2 (commit_pending_level _ _ 0)).
Qed.

(** Any sequence of operations: the promise of the whole sequence, or death in the [i]-th. *)
Lemma exec_spec env os l f sp :
  tracks l f sp -> ops_legal sp os -> tolerable f sp os ->
  match exec env l os with
  | Returns _ l' _ => exists f', tracks l' f' (spec_run sp os) /\ (script f = [] -> script f' = [])
  | Dies _ l' _ => exists i f', (i < length os)%nat /\ log_fp l' = Some f' /\
      file_of f' (committed (spec_run sp (take (S i) os))) (synced (spec_run sp (take i os)))
  end.
Proof.
  revert l f sp. induction os as [|o os IH]; intros l f sp Ht Hl Htol; simpl; [eauto|].
  simpl in Hl. apply andb_True in Hl as [Ho Hl].
  assert (Hto : tolerable f sp [o]).
  { destruct Htol as [?|[? Hr]]; [by left|right]. simpl in *. split; [done|].
    apply andb_True in Hr as [? _]. by rewrite andb_true_r. }
  pose proof (exec_op_spec env l f sp o Ht Ho Hto) as Hk. unfold kept in Hk.
  destruct (exec_op env l o) as [l1 ?|l1 msg].
  - destruct Hk as (f1 & Ht1 & Hs1).
    assert (Hto1 : tolerable f1 (spec_op sp o) os).
    { destruct Htol as [?|[? Hr]]; [left; auto|right]. simpl in Hr. apply andb_True in Hr as [Hr ?].
      split; [|done]. apply spec_op_level; [by destruct (raises o)|done]. }
    specialize (IH l1 f1 _ Ht1 Hl Hto1). destruct (exec env l1 os) as [l2 ?|l2 msg].
    { destruct IH as (f' & ? & ?). exists f'. split; [done|]. by auto. }
    destruct IH as (i & f' & Hi & Hf' & Hfile). exists (S i), f'. split_and!; [lia|done|done].
  - destruct Hk as (f' & Hf' & Hfile). exists O, f'. split_and!; [lia|done|done].
Qed.

(** C8 (refinement): under the same conditions as for crash recovery (records of the format about ads,
    no ad created twice, and either no I/O fault or only durable commits), a sequence of AppendLog(),
    BeginTransaction(), AbortTransaction(), CommitTransaction(), CommitNondurableTransaction(),
    FlushLog() and nondurable-level calls that returns, so that no I/O error has ended the process,
    leaves the table in memory equal to the store of the units committed so far, and the log file equal
    to their text. *)
Theorem log_refines_store env os l f sp l' :
  tracks l f sp -> ops_legal sp os -> tolerable f sp os ->
  exec env l os = Returns _ l' tt ->
  abs (table l') = store_of (committed (spec_run sp os)) /\
  exists f', log_fp l' = Some f' /\ data f' = units_text (committed (spec_run sp os)).
Proof.
  intros Ht Hl Htol He. pose proof (exec_spec env os l f sp Ht Hl Htol) as Hx. rewrite He in Hx.
  destruct Hx as (f' & Ht' & _). split; [apply Ht'|]. exists f'. split; apply Ht'.
Qed.

(** C1 (safety): crash atomicity and durability of the job queue log. The client appends records of the
    format about ads, creating no ad that exists (ops_legal); and either no I/O call fails, or write,
    flush and sync calls fail by any script while every commit is durable: the nondurable level is not
    positive and neither IncNondurableCommitLevel() nor CommitNondurableTransaction() is called
    (tolerable), because the errors of a nondurable commit go unnoticed. Then, after any sequence of
    operations that returns or is ended by an EXCEPT, any crash image of the log file (a prefix that
    contains what was synced) is read by the constructor without an EXCEPT and gives the store after a
    prefix of the committed units; that prefix contains every unit synced by an operation that returned,
    and a transaction is in it as a whole or not at all. *)
Theorem crash_recovery env os l f sp :
  tracks l f sp -> ops_legal sp os -> tolerable f sp os ->
  match exec env l os with
  | Returns _ l' _ => exists f', log_fp l' = Some f' /\
      recovers f' (committed (spec_run sp os)) (synced (spec_run sp os))
  | Dies _ l' _ => exists i f', (i < length os)%nat /\ log_fp l' = Some f' /\
      recovers f' (committed (spec_run sp (take (S i) os))) (synced (spec_run sp (take i os)))
  end.
Proof.
  intros Ht Hl Htol. pose proof (exec_spec env os l f sp Ht Hl Htol) as Hx.
  destruct (exec env l os) as [l' ?|l' msg].
  - destruct Hx as (f' & Ht' & _). exists f'. split; [apply Ht'|]. apply file_of_recovers, Ht'.
  - destruct Hx as (i & f' & Hi & Hf' & Hfile). exists i, f'. split_and!; [done..|].
    by apply file_of_recovers.
Qed.

End Recovery.
