(* ===== verification/Compaction.v ===== *)
(** Compaction of the ClassAd log and reopening after a crash: LogState(), TruncLog() and the
    constructor of condor_utils/classad_log.cpp against the store of Recovery.v.

    LogState() writes a table as records; replaying them gives the table back, provided the
    ads are [storable]: the text format can carry their names, types and values ([faithful]), and
    they still have the attributes a new ad is born with. *)

From S2P Require Import Prelude HashTable LogRecord ClassAd Transaction ClassAdLog Recovery.

Open Scope Z_scope.

Section Compaction.
Context `{L : ExprLang}.
Variable m_strictEvaluation : bool.

Abbreviation attrs := (gmap bytes (bytes * expr)).
Abbreviation store_step := (store_step m_strictEvaluation).
Abbreviation legal := (legal m_strictEvaluation).
Abbreviation store_of := (store_of m_strictEvaluation).
Abbreviation tracks := (tracks m_strictEvaluation).
Abbreviation recover := (recover m_strictEvaluation).

Record storable (a : ClassAd) : Prop := {
  st_names : map_Forall (fun k ne => k = lower ne.1 /\ wordb ne.1 /\ faithful ne.2) (attrList a);
  st_born : forall k ne,
    attrList (fresh_ad m_strictEvaluation (GetMyTypeName a) (GetTargetTypeName a)) !! k = Some ne ->
    exists e, attrList a !! k = Some (ne.1, e);
  st_types : type_okb (GetMyTypeName a) && type_okb (GetTargetTypeName a)
}.

(** ** One ad *)

Lemma put_attrs (l : list (bytes * (bytes * expr))) (acc : attrs) :
  NoDup l.*1 -> Forall (fun ke => ke.1 = lower ke.2.1 /\ wordb ke.2.1) l ->
  (forall k ne x, (k, ne) ∈ l -> acc !! k = Some x -> x.1 = ne.1) ->
  foldl (fun m ne => put_attr m ne.1 ne.2) acc l.*2 = list_to_map l ∪ acc.
Proof.
  revert acc. induction l as [|[k [n e]] l IH]; intros acc Hnd Hok Hag.
  { simpl. by rewrite (left_id_L ∅ (∪)). }
  rewrite !fmap_cons in *. cbn [fst snd foldl] in *.
  apply NoDup_cons in Hnd as [Hni Hnd]. apply Forall_cons in Hok as [[Hk Hw] Hok]; cbn [fst snd] in *.
  assert (Hput : put_attr acc n e = <[k:=(n, e)]> acc).
  { unfold put_attr. destruct n as [|c n]; [done|]. rewrite <- Hk. f_equal. f_equal.
    destruct (acc !! k) as [[old e0]|] eqn:Ha; [|done]. by apply (Hag k (c :: n, e) (old, e0)); [left|]. }
  rewrite Hput, IH; [|done..|].
  - rewrite list_to_map_cons, <- insert_union_l, insert_union_r; [done|]. by apply not_elem_of_list_to_map.
  - intros j ne x Hj Hx. destruct (decide (j = k)) as [->|Hjk].
    + destruct Hni. apply list_elem_of_fmap. by exists (k, ne).
    + rewrite lookup_insert_ne in Hx by done. eapply Hag; [by right|done].
Qed.

Lemma new_LogSetAttribute_line k n v d :
  lineb v -> new_LogSetAttribute k n (Some v) d = LogSetAttribute k n v d.
Proof. by destruct v. Qed.

Lemma faithful_parse e : faithful e -> ParseExpression (ExprTreeToString e) = Some e.
Proof. intros [H _]%andb_True. by apply bool_decide_unpack in H. Qed.
Lemma faithful_line e : faithful e -> lineb (ExprTreeToString e).
Proof. by intros [_ H]%andb_True. Qed.
Lemma set_records k m0 F (nes : list (bytes * expr)) :
  Forall (fun ne => Is_true (faithful ne.2)) nes ->
  foldl store_step (<[k:=F]> m0)
    ((fun ne => new_LogSetAttribute k ne.1 (Some (ExprTreeToString ne.2)) false) <$> nes) =
  <[k := foldl (fun m ne => put_attr m ne.1 ne.2) F nes]> m0.
Proof.
  intros Hf. revert F. induction Hf as [|[n e] nes He _ IH]; intros F; [done|]. simpl in He.
  rewrite fmap_cons. cbn [foldl fst snd]. rewrite new_LogSetAttribute_line by by apply faithful_line.
  cbn [Recovery.store_step]. rewrite (faithful_parse e He), alter_insert_eq. apply IH.
Qed.

Lemma own_faithful a : storable a -> Forall (fun ne => Is_true (faithful ne.2)) (own_attrs (Unchain a)).
Proof.
  intros [Hn _ _]. apply Forall_forall. intros ne Hne. unfold own_attrs in Hne. simpl in Hne.
  apply list_elem_of_fmap in Hne as ([j x] & -> & Hj%elem_of_map_to_list). by apply (Hn j x).
Qed.

(** The records of an ad rebuild its attributes. *)
Lemma ad_records_store k a m0 :
  storable a -> foldl store_step m0 (ad_records k a) = <[k := attrList a]> m0.
Proof.
  intros Ha. pose proof Ha as [Hn Hb _]. unfold ad_records. cbn [foldl]. cbn [Recovery.store_step].
  set (F := attrList (fresh_ad _ _ _)). rewrite set_records by by apply own_faithful. f_equal.
  unfold own_attrs. cbn [attrList Unchain]. rewrite put_attrs.
  - rewrite list_to_map_to_list. apply map_eq. intros j. rewrite lookup_union.
    destruct (attrList a !! j) as [x|] eqn:Hj; [by destruct (F !! j)|].
    destruct (F !! j) as [ne|] eqn:HF; [|done]. destruct (Hb j ne HF) as [e He]. congruence.
  - apply NoDup_fst_map_to_list.
  - apply Forall_forall. intros [j ne] Hj%elem_of_map_to_list. by destruct (Hn j ne Hj) as (? & ? & _).
  - intros j ne x Hj%elem_of_map_to_list Hx. destruct (Hb j x Hx) as [e He].
    rewrite Hj in He. by injection He as ->.
Qed.
Lemma ad_records_ok k a :
  wordb k -> storable a -> Forall record_okb (ad_records k a).
Proof.
  intros Hk Ha. pose proof Ha as [Hn _ Ht]. apply andb_True in Ht as [Hm Ht]. constructor.
  - simpl. apply andb_True; split; [apply andb_True; split|]; done.
  - apply Forall_fmap, Forall_forall. intros [n e] Hne. unfold compose. cbn [fst snd].
    assert (Hl : lineb (ExprTreeToString e)).
    { apply faithful_line. pose proof (own_faithful a Ha) as Hf. rewrite Forall_forall in Hf. exact (Hf _ Hne). }
    rewrite new_LogSetAttribute_line by done. simpl. unfold own_attrs in Hne. simpl in Hne. apply list_elem_of_fmap in Hne as ([j x] & Hx & Hj).
    apply elem_of_map_to_list in Hj. simpl in Hx. subst x. destruct (Hn j _ Hj) as (_ & Hw & _).
    apply andb_True; split; [apply andb_True; split|]; done.
Qed.
Lemma ad_records_legal k a m0 :
  m0 !! k = None -> legal m0 (ad_records k a).
Proof.
  intros Hk. unfold ad_records. cbn [Recovery.legal freshb]. rewrite bool_decide_true by done.
  cbn [andb]. generalize (store_step m0 (LogNewClassAd k (GetMyTypeName a) (GetTargetTypeName a))).
  induction (own_attrs (Unchain a)) as [|[n e] nes IH]; intros m; [done|]. simpl.
  apply andb_True. split; [by destruct (ExprTreeToString e)|]. apply IH.
Qed.

(** ** The whole table *)

Lemma table_records (es : list (bytes * ClassAd)) m0 :
  NoDup es.*1 -> Forall (fun ka => wordb ka.1 /\ storable ka.2) es ->
  (forall k, k ∈ es.*1 -> m0 !! k = None) ->
  let rs := concat ((fun ka => ad_records ka.1 ka.2) <$> es) in
  Forall record_okb rs /\ legal m0 rs /\
  foldl store_step m0 rs = (attrList <$> list_to_map es) ∪ m0.
Proof.
  revert m0. induction es as [|[k a] es IH]; intros m0 Hnd Hok Hfr.
  { simpl. split_and!; [constructor|done|]. by rewrite fmap_empty, (left_id_L ∅ (∪)). }
  rewrite !fmap_cons in *. cbn [fst snd concat] in *.
  apply NoDup_cons in Hnd as [Hni Hnd]. apply Forall_cons in Hok as [[Hk Ha] Hok]; cbn [fst snd] in *.
  assert (Hs := ad_records_store k a m0 Ha).
  destruct (IH (<[k:=attrList a]> m0)) as (H1 & H2 & H3); [done..| |].
  { intros j Hj. rewrite lookup_insert_ne; [apply Hfr; by right|]. by intros ->. }
  split_and!.
  - apply Forall_app. split; [by apply ad_records_ok|done].
  - rewrite legal_app, Hs. apply andb_True. split; [|done]. apply ad_records_legal, Hfr. by left.
  - rewrite foldl_app, Hs, H3, list_to_map_cons, fmap_insert. rewrite <- insert_union_l, insert_union_r; [done|].
    rewrite lookup_fmap. by rewrite not_elem_of_list_to_map_1.
Qed.

(** The ads of a table, by what LogState() needs of them. *)
Definition table_storable (t : HT.HashTable bytes ClassAd) : Prop :=
  map_Forall (fun k a => wordb k /\ storable a) (HT.to_map t).

Lemma state_records_spec l :
  managed (table l) -> table_storable (table l) ->
  ulongb (historical_sequence_number l) -> ulongb (m_original_log_birthdate l) ->
  Forall record_okb (state_records l) /\ legal ∅ (state_records l) /\
  foldl store_step ∅ (state_records l) = abs (table l).
Proof.
  intros [Hwf Hu _] Hst Hseq Hbd. unfold state_records, table_ads. rewrite (HT.drain_all hashFunction) by apply Hwf.
  destruct (table_records (HT.entries (table l)) ∅) as (H1 & H2 & H3).
  - rewrite HT.fst_entries. apply Hu.
  - apply Forall_forall. intros [k a] Hin. apply (Hst k a). unfold HT.to_map.
    apply elem_of_list_to_map; [|done]. rewrite HT.fst_entries. apply Hu.
  - done.
  - split_and!; [constructor; [by apply andb_True|done]|done|].
    cbn [foldl]. cbn [Recovery.store_step]. rewrite H3, (right_id_L ∅ (∪)). done.
Qed.

Lemma write_records_spec rs f :
  let '(ok, f') := write_records rs f in
  ok = true -> extends f f' (log_text rs).
Proof.
  revert f. induction rs as [|r rs IH]; intros f; simpl; [intros _; apply extends_refl|].
  pose proof (Write_spec r f) as Hw. destruct (Write r f) as [[|] f1]; [|done].
  destruct Hw as (p & He & ->). specialize (IH f1). destruct (write_records rs f1) as [ok f2].
  intros Hok. change (log_text (r :: rs)) with (record_text r ++ log_text rs).
  eapply extends_trans; eauto.
Qed.
Lemma LogState_spec l sc :
  let '(ok, f) := LogState l (new_FILE sc) in
  ok = true -> data f = log_text (state_records l) /\ durable f = length (data f).
Proof.
  unfold LogState. pose proof (write_records_spec (state_records l) (new_FILE sc)) as Hw.
  destruct (write_records _ _) as [[|] f1]; [|done]. destruct (Hw eq_refl) as (Hd & _). simpl in Hd.
  pose proof (fflush_spec f1) as Hf. destruct (fflush f1) as [[|] f2]; [|done].
  destruct Hf as (Hd2 & _ & Hfl & _). pose proof (fsync_spec f2) as Hs.
  destruct (fsync f2) as [ok f3]. intros ->. destruct Hs as (Hd3 & Hdu & _).
  rewrite Hdu, Hfl, Hd3, Hd2 by done. done.
Qed.

(** The state as commit units. *)
Definition state_units (l : ClassAdLog) : list commit_unit := Single <$> state_records l.

Lemma singles_text rs : units_text (Single <$> rs) = log_text rs.
Proof.
  induction rs as [|r rs IH]; [done|].
  change (unit_text (Single r) ++ units_text (Single <$> rs) = record_text r ++ log_text rs).
  rewrite IH. unfold unit_text, log_text. simpl. by rewrite app_nil_r.
Qed.
Lemma singles_ops rs : concat (unit_ops <$> (Single <$> rs)) = rs.
Proof. induction rs as [|r rs IH]; [done|]. rewrite !fmap_cons. simpl. by f_equal. Qed.
Lemma state_records_plain l r :
  r ∈ state_records l -> r <> LogBeginTransaction /\ r <> LogEndTransaction.
Proof.
  unfold state_records. intros [->|Hr]%elem_of_cons; [done|].
  apply elem_of_concat in Hr as (i & c & Hi & Hr). apply list_lookup_fmap_Some in Hi as ([k a] & -> & _).
  unfold ad_records in Hr. apply elem_of_cons in Hr as [->|Hr]; [done|].
  apply list_elem_of_fmap in Hr as ([n e] & -> & _). simpl. by destruct (ExprTreeToString e).
Qed.

(** A synced file with the state of the table. *)
Lemma state_file l f :
  managed (table l) -> table_storable (table l) ->
  ulongb (historical_sequence_number l) -> ulongb (m_original_log_birthdate l) ->
  data f = log_text (state_records l) -> durable f = length (data f) ->
  file_of m_strictEvaluation f (state_units l) (length (state_units l)) /\
  data f = units_text (state_units l) /\ store_of (state_units l) = abs (table l).
Proof.
  intros Hm Hst Hseq Hbd Hd Hdu. destruct (state_records_spec l Hm Hst Hseq Hbd) as (H1 & H2 & H3).
  unfold state_units. assert (Ht := singles_text (state_records l)). split_and!.
  - split.
    + by rewrite Ht, Hd.
    + done.
    + rewrite take_ge by done. rewrite Ht, Hdu, Hd. done.
    + apply Forall_fmap, Forall_forall. intros r Hr. rewrite Forall_forall in H1.
      destruct (state_records_plain l r Hr). specialize (H1 r Hr). by destruct r.
    + unfold legal_units. by rewrite singles_ops.
  - by rewrite Ht.
  - unfold Recovery.store_of. by rewrite singles_ops.
Qed.
(** ** TruncLog() *)

Lemma managed_startIterations t :
  managed t -> managed (HT.startIterations t) /\ abs (HT.startIterations t) = abs t.
Proof.
  intros [Hwf Hu Hc]. split; [|done]. split; [|done..]. apply HT.wf_set_cursor; [done|].
  pose proof (HT.wf_pos _ _ Hwf). unfold HT.cursor_ok; simpl. lia.
Qed.

Lemma overwrite_nil s : overwrite [] s = s.
Proof. unfold overwrite. by rewrite drop_nil, app_nil_r. Qed.
Lemma SaveHistoricalLogs_tmp env l d : tmp (SaveHistoricalLogs env l d).1 = tmp d.
Proof.
  unfold SaveHistoricalLogs. destruct (_ =? _); [done|]. destruct (hardlink_ok env); [|done].
  by destruct (unlink_ok env).
Qed.
Lemma ulongb_succ n : ulongb ((n + 1) mod 2 ^ 64).
Proof.
  unfold ulongb. pose proof (Z.mod_pos_bound (n + 1) (2 ^ 64) ltac:(lia)). unfold ULONG_MAX.
  apply andb_True. split; apply Is_true_true, Z.leb_le; lia.
Qed.

(** A compacted log: the file holds the state of the table and is synced. *)
Definition compacted (f : FILE) (t : HT.HashTable bytes ClassAd) : Prop :=
  exists us, file_of m_strictEvaluation f us (length us) /\ data f = units_text us /\
    store_of us = abs t.

(** The state around a rotation: [ok] and [not ok] return, and death. *)
Definition rotated (l : ClassAdLog) (f : FILE) (r : run bool) : Prop :=
  match r with
  | Returns _ l' ok => exists f', log_fp l' = Some f' /\
      (table l' = table l \/ table l' = HT.startIterations (table l)) /\
      active_transaction l' = active_transaction l /\
      m_nondurable_level l' = m_nondurable_level l /\
      historical_sequence_number l' =
        (if ok then (historical_sequence_number l + 1) mod 2 ^ 64
         else historical_sequence_number l) /\
      (if ok then compacted f' (table l)
       else durable f' = durable f /\
            (script f = [] \/ flushed f = length (data f) -> data f' = data f))
  | Dies _ l' _ => exists f', log_fp l' = Some f' /\ (f' = f \/ compacted f' (table l))
  end.

Lemma TruncLog_spec env l d f :
  log_fp l = Some f -> managed (table l) -> table_storable (table l) ->
  ulongb (m_original_log_birthdate l) -> tmp d = None ->
  rotated l f (TruncLog env l d).1.
Proof.
  intros Hfp Hm Hst Hbd Htmp. unfold TruncLog.
  pose proof (SaveHistoricalLogs_tmp env l d) as Htmp'. destruct (SaveHistoricalLogs env l d) as [d1 saved].
  simpl in Htmp'. rewrite Htmp in Htmp'.
  assert (Hsame : rotated l f (Returns _ l false)) by (exists f; split_and!; auto).
  destruct saved; [|exact Hsame]. destruct (tmp_open_ok env); [|exact Hsame].
  destruct (tmp_fdopen_ok env); [|exact Hsame]. simpl. rewrite Htmp'. simpl.
  set (l1 := set_seq l _). pose proof (LogState_spec l1 (tmp_script env)) as Hls.
  destruct (LogState l1 _) as [ok new]. rewrite overwrite_nil, Hfp.
  destruct ok; simpl; [|by exists f; eauto].
  destruct (Hls eq_refl) as [Hd Hdu].
  assert (Hcomp : forall f', data f' = data new -> durable f' = length (data f') -> compacted f' (table l)).
  { intros f' Hd' Hdu'. exists (state_units l1). apply (state_file l1); [done..|apply ulongb_succ|done| |done].
    by rewrite Hd', Hd. }
  destruct (rotate_ok env); simpl; destruct (reopen_ok env); simpl.
  - eexists. split; [done|]. split_and!; [by right|done..|]. by apply Hcomp.
  - eexists. split; [done|]. right. by apply Hcomp.
  - eexists. split; [done|]. split_and!; [by right|done..|]. simpl. intros Hs.
    pose proof (fflush_spec f) as Hf. destruct (fflush f) as [[|] ?]; [done|].
    destruct Hs as [Hs| ->]; [|by apply take_ge]. by destruct Hf as (_ & _ & _ & [? _]).
  - exists f. auto.
Qed.

Lemma rotated_tracks l f sp l' f' :
  tracks l f sp ->
  log_fp l' = Some f' -> table l' = table l \/ table l' = HT.startIterations (table l) ->
  active_transaction l' = active_transaction l -> m_nondurable_level l' = m_nondurable_level l ->
  forall us d, file_of m_strictEvaluation f' us d -> data f' = units_text us ->
  store_of us = store_of (committed sp) ->
  tracks l' f' (mkStore us d (pending sp) (level sp)).
Proof.
  intros [Hfp Hfile Hdata Hm Ha Hac Hlv] Hf' Ht Hac' Hlv' us d Hu Hdu Hst.
  destruct (managed_startIterations _ Hm) as [Hm' Ha'].
  split; simpl; try done.
  - by destruct Ht as [-> | ->].
  - rewrite Hst, <- Ha. by destruct Ht as [-> | ->].
  - rewrite Hac', Hst. done.
  - by rewrite Hlv'.
Qed.


(** ** The constructor *)

Abbreviation replay_step := (replay_step m_strictEvaluation).

Lemma replay_count rs s : r_count (foldl replay_step s rs) = r_count s + Z.of_nat (length rs).
Proof.
  revert s. induction rs as [|r rs IH]; intros s; cbn [foldl length]; [lia|]. rewrite IH.
  assert (Hc : r_count (replay_step s r) = r_count s + 1)
    by (destruct r; simpl; by destruct (r_active s)).
  rewrite Hc. lia.
Qed.
Lemma replay_birthdate rs s :
  Forall record_okb rs -> ulongb (r_birthdate s) ->
  ulongb (r_birthdate (foldl replay_step s (reread <$> rs))).
Proof.
  intros Hrs. revert s. induction Hrs as [|r rs Hr Hrs IH]; intros s Hs; [done|].
  rewrite fmap_cons. cbn [foldl]. apply IH.
  destruct r; simpl in Hr |- *; try (by destruct (r_active s)). by apply andb_True in Hr as [_ ?].
Qed.

(** A table that was rebuilt from the log, over the file that holds the same units. *)
Lemma tracks_intact img us k sc d max s :
  img = units_text (take k us) -> Forall unit_okb us -> legal_units m_strictEvaluation us ->
  managed (r_table s) -> abs (r_table s) = store_of (take k us) ->
  let f := mkFILE img (length img) (length img) sc d in
  let l := mkLog (r_table s) None (Some f) max (r_seq s) (r_birthdate s) 0 in
  tracks l f (mkStore (take k us) (length (take k us)) None 0).
Proof.
  intros Hi Hok Hl Hm Ha f l.
  assert (Hlk : legal_units m_strictEvaluation (take k us)).
  { unfold legal_units in *. rewrite <- (take_drop k us), fmap_app, concat_app, legal_app in Hl.
    by apply andb_True in Hl as [? _]. }
  split; try done. split; try done.
  - simpl. by rewrite Hi.
  - simpl. rewrite take_ge by done. rewrite Hi. done.
  - by apply Forall_take.
Qed.

(** A new log: only the header record. *)
Lemma tracks_new f max s :
  extends (new_FILE (script f)) f (record_text (LogHistoricalSequenceNumber (r_seq s) (r_birthdate s))) ->
  ulongb (r_seq s) -> ulongb (r_birthdate s) -> managed (r_table s) -> abs (r_table s) = ∅ ->
  let l := mkLog (r_table s) None (Some f) max (r_seq s) (r_birthdate s) 0 in
  tracks l f (mkStore [Single (LogHistoricalSequenceNumber (r_seq s) (r_birthdate s))] 0 None 0).
Proof.
  intros (Hd & _ & Hdu) Hs Hb Hm Ha l. simpl in Hd, Hdu.
  assert (Ht : data f = units_text [Single (LogHistoricalSequenceNumber (r_seq s) (r_birthdate s))]).
  { rewrite Hd. unfold units_text, unit_text, log_text. cbn [fmap list_fmap concat unit_records]. by rewrite !app_nil_r. }
  split; try done. split; cbn [committed synced].
  - by rewrite Ht.
  - simpl; lia.
  - rewrite Hdu. simpl. lia.
  - constructor; [by apply andb_True|constructor].
  - done.
Qed.

(** A rotation without faults. *)
Definition reliable (env : RotateEnv) : bool :=
  hardlink_ok env && tmp_open_ok env && tmp_fdopen_ok env && rotate_ok env && reopen_ok env &&
  bool_decide (tmp_script env = []).

Lemma write_records_quiet rs f :
  Forall record_okb rs -> script f = [] ->
  exists f', write_records rs f = (true, f') /\ script f' = [].
Proof.
  intros Hrs. revert f. induction Hrs as [|r rs Hr _ IH]; intros f Hs; simpl; [eauto|].
  destruct (Write_quiet r f Hs Hr) as (f1 & -> & Hs1). by apply IH.
Qed.
Lemma TruncLog_reliable env l d f :
  reliable env -> log_fp l = Some f -> managed (table l) -> table_storable (table l) ->
  ulongb (m_original_log_birthdate l) ->
  exists l' d', TruncLog env l d = (Returns _ l' true, d').
Proof.
  unfold reliable. intros He Hfp Hm Hst Hbd. repeat rewrite andb_True in He.
  destruct He as (((((H1 & H2) & H3) & H4) & H5) & H6%bool_decide_unpack). unfold TruncLog.
  assert (Hsv : exists d1, SaveHistoricalLogs env l d = (d1, true)).
  { unfold SaveHistoricalLogs. destruct (_ =? _); [eauto|]. destruct (hardlink_ok env); [eauto|done]. }
  destruct Hsv as [d1 ->]. destruct (tmp_open_ok env); [|done]. destruct (tmp_fdopen_ok env); [|done].
  simpl. set (l1 := set_seq l _).
  destruct (state_records_spec l1 Hm Hst (ulongb_succ _) Hbd) as (Hok & _).
  unfold LogState. rewrite H6.
  destruct (write_records_quiet _ (new_FILE []) Hok eq_refl) as (f1 & -> & Hs1).
  pose proof (fflush_spec f1) as Hf. destruct (fflush f1) as [ok2 f2].
  destruct Hf as (_ & _ & _ & Hq). destruct (Hq Hs1) as [-> Hs2].
  pose proof (fsync_spec f2) as Hf. destruct (fsync f2) as [ok3 f3].
  destruct Hf as (_ & _ & Hq3). destruct (Hq3 Hs2) as [-> Hs3].
  rewrite Hfp. simpl. destruct (rotate_ok env); [|done]. destruct (reopen_ok env); [|done]. simpl. eauto.
Qed.

Lemma write_at_spec pos content r sc ok f :
  write_at pos content r sc = (ok, f) ->
  (sc = [] -> record_okb r -> ok = true) /\
  (content = [] -> pos = O -> ok = true -> extends (new_FILE (script f)) f (record_text r)).
Proof.
  unfold write_at. intros Hw. pose proof (Write_spec r (mkFILE (take pos content) pos pos sc 0)) as Hs.
  pose proof (Write_quiet r (mkFILE (take pos content) pos pos sc 0)) as Hq.
  destruct (Write r _) as [ok' f1]. injection Hw as -> <-. split.
  - intros Hsc Hr. destruct (Hq Hsc Hr) as (? & [= ? ?] & _). done.
  - intros -> -> ->. destruct Hs as (p & (Hd & Hf & Hdu) & ->). rewrite take_nil in Hd. simpl in *.
    rewrite Hd, overwrite_nil. done.
Qed.

(** The state the constructor has built when the log has been read, over the file [f]. *)
Abbreviation opened s f max := (mkLog (r_table s) None (Some f) max (r_seq s) (r_birthdate s) 0).

(** A forced or desired rotation at the end of the constructor. *)
Lemma open_rotated env d s f max us k :
  tmp d = None -> managed (r_table s) -> abs (r_table s) = store_of (take k us) ->
  table_storable (r_table s) -> ulongb (r_birthdate s) ->
  match (TruncLog env (opened s f max) d).1 with
  | Returns _ l' true => exists f' sp', tracks l' f' sp' /\ pending sp' = None /\ level sp' = 0 /\
                           store_of (committed sp') = store_of (take k us)
  | Returns _ l' false => reliable env = false /\
      (tracks (opened s f max) f (mkStore (take k us) (length (take k us)) None 0) ->
       flushed f = length (data f) ->
       exists f', tracks l' f' (mkStore (take k us) (length (take k us)) None 0))
  | Dies _ _ _ => reliable env = false
  end.
Proof.
  intros Htmp Hm Ha Hst Hbd.
  pose proof (TruncLog_spec env (opened s f max) d f eq_refl Hm Hst Hbd Htmp) as Hr.
  pose proof (TruncLog_reliable env (opened s f max) d f) as Hrel.
  destruct (TruncLog env (opened s f max) d) as [[l' [|]|l' msg] d']; simpl in *.
  - destruct Hr as (f' & Hf' & Htab & Hac & Hlv & _ & (us' & Hfile & Hd & Hus)).
    exists f', (mkStore us' (length us') None 0).
    destruct (managed_startIterations _ Hm) as [Hm' Ha'].
    split_and!; [|done|done|by rewrite <- Ha]. split; simpl; try done.
    + by destruct Htab as [-> | ->].
    + rewrite Hus. by destruct Htab as [-> | ->].
    + by rewrite Hac.
  - split; [destruct (reliable env); [by destruct Hrel as (? & ? & ?)|done]|].
    intros Ht Hfl. destruct Hr as (f' & Hf' & Htab & Hac & Hlv & _ & Hdu & Hd).
    specialize (Hd (or_intror Hfl)). exists f'.
    eapply (rotated_tracks _ _ _ l' f' Ht); try done.
    + eapply file_of_same; [apply Ht|done..].
    + rewrite Hd. apply Ht.
  - destruct (reliable env); [|done]. by destruct Hrel as (? & ? & ?).
Qed.

(** C9 (liveness): restart after a crash. Take any crash image of a log of committed units, with no
    temporary file left over from an earlier rotation and a time that fits an unsigned long; the ads it
    holds are storable, which means that keys and attribute names are words, type names can be written,
    the attributes every new ad has are there, and the text of each value is one line that parses as
    that value. Then the constructor gets through the file and, unless a system call fails, returns a
    log that holds exactly the store after a prefix of the committed units, the synced ones included,
    with no open transaction and its file in step with its table. *)
Theorem reopen_after_crash env sc f us n img d max now :
  file_of m_strictEvaluation f us n -> crash_image f img -> tmp d = None -> ulongb now ->
  (forall s p, recover img now = Some (Done (s, p, [])) -> table_storable (r_table s)) ->
  exists r d', open_log m_strictEvaluation env sc img d max now = Some (Done (r, d')) /\
  match r with
  | Returns _ l' _ => exists k f' sp', (n <= k <= length us)%nat /\ tracks l' f' sp' /\
      pending sp' = None /\ level sp' = 0 /\ store_of (committed sp') = store_of (take k us)
  | Dies _ _ _ => ~ (reliable env /\ sc = [])
  end.
Proof.
  intros Hfile Himg Htmp Hnow Hstor.
  destruct (file_readout _ f us n img now Hfile Himg) as (k & rs & p & s & Hk & Hro & Hm & Ha & Hact).
  pose proof Hro as [Hrec Htext _ Hok Hs]. specialize (Hstor s p Hrec).
  assert (Hbd : ulongb (r_birthdate s)) by (rewrite Hs; by apply replay_birthdate).
  unfold open_log. rewrite Hrec.
  destruct (decide (p = [] /\ r_active s = None)) as [[-> Hnone]|Hreq].
  - specialize (Hact Hnone). rewrite app_nil_r in Hact. rewrite Hnone. simpl length. rewrite Nat.sub_0_r.
    simpl. destruct (Z.eqb_spec (r_count s) 0) as [Hc|Hc].
    + assert (rs = []) as ->.
      { rewrite Hs, replay_count, length_fmap in Hc. simpl in Hc. destruct rs; [done|simpl in Hc; lia]. }
      simpl in Htext, Hs. subst img. subst s. simpl.
      destruct (write_at _ _ _ _) as [ok f'] eqn:Hw. apply write_at_spec in Hw as [Hq Hw].
      destruct ok; (eexists _, _; split; [reflexivity|]).
      * exists k, f', (mkStore [Single (LogHistoricalSequenceNumber 1 now)] 0 None 0).
        destruct (managed_initialize HT.allowDuplicateKeys) as [_ Ha0].
        split; [done|]. split; [|split_and!; [done..|rewrite <- Ha; by symmetry]].
        apply (tracks_new f' max (initial_replay now)); try done. by apply Hw.
      * intros [_ ->]. discriminate (Hq eq_refl). by apply andb_True.
    + pose proof (tracks_intact img us k sc 0 max s Hact (file_ok _ _ _ _ Hfile) (file_legal _ _ _ _ Hfile) Hm Ha) as Ht.
      eexists _, _. split; [by rewrite <- surjective_pairing|].
      destruct (negb (r_is_clean s) || false); [|by eexists k, _, _].
      pose proof (open_rotated env d s (mkFILE img (length img) (length img) sc 0) max us k Htmp Hm Ha Hstor Hbd) as Hr.
      destruct (TruncLog _ _ _) as [[l' [|]|l' msg] d'].
      * destruct Hr as (f' & sp' & ? & ? & ? & ?). by exists k, f', sp'.
      * destruct Hr as [_ Hr]. destruct (Hr Ht eq_refl) as [f' ?]. by eexists k, f', _.
      * simpl in Hr. rewrite Hr. by intros [? _].
  - set (req := negb (length p =? _)%nat || _). assert (Hreq' : req = true).
    { subst req. destruct p as [|c p]; [|done]. destruct (r_active s); [done|]. by destruct Hreq. }
    rewrite Hreq', orb_true_r. destruct (if r_count s =? 0 then _ else _) as [ok f'] eqn:Hw.
    eexists _, _. split; [by rewrite <- surjective_pairing|]. destruct ok; simpl.
    + pose proof (open_rotated env d s f' max us k Htmp Hm Ha Hstor Hbd) as Hr.
      destruct (TruncLog _ _ _) as [[l' [|]|l' msg] d']; simpl in *.
      * destruct Hr as (f2 & sp' & ? & ? & ? & ?). by exists k, f2, sp'.
      * destruct Hr as [-> _]. by intros [? _].
      * rewrite Hr. by intros [? _].
    + intros [_ ->]. destruct (Z.eqb_spec (r_count s) 0) as [Hc|]; [|done].
      assert (rs = []) as ->.
      { rewrite Hs, replay_count, length_fmap in Hc. simpl in Hc. destruct rs; [done|simpl in Hc; lia]. }
      apply write_at_spec in Hw as [Hq _]. discriminate (Hq eq_refl). subst s. by apply andb_True.
Qed.
End Compaction.
