(* ===== verification/TransactionView.v ===== *)
(** What a client sees of its open transaction: AdExistsInTableOrTransaction() and
    LookupInTransaction() of condor_utils/classad_log.cpp, against the store that the
    transaction would leave if it were committed now. *)

From S2P Require Import Prelude HashTable LogRecord ClassAd Transaction ClassAdLog Recovery.

Open Scope Z_scope.

Section TransactionView.
Context `{L : ExprLang}.
Variable m_strictEvaluation : bool.

Abbreviation attrs := (gmap bytes (bytes * expr)).
Abbreviation ads := (gmap bytes (gmap bytes (bytes * expr))).
Abbreviation store_step := (store_step m_strictEvaluation).
Abbreviation store_of := (store_of m_strictEvaluation).
Abbreviation tracks := (tracks m_strictEvaluation).

(** The store if the open transaction were committed. *)
Definition view (sp : Store) : ads :=
  foldl store_step (store_of (committed sp)) (default [] (pending sp)).

(** The records about [key] in the open transaction. *)
Definition about (key : bytes) (rs : list LogRecord) : list LogRecord :=
  filter (fun r => default [] (get_key r) = key) rs.

Lemma tracks_entries l f sp t key :
  tracks l f sp -> active_transaction l = Some t -> key <> [] ->
  exists rs, pending sp = Some rs /\ entries_of t key = about key rs.
Proof.
  intros Ht Hal Hk. pose proof (tr_pending _ _ _ _ Ht) as Hp. rewrite Hal in Hp.
  destruct (pending sp) as [rs|]; [|done]. destruct Hp as ((_ & Ho & Hi) & _).
  exists rs. split; [done|]. rewrite Hi, Ho. unfold about.
  destruct rs as [|r rs]; [done|]. rewrite filter_cons_False; [done|]. simpl. congruence.
Qed.

(** A record about another key, or about none, leaves the ad alone. *)
Lemma store_step_other m r key :
  default [] (get_key r) <> key -> key <> [] -> store_step m r !! key = m !! key.
Proof.
  intros Hr Hk. destruct r; simpl in *; try done.
  - by rewrite lookup_insert_ne.
  - by rewrite lookup_delete_ne.
  - destruct (ParseExpression _); [|done]. by rewrite lookup_alter_ne.
  - by rewrite lookup_alter_ne.
Qed.

(** Only the records about a key matter for its ad. *)
Lemma store_about {A} (P : option attrs -> A -> Prop) (step : A -> LogRecord -> A) key rs m a :
  key <> [] -> P (m !! key) a ->
  (forall m r a, r ∈ rs -> default [] (get_key r) = key -> P (m !! key) a ->
    P (store_step m r !! key) (step a r)) ->
  P (foldl store_step m rs !! key) (foldl step a (about key rs)).
Proof.
  intros Hk. revert m a. induction rs as [|r rs IH]; intros m a Ha Hstep; [done|].
  unfold about. rewrite filter_cons. cbn [foldl]. case_decide as Hr.
  - cbn [foldl]. apply IH; [apply Hstep; [by left|done..]|]. intros; apply Hstep; [by right|done..].
  - apply IH; [by rewrite store_step_other|]. intros; apply Hstep; [by right|done..].
Qed.

(** AdExistsInTableOrTransaction() answers whether the ad will exist once the
    open transaction is committed: creations and destructions in the transaction count, in
    their order, on top of the committed table. *)
Theorem ad_exists_iff_in_view l f sp key :
  tracks l f sp -> key <> [] ->
  AdExistsInTableOrTransaction l key = bool_decide (is_Some (view sp !! key)).
Proof.
  intros Ht Hk. unfold AdExistsInTableOrTransaction, view.
  assert (Hb : bool_decide (is_Some (HT.lookup hashFunction (table l) key)) =
    bool_decide (is_Some (store_of (committed sp) !! key))).
  { rewrite <- (tr_abs _ _ _ _ Ht), abs_lookup by apply Ht.
    apply bool_decide_ext. by rewrite fmap_is_Some. }
  rewrite Hb. destruct (active_transaction l) as [t|] eqn:Hal.
  - destruct (tracks_entries l f sp t key Ht Hal Hk) as (rs & -> & ->). simpl. symmetry.
    pose (P := fun (oa : option attrs) (b : bool) => bool_decide (is_Some oa) = b).
    apply (store_about P); [done..|]. unfold P.
    intros m r b _ Hr Hm. destruct r as [k mt tt|k|k n v d|k n| | |s ts]; simpl in *; subst; try done.
    + rewrite lookup_insert_eq. by apply bool_decide_true.
    + rewrite lookup_delete_eq. by apply bool_decide_false, is_Some_None.
    + destruct (ParseExpression v); [|done]. rewrite lookup_alter_eq. apply bool_decide_ext, fmap_is_Some.
    + rewrite lookup_alter_eq. apply bool_decide_ext, fmap_is_Some.
  - pose proof (tr_pending _ _ _ _ Ht) as Hp. rewrite Hal in Hp. by destruct (pending sp).
Qed.
(** *** LookupInTransaction() *)

Definition creates_or_destroys (r : LogRecord) : bool :=
  match r with LogNewClassAd _ _ _ | LogDestroyClassAd _ => true | _ => false end.
Definition value_parses (r : LogRecord) : bool :=
  match r with
  | LogSetAttribute _ n v _ =>
      negb (bool_decide (n = [])) && bool_decide (is_Some (ParseExpression v))
  | _ => true
  end.

(** The loop of ExamineTransaction() for one attribute, against the ad. *)
Definition examined (n : bytes) (a0 : attrs) (oa : option attrs) (s : Examine) : Prop :=
  exists a, oa = Some a /\ AdDeleted s = false /\
    if ValDeleted s then ValFound s = false /\ a !! lower n = None
    else if ValFound s
    then exists v e, val s = Some v /\ ParseExpression v = Some e /\ snd <$> (a !! lower n) = Some e
    else a !! lower n = a0 !! lower n.

Lemma put_attr_lookup a n e k :
  n <> [] -> snd <$> (put_attr a n e !! k) =
    if decide (k = lower n) then Some e else snd <$> (a !! k).
Proof.
  intros Hn. unfold put_attr. destruct n as [|c n]; [done|]. rewrite lookup_insert.
  by repeat case_decide; subst.
Qed.
Lemma put_attr_other a n e k : n <> [] -> k <> lower n -> put_attr a n e !! k = a !! k.
Proof. intros Hn Hk. unfold put_attr. destruct n; [done|]. by rewrite lookup_insert_ne. Qed.

Lemma examine_step_spec n a0 m r s key :
  default [] (get_key r) = key -> creates_or_destroys r = false -> value_parses r ->
  examined n a0 (m !! key) s ->
  examined n a0 (store_step m r !! key) (examine_step m_strictEvaluation (Some n) s r).
Proof.
  intros Hr Hcd Hv (a & Ha & Had & Hs).
  destruct r as [k mt tt|k|k n' v d|k n'| | |q ts]; simpl in *; try done; try (by exists a).
  - subst k. apply andb_True in Hv as [Hn Hp].
    apply bool_decide_unpack in Hp as [e He]. rewrite He, lookup_alter_eq, Ha. simpl.
    assert (Hn' : n' <> []) by by intros ->. clear Hn.
    eexists. split; [done|]. unfold strcaseeq. case_bool_decide as Heq; simpl.
    + split; [done|]. exists v, e. rewrite put_attr_lookup, decide_True by done. done.
    + split; [done|]. rewrite put_attr_other by congruence. done.
  - subst k. rewrite lookup_alter_eq, Ha. simpl. eexists. split; [done|].
    unfold strcaseeq. case_bool_decide as Heq; simpl.
    + split_and!; [done..|]. by rewrite <- Heq, lookup_delete_eq.
    + split; [done|]. by rewrite lookup_delete_ne.
Qed.

(** C37 (functional): for an ad that exists and that the open transaction neither creates nor destroys, and for which
    every value it sets parses, LookupInTransaction() tells what committing it will do to an attribute,
    whatever the case its name is spelled in: 1 and the text of the value it will have, -1 when it will
    be gone, 0 when the transaction does not touch it. The key is not empty. *)
Theorem lookup_in_transaction_sound l f sp rs key n a0 a :
  tracks l f sp -> pending sp = Some rs -> key <> [] ->
  forallb (fun r => negb (creates_or_destroys r) && value_parses r) (about key rs) ->
  store_of (committed sp) !! key = Some a0 -> view sp !! key = Some a ->
  let '(code, v) := LookupInTransaction m_strictEvaluation l key (Some n) in
  (code = 1 /\ exists x e, v = Some x /\ ParseExpression x = Some e /\ snd <$> (a !! lower n) = Some e) \/
  (code = -1 /\ a !! lower n = None) \/
  (code = 0 /\ a !! lower n = a0 !! lower n).
Proof.
  intros Ht Hp Hk Hrs H0 Ha. pose proof (tr_pending _ _ _ _ Ht) as Hac. rewrite Hp in Hac.
  unfold LookupInTransaction, ExamineTransaction.
  destruct (active_transaction l) as [t|] eqn:Hal; [|done].
  destruct (tracks_entries l f sp t key Ht Hal Hk) as (rs' & Hp' & ->).
  rewrite Hp in Hp'. injection Hp' as <-.
  assert (He : examined n a0 (view sp !! key) (foldl (examine_step m_strictEvaluation (Some n))
    (mkExamine false false false None None 0) (about key rs))).
  { unfold view. rewrite Hp. simpl default. apply (store_about (examined n a0)); [done| |].
    - rewrite H0. exists a0. done.
    - intros m r s Hr Hkey Hs. apply Is_true_true in Hrs. rewrite forallb_forall in Hrs.
      specialize (Hrs r). rewrite <- list_elem_of_In in Hrs.
      assert (Hin : r ∈ about key rs) by by apply list_elem_of_filter.
      apply Hrs, Is_true_true, andb_True in Hin as [Hcd Hv].
      apply examine_step_spec; [done| |done|done]. by destruct (creates_or_destroys r). }
  rewrite Ha in He. destruct He as (a' & [= <-] & Had & Hs).
  set (s := foldl _ _ _) in *. rewrite Had. destruct (ValDeleted s); simpl; [by right; left; destruct Hs|].
  destruct (ValFound s); simpl; [left|right; right]; done.
Qed.

(** A value set before the ad is destroyed and created anew in the same
    transaction is still reported by LookupInTransaction() (it returns 1 and that value), while
    the commit leaves the ad with only the attributes of a new one. *)
Theorem lookup_in_transaction_stale l f sp key n v mt tt d :
  tracks l f sp ->
  pending sp = Some [LogSetAttribute key n v d; LogDestroyClassAd key; LogNewClassAd key mt tt] ->
  LookupInTransaction m_strictEvaluation l key (Some n) = (1, Some v) /\
  view sp !! key = Some (attrList (fresh_ad m_strictEvaluation mt tt)).
Proof.
  intros Ht Hp. pose proof (tr_pending _ _ _ _ Ht) as Hac. rewrite Hp in Hac.
  destruct (active_transaction l) as [t|] eqn:Hal; [|done].
  assert (Hk : key <> []).
  { intros ->. destruct Hac as (_ & Hok & _). simpl in Hok. done. }
  destruct (tracks_entries l f sp t key Ht Hal Hk) as (rs' & Hp' & Hent).
  rewrite Hp in Hp'. injection Hp' as <-. split.
  - unfold LookupInTransaction, ExamineTransaction. rewrite Hal, Hent. unfold about.
    rewrite !filter_cons_True by done. simpl. unfold strcaseeq. rewrite bool_decide_true by done. done.
  - unfold view. rewrite Hp. simpl. by rewrite lookup_insert_eq.
Qed.

End TransactionView.
