(* ===== verification/Backup.v ===== *)
(** Local backups of failed transactions: what Transaction::Commit() of
    condor_utils/log_transaction.cpp leaves in LOCAL_QUEUE_BACKUP_DIR, and the difference between
    deleting an attribute in a chained ad and replaying that deletion. *)

From S2P Require Import Prelude HashTable LogRecord ClassAd Transaction ClassAdLog Recovery.

Open Scope Z_scope.

Section Backup.
Context `{L : ExprLang}.
Variable m_strictEvaluation : bool.

(** The two streams of the write loop do not influence each other. *)
Lemma commit_loop_streams rs t s0 s1 :
  (commit_loop m_strictEvaluation rs t s0 s1).2 = (commit_loop m_strictEvaluation rs t s1 s0).1.2.
Proof.
  revert t s0 s1. induction rs as [|r rs IH]; intros t s0 s1; [done|]. simpl. apply IH.
Qed.

(** The backup device works and the filter asks for failed transactions. *)
Record backs_up_failures (env : BackupEnv) : Prop := {
  bu_filter : LOCAL_XACT_BACKUP_FILTER env = Some (s2b "FAILED");
  bu_dir : is_Some (LOCAL_QUEUE_BACKUP_DIR env);
  bu_mkstemp : mkstemp_ok env = true;
  bu_fdopen : fdopen_ok env = true;
  bu_quiet : backup_script env = []
}.

Lemma init_backup_failed env :
  backs_up_failures env ->
  exists name, init_backup_info env false = mkBackupInfo BF_FAILED (Some name) (Some (new_FILE [])) true.
Proof.
  intros [Hf [dir Hd] Hm Hfd Hs]. unfold init_backup_info. rewrite Hf, Hd, Hm, Hfd, Hs. by eexists.
Qed.

(** C36 (error): a durable commit of a transaction all of whose records the format can carry (no newline
    in a value) and whose log write, flush or sync fails dies, and, with LOCAL_XACT_BACKUP_FILTER =
    FAILED and a backup directory in which no call fails, leaves a backup file with the complete text of
    the transaction, synced to the disk, and reports that it did; after a commit that succeeded, the log
    is synced and no backup file is left behind. *)
Theorem failed_commit_backed_up env t f table :
  backs_up_failures env -> Forall record_okb (ordered_op_log t) ->
  let c := Commit m_strictEvaluation env t (Some f) table false in
  match c_except c with
  | Some (_, _, made_backup) =>
      made_backup = true /\ c_backup_kept c = true /\
      exists b, closed (c_backup c) = Some b /\ data b = log_text (ordered_op_log t) /\
        durable b = length (data b)
  | None =>
      c_backup_kept c = false /\ exists f', fp (c_log c) = Some f' /\
        data f' = data f ++ log_text (ordered_op_log t) /\ durable f' = length (data f')
  end.
Proof.
  intros Henv Hok. destruct (init_backup_failed env Henv) as [name Hbi]. unfold Commit.
  replace (false || false) with false by done. rewrite Hbi. cbn [bfp filt fn success].
  set (rs := ordered_op_log t) in *.
  pose proof (commit_loop_log m_strictEvaluation rs table (init_stream_with_status (Some f)) f
    (init_stream_with_status (Some (new_FILE []))) eq_refl eq_refl) as (f0 & p0 & Hf0 & (Hd0 & _) & Hp0 & _).
  pose proof (commit_loop_log m_strictEvaluation rs table (init_stream_with_status (Some (new_FILE []))) (new_FILE [])
    (init_stream_with_status (Some f)) eq_refl eq_refl) as (f1 & p1 & Hf1 & (Hd1 & _) & Hp1 & Hq1).
  rewrite <- commit_loop_streams in Hf1, Hp1, Hq1. destruct (Hq1 eq_refl Hok) as [Hw1 Hs1].
  rewrite decide_True in Hp1 by done.
  destruct (commit_loop _ _ _ _ _) as [[tab s0] s1]. simpl in Hf0, Hp0, Hf1, Hw1.
  destruct (sync_stream s0 f0 Hf0) as (f0' & Hf0' & Hd0' & Hok0 & _ & _).
  destruct (sync_stream s1 f1 Hf1) as (f1' & Hf1' & Hd1' & Hok1 & _ & Hq1').
  destruct (Hq1' Hs1 Hw1) as [Hw1' Hs1']. destruct (Hok1 Hw1') as [_ Hdu1].
  set (s0' := fsync_with_status (fflush_with_status s0)) in *.
  set (s1' := fsync_with_status (fflush_with_status s1)) in *.
  rewrite (bool_decide_false (BF_FAILED = BF_ALL)), (bool_decide_false (BF_FAILED = BF_NONE)) by done.
  cbn [negb]. rewrite orb_false_r, andb_true_r.
  destruct (decide (why s0' = WHY_OK)) as [Hw|Hw].
  - rewrite (bool_decide_true (why s0' = WHY_OK)) by done. simpl. destruct (Hok0 Hw) as [Hw0 Hdu0].
    rewrite decide_True in Hp0 by done. split; [done|]. exists f0'. split_and!; [done| |].
    + by rewrite Hd0', Hd0, Hp0.
    + by rewrite Hdu0, Hd0'.
  - rewrite (bool_decide_false (why s0' = WHY_OK)) by done. simpl.
    assert (Hcl : exists b, fclose_with_status s1' = mkStream None (why s1') (err s1') (Some b) /\
      data b = data f1' /\ durable b = durable f1').
    { unfold fclose_with_status. rewrite Hf1'. pose proof (fflush_spec f1') as Hfl.
      destruct (fflush f1') as [ok b]. destruct Hfl as (Hdb & Hdub & _ & Hqb).
      destruct (Hqb Hs1') as [-> _]. by exists b. }
    destruct Hcl as (b & -> & Hdb & Hdub). simpl. rewrite Hw1', bool_decide_true by done.
    split_and!; [done..|]. exists b. rewrite Hdb, Hdub, Hdu1, Hd1', Hd1, Hp1. done.
Qed.
End Backup.
