(* ===== verification/ArgList.v ===== *)
(** Job argument strings: condor_utils/condor_arglist.cpp.

    An argument list can be written as a string in several syntaxes: V1 (split at white
    space, no quoting), V2 (white space, single quotes), V2 quoted (V2 inside double quotes),
    V1 wacked (V1 with escaped double quotes), the V1-or-V2 wire format and the syntax of the
    Windows command line.  A [char const *] is the list of its characters without NUL; a
    [MyString *] the function appends to is passed and returned.  A parser that fails has
    already appended the arguments it had recognised. *)

From S2P Require Import Prelude ClassAd.

Open Scope Z_scope.

(** The four white space characters of the argument syntaxes. *)
Definition argspace (c : ascii) : bool :=
  bool_decide (c = SP) || bool_decide (c = TAB) || bool_decide (c = LF) || bool_decide (c = CR).

Definition ceq (c d : ascii) : bool := bool_decide (c = d).

(** ** Writing and parsing raw V2 *)

(** One turn of the loop of append_arg().  A quoted section that follows another one is merged
    with it: the closing quote is taken back. *)
Definition append_char (result : bytes) (c : ascii) : bytes :=
  if argspace c || ceq c SQUOTE then
    let r := match last result with
             | Some q => if ceq q SQUOTE then removelast result else result ++ [SQUOTE]
             | None => result ++ [SQUOTE]
             end in
    (if ceq c SQUOTE then r ++ [SQUOTE] else r) ++ [c; SQUOTE]
  else result ++ [c].

Definition append_arg (arg result : bytes) : bytes :=
  let result := match result with [] => [] | _ => result ++ [SP] end in
  match arg with
  | [] => result ++ [SQUOTE; SQUOTE]
  | _ => foldl append_char result arg
  end.

Definition join_args (args_list : list bytes) (result : bytes) (start_arg : nat) : bytes :=
  foldl (fun r a => append_arg a r) result (drop start_arg args_list).

(** split_args(): [quote] is the text from the opening quote on while in a quoted section.  The
    result is the list and the error message. *)
Fixpoint split_loop (args : bytes) (quote : option bytes) (buf : bytes) (parsed_token : bool)
    (args_list : list bytes) : list bytes * option bytes :=
  match args with
  | [] =>
      match quote with
      | Some q => (args_list, Some (s2b "Unbalanced quote starting here: " ++ q))
      | None => (if parsed_token then args_list ++ [buf] else args_list, None)
      end
  | c :: rest =>
      match quote with
      | Some _ =>
          if ceq c SQUOTE then
            match rest with
            | c2 :: rest2 =>
                if ceq c2 SQUOTE
                then split_loop rest2 quote (buf ++ [SQUOTE]) parsed_token args_list
                else split_loop rest None buf parsed_token args_list
            | [] => split_loop rest None buf parsed_token args_list
            end
          else split_loop rest quote (buf ++ [c]) parsed_token args_list
      | None =>
          if ceq c SQUOTE then split_loop rest (Some args) buf true args_list
          else if argspace c then
            if parsed_token then split_loop rest None [] false (args_list ++ [buf])
            else split_loop rest None buf false args_list
          else split_loop rest None (buf ++ [c]) true args_list
      end
  end.

(** A NULL string has no arguments. *)
Definition split_args (args : option bytes) (args_list : list bytes) : list bytes * option bytes :=
  match args with
  | None => (args_list, None)
  | Some a => split_loop a None [] false args_list
  end.

(** ** Quoting of whole strings *)

(** MyString::EscapeChars() *)
Definition EscapeChars (s q : bytes) (escape : ascii) : bytes :=
  concat ((fun c => if bool_decide (c ∈ q) then [escape; c] else [c]) <$> s).

Definition V2RawToV2Quoted (v2_raw result : bytes) : bytes :=
  result ++ [DQUOTE] ++ EscapeChars v2_raw [DQUOTE] DQUOTE ++ [DQUOTE].
Definition V1RawToV1Wacked (v1_raw result : bytes) : bytes :=
  result ++ EscapeChars v1_raw [DQUOTE] BSLASH.

Definition IsV2QuotedString (str : bytes) : bool :=
  match skip_spaces str with
  | c :: _ => ceq c DQUOTE
  | [] => false
  end.

Definition AddErrorMessage (msg error_buf : bytes) : bytes :=
  match error_buf with
  | [] => msg
  | _ => error_buf ++ [LF] ++ msg
  end.

(** The loop of V2QuotedToV2Raw() after the opening quote: the text, and what follows the closing
    quote; [None] when there is none. *)
Fixpoint unquote (v1_input v2_raw : bytes) : bytes * option bytes :=
  match v1_input with
  | [] => (v2_raw, None)
  | c :: r =>
      if ceq c DQUOTE then
        match r with
        | c2 :: r2 => if ceq c2 DQUOTE then unquote r2 (v2_raw ++ [DQUOTE]) else (v2_raw, Some r)
        | [] => (v2_raw, Some r)
        end
      else unquote r (v2_raw ++ [c])
  end.

(** [Done (raw, ok, errmsg)]; the ASSERT is the EXCEPT. *)
Definition V2QuotedToV2Raw (v1_input v2_raw errmsg : bytes) : outcome (bytes * bool * bytes) :=
  if negb (IsV2QuotedString v1_input) then EXCEPT "Assertion ERROR on (IsV2QuotedString(v1_input))"
  else
    match unquote (tail (skip_spaces v1_input)) v2_raw with
    | (raw, None) => Done (raw, false, AddErrorMessage (s2b "Unterminated double-quote.") errmsg)
    | (raw, Some r) =>
        match skip_spaces r with
        | [] => Done (raw, true, errmsg)
        | _ =>
            Done (raw, false, AddErrorMessage
              (s2b "Unexpected characters following double-quote.  Did you forget to escape the double-quote by repeating it?  Here is the quote and trailing characters: "
                 ++ [DQUOTE] ++ r ++ [LF]) errmsg)
        end
    end.

Fixpoint unwack (v1_input v1_raw : bytes) : bytes * option bytes :=
  match v1_input with
  | [] => (v1_raw, None)
  | c :: r =>
      if ceq c DQUOTE then (v1_raw, Some v1_input)
      else if ceq c BSLASH then
        match r with
        | c2 :: r2 => if ceq c2 DQUOTE then unwack r2 (v1_raw ++ [DQUOTE]) else unwack r (v1_raw ++ [c])
        | [] => unwack r (v1_raw ++ [c])
        end
      else unwack r (v1_raw ++ [c])
  end.
Definition V1WackedToV1Raw (v1_input v1_raw errmsg : bytes) : outcome (bytes * bool * bytes) :=
  if IsV2QuotedString v1_input then EXCEPT "Assertion ERROR on (!IsV2QuotedString(v1_input))"
  else match unwack v1_input v1_raw with
       | (raw, None) => Done (raw, true, errmsg)
       | (raw, Some at_) =>
           Done (raw, false,
             AddErrorMessage (s2b "Found illegal unescaped double-quote: " ++ at_) errmsg)
       end.

(** ** class ArgList *)

Inductive ArgV1Syntax := UNKNOWN_ARGV1_SYNTAX | WIN32_ARGV1_SYNTAX | UNIX_ARGV1_SYNTAX.

Record ArgList := mkArgList {
  args_list : list bytes;
  input_was_unknown_platform_v1 : bool;
  v1_syntax : ArgV1Syntax
}.

Definition new_ArgList : ArgList := mkArgList [] false UNKNOWN_ARGV1_SYNTAX.
Definition set_args (a : ArgList) (l : list bytes) : ArgList :=
  mkArgList l (input_was_unknown_platform_v1 a) (v1_syntax a).

Definition Count (a : ArgList) : Z := Z.of_nat (length (args_list a)).
Definition Clear (a : ArgList) : ArgList := mkArgList [] false (v1_syntax a).
Definition GetArg (a : ArgList) (n : Z) : option bytes :=
  if n <? 0 then None else args_list a !! Z.to_nat n.
Definition AppendArg (a : ArgList) (arg : bytes) : ArgList := set_args a (args_list a ++ [arg]).
Definition AppendArg_int (a : ArgList) (arg : Z) : ArgList := AppendArg a (print_d arg).
Definition RemoveArg (a : ArgList) (pos : Z) : outcome ArgList :=
  if (0 <=? pos) && (pos <? Count a)
  then Done (set_args a (delete (Z.to_nat pos) (args_list a)))
  else EXCEPT "Assertion ERROR on (pos >= 0 && pos < Count())".

(** The copying loop of InsertArg(), and its test after the loop. *)
Fixpoint insert_loop (arg : bytes) (pos i : Z) (args_array acc : list bytes) : list bytes :=
  match args_array with
  | [] => if i =? pos then acc ++ [arg] else acc
  | x :: r => insert_loop arg pos (i + 1) r ((if i =? pos then acc ++ [arg] else acc) ++ [x])
  end.
Definition InsertArg (a : ArgList) (arg : bytes) (pos : Z) : outcome ArgList :=
  if (0 <=? pos) && (pos <=? Count a)
  then Done (set_args a (insert_loop arg pos 0 (args_list a) []))
  else EXCEPT "Assertion ERROR on (pos >= 0 && pos <= Count())".
Definition AppendArgsFromArgList (a args : ArgList) : ArgList :=
  mkArgList (args_list a ++ args_list args) (input_was_unknown_platform_v1 args) (v1_syntax a).
Definition SetArgV1Syntax (a : ArgList) (s : ArgV1Syntax) : ArgList :=
  mkArgList (args_list a) (input_was_unknown_platform_v1 a) s.

(** *** Parsing *)

(** AppendArgsV1Raw_win32(): outside a quoted section, or inside one after a run of [n]
    backslashes; [started] is [args > begin_arg]. *)
Inductive win32_mode :=
| WOut
| WQuoted (begin_quote : bytes) (backslashes : nat).

Fixpoint win32_loop (args : bytes) (m : win32_mode) (buf : bytes) (started : bool)
    (l : list bytes) : list bytes * option bytes :=
  match args with
  | [] =>
      match m with
      | WQuoted begin_quote _ =>
          (l, Some (s2b "Unterminated quote in windows argument string starting here: " ++ begin_quote))
      | WOut => (if started then l ++ [buf] else l, None)
      end
  | c :: rest =>
      match m with
      | WOut =>
          if argspace c then
            if started then win32_loop rest WOut [] false (l ++ [buf])
            else win32_loop rest WOut [] false l
          else if ceq c DQUOTE then win32_loop rest (WQuoted args 0) buf true l
          else win32_loop rest WOut (buf ++ [c]) true l
      | WQuoted q n =>
          if ceq c BSLASH then win32_loop rest (WQuoted q (S n)) buf started l
          else if ceq c DQUOTE then
            let buf' := buf ++ replicate (n / 2) BSLASH in
            if Nat.odd n then win32_loop rest (WQuoted q 0) (buf' ++ [DQUOTE]) started l
            else win32_loop rest WOut buf' started l
          else win32_loop rest (WQuoted q 0) (buf ++ replicate n BSLASH ++ [c]) started l
      end
  end.

(** A parser: the list afterwards, whether it succeeded, the error message. *)
Definition AppendArgsV1Raw_win32 (a : ArgList) (args error_msg : bytes) : ArgList * bool * bytes :=
  match win32_loop args WOut [] false (args_list a) with
  | (l, None) => (set_args a l, true, error_msg)
  | (l, Some msg) => (set_args a l, false, AddErrorMessage msg error_msg)
  end.

Fixpoint unix_loop (args buf : bytes) (parsed_token : bool) (l : list bytes) : list bytes :=
  match args with
  | [] => if parsed_token then l ++ [buf] else l
  | c :: rest =>
      if argspace c then
        if parsed_token then unix_loop rest [] false (l ++ [buf]) else unix_loop rest buf false l
      else unix_loop rest (buf ++ [c]) true l
  end.
Definition AppendArgsV1Raw_unix (a : ArgList) (args error_msg : bytes) : ArgList * bool * bytes :=
  (set_args a (unix_loop args [] false (args_list a)), true, error_msg).

Definition AppendArgsV1Raw (a : ArgList) (args : option bytes) (error_msg : bytes)
  : ArgList * bool * bytes :=
  match args with
  | None => (a, true, error_msg)
  | Some s =>
      match v1_syntax a with
      | WIN32_ARGV1_SYNTAX => AppendArgsV1Raw_win32 a s error_msg
      | UNIX_ARGV1_SYNTAX => AppendArgsV1Raw_unix a s error_msg
      | UNKNOWN_ARGV1_SYNTAX =>
          AppendArgsV1Raw_unix (mkArgList (args_list a) true (v1_syntax a)) s error_msg
      end
  end.

(** split_args() overwrites the error message. *)
Definition AppendArgsV2Raw (a : ArgList) (args : option bytes) (error_msg : bytes)
  : ArgList * bool * bytes :=
  match split_args args (args_list a) with
  | (l, None) => (set_args a l, true, error_msg)
  | (l, Some msg) => (set_args a l, false, msg)
  end.

Definition RAW_V2_ARGS_MARKER : ascii := SP.

Definition AppendArgsV1or2Raw (a : ArgList) (args : option bytes) (error_msg : bytes)
  : ArgList * bool * bytes :=
  match args with
  | None => (a, true, error_msg)
  | Some (c :: r) =>
      if ceq c RAW_V2_ARGS_MARKER then AppendArgsV2Raw a (Some r) error_msg
      else AppendArgsV1Raw a args error_msg
  | Some [] => AppendArgsV1Raw a args error_msg
  end.

(** The common tail of the V2 quoted readers. *)
Definition append_v2_quoted (a : ArgList) (args error_msg : bytes) : outcome (ArgList * bool * bytes) :=
  match V2QuotedToV2Raw args [] error_msg with
  | EXCEPT e => EXCEPT e
  | Done (_, false, err) => Done (a, false, err)
  | Done (v2, true, err) => Done (AppendArgsV2Raw a (Some v2) err)
  end.
Definition AppendArgsV2Quoted (a : ArgList) (args error_msg : bytes) : outcome (ArgList * bool * bytes) :=
  if negb (IsV2QuotedString args)
  then Done (a, false,
             AddErrorMessage (s2b "Expecting double-quoted input string (V2 format).") error_msg)
  else append_v2_quoted a args error_msg.
Definition AppendArgsV1RawOrV2Quoted (a : ArgList) (args error_msg : bytes)
  : outcome (ArgList * bool * bytes) :=
  if IsV2QuotedString args then append_v2_quoted a args error_msg
  else Done (AppendArgsV1Raw a (Some args) error_msg).
Definition AppendArgsV1WackedOrV2Quoted (a : ArgList) (args error_msg : bytes)
  : outcome (ArgList * bool * bytes) :=
  if IsV2QuotedString args then append_v2_quoted a args error_msg
  else match V1WackedToV1Raw args [] error_msg with
       | EXCEPT e => EXCEPT e
       | Done (_, false, err) => Done (a, false, err)
       | Done (v1, true, err) => Done (AppendArgsV1Raw a (Some v1) err)
       end.

(** *** Producing strings *)

(** [strcspn(str," \t\r\n")] goes to the end of the string. *)
Definition IsSafeArgV1Value (str : bytes) : bool := forallb (fun c => negb (argspace c)) str.

(** The result is what was appended before an argument that cannot be written. *)
Fixpoint v1_raw_loop (result error_msg : bytes) (l : list bytes) : bytes * bool * bytes :=
  match l with
  | [] => (result, true, error_msg)
  | arg :: l' =>
      if IsSafeArgV1Value arg then
        let result := match result with [] => [] | _ => result ++ [SP] end in
        v1_raw_loop (result ++ arg) error_msg l'
      else (result, false, s2b "Cannot represent '" ++ arg ++ s2b "' in V1 arguments syntax.")
  end.
Definition GetArgsStringV1Raw (a : ArgList) (result error_msg : bytes) : bytes * bool * bytes :=
  v1_raw_loop result error_msg (args_list a).
Definition GetArgsStringV2Raw (a : ArgList) (result : bytes) (start_arg : nat) : bytes :=
  join_args (args_list a) result start_arg.
Definition GetArgsStringV2Quoted (a : ArgList) (result : bytes) : bytes :=
  V2RawToV2Quoted (GetArgsStringV2Raw a [] 0) result.
Definition GetArgsStringV1WackedOrV2Quoted (a : ArgList) (result : bytes) : bytes :=
  match GetArgsStringV1Raw a [] [] with
  | (v1_raw, true, _) => V1RawToV1Wacked v1_raw result
  | (_, false, _) => GetArgsStringV2Quoted a result
  end.
(** [setChar(old_len,'\0')] drops the partial output. *)
Definition GetArgsStringV1or2Raw (a : ArgList) (result : bytes) : bytes :=
  match GetArgsStringV1Raw a result [] with
  | (r, true, _) => r
  | (r, false, _) => GetArgsStringV2Raw a (take (length result) r ++ [RAW_V2_ARGS_MARKER]) 0
  end.

(** The quoting loop of GetArgsStringWin32(), after a run of [n] backslashes. *)
Fixpoint win32_quote (argstr : bytes) (n : nat) : bytes :=
  match argstr with
  | [] => replicate n BSLASH
  | c :: r =>
      if ceq c BSLASH then BSLASH :: win32_quote r (S n)
      else if ceq c DQUOTE then replicate n BSLASH ++ [BSLASH; DQUOTE] ++ win32_quote r 0
      else c :: win32_quote r 0
  end.
Definition win32_plain (argstr : bytes) : bool :=
  forallb (fun c => negb (ceq c SP || ceq c TAB || ceq c DQUOTE)) argstr.
Definition win32_arg (unknown_v1 : bool) (arg : bytes) : bytes :=
  if unknown_v1 || win32_plain arg then arg else [DQUOTE] ++ win32_quote arg 0 ++ [DQUOTE].
Definition GetArgsStringWin32 (a : ArgList) (result : bytes) (skip_args : nat) : bytes :=
  foldl (fun r arg => (match r with [] => [] | _ => r ++ [SP] end)
                        ++ win32_arg (input_was_unknown_platform_v1 a) arg)
    result (drop skip_args (args_list a)).

(** GetArgsStringSystem() where it is not Windows. *)
Definition GetArgsStringSystem (a : ArgList) (result : bytes) (skip_args : nat) : bytes :=
  foldl (fun r arg => r ++ (match r with [] => [] | _ => [SP] end) ++ [DQUOTE] ++
           EscapeChars arg [DQUOTE; BSLASH; "$"%char; "`"%char] BSLASH ++ [DQUOTE])
    result (drop skip_args (args_list a)).

(** *** Arguments in a job ad *)

(** CondorVersionInfo (condor_utils/condor_ver_info.cpp), by its version number. *)
Record CondorVersionInfo := mkVersion { Scalar : Z }.
Definition built_since_version (v : CondorVersionInfo) (MajorVer MinorVer SubMinorVer : Z) : bool :=
  MajorVer * 1000000 + MinorVer * 1000 + SubMinorVer <=? Scalar v.
Definition CondorVersionRequiresV1 (v : CondorVersionInfo) : bool :=
  negb (built_since_version v 6 7 15).

Section ClassAdArgs.
Context `{L : ExprLang}.

Definition ATTR_JOB_ARGUMENTS1 : bytes := s2b "Args".
Definition ATTR_JOB_ARGUMENTS2 : bytes := s2b "Arguments".

(** LookupString() into a char pointer: the C string of the value. *)
Definition LookupString (ad : ClassAd) (name : bytes) : option bytes :=
  until_nul <$> EvaluateAttrString ad name.
(** Assign() of a C string. *)
Definition Assign (ad : ClassAd) (name value : bytes) : ClassAd := (InsertAttr ad name value).1.

Definition GetArgsStringForDisplay (ad : ClassAd) (result : bytes) : bytes :=
  match LookupString ad ATTR_JOB_ARGUMENTS2 with
  | Some args2 => args2
  | None => default result (LookupString ad ATTR_JOB_ARGUMENTS1)
  end.

Definition AppendArgsFromClassAd (a : ArgList) (ad : ClassAd) (error_msg : bytes)
  : ArgList * bool * bytes :=
  match LookupString ad ATTR_JOB_ARGUMENTS2 with
  | Some args2 => AppendArgsV2Raw a (Some args2) error_msg
  | None =>
      match LookupString ad ATTR_JOB_ARGUMENTS1 with
      | Some args1 => AppendArgsV1Raw a (Some args1) error_msg
      | None => (a, true, error_msg)
      end
  end.

Definition GetArgsStringV1or2Raw_ad (a : ArgList) (ad : ClassAd) (result error_msg : bytes)
  : ArgList * bytes * bool * bytes :=
  match AppendArgsFromClassAd a ad error_msg with
  | (a', false, err) => (a', result, false, err)
  | (a', true, err) => (a', GetArgsStringV1or2Raw a' result, true, err)
  end.

Definition InsertArgsIntoClassAd (a : ArgList) (ad : ClassAd)
    (condor_version : option CondorVersionInfo) (error_msg : bytes) : ClassAd * bool * bytes :=
  let has_args1 := bool_decide (is_Some (Lookup ad ATTR_JOB_ARGUMENTS1)) in
  let has_args2 := bool_decide (is_Some (Lookup ad ATTR_JOB_ARGUMENTS2)) in
  let '(requires_v1, condor_version_requires_v1) :=
    match condor_version with
    | Some v => (CondorVersionRequiresV1 v, true)
    | None => (input_was_unknown_platform_v1 a, false)
    end in
  let ad :=
    if negb requires_v1 then Assign ad ATTR_JOB_ARGUMENTS2 (GetArgsStringV2Raw a [] 0)
    else if has_args2 then (Delete ad ATTR_JOB_ARGUMENTS2).1 else ad in
  if requires_v1 then
    match GetArgsStringV1Raw a [] error_msg with
    | (args1, true, err) => (Assign ad ATTR_JOB_ARGUMENTS1 args1, true, err)
    | (_, false, err) =>
        if condor_version_requires_v1 && negb (input_was_unknown_platform_v1 a) then
          ((Delete (Delete ad ATTR_JOB_ARGUMENTS1).1 ATTR_JOB_ARGUMENTS2).1, true, err)
        else (ad, false, AddErrorMessage (s2b "Failed to convert arguments to V1 syntax.") err)
    end
  else ((if has_args1 then (Delete ad ATTR_JOB_ARGUMENTS1).1 else ad), true, error_msg).
End ClassAdArgs.

(** ** V2 strings are parsed back

    split_args() looks one character ahead inside a quoted section.  [vstep] is the same parser
    without lookahead: after a quote in a quoted section it is in the mode [VMaybe]. *)

Inductive vmode := VOut | VIn | VMaybe.
Record vstate := mkV { vm : vmode; vbuf : bytes; vtok : bool; vacc : list bytes }.

Definition vstep_out (s : vstate) (c : ascii) : vstate :=
  if ceq c SQUOTE then mkV VIn (vbuf s) true (vacc s)
  else if argspace c then
    if vtok s then mkV VOut [] false (vacc s ++ [vbuf s]) else mkV VOut (vbuf s) false (vacc s)
  else mkV VOut (vbuf s ++ [c]) true (vacc s).
Definition vstep (s : vstate) (c : ascii) : vstate :=
  match vm s with
  | VOut => vstep_out s c
  | VIn => if ceq c SQUOTE then mkV VMaybe (vbuf s) (vtok s) (vacc s)
           else mkV VIn (vbuf s ++ [c]) (vtok s) (vacc s)
  | VMaybe => if ceq c SQUOTE then mkV VIn (vbuf s ++ [SQUOTE]) (vtok s) (vacc s)
              else vstep_out s c
  end.
Definition vend (s : vstate) : list bytes := if vtok s then vacc s ++ [vbuf s] else vacc s.

Lemma split_loop_vstep args buf tok acc q :
  (let s := foldl vstep (mkV VOut buf tok acc) args in
   vm s <> VIn -> split_loop args None buf tok acc = (vend s, None)) /\
  (let s := foldl vstep (mkV VIn buf tok acc) args in
   vm s <> VIn -> split_loop args (Some q) buf tok acc = (vend s, None)).
Proof.
  remember (length args) as n eqn:Hn. revert args buf tok acc q Hn.
  induction (lt_wf n) as [n _ IH]. intros args buf tok acc q ->.
  destruct args as [|c args]; [done|].
  assert (HO : forall a b t l, (length a <= length args)%nat ->
    vm (foldl vstep (mkV VOut b t l) a) <> VIn ->
    split_loop a None b t l = (vend (foldl vstep (mkV VOut b t l) a), None)).
  { intros a b t l Ha. apply (IH (length a)); [simpl; lia|exact []|done]. }
  assert (HI : forall a b t l q, (length a <= length args)%nat ->
    vm (foldl vstep (mkV VIn b t l) a) <> VIn ->
    split_loop a (Some q) b t l = (vend (foldl vstep (mkV VIn b t l) a), None)).
  { intros a b t l q' Ha. apply (IH (length a)); [simpl; lia|done]. }
  clear IH. split; cbn [foldl]; unfold vstep at 2 4; cbn [vm vbuf vtok vacc split_loop].
  - unfold vstep_out; cbn [vm vbuf vtok vacc]. destruct (ceq c SQUOTE); [by apply HI|].
    destruct (argspace c); [destruct tok|]; by apply HO.
  - destruct (ceq c SQUOTE) eqn:Hc; [|by apply HI].
    destruct args as [|c2 args]; [done|]. cbn [foldl]. unfold vstep at 2 4. cbn [vm vbuf vtok vacc].
    destruct (ceq c2 SQUOTE) eqn:Hc2; [apply HI; simpl; lia|]. apply (HO (c2 :: args)). done.
Qed.

Abbreviation vrun := (foldl vstep (mkV VOut [] false [])).

Lemma vrun_snoc r c : vrun (r ++ [c]) = vstep (vrun r) c.
Proof. by rewrite foldl_app. Qed.

(** The string so far encodes the arguments [acc] and the part [u] of the next one; a quote at its
    end closes a section that can be taken up again. *)
Definition encodes (r u : bytes) (acc : list bytes) : Prop :=
  exists t, (vrun r = mkV VOut u t acc /\ (t = false -> u = []) /\ last r <> Some SQUOTE) \/
  (exists r', r = r' ++ [SQUOTE] /\ vrun r' = mkV VIn u true acc).

Lemma last_snoc' {A} (l : list A) x : last (l ++ [x]) = Some x.
Proof. apply last_snoc. Qed.

Lemma append_char_encodes r u acc c :
  encodes r u acc ->
  encodes (append_char r c) (u ++ [c]) acc /\ vtok (vrun (append_char r c)) = true.
Proof.
  intros (t & Hr). unfold append_char. destruct (argspace c || ceq c SQUOTE) eqn:Hsp.
  - set (r0 := match last r with Some q => _ | None => _ end).
    assert (H0 : vrun r0 = mkV VIn u true acc).
    { destruct Hr as [(Hr & Ht & Hl)|(r' & -> & Hr)].
      - replace r0 with (r ++ [SQUOTE]).
        + rewrite vrun_snoc, Hr. done.
        + subst r0. destruct (last r) as [q|]; [|done]. unfold ceq. rewrite bool_decide_false by congruence. done.
      - subst r0. rewrite last_snoc'. unfold ceq. rewrite bool_decide_true, removelast_last by done. done. }
    set (r1 := if ceq c SQUOTE then _ else _).
    assert (H1 : vrun (r1 ++ [c]) = mkV VIn (u ++ [c]) true acc).
    { rewrite vrun_snoc. subst r1. unfold ceq. case_bool_decide as Hc.
      - subst c. rewrite vrun_snoc, H0. done.
      - rewrite H0. unfold vstep; simpl. unfold ceq. by rewrite bool_decide_false. }
    replace (r1 ++ [c; SQUOTE]) with ((r1 ++ [c]) ++ [SQUOTE]) by by rewrite <- app_assoc.
    split; [|by rewrite vrun_snoc, H1]. exists true. right. by exists (r1 ++ [c]).
  - apply orb_false_iff in Hsp as [Hs Hq].
    assert (Hv : vrun (r ++ [c]) = mkV VOut (u ++ [c]) true acc).
    { rewrite vrun_snoc. destruct Hr as [(Hr & _ & _)|(r' & -> & Hr)].
      - rewrite Hr. unfold vstep, vstep_out; simpl. by rewrite Hq, Hs.
      - rewrite vrun_snoc, Hr. unfold vstep; simpl. rewrite Hq. unfold vstep_out. by rewrite Hq, Hs. }
    split; [|by rewrite Hv]. exists true. left. split_and!; [done..|]. rewrite last_snoc'.
    intros [= ->]. done.
Qed.

Lemma append_chars_encodes cs r u acc :
  encodes r u acc -> cs <> [] ->
  encodes (foldl append_char r cs) (u ++ cs) acc /\ vtok (vrun (foldl append_char r cs)) = true.
Proof.
  revert r u. induction cs as [|c cs IH]; intros r u Hr Hne; [done|].
  destruct (append_char_encodes r u acc c Hr) as [Hr' Ht]. cbn [foldl].
  destruct cs as [|c' cs]; [done|]. destruct (IH _ _ Hr' ltac:(done)) as [H1 H2].
  split; [|done]. by rewrite <- app_assoc in H1.
Qed.

Lemma encodes_end r u acc :
  encodes r u acc -> vtok (vrun r) = true -> vm (vrun r) <> VIn /\ vend (vrun r) = acc ++ [u].
Proof.
  intros (t & [(Hr & _ & _)|(r' & -> & Hr)]) Ht.
  - rewrite Hr in Ht |- *. simpl in Ht. by subst t.
  - rewrite vrun_snoc, Hr. done.
Qed.
Lemma encodes_space r u acc :
  encodes r u acc -> vtok (vrun r) = true -> encodes (r ++ [SP]) [] (acc ++ [u]).
Proof.
  intros (t & [(Hr & _ & _)|(r' & -> & Hr)]) Ht; exists false; left.
  - rewrite vrun_snoc, last_snoc', Hr in *. simpl in Ht. by subst t.
  - by rewrite !vrun_snoc, last_snoc', Hr.
Qed.

(** What append_arg() puts between two arguments. *)
Definition spaced (r : bytes) : bytes := match r with [] => [] | _ => r ++ [SP] end.

(** A string that holds the arguments [l], all complete. *)
Definition holds_args (r : bytes) (l : list bytes) : Prop :=
  encodes (spaced r) [] l /\ vm (vrun r) <> VIn /\ vend (vrun r) = l.

Lemma append_arg_holds arg r l : holds_args r l -> holds_args (append_arg arg r) (l ++ [arg]).
Proof.
  intros (H0 & _ & _).
  assert (H1 : encodes (append_arg arg r) arg l /\ vtok (vrun (append_arg arg r)) = true).
  { unfold append_arg. fold (spaced r). destruct arg as [|c arg];
      [|by apply (append_chars_encodes (c :: arg) (spaced r) [] l)].
    replace (spaced r ++ [SQUOTE; SQUOTE]) with ((spaced r ++ [SQUOTE]) ++ [SQUOTE]) by by rewrite <- app_assoc.
    assert (Hin : vrun (spaced r ++ [SQUOTE]) = mkV VIn [] true l).
    { rewrite vrun_snoc. destruct H0 as (t & [(Hv & _ & _)|(r' & Hr' & Hv)]).
      - by rewrite Hv.
      - exfalso. unfold spaced in Hr'. destruct r as [|c r]; [by destruct r'|].
        apply app_inj_tail in Hr' as [_ ?]. done. }
    split; [|by rewrite vrun_snoc, Hin]. exists true. right. eauto. }
  destruct H1 as [H1 H2]. split; [|by apply encodes_end].
  unfold spaced. destruct (append_arg arg r); [done|]. by apply encodes_space.
Qed.

Lemma join_args_holds args r l :
  holds_args r l -> holds_args (foldl (fun r a => append_arg a r) r args) (l ++ args).
Proof.
  revert r l. induction args as [|a args IH]; intros r l Hr; simpl; [by rewrite app_nil_r|].
  rewrite (cons_middle a l args), app_assoc. by apply IH, append_arg_holds.
Qed.
Lemma holds_nil : holds_args [] [].
Proof. split; [|done]. exists false. by left. Qed.
Lemma holds_marker : holds_args [SP] [].
Proof. split; [|done]. exists false. by left. Qed.

(** The arguments already in the list stay in front. *)
Lemma split_loop_prefix args q buf tok pre l :
  split_loop args q buf tok (pre ++ l) =
  (pre ++ (split_loop args q buf tok l).1, (split_loop args q buf tok l).2).
Proof.
  remember (length args) as n eqn:Hn. revert args q buf tok l Hn.
  induction (lt_wf n) as [n _ IH]. intros args q buf tok l ->.
  assert (IH' : forall a q b t l, (length a < length args)%nat ->
    split_loop a q b t (pre ++ l) = (pre ++ (split_loop a q b t l).1, (split_loop a q b t l).2)).
  { intros a q' b t l' Ha. by apply (IH (length a)). }
  clear IH. destruct args as [|c args]; simpl in *.
  { destruct q; [done|]. destruct tok; [by rewrite <- app_assoc|done]. }
  destruct q as [q|].
  - destruct (ceq c SQUOTE); [|apply IH'; lia]. destruct args as [|c2 args]; [apply (IH' [] None); simpl; lia|].
    destruct (ceq c2 SQUOTE); apply IH'; simpl; lia.
  - destruct (ceq c SQUOTE); [apply IH'; lia|]. destruct (argspace c); [|apply IH'; lia].
    destruct tok; [rewrite <- app_assoc|]; apply IH'; lia.
Qed.

Lemma run_split r args pre :
  vm (vrun r) <> VIn -> vend (vrun r) = args -> split_args (Some r) pre = (pre ++ args, None).
Proof.
  intros Hv Hend. unfold split_args. rewrite <- (app_nil_r pre) at 1.
  rewrite split_loop_prefix. destruct (split_loop_vstep r [] false [] []) as [Ho _].
  rewrite (Ho Hv), Hend. done.
Qed.
Lemma split_join args pre : split_args (Some (join_args args [] 0)) pre = (pre ++ args, None).
Proof.
  assert (Hh : holds_args (join_args args [] 0) args).
  { unfold join_args. rewrite drop_0. apply (join_args_holds args [] []), holds_nil. }
  apply run_split; apply Hh.
Qed.
(** A first character outside quotes is never taken back. *)
Lemma append_char_head c0 r c : c0 <> SQUOTE -> exists r', append_char (c0 :: r) c = c0 :: r'.
Proof.
  intros Hc0. unfold append_char. destruct (_ || _); [|by eexists].
  set (r1 := match last (c0 :: r) with Some q => _ | None => _ end).
  assert (H1 : exists r2, r1 = c0 :: r2).
  { subst r1. destruct r as [|c1 r]; simpl.
    - unfold ceq. rewrite bool_decide_false by done. by eexists.
    - destruct (last (c1 :: r)) as [q|]; [|by eexists]. destruct (ceq q SQUOTE); by eexists. }
  destruct H1 as [r2 ->]. destruct (ceq c SQUOTE); by eexists.
Qed.
Lemma append_chars_head cs c0 r0 :
  c0 <> SQUOTE -> (exists r, r0 = c0 :: r) -> exists r, foldl append_char r0 cs = c0 :: r.
Proof.
  intros Hc0. revert r0. induction cs as [|c cs IH]; intros r0 [r ->]; [by eexists|].
  apply IH. by apply append_char_head.
Qed.
(** After the marker of the wire format. *)
Lemma split_join_marker args pre :
  exists r, join_args args [SP] 0 = SP :: r /\ split_args (Some r) pre = (pre ++ args, None).
Proof.
  assert (Hh : holds_args (join_args args [SP] 0) args).
  { unfold join_args. rewrite drop_0. apply (join_args_holds args [SP] []), holds_marker. }
  assert (Hr : exists r, join_args args [SP] 0 = SP :: r).
  { unfold join_args. rewrite drop_0. clear Hh. assert (Hp : exists r, [SP] = SP :: r) by eauto.
    revert Hp. generalize [SP]. induction args as [|a args IH]; intros r0 [r ->]; simpl; [eauto|].
    apply IH. unfold append_arg. destruct a as [|c a]; [by eexists|]. apply append_chars_head; [done|by eexists]. }
  destruct Hr as [r Hr]. exists r. split; [done|]. rewrite Hr in Hh. destruct Hh as (_ & Hv & He).
  apply (run_split r args pre); [exact Hv|exact He].
Qed.

(** ** The other syntaxes *)

Lemma ceq_true c d : ceq c d = true <-> c = d.
Proof. unfold ceq. apply bool_decide_eq_true. Qed.
Lemma ceq_false c d : ceq c d = false <-> c <> d.
Proof. unfold ceq. apply bool_decide_eq_false. Qed.

Lemma Escape_cons c s q e :
  EscapeChars (c :: s) q e = (if bool_decide (c ∈ q) then [e; c] else [c]) ++ EscapeChars s q e.
Proof. done. Qed.
Lemma elem_one (c d : ascii) : bool_decide (c ∈ [d]) = ceq c d.
Proof. unfold ceq. apply bool_decide_ext, list_elem_of_singleton. Qed.

Lemma unquote_escape s acc rest :
  head rest <> Some DQUOTE ->
  unquote (EscapeChars s [DQUOTE] DQUOTE ++ DQUOTE :: rest) acc = (acc ++ s, Some rest).
Proof.
  intros Hr. revert acc. induction s as [|c s IH]; intros acc.
  - simpl. destruct rest as [|c rest]; rewrite app_nil_r; [done|]. simpl in Hr.
    by rewrite (proj2 (ceq_false c DQUOTE)) by congruence.
  - rewrite Escape_cons, elem_one. destruct (ceq c DQUOTE) eqn:Hc.
    + apply ceq_true in Hc as ->. simpl. rewrite IH. by rewrite <- app_assoc.
    + simpl. rewrite Hc, IH. by rewrite <- app_assoc.
Qed.

Lemma v2_quoted_raw s err :
  V2QuotedToV2Raw (V2RawToV2Quoted s []) [] err = Done (s, true, err) /\
  IsV2QuotedString (V2RawToV2Quoted s []) = true.
Proof.
  split; [|done]. unfold V2QuotedToV2Raw, V2RawToV2Quoted.
  change (skip_spaces ([] ++ [DQUOTE] ++ EscapeChars s [DQUOTE] DQUOTE ++ [DQUOTE]))
    with (DQUOTE :: EscapeChars s [DQUOTE] DQUOTE ++ [DQUOTE]).
  simpl. by rewrite unquote_escape.
Qed.

Lemma unwack_escape s acc : unwack (EscapeChars s [DQUOTE] BSLASH) acc = (acc ++ s, None).
Proof.
  revert acc. induction s as [|c s IH]; intros acc; [by rewrite app_nil_r|].
  rewrite Escape_cons, elem_one. destruct (ceq c DQUOTE) eqn:Hc.
  - apply ceq_true in Hc as ->. simpl. rewrite IH. by rewrite <- app_assoc.
  - simpl. rewrite Hc. destruct (ceq c BSLASH) eqn:Hb; [|rewrite IH; by rewrite <- app_assoc].
    assert (Hh : forall c2 r2, EscapeChars s [DQUOTE] BSLASH = c2 :: r2 -> ceq c2 DQUOTE = false).
    { intros c2 r2. destruct s as [|c' s]; [done|]. rewrite Escape_cons, elem_one.
      destruct (ceq c' DQUOTE) eqn:Hc'; intros [= <- _]; done. }
    destruct (EscapeChars s [DQUOTE] BSLASH) as [|c2 r2] eqn:He.
    + rewrite IH. by rewrite <- app_assoc.
    + rewrite (Hh c2 r2 eq_refl), IH. by rewrite <- app_assoc.
Qed.
Lemma wacked_not_quoted s : IsV2QuotedString (EscapeChars s [DQUOTE] BSLASH) = false.
Proof.
  unfold IsV2QuotedString. induction s as [|c s IH]; [done|]. rewrite Escape_cons, elem_one.
  destruct (ceq c DQUOTE) eqn:Hc; [by apply ceq_true in Hc as ->|]. simpl.
  destruct (isspace c); [done|]. exact Hc.
Qed.

(** *** V1 *)

Definition ustate : Type := bytes * bool * list bytes.
Definition ustep (s : ustate) (c : ascii) : ustate :=
  let '(buf, tok, l) := s in
  if argspace c then (if tok then ([], false, l ++ [buf]) else (buf, false, l))
  else (buf ++ [c], true, l).
Definition uend (s : ustate) : list bytes :=
  let '(buf, tok, l) := s in if tok then l ++ [buf] else l.

Lemma unix_loop_ustep args buf tok l :
  unix_loop args buf tok l = uend (foldl ustep (buf, tok, l) args).
Proof.
  revert buf tok l. induction args as [|c args IH]; intros buf tok l; [done|]. simpl.
  destruct (argspace c); [destruct tok|]; apply IH.
Qed.
Lemma ustep_safe w buf tok l :
  IsSafeArgV1Value w ->
  foldl ustep (buf, tok, l) w = (buf ++ w, tok || negb (bool_decide (w = [])), l).
Proof.
  revert buf tok. induction w as [|c w IH]; intros buf tok Hw.
  { simpl. by rewrite app_nil_r, orb_false_r. }
  apply andb_True in Hw as [Hc Hw]. cbn [foldl ustep].
  destruct (argspace c) eqn:Hs; [done|]. rewrite (IH _ _ Hw). simpl.
  rewrite <- app_assoc, orb_true_r. done.
Qed.

Definition nonempty_args (l : list bytes) : list bytes := filter (fun a => a <> []) l.

(** The V1 string so far, and the parser after it. *)
Definition v1_of (l0 l : list bytes) (r : bytes) : Prop :=
  head r <> Some SP /\ (r = [] -> nonempty_args l = []) /\
  exists buf tok acc, foldl ustep ([], false, l0) r = (buf, tok, acc) /\
    (tok = false -> buf = []) /\ uend (buf, tok, acc) = l0 ++ nonempty_args l.

Lemma v1_of_step l0 l r a :
  v1_of l0 l r -> IsSafeArgV1Value a -> v1_of l0 (l ++ [a]) (spaced r ++ a).
Proof.
  intros (Hh & Hnil & buf & tok & acc & Hr & Hb & He) Ha.
  assert (Hne : nonempty_args (l ++ [a]) = nonempty_args l ++ nonempty_args [a])
    by (unfold nonempty_args; by rewrite filter_app).
  assert (Hsp : foldl ustep ([], false, l0) (spaced r) = ([], false, l0 ++ nonempty_args l)).
  { destruct r as [|c r].
    - simpl. rewrite (Hnil eq_refl). by rewrite app_nil_r.
    - unfold spaced. rewrite foldl_app, Hr. simpl. rewrite <- He. destruct tok; [done|].
      by rewrite Hb. }
  split_and!.
  - destruct r as [|c r]; [|done]. simpl. destruct a as [|c a]; [done|]. simpl in Ha |- *.
    intros [= ->]. done.
  - intros Hnil'. rewrite Hne. apply app_nil in Hnil' as [Hr0 ->]. destruct r; [|done].
    by rewrite (Hnil eq_refl).
  - eexists _, _, _. rewrite foldl_app, Hsp, ustep_safe by done. split; [done|]. simpl. split.
    + intros Hd. by destruct a.
    + rewrite Hne. destruct a as [|c a]; simpl.
      * by rewrite app_nil_r.
      * by rewrite <- app_assoc.
Qed.

Lemma v1_raw_loop_spec l0 args l r err :
  v1_of l0 l r ->
  match v1_raw_loop r err args with
  | (r', true, err') => v1_of l0 (l ++ args) r' /\ err' = err /\ forallb IsSafeArgV1Value args
  | (_, false, _) => forallb IsSafeArgV1Value args = false
  end.
Proof.
  revert l r. induction args as [|a args IH]; intros l r Hr; simpl; [by rewrite app_nil_r|].
  destruct (IsSafeArgV1Value a) eqn:Ha; [|done]. fold (spaced r).
  specialize (IH (l ++ [a]) (spaced r ++ a)). rewrite <- app_assoc in IH. simpl. apply IH.
  apply v1_of_step; [done|]. by rewrite Ha.
Qed.
Lemma v1_raw_spec a l0 err :
  match GetArgsStringV1Raw a [] err with
  | (r, true, err') => head r <> Some SP /\ err' = err /\ forallb IsSafeArgV1Value (args_list a) /\
      unix_loop r [] false l0 = l0 ++ nonempty_args (args_list a)
  | (_, false, _) => forallb IsSafeArgV1Value (args_list a) = false
  end.
Proof.
  unfold GetArgsStringV1Raw. pose proof (v1_raw_loop_spec l0 (args_list a) [] [] err) as Hs.
  destruct (v1_raw_loop [] err (args_list a)) as [[r [|]] err'].
  - destruct Hs as ((Hh & _ & buf & tok & acc & Hr & _ & He) & -> & Hok).
    { split_and!; [done..|]. eexists _, _, _. split; [done|]. split; [done|]. simpl. by rewrite app_nil_r. }
    split_and!; [done..|]. by rewrite unix_loop_ustep, Hr.
  - apply Hs. split_and!; [done..|]. eexists _, _, _. split; [done|]. split; [done|]. simpl. by rewrite app_nil_r.
Qed.

(** *** Windows command lines *)

Lemma odd_double n : Nat.odd (2 * n) = false /\ Nat.odd (2 * n + 1) = true.
Proof.
  rewrite Nat.odd_mul, Nat.odd_add, Nat.odd_mul. done.
Qed.
Lemma double_div2 n : ((2 * n) / 2)%nat = n /\ ((2 * n + 1) / 2)%nat = n.
Proof.
  rewrite (Nat.mul_comm 2 n), Nat.div_mul by lia. split; [done|].
  rewrite Nat.div_add_l by lia. simpl. lia.
Qed.

(** A run of backslashes is counted. *)
Lemma win32_backslashes k q n buf st l rest :
  win32_loop (replicate k BSLASH ++ rest) (WQuoted q n) buf st l =
  win32_loop rest (WQuoted q (k + n)) buf st l.
Proof.
  revert n. induction k as [|k IH]; intros n; [done|]. simpl. rewrite IH. f_equal. f_equal. lia.
Qed.

(** The quoting loop against the parsing loop, in the middle of a run of [n] backslashes. *)
Lemma win32_quoted s n q buf st l rest :
  win32_loop (win32_quote s n ++ DQUOTE :: rest) (WQuoted q n) buf st l =
  win32_loop rest WOut (buf ++ replicate n BSLASH ++ s) st l.
Proof.
  destruct (double_div2 n) as [Hd Hd1]. revert n buf Hd Hd1.
  induction s as [|c s IH]; intros n buf Hd Hd1; cbn [win32_quote].
  - rewrite win32_backslashes. replace (n + n)%nat with (2 * n)%nat by lia. cbn [win32_loop].
    destruct (odd_double n) as [-> _]. by rewrite Hd, app_nil_r.
  - destruct (ceq c BSLASH) eqn:Hb; [|destruct (ceq c DQUOTE) eqn:Hq].
    + apply ceq_true in Hb as ->. cbn [app win32_loop]. destruct (double_div2 (S n)).
      rewrite IH by done. f_equal. f_equal. rewrite (cons_middle BSLASH (replicate n BSLASH) s).
      rewrite app_assoc. f_equal. by rewrite <- (replicate_S_end n BSLASH).
    + apply ceq_true in Hq as ->. rewrite <- app_assoc, win32_backslashes. cbn [app win32_loop].
      replace (S (n + n)) with (2 * n + 1)%nat by lia. destruct (odd_double n) as [_ ->].
      rewrite Hd1, (IH 0%nat) by done. simpl. f_equal. by rewrite <- !app_assoc.
    + cbn [app win32_loop]. rewrite Hb, Hq, (IH 0%nat) by done. simpl. f_equal. by rewrite <- !app_assoc.
Qed.

Lemma win32_plain_run w buf st l rest :
  forallb (fun c => negb (argspace c) && negb (ceq c DQUOTE)) w ->
  win32_loop (w ++ rest) WOut buf st l =
  win32_loop rest WOut (buf ++ w) (st || negb (bool_decide (w = []))) l.
Proof.
  revert buf st. induction w as [|c w IH]; intros buf st Hw.
  { simpl. by rewrite app_nil_r, orb_false_r. }
  simpl in Hw. apply andb_True in Hw as [[Hs Hq]%andb_True Hw]. cbn [app win32_loop].
  destruct (argspace c); [done|]. destruct (ceq c DQUOTE); [done|]. rewrite IH by done.
  simpl. by rewrite <- app_assoc, orb_true_r.
Qed.

(** The arguments the Windows syntax can carry. *)
Definition win32_okb (a : bytes) : bool :=
  negb (bool_decide (a = [])) && (negb (win32_plain a) || IsSafeArgV1Value a).

Lemma win32_arg_run a l rest :
  win32_okb a -> win32_loop (win32_arg false a ++ rest) WOut [] false l = win32_loop rest WOut a true l.
Proof.
  intros [Hne Ha]%andb_True. unfold win32_arg. cbn [orb]. destruct (win32_plain a) eqn:Hp.
  - rewrite win32_plain_run.
    + simpl. by rewrite (Is_true_eq_true _ Hne).
    + simpl in Ha. apply Is_true_true, forallb_forall. intros c Hc.
      unfold win32_plain in Hp. rewrite forallb_forall in Hp. specialize (Hp c Hc).
      apply Is_true_true in Ha. unfold IsSafeArgV1Value in Ha. rewrite forallb_forall in Ha.
      rewrite (Ha c Hc). destruct (ceq c DQUOTE); [|done]. by rewrite !orb_true_r in Hp.
  - rewrite <- !app_assoc. cbn [app win32_loop].
    by rewrite (win32_quoted a 0).
Qed.
Lemma win32_arg_nonnil a : win32_okb a -> win32_arg false a <> [].
Proof.
  intros [Hne _]%andb_True. unfold win32_arg. destruct (false || win32_plain a); [|done]. by intros ->.
Qed.

Abbreviation win32_join := (foldl (fun r arg => spaced r ++ win32_arg false arg)).

Lemma win32_join_app args r :
  r <> [] -> win32_join r args = r ++ concat ((fun a => SP :: win32_arg false a) <$> args).
Proof.
  revert r. induction args as [|a args IH]; intros r Hr; simpl; [by rewrite app_nil_r|].
  destruct r as [|c r]; [done|]. rewrite IH by done. simpl. by rewrite <- !app_assoc.
Qed.
Lemma win32_rest args a l :
  forallb win32_okb args ->
  win32_loop (concat ((fun a => SP :: win32_arg false a) <$> args)) WOut a true l = (l ++ a :: args, None).
Proof.
  revert a l. induction args as [|b args IH]; intros a l Hok; simpl; [done|].
  simpl in Hok. apply andb_True in Hok as [Hb Hok]. rewrite win32_arg_run, IH by done.
  by rewrite <- app_assoc.
Qed.

(** ** Round trips *)

(** C18 (roundtrip): any list of arguments, empty ones and ones with blanks or quotes included,
    written in V2 syntax (GetArgsStringV2Raw(), GetArgsStringV2Quoted()) is parsed back as the same
    list, appended to what the reader already has. *)
Theorem v2_args_roundtrip a b err :
  AppendArgsV2Raw a (Some (GetArgsStringV2Raw b [] 0)) err =
    (set_args a (args_list a ++ args_list b), true, err) /\
  AppendArgsV2Quoted a (GetArgsStringV2Quoted b []) err =
    Done (set_args a (args_list a ++ args_list b), true, err).
Proof.
  assert (Hraw : AppendArgsV2Raw a (Some (GetArgsStringV2Raw b [] 0)) err =
    (set_args a (args_list a ++ args_list b), true, err)).
  { unfold AppendArgsV2Raw, GetArgsStringV2Raw. by rewrite split_join. }
  split; [done|]. unfold AppendArgsV2Quoted, GetArgsStringV2Quoted, append_v2_quoted.
  destruct (v2_quoted_raw (GetArgsStringV2Raw b [] 0) err) as [-> ->]. simpl. by rewrite Hraw.
Qed.

(** What a V1-capable format keeps of a list: all of it as soon as one argument forces the V2
    syntax, else its non-empty arguments. *)
Definition wire_args (l : list bytes) : list bytes :=
  if forallb IsSafeArgV1Value l then nonempty_args l else l.

(** The formats that prefer V1: the wire format (GetArgsStringV1or2Raw(), read by
    AppendArgsV1or2Raw()) and the submit-file format (GetArgsStringV1WackedOrV2Quoted(), read by
    AppendArgsV1WackedOrV2Quoted()).  Arguments with blanks, quotes or backslashes come back
    unchanged.  Empty arguments come back only if some other argument contains a blank: a list
    without blanks is sent in V1, which cannot express them, and they are silently lost. *)
Theorem v1_preferring_roundtrip a b err :
  v1_syntax a = UNIX_ARGV1_SYNTAX ->
  AppendArgsV1or2Raw a (Some (GetArgsStringV1or2Raw b [])) err =
    (set_args a (args_list a ++ wire_args (args_list b)), true, err) /\
  AppendArgsV1WackedOrV2Quoted a (GetArgsStringV1WackedOrV2Quoted b []) err =
    Done (set_args a (args_list a ++ wire_args (args_list b)), true, err).
Proof.
  intros Hsyn. pose proof (v1_raw_spec b (args_list a) []) as Hv1. unfold wire_args.
  unfold GetArgsStringV1or2Raw, GetArgsStringV1WackedOrV2Quoted.
  destruct (GetArgsStringV1Raw b [] []) as [[r [|]] e'].
  - destruct Hv1 as (Hh & _ & Hok & Hu). rewrite (Is_true_eq_true _ Hok).
    assert (Hraw : forall e, AppendArgsV1Raw a (Some r) e =
      (set_args a (args_list a ++ nonempty_args (args_list b)), true, e)).
    { intros e. unfold AppendArgsV1Raw. rewrite Hsyn. unfold AppendArgsV1Raw_unix. by rewrite Hu. }
    split.
    + unfold AppendArgsV1or2Raw. destruct r as [|c r]; [by rewrite Hraw|]. simpl in Hh.
      unfold RAW_V2_ARGS_MARKER. rewrite (proj2 (ceq_false c SP)) by congruence. by rewrite Hraw.
    + unfold AppendArgsV1WackedOrV2Quoted, V1RawToV1Wacked, V1WackedToV1Raw. cbn [app].
      rewrite wacked_not_quoted, unwack_escape. cbn [app]. by rewrite Hraw.
  - rewrite Hv1. split.
    + destruct (split_join_marker (args_list b) (args_list a)) as (s & Hs & Hp).
      unfold GetArgsStringV2Raw. change (take (length []) r ++ [RAW_V2_ARGS_MARKER]) with [SP].
      rewrite Hs. cbn [AppendArgsV1or2Raw]. unfold RAW_V2_ARGS_MARKER.
      rewrite (proj2 (ceq_true SP SP)) by done. unfold AppendArgsV2Raw. by rewrite Hp.
    + unfold AppendArgsV1WackedOrV2Quoted, GetArgsStringV2Quoted, append_v2_quoted.
      destruct (v2_quoted_raw (GetArgsStringV2Raw b [] 0) err) as [-> ->].
      unfold AppendArgsV2Raw, GetArgsStringV2Raw. by rewrite split_join.
Qed.

(** A Windows command line made by GetArgsStringWin32() is split by the parser
    AppendArgsV1Raw_win32() into the same arguments, whatever quotes and runs of backslashes they
    contain; the arguments must not be empty, and one with a line break must also contain a
    character that makes it quoted. *)
Theorem win32_args_roundtrip a b err :
  input_was_unknown_platform_v1 b = false -> forallb win32_okb (args_list b) ->
  AppendArgsV1Raw_win32 a (GetArgsStringWin32 b [] 0) err =
  (set_args a (args_list a ++ args_list b), true, err).
Proof.
  intros Hv Hok. unfold AppendArgsV1Raw_win32, GetArgsStringWin32. rewrite Hv, drop_0.
  change (foldl _ [] (args_list b)) with (win32_join [] (args_list b)).
  destruct (args_list b) as [|x l]; [simpl; by rewrite app_nil_r|].
  apply andb_True in Hok as [Hx Hok]. cbn [foldl]. simpl spaced. cbn [app].
  rewrite win32_join_app by by apply win32_arg_nonnil. rewrite win32_arg_run, win32_rest by done. done.
Qed.

(** ** Arguments through a job ad *)

Definition no_nul (s : bytes) : bool := forallb (fun c => negb (ceq c NUL)) s.

Lemma no_nul_app s s' : no_nul (s ++ s') = no_nul s && no_nul s'.
Proof. apply forallb_app. Qed.
Lemma until_nul_id s : no_nul s -> until_nul s = s.
Proof.
  induction s as [|c s IH]; simpl; [done|]. unfold ceq. intros [Hc Hs]%andb_True.
  destruct (bool_decide (c = NUL)); [done|]. by rewrite IH.
Qed.
Lemma no_nul_removelast s : no_nul s -> no_nul (removelast s).
Proof.
  destruct (last s) as [c|] eqn:Hl; [|by apply last_None in Hl as ->].
  apply last_Some in Hl as [s' ->]. rewrite removelast_last, no_nul_app. by intros [? _]%andb_True.
Qed.
Lemma append_char_no_nul r c : no_nul r -> c <> NUL -> no_nul (append_char r c).
Proof.
  intros Hr Hc. unfold append_char. assert (Hcc : no_nul [c]).
  { simpl. unfold ceq. by rewrite bool_decide_false. }
  destruct (_ || _); [|rewrite no_nul_app; by apply andb_True].
  set (r1 := match last r with Some q => _ | None => _ end). assert (H1 : no_nul r1).
  { subst r1. destruct (last r) as [q|]; [destruct (ceq q SQUOTE); [by apply no_nul_removelast|]|];
      rewrite no_nul_app; by apply andb_True. }
  change [c; SQUOTE] with ([c] ++ [SQUOTE]).
  assert (Hq : no_nul [SQUOTE]) by done.
  destruct (ceq c SQUOTE); rewrite !no_nul_app, !andb_True; tauto.
Qed.
Lemma join_args_no_nul args r :
  no_nul r -> forallb no_nul args -> no_nul (foldl (fun r a => append_arg a r) r args).
Proof.
  revert r. induction args as [|a args IH]; intros r Hr Ha; simpl in *; [done|].
  apply andb_True in Ha as [Ha Hargs]. apply IH; [|done]. unfold append_arg. fold (spaced r).
  assert (Hs : no_nul (spaced r)).
  { unfold spaced. destruct r; [done|]. rewrite no_nul_app. by apply andb_True. }
  destruct a as [|c a]; [rewrite no_nul_app; by apply andb_True|]. revert Hs Ha.
  generalize (spaced r). generalize (c :: a). clear.
  intros b. induction b as [|c b IH]; intros r Hr Hb; [done|].
  simpl in Hb. apply andb_True in Hb as [Hc Hb]. apply IH; [|done]. apply append_char_no_nul; [done|].
  by intros ->.
Qed.

Section ClassAdArgsLaws.
Context `{L : ExprLang} `{HL : !ExprLangLaws L}.

(** Arguments stored in a job ad for a version that understands V2 (or when no
    version is given) are read back from that ad as the same list, whatever arguments the ad
    held before. *)
Theorem ad_args_roundtrip a b ad v err :
  match v with Some v => negb (CondorVersionRequiresV1 v) | None => negb (input_was_unknown_platform_v1 b) end ->
  forallb no_nul (args_list b) ->
  exists ad', InsertArgsIntoClassAd b ad v err = (ad', true, err) /\
    AppendArgsFromClassAd a ad' err = (set_args a (args_list a ++ args_list b), true, err).
Proof.
  intros Hv Hn. unfold InsertArgsIntoClassAd.
  assert (Hreq : exists x, match v with
    | Some v => (CondorVersionRequiresV1 v, true)
    | None => (input_was_unknown_platform_v1 b, false) end = (false, x)).
  { destruct v as [v|]; [destruct (CondorVersionRequiresV1 v)|destruct (input_was_unknown_platform_v1 b)];
      by eauto. }
  destruct Hreq as [x ->]. cbn [negb]. set (v2 := GetArgsStringV2Raw b [] 0).
  set (ad1 := Assign ad ATTR_JOB_ARGUMENTS2 v2).
  eexists. split; [reflexivity|]. set (ad2 := if bool_decide _ then _ else ad1).
  assert (Hlk : Lookup ad2 ATTR_JOB_ARGUMENTS2 = Some (StringLiteral v2)).
  { transitivity (Lookup ad1 ATTR_JOB_ARGUMENTS2).
    - subst ad2. case_bool_decide; [|done]. by rewrite Delete_lookup, decide_False.
    - subst ad1. unfold Assign, InsertAttr. by rewrite Insert_lookup, decide_True. }
  unfold AppendArgsFromClassAd, LookupString, EvaluateAttrString. rewrite Hlk, evaluate_literal. simpl.
  rewrite until_nul_id.
  - subst v2. unfold AppendArgsV2Raw, GetArgsStringV2Raw. by rewrite split_join.
  - subst v2. unfold GetArgsStringV2Raw, join_args. rewrite drop_0. by apply join_args_no_nul.
Qed.
End ClassAdArgsLaws.
