(* ===== verification/Env.v ===== *)
(** Job environments: condor_utils/env.cpp.

    An environment is a hash table of variables.  It is written and read in the syntaxes of the
    argument lists (ArgList): V1 (entries separated by a character that depends on the platform, no
    quoting), V2 (white space and single quotes) and V2 in double quotes; it travels in job ads and,
    on Windows, becomes the sorted block that CreateProcess() wants.

    Strings are passed as in ArgList; a [MyString *] for an error message may be NULL ([None]). *)

From Stdlib Require Import Sorted.
From S2P Require Import Prelude HashTable ClassAd ArgList.

Open Scope Z_scope.

(** The platform the code is compiled for. *)
Class Platform := WIN32 : bool.

(** MyStringHash(): MyString::Hash() *)
Definition MyStringHash (s : bytes) : Z :=
  foldl (fun result c => (result * 32 + result + Z.of_nat (nat_of_ascii c)) mod 2 ^ 32) 0 s.

Definition unix_env_delim : ascii := ";"%char.
Definition windows_env_delim : ascii := "|"%char.

(** A variable that stands for an unexpanded dollar-dollar macro has this value. *)
Definition NO_ENVIRONMENT_VALUE : bytes := ascii_of_nat <$> [1; 2; 3; 4; 5; 6]%nat.
Definition RAW_V2_ENV_MARKER : ascii := SP.

(** toupper_string_less: std::lexicographical_compare() of the characters in upper case. *)
Fixpoint toupper_string_less (s1 s2 : bytes) : bool :=
  match s1, s2 with
  | _, [] => false
  | [], _ :: _ => true
  | c1 :: r1, c2 :: r2 =>
      let n1 := nat_of_ascii (toupper c1) in
      let n2 := nat_of_ascii (toupper c2) in
      if (n1 <? n2)%nat then true else if (n2 <? n1)%nat then false else toupper_string_less r1 r2
  end.
(** A std::set with that order is the list of its elements. *)
Definition set_erase (var : bytes) (l : list bytes) : list bytes :=
  filter (fun x => toupper_string_less x var || toupper_string_less var x = true) l.
Fixpoint set_insert (var : bytes) (l : list bytes) : list bytes :=
  match l with
  | [] => [var]
  | x :: l' =>
      if toupper_string_less var x then var :: l
      else if toupper_string_less x var then x :: set_insert var l' else l
  end.

(** [strchr(expr,'=')]: what is before the first equal sign and what follows it. *)
Fixpoint split_equal (s : bytes) : option (bytes * bytes) :=
  match s with
  | [] => None
  | c :: s' =>
      if ceq c "="%char then Some ([], s')
      else match split_equal s' with Some (n, v) => Some (c :: n, v) | None => None end
  end.
(** [strstr(expr,"$$")] *)
Fixpoint has_dollars (s : bytes) : bool :=
  match s with
  | c :: ((d :: _) as s') => (ceq c "$"%char && ceq d "$"%char) || has_dollars s'
  | _ => false
  end.

(** IsSafeEnvV1Value() and IsSafeEnvV2Value(): strcspn() goes to the end of the string. *)
Definition IsSafeEnvV2Value (str : bytes) : bool := forallb (fun c => negb (ceq c LF)) str.

(** ** class Env *)

Record Env := mkEnv {
  _envTable : HT.HashTable bytes bytes;
  input_was_v1 : bool;
  m_sorted_varnames : list bytes   (** on Windows only *)
}.
#[export] Instance rebuild_Env : Rebuild Env := fun e => mkEnv (_envTable e) (input_was_v1 e) (m_sorted_varnames e).
#[export] Instance set_envTable : Setter _envTable := ltac:(solve_setter).
#[export] Instance set_input_was_v1 : Setter input_was_v1 := ltac:(solve_setter).
#[export] Instance set_sorted_varnames : Setter m_sorted_varnames := ltac:(solve_setter).

Definition new_Env : Env := mkEnv (HT.initialize HT.updateDuplicateKeys) false [].

Definition EnvCount (e : Env) : Z := HT.numElems (_envTable e).
Definition GetEnv (e : Env) (var : bytes) : option bytes := HT.lookup MyStringHash (_envTable e) var.

(** [startIterations()] and [while(iterate(var,val))], up to an iteration that leaves the loop: the
    table, the state and whether the loop ran to its end.  [fuel] is one more than the number of
    elements. *)
Section loops.
Context {S : Type}.
Variable body : S -> bytes -> bytes -> outcome (S * bool).
Fixpoint while_iterate (fuel : nat) (t : HT.HashTable bytes bytes) (s : S) : outcome (HT.HashTable bytes bytes * S * bool) :=
  match fuel with
  | O => EXCEPT "more elements than the table counts"
  | Datatypes.S fuel' =>
      match HT.iterate t with
      | None => EXCEPT "freed bucket"
      | Some (t', None) => Done (t', s, true)
      | Some (t', Some (var, val)) =>
          let! (s', go) := body s var val in
          if (go : bool) then while_iterate fuel' t' s' else Done (t', s', false)
      end
  end%outcome.
Definition for_entries (t : HT.HashTable bytes bytes) (s : S) : outcome (HT.HashTable bytes bytes * S * bool) :=
  while_iterate (Datatypes.S (Z.to_nat (HT.numElems t))) (HT.startIterations t) s.
End loops.

(** The characters ReadFromDelimitedString() strips, and an entry up to its delimiter. *)
Fixpoint skip_argspace (s : bytes) : bytes :=
  match s with
  | c :: s' => if argspace c then skip_argspace s' else s
  | [] => []
  end.

Definition add_error (msg : bytes) (error_msg : option bytes) : option bytes := AddErrorMessage msg <$> error_msg.

Section platform.
Context `{Platform}.

Definition env_delimiter : ascii := if WIN32 then windows_env_delim else unix_env_delim.

Definition IsSafeEnvV1Value (str : bytes) (delim : ascii) : bool :=
  let delim := if ceq delim NUL then env_delimiter else delim in
  forallb (fun c => negb (ceq c delim || ceq c LF)) str.

(** [!strncmp(opsys,"WIN",3)] *)
Definition GetEnvV1Delimiter (opsys : option bytes) : ascii :=
  match opsys with
  | None => env_delimiter
  | Some o => if bool_decide (take 3 o = s2b "WIN") then windows_env_delim else unix_env_delim
  end.

Definition EnvClear (e : Env) : Env :=
  let e := e <| _envTable ::= HT.clear |> in if WIN32 then e <| m_sorted_varnames := [] |> else e.

Definition SetEnv (e : Env) (var val : bytes) : outcome (Env * bool) :=
  match var with
  | [] => Done (e, false)
  | _ =>
      match HT.insert MyStringHash (_envTable e) var val with
      | (t, 0) =>
          let e' := e <| _envTable := t |> in
          Done (if WIN32 then e' <| m_sorted_varnames ::= fun l => set_insert var (set_erase var l) |> else e', true)
      | _ => EXCEPT "Assertion ERROR on (ret)"
      end
  end.

Definition SetEnvWithErrorMessage (e : Env) (nameValueExpr : bytes) (error_msg : option bytes)
  : outcome (Env * bool * option bytes) :=
  match nameValueExpr with
  | [] => Done (e, false, error_msg)
  | expr =>
      match split_equal expr with
      | None =>
          if has_dollars expr then
            (let! (e', _) := SetEnv e expr NO_ENVIRONMENT_VALUE in Done (e', true, error_msg))%outcome
          else Done (e, false,
                 add_error (s2b "ERROR: Missing '=' after environment variable '" ++ expr ++ s2b "'.") error_msg)
      | Some ([], _) => Done (e, false, add_error (s2b "ERROR: missing variable in '" ++ expr ++ s2b "'.") error_msg)
      | Some (name, value) => (let! (e', ok) := SetEnv e name value in Done (e', ok, error_msg))%outcome
      end
  end.

(** *** Reading *)

(** ReadFromDelimitedString() after the white space. *)
Fixpoint read_entry (input : bytes) : bytes * bytes :=
  match input with
  | [] => ([], [])
  | c :: rest =>
      if ceq c LF || ceq c env_delimiter then ([], rest)
      else let '(output, r) := read_entry rest in (c :: output, r)
  end.
Definition ReadFromDelimitedString (input : bytes) : bytes * bytes := read_entry (skip_argspace input).

(** The loop of MergeFromV1Raw().  Each turn takes a character: [fuel] is the length of the input. *)
Fixpoint merge_v1_loop (fuel : nat) (e : Env) (input : bytes) (error_msg : option bytes) : outcome (Env * bool * option bytes) :=
  match input, fuel with
  | [], _ => Done (e, true, error_msg)
  | _, O => EXCEPT "the input did not get shorter"
  | _, Datatypes.S fuel' =>
      let '(output, rest) := ReadFromDelimitedString input in
      match output with
      | [] => merge_v1_loop fuel' e rest error_msg
      | _ =>
          let! (e', ok, err) := SetEnvWithErrorMessage e output error_msg in
          if (ok : bool) then merge_v1_loop fuel' e' rest err else Done (e', false, err)
      end
  end%outcome.
Definition MergeFromV1Raw (e : Env) (delimitedString : option bytes) (error_msg : option bytes) : outcome (Env * bool * option bytes) :=
  let e := e <| input_was_v1 := true |> in
  match delimitedString with
  | None => Done (e, true, error_msg)
  | Some s => merge_v1_loop (length s) e s error_msg
  end.

(** SetEnvWithErrorMessage() for each entry until one fails. *)
Fixpoint set_all (e : Env) (l : list bytes) (error_msg : option bytes) : outcome (Env * bool * option bytes) :=
  match l with
  | [] => Done (e, true, error_msg)
  | env_entry :: l' =>
      let! (e', ok, err) := SetEnvWithErrorMessage e env_entry error_msg in
      if (ok : bool) then set_all e' l' err else Done (e', false, err)
  end%outcome.
Definition MergeFromV2Raw (e : Env) (delimitedString : option bytes) (error_msg : option bytes) : outcome (Env * bool * option bytes) :=
  match split_args delimitedString [] with
  | (_, Some msg) => Done (e, false, (fun _ => msg) <$> error_msg)
  | (env_list, None) => set_all e env_list error_msg
  end.

(** The V2 string inside the double quotes. *)
Definition merge_v2_quoted (e : Env) (s : bytes) (error_msg : option bytes) : outcome (Env * bool * option bytes) :=
  match V2QuotedToV2Raw s [] (default [] error_msg) with
  | EXCEPT x => EXCEPT x
  | Done (_, false, err) => Done (e, false, (fun _ => err) <$> error_msg)
  | Done (v2, true, err) => MergeFromV2Raw e (Some v2) ((fun _ => err) <$> error_msg)
  end.
Definition MergeFromV1RawOrV2Quoted (e : Env) (delimitedString : option bytes) (error_msg : option bytes)
  : outcome (Env * bool * option bytes) :=
  match delimitedString with
  | None => Done (e, true, error_msg)
  | Some s => if IsV2QuotedString s then merge_v2_quoted e s error_msg else MergeFromV1Raw e (Some s) error_msg
  end.
Definition MergeFromV2Quoted (e : Env) (delimitedString : option bytes) (error_msg : option bytes)
  : outcome (Env * bool * option bytes) :=
  match delimitedString with
  | None => Done (e, true, error_msg)
  | Some s =>
      if IsV2QuotedString s then merge_v2_quoted e s error_msg
      else Done (e, false, add_error (s2b "Expecting a double-quoted environment string (V2 format).") error_msg)
  end.
Definition MergeFromV1or2Raw (e : Env) (delimitedString : option bytes) (error_msg : option bytes)
  : outcome (Env * bool * option bytes) :=
  match delimitedString with
  | None => Done (e, true, error_msg)
  | Some ((c :: _) as s) =>
      if ceq c RAW_V2_ENV_MARKER then MergeFromV2Raw e (Some s) error_msg else MergeFromV1Raw e (Some s) error_msg
  | Some [] => MergeFromV1Raw e (Some []) error_msg
  end.

(** MergeFrom() of an array of strings: an empty string ends it, bad entries are skipped. *)
Fixpoint MergeFrom_array (e : Env) (stringArray : list bytes) : outcome (Env * bool) :=
  match stringArray with
  | [] | [] :: _ => Done (e, true)
  | s :: l =>
      let! (e', ok, _) := SetEnvWithErrorMessage e s None in
      let! (e'', all_ok) := MergeFrom_array e' l in
      Done (e'', (ok && all_ok)%bool)
  end%outcome.
(** MergeFrom() of a block of strings, each with its NUL: the strings before the first empty one. *)
Fixpoint MergeFrom_block (e : Env) (env_str : list bytes) : outcome Env :=
  match env_str with
  | [] | [] :: _ => Done e
  | s :: l => let! (e', _, _) := SetEnvWithErrorMessage e s None in MergeFrom_block e' l
  end%outcome.
(** MergeFrom() of another environment, which has been iterated over afterwards. *)
Definition MergeFrom_Env (e env : Env) : outcome (Env * Env) :=
  (let! (t, e', _) := for_entries (fun e var val =>
     let! (e', ok) := SetEnv e var val in
     if (ok : bool) then Done (e', true) else EXCEPT "Assertion ERROR on (SetEnv(var,val))") (_envTable env) e in
   Done (e', env <| _envTable := t |>))%outcome.

(** Import() of the environment of the process, with the filter of a derived class. *)
Fixpoint Import (ImportFilter : bytes -> bytes -> bool) (e : Env) (my_environ : list bytes) : outcome Env :=
  match my_environ with
  | [] => Done e
  | p :: l =>
      match split_equal p with
      | None | Some ([], _) => Import ImportFilter e l
      | Some (varname, value) =>
          if ImportFilter varname value then
            let! (e', ok) := SetEnv e varname value in
            if (ok : bool) then Import ImportFilter e' l else EXCEPT "Assertion ERROR on (ret)"
          else Import ImportFilter e l
      end
  end%outcome.

(** *** Writing *)

(** WriteToDelimitedString(): no character is escaped. *)
Definition WriteToDelimitedString (input output : bytes) : bytes := output ++ input.

(** An entry as the writers put it. *)
Definition has_value (val : bytes) : bool := negb (streq val NO_ENVIRONMENT_VALUE).
Definition entry_text (var val : bytes) : bytes := if has_value val then var ++ s2b "=" ++ val else var.

(** One turn of getDelimitedStringV1Raw(); the state is the result, [emptyString] and the message. *)
Definition v1_turn (delim : ascii) (s : bytes * bool * option bytes) (var val : bytes)
  : outcome (bytes * bool * option bytes * bool) :=
  let '(result, emptyString, error_msg) := s in
  if negb (IsSafeEnvV1Value var delim) || negb (IsSafeEnvV1Value val delim) then
    Done (result, emptyString,
      add_error (s2b "Environment entry is not compatible with V1 syntax: " ++ var ++ s2b "=" ++ val) error_msg, false)
  else
    let result := if emptyString then result else result ++ [delim] in
    let result := WriteToDelimitedString var result in
    let result := if has_value val then WriteToDelimitedString val (WriteToDelimitedString (s2b "=") result) else result in
    Done (result, false, error_msg, true).

(** The methods are const, but the iterator of the table moves. *)
Definition getDelimitedStringV1Raw (e : Env) (result : bytes) (error_msg : option bytes) (delim : ascii)
  : outcome (Env * bytes * bool * option bytes) :=
  let delim := if ceq delim NUL then env_delimiter else delim in
  (let! (t, (result', _, err), ok) := for_entries (v1_turn delim) (_envTable e) (result, true, error_msg) in
   Done (e <| _envTable := t |>, result', ok, err))%outcome.

Definition getDelimitedStringV2Raw (e : Env) (result : bytes) (mark_v2 : bool) : outcome (Env * bytes) :=
  (let! (t, env_list, _) := for_entries (fun l var val => Done (l ++ [entry_text var val], true)) (_envTable e) [] in
   Done (e <| _envTable := t |>, join_args env_list (if mark_v2 then result ++ [RAW_V2_ENV_MARKER] else result) 0))%outcome.
Definition getDelimitedStringForDisplay (e : Env) (result : bytes) : outcome (Env * bytes) := getDelimitedStringV2Raw e result false.
Definition getDelimitedStringV2Quoted (e : Env) (result : bytes) : outcome (Env * bytes) :=
  (let! (e', v2_raw) := getDelimitedStringV2Raw e [] false in Done (e', V2RawToV2Quoted v2_raw result))%outcome.
Definition getDelimitedStringV1or2Raw (e : Env) (result : bytes) (v1_delim : ascii) : outcome (Env * bytes) :=
  (let! (e', v1, ok, _) := getDelimitedStringV1Raw e result None v1_delim in
   if (ok : bool) then Done (e', v1) else getDelimitedStringV2Raw e' (take (length result) v1) true)%outcome.
Definition getDelimitedStringV1RawOrV2Quoted (e : Env) (result : bytes) : outcome (Env * bytes) :=
  (let! (e', v1, ok, _) := getDelimitedStringV1Raw e result None NUL in
   if (ok : bool) then Done (e', v1) else getDelimitedStringV2Quoted e' [])%outcome.

(** The array for exec(), less its final NULL. *)
Definition getStringArray (e : Env) : outcome (Env * list bytes) :=
  (let! (t, (array, _), _) := for_entries (fun (s : list bytes * Z) var val =>
     let '(array, i) := s in
     if EnvCount e <=? i then EXCEPT "Assertion ERROR on (i < numVars)"
     else match var with
          | [] => EXCEPT "Assertion ERROR on (var.Length() > 0)"
          | _ => Done (array ++ [entry_text var val], i + 1, true)
          end) (_envTable e) ([], 0) in
   Done (e <| _envTable := t |>, array))%outcome.

(** The strings of the block for CreateProcess(), each followed by a NUL; another NUL ends it. *)
Fixpoint windows_strings (e : Env) (l : list bytes) : outcome (list bytes) :=
  match l with
  | [] => Done []
  | i :: l' =>
      match HT.lookup MyStringHash (_envTable e) i with
      | None => EXCEPT "Assertion ERROR on (ret != -1)"
      | Some val => let! r := windows_strings e l' in Done ((i ++ s2b "=" ++ val) :: r)
      end
  end%outcome.
Definition getWindowsEnvironmentString (e : Env) : outcome (list bytes) := windows_strings e (m_sorted_varnames e).

(** *** Environments in job ads *)

Section ads.
Context `{L : ExprLang}.

Definition ATTR_JOB_ENVIRONMENT1 : bytes := s2b "Env".
Definition ATTR_JOB_ENVIRONMENT1_DELIM : bytes := s2b "EnvDelim".
Definition ATTR_JOB_ENVIRONMENT2 : bytes := s2b "Environment".

Definition MergeFrom_ad (e : Env) (ad : ClassAd) (error_msg : option bytes) : outcome (Env * bool * option bytes) :=
  match LookupString ad ATTR_JOB_ENVIRONMENT2 with
  | Some env2 => MergeFromV2Raw e (Some env2) error_msg
  | None =>
      match LookupString ad ATTR_JOB_ENVIRONMENT1 with
      | Some env1 => (let! (e', ok, err) := MergeFromV1Raw e (Some env1) error_msg in Done (e' <| input_was_v1 := true |>, ok, err))%outcome
      | None => Done (e, true, error_msg)
      end
  end.

Definition getDelimitedStringV1or2Raw_ad (e : Env) (ad : ClassAd) (result : bytes) (error_msg : option bytes)
  : outcome (Env * bytes * bool * option bytes) :=
  (let! (e', ok, err) := MergeFrom_ad (EnvClear e) ad error_msg in
   if negb ok then Done (e', result, false, err)
   else
     let delim := match LookupString ad ATTR_JOB_ENVIRONMENT1_DELIM with
                  | Some lookup_delim => default NUL (head lookup_delim)
                  | None => env_delimiter
                  end in
     let! (e'', r) := getDelimitedStringV1or2Raw e' result delim in Done (e'', r, true, err))%outcome.

(** The part of InsertEnvIntoClassAd() that writes the V1 attributes. *)
Definition insert_env1 (e : Env) (ad : ClassAd) (has_env2 : bool) (error_msg opsys : option bytes)
  : outcome (Env * ClassAd * bool * option bytes) :=
  let lookup_delim := match opsys with Some _ => None | None => LookupString ad ATTR_JOB_ENVIRONMENT1_DELIM end in
  let delim := match opsys, lookup_delim with
               | Some _, _ => GetEnvV1Delimiter opsys
               | None, Some d => default NUL (head d)
               | None, None => env_delimiter
               end in
  let ad := match lookup_delim with None => Assign ad ATTR_JOB_ENVIRONMENT1_DELIM [delim] | Some _ => ad end in
  (let! (e', env1, env1_success, err) := getDelimitedStringV1Raw e [] error_msg delim in
   if (env1_success : bool) then Done (e', Assign ad ATTR_JOB_ENVIRONMENT1 env1, true, err)
   else if has_env2 then Done (e', Assign ad ATTR_JOB_ENVIRONMENT1 (s2b "ENVIRONMENT_CONVERSION_ERROR"), true, err)
   else Done (e', ad, false, add_error (s2b "Failed to convert to target environment syntax.") err))%outcome.

Definition InsertEnvIntoClassAd (e : Env) (ad : ClassAd) (error_msg opsys : option bytes) (condor_version : option CondorVersionInfo)
  : outcome (Env * ClassAd * bool * option bytes) :=
  let has_env1 := bool_decide (is_Some (Lookup ad ATTR_JOB_ENVIRONMENT1)) in
  let has_env2 := bool_decide (is_Some (Lookup ad ATTR_JOB_ENVIRONMENT2)) in
  let requires_env1 := match condor_version with Some v => CondorVersionRequiresV1 v | None => false end in
  let ad := if requires_env1 && has_env2 then (Delete ad ATTR_JOB_ENVIRONMENT2).1 else ad in
  (let! (e, ad) :=
     (if (has_env2 || negb has_env1) && negb requires_env1 then
        let! (e', env2) := getDelimitedStringV2Raw e [] false in Done (e', Assign ad ATTR_JOB_ENVIRONMENT2 env2)
      else Done (e, ad)) in
   if has_env1 || requires_env1 then insert_env1 e ad has_env2 error_msg opsys
   else Done (e, ad, true, error_msg))%outcome.
End ads.
End platform.

(** ** Iterating over the variables *)

(** The loop over a list. *)
Fixpoint each {S} (body : S -> bytes -> bytes -> outcome (S * bool)) (l : list (bytes * bytes)) (s : S) : outcome (S * bool) :=
  match l with
  | [] => Done (s, true)
  | (var, val) :: l' =>
      let! (s', go) := body s var val in if (go : bool) then each body l' s' else Done (s', false)
  end%outcome.

Definition envwf (t : HT.HashTable bytes bytes) : Prop := HT.wf MyStringHash (HT.startIterations t).

Lemma while_iterate_each {S} (body : S -> bytes -> bytes -> outcome (S * bool)) fuel t s :
  HT.wf MyStringHash t -> (length (HT.remaining t) < fuel)%nat ->
  exists n i, while_iterate body fuel t s =
    (let! (s', ok) := each body (HT.entry <$> HT.remaining t) s in Done (HT.set_cursor t n i, s', ok))%outcome.
Proof.
  revert t s. induction fuel as [|fuel IH]; intros t s Hwf Hlen; [lia|].
  pose proof (HT.iterate_spec MyStringHash t Hwf) as Hi. simpl. destruct (HT.remaining t) as [|b r].
  - rewrite Hi. by exists (-1), None.
  - destruct Hi as (n & -> & Hw & Hr). simpl. destruct (body s _ _) as [[s' [|]]|e]; simpl.
    + destruct (IH _ s' Hw) as (n' & i & ->); [rewrite Hr; simpl in Hlen; lia|]. rewrite Hr. by exists n', i.
    + by eexists _, _.
    + by exists n, None.
Qed.

Lemma for_entries_each {S} (body : S -> bytes -> bytes -> outcome (S * bool)) t s :
  envwf t ->
  exists n i, for_entries body t s =
    (let! (s', ok) := each body (HT.entries t) s in Done (HT.set_cursor t n i, s', ok))%outcome.
Proof.
  intros Hwf. destruct (while_iterate_each body (Datatypes.S (Z.to_nat (HT.numElems t))) (HT.startIterations t) s Hwf) as (n & i & E).
  - unfold HT.remaining; simpl. rewrite drop_0. pose proof (HT.wf_num _ _ Hwf) as Hn. simpl in Hn. rewrite Hn. unfold HT.contents. simpl. lia.
  - exists n, i. unfold for_entries. rewrite E. unfold HT.remaining, HT.entries, HT.contents; simpl. by rewrite drop_0.
Qed.

(** ** The map an environment stands for *)

Notation env := (gmap bytes bytes).

Record env_rep (e : Env) (m : env) : Prop := mkEnvRep {
  er_wf : envwf (_envTable e);
  er_unique : HT.unique (_envTable e);
  er_dup : HT.duplicateKeyBehavior (_envTable e) = HT.updateDuplicateKeys;
  er_map : HT.to_map (_envTable e) = m;
  er_names : m !! [] = None
}.

Lemma rep_cursor e m n i : env_rep e m -> env_rep (e <| _envTable := HT.set_cursor (_envTable e) n i |>) m.
Proof. intros [H1 H2 H3 H4 H5]. by split. Qed.
Lemma rep_same_table e e' m : _envTable e' = _envTable e -> env_rep e m -> env_rep e' m.
Proof. intros E [H1 H2 H3 H4 H5]. split; by rewrite ?E. Qed.
Lemma new_Env_rep : env_rep new_Env ∅.
Proof. destruct (HT.initialize_wf MyStringHash (Value := bytes) HT.updateDuplicateKeys) as (H1 & H2 & _). by split. Qed.

Lemma insert_rewound (t : HT.HashTable bytes bytes) k v :
  (HT.insert MyStringHash (HT.startIterations t) k v).2 = (HT.insert MyStringHash t k v).2 /\
  HT.startIterations (HT.insert MyStringHash (HT.startIterations t) k v).1 = HT.startIterations (HT.insert MyStringHash t k v).1.
Proof.
  unfold HT.insert, HT.chain, HT.addItem. simpl. unfold HT.chain. simpl.
  destruct (HT.duplicateKeyBehavior t); try destruct (HT.find_bucket _ _);
    unfold HT.needs_resizing; simpl; try (by split); (by case_match).
Qed.

Lemma rep_lookup e m var : env_rep e m -> GetEnv e var = m !! var.
Proof.
  intros [H1 H2 _ <- _]. unfold GetEnv. change (HT.lookup MyStringHash (_envTable e) var) with (HT.lookup MyStringHash (HT.startIterations (_envTable e)) var).
  by rewrite HT.lookup_to_map.
Qed.
Lemma rep_count e m : env_rep e m -> EnvCount e = Z.of_nat (size m).
Proof.
  intros [H1 H2 _ <- _]. unfold EnvCount. pose proof (HT.wf_num _ _ H1) as Hn. simpl in Hn. rewrite Hn.
  unfold HT.to_map. etransitivity; [|symmetry; apply f_equal, (map_size_list_to_map (M := gmap bytes)); rewrite HT.fst_entries; exact H2].
  unfold HT.entries. by rewrite length_fmap.
Qed.
Lemma rep_entries e m : env_rep e m ->
  NoDup (HT.entries (_envTable e)).*1 /\ (list_to_map (HT.entries (_envTable e)) : env) = m /\
  (forall k v, (k, v) ∈ HT.entries (_envTable e) <-> m !! k = Some v).
Proof.
  intros [_ H2 _ <- _]. rewrite HT.fst_entries. split_and!; [done|done|]. intros k v.
  unfold HT.to_map. apply elem_of_list_to_map. by rewrite HT.fst_entries.
Qed.

(** SetEnv() of an assignment, and of a list of them. *)
Definition assign (m : env) (expr : bytes) : option env :=
  match split_equal expr with
  | None => if has_dollars expr then Some (<[expr := NO_ENVIRONMENT_VALUE]> m) else None
  | Some ([], _) => None
  | Some (name, value) => Some (<[name := value]> m)
  end.
Fixpoint assign_all (m : env) (l : list bytes) : env * bool :=
  match l with
  | [] => (m, true)
  | x :: l' => match assign m x with Some m' => assign_all m' l' | None => (m, false) end
  end.

Section laws.
Context `{Platform}.

Lemma SetEnv_rep e m var val : env_rep e m -> var <> [] -> exists e', SetEnv e var val = Done (e', true) /\ env_rep e' (<[var := val]> m).
Proof.
  intros [H1 H2 H3 H4 H5] Hv. unfold SetEnv. destruct var as [|c var]; [done|].
  destruct (insert_rewound (_envTable e) (c :: var) val) as [Er Et].
  pose proof (HT.insert_spec MyStringHash (HT.startIterations (_envTable e)) (c :: var) val H1 H2) as Hi.
  destruct (HT.insert MyStringHash (HT.startIterations (_envTable e)) (c :: var) val) as [t0 r0].
  destruct (HT.insert MyStringHash (_envTable e) (c :: var) val) as [t r]. simpl in *.
  destruct Hi as (Hw & Hu & _ & Hd & Hm); [by rewrite H3|].
  rewrite bool_decide_false in Hm by (rewrite H3; intros [[=] _]). destruct Hm as [Hm ->]. subst r. simpl.
  eexists. split; [reflexivity|].
  assert (Hrep : env_rep (e <| _envTable := t |>) (<[c :: var := val]> m)).
  { split; simpl.
    - unfold envwf. rewrite <- Et. apply HT.wf_set_cursor; [done|]. unfold HT.cursor_ok; simpl. pose proof (HT.wf_pos _ _ Hw). lia.
    - change (HT.unique (HT.startIterations t)). by rewrite <- Et.
    - change (HT.duplicateKeyBehavior (HT.startIterations t) = HT.updateDuplicateKeys). rewrite <- Et. simpl. congruence.
    - change (HT.to_map (HT.startIterations t) = <[c :: var := val]> m). rewrite <- Et, <- H4. exact Hm.
    - by rewrite lookup_insert_ne. }
  destruct WIN32; [|done]. eapply rep_same_table; [|exact Hrep]. done.
Qed.

Lemma SetEnvExpr_rep e m expr err : env_rep e m ->
  exists e' ok err', SetEnvWithErrorMessage e expr err = Done (e', ok, err') /\
    match assign m expr with
    | Some m' => ok = true /\ err' = err /\ env_rep e' m'
    | None => ok = false /\ e' = e
    end.
Proof.
  intros Hr. unfold SetEnvWithErrorMessage, assign. destruct expr as [|c expr]; [by eexists _, _, _|].
  destruct (split_equal (c :: expr)) as [[[|n name] value]|] eqn:Hs.
  - by eexists _, _, _.
  - destruct (SetEnv_rep e m (n :: name) value Hr) as (e' & -> & Hr'); [done|]. by eexists _, _, _.
  - destruct (has_dollars (c :: expr)); [|by eexists _, _, _].
    destruct (SetEnv_rep e m (c :: expr) NO_ENVIRONMENT_VALUE Hr) as (e' & -> & Hr'); [done|]. by eexists _, _, _.
Qed.
Lemma set_all_rep e m l err : env_rep e m ->
  exists e' err', set_all e l err = Done (e', (assign_all m l).2, err') /\ env_rep e' (assign_all m l).1 /\
    ((assign_all m l).2 = true -> err' = err).
Proof.
  revert e m err. induction l as [|x l IH]; intros e m err Hr; simpl; [by eexists _, _|].
  destruct (SetEnvExpr_rep e m x err Hr) as (e' & ok & err' & -> & Hx). simpl.
  destruct (assign m x) as [m'|].
  - destruct Hx as (-> & -> & Hr'). apply (IH _ _ err Hr').
  - destruct Hx as [-> ->]. by eexists _, _.
Qed.

(** The entries of a V1 string. *)
Fixpoint v1_entries (fuel : nat) (input : bytes) : list bytes :=
  match input, fuel with
  | [], _ | _, O => []
  | _, Datatypes.S fuel' =>
      let '(output, rest) := ReadFromDelimitedString input in
      match output with [] => v1_entries fuel' rest | _ => output :: v1_entries fuel' rest end
  end.
Definition entries_v1 (s : bytes) : list bytes := v1_entries (length s) s.

Lemma skip_argspace_length s : (length (skip_argspace s) <= length s)%nat.
Proof. induction s as [|c s IH]; simpl; [lia|]. destruct (argspace c); simpl; lia. Qed.
Lemma read_entry_length s : (length (read_entry s).2 <= length s)%nat /\ (s <> [] -> length (read_entry s).2 < length s)%nat.
Proof.
  induction s as [|c s [IH _]]; simpl; [split; [lia|done]|]. destruct (_ || _); simpl; [lia|]. destruct (read_entry s); simpl in *. lia.
Qed.
Lemma read_shorter c s : (length (ReadFromDelimitedString (c :: s)).2 <= length s)%nat.
Proof.
  unfold ReadFromDelimitedString. simpl. destruct (argspace c).
  - pose proof (skip_argspace_length s). pose proof (read_entry_length (skip_argspace s)). lia.
  - pose proof (read_entry_length (c :: s)) as [_ Hl]. simpl length in Hl at 2. specialize (Hl ltac:(done)). lia.
Qed.
(** The loop has enough fuel. *)
Lemma merge_v1_set_all fuel e s err :
  (length s <= fuel)%nat -> merge_v1_loop fuel e s err = set_all e (v1_entries fuel s) err.
Proof.
  revert e s err. induction fuel as [|fuel IH]; intros e [|c s] err Hl; simpl in Hl; try done; [lia|].
  pose proof (read_shorter c s) as Hr. cbn [merge_v1_loop v1_entries]. destruct (ReadFromDelimitedString (c :: s)) as [[|o output] rest]; simpl in Hr.
  - apply IH. lia.
  - cbn [set_all]. destruct (SetEnvWithErrorMessage _ _ _) as [[[e' [|]] err']|]; simpl; [apply IH; lia|done..].
Qed.
Lemma MergeFromV1Raw_set_all e s err :
  MergeFromV1Raw e (Some s) err = set_all (e <| input_was_v1 := true |>) (entries_v1 s) err.
Proof. by apply merge_v1_set_all. Qed.
Lemma MergeFromV2Raw_set_all e s l err : split_args (Some s) [] = (l, None) -> MergeFromV2Raw e (Some s) err = set_all e l err.
Proof. intros E. unfold MergeFromV2Raw. by rewrite E. Qed.

(** ** What can be written *)

(** A variable whose entry is read back as that variable: its name has no equal sign, and it either
    has a value or looks like a macro. *)
Definition expressible (k v : bytes) : Prop :=
  split_equal k = None /\ (has_value v = false -> has_dollars k = true).
Definition expressible_env (m : env) : Prop := map_Forall expressible m.

Lemma split_equal_app k v : split_equal k = None -> split_equal (k ++ s2b "=" ++ v) = Some (k, v).
Proof.
  induction k as [|c k IH]; simpl; [done|]. destruct (ceq c "="%char); [done|]. intros Hk.
  destruct (split_equal k) as [[]|]; [done|]. simpl in IH. by rewrite IH.
Qed.
Lemma has_value_false v : has_value v = false -> v = NO_ENVIRONMENT_VALUE.
Proof. unfold has_value, streq. by case_bool_decide. Qed.
Lemma assign_entry m k v : expressible k v -> k <> [] -> assign m (entry_text k v) = Some (<[k := v]> m).
Proof.
  intros [Hk Hv] Hn. unfold assign, entry_text. destruct (has_value v) eqn:Hhv.
  - rewrite split_equal_app by done. by destruct k.
  - by rewrite Hk, Hv, (has_value_false v Hhv).
Qed.
Lemma assign_entries m0 l :
  NoDup l.*1 -> Forall (fun kv => expressible kv.1 kv.2 /\ kv.1 <> []) l ->
  assign_all m0 ((fun kv => entry_text kv.1 kv.2) <$> l) = ((list_to_map l : env) ∪ m0, true).
Proof.
  revert m0. induction l as [|[k v] l IH]; intros m0 Hnd Hl; simpl; [by rewrite map_empty_union|].
  apply NoDup_cons in Hnd as [Hk Hnd]. apply Forall_cons in Hl as [[He Hn] Hl]. simpl in *.
  rewrite assign_entry by done. rewrite IH by done. f_equal.
  rewrite <- insert_union_r; [by rewrite insert_union_l|]. by apply not_elem_of_list_to_map_1.
Qed.

(** The list of entries that the writers go through. *)
Definition texts (e : Env) : list bytes := (fun kv => entry_text kv.1 kv.2) <$> HT.entries (_envTable e).

Lemma assign_texts e m m0 : env_rep e m -> expressible_env m -> assign_all m0 (texts e) = (m ∪ m0, true).
Proof.
  intros Hr Hm. destruct (rep_entries e m Hr) as (Hnd & Hmap & Hin). unfold texts. rewrite assign_entries; [by rewrite Hmap|done|].
  apply Forall_forall. intros [k v] Hkv%Hin. simpl. split; [by apply (Hm k v)|]. intros ->. by rewrite (er_names _ _ Hr) in Hkv.
Qed.
Lemma merge_texts e m e0 m0 err : env_rep e m -> expressible_env m -> env_rep e0 m0 ->
  exists e1, set_all e0 (texts e) err = Done (e1, true, err) /\ env_rep e1 (m ∪ m0).
Proof.
  intros Hr Hm Hr0. destruct (set_all_rep e0 m0 (texts e) err Hr0) as (e1 & err' & E & Hr1 & He).
  rewrite (assign_texts e m m0 Hr Hm) in E, Hr1, He. simpl in *. rewrite (He eq_refl) in E. by exists e1.
Qed.

(** ** Writing V2 *)

Lemma V2Raw_spec e m result mark : env_rep e m ->
  exists e', getDelimitedStringV2Raw e result mark =
    Done (e', join_args (texts e) (if mark then result ++ [RAW_V2_ENV_MARKER] else result) 0) /\ env_rep e' m /\ texts e' = texts e.
Proof.
  intros Hr. unfold getDelimitedStringV2Raw.
  destruct (for_entries_each (fun l var val => Done (l ++ [entry_text var val], true)) (_envTable e) [] (er_wf _ _ Hr)) as (n & i & ->).
  assert (E : forall l acc, each (fun l var val => Done (l ++ [entry_text var val], true)) l acc =
    Done (acc ++ ((fun kv => entry_text kv.1 kv.2) <$> l), true)).
  { intros l. induction l as [|[k v] l IH]; intros acc; simpl; [by rewrite app_nil_r|]. rewrite IH. by rewrite <- app_assoc. }
  rewrite E. simpl. eexists. split; [reflexivity|]. split; [by apply rep_cursor|done].
Qed.

Lemma merge_v2 e m e0 m0 s err :
  env_rep e m -> expressible_env m -> env_rep e0 m0 -> split_args (Some s) [] = (texts e, None) ->
  exists e1, MergeFromV2Raw e0 (Some s) err = Done (e1, true, err) /\ env_rep e1 (m ∪ m0).
Proof. intros Hr Hm Hr0 Hs. rewrite (MergeFromV2Raw_set_all _ _ _ _ Hs). by apply merge_texts. Qed.
Lemma split_marked l : exists r, join_args l [SP] 0 = SP :: r /\ split_args (Some (SP :: r)) [] = (l, None).
Proof. destruct (split_join_marker l []) as (r & -> & Hs). by exists r. Qed.

(** An environment written in V2 syntax, raw, with the marker of the wire format or in
    double quotes, is read back into any other environment as the same variables, which replace those
    of the same name there; names must not contain an equal sign. *)
Theorem env_v2_roundtrip e m e0 m0 err :
  env_rep e m -> expressible_env m -> env_rep e0 m0 ->
  (exists e' s e1, getDelimitedStringV2Raw e [] false = Done (e', s) /\ MergeFromV2Raw e0 (Some s) err = Done (e1, true, err) /\
     env_rep e' m /\ env_rep e1 (m ∪ m0)) /\
  (exists e' s e1, getDelimitedStringV2Raw e [] true = Done (e', s) /\ MergeFromV1or2Raw e0 (Some s) err = Done (e1, true, err) /\
     env_rep e' m /\ env_rep e1 (m ∪ m0)) /\
  (exists e' s e1, getDelimitedStringV2Quoted e [] = Done (e', s) /\ MergeFromV2Quoted e0 (Some s) err = Done (e1, true, err) /\
     env_rep e' m /\ env_rep e1 (m ∪ m0)).
Proof.
  intros Hr Hm Hr0. split_and!.
  - destruct (V2Raw_spec e m [] false Hr) as (e' & -> & Hr' & _).
    destruct (merge_v2 e m e0 m0 _ err Hr Hm Hr0 (split_join (texts e) [])) as (e1 & E & H1). by eexists _, _, _.
  - destruct (V2Raw_spec e m [] true Hr) as (e' & -> & Hr' & _). destruct (split_marked (texts e)) as (r & E & Hs).
    destruct (merge_v2 e m e0 m0 _ err Hr Hm Hr0 Hs) as (e1 & E1 & H1). exists e', (SP :: r), e1. split_and!; try done. by simpl; rewrite <- E.
  - unfold getDelimitedStringV2Quoted. destruct (V2Raw_spec e m [] false Hr) as (e' & -> & Hr' & _). simpl.
    destruct (merge_v2 e m e0 m0 _ err Hr Hm Hr0 (split_join (texts e) [])) as (e1 & E1 & H1).
    eexists _, _, e1. split_and!; [reflexivity| |done..]. unfold MergeFromV2Quoted, merge_v2_quoted.
    destruct (v2_quoted_raw (join_args (texts e) [] 0) (default [] err)) as [-> ->].
    replace ((fun _ => default [] err) <$> err) with err by by destruct err. exact E1.
Qed.

(** ** Writing V1 *)

(** Entries with a delimiter between them. *)
Definition tail_text (d : ascii) (l : list bytes) : bytes := concat (cons d <$> l).
Definition joined (d : ascii) (l : list bytes) : bytes := match l with [] => [] | x :: l' => x ++ tail_text d l' end.

Definition v1_safe (d : ascii) (kv : bytes * bytes) : bool := IsSafeEnvV1Value kv.1 d && IsSafeEnvV1Value kv.2 d.
Definition the_delim (d : ascii) : ascii := if ceq d NUL then env_delimiter else d.

Lemma each_v1_safe d l result empty err :
  forallb (v1_safe d) l = true ->
  exists b, each (v1_turn d) l (result, empty, err) =
    Done (result ++ (if empty then joined else tail_text) d ((fun kv => entry_text kv.1 kv.2) <$> l), b, err, true).
Proof.
  revert result empty. induction l as [|[k v] l IH]; intros result empty Hs; simpl.
  { exists empty. by destruct empty; rewrite app_nil_r. }
  apply andb_true_iff in Hs as [[Hk Hv]%andb_true_iff Hl]. simpl in Hk, Hv. rewrite Hk, Hv. simpl.
  match goal with |- exists b, each _ _ (?r, _, _) = _ => destruct (IH r false Hl) as [b ->] end. exists b. f_equal. f_equal. f_equal. f_equal.
  unfold WriteToDelimitedString, tail_text, entry_text. destruct empty, (has_value v); simpl; rewrite <- ?app_assoc; simpl; rewrite <- ?app_assoc; done.
Qed.
Lemma each_v1_unsafe d l result empty err :
  forallb (v1_safe d) l = false -> exists x b err', each (v1_turn d) l (result, empty, err) = Done (result ++ x, b, err', false).
Proof.
  revert result empty. induction l as [|[k v] l IH]; intros result empty Hs; [done|]. simpl. simpl in Hs.
  destruct (v1_safe d (k, v)) eqn:Hkv.
  - apply andb_true_iff in Hkv as [Hk Hv]. simpl in Hk, Hv. rewrite Hk, Hv. simpl.
    match goal with |- context [each _ _ (?r, _, _)] => destruct (IH r false Hs) as (x & b & err' & ->) end.
    unfold WriteToDelimitedString. destruct empty, (has_value v); rewrite <- ?app_assoc; by eexists _, _, _.
  - exists [], empty. unfold v1_safe in Hkv. simpl in Hkv. destruct (IsSafeEnvV1Value k d); simpl in Hkv |- *; [rewrite Hkv; simpl|];
      rewrite app_nil_r; by eexists.
Qed.
Lemma V1Raw_spec e m result err d : env_rep e m ->
  exists e' s ok err', getDelimitedStringV1Raw e result err d = Done (e', s, ok, err') /\ env_rep e' m /\ texts e' = texts e /\
    ok = forallb (v1_safe (the_delim d)) (HT.entries (_envTable e)) /\
    if ok then s = result ++ joined (the_delim d) (texts e) /\ err' = err else take (length result) s = result.
Proof.
  intros Hr. unfold getDelimitedStringV1Raw. fold (the_delim d).
  destruct (for_entries_each (v1_turn (the_delim d)) (_envTable e) (result, true, err) (er_wf _ _ Hr)) as (n & i & ->).
  destruct (forallb _ _) eqn:Hs.
  - destruct (each_v1_safe _ _ result true err Hs) as [b ->]. simpl. eexists _, _, _, _. split; [reflexivity|]. split; [by apply rep_cursor|done].
  - destruct (each_v1_unsafe _ _ result true err Hs) as (x & b & err' & ->). simpl. eexists _, _, _, _. split; [reflexivity|].
    split; [by apply rep_cursor|]. by rewrite take_app_length.
Qed.

(** ** Reading V1 *)

(** An entry that the V1 reader finds whole. *)
Record v1_entry (x : bytes) : Prop := mkV1Entry {
  v1_plain : forallb (fun c => negb (ceq c env_delimiter || ceq c LF)) x = true;
  v1_lead : match x with c :: _ => isspace c = false /\ c <> DQUOTE | [] => False end
}.

Lemma argspace_isspace c : isspace c = false -> argspace c = false.
Proof.
  intros Hc. unfold argspace. apply orb_false_iff; split; [apply orb_false_iff; split; [apply orb_false_iff; split|]|];
    apply bool_decide_eq_false; intros ->; discriminate.
Qed.
Lemma skip_lead x y : v1_entry x -> skip_argspace (x ++ y) = x ++ y.
Proof. intros [_ Hl]. destruct x as [|c x]; [done|]. simpl. by rewrite (argspace_isspace c) by apply Hl. Qed.
Lemma read_entry_plain x y :
  forallb (fun c => negb (ceq c env_delimiter || ceq c LF)) x = true -> read_entry (x ++ env_delimiter :: y) = (x, y) /\ read_entry x = (x, []).
Proof.
  induction x as [|c x IH]; simpl; intros Hx.
  - assert (E : ceq env_delimiter env_delimiter = true) by (unfold ceq; by apply bool_decide_eq_true). by rewrite E, orb_true_r.
  - apply andb_true_iff in Hx as [Hc Hx]. apply negb_true_iff, orb_false_iff in Hc as [H1 H2]. rewrite H1, H2. simpl.
    destruct (IH Hx) as [-> ->]. done.
Qed.
Lemma v1_entries_step fuel s o r :
  ReadFromDelimitedString s = (o, r) -> o <> [] -> v1_entries (Datatypes.S fuel) s = o :: v1_entries fuel r.
Proof. intros E Ho. destruct s as [|c s]; [by injection E as <- <-|]. cbn [v1_entries]. rewrite E. by destruct o. Qed.
Lemma v1_entries_joined l fuel :
  Forall v1_entry l -> (length (joined env_delimiter l) <= fuel)%nat -> v1_entries fuel (joined env_delimiter l) = l.
Proof.
  intros Hl. revert fuel. induction Hl as [|x l Hx Hl IH]; intros fuel Hf; [by destruct fuel|].
  assert (Hne : x <> []) by (destruct Hx as [_ Hx]; by destruct x).
  destruct (read_entry_plain x (joined env_delimiter l) (v1_plain x Hx)) as [R1 R2].
  assert (Hpos : (0 < length x)%nat) by (destruct x; [done|simpl; lia]).
  destruct l as [|y l].
  - unfold joined, tail_text in *; simpl in *. rewrite app_nil_r in *. destruct fuel as [|fuel]; [lia|].
    rewrite (v1_entries_step fuel x x []); [by destruct fuel| |done].
    unfold ReadFromDelimitedString. rewrite <- (app_nil_r x), skip_lead, app_nil_r by done. done.
  - assert (J : joined env_delimiter (x :: y :: l) = x ++ env_delimiter :: joined env_delimiter (y :: l)) by done.
    rewrite J in *. rewrite length_app in Hf. cbn [length] in Hf. destruct fuel as [|fuel]; [lia|].
    rewrite (v1_entries_step fuel _ x (joined env_delimiter (y :: l))); [|unfold ReadFromDelimitedString; by rewrite skip_lead|done].
    rewrite IH; [done|lia].
Qed.

(** Names that do not start with white space or a double quote. *)
Definition plain_names (m : env) : Prop :=
  map_Forall (fun (k _ : bytes) => match k with c :: _ => isspace c = false /\ c <> DQUOTE | [] => True end) m.

Lemma safe_v1_entry k v :
  k <> [] -> v1_safe env_delimiter (k, v) = true -> (match k with c :: _ => isspace c = false /\ c <> DQUOTE | [] => True end) ->
  v1_entry (entry_text k v).
Proof.
  intros Hk [H1 H2]%andb_true_iff Hl. simpl in H1, H2. unfold IsSafeEnvV1Value in H1, H2.
  assert (E : ceq env_delimiter NUL = false) by (unfold env_delimiter; by destruct WIN32). rewrite E in H1, H2.
  split; unfold entry_text.
  - destruct (has_value v); [|done]. rewrite !forallb_app, H1, H2. simpl. rewrite !andb_true_r. unfold env_delimiter. by destruct WIN32.
  - destruct k as [|c k]; [done|]. by destruct (has_value v).
Qed.
Lemma texts_v1_entries e m :
  env_rep e m -> plain_names m -> forallb (v1_safe env_delimiter) (HT.entries (_envTable e)) = true -> Forall v1_entry (texts e).
Proof.
  intros Hr Hp Hs. destruct (rep_entries e m Hr) as (_ & _ & Hin). unfold texts. apply Forall_fmap, Forall_forall. intros [k v] Hkv.
  rewrite forallb_forall in Hs. specialize (Hs (k, v) ltac:(by apply list_elem_of_In)). apply Hin in Hkv. simpl. apply safe_v1_entry; [|done|].
  - intros ->. by rewrite (er_names _ _ Hr) in Hkv.
  - apply (Hp k v Hkv).
Qed.
Lemma merge_v1 e m e0 m0 err :
  env_rep e m -> expressible_env m -> env_rep e0 m0 -> Forall v1_entry (texts e) ->
  exists e1, MergeFromV1Raw e0 (Some (joined env_delimiter (texts e))) err = Done (e1, true, err) /\ env_rep e1 (m ∪ m0).
Proof.
  intros Hr Hm Hr0 Hv. rewrite MergeFromV1Raw_set_all. unfold entries_v1. rewrite v1_entries_joined by done.
  apply merge_texts; [done..|]. by apply (rep_same_table e0).
Qed.
Lemma joined_lead l : Forall v1_entry l ->
  IsV2QuotedString (joined env_delimiter l) = false /\
  (forall e err, MergeFromV1or2Raw e (Some (joined env_delimiter l)) err = MergeFromV1Raw e (Some (joined env_delimiter l)) err).
Proof.
  intros [|x l' [_ Hx] _]; [done|]. destruct x as [|c x]; [done|]. destruct Hx as [Hc Hq]. unfold IsV2QuotedString. simpl. rewrite Hc. split.
  - unfold ceq. by apply bool_decide_eq_false.
  - intros e err. unfold RAW_V2_ENV_MARKER, ceq. rewrite bool_decide_false; [done|]. by intros ->.
Qed.

(** C27 (roundtrip): the wire format and the format of submit files, which use V1 when every entry can
    be written in it and V2 otherwise, are read back as the same variables, when no name contains an
    equal sign or begins with white space or a double quote, and a variable without a value has a name
    that looks like a macro. (Names that begin with a blank or a quote are not read back; this is
    recorded.) *)
Theorem env_v1_preferring_roundtrip e m e0 m0 err :
  env_rep e m -> expressible_env m -> plain_names m -> env_rep e0 m0 ->
  (exists e' s e1, getDelimitedStringV1or2Raw e [] NUL = Done (e', s) /\ MergeFromV1or2Raw e0 (Some s) err = Done (e1, true, err) /\
     env_rep e' m /\ env_rep e1 (m ∪ m0)) /\
  (exists e' s e1, getDelimitedStringV1RawOrV2Quoted e [] = Done (e', s) /\ MergeFromV1RawOrV2Quoted e0 (Some s) err = Done (e1, true, err) /\
     env_rep e' m /\ env_rep e1 (m ∪ m0)).
Proof.
  intros Hr Hm Hp Hr0. unfold getDelimitedStringV1or2Raw, getDelimitedStringV1RawOrV2Quoted.
  destruct (V1Raw_spec e m [] None NUL Hr) as (e' & s & ok & err' & -> & Hr' & Ht & Hok & Hs).
  change (the_delim NUL) with env_delimiter in *. simpl. destruct ok.
  - destruct Hs as [-> _]. pose proof (texts_v1_entries e m Hr Hp (eq_sym Hok)) as Hv. destruct (joined_lead _ Hv) as [Hq Hw].
    destruct (merge_v1 e m e0 m0 err Hr Hm Hr0 Hv) as (e1 & E & H1).
    split; (exists e', (joined env_delimiter (texts e)), e1; split_and!; [done| |done..]); [exact (eq_trans (Hw e0 err) E)|]. rewrite Hq. exact E.
  - split.
    + rewrite take_0. destruct (V2Raw_spec e' m [] true Hr') as (e2 & -> & Hr2 & _). rewrite Ht. destruct (split_marked (texts e)) as (r & E & Hsp).
      destruct (merge_v2 e m e0 m0 _ err Hr Hm Hr0 Hsp) as (e1 & E1 & H1). exists e2, (SP :: r), e1. split_and!; try done. by simpl; rewrite <- E.
    + unfold getDelimitedStringV2Quoted. destruct (V2Raw_spec e' m [] false Hr') as (e2 & -> & Hr2 & _). rewrite Ht. simpl.
      destruct (merge_v2 e m e0 m0 _ err Hr Hm Hr0 (split_join (texts e) [])) as (e1 & E1 & H1).
      eexists _, _, e1. split_and!; [reflexivity| |done..]. unfold merge_v2_quoted.
      destruct (v2_quoted_raw (join_args (texts e) [] 0) (default [] err)) as [-> ->].
      replace ((fun _ => default [] err) <$> err) with err by by destruct err. exact E1.
Qed.

(** ** Any sequence of calls *)

Lemma EnvClear_rep e m : env_rep e m -> env_rep (EnvClear e) ∅.
Proof.
  intros [H1 _ H3 _ _]. unfold EnvClear. assert (Hr : env_rep (e <| _envTable ::= HT.clear |>) ∅).
  { destruct (HT.clear_spec MyStringHash (HT.startIterations (_envTable e)) H1 eq_refl) as [W U _ _ M]. by split. }
  destruct WIN32; [|done]. by eapply rep_same_table; [|exact Hr].
Qed.

(** Reading skips bad entries. *)
Fixpoint assign_lenient (m : env) (l : list bytes) : env * bool :=
  match l with
  | [] | [] :: _ => (m, true)
  | x :: l' =>
      match assign m x with
      | Some m' => assign_lenient m' l'
      | None => ((assign_lenient m l').1, false)
      end
  end.
Lemma MergeFrom_array_rep e m l : env_rep e m ->
  exists e', MergeFrom_array e l = Done (e', (assign_lenient m l).2) /\ env_rep e' (assign_lenient m l).1.
Proof.
  revert e m. induction l as [|x l IH]; intros e m Hr; [by exists e|]. destruct x as [|c x]; [by exists e|].
  cbn [MergeFrom_array assign_lenient]. destruct (SetEnvExpr_rep e m (c :: x) None Hr) as (e' & ok & err & -> & Hx). simpl.
  destruct (assign m (c :: x)) as [m'|].
  - destruct Hx as (-> & _ & Hr'). destruct (IH e' m' Hr') as (e2 & -> & Hr2). by exists e2.
  - destruct Hx as (-> & ->). destruct (IH e m Hr) as (e2 & -> & Hr2). by exists e2.
Qed.
Lemma MergeFrom_block_rep e m l : env_rep e m -> exists e', MergeFrom_block e l = Done e' /\ env_rep e' (assign_lenient m l).1.
Proof.
  revert e m. induction l as [|x l IH]; intros e m Hr; [by exists e|]. destruct x as [|c x]; [by exists e|].
  cbn [MergeFrom_block assign_lenient]. destruct (SetEnvExpr_rep e m (c :: x) None Hr) as (e' & ok & err & -> & Hx). simpl.
  destruct (assign m (c :: x)) as [m'|]; [destruct Hx as (_ & _ & Hr'); by apply IH|]. destruct Hx as (_ & ->). destruct (IH e m Hr) as (e2 & E2 & Hr2). by exists e2.
Qed.
Fixpoint assign_imported (m : env) (l : list bytes) : env :=
  match l with
  | [] => m
  | x :: l' => assign_imported match split_equal x with None | Some ([], _) => m | Some (name, value) => <[name := value]> m end l'
  end.
Lemma Import_rep e m l : env_rep e m -> exists e', Import (fun _ _ => true) e l = Done e' /\ env_rep e' (assign_imported m l).
Proof.
  revert e m. induction l as [|x l IH]; intros e m Hr; [by exists e|]. cbn [Import assign_imported].
  destruct (split_equal x) as [[[|c n] v]|]; [by apply IH| |by apply IH].
  destruct (SetEnv_rep e m (c :: n) v Hr) as (e' & -> & Hr'); [done|]. by apply IH.
Qed.
Lemma MergeFrom_Env_rep e m e2 m2 : env_rep e m -> env_rep e2 m2 ->
  exists e' e2', MergeFrom_Env e e2 = Done (e', e2') /\ env_rep e' (m2 ∪ m) /\ env_rep e2' m2.
Proof.
  intros Hr Hr2. unfold MergeFrom_Env. destruct (rep_entries e2 m2 Hr2) as (Hnd & <- & Hin).
  match goal with |- context [for_entries ?b] => set (body := b) end.
  destruct (for_entries_each body (_envTable e2) e (er_wf _ _ Hr2)) as (n & i & ->).
  assert (E : forall l e m, NoDup l.*1 -> Forall (fun kv => kv.1 <> []) l -> env_rep e m ->
    exists e', each body l e = Done (e', true) /\ env_rep e' ((list_to_map l : env) ∪ m)).
  { clear. intros l. induction l as [|[k v] l IH]; intros e m Hnd Hl Hr; simpl; [exists e; by rewrite map_empty_union|].
    apply NoDup_cons in Hnd as [Hk Hnd]. apply Forall_cons in Hl as [Hne Hl]. subst body. simpl in *.
    destruct (SetEnv_rep e m k v Hr Hne) as (e' & -> & Hr'). simpl. destruct (IH e' _ Hnd Hl Hr') as (e2 & E2 & Hr2). exists e2. split; [done|].
    rewrite <- insert_union_l, insert_union_r; [done|]. by apply not_elem_of_list_to_map_1. }
  destruct (E (HT.entries (_envTable e2)) e m Hnd) as (e' & -> & Hr'); [|done|].
  - apply Forall_forall. intros [k v] Hkv%Hin. simpl. intros ->. by rewrite (er_names _ _ Hr2) in Hkv.
  - simpl. eexists _, _. split; [reflexivity|]. split; [done|]. by apply rep_cursor.
Qed.

Inductive env_op :=
| OSet (var val : bytes) | OSetExpr (expr : bytes) | OClear | OGet (var : bytes) | OCount
| OMergeV1 (s : bytes) | OMergeV2 (s : bytes) | OMergeWire (s : bytes) | OMergeSubmit (s : bytes)
| OMergeArray (l : list bytes) | OMergeBlock (l : list bytes) | OImport (l : list bytes)
| OGetV1 (delim : ascii) | OGetV2 (mark : bool).
Inductive env_answer := AOk (ok : bool) | AValue (v : option bytes) | ACount (n : Z).

Definition env_step (e : Env) (o : env_op) : outcome (Env * env_answer) :=
  let told (r : outcome (Env * bool * option bytes)) := (let! (e', ok, _) := r in Done (e', AOk ok))%outcome in
  match o with
  | OSet var val => let! (e', ok) := SetEnv e var val in Done (e', AOk ok)
  | OSetExpr expr => told (SetEnvWithErrorMessage e expr None)
  | OClear => Done (EnvClear e, AOk true)
  | OGet var => Done (e, AValue (GetEnv e var))
  | OCount => Done (e, ACount (EnvCount e))
  | OMergeV1 s => told (MergeFromV1Raw e (Some s) None)
  | OMergeV2 s => told (MergeFromV2Raw e (Some s) None)
  | OMergeWire s => told (MergeFromV1or2Raw e (Some s) None)
  | OMergeSubmit s => told (MergeFromV1RawOrV2Quoted e (Some s) None)
  | OMergeArray l => let! (e', ok) := MergeFrom_array e l in Done (e', AOk ok)
  | OMergeBlock l => let! e' := MergeFrom_block e l in Done (e', AOk true)
  | OImport l => let! e' := Import (fun _ _ => true) e l in Done (e', AOk true)
  | OGetV1 d => let! (e', _, ok, _) := getDelimitedStringV1Raw e [] None d in Done (e', AOk ok)
  | OGetV2 mark => let! (e', _) := getDelimitedStringV2Raw e [] mark in Done (e', AOk true)
  end%outcome.
Fixpoint env_run (e : Env) (os : list env_op) : outcome (Env * list env_answer) :=
  match os with
  | [] => Done (e, [])
  | o :: os' =>
      let! (e', a) := env_step e o in let! (e'', l) := env_run e' os' in Done (e'', a :: l)
  end%outcome.

(** The same calls on a map. *)
Definition spec_v2 (m : env) (s : bytes) : env * bool :=
  match split_args (Some s) [] with (_, Some _) => (m, false) | (l, None) => assign_all m l end.
Definition spec_quoted (m : env) (s : bytes) : env * bool :=
  match V2QuotedToV2Raw s [] [] with Done (v2, true, _) => spec_v2 m v2 | _ => (m, false) end.
Definition spec_step (m : env) (o : env_op) : env * env_answer :=
  let told (r : env * bool) := (r.1, AOk r.2) in
  match o with
  | OSet var val => match var with [] => (m, AOk false) | _ => (<[var := val]> m, AOk true) end
  | OSetExpr expr => match assign m expr with Some m' => (m', AOk true) | None => (m, AOk false) end
  | OClear => (∅, AOk true)
  | OGet var => (m, AValue (m !! var))
  | OCount => (m, ACount (Z.of_nat (size m)))
  | OMergeV1 s => told (assign_all m (entries_v1 s))
  | OMergeV2 s => told (spec_v2 m s)
  | OMergeWire s => told (if bool_decide (head s = Some RAW_V2_ENV_MARKER) then spec_v2 m s else assign_all m (entries_v1 s))
  | OMergeSubmit s => told (if IsV2QuotedString s then spec_quoted m s else assign_all m (entries_v1 s))
  | OMergeArray l => told (assign_lenient m l)
  | OMergeBlock l => ((assign_lenient m l).1, AOk true)
  | OImport l => (assign_imported m l, AOk true)
  | OGetV1 d => (m, AOk (bool_decide (map_Forall (fun k v => v1_safe (the_delim d) (k, v) = true) m)))
  | OGetV2 _ => (m, AOk true)
  end.
Fixpoint spec_run (m : env) (os : list env_op) : env * list env_answer :=
  match os with
  | [] => (m, [])
  | o :: os' => let '(m', a) := spec_step m o in let '(m'', l) := spec_run m' os' in (m'', a :: l)
  end.

Lemma merge_v2_rep e m s err : env_rep e m ->
  exists e' err', MergeFromV2Raw e (Some s) err = Done (e', (spec_v2 m s).2, err') /\ env_rep e' (spec_v2 m s).1.
Proof.
  intros Hr. unfold MergeFromV2Raw, spec_v2. destruct (split_args (Some s) []) as [l [msg|]]; [by eexists _, _|].
  destruct (set_all_rep e m l err Hr) as (e' & err' & E & Hr' & _). by exists e', err'.
Qed.
Lemma merge_v1_rep e m s err : env_rep e m ->
  exists e' err', MergeFromV1Raw e (Some s) err = Done (e', (assign_all m (entries_v1 s)).2, err') /\ env_rep e' (assign_all m (entries_v1 s)).1.
Proof.
  intros Hr. rewrite MergeFromV1Raw_set_all.
  destruct (set_all_rep (e <| input_was_v1 := true |>) m (entries_v1 s) err) as (e' & err' & E & Hr' & _); [by apply (rep_same_table e)|].
  by exists e', err'.
Qed.
Lemma merge_quoted_rep e m s : env_rep e m -> IsV2QuotedString s = true ->
  exists e' err', merge_v2_quoted e s None = Done (e', (spec_quoted m s).2, err') /\ env_rep e' (spec_quoted m s).1.
Proof.
  intros Hr Hq. unfold merge_v2_quoted, spec_quoted. unfold V2QuotedToV2Raw. rewrite Hq. simpl.
  destruct (unquote _ _) as [raw [r|]]; [|by eexists _, _]. destruct (skip_spaces r); [by apply merge_v2_rep|by eexists _, _].
Qed.

Lemma env_step_rep e m o : env_rep e m -> exists e', env_step e o = Done (e', (spec_step m o).2) /\ env_rep e' (spec_step m o).1.
Proof.
  intros Hr. destruct o; cbn [env_step spec_step fst snd].
  - destruct var as [|c var]; [by exists e|]. destruct (SetEnv_rep e m (c :: var) val Hr) as (e' & -> & Hr'); [done|]. by exists e'.
  - destruct (SetEnvExpr_rep e m expr None Hr) as (e' & ok & err & -> & Hx). simpl. exists e'.
    destruct (assign m expr) as [m'|]; [by destruct Hx as (-> & _ & ?)|by destruct Hx as (-> & ->)].
  - exists (EnvClear e). split; [done|]. by eapply EnvClear_rep.
  - exists e. by rewrite (rep_lookup e m).
  - exists e. by rewrite (rep_count e m).
  - destruct (merge_v1_rep e m s None Hr) as (e' & err' & -> & Hr'). by exists e'.
  - destruct (merge_v2_rep e m s None Hr) as (e' & err' & -> & Hr'). by exists e'.
  - destruct (merge_v1_rep e m s None Hr) as (e1 & err1 & E1 & Hr1). destruct (merge_v2_rep e m s None Hr) as (e2 & err2 & E2 & Hr2).
    unfold MergeFromV1or2Raw. destruct s as [|c s]; [rewrite bool_decide_false, E1 by done; by exists e1|]. simpl head. unfold ceq.
    destruct (bool_decide_reflect (c = RAW_V2_ENV_MARKER)) as [->|Hc].
    + rewrite bool_decide_true, E2 by done. by exists e2.
    + rewrite bool_decide_false, E1 by (simpl; congruence). by exists e1.
  - unfold MergeFromV1RawOrV2Quoted. destruct (IsV2QuotedString s) eqn:Hq.
    + destruct (merge_quoted_rep e m s Hr Hq) as (e' & err' & -> & Hr'). by exists e'.
    + destruct (merge_v1_rep e m s None Hr) as (e' & err' & -> & Hr'). by exists e'.
  - destruct (MergeFrom_array_rep e m l Hr) as (e' & -> & Hr'). by exists e'.
  - destruct (MergeFrom_block_rep e m l Hr) as (e' & -> & Hr'). by exists e'.
  - destruct (Import_rep e m l Hr) as (e' & -> & Hr'). by exists e'.
  - destruct (V1Raw_spec e m [] None delim Hr) as (e' & s & ok & err & -> & Hr' & _ & Hok & _). simpl. exists e'. split; [|done]. do 3 f_equal.
    destruct (rep_entries e m Hr) as (_ & _ & Hin). apply eq_bool_prop_intro. rewrite Hok, Is_true_true, forallb_forall, bool_decide_spec.
    split.
    + intros Ha k v Hkv%Hin%list_elem_of_In. by apply Ha.
    + intros Ha [k v] Hkv%list_elem_of_In%Hin. by apply (Ha k v).
  - destruct (V2Raw_spec e m [] mark Hr) as (e' & -> & Hr' & _). by exists e'.
Qed.

Lemma env_run_rep os e m : env_rep e m -> exists e', env_run e os = Done (e', (spec_run m os).2) /\ env_rep e' (spec_run m os).1.
Proof.
  revert e m. induction os as [|o os IH]; intros e m Hr; simpl; [by exists e|].
  destruct (env_step_rep e m o Hr) as (e' & -> & Hr'). destruct (spec_step m o) as [m' a]. simpl in *.
  destruct (IH e' m' Hr') as (e'' & -> & Hr''). destruct (spec_run m' os) as [m'' l]. by exists e''.
Qed.

(** *** Two environments, of which one may be merged into the other *)

Inductive env_call := CHere (o : env_op) | CThere (o : env_op) | CMerge.
Definition call_step (es : Env * Env) (c : env_call) : outcome (Env * Env * env_answer) :=
  match c with
  | CHere o => let! (e, a) := env_step es.1 o in Done ((e, es.2), a)
  | CThere o => let! (e, a) := env_step es.2 o in Done ((es.1, e), a)
  | CMerge => let! (e, e2) := MergeFrom_Env es.1 es.2 in Done ((e, e2), AOk true)
  end%outcome.
Fixpoint call_run (es : Env * Env) (cs : list env_call) : outcome (Env * Env * list env_answer) :=
  match cs with
  | [] => Done (es, [])
  | c :: cs' => let! (es', a) := call_step es c in let! (es'', l) := call_run es' cs' in Done (es'', a :: l)
  end%outcome.
(** On maps: a variable of the environment that is merged in replaces one of the same name. *)
Definition spec_call (ms : env * env) (c : env_call) : env * env * env_answer :=
  match c with
  | CHere o => let '(m, a) := spec_step ms.1 o in ((m, ms.2), a)
  | CThere o => let '(m, a) := spec_step ms.2 o in ((ms.1, m), a)
  | CMerge => ((ms.2 ∪ ms.1, ms.2), AOk true)
  end.
Fixpoint spec_calls (ms : env * env) (cs : list env_call) : env * env * list env_answer :=
  match cs with
  | [] => (ms, [])
  | c :: cs' => let '(ms', a) := spec_call ms c in let '(ms'', l) := spec_calls ms' cs' in (ms'', a :: l)
  end.
Definition both_rep (es : Env * Env) (ms : env * env) : Prop := env_rep es.1 ms.1 /\ env_rep es.2 ms.2.

Lemma call_step_rep es ms c : both_rep es ms ->
  exists es', call_step es c = Done (es', (spec_call ms c).2) /\ both_rep es' (spec_call ms c).1.
Proof.
  destruct es as [e e2], ms as [m m2]. intros [Hr Hr2]. destruct c as [o|o|]; cbn [call_step spec_call fst snd] in *.
  - destruct (env_step_rep e m o Hr) as (e' & -> & Hr'). destruct (spec_step m o). by exists (e', e2).
  - destruct (env_step_rep e2 m2 o Hr2) as (e' & -> & Hr'). destruct (spec_step m2 o). by exists (e, e').
  - destruct (MergeFrom_Env_rep e m e2 m2 Hr Hr2) as (e' & e2' & -> & Hr' & Hr2'). by exists (e', e2').
Qed.
Lemma call_run_rep cs es ms : both_rep es ms ->
  exists es', call_run es cs = Done (es', (spec_calls ms cs).2) /\ both_rep es' (spec_calls ms cs).1.
Proof.
  revert es ms. induction cs as [|c cs IH]; intros es ms Hr; simpl; [by exists es|].
  destruct (call_step_rep es ms c Hr) as (es' & -> & Hr'). destruct (spec_call ms c) as [ms' a]. simpl in *.
  destruct (IH es' ms' Hr') as (es'' & -> & Hr''). destruct (spec_calls ms' cs) as [ms'' l]. by exists es''.
Qed.

(** C26 (refinement): two environments behave like two finite maps from names to values, over any
    sequence of assignments, readers of every syntax, arrays and blocks, imports, lookups, counts,
    writers and clearings of either one and of merges of the second into the first (MergeFrom(Env), in
    which the variables of the other environment win). Every call answers what the map answers. The
    texts that are read count as the entries into which the tokenizers of the V1 and V2 syntax split
    them, up to the first that is not an assignment. *)
Theorem env_refines_map cs :
  exists es, call_run (new_Env, new_Env) cs = Done (es, (spec_calls (∅, ∅) cs).2) /\ both_rep es (spec_calls (∅, ∅) cs).1.
Proof. apply call_run_rep. split; apply new_Env_rep. Qed.

(** ** The Windows block *)

Lemma toupper_less_irrefl s : toupper_string_less s s = false.
Proof. induction s as [|c s IH]; simpl; [done|]. by rewrite Nat.ltb_irrefl. Qed.
Lemma toupper_less_trans s1 s2 s3 : toupper_string_less s1 s2 = true -> toupper_string_less s2 s3 = true -> toupper_string_less s1 s3 = true.
Proof.
  revert s2 s3. induction s1 as [|c1 s1 IH]; intros [|c2 s2] [|c3 s3]; simpl; try done.
  repeat case_match; rewrite ?Nat.ltb_lt, ?Nat.ltb_ge in *; try done; try lia. apply IH.
Qed.
Lemma toupper_less_total s1 s2 : toupper_string_less s1 s2 = false -> toupper_string_less s2 s1 = false -> upper s1 = upper s2.
Proof.
  revert s2. induction s1 as [|c1 s1 IH]; intros [|c2 s2]; simpl; try done.
  repeat case_match; rewrite ?Nat.ltb_lt, ?Nat.ltb_ge in *; try done; try lia. intros HA HB. f_equal; [|by apply IH].
  rewrite <- (ascii_nat_embedding (toupper c1)), <- (ascii_nat_embedding (toupper c2)). f_equal. lia.
Qed.
Lemma toupper_less_upper s1 s2 : upper s1 = upper s2 -> toupper_string_less s1 s2 = false.
Proof.
  revert s2. induction s1 as [|c1 s1 IH]; intros [|c2 s2]; simpl; try done. intros [= -> E]. rewrite Nat.ltb_irrefl. by apply IH.
Qed.
Lemma toupper_same s1 s2 : toupper_string_less s1 s2 || toupper_string_less s2 s1 = true <-> upper s1 <> upper s2.
Proof.
  split.
  - intros Ho E. by rewrite (toupper_less_upper s1 s2), (toupper_less_upper s2 s1) in Ho.
  - intros Hn. destruct (toupper_string_less s1 s2) eqn:E1; [done|]. destruct (toupper_string_less s2 s1) eqn:E2; [done|].
    by destruct (Hn (toupper_less_total _ _ E1 E2)).
Qed.

Definition less (a b : bytes) : Prop := toupper_string_less a b = true.

Lemma elem_set_erase x var l : x ∈ set_erase var l <-> x ∈ l /\ upper x <> upper var.
Proof. unfold set_erase. rewrite list_elem_of_filter, toupper_same. tauto. Qed.
Lemma elem_set_insert x var l : (forall y, y ∈ l -> upper y <> upper var) -> x ∈ set_insert var l <-> x = var \/ x ∈ l.
Proof.
  induction l as [|y l IH]; intros Hl; simpl; [set_solver|]. destruct (toupper_string_less var y) eqn:E1; [set_solver|].
  destruct (toupper_string_less y var) eqn:E2.
  - rewrite elem_of_cons, IH by set_solver. set_solver.
  - exfalso. apply (Hl y); [by left|]. by apply toupper_less_total.
Qed.
Lemma sorted_erase var l : StronglySorted less l -> StronglySorted less (set_erase var l).
Proof.
  intros Hs. induction Hs as [|x l Hs IH Hx]; simpl; [constructor|]. unfold set_erase in *. rewrite filter_cons. case_decide; [|done].
  constructor; [done|]. apply Forall_forall. intros y [_ Hy]%list_elem_of_filter. rewrite Forall_forall in Hx. by apply Hx.
Qed.
Lemma sorted_insert var l : (forall y, y ∈ l -> upper y <> upper var) -> StronglySorted less l -> StronglySorted less (set_insert var l).
Proof.
  intros Hl Hs. induction Hs as [|x l Hs IH Hx]; simpl; [by repeat constructor|]. rewrite Forall_forall in Hx.
  destruct (toupper_string_less var x) eqn:E1.
  - constructor; [by constructor; [|apply Forall_forall]|]. constructor; [done|]. apply Forall_forall. intros y Hy.
    eapply toupper_less_trans; [exact E1|]. by apply Hx.
  - destruct (toupper_string_less x var) eqn:E2.
    + constructor; [apply IH; set_solver|]. apply Forall_forall. intros y [->|Hy]%elem_set_insert; [done|by apply Hx|set_solver].
    + exfalso. apply (Hl x); [by left|]. by apply toupper_less_total.
Qed.

(** The names of the set are variables, one for each name up to case, in order. *)
Record win_rep (e : Env) (m : env) : Prop := mkWinRep {
  wr_rep : env_rep e m;
  wr_sorted : StronglySorted less (m_sorted_varnames e);
  wr_known : forall x, x ∈ m_sorted_varnames e -> is_Some (m !! x);
  wr_all : forall k v, m !! k = Some v -> exists x, x ∈ m_sorted_varnames e /\ upper x = upper k
}.

Lemma windows_strings_spec e m l : env_rep e m -> (forall x, x ∈ l -> is_Some (m !! x)) ->
  windows_strings e l = Done ((fun x => x ++ s2b "=" ++ default [] (m !! x)) <$> l).
Proof.
  intros Hr. induction l as [|x l IH]; intros Hl; simpl; [done|]. destruct (Hl x) as [v Hv]; [by left|].
  change (HT.lookup MyStringHash (_envTable e) x) with (GetEnv e x). rewrite (rep_lookup e m), Hv, IH by (done || set_solver). done.
Qed.

(** On Windows, where names do not distinguish case, the block for CreateProcess() after
    SetEnv() holds the new variable with its spelling and value, in place of any earlier one that differs
    only in case, and the others as before; the names come in order and no two are equal up to case. *)
Theorem windows_block_last_wins e m var val :
  WIN32 = true -> win_rep e m -> var <> [] ->
  exists e', SetEnv e var val = Done (e', true) /\ win_rep e' (<[var := val]> m) /\
    getWindowsEnvironmentString e' = Done ((fun x => x ++ s2b "=" ++ default [] (<[var := val]> m !! x)) <$> m_sorted_varnames e') /\
    StronglySorted less (m_sorted_varnames e') /\
    forall x, x ∈ m_sorted_varnames e' <-> x = var \/ (x ∈ m_sorted_varnames e /\ upper x <> upper var).
Proof.
  intros Hw [Hr Hs Hk Ha] Hv. destruct (SetEnv_rep e m var val Hr Hv) as (e' & E & Hr').
  assert (Hl : m_sorted_varnames e' = set_insert var (set_erase var (m_sorted_varnames e))).
  { unfold SetEnv in E. destruct var; [done|]. destruct (HT.insert _ _ _ _) as [t [| |]]; try done. rewrite Hw in E. by injection E as <-. }
  assert (Hx : forall x, x ∈ m_sorted_varnames e' <-> x = var \/ (x ∈ m_sorted_varnames e /\ upper x <> upper var)).
  { intros x. rewrite Hl, elem_set_insert, elem_set_erase by (by intros y [_ ?]%elem_set_erase). done. }
  assert (Hs' : StronglySorted less (m_sorted_varnames e')).
  { rewrite Hl. apply sorted_insert; [by intros y [_ ?]%elem_set_erase|by apply sorted_erase]. }
  assert (Hkn : forall x, x ∈ m_sorted_varnames e' -> is_Some (<[var := val]> m !! x)).
  { intros x [->|[Hin Hne]]%Hx; [rewrite lookup_insert_eq; by eexists|]. rewrite lookup_insert_ne; [by apply Hk|]. by intros ->. }
  exists e'. split_and!; [done| |by apply (windows_strings_spec e' _ _ Hr')|done|done].
  split; [done..|]. intros k v Hkv. destruct (decide (upper k = upper var)) as [Eq|Hne].
  - exists var. split; [apply Hx; by left|done].
  - rewrite lookup_insert_ne in Hkv by (by intros ->). destruct (Ha k v Hkv) as (x & Hin & Ex). exists x. split; [|done].
    apply Hx. right. split; [done|]. by rewrite Ex.
Qed.
Lemma new_Env_win_rep : win_rep new_Env ∅.
Proof. split; [apply new_Env_rep|constructor|intros x Hx; by apply not_elem_of_nil in Hx|done]. Qed.

(** ** Environments in job ads *)

Section ad_laws.
Context `{L : ExprLang} `{HL : !ExprLangLaws L}.

Lemma insert_env1_keeps e m ad err opsys : env_rep e m ->
  exists e' ad' err', insert_env1 e ad true err opsys = Done (e', ad', true, err') /\ env_rep e' m /\
    Lookup ad' ATTR_JOB_ENVIRONMENT2 = Lookup ad ATTR_JOB_ENVIRONMENT2.
Proof.
  intros Hr. unfold insert_env1. set (ad1 := match match opsys with Some _ => _ | None => _ end with None => Assign _ _ _ | Some _ => _ end).
  assert (H1 : Lookup ad1 ATTR_JOB_ENVIRONMENT2 = Lookup ad ATTR_JOB_ENVIRONMENT2).
  { subst ad1. case_match; [done|]. unfold Assign, InsertAttr. by rewrite Insert_lookup, decide_False. }
  match goal with |- context [getDelimitedStringV1Raw e [] err ?d] => destruct (V1Raw_spec e m [] err d Hr) as (e' & s & ok & err' & -> & Hr' & _) end.
  simpl. destruct ok; (eexists _, _, _; split; [reflexivity|]; split; [done|]);
    unfold Assign, InsertAttr; rewrite Insert_lookup, decide_False; done.
Qed.

Lemma texts_no_nul e m : env_rep e m -> map_Forall (fun k v => no_nul k && no_nul v) m -> forallb no_nul (texts e).
Proof.
  intros Hr Hn. destruct (rep_entries e m Hr) as (_ & _ & Hin). apply Is_true_true, forallb_forall. intros x Hx%list_elem_of_In.
  unfold texts in Hx. apply list_elem_of_fmap in Hx as ([k v] & -> & Hkv%Hin). specialize (Hn k v Hkv). simpl in Hn.
  apply andb_True in Hn as [Hk Hv]. apply Is_true_true. unfold entry_text. simpl. destruct (has_value v); [|done].
  rewrite !no_nul_app, !andb_True. by split_and!.
Qed.

(** An environment put into a job ad, for a version that understands V2 and an ad that
    has the V2 attribute or no environment yet, is read back from the ad as the same variables,
    whatever the V1 attribute becomes. *)
Theorem env_ad_roundtrip e m e0 m0 ad v opsys err :
  env_rep e m -> expressible_env m -> map_Forall (fun k v => no_nul k && no_nul v) m -> env_rep e0 m0 ->
  match v with Some v => CondorVersionRequiresV1 v = false | None => True end ->
  (is_Some (Lookup ad ATTR_JOB_ENVIRONMENT2) \/ Lookup ad ATTR_JOB_ENVIRONMENT1 = None) ->
  exists e' ad' err' e1, InsertEnvIntoClassAd e ad err opsys v = Done (e', ad', true, err') /\ env_rep e' m /\
    MergeFrom_ad e0 ad' err = Done (e1, true, err) /\ env_rep e1 (m ∪ m0).
Proof.
  intros Hr Hm Hn Hr0 Hv Had. unfold InsertEnvIntoClassAd.
  assert (Hreq : match v with Some v => CondorVersionRequiresV1 v | None => false end = false) by by destruct v. rewrite Hreq.
  simpl. set (has1 := bool_decide (is_Some (Lookup ad ATTR_JOB_ENVIRONMENT1))). set (has2 := bool_decide _).
  assert (Hb : (has2 || negb has1) && true = true).
  { subst has1 has2. destruct Had as [H2|H1]; [by rewrite (bool_decide_true _ H2)|]. rewrite H1. rewrite (bool_decide_false (is_Some None)) by (by intros [? ?]). by rewrite orb_true_r. }
  rewrite Hb. destruct (V2Raw_spec e m [] false Hr) as (e' & -> & Hr' & _). simpl. set (env2 := join_args (texts e) [] 0).
  assert (Hl : Lookup (Assign ad ATTR_JOB_ENVIRONMENT2 env2) ATTR_JOB_ENVIRONMENT2 = Some (StringLiteral env2)).
  { unfold Assign, InsertAttr. by rewrite Insert_lookup, decide_True. }
  assert (Hread : forall ad', Lookup ad' ATTR_JOB_ENVIRONMENT2 = Some (StringLiteral env2) ->
    exists e1, MergeFrom_ad e0 ad' err = Done (e1, true, err) /\ env_rep e1 (m ∪ m0)).
  { intros ad' Hl'. unfold MergeFrom_ad, LookupString, EvaluateAttrString. rewrite Hl', evaluate_literal. simpl. rewrite until_nul_id.
    - by apply (merge_v2 e m e0 m0 _ err Hr Hm Hr0), (split_join (texts e) []).
    - subst env2. unfold join_args. rewrite drop_0. by apply join_args_no_nul, (texts_no_nul e m). }
  rewrite orb_false_r. destruct has1 eqn:E1.
  - assert (E2 : has2 = true) by (by destruct has2). rewrite E2.
    destruct (insert_env1_keeps e' m (Assign ad ATTR_JOB_ENVIRONMENT2 env2) err opsys Hr') as (e2 & ad' & err' & -> & Hr2 & Hl2).
    destruct (Hread ad') as (e1 & Em & Hr1); [congruence|]. by exists e2, ad', err', e1.
  - destruct (Hread _ Hl) as (e1 & Em & Hr1). by eexists e', _, err, e1.
Qed.
End ad_laws.
End laws.
