(* ===== verification/ClassAdOps.v ===== *)
(** The operators of the ClassAd language: classad/operators.cpp, classad/value.h and value.cpp.

    Values are tagged; arithmetic is that of C++ [int] and [double].  An [int] that overflows wraps
    around; where C++ leaves the behaviour undefined and the machine traps or answers at random (the
    division of INT_MIN by -1, shifts by a negative amount or by 32 and more, the conversion to [int] of
    a [double] out of range) the model stops with EXCEPT.  A [double] is a [spec_float] of the standard
    library with 53 bits of precision. *)

From Stdlib Require Import SpecFloat.
From S2P Require Import Prelude.

Open Scope Z_scope.

(** ** Doubles *)

Notation double := spec_float.
Definition double_of_Z (z : Z) : double := binary_normalize 53 1024 z 0 false.
Definition dadd : double -> double -> double := SFadd 53 1024.
Definition dsub : double -> double -> double := SFsub 53 1024.
Definition dmul : double -> double -> double := SFmul 53 1024.
Definition ddiv : double -> double -> double := SFdiv 53 1024.
(** [comp == HUGE_VAL] *)
Definition is_huge_val (r : double) : bool := match r with S754_infinity false => true | _ => false end.
Definition is_nan (r : double) : bool := match r with S754_nan => true | _ => false end.
(** [(int) r], truncated; [None] when it does not fit. *)
Definition int_of_double (r : double) : option Z :=
  match r with
  | S754_zero _ => Some 0
  | S754_finite s m e =>
      let a := if 0 <=? e then Z.pos m * 2 ^ e else Z.pos m / 2 ^ (- e) in
      let z := if (s : bool) then - a else a in
      if (- 2 ^ 31 <=? z) && (z <? 2 ^ 31) then Some z else None
  | _ => None
  end.

(** ** Values and expressions *)

Inductive OpKind :=
| __NO_OP__
| LESS_THAN_OP | LESS_OR_EQUAL_OP | NOT_EQUAL_OP | EQUAL_OP | GREATER_OR_EQUAL_OP | GREATER_THAN_OP
| META_EQUAL_OP | META_NOT_EQUAL_OP
| UNARY_PLUS_OP | UNARY_MINUS_OP | ADDITION_OP | SUBTRACTION_OP | MULTIPLICATION_OP | DIVISION_OP | MODULUS_OP
| LOGICAL_NOT_OP | LOGICAL_OR_OP | LOGICAL_AND_OP
| BITWISE_NOT_OP | BITWISE_OR_OP | BITWISE_XOR_OP | BITWISE_AND_OP | LEFT_SHIFT_OP | RIGHT_SHIFT_OP | URIGHT_SHIFT_OP
| PARENTHESES_OP | SUBSCRIPT_OP | TERNARY_OP.
#[export] Instance OpKind_eq_dec : EqDecision OpKind.
Proof. solve_decision. Defined.

Inductive NumberFactor := NO_FACTOR | B_FACTOR | K_FACTOR | M_FACTOR | G_FACTOR | T_FACTOR.

(** A ClassAd is known by its address, see ClassAdEval.  A list keeps the ad that is the parent scope of
    its elements. *)
Inductive Value :=
| ErrorValue
| UndefinedValue
| BooleanValue (b : bool)
| IntegerValue (i : Z)
| RealValue (r : double)
| RelativeTimeValue (secs : double)
| AbsoluteTimeValue (secs offset : Z)
| StringValue (s : bytes)
| ClassAdValue (ad : Z)
| ListValue (scope : option Z) (l : list ExprTree)
with ExprTree :=
| Literal (value : Value) (factor : NumberFactor)
| AttributeReference (expr : option ExprTree) (attributeStr : bytes) (absolute : bool)
| Operation (operation : OpKind) (child1 child2 child3 : option ExprTree)
| FunctionCall (functionName : bytes) (arguments : list ExprTree)
| ClassAdNode (ad : Z)
| ExprList (scope : option Z) (exprList : list ExprTree).

Inductive ValueType :=
| ERROR_VALUE | UNDEFINED_VALUE | BOOLEAN_VALUE | INTEGER_VALUE | REAL_VALUE
| RELATIVE_TIME_VALUE | ABSOLUTE_TIME_VALUE | STRING_VALUE | CLASSAD_VALUE | LIST_VALUE.
#[export] Instance ValueType_eq_dec : EqDecision ValueType.
Proof. solve_decision. Defined.

Definition GetType (v : Value) : ValueType :=
  match v with
  | ErrorValue => ERROR_VALUE | UndefinedValue => UNDEFINED_VALUE | BooleanValue _ => BOOLEAN_VALUE
  | IntegerValue _ => INTEGER_VALUE | RealValue _ => REAL_VALUE | RelativeTimeValue _ => RELATIVE_TIME_VALUE
  | AbsoluteTimeValue _ _ => ABSOLUTE_TIME_VALUE | StringValue _ => STRING_VALUE
  | ClassAdValue _ => CLASSAD_VALUE | ListValue _ _ => LIST_VALUE
  end.
Definition is_type (v : Value) (t : ValueType) : bool := bool_decide (GetType v = t).
Definition IsExceptional (v : Value) : bool := is_type v ERROR_VALUE || is_type v UNDEFINED_VALUE.

(** [_useOldClassAdSemantics], set by HTCondor unless STRICT_CLASSAD_EVALUATION is. *)
Definition IsBooleanValueEquiv (oldSemantics : bool) (v : Value) : option bool :=
  match v with
  | BooleanValue b => Some b
  | IntegerValue i => if oldSemantics then Some (negb (i =? 0)) else None
  | RealValue r => if oldSemantics then Some (negb (SFeqb r (S754_zero false))) else None
  | _ => None
  end.

Definition SIG_NONE : Z := 0.
Definition SIG_CHLD1 : Z := 1.
Definition SIG_CHLD2 : Z := 2.
Definition SIG_CHLD3 : Z := 4.
Definition SIG_BOTH : Z := Z.lor SIG_CHLD1 SIG_CHLD2.

Definition IsStrictOperator (op : OpKind) : bool :=
  match op with
  | META_EQUAL_OP | META_NOT_EQUAL_OP | LOGICAL_AND_OP | LOGICAL_OR_OP | TERNARY_OP => false
  | _ => true
  end.
(** The ranges of the enumeration. *)
Definition is_comparison (op : OpKind) : bool :=
  match op with
  | LESS_THAN_OP | LESS_OR_EQUAL_OP | NOT_EQUAL_OP | EQUAL_OP | GREATER_OR_EQUAL_OP | GREATER_THAN_OP
  | META_EQUAL_OP | META_NOT_EQUAL_OP => true
  | _ => false
  end.
Definition is_arithmetic (op : OpKind) : bool :=
  match op with
  | UNARY_PLUS_OP | UNARY_MINUS_OP | ADDITION_OP | SUBTRACTION_OP | MULTIPLICATION_OP | DIVISION_OP | MODULUS_OP => true
  | _ => false
  end.
Definition is_logic (op : OpKind) : bool :=
  match op with LOGICAL_NOT_OP | LOGICAL_OR_OP | LOGICAL_AND_OP => true | _ => false end.
Definition is_bitwise (op : OpKind) : bool :=
  match op with
  | BITWISE_NOT_OP | BITWISE_OR_OP | BITWISE_XOR_OP | BITWISE_AND_OP | LEFT_SHIFT_OP | RIGHT_SHIFT_OP | URIGHT_SHIFT_OP => true
  | _ => false
  end.

(** ** Comparison *)

(** coerceToNumber(): the operands after the promotion and the type of the result. *)
Definition promote_bool (v : Value) : Value := match v with BooleanValue b => IntegerValue (if b then 1 else 0) | _ => v end.
Definition coerceToNumber (v1 v2 : Value) : Value * Value * ValueType :=
  let either t := is_type v1 t || is_type v2 t in
  if either CLASSAD_VALUE then (v1, v2, CLASSAD_VALUE)
  else if either LIST_VALUE then (v1, v2, LIST_VALUE)
  else if either STRING_VALUE then (v1, v2, STRING_VALUE)
  else if either UNDEFINED_VALUE then (v1, v2, UNDEFINED_VALUE)
  else if either ERROR_VALUE then (v1, v2, ERROR_VALUE)
  else if either ABSOLUTE_TIME_VALUE then (v1, v2, ABSOLUTE_TIME_VALUE)
  else if either RELATIVE_TIME_VALUE then (v1, v2, RELATIVE_TIME_VALUE)
  else
    match promote_bool v1, promote_bool v2 with
    | IntegerValue i1, IntegerValue i2 => (IntegerValue i1, IntegerValue i2, INTEGER_VALUE)
    | IntegerValue i1, w2 => (RealValue (double_of_Z i1), w2, REAL_VALUE)
    | w1, IntegerValue i2 => (w1, RealValue (double_of_Z i2), REAL_VALUE)
    | w1, w2 => (w1, w2, REAL_VALUE)
    end.

(** The switch of the compare functions, on the answers of [<], [==] and [>]; the [None] is the
    "Should not get here". *)
Definition compare_by (op : OpKind) (lt eq gt : bool) : option bool :=
  match op with
  | LESS_THAN_OP => Some lt
  | LESS_OR_EQUAL_OP => Some (lt || eq)
  | EQUAL_OP => Some eq
  | NOT_EQUAL_OP => Some (negb eq)
  | GREATER_THAN_OP => Some gt
  | GREATER_OR_EQUAL_OP => Some (gt || eq)
  | _ => None
  end.
Definition compared (o : option bool) : outcome Value :=
  match o with Some b => Done (BooleanValue b) | None => EXCEPT "Should not get here" end.

Definition compareIntegers (op : OpKind) (i1 i2 : Z) : outcome Value := compared (compare_by op (i1 <? i2) (i1 =? i2) (i2 <? i1)).
Definition compareReals (op : OpKind) (r1 r2 : double) : outcome Value := compared (compare_by op (SFltb r1 r2) (SFeqb r1 r2) (SFltb r2 r1)).
Definition compareBools (op : OpKind) (b1 b2 : bool) : outcome Value := compareIntegers op (if b1 then 1 else 0) (if b2 then 1 else 0).
Definition compareAbsoluteTimes (op : OpKind) (secs1 secs2 : Z) : outcome Value := compareIntegers op secs1 secs2.
Definition compareRelativeTimes (op : OpKind) (r1 r2 : double) : outcome Value := compareReals op r1 r2.

(** strcmp() of the bytes as unsigned characters. *)
Fixpoint strcmp (s1 s2 : bytes) : comparison :=
  match s1, s2 with
  | [], [] => Eq
  | [], _ :: _ => Lt
  | _ :: _, [] => Gt
  | c1 :: r1, c2 :: r2 =>
      match (nat_of_ascii c1 ?= nat_of_ascii c2)%nat with Eq => strcmp r1 r2 | x => x end
  end.
Definition strcasecmp (s1 s2 : bytes) : comparison := strcmp (lower s1) (lower s2).
Definition compareStrings (op : OpKind) (s1 s2 : bytes) (exact : bool) : Value :=
  let cmp := (if exact then strcmp else strcasecmp) (until_nul s1) (until_nul s2) in
  BooleanValue
    match cmp with
    | Lt => bool_decide (op = LESS_THAN_OP \/ op = LESS_OR_EQUAL_OP \/ op = NOT_EQUAL_OP)
    | Eq => bool_decide (op = LESS_OR_EQUAL_OP \/ op = EQUAL_OP \/ op = GREATER_OR_EQUAL_OP)
    | Gt => bool_decide (op = GREATER_THAN_OP \/ op = GREATER_OR_EQUAL_OP \/ op = NOT_EQUAL_OP)
    end.

(** The switch over the coerced type. *)
Definition compare_values (op : OpKind) (v1 v2 : Value) (coerceResult : ValueType) (exact : bool) : outcome Value :=
  match coerceResult with
  | STRING_VALUE =>
      match v1, v2 with StringValue s1, StringValue s2 => Done (compareStrings op s1 s2 exact) | _, _ => Done ErrorValue end
  | INTEGER_VALUE =>
      match v1, v2 with IntegerValue i1, IntegerValue i2 => compareIntegers op i1 i2 | _, _ => Done ErrorValue end
  | REAL_VALUE =>
      match v1, v2 with RealValue r1, RealValue r2 => compareReals op r1 r2 | _, _ => Done ErrorValue end
  | BOOLEAN_VALUE =>
      match v1, v2 with BooleanValue b1, BooleanValue b2 => compareBools op b1 b2 | _, _ => Done ErrorValue end
  | LIST_VALUE | CLASSAD_VALUE => Done ErrorValue
  | ABSOLUTE_TIME_VALUE =>
      match v1, v2 with AbsoluteTimeValue t1 _, AbsoluteTimeValue t2 _ => compareAbsoluteTimes op t1 t2 | _, _ => Done ErrorValue end
  | RELATIVE_TIME_VALUE =>
      match v1, v2 with RelativeTimeValue t1, RelativeTimeValue t2 => compareRelativeTimes op t1 t2 | _, _ => Done ErrorValue end
  | UNDEFINED_VALUE | ERROR_VALUE => EXCEPT "Should not get here"
  end.

Definition doComparison (op : OpKind) (v1 v2 : Value) : outcome (Value * Z) :=
  let '(w1, w2, coerceResult) := coerceToNumber v1 v2 in
  let exceptional := IsExceptional w1 in
  let same := bool_decide (GetType w1 = GetType w2) in
  (let! v :=
     match op with
     | META_EQUAL_OP =>
         if negb same then Done (BooleanValue false)
         else if exceptional then Done (BooleanValue true)
         else compare_values EQUAL_OP w1 w2 coerceResult true
     | META_NOT_EQUAL_OP =>
         if negb same then Done (BooleanValue true)
         else if exceptional then Done (BooleanValue false)
         else compare_values NOT_EQUAL_OP w1 w2 coerceResult true
     | _ => compare_values op w1 w2 coerceResult false
     end in
   Done (v, SIG_BOTH))%outcome.

(** ** Arithmetic *)

Definition INT_MIN : Z := - 2 ^ 31.

Definition doIntegerArithmetic (op : OpKind) (i1 i2 : Z) : outcome Value :=
  match op with
  | ADDITION_OP => Done (IntegerValue (wrap32 (i1 + i2)))
  | SUBTRACTION_OP => Done (IntegerValue (wrap32 (i1 - i2)))
  | MULTIPLICATION_OP => Done (IntegerValue (wrap32 (i1 * i2)))
  | DIVISION_OP =>
      if i2 =? 0 then Done ErrorValue
      else if (i1 =? INT_MIN) && (i2 =? -1) then EXCEPT "integer overflow in a division"
      else Done (IntegerValue (Z.quot i1 i2))
  | MODULUS_OP =>
      if i2 =? 0 then Done ErrorValue
      else if (i1 =? INT_MIN) && (i2 =? -1) then EXCEPT "integer overflow in a division"
      else Done (IntegerValue (Z.rem i1 i2))
  | _ => EXCEPT "Should not get here"
  end.

(** The trap handler is compiled out; errno is EDOM for the modulus only. *)
Definition doRealArithmetic (op : OpKind) (r1 r2 : double) : outcome Value :=
  let real comp := Done (if is_huge_val comp then ErrorValue else RealValue comp) in
  match op with
  | ADDITION_OP => real (dadd r1 r2)
  | SUBTRACTION_OP => real (dsub r1 r2)
  | MULTIPLICATION_OP => real (dmul r1 r2)
  | DIVISION_OP => real (ddiv r1 r2)
  | MODULUS_OP => Done ErrorValue
  | _ => EXCEPT "Should not get here"
  end.

Definition int_cast (r : double) (k : Z -> Value) : outcome Value :=
  match int_of_double r with Some i => Done (k i) | None => EXCEPT "conversion of a double out of range" end.
Definition times (op : OpKind) (r1 r2 : double) : Value :=
  RelativeTimeValue (match op with MULTIPLICATION_OP => dmul r1 r2 | _ => ddiv r1 r2 end).
(** A real and a relative time share their place in the union, so the real factor of the last case is
    read correctly although it is asked for as a time. *)
Definition doTimeArithmetic (op : OpKind) (v1 v2 : Value) : outcome Value :=
  match op, v1, v2 with
  | ADDITION_OP, AbsoluteTimeValue s o, RelativeTimeValue r => int_cast r (fun i => AbsoluteTimeValue (s + i) o)
  | ADDITION_OP, RelativeTimeValue r, AbsoluteTimeValue s o => int_cast r (fun i => AbsoluteTimeValue (s + i) o)
  | ADDITION_OP, RelativeTimeValue r1, RelativeTimeValue r2 => Done (RelativeTimeValue (dadd r1 r2))
  | SUBTRACTION_OP, AbsoluteTimeValue s1 _, AbsoluteTimeValue s2 _ => Done (RelativeTimeValue (double_of_Z (s1 - s2)))
  | SUBTRACTION_OP, AbsoluteTimeValue s o, RelativeTimeValue r => int_cast r (fun i => AbsoluteTimeValue (s - i) o)
  | SUBTRACTION_OP, RelativeTimeValue r1, RelativeTimeValue r2 => Done (RelativeTimeValue (dsub r1 r2))
  | (MULTIPLICATION_OP | DIVISION_OP), RelativeTimeValue r, IntegerValue num => Done (times op r (double_of_Z num))
  | (MULTIPLICATION_OP | DIVISION_OP), RelativeTimeValue r, RealValue num => Done (times op r num)
  | MULTIPLICATION_OP, IntegerValue num, RelativeTimeValue r => Done (RelativeTimeValue (dmul (double_of_Z num) r))
  | MULTIPLICATION_OP, RealValue r, RelativeTimeValue num => Done (RelativeTimeValue (dmul r num))
  | _, _, _ => Done ErrorValue
  end.

Definition has_arithmetic_type (v : Value) : bool :=
  match v with
  | IntegerValue _ | RealValue _ | AbsoluteTimeValue _ _ | RelativeTimeValue _ | BooleanValue _ => true
  | _ => false
  end.
Definition doArithmetic (op : OpKind) (v1 v2 : Value) : outcome (Value * Z) :=
  if negb (has_arithmetic_type v1) || (negb (bool_decide (op = UNARY_MINUS_OP)) && negb (has_arithmetic_type v2))
  then Done (ErrorValue, SIG_BOTH)
  else if bool_decide (op = UNARY_MINUS_OP) then
    Done (match v1 with
          | IntegerValue i => IntegerValue (wrap32 (- i))
          | RealValue r => RealValue (SFopp r)
          | RelativeTimeValue t => RelativeTimeValue (SFopp t)
          | _ => ErrorValue   (* a boolean is negated, and then overwritten *)
          end, SIG_CHLD1)
  else
    (let! v :=
       match coerceToNumber v1 v2 with
       | (IntegerValue i1, IntegerValue i2, INTEGER_VALUE) => doIntegerArithmetic op i1 i2
       | (RealValue r1, RealValue r2, REAL_VALUE) => doRealArithmetic op r1 r2
       | (w1, w2, (ABSOLUTE_TIME_VALUE | RELATIVE_TIME_VALUE)) => doTimeArithmetic op w1 w2
       | _ => EXCEPT "Should not get here"
       end in
     Done (v, SIG_BOTH))%outcome.

(** ** Logic *)

Section semantics.
Variable oldSemantics : bool.

Definition coerce_bool (v : Value) : Value := match IsBooleanValueEquiv oldSemantics v with Some b => BooleanValue b | None => v end.
Definition is_truth (v : Value) : bool :=
  match v with UndefinedValue | ErrorValue | BooleanValue _ => true | _ => false end.

Definition doLogical (op : OpKind) (u1 u2 : Value) : outcome (Value * Z) :=
  let v1 := coerce_bool u1 in
  let v2 := coerce_bool u2 in
  if negb (is_truth v1) then Done (ErrorValue, SIG_CHLD1)
  else if negb (is_truth v2) then Done (ErrorValue, SIG_CHLD2)
  else
    match op with
    | LOGICAL_NOT_OP => Done (match v1 with BooleanValue b1 => BooleanValue (negb b1) | _ => v1 end, SIG_CHLD1)
    | LOGICAL_OR_OP =>
        match v1 with
        | BooleanValue true => Done (BooleanValue true, SIG_CHLD1)
        | ErrorValue => Done (ErrorValue, SIG_CHLD1)
        | BooleanValue false => Done (v2, SIG_BOTH)
        | _ => Done (match v2 with BooleanValue true => BooleanValue true | BooleanValue false => UndefinedValue | _ => v2 end, SIG_BOTH)
        end
    | LOGICAL_AND_OP =>
        match v1 with
        | BooleanValue false => Done (BooleanValue false, SIG_CHLD1)
        | ErrorValue => Done (ErrorValue, SIG_CHLD1)
        | BooleanValue true => Done (v2, SIG_BOTH)
        | _ => Done (match v2 with BooleanValue false => BooleanValue false | BooleanValue true => UndefinedValue | _ => v2 end, SIG_BOTH)
        end
    | _ => EXCEPT "Shouldn't reach here"
    end.

(** ** Bits *)

(** [~INT_MAX] *)
Definition signMask : Z := INT_MIN.
(** The loop of RIGHT_SHIFT_OP on a negative number. *)
Fixpoint shift_signed (n : nat) (val : Z) : Z :=
  match n with O => val | S n' => shift_signed n' (Z.lor (Z.shiftr val 1) signMask) end.
Definition shift_ok (i2 : Z) : bool := (0 <=? i2) && (i2 <? 32).
Definition shifted (i2 : Z) (z : Z) : outcome Value :=
  if shift_ok i2 then Done (IntegerValue z) else EXCEPT "shift by a negative amount or by the width and more".

Definition doBitwise (op : OpKind) (v1 v2 : Value) : outcome (Value * Z) :=
  match op, v1, v2 with
  | BITWISE_NOT_OP, IntegerValue i1, _ => Done (IntegerValue (Z.lnot i1), SIG_CHLD1)
  | BITWISE_NOT_OP, _, _ => Done (ErrorValue, SIG_CHLD1)
  | _, IntegerValue i1, IntegerValue i2 =>
      (let! v :=
         match op with
         | BITWISE_OR_OP => Done (IntegerValue (Z.lor i1 i2))
         | BITWISE_AND_OP => Done (IntegerValue (Z.land i1 i2))
         | BITWISE_XOR_OP => Done (IntegerValue (Z.lxor i1 i2))
         | LEFT_SHIFT_OP => shifted i2 (wrap32 (Z.shiftl i1 i2))
         | URIGHT_SHIFT_OP =>
             if 0 <=? i1 then shifted i2 (Z.shiftr i1 i2)
             else shifted (i2 - 1) (Z.shiftr (Z.land (Z.shiftr i1 1) (Z.lnot signMask)) (i2 - 1))
         | RIGHT_SHIFT_OP =>
             if 0 <=? i1 then shifted i2 (Z.shiftr i1 i2) else Done (IntegerValue (shift_signed (Z.to_nat i2) i1))
         | _ => EXCEPT "Should not get here"
         end in
       Done (v, SIG_BOTH))%outcome
  | _, _, _ => Done (ErrorValue, SIG_BOTH)
  end.

(** ** _doOperation() *)

(** The strict operators hand on errors first, then undefined values. *)
Definition strict_result (v1 v2 v3 : Value) (valid1 valid2 valid3 : bool) : option (Value * Z) :=
  if is_type v1 ERROR_VALUE then Some (ErrorValue, SIG_CHLD1)
  else if valid2 && is_type v2 ERROR_VALUE then Some (ErrorValue, SIG_CHLD2)
  else if valid3 && is_type v3 ERROR_VALUE then Some (ErrorValue, SIG_CHLD3)
  else if valid1 && is_type v1 UNDEFINED_VALUE then Some (UndefinedValue, SIG_CHLD1)
  else if valid2 && is_type v2 UNDEFINED_VALUE then Some (UndefinedValue, SIG_CHLD2)
  else if valid3 && is_type v3 UNDEFINED_VALUE then Some (UndefinedValue, SIG_CHLD3)
  else None.

(** The value and its significant children; [None] asks the evaluator for the element of a list or for
    an attribute of an ad. *)
Definition _doOperation (op : OpKind) (v1 v2 v3 : Value) (valid1 valid2 valid3 : bool) : outcome (option (Value * Z)) :=
  let done r := (let! x := r in Done (Some x))%outcome in
  match op with
  | __NO_OP__ | PARENTHESES_OP => Done (Some (v1, SIG_CHLD1))
  | UNARY_PLUS_OP =>
      Done (Some (match v1 with
                  | BooleanValue _ | StringValue _ | ListValue _ _ | ClassAdValue _ | AbsoluteTimeValue _ _ => ErrorValue
                  | _ => v1
                  end, SIG_CHLD1))
  | _ =>
      match (if IsStrictOperator op then strict_result v1 v2 v3 valid1 valid2 valid3 else None) with
      | Some r => Done (Some r)
      | None =>
          if is_comparison op then done (doComparison op v1 v2)
          else if is_arithmetic op then done (doArithmetic op v1 v2)
          else if is_logic op then done (doLogical op v1 v2)
          else if is_bitwise op then done (doBitwise op v1 v2)
          else
            match op with
            | TERNARY_OP =>
                Done (Some
                  match v1 with
                  | UndefinedValue => (UndefinedValue, SIG_CHLD1)
                  | _ =>
                      match IsBooleanValueEquiv oldSemantics v1 with
                      | None => (ErrorValue, SIG_CHLD1)
                      | Some true => (v2, SIG_CHLD2)
                      | Some false => (v3, SIG_CHLD3)
                      end
                  end)
            | SUBSCRIPT_OP =>
                match v1, v2 with
                | ClassAdValue _, StringValue _ | ListValue _ _, IntegerValue _ => Done None
                | _, _ => Done (Some (ErrorValue, SIG_BOTH))
                end
            | _ => EXCEPT "Should not get here"
            end
      end
  end.
End semantics.

(** ** Integers stay in range, and no operator gets stuck *)

Definition int_range (i : Z) : Prop := - 2 ^ 31 <= i < 2 ^ 31.
Definition in_range (v : Value) : Prop := match v with IntegerValue i => int_range i | _ => True end.

(** The operands for which C++ gives no answer. *)
Definition faults (op : OpKind) (v1 v2 : Value) : bool :=
  match op, v1, v2 with
  | (DIVISION_OP | MODULUS_OP), IntegerValue i1, IntegerValue i2 => (i1 =? INT_MIN) && (i2 =? -1)
  | ADDITION_OP, AbsoluteTimeValue _ _, RelativeTimeValue r | ADDITION_OP, RelativeTimeValue r, AbsoluteTimeValue _ _
  | SUBTRACTION_OP, AbsoluteTimeValue _ _, RelativeTimeValue r => match int_of_double r with None => true | Some _ => false end
  | LEFT_SHIFT_OP, IntegerValue _, IntegerValue i2 => negb (shift_ok i2)
  | RIGHT_SHIFT_OP, IntegerValue i1, IntegerValue i2 => (0 <=? i1) && negb (shift_ok i2)
  | URIGHT_SHIFT_OP, IntegerValue i1, IntegerValue i2 => negb (shift_ok (if 0 <=? i1 then i2 else i2 - 1))
  | _, _, _ => false
  end.

Definition is_unary (op : OpKind) : bool :=
  match op with
  | __NO_OP__ | PARENTHESES_OP | UNARY_PLUS_OP | UNARY_MINUS_OP | LOGICAL_NOT_OP | BITWISE_NOT_OP => true
  | _ => false
  end.
(** The operands of an operation with as many children as the operator takes; the others are undefined. *)
Definition operate (old : bool) (op : OpKind) (v1 v2 v3 : Value) : outcome (option (Value * Z)) :=
  _doOperation old op v1 (if is_unary op then UndefinedValue else v2) (if bool_decide (op = TERNARY_OP) then v3 else UndefinedValue)
    true (negb (is_unary op)) (bool_decide (op = TERNARY_OP)).

Lemma wrap32_range z : int_range (wrap32 z).
Proof. unfold wrap32, int_range. pose proof (Z.mod_pos_bound (z + 2 ^ 31) (2 ^ 32) ltac:(lia)). lia. Qed.
Lemma wrap32_small z : int_range z -> wrap32 z = z.
Proof. unfold wrap32, int_range. intros Hz. rewrite Z.mod_small; lia. Qed.

(** A number is in range when its bits from 31 on are all equal. *)
Lemma int_range_bits z : int_range z <-> forall n, 31 <= n -> Z.testbit z n = Z.testbit z 31.
Proof.
  unfold int_range. split.
  - intros Hz n Hn. destruct (Z.ltb_spec z 0) as [Hneg|Hpos].
    + assert (H : forall k, 31 <= k -> Z.testbit z k = true); [|by rewrite !H].
      intros k Hk. rewrite <- (Z.lnot_involutive z), Z.lnot_spec by lia. apply negb_true_iff.
      destruct (decide (Z.lnot z = 0)) as [->|]; [apply Z.bits_0|]. apply Z.bits_above_log2; [unfold Z.lnot; lia|]. unfold Z.lnot in *. apply Z.log2_lt_pow2; [lia|].
      assert (2 ^ 31 <= 2 ^ k) by (apply Z.pow_le_mono_r; lia). lia.
    + assert (H : forall k, 31 <= k -> Z.testbit z k = false); [|by rewrite !H].
      intros k Hk. destruct (decide (z = 0)) as [->|]; [apply Z.bits_0|]. apply Z.bits_above_log2; [lia|]. apply Z.log2_lt_pow2; [lia|].
      assert (2 ^ 31 <= 2 ^ k) by (apply Z.pow_le_mono_r; lia). lia.
  - intros Hb. assert (E : z = z mod 2 ^ 31 - (if Z.testbit z 31 then 2 ^ 31 else 0)).
    { assert (Hq : z / 2 ^ 31 = if Z.testbit z 31 then -1 else 0).
      { apply Z.bits_inj'. intros n Hn. rewrite Z.div_pow2_bits by lia. rewrite Hb by lia. destruct (Z.testbit z 31); [by rewrite Z.bits_m1|by rewrite Z.bits_0]. }
      pose proof (Z.div_mod z (2 ^ 31) ltac:(lia)). rewrite Hq in *. destruct (Z.testbit z 31); lia. }
    pose proof (Z.mod_pos_bound z (2 ^ 31) ltac:(lia)). destruct (Z.testbit z 31); lia.
Qed.
Lemma lbits_range f i1 i2 :
  (forall n, Z.testbit (f i1 i2) n = Z.testbit (f (Z.b2z (Z.testbit i1 n)) (Z.b2z (Z.testbit i2 n))) 0) -> int_range i1 -> int_range i2 -> int_range (f i1 i2).
Proof.
  rewrite !int_range_bits. intros Hf H1 H2 n Hn. by rewrite (Hf n), (Hf 31), (H1 n), (H2 n).
Qed.
Lemma lor_range i1 i2 : int_range i1 -> int_range i2 -> int_range (Z.lor i1 i2).
Proof. apply lbits_range. intros n. rewrite !Z.lor_spec, !Z.b2z_bit0. done. Qed.
Lemma land_range i1 i2 : int_range i1 -> int_range i2 -> int_range (Z.land i1 i2).
Proof. apply lbits_range. intros n. rewrite !Z.land_spec, !Z.b2z_bit0. done. Qed.
Lemma lxor_range i1 i2 : int_range i1 -> int_range i2 -> int_range (Z.lxor i1 i2).
Proof. apply lbits_range. intros n. rewrite !Z.lxor_spec, !Z.b2z_bit0. done. Qed.
Lemma lnot_range i : int_range i -> int_range (Z.lnot i).
Proof. unfold int_range, Z.lnot. lia. Qed.
Lemma shiftr_range i n : 0 <= n -> int_range i -> int_range (Z.shiftr i n).
Proof.
  unfold int_range. intros Hn Hi. rewrite Z.shiftr_div_pow2 by done. assert (0 < 2 ^ n) by (by apply Z.pow_pos_nonneg).
  split; [apply Z.div_le_lower_bound; nia|apply Z.div_lt_upper_bound; nia].
Qed.
Lemma quot_range i1 i2 : int_range i1 -> int_range i2 -> i2 <> 0 -> (i1 =? INT_MIN) && (i2 =? -1) = false -> int_range (Z.quot i1 i2).
Proof.
  unfold int_range, INT_MIN. intros H1 H2 Hz Hf. apply andb_false_iff in Hf. rewrite !Z.eqb_neq in Hf.
  assert (Ha : Z.abs (Z.quot i1 i2) <= Z.abs i1) by (rewrite <- Z.quot_abs by done; apply Z.quot_le_upper_bound; nia).
  assert (Hs : i1 = - 2 ^ 31 -> Z.quot i1 i2 <> 2 ^ 31).
  { intros -> E. assert (i2 <> -1) by tauto. assert (E' : Z.abs (Z.quot (- 2 ^ 31) i2) = 2 ^ 31) by (rewrite E; done).
    rewrite <- Z.quot_abs in E' by done. change (Z.abs (- 2 ^ 31)) with (2 ^ 31) in E'. pose proof (Z.quot_rem' (2 ^ 31) (Z.abs i2)) as Q. rewrite E' in Q.
    pose proof (Z.rem_bound_pos (2 ^ 31) (Z.abs i2) ltac:(lia) ltac:(lia)). assert (Z.abs i2 = 1) by nia. assert (i2 = 1) by lia. subst i2.
    rewrite Z.quot_1_r in E. lia. }
  destruct (decide (i1 = - 2 ^ 31)) as [->|]; [specialize (Hs eq_refl)|]; lia.
Qed.
Lemma rem_range i1 i2 : int_range i1 -> int_range i2 -> i2 <> 0 -> int_range (Z.rem i1 i2).
Proof.
  unfold int_range. intros H1 H2 Hz. pose proof (Z.rem_bound_abs i1 i2 Hz). lia.
Qed.

(** *** Shifts *)

Lemma sign_or val : int_range val -> val < 0 -> Z.lor (Z.shiftr val 1) signMask = Z.shiftr val 1.
Proof.
  intros Hr Hneg. pose proof (shiftr_range val 1 ltac:(lia) Hr) as Hs. apply Z.bits_inj'. intros n Hn. rewrite Z.lor_spec.
  destruct (Z.ltb_spec n 31) as [H1|H1].
  - replace (Z.testbit signMask n) with false; [by rewrite orb_false_r|]. unfold signMask, INT_MIN. rewrite <- (Z.mul_1_l (2 ^ 31)), <- Z.mul_opp_l.
    by rewrite Z.mul_pow2_bits_low.
  - assert (Hb : Z.testbit (Z.shiftr val 1) n = true).
    { rewrite Z.shiftr_spec by lia. pose proof (proj1 (int_range_bits val) Hr) as Hv. rewrite Hv by lia. destruct (Z.testbit val 31) eqn:E; [done|].
      exfalso. assert (0 <= val); [|lia]. apply Z.bits_iff_nonneg_ex. exists 31. intros m Hm. rewrite Hv by lia. done. }
    by rewrite Hb.
Qed.
Lemma shift_signed_spec n val : int_range val -> val < 0 -> shift_signed n val = Z.shiftr val (Z.of_nat n).
Proof.
  revert val. induction n as [|n IH]; intros val Hr Hneg; [by rewrite Z.shiftr_0_r|]. cbn [shift_signed]. rewrite sign_or by done.
  rewrite IH; [|apply shiftr_range; [lia|done]|].
  - rewrite Z.shiftr_shiftr by lia. f_equal. lia.
  - rewrite Z.shiftr_div_pow2 by lia. apply Z.div_lt_upper_bound; lia.
Qed.
Lemma unsigned_shift i1 i2 : int_range i1 -> i1 < 0 -> 1 <= i2 ->
  Z.shiftr (Z.land (Z.shiftr i1 1) (Z.lnot signMask)) (i2 - 1) = Z.shiftr (i1 mod 2 ^ 32) i2.
Proof.
  intros Hr Hneg Hi. apply Z.bits_inj'. intros n Hn. rewrite !Z.shiftr_spec by lia. rewrite Z.land_spec, Z.shiftr_spec by lia.
  replace (n + (i2 - 1) + 1) with (n + i2) by lia.
  destruct (Z.ltb_spec (n + i2) 32) as [H1|H1].
  - rewrite Z.mod_pow2_bits_low by lia. rewrite Z.lnot_spec by lia. replace (Z.testbit signMask (n + (i2 - 1))) with false; [by rewrite andb_true_r|].
    unfold signMask, INT_MIN. rewrite <- (Z.mul_1_l (2 ^ 31)), <- Z.mul_opp_l. rewrite Z.mul_pow2_bits_low; [done|lia].
  - rewrite Z.mod_pow2_bits_high by lia. rewrite Z.lnot_spec by lia. apply andb_false_iff. right. apply negb_false_iff.
    unfold signMask, INT_MIN. rewrite <- (Z.mul_1_l (2 ^ 31)), <- Z.mul_opp_l. rewrite Z.mul_pow2_bits by lia. apply Z.bits_m1. lia.
Qed.

(** The shift operators on 32-bit integers, where C++ defines them: [>>] is the arithmetic
    shift, for negative numbers by any amount, [>>>] shifts the 32 bits of the number as an unsigned one,
    and [<<] keeps the low 32 bits. *)
Theorem shifts_spec i1 i2 :
  int_range i1 -> 0 <= i2 ->
  (i1 < 0 \/ i2 < 32 -> doBitwise RIGHT_SHIFT_OP (IntegerValue i1) (IntegerValue i2) = Done (IntegerValue (Z.shiftr i1 i2), SIG_BOTH)) /\
  ((0 <= i1 \/ 1 <= i2) /\ i2 < 32 ->
     doBitwise URIGHT_SHIFT_OP (IntegerValue i1) (IntegerValue i2) = Done (IntegerValue (Z.shiftr (i1 mod 2 ^ 32) i2), SIG_BOTH)) /\
  (i2 < 32 -> doBitwise LEFT_SHIFT_OP (IntegerValue i1) (IntegerValue i2) = Done (IntegerValue (wrap32 (i1 * 2 ^ i2)), SIG_BOTH)).
Proof.
  intros Hr Hi. unfold doBitwise, shifted, shift_ok. split_and!.
  - intros Hc. destruct (Z.leb_spec 0 i1).
    + rewrite (proj2 (Z.leb_le 0 i2)), (proj2 (Z.ltb_lt i2 32)) by lia. done.
    + simpl. by rewrite shift_signed_spec, Z2Nat.id by done.
  - intros [Hc Hl]. destruct (Z.leb_spec 0 i1).
    + rewrite (proj2 (Z.leb_le 0 i2)), (proj2 (Z.ltb_lt i2 32)) by lia. simpl. unfold int_range in Hr. by rewrite Z.mod_small by lia.
    + rewrite (proj2 (Z.leb_le 0 (i2 - 1))), (proj2 (Z.ltb_lt (i2 - 1) 32)) by lia. simpl. rewrite unsigned_shift by (done || lia). done.
  - intros Hl. rewrite (proj2 (Z.leb_le 0 i2)), (proj2 (Z.ltb_lt i2 32)) by lia. simpl. by rewrite Z.shiftl_mul_pow2.
Qed.

(** *** Every operator answers *)

#[local] Arguments SFltb : simpl never.
#[local] Arguments SFeqb : simpl never.
#[local] Arguments double_of_Z : simpl never.
#[local] Arguments wrap32 : simpl never.
#[local] Arguments strcmp : simpl never.
#[local] Arguments until_nul : simpl never.

(** What an operation may come to: a value in range, or a subscript. *)
Definition answers (r : outcome (Value * Z)) : Prop := exists v s, r = Done (v, s) /\ in_range v.

Lemma answers_intro v s : in_range v -> answers (Done (v, s)).
Proof. unfold answers. eauto. Qed.
Lemma answers_let (r : outcome Value) s : (exists v, r = Done v /\ in_range v) -> answers (let! v := r in Done (v, s))%outcome.
Proof. intros (v & -> & Hv). by apply answers_intro. Qed.

Lemma compared_total op lt eq gt : is_comparison op -> op <> META_EQUAL_OP -> op <> META_NOT_EQUAL_OP ->
  exists v, compared (compare_by op lt eq gt) = Done v /\ in_range v.
Proof. destruct op; try done; simpl; eauto. Qed.
Lemma compare_values_total op v1 v2 t exact : is_comparison op -> op <> META_EQUAL_OP -> op <> META_NOT_EQUAL_OP ->
  t <> UNDEFINED_VALUE -> t <> ERROR_VALUE -> exists v, compare_values op v1 v2 t exact = Done v /\ in_range v.
Proof.
  intros Ho H1 H2 H3 H4. assert (He : forall (o : outcome Value), o = Done ErrorValue -> exists v, o = Done v /\ in_range v) by (intros o ->; by eexists).
  unfold compare_values, compareIntegers, compareReals, compareBools, compareAbsoluteTimes, compareRelativeTimes, compareIntegers, compareReals.
  destruct t; try done; try (by apply He); destruct v1; try (by apply He); destruct v2; try (by apply He);
    try (by apply compared_total). by eexists.
Qed.
Lemma coerce_type v1 v2 : let '(w1, w2, t) := coerceToNumber v1 v2 in
  (t = UNDEFINED_VALUE \/ t = ERROR_VALUE -> IsExceptional w1 \/ IsExceptional w2) /\ (IsExceptional w1 -> IsExceptional v1) /\ (IsExceptional w2 -> IsExceptional v2) /\
  (IsExceptional v1 -> w1 = v1) /\ (IsExceptional v2 -> w2 = v2).
Proof. destruct v1, v2; (try by cbn; split_and!; intros; auto; destruct_or?; try done; auto). Qed.
Lemma doComparison_total op v1 v2 : is_comparison op -> (op = META_EQUAL_OP \/ op = META_NOT_EQUAL_OP \/ ~ IsExceptional v1 /\ ~ IsExceptional v2) ->
  answers (doComparison op v1 v2).
Proof.
  intros Ho Hm. unfold doComparison. pose proof (coerce_type v1 v2) as Hc. destruct (coerceToNumber v1 v2) as [[w1 w2] t].
  destruct Hc as (Ht & H1 & H2 & _).
  assert (Hmeta : forall op', is_comparison op' -> op' <> META_EQUAL_OP -> op' <> META_NOT_EQUAL_OP ->
    bool_decide (GetType w1 = GetType w2) = true -> IsExceptional w1 = false -> exists v, compare_values op' w1 w2 t true = Done v /\ in_range v).
  { intros op' Ha Hb Hc Hs%bool_decide_eq_true He. assert (He2 : IsExceptional w2 = false).
    { unfold IsExceptional, is_type in *. by rewrite <- Hs. }
    rewrite <- not_true_iff_false, <- Is_true_true in He, He2. apply compare_values_total; try done; intros ->; destruct Ht; auto. }
  apply answers_let. assert (Hcase : op = META_EQUAL_OP \/ op = META_NOT_EQUAL_OP \/ (op <> META_EQUAL_OP /\ op <> META_NOT_EQUAL_OP)) by (destruct op; auto).
  destruct Hcase as [->|[->|[Hn1 Hn2]]].
  - destruct (bool_decide _) eqn:Hs; simpl; [|by eexists]. destruct (IsExceptional w1) eqn:He; [by eexists|]. by apply Hmeta.
  - destruct (bool_decide _) eqn:Hs; simpl; [|by eexists]. destruct (IsExceptional w1) eqn:He; [by eexists|]. by apply Hmeta.
  - destruct Hm as [?|[?|[He1 He2]]]; [done..|].
    assert (Hv : exists v, compare_values op w1 w2 t false = Done v /\ in_range v).
    { apply compare_values_total; try done; intros ->; destruct Ht as [?|?]; auto. }
    by destruct op.
Qed.

Lemma doInteger_total op i1 i2 : int_range i1 -> int_range i2 -> is_arithmetic op -> op <> UNARY_PLUS_OP -> op <> UNARY_MINUS_OP ->
  faults op (IntegerValue i1) (IntegerValue i2) = false -> exists v, doIntegerArithmetic op i1 i2 = Done v /\ in_range v.
Proof.
  intros H1 H2 Ho Hp Hm Hf. destruct op; try done; simpl in *; try (eexists; split; [reflexivity|apply wrap32_range]).
  - destruct (Z.eqb_spec i2 0); [by eexists|]. rewrite Hf. eexists. split; [reflexivity|]. by apply quot_range.
  - destruct (Z.eqb_spec i2 0); [by eexists|]. rewrite Hf. eexists. split; [reflexivity|]. by apply rem_range.
Qed.
Lemma doReal_total op r1 r2 : is_arithmetic op -> op <> UNARY_PLUS_OP -> op <> UNARY_MINUS_OP ->
  exists v, doRealArithmetic op r1 r2 = Done v /\ in_range v.
Proof. intros Ho Hp Hm. destruct op; try done; simpl; (eexists; split; [reflexivity|]); try done; by destruct (is_huge_val _). Qed.
Lemma doTime_total op v1 v2 : faults op v1 v2 = false -> exists v, doTimeArithmetic op v1 v2 = Done v /\ in_range v.
Proof.
  assert (He : exists v, Done ErrorValue = Done v /\ in_range v) by (by eexists).
  unfold faults, doTimeArithmetic, int_cast. destruct op; try (intros _; exact He); destruct v1; try (intros _; exact He); destruct v2; try (intros _; exact He);
    intros Hf; try (eexists; split; [reflexivity|exact I]); destruct (int_of_double _); try done; eexists; (split; [reflexivity|exact I]).
Qed.
Lemma bool_range b : int_range (if b : bool then 1 else 0).
Proof. unfold int_range. destruct b; lia. Qed.

Lemma doArithmetic_total op v1 v2 : is_arithmetic op -> op <> UNARY_PLUS_OP -> in_range v1 -> in_range v2 -> faults op v1 v2 = false ->
  answers (doArithmetic op v1 v2).
Proof.
  intros Ho Hp H1 H2 Hf. unfold doArithmetic. destruct (negb (has_arithmetic_type v1) || _) eqn:Ht; [by apply answers_intro|].
  apply orb_false_iff in Ht as [Ht1 Ht2]. destruct (decide (op = UNARY_MINUS_OP)) as [->|Hm].
  { simpl. apply answers_intro. destruct v1; try done. apply wrap32_range. }
  rewrite bool_decide_false in * by done. simpl in Ht2. apply answers_let. apply negb_false_iff in Ht1, Ht2.
  destruct v1; try done; destruct v2; try done; simpl;
    (try (apply doReal_total; done)); (try (apply doTime_total; done));
    apply doInteger_total; try done; try apply bool_range; try (destruct op; try done; simpl; by destruct b, b0);
    destruct op; try done; simpl; (try destruct b); try done; unfold INT_MIN; try (rewrite andb_false_r; done); apply andb_false_iff; left; apply Z.eqb_neq; lia.
Qed.
Lemma doLogical_total old op v1 v2 : is_logic op -> answers (doLogical old op v1 v2).
Proof.
  intros Ho. unfold doLogical. destruct (is_truth (coerce_bool old v1)) eqn:H1; [|by apply answers_intro].
  destruct (is_truth (coerce_bool old v2)) eqn:H2; [|by apply answers_intro]. simpl.
  destruct (coerce_bool old v1) as [| |[]| | | | | | |]; try done; destruct (coerce_bool old v2) as [| |[]| | | | | | |]; try done;
    destruct op; try done; by apply answers_intro.
Qed.
Lemma shifted_total i2 z : shift_ok i2 = true -> int_range z -> exists v, shifted i2 z = Done v /\ in_range v.
Proof. intros Hs Hz. unfold shifted. rewrite Hs. eauto. Qed.
Lemma shift_ok_nonneg i2 : shift_ok i2 = true -> 0 <= i2.
Proof. unfold shift_ok. rewrite andb_true_iff, Z.leb_le. tauto. Qed.
Lemma shift_signed_range n i : int_range i -> i < 0 -> int_range (shift_signed n i).
Proof. intros Hr Hn. rewrite shift_signed_spec by done. apply shiftr_range; [lia|done]. Qed.

Lemma doBitwise_total op v1 v2 : is_bitwise op -> in_range v1 -> in_range v2 -> faults op v1 v2 = false -> answers (doBitwise op v1 v2).
Proof.
  intros Ho H1 H2 Hf. destruct (decide (op = BITWISE_NOT_OP)) as [->|Hn].
  { simpl. destruct v1; (apply answers_intro; try done). by apply lnot_range. }
  assert (He : answers (Done (ErrorValue, SIG_BOTH))) by (by apply answers_intro).
  destruct v1; destruct v2; try (by destruct op). simpl in H1, H2.
  unfold doBitwise. destruct op; try done; simpl in Hf; apply answers_let.
  - eexists. split; [reflexivity|]. by apply lor_range.
  - eexists. split; [reflexivity|]. by apply lxor_range.
  - eexists. split; [reflexivity|]. by apply land_range.
  - apply negb_false_iff in Hf. apply shifted_total; [done|]. apply wrap32_range.
  - destruct (Z.leb_spec 0 i); simpl in Hf.
    + apply negb_false_iff in Hf. apply shifted_total; [done|]. by apply shiftr_range; [apply shift_ok_nonneg|].
    + eexists. split; [reflexivity|]. by apply shift_signed_range.
  - apply negb_false_iff in Hf. destruct (Z.leb_spec 0 i); (apply shifted_total; [done|]); (apply shiftr_range; [by apply shift_ok_nonneg|done || idtac]).
    apply land_range; [by apply shiftr_range|]. unfold int_range, signMask, INT_MIN, Z.lnot. lia.
Qed.

Lemma strict_none v1 v2 v3 b2 b3 : strict_result v1 v2 v3 true b2 b3 = None -> ~ IsExceptional v1 /\ (b2 = true -> ~ IsExceptional v2).
Proof.
  unfold strict_result, IsExceptional. destruct (is_type v1 ERROR_VALUE), (is_type v1 UNDEFINED_VALUE), (is_type v2 ERROR_VALUE), (is_type v2 UNDEFINED_VALUE),
    b2, b3, (is_type v3 ERROR_VALUE), (is_type v3 UNDEFINED_VALUE); simpl; try done; split; auto; done.
Qed.
Lemma strict_range v1 v2 v3 b1 b2 b3 r : strict_result v1 v2 v3 b1 b2 b3 = Some r -> in_range r.1.
Proof. unfold strict_result. intros Hs. repeat case_match; by simplify_eq. Qed.

(** The operators that fault do so on operands that are neither errors nor undefined. *)
Lemma faults_operate old op v1 v2 v3 : faults op v1 v2 = true -> exists e, operate old op v1 v2 v3 = EXCEPT e.
Proof.
  intros Hf. destruct op; try done; destruct v1; try done; destruct v2; try done; simpl in Hf; unfold operate; simpl;
    unfold doArithmetic, shifted, doTimeArithmetic, int_cast; simpl.
  all: repeat (match goal with H : context [match int_of_double ?r with _ => _ end] |- _ => destruct (int_of_double r) eqn:? end; try done; simpl).
  all: try (by eexists).
  all: try (apply andb_true_iff in Hf as [->%Z.eqb_eq ->%Z.eqb_eq]; by eexists).
  - apply negb_true_iff in Hf. rewrite Hf. by eexists.
  - apply andb_true_iff in Hf as [Hi Hf%negb_true_iff]. rewrite Hi, Hf. by eexists.
  - apply negb_true_iff in Hf. destruct (0 <=? i); rewrite Hf; by eexists.
Qed.

(** The exact result of an operator that may overflow. *)
Definition exact (op : OpKind) (i1 i2 : Z) : option Z :=
  match op with ADDITION_OP => Some (i1 + i2) | SUBTRACTION_OP => Some (i1 - i2) | MULTIPLICATION_OP => Some (i1 * i2) | _ => None end.
Lemma exact_result old op i1 i2 v3 z : exact op i1 i2 = Some z -> int_range z ->
  operate old op (IntegerValue i1) (IntegerValue i2) v3 = Done (Some (IntegerValue z, SIG_BOTH)).
Proof. intros He Hz. destruct op; try done; simpl in He; simplify_eq; unfold operate; simpl; by rewrite wrap32_small. Qed.


(** ** Three-valued logic *)

Inductive truth := FF | UU | TT.
Definition of_truth (t : truth) : Value := match t with TT => BooleanValue true | FF => BooleanValue false | UU => UndefinedValue end.
(** Kleene's connectives: false < undefined < true. *)
Definition rank (t : truth) : nat := match t with FF => 0 | UU => 1 | TT => 2 end.
Definition or3 (a b : truth) : truth := if (rank a <=? rank b)%nat then b else a.
Definition and3 (a b : truth) : truth := if (rank a <=? rank b)%nat then a else b.
Definition not3 (a : truth) : truth := match a with TT => FF | UU => UU | FF => TT end.

Definition value_of (r : outcome (option (Value * Z))) : option Value := match r with Done (Some (v, _)) => Some v | _ => None end.
Definition ior (old : bool) (x y : Value) : option Value := value_of (operate old LOGICAL_OR_OP x y UndefinedValue).
Definition iand (old : bool) (x y : Value) : option Value := value_of (operate old LOGICAL_AND_OP x y UndefinedValue).
Definition inot (old : bool) (x : Value) : option Value := value_of (operate old LOGICAL_NOT_OP x UndefinedValue UndefinedValue).

(** C24 (equivalence): on true, false and undefined the operators ||, && and ! are Kleene's disjunction,
    conjunction and negation, in either semantics; an error on the left is the result, an error on the
    right is the result unless the left side decides; De Morgan's law holds for errors too. *)
Theorem logical_kleene old :
  (forall a b, ior old (of_truth a) (of_truth b) = Some (of_truth (or3 a b)) /\
     iand old (of_truth a) (of_truth b) = Some (of_truth (and3 a b)) /\ inot old (of_truth a) = Some (of_truth (not3 a))) /\
  (forall a, ior old ErrorValue (of_truth a) = Some ErrorValue /\ iand old ErrorValue (of_truth a) = Some ErrorValue /\
     ior old (of_truth a) ErrorValue = Some (match a with TT => BooleanValue true | _ => ErrorValue end) /\
     iand old (of_truth a) ErrorValue = Some (match a with FF => BooleanValue false | _ => ErrorValue end)) /\
  (forall x y, is_truth x -> is_truth y ->
     exists v nx ny, ior old x y = Some v /\ inot old x = Some nx /\ inot old y = Some ny /\ inot old v = iand old nx ny).
Proof.
  split_and!.
  - by intros [] [].
  - by intros [].
  - intros x y Hx Hy. destruct x as [| |[]| | | | | | |]; try done; destruct y as [| |[]| | | | | | |]; try done; by eexists _, _, _.
Qed.

(** ** The meta operators *)

Lemma SFcompare_sym a b : SFcompare b a = match SFcompare a b with Some c => Some (CompOpp c) | None => None end.
Proof.
  destruct a as [sa|sa| |sa ma ea], b as [sb|sb| |sb mb eb]; simpl; try done; try (by destruct sa); try (by destruct sb); try (by destruct sa, sb).
  rewrite (Z.compare_antisym ea eb). change (Pos.compare_cont Eq mb ma) with (mb ?= ma)%positive. change (Pos.compare_cont Eq ma mb) with (ma ?= mb)%positive.
  rewrite (Pos.compare_antisym ma mb). by destruct sa, sb, (ea ?= eb)%Z; simpl; try done; destruct (ma ?= mb)%positive.
Qed.
Lemma SFeqb_sym a b : SFeqb a b = SFeqb b a.
Proof. unfold SFeqb. rewrite (SFcompare_sym a b). by destruct (SFcompare a b) as [[]|]. Qed.
Lemma SFeqb_refl a : is_nan a = false -> SFeqb a a = true.
Proof.
  unfold SFeqb. destruct a as [s|s| |s m e]; simpl; try done; [by destruct s..|]. intros _. rewrite Z.compare_refl.
  change (Pos.compare_cont Eq m m) with (m ?= m)%positive. rewrite Pos.compare_refl. by destruct s.
Qed.
Lemma strcmp_cons c d a b :
  strcmp (c :: a) (d :: b) = match (nat_of_ascii c ?= nat_of_ascii d)%nat with Eq => strcmp a b | x => x end.
Proof. reflexivity. Qed.
Lemma strcmp_sym a b : strcmp b a = CompOpp (strcmp a b).
Proof.
  revert b. induction a as [|c a IH]; intros [|d b]; try done. rewrite !strcmp_cons. rewrite (Nat.compare_antisym (nat_of_ascii c)).
  destruct (nat_of_ascii c ?= nat_of_ascii d)%nat; simpl; [apply IH|done..].
Qed.
Lemma strcmp_refl a : strcmp a a = Eq.
Proof. induction a as [|c a IH]; [done|]. by rewrite strcmp_cons, Nat.compare_refl. Qed.

Definition is_aggregate (v : Value) : bool := match v with ClassAdValue _ | ListValue _ _ => true | _ => false end.
Definition is_a_nan (v : Value) : bool := match v with RealValue r | RelativeTimeValue r => is_nan r | _ => false end.
(** The equality =?= decides: after booleans have become integers and integers reals where needed. *)
Definition meta_eq (v1 v2 : Value) : bool :=
  let '(w1, w2, _) := coerceToNumber v1 v2 in
  match w1, w2 with
  | ErrorValue, ErrorValue | UndefinedValue, UndefinedValue => true
  | IntegerValue i1, IntegerValue i2 => i1 =? i2
  | RealValue r1, RealValue r2 | RelativeTimeValue r1, RelativeTimeValue r2 => SFeqb r1 r2
  | AbsoluteTimeValue t1 _, AbsoluteTimeValue t2 _ => t1 =? t2
  | StringValue s1, StringValue s2 => match strcmp (until_nul s1) (until_nul s2) with Eq => true | _ => false end
  | _, _ => false
  end.

Lemma meta_compare v1 v2 : is_aggregate v1 && is_aggregate v2 = false ->
  doComparison META_EQUAL_OP v1 v2 = Done (BooleanValue (meta_eq v1 v2), SIG_BOTH) /\
  doComparison META_NOT_EQUAL_OP v1 v2 = Done (BooleanValue (negb (meta_eq v1 v2)), SIG_BOTH).
Proof.
  intros Ha. unfold doComparison, meta_eq. destruct v1; destruct v2; try done; simpl; try done.
  unfold compareStrings. by destruct (strcmp (until_nul s) (until_nul s0)).
Qed.
Lemma meta_eq_sym v1 v2 : meta_eq v1 v2 = meta_eq v2 v1.
Proof.
  unfold meta_eq. destruct v1; destruct v2; simpl; try done; try apply SFeqb_sym; try apply Z.eqb_sym.
  rewrite (strcmp_sym (until_nul s0) (until_nul s)). by destruct (strcmp _ _).
Qed.
Lemma meta_eq_refl v : is_aggregate v = false -> is_a_nan v = false -> meta_eq v v = true.
Proof.
  intros Ha Hn. unfold meta_eq. destruct v; simpl in *; try done; try (by apply SFeqb_refl); try (by apply Z.eqb_refl). by rewrite strcmp_refl.
Qed.

(** =?= and =!= always answer true or false and are each other's negation unless both
    operands are lists or ads; =?= is symmetric, and reflexive but for NaN.  It does not tell the
    numeric types apart: an integer equals the real of the same value and true equals 1.  Two lists, or
    two ads, compare as an error, even a list with itself. *)
Theorem meta_equal_decides old v1 v2 :
  (is_aggregate v1 && is_aggregate v2 = false ->
   value_of (operate old META_EQUAL_OP v1 v2 UndefinedValue) = Some (BooleanValue (meta_eq v1 v2)) /\
   value_of (operate old META_NOT_EQUAL_OP v1 v2 UndefinedValue) = Some (BooleanValue (negb (meta_eq v1 v2)))) /\
  meta_eq v1 v2 = meta_eq v2 v1 /\
  (is_aggregate v1 = false -> is_a_nan v1 = false -> meta_eq v1 v1 = true) /\
  meta_eq (IntegerValue 1) (RealValue (double_of_Z 1)) = true /\ meta_eq (BooleanValue true) (IntegerValue 1) = true /\
  (is_aggregate v1 = true -> value_of (operate old META_EQUAL_OP v1 v1 UndefinedValue) = Some ErrorValue).
Proof.
  split_and!.
  - intros Ha. destruct (meta_compare v1 v2 Ha) as [E1 E2]. unfold operate; simpl. by rewrite E1, E2.
  - apply meta_eq_sym.
  - apply meta_eq_refl.
  - done.
  - done.
  - by destruct v1.
Qed.
