(* ===== verification/ClassAdEval.v ===== *)
(** Evaluation of ClassAd expressions: the _Evaluate() methods of classad/operators.cpp, attrrefs.cpp,
    literals.cpp, exprList.cpp and fnCall.cpp, the scopes of classad.cpp and exprTree.cpp, and the match
    ad of matchClassad.cpp.

    Ads live in a heap and know their parent scope; evaluation carries the EvalState, with the heap in
    it, because a projection of a list (list.attr) gives the ads it finds a new parent.  The functions of
    fnCall.cpp are a parameter.  [None] is an exhausted fuel: the calls of _Evaluate() are nested deeper,
    or a chain of scopes is longer, than [fuel]. *)

From S2P Require Import Prelude ClassAdOps.

Open Scope Z_scope.

Record Ad := mkAd {
  ad_attrs : gmap bytes ExprTree;      (** by the name in lower case *)
  ad_parentScope : option Z;
  ad_chained_parent : option Z;
  ad_alternateScope : option Z
}.
#[export] Instance rebuild_Ad : Rebuild Ad := fun a => mkAd (ad_attrs a) (ad_parentScope a) (ad_chained_parent a) (ad_alternateScope a).
#[export] Instance set_ad_attrs : Setter ad_attrs := ltac:(solve_setter).
#[export] Instance set_ad_parentScope : Setter ad_parentScope := ltac:(solve_setter).
#[export] Instance set_ad_alternateScope : Setter ad_alternateScope := ltac:(solve_setter).

Notation Heap := (gmap Z Ad).

Record EvalState := mkEvalState {
  heap : Heap;
  rootAd : option Z;
  curAd : option Z;
  depth_remaining : Z
}.
#[export] Instance rebuild_EvalState : Rebuild EvalState := fun s => mkEvalState (heap s) (rootAd s) (curAd s) (depth_remaining s).
#[export] Instance set_heap : Setter heap := ltac:(solve_setter).
#[export] Instance set_rootAd : Setter rootAd := ltac:(solve_setter).
#[export] Instance set_curAd : Setter curAd := ltac:(solve_setter).
#[export] Instance set_depth : Setter depth_remaining := ltac:(solve_setter).

Definition MAX_CLASSAD_RECURSION : Z := 1000.

(** ** The monad *)

Definition M (A : Type) : Type := EvalState -> option (outcome (EvalState * A)).
Definition ret {A} (a : A) : M A := fun s => Some (Done (s, a)).
Definition bind {A B} (m : M A) (f : A -> M B) : M B := fun s =>
  match m s with
  | None => None
  | Some (EXCEPT e) => Some (EXCEPT e)
  | Some (Done (s', a)) => f a s'
  end.
Definition get : M EvalState := fun s => Some (Done (s, s)).
Definition modify (f : EvalState -> EvalState) : M unit := fun s => Some (Done (f s, tt)).
Definition lift {A} (o : outcome A) : M A := fun s => Some (match o with Done a => Done (s, a) | EXCEPT e => EXCEPT e end).
Definition diverge {A} : M A := fun _ => None.

Declare Scope eval_scope.
Delimit Scope eval_scope with eval.
Notation "'let*' x ':=' m 'in' k" := (bind m (fun x => k))
  (at level 200, x pattern, m at level 100, k at level 200, right associativity) : eval_scope.
Notation "m ;; k" := (bind m (fun _ => k)) (at level 100, right associativity) : eval_scope.
Open Scope eval_scope.

(** A pointer that is followed. *)
Definition deref (a : Z) : M Ad :=
  let* s := get in match heap s !! a with Some ad => ret ad | None => lift (EXCEPT "dangling pointer") end.

(** ** Scopes *)

(** ClassAd::Lookup(): the ad, then its chained parents. *)
Fixpoint Lookup (fuel : nat) (a : Z) (name : bytes) : M (option ExprTree) :=
  match fuel with
  | O => diverge
  | S fuel' =>
      let* ad := deref a in
      match ad_attrs ad !! lower name with
      | Some t => ret (Some t)
      | None => match ad_chained_parent ad with Some p => Lookup fuel' p name | None => ret None end
      end
  end.

(** What FindExpr() and LookupInScope() return. *)
Inductive found := EVAL_OK (tree : ExprTree) | EVAL_UNDEF | EVAL_ERROR | EVAL_FAIL | PROP_UNDEF | PROP_ERROR.

(** LookupInScope(): [this] is where the search began. *)
Fixpoint lookup_in_scope (fuel : nat) (this current : Z) (name : bytes) : M found :=
  match fuel with
  | O => diverge
  | S fuel' =>
      modify (fun s => s <| curAd := Some current |>) ;;
      let* t := Lookup fuel current name in
      match t with
      | Some expr => ret (EVAL_OK expr)
      | None =>
          let* ad := deref current in
          if strcaseeq name (s2b "toplevel") || strcaseeq name (s2b "root") then
            let* s := get in ret (match rootAd s with Some r => EVAL_OK (ClassAdNode r) | None => EVAL_FAIL end)
          else if strcaseeq name (s2b "self") then ret (EVAL_OK (ClassAdNode current))
          else if strcaseeq name (s2b "parent") then
            ret (match ad_parentScope ad with Some p => EVAL_OK (ClassAdNode p) | None => EVAL_UNDEF end)
          else
            match ad_parentScope ad with
            | None => ret EVAL_UNDEF
            | Some superScope =>
                if superScope =? this then ret EVAL_UNDEF else lookup_in_scope fuel' this superScope name
            end
      end
  end.
Definition LookupInScope (fuel : nat) (a : Z) (name : bytes) : M found := lookup_in_scope fuel a a name.

(** EvalState::SetRootScope(): up the scopes; when they lead back to the start the root stays as it was. *)
Fixpoint set_root (fuel : nat) (start prevScope : Z) : M unit :=
  match fuel with
  | O => diverge
  | S fuel' =>
      let* ad := deref prevScope in
      match ad_parentScope ad with
      | None => modify (fun s => s <| rootAd := Some prevScope |>)
      | Some curScope => if curScope =? start then ret tt else set_root fuel' start curScope
      end
  end.
Definition SetScopes (fuel : nat) (curScope : option Z) : M unit :=
  modify (fun s => s <| curAd := curScope |>) ;;
  match curScope with
  | None => modify (fun s => s <| rootAd := None |>)
  | Some a => set_root fuel a a
  end.

(** A computation in a new EvalState: the heap is shared, the rest of the state comes back as it was. *)
Definition in_new_state {A} (fuel : nat) (scope : option Z) (m : M A) : M A :=
  let* s0 := get in
  modify (fun s => mkEvalState (heap s) None None MAX_CLASSAD_RECURSION) ;;
  SetScopes fuel scope ;;
  let* a := m in
  modify (fun s => mkEvalState (heap s) (rootAd s0) (curAd s0) (depth_remaining s0)) ;;
  ret a.

Definition ScaleFactor (f : NumberFactor) : Z :=
  match f with
  | NO_FACTOR | B_FACTOR => 1
  | K_FACTOR => 1024
  | M_FACTOR => 1024 ^ 2
  | G_FACTOR => 1024 ^ 3
  | T_FACTOR => 1024 ^ 4
  end.
Definition evaluate_literal (value : Value) (factor : NumberFactor) : Value :=
  match value, factor with
  | IntegerValue i, NO_FACTOR => IntegerValue i
  | IntegerValue i, _ => RealValue (dmul (double_of_Z i) (double_of_Z (ScaleFactor factor)))
  | RealValue r, _ => RealValue (dmul r (double_of_Z (ScaleFactor factor)))
  | v, _ => v
  end.

(** The parent of an ad is changed, that of other trees is not looked at (see [ExprList]). *)
Definition SetParentScope (scope : Z) (t : ExprTree) : M ExprTree :=
  match t with
  | ClassAdNode a =>
      modify (fun s => s <| heap ::= fun h => match h !! a with Some ad => <[a := ad <| ad_parentScope := Some scope |>]> h | None => h end |>) ;; ret t
  | ExprList _ l => ret (ExprList (Some scope) l)
  | _ => ret t
  end.
Fixpoint set_parents (scope : Z) (l : list ExprTree) : M (list ExprTree) :=
  match l with
  | [] => ret []
  | t :: l' => let* t' := SetParentScope scope t in let* r := set_parents scope l' in ret (t' :: r)
  end.
(** [new ClassAd()] *)
Definition new_ad : M Z :=
  let* s := get in
  let a := 1 + fold_right Z.max 0 (map fst (map_to_list (heap s))) in
  modify (fun s => s <| heap ::= <[a := mkAd ∅ None None None]> |>) ;; ret a.

(** ** Evaluation *)

(** The functions by name: they get their arguments as expressions, and the evaluator with its fuel. *)
Class Functions := callFunction : bytes -> option (nat -> (ExprTree -> M (bool * Value)) -> list ExprTree -> M (bool * Value)).

Section evaluation.
Context `{F : Functions} (oldSemantics : bool).

(** The result of an evaluation as the element of a list. *)
Definition as_tree (v : Value) : ExprTree :=
  match v with
  | ClassAdValue a => ClassAdNode a
  | ListValue scope l => ExprList scope l
  | _ => Literal v NO_FACTOR
  end.

Section step.
(** The calls of Evaluate() one level down. *)
Variable fuel : nat.
Variable Evaluate : ExprTree -> M (bool * Value).

(** list.attr: the attribute of each element, in a state of its own; [None] when one fails.  The source
    evaluates a copy of the element, which it deletes at once. *)
Fixpoint project (attributeStr : bytes) (l : list ExprTree) : M (option (list ExprTree)) :=
  match l with
  | [] => ret (Some [])
  | t :: l' =>
      let* s := get in
      let* (ok, v) := in_new_state fuel (curAd s) (Evaluate (AttributeReference (Some t) attributeStr false)) in
      if negb ok then ret None
      else
        let* r := project attributeStr l' in
        ret (match r with Some ts => Some (as_tree v :: ts) | None => None end)
  end.

(** The search from an ad, and then from its alternate scope for a plain name. *)
Definition find_from (current : Z) (attributeStr : bytes) (plain : bool) : M found :=
  let* rc := LookupInScope fuel current attributeStr in
  match rc with
  | EVAL_UNDEF =>
      let* ad := deref current in
      match (if plain then ad_alternateScope ad else None) with
      | Some other => LookupInScope fuel other attributeStr
      | None => ret EVAL_UNDEF
      end
  | _ => ret rc
  end.

Definition FindExpr (expr : option ExprTree) (attributeStr : bytes) (absolute : bool) : M found :=
  match expr with
  | None =>
      let* s := get in
      match (if absolute then rootAd s else curAd s) with
      | Some current => find_from current attributeStr true
      | None => if absolute then ret EVAL_FAIL else lift (EXCEPT "NULL current ad")
      end
  | Some e =>
      let* (ok, v) := Evaluate e in
      if negb ok then ret EVAL_FAIL
      else
        match v with
        | UndefinedValue => ret PROP_UNDEF
        | ErrorValue => ret PROP_ERROR
        | ClassAdValue current => find_from current attributeStr false
        | ListValue _ adList =>
            let* r := project attributeStr adList in
            match r with
            | None => ret EVAL_FAIL
            | Some ts => let* newRoot := new_ad in let* l := set_parents newRoot ts in ret (EVAL_OK (ExprList (Some newRoot) l))
            end
        | _ => ret EVAL_ERROR
        end
  end.

Definition evaluate_reference (expr : option ExprTree) (attributeStr : bytes) (absolute : bool) : M (bool * Value) :=
  let* s0 := get in
  let back := modify (fun s => s <| curAd := curAd s0 |>) in
  let* rc := FindExpr expr attributeStr absolute in
  match rc with
  | EVAL_FAIL => ret (false, UndefinedValue)
  | EVAL_ERROR | PROP_ERROR => back ;; ret (true, ErrorValue)
  | EVAL_UNDEF | PROP_UNDEF => back ;; ret (true, UndefinedValue)
  | EVAL_OK tree =>
      let* s := get in
      if depth_remaining s <=? 0 then back ;; ret (false, ErrorValue)
      else
        modify (fun s => s <| depth_remaining ::= Z.pred |>) ;;
        let* r := Evaluate tree in
        modify (fun s => s <| depth_remaining ::= Z.succ |>) ;;
        back ;; ret r
  end.

(** ClassAd::EvaluateAttr() *)
Definition EvaluateAttr (a : Z) (attr : bytes) : M (bool * Value) :=
  in_new_state fuel (Some a)
    (let* rc := LookupInScope fuel a attr in
     match rc with
     | EVAL_OK tree => Evaluate tree
     | EVAL_UNDEF => ret (true, UndefinedValue)
     | EVAL_ERROR => ret (true, ErrorValue)
     | _ => ret (false, UndefinedValue)
     end).
(** ExprListIterator::GetValue(), which does not look at the result of the evaluation. *)
Definition GetValue (scope : option Z) (tree : ExprTree) : M (bool * Value) :=
  let* s := get in
  if depth_remaining s <=? 0 then ret (false, ErrorValue)
  else
    modify (fun s => s <| depth_remaining ::= Z.pred |> <| curAd := scope |>) ;;
    let* (_, v) := Evaluate tree in
    modify (fun s' => s' <| curAd := curAd s |> <| depth_remaining ::= Z.succ |>) ;;
    ret (true, v).
Definition subscript (v1 v2 : Value) : M Value :=
  match v1, v2 with
  | ClassAdValue a, StringValue index =>
      let* t := Lookup fuel a index in
      match t with
      | None => ret ErrorValue
      | Some _ => let* (ok, v) := EvaluateAttr a index in ret (if (ok : bool) then v else ErrorValue)
      end
  | ListValue scope l, IntegerValue index =>
      match (if index <? 0 then None else l !! Z.to_nat index) with
      | None => ret ErrorValue
      | Some tree => let* (ok, v) := GetValue scope tree in ret (if (ok : bool) then v else ErrorValue)
      end
  | _, _ => ret ErrorValue
  end.

(** shortCircuit(): the result if it is already known.  A branch of ?: that cannot be evaluated is
    tried again by the caller. *)
Definition shortCircuit (op : OpKind) (arg1 : Value) (child2 child3 : option ExprTree) : M (option Value) :=
  match op, IsBooleanValueEquiv oldSemantics arg1 with
  | LOGICAL_OR_OP, Some true => ret (Some (BooleanValue true))
  | LOGICAL_AND_OP, Some false => ret (Some (BooleanValue false))
  | TERNARY_OP, Some b =>
      match (if (b : bool) then child2 else child3) with
      | None => ret None
      | Some t => let* (ok, v) := Evaluate t in ret (if (ok : bool) then Some v else None)
      end
  | _, _ => ret None
  end.

(** A child that is absent leaves the value undefined. *)
Definition evaluate_child (child : option ExprTree) : M (bool * Value) :=
  match child with None => ret (true, UndefinedValue) | Some t => Evaluate t end.
Definition present (child : option ExprTree) : bool := match child with Some _ => true | None => false end.

(** _doOperation() on the values of the children. *)
Definition finish_operation (op : OpKind) (v1 v2 v3 : Value) (child1 child2 child3 : option ExprTree) : M (bool * Value) :=
  let* r := lift (_doOperation oldSemantics op v1 v2 v3 (present child1) (present child2) (present child3)) in
  match r with
  | Some (v, sig) => ret (negb (sig =? SIG_NONE), v)
  | None => let* v := subscript v1 v2 in ret (true, v)
  end.
Definition evaluate_operation (op : OpKind) (child1 child2 child3 : option ExprTree) : M (bool * Value) :=
  let* (ok1, v1) := evaluate_child child1 in
  if negb ok1 then ret (false, ErrorValue)
  else
    let* sc := (if present child1 then shortCircuit op v1 child2 child3 else ret None) in
    match sc with
    | Some v => ret (true, v)
    | None =>
        let* (ok2, v2) := evaluate_child child2 in
        if negb ok2 then ret (false, ErrorValue)
        else
          let* (ok3, v3) := evaluate_child child3 in
          if negb ok3 then ret (false, ErrorValue) else finish_operation op v1 v2 v3 child1 child2 child3
    end.
End step.

Fixpoint Evaluate (fuel : nat) (tree : ExprTree) : M (bool * Value) :=
  match fuel with
  | O => diverge
  | S fuel' =>
      match tree with
      | Literal value factor => ret (true, evaluate_literal value factor)
      | AttributeReference expr attributeStr absolute => evaluate_reference fuel' (Evaluate fuel') expr attributeStr absolute
      | Operation op child1 child2 child3 => evaluate_operation fuel' (Evaluate fuel') op child1 child2 child3
      | FunctionCall name arguments =>
          match callFunction name with
          | Some f => f fuel' (Evaluate fuel') arguments
          | None => ret (true, ErrorValue)
          end
      | ClassAdNode a => ret (true, ClassAdValue a)
      | ExprList scope l => ret (true, ListValue scope l)
      end
  end.

(** ClassAd::EvaluateExpr() *)
Definition EvaluateExpr (fuel : nat) (a : Z) (tree : ExprTree) : M (bool * Value) :=
  in_new_state fuel (Some a) (Evaluate fuel tree).

(** ** The match ad *)

(** EvalMatchExpr() *)
Definition EvalMatchExpr (fuel : nat) (match_ad : Z) (match_expr : ExprTree) : M bool :=
  let* (ok, v) := EvaluateExpr fuel match_ad match_expr in
  ret (if (ok : bool) then match v with BooleanValue b => b | IntegerValue i => negb (i =? 0) | _ => false end else false).

Definition ref (name : string) : ExprTree := AttributeReference None (s2b name) false.
Definition absref (name : string) : ExprTree := AttributeReference None (s2b name) true.
Definition dot (t : ExprTree) (name : string) : ExprTree := AttributeReference (Some t) (s2b name) false.
(** The expressions InitMatchClassAd() parses. *)
Definition left_matches_right : ExprTree := dot (ref "RIGHT") "requirements".
Definition right_matches_left : ExprTree := dot (ref "LEFT") "requirements".
Definition symmetric_match : ExprTree := Operation LOGICAL_AND_OP (Some left_matches_right) (Some right_matches_left) None.

Definition symmetricMatch (fuel : nat) (match_ad : Z) : M bool := EvalMatchExpr fuel match_ad symmetric_match.
Definition leftMatchesRight (fuel : nat) (match_ad : Z) : M bool := EvalMatchExpr fuel match_ad left_matches_right.
Definition rightMatchesLeft (fuel : nat) (match_ad : Z) : M bool := EvalMatchExpr fuel match_ad right_matches_left.
End evaluation.

Definition attrs_of (l : list (string * ExprTree)) : gmap bytes ExprTree := list_to_map ((fun nt => (lower (s2b nt.1), nt.2)) <$> l).

(** InitMatchClassAd() with ReplaceLeftAd() and ReplaceRightAd(): the match ad, the two contexts and the
    two ads, at the given addresses.  The ads are attributes of the match ad, but their parent scope is
    their context. *)
Definition InitMatchClassAd (h : Heap) (match_ad lCtx rCtx lad rad : Z) : Heap :=
  let reparent a ctx h := match h !! a with Some ad => <[a := ad <| ad_parentScope := Some ctx |>]> h | None => h end in
  let h := <[match_ad := mkAd (attrs_of
    [("symmetricMatch", symmetric_match); ("leftMatchesRight", left_matches_right); ("rightMatchesLeft", right_matches_left);
     ("leftRankValue", dot (ref "LEFT") "rank"); ("rightRankValue", dot (ref "RIGHT") "rank");
     ("lCtx", ClassAdNode lCtx); ("rCtx", ClassAdNode rCtx); ("LEFT", ClassAdNode lad); ("RIGHT", ClassAdNode rad)]%string) None None None]> h in
  let h := <[lCtx := mkAd (attrs_of
    [("other", absref "RIGHT"); ("target", absref "RIGHT"); ("my", absref "LEFT"); ("ad", absref "LEFT")]%string) (Some match_ad) None None]> h in
  let h := <[rCtx := mkAd (attrs_of
    [("other", absref "LEFT"); ("target", absref "LEFT"); ("my", absref "RIGHT"); ("ad", absref "RIGHT")]%string) (Some match_ad) None None]> h in
  reparent rad rCtx (reparent lad lCtx h).
