(* ===== verification/ClassAdFunctions.v ===== *)
(** The functions of the ClassAd language: classad/fnCall.cpp and the conversions of classad/value.cpp.

    The functions that work on types, lists, strings, numbers and the old ClassAd compatibility functions
    are defined here.  Those that need the clock, regular expressions, the parser or the unparser are a
    parameter, and so are the text of a value that is not a string and pow() of the C library. *)

From Stdlib Require Import SpecFloat.
From S2P Require Import Prelude ClassAdOps ClassAdEval.

Open Scope Z_scope.
Open Scope eval_scope.

(** ** Numbers in strings *)

Definition hex_digit (c : ascii) : option Z :=
  let n := Z.of_nat (nat_of_ascii (tolower c)) in
  if (48 <=? n) && (n <=? 57) then Some (n - 48) else if (97 <=? n) && (n <=? 102) then Some (n - 87) else None.
Definition number (base : Z) (s : bytes) : Z :=
  fold_left (fun acc c => acc * base + default 0 (hex_digit c)) s 0.
Definition ishex (c : ascii) : bool := match hex_digit c with Some _ => true | None => false end.
Definition is_char (n : nat) (c : ascii) : bool := (nat_of_ascii c =? n)%nat.
(** An optional sign. *)
Definition scan_sign (s : bytes) : bool * bytes :=
  match s with
  | c :: s' => if is_char 45 c then (true, s') else if is_char 43 c then (false, s') else (false, s)
  | [] => (false, [])
  end.
(** The exponent after one of the letters; it needs a digit. *)
Definition scan_exponent (letter : ascii -> bool) (s : bytes) : Z * bytes :=
  match s with
  | c :: s' =>
      if letter c then
        let '(neg, s1) := scan_sign s' in
        match span isdigit s1 with
        | ([], _) => (0, s)
        | (ds, s2) => (if neg then - number 10 ds else number 10 ds, s2)
        end
      else (0, s)
  | [] => (0, s)
  end.
(** The digits before and after the point. *)
Definition scan_mantissa (p : ascii -> bool) (s : bytes) : bytes * bytes * bytes :=
  let '(ip, s1) := span p s in
  match s1 with
  | c :: s2 => if is_char 46 c then let '(fp, s3) := span p s2 in if bool_decide (ip ++ fp = []) then ([], [], s) else (ip, fp, s3) else (ip, [], s1)
  | [] => (ip, [], s1)
  end.
Definition signed (neg : bool) (m : Z) : Z := if neg then - m else m.
(** [m * 10^e], rounded to the nearest double. *)
Definition decimal (neg : bool) (m e : Z) : double :=
  match m with
  | Z.pos p =>
      if 0 <=? e then binary_normalize 53 1024 (signed neg (m * 10 ^ e)) 0 neg
      else let '(q, e', l) := SFdiv_core_binary 53 1024 m 0 (10 ^ (- e)) 0 in binary_round_aux 53 1024 neg q e' l
  | _ => S754_zero neg
  end.
Definition strip_prefix (p s : bytes) : option bytes :=
  if bool_decide (lower (take (length p) s) = p) then Some (drop (length p) s) else None.

(** strtod(): the number and what is left; nothing was converted if all is left. *)
Definition strtod (s : bytes) : double * bytes :=
  let '(neg, s1) := scan_sign (skip_spaces s) in
  match strip_prefix (s2b "infinity") s1, strip_prefix (s2b "inf") s1, strip_prefix (s2b "nan") s1 with
  | Some r, _, _ | None, Some r, _ => (S754_infinity neg, r)
  | None, None, Some r =>
      match r with
      | c :: r' =>
          let '(_, r2) := span (fun c => isdigit c || (97 <=? nat_of_ascii (tolower c))%nat && (nat_of_ascii (tolower c) <=? 122)%nat || is_char 95 c) r' in
          match r2 with c2 :: r3 => if is_char 40 c && is_char 41 c2 then (S754_nan, r3) else (S754_nan, r) | [] => (S754_nan, r) end
      | [] => (S754_nan, r)
      end
  | None, None, None =>
      let dec :=
        match scan_mantissa isdigit s1 with
        | ([], [], _) => (S754_zero false, s)
        | (ip, fp, s2) => let '(e, s3) := scan_exponent (fun c => is_char 101 (tolower c)) s2 in (decimal neg (number 10 (ip ++ fp)) (e - Z.of_nat (length fp)), s3)
        end in
      match strip_prefix (s2b "0x") s1 with
      | Some r =>
          match scan_mantissa ishex r with
          | ([], [], _) => dec
          | (ip, fp, s2) =>
              let '(e, s3) := scan_exponent (fun c => is_char 112 (tolower c)) s2 in
              (binary_normalize 53 1024 (signed neg (number 16 (ip ++ fp))) (e - 4 * Z.of_nat (length fp)) neg, s3)
          end
      | None => dec
      end
  end.

(** ** Conversions of values *)

Definition factor_of (rest : bytes) : option NumberFactor :=
  match rest with
  | [] => Some NO_FACTOR
  | c :: _ =>
      let n := nat_of_ascii (toupper c) in
      if (n =? 66)%nat then Some B_FACTOR else if (n =? 75)%nat then Some K_FACTOR else if (n =? 77)%nat then Some M_FACTOR
      else if (n =? 71)%nat then Some G_FACTOR else if (n =? 84)%nat then Some T_FACTOR else None
  end.
(** A double without its fraction. *)
Definition truncate (r : double) : option Z :=
  match r with
  | S754_zero _ => Some 0
  | S754_finite s m e => let a := if 0 <=? e then Z.pos m * 2 ^ e else Z.pos m / 2 ^ (- e) in Some (signed s a)
  | _ => None
  end.
(** The conversion to time_t, a signed 64-bit number. *)
Definition time_of (r : double) : outcome Z :=
  match truncate r with
  | Some z => if (- 2 ^ 63 <=? z) && (z <? 2 ^ 63) then Done z else EXCEPT "time_t out of range"
  | None => EXCEPT "time_t out of range"
  end.
Definition to_int (r : double) : outcome Z := match int_of_double r with Some z => Done z | None => EXCEPT "int out of range" end.
Definition scaled (r : double) (f : NumberFactor) : double := dmul r (double_of_Z (ScaleFactor f)).

Definition convertValueToRealValue (value : Value) : outcome (bool * Value) :=
  match value with
  | UndefinedValue => Done (false, UndefinedValue)
  | ErrorValue | ClassAdValue _ | ListValue _ _ => Done (false, ErrorValue)
  | StringValue buf =>
      let start := until_nul buf in
      let '(rvalue, rest) := strtod start in
      if bool_decide (rest = start) && SFeqb rvalue (S754_zero false) then Done (false, ErrorValue)
      else match factor_of rest with Some nf => Done (true, RealValue (scaled rvalue nf)) | None => Done (false, ErrorValue) end
  | BooleanValue b => Done (true, RealValue (double_of_Z (if b then 1 else 0)))
  | IntegerValue i => Done (true, RealValue (double_of_Z i))
  | RealValue r => Done (true, RealValue r)
  | AbsoluteTimeValue secs _ => Done (true, RealValue (double_of_Z secs))
  | RelativeTimeValue r => (let! t := time_of r in Done (true, RealValue (double_of_Z t)))%outcome
  end.
Definition convertValueToIntegerValue (value : Value) : outcome (bool * Value) :=
  match value with
  | UndefinedValue => Done (false, UndefinedValue)
  | ErrorValue | ClassAdValue _ | ListValue _ _ => Done (false, ErrorValue)
  | StringValue buf =>
      let '(d, rest) := strtod (until_nul buf) in
      (let! ivalue := to_int d in
       if bool_decide (rest = buf) && (ivalue =? 0) then Done (false, ErrorValue)
       else match factor_of rest with
            | Some nf => let! z := to_int (scaled (double_of_Z ivalue) nf) in Done (true, IntegerValue z)
            | None => Done (false, ErrorValue)
            end)%outcome
  | BooleanValue b => Done (true, IntegerValue (if b then 1 else 0))
  | IntegerValue i => Done (true, IntegerValue i)
  | RealValue r => (let! z := to_int r in Done (true, IntegerValue z))%outcome
  | AbsoluteTimeValue secs _ => Done (true, IntegerValue (wrap32 secs))
  | RelativeTimeValue r => (let! t := time_of r in Done (true, IntegerValue (wrap32 t)))%outcome
  end.

(** ** The functions *)

(** What is not modelled here: the text of a value that is not a string (ClassAdUnParser and the two time
    formats), pow(), and the functions that need more than the expression: time, regular expressions,
    eval(), unparse() and random(). *)
Class Outside := {
  value_text : Heap -> Value -> bytes;
  libm_pow : double -> double -> double;
  other_functions : Functions
}.

Section functions.
Context `{Outside} (oldSemantics : bool).

Definition convertValueToStringValue (value : Value) : M (bool * Value) :=
  match value with
  | UndefinedValue => ret (false, UndefinedValue)
  | ErrorValue => ret (false, ErrorValue)
  | StringValue s => ret (true, StringValue s)
  | _ => let* s := get in ret (true, StringValue (value_text (heap s) value))
  end.
(** Operation::Operate() with two operands; only a subscript has no answer. *)
Definition Operate (op : OpKind) (v1 v2 : Value) : M Value :=
  let* r := lift (_doOperation oldSemantics op v1 v2 UndefinedValue true true false) in
  match r with Some (v, _) => ret v | None => lift (EXCEPT "no EvalState") end.

Section call.
Variable fuel : nat.
Variable Evaluate : ExprTree -> M (bool * Value).

(** The value of an argument, or the end of the function with an error. *)
Definition arg (t : ExprTree) (k : Value -> M (bool * Value)) : M (bool * Value) :=
  let* (ok, v) := Evaluate t in if negb ok then ret (false, ErrorValue) else k v.
Definition error : M (bool * Value) := ret (true, ErrorValue).
Definition undefined : M (bool * Value) := ret (true, UndefinedValue).
Definition bool_value (b : bool) : M (bool * Value) := ret (true, BooleanValue b).
Definition named (name : bytes) (s : string) : bool := strcaseeq name (s2b s).

Definition isType (name : bytes) (argList : list ExprTree) : M (bool * Value) :=
  match argList with
  | [a] => arg a (fun v =>
      if named name "isundefined" then bool_value (is_type v UNDEFINED_VALUE)
      else if named name "iserror" then bool_value (is_type v ERROR_VALUE)
      else if named name "isinteger" then bool_value (is_type v INTEGER_VALUE)
      else if named name "isstring" then bool_value (is_type v STRING_VALUE)
      else if named name "isreal" then bool_value (is_type v REAL_VALUE)
      else if named name "isboolean" then bool_value (is_type v BOOLEAN_VALUE)
      else if named name "isclassad" then bool_value (is_type v CLASSAD_VALUE)
      else if named name "islist" then bool_value (is_type v LIST_VALUE)
      else if named name "isabstime" then bool_value (is_type v ABSOLUTE_TIME_VALUE)
      else if named name "isreltime" then bool_value (is_type v RELATIVE_TIME_VALUE)
      else error)
  | _ => error
  end.

(** The loop of testMember(), in the state of the caller. *)
Fixpoint member_loop (useIS : bool) (arg0 : Value) (l : list ExprTree) : M (bool * Value) :=
  match l with
  | [] => bool_value false
  | t :: l' => arg t (fun cArg =>
      let* v := Operate (if useIS then META_EQUAL_OP else EQUAL_OP) cArg arg0 in
      match v with BooleanValue true => ret (true, v) | _ => member_loop useIS arg0 l' end)
  end.
Definition testMember (name : bytes) (argList : list ExprTree) : M (bool * Value) :=
  let useIS := named name "identicalmember" in
  match argList with
  | [a; b] => arg a (fun arg0 => arg b (fun arg1 =>
      if is_type arg1 UNDEFINED_VALUE || (negb useIS && is_type arg0 UNDEFINED_VALUE) then undefined
      else
        match arg1 with
        | ListValue _ el =>
            if is_type arg0 LIST_VALUE || is_type arg0 CLASSAD_VALUE then error
            else if negb useIS && is_type arg0 ERROR_VALUE then error
            else member_loop useIS arg0 el
        | _ => error
        end))
  | _ => error
  end.

Definition size_of (argList : list ExprTree) : M (bool * Value) :=
  match argList with
  | [a] => arg a (fun v =>
      match v with
      | UndefinedValue => undefined
      | ListValue _ l => ret (true, IntegerValue (Z.of_nat (length l)))
      | ClassAdValue ad => let* ad := deref ad in ret (true, IntegerValue (Z.of_nat (size (ad_attrs ad))))
      | StringValue s => ret (true, IntegerValue (Z.of_nat (length s)))
      | _ => error
      end)
  | _ => error
  end.

(** The argument of the functions on a list. *)
Definition list_arg (t : ExprTree) (k : list ExprTree -> M (bool * Value)) : M (bool * Value) :=
  arg t (fun v => match v with UndefinedValue => undefined | ListValue _ l => k l | _ => error end).
Definition is_number (v : Value) : bool := is_type v REAL_VALUE || is_type v INTEGER_VALUE.
(** A walk over numbers that keeps a result; [None] before the first element. *)
Fixpoint number_loop (step : Value -> Value -> M Value) (result : option Value) (l : list ExprTree)
    (k : option Value -> M (bool * Value)) : M (bool * Value) :=
  match l with
  | [] => k result
  | t :: l' => arg t (fun v =>
      if negb (is_number v) then error
      else
        let* r := (match result with None => ret v | Some r => step r v end) in
        number_loop step (Some r) l' k)
  end.
Definition sumAvg (name : bytes) (argList : list ExprTree) : M (bool * Value) :=
  match argList with
  | [a] => list_arg a (fun l =>
      number_loop (Operate ADDITION_OP) None l (fun result =>
        match result with
        | None => undefined
        | Some r =>
            if named name "sum" then ret (true, r)
            else let* v := Operate DIVISION_OP r (RealValue (double_of_Z (Z.of_nat (length l)))) in ret (true, v)
        end))
  | _ => error
  end.
Definition minMax (fn : bytes) (argList : list ExprTree) : M (bool * Value) :=
  let op := if bool_decide (tolower <$> (fn !! 1%nat) = Some (ascii_of_nat 105)) then LESS_THAN_OP else GREATER_THAN_OP in
  match argList with
  | [a] => list_arg a (fun l =>
      number_loop (fun r v => let* c := Operate op v r in ret (match c with BooleanValue true => v | _ => r end)) None l
        (fun result => ret (true, default UndefinedValue result)))
  | _ => error
  end.

Definition comparison_named (s : bytes) : option OpKind :=
  if streq s (s2b "<") then Some LESS_THAN_OP else if streq s (s2b "<=") then Some LESS_OR_EQUAL_OP
  else if streq s (s2b "!=") then Some NOT_EQUAL_OP else if streq s (s2b "==") then Some EQUAL_OP
  else if streq s (s2b ">") then Some GREATER_THAN_OP else if streq s (s2b ">=") then Some GREATER_OR_EQUAL_OP
  else if streq s (s2b "is") then Some META_EQUAL_OP else if streq s (s2b "isnt") then Some META_NOT_EQUAL_OP
  else None.
(** The loop of listCompare(): the first comparison that is undefined ends it, also for anyCompare(). *)
Fixpoint compare_loop (op : OpKind) (needAllMatch : bool) (compareVal : Value) (l : list ExprTree) : M (bool * Value) :=
  match l with
  | [] => bool_value needAllMatch
  | t :: l' => arg t (fun v =>
      let* r := Operate op v compareVal in
      match r with
      | BooleanValue b => if bool_decide (b = needAllMatch) then compare_loop op needAllMatch compareVal l' else bool_value b
      | UndefinedValue => bool_value false
      | _ => ret (false, ErrorValue)
      end)
  end.
Definition listCompare (fn : bytes) (argList : list ExprTree) : M (bool * Value) :=
  match argList with
  | [a; b; c] => arg a (fun stringValue =>
      match stringValue with
      | UndefinedValue => undefined
      | StringValue comparison_string =>
          match comparison_named comparison_string with
          | None => error
          | Some op => list_arg b (fun l => arg c (fun compareVal => compare_loop op (negb (named fn "anycompare")) compareVal l))
          end
      | _ => error
      end)
  | _ => error
  end.

Fixpoint strcat_loop (buf : bytes) (l : list ExprTree) : M (bool * Value) :=
  match l with
  | [] => ret (true, StringValue buf)
  | t :: l' => arg t (fun val =>
      let* (_, stringVal) := convertValueToStringValue val in
      match stringVal with
      | StringValue s => strcat_loop (buf ++ s) l'
      | UndefinedValue => undefined
      | _ => error
      end)
  end.
Definition strCat (argList : list ExprTree) : M (bool * Value) := strcat_loop [] argList.
Definition changeCase (name : bytes) (argList : list ExprTree) : M (bool * Value) :=
  match argList with
  | [a] => arg a (fun val =>
      let* (_, stringVal) := convertValueToStringValue val in
      match stringVal with
      | StringValue str => ret (true, StringValue (if named name "tolower" then lower str else upper str))
      | UndefinedValue => undefined
      | _ => error
      end)
  | _ => error
  end.

(** subString() once the arguments are known; string::assign() throws when the offset is still negative. *)
Definition substr (buf : bytes) (offset0 : Z) (len0 : option Z) : outcome bytes :=
  let alen := Z.of_nat (length buf) in
  let offset := if offset0 <? 0 then alen + offset0 else if alen <=? offset0 then alen else offset0 in
  let len := default 0 len0 in
  let len1 := if len <=? 0 then Z.max 0 (alen - offset + len) else if alen - offset <? len then alen - offset else len in
  let len2 := match len0 with Some 0 => 0 | _ => len1 end in
  if offset <? 0 then EXCEPT "std::out_of_range" else Done (take (Z.to_nat len2) (drop (Z.to_nat offset) buf)).
Definition substr_args (arg0 arg1 : Value) (arg2 : option Value) : M (bool * Value) :=
  let undef v := is_type v UNDEFINED_VALUE in
  if undef arg0 || undef arg1 || match arg2 with Some v => undef v | None => false end then undefined
  else
    match arg0, arg1, arg2 with
    | StringValue buf, IntegerValue offset, None => let* s := lift (substr buf offset None) in ret (true, StringValue s)
    | StringValue buf, IntegerValue offset, Some (IntegerValue len) => let* s := lift (substr buf offset (Some len)) in ret (true, StringValue s)
    | _, _, _ => error
    end.
Definition subString (argList : list ExprTree) : M (bool * Value) :=
  match argList with
  | [a; b] => arg a (fun arg0 => arg b (fun arg1 => substr_args arg0 arg1 None))
  | [a; b; c] => arg a (fun arg0 => arg b (fun arg1 => arg c (fun arg2 => substr_args arg0 arg1 (Some arg2))))
  | _ => error
  end.

Definition order (c : comparison) : Z := match c with Lt => -1 | Eq => 0 | Gt => 1 end.
Definition compareString (name : bytes) (argList : list ExprTree) : M (bool * Value) :=
  match argList with
  | [a; b] => arg a (fun arg0 => arg b (fun arg1 =>
      if is_type arg0 UNDEFINED_VALUE || is_type arg1 UNDEFINED_VALUE then undefined
      else
        let* (_, v0) := convertValueToStringValue arg0 in
        let* (_, v1) := convertValueToStringValue arg1 in
        match v0, v1 with
        | StringValue s0, StringValue s1 =>
            ret (true, IntegerValue (order ((if named name "strcmp" then strcmp else strcasecmp) (until_nul s0) (until_nul s1))))
        | _, _ => error
        end))
  | _ => error
  end.

Definition convInt (argList : list ExprTree) : M (bool * Value) :=
  match argList with [a] => arg a (fun v => let* (_, r) := lift (convertValueToIntegerValue v) in ret (true, r)) | _ => error end.
Definition convReal (argList : list ExprTree) : M (bool * Value) :=
  match argList with [a] => arg a (fun v => let* (_, r) := lift (convertValueToRealValue v) in ret (true, r)) | _ => error end.
Definition convString (argList : list ExprTree) : M (bool * Value) :=
  match argList with [a] => arg a (fun v => let* (_, r) := convertValueToStringValue v in ret (true, r)) | _ => error end.
Definition convBool (argList : list ExprTree) : M (bool * Value) :=
  match argList with
  | [a] => arg a (fun v =>
      match v with
      | UndefinedValue => undefined
      | ErrorValue | ClassAdValue _ | ListValue _ _ | AbsoluteTimeValue _ _ => error
      | BooleanValue b => bool_value b
      | IntegerValue i => bool_value (negb (i =? 0))
      | RealValue r => bool_value (negb (SFeqb r (S754_zero false)))
      | StringValue buf => bool_value (negb (negb (strcaseeq (s2b "false") (until_nul buf)) || streq buf []))
      | RelativeTimeValue r => let* t := lift (time_of r) in bool_value (negb (t =? 0))
      end)
  | _ => error
  end.

(** ** Rounding *)

(** floor(), as an integer; [None] for what is not finite. *)
Definition floor_Z (r : double) : option Z :=
  match r with
  | S754_zero _ => Some 0
  | S754_finite s m e => Some (if 0 <=? e then signed s (Z.pos m * 2 ^ e) else signed s (Z.pos m) / 2 ^ (- e))
  | _ => None
  end.
Definition ceil_Z (r : double) : option Z := Z.opp <$> floor_Z (SFopp r).
(** rint(), to the nearest, ties to even. *)
Definition rint_Z (r : double) : option Z :=
  match r with
  | S754_finite s m e =>
      if 0 <=? e then Some (signed s (Z.pos m * 2 ^ e))
      else
        let d := 2 ^ (- e) in
        let q := Z.pos m / d in
        let rest := 2 * (Z.pos m mod d) in
        Some (signed s (if rest <? d then q else if d <? rest then q + 1 else if Z.even q then q else q + 1))
  | _ => floor_Z r
  end.
(** ceil() as a double. *)
Definition ceil (r : double) : double :=
  match r with
  | S754_finite s _ e =>
      if 0 <=? e then r
      else match ceil_Z r with Some 0 => S754_zero s | Some z => double_of_Z z | None => r end
  | _ => r
  end.
Definition int_in_range (o : option Z) : outcome Z :=
  match o with
  | Some z => if (- 2 ^ 31 <=? z) && (z <? 2 ^ 31) then Done z else EXCEPT "int out of range"
  | None => EXCEPT "int out of range"
  end.
Definition doRound (name : bytes) (argList : list ExprTree) : M (bool * Value) :=
  match argList with
  | [a] => arg a (fun v =>
      match v with
      | IntegerValue i => ret (true, v)
      | _ =>
          let* (ok, realValue) := lift (convertValueToRealValue v) in
          match realValue with
          | RealValue rvalue =>
              if negb ok then error
              else
                let int o := (let* z := lift (int_in_range o) in ret (true, IntegerValue z)) in
                if named name "floor" then int (floor_Z rvalue)
                else if named name "ceil" || named name "ceiling" then int (ceil_Z rvalue)
                else if named name "round" then int (rint_Z rvalue)
                else error
          | _ => error
          end
      end)
  | _ => error
  end.

(** The list of quantize(): the first element that is large enough, or the last one with its real value. *)
Fixpoint quantize_loop (scope : option Z) (rval : double) (base : Value) (rbase : double) (l : list ExprTree)
    (k : Value -> double -> M (bool * Value)) : M (bool * Value) :=
  match l with
  | [] => k base rbase
  | t :: l' =>
      match scope with
      | None => ret (false, ErrorValue)
      | Some _ =>
          let* (ok, base) := in_new_state fuel scope (Evaluate t) in
          if negb ok then ret (false, ErrorValue)
          else
            let* (_, val) := lift (convertValueToRealValue base) in
            match val with
            | RealValue rbase => if SFleb rval rbase then ret (true, base) else quantize_loop scope rval base rbase l' k
            | _ => error
            end
      end
  end.
(** The multiple of the base at or above the value. *)
Definition quantize_to (v : Value) (rval : double) (arg2 : Value) (rbase : double) : M (bool * Value) :=
  match arg2, v with
  | IntegerValue 0, _ => ret (true, v)
  | IntegerValue ibase, IntegerValue ival =>
      let n := wrap32 (wrap32 (ival + ibase) - 1) in
      if (n =? INT_MIN) && (ibase =? -1) then lift (EXCEPT "integer division overflow")
      else ret (true, IntegerValue (wrap32 (Z.quot n ibase * ibase)))
  | IntegerValue ibase, _ => ret (true, RealValue (dmul (ceil (ddiv rval (double_of_Z ibase))) (double_of_Z ibase)))
  | _, _ =>
      let epsilon := decimal false 1 (-8) in
      if SFleb (SFopp epsilon) rbase && SFleb rbase epsilon then ret (true, v)
      else ret (true, RealValue (dmul (ceil (ddiv rval rbase)) rbase))
  end.
Definition doMath2 (name : bytes) (argList : list ExprTree) : M (bool * Value) :=
  match argList with
  | [a; b] => arg a (fun v => arg b (fun v2 =>
      if named name "pow" then
        match v, v2 with
        | IntegerValue ival, IntegerValue ibase =>
            if 0 <=? ibase then
              let* z := lift (to_int (dadd (libm_pow (double_of_Z ival) (double_of_Z ibase)) (ddiv (double_of_Z 1) (double_of_Z 2)))) in
              ret (true, IntegerValue z)
            else ret (true, RealValue (libm_pow (double_of_Z ival) (double_of_Z ibase)))
        | _, _ =>
            let* (_, realValue) := lift (convertValueToRealValue v) in
            let* (_, realBase) := lift (convertValueToRealValue v2) in
            match realValue, realBase with RealValue x, RealValue y => ret (true, RealValue (libm_pow x y)) | _, _ => error end
        end
      else if named name "quantize" then
        let* (_, val) := lift (convertValueToRealValue v) in
        match val with
        | RealValue rval =>
            match v2 with
            | ListValue scope l => quantize_loop scope rval (RealValue (S754_zero false)) (S754_zero false) l (quantize_to v rval)
            | _ =>
                let* (_, base) := lift (convertValueToRealValue v2) in
                match base with RealValue rbase => quantize_to v rval v2 rbase | _ => error end
            end
        | _ => error
        end
      else error))
  | _ => error
  end.

(** ** Functions of the old ClassAds *)

Definition ifThenElse (argList : list ExprTree) : M (bool * Value) :=
  match argList with
  | [a; b; c] => arg a (fun v =>
      let choose (x : bool) := arg (if x then b else c) (fun r => ret (true, r)) in
      match v with
      | BooleanValue x => choose x
      | IntegerValue i => choose (negb (i =? 0))
      | RealValue r => choose (negb (SFeqb r (S754_zero false)))
      | UndefinedValue => undefined
      | _ => error
      end)
  | _ => error
  end.

Definition two_digits (n : Z) : bytes := (if n <? 10 then [digit_char 0] else []) ++ print_d n.
Definition colon : bytes := [ascii_of_nat 58].
Definition interval_text (tot_secs : Z) : bytes :=
  let days := Z.quot tot_secs 86400 in
  let rest := Z.rem tot_secs 86400 in
  let hours := Z.quot rest 3600 in
  let rest := Z.rem rest 3600 in
  let min := Z.quot rest 60 in
  let secs := Z.rem rest 60 in
  if negb (days =? 0) then print_d days ++ [ascii_of_nat 43] ++ two_digits (Z.abs hours) ++ colon ++ two_digits (Z.abs min) ++ colon ++ two_digits (Z.abs secs)
  else if negb (hours =? 0) then print_d hours ++ colon ++ two_digits (Z.abs min) ++ colon ++ two_digits (Z.abs secs)
  else if negb (min =? 0) then print_d min ++ colon ++ two_digits (Z.abs secs)
  else print_d secs.
Definition interval (argList : list ExprTree) : M (bool * Value) :=
  match argList with
  | [a] => arg a (fun v =>
      let* (_, intarg) := lift (convertValueToIntegerValue v) in
      match intarg with IntegerValue tot_secs => ret (true, StringValue (interval_text tot_secs)) | _ => error end)
  | _ => error
  end.
(** debug(): only the value; what it prints is not modelled. *)
Definition debug (argList : list ExprTree) : M (bool * Value) :=
  match argList with [a] => arg a (fun v => ret (true, v)) | _ => error end.

(** split_string_list(): the runs of characters that are no delimiters. *)
Fixpoint split_runs (delim : bytes) (item s : bytes) : list bytes :=
  match s with
  | [] => if bool_decide (item = []) then [] else [item]
  | c :: s' =>
      if bool_decide (c ∈ delim) then (if bool_decide (item = []) then [] else [item]) ++ split_runs delim [] s'
      else split_runs delim (item ++ [c]) s'
  end.
Definition split_string_list (str delim : bytes) : list bytes :=
  split_runs (match until_nul delim with [] => s2b " ," | d => d end) [] (until_nul str).
Definition intersect_args (arg0 arg1 : Value) (arg2 : option Value) : M (bool * Value) :=
  let has t v := is_type v t in
  let any t := has t arg0 || has t arg1 || match arg2 with Some v => has t v | None => false end in
  if any ERROR_VALUE then error
  else if any UNDEFINED_VALUE then undefined
  else
    match arg0, arg1, arg2 with
    | StringValue str0, StringValue str1, (None | Some (StringValue _)) =>
        let delim := match arg2 with Some (StringValue d) => d | _ => [] end in
        bool_value (existsb (fun x => bool_decide (x ∈ split_string_list str1 delim)) (split_string_list str0 delim))
    | _, _, _ => error
    end.
(** An argument that cannot be evaluated is an error here, not a failure. *)
Definition arg_or_error (t : ExprTree) (k : Value -> M (bool * Value)) : M (bool * Value) :=
  let* (ok, v) := Evaluate t in if negb ok then error else k v.
Definition stringListsIntersect (argList : list ExprTree) : M (bool * Value) :=
  match argList with
  | [a; b] => arg_or_error a (fun arg0 => arg_or_error b (fun arg1 => intersect_args arg0 arg1 None))
  | [a; b; c] => arg_or_error a (fun arg0 => arg_or_error b (fun arg1 => arg_or_error c (fun arg2 => intersect_args arg0 arg1 (Some arg2))))
  | _ => error
  end.
End call.

(** The table of FunctionCall::FunctionCall(), without regard to case. *)
Definition type_predicates : list string :=
  ["isundefined"; "iserror"; "isstring"; "isinteger"; "isreal"; "islist"; "isclassad"; "isboolean"; "isabstime"; "isreltime"]%string.
Definition functionTable (name : bytes) : option (nat -> (ExprTree -> M (bool * Value)) -> list ExprTree -> M (bool * Value)) :=
  let among l := existsb (named name) l in
  if among type_predicates then Some (fun _ E => isType E name)
  else if among ["member"; "identicalmember"]%string then Some (fun _ E => testMember E name)
  else if among ["size"]%string then Some (fun _ E => size_of E)
  else if among ["sum"; "avg"]%string then Some (fun _ E => sumAvg E name)
  else if among ["min"; "max"]%string then Some (fun _ E => minMax E name)
  else if among ["anycompare"; "allcompare"]%string then Some (fun _ E => listCompare E name)
  else if among ["strcat"]%string then Some (fun _ E => strCat E)
  else if among ["toupper"; "tolower"]%string then Some (fun _ E => changeCase E name)
  else if among ["substr"]%string then Some (fun _ E => subString E)
  else if among ["strcmp"; "stricmp"]%string then Some (fun _ E => compareString E name)
  else if among ["int"]%string then Some (fun _ E => convInt E)
  else if among ["real"]%string then Some (fun _ E => convReal E)
  else if among ["string"]%string then Some (fun _ E => convString E)
  else if among ["bool"]%string then Some (fun _ E => convBool E)
  else if among ["floor"; "ceil"; "ceiling"; "round"]%string then Some (fun _ E => doRound E name)
  else if among ["pow"; "quantize"]%string then Some (fun f E => doMath2 f E name)
  else if among ["ifThenElse"]%string then Some (fun _ E => ifThenElse E)
  else if among ["interval"]%string then Some (fun _ E => interval E)
  else if among ["stringListsIntersect"]%string then Some (fun _ E => stringListsIntersect E)
  else if among ["debug"]%string then Some (fun _ E => debug E)
  else other_functions name.
#[export] Instance classad_functions : Functions := functionTable.
End functions.

(** ** substr() *)

(** Perl's substr: where the piece begins and ends, counted from the end when negative. *)
Definition piece_start (n offset : Z) : Z := if offset <? 0 then n + offset else Z.min offset n.
Definition piece_end (n start : Z) (len : option Z) : Z :=
  match len with None => n | Some l => if l <? 0 then n + l else Z.min n (start + l) end.
Definition perl_substr (s : bytes) (offset : Z) (len : option Z) : bytes :=
  let n := Z.of_nat (length s) in
  let start := piece_start n offset in
  take (Z.to_nat (piece_end n start len - start)) (drop (Z.to_nat start) s).

(** Substr() is Perl's function of that name, with offsets and lengths that count from
    the end when they are negative and a length of 0 for the empty string, but for offsets that lie more
    than the length of the string before its end: there the process dies of an uncaught out_of_range. *)
Theorem substr_perl s offset len :
  substr s offset len = if offset <? - Z.of_nat (length s) then EXCEPT "std::out_of_range" else Done (perl_substr s offset len).
Proof.
  unfold substr, perl_substr, piece_start, piece_end. set (n := Z.of_nat (length s)). assert (Hn : 0 <= n) by lia.
  destruct (Z.ltb_spec offset 0) as [Ho|Ho].
  - destruct (Z.ltb_spec (n + offset) 0), (Z.ltb_spec offset (- n)); try lia; try done.
    do 2 f_equal. destruct len as [l|]; simpl; [|do 2 f_equal; lia].
    destruct (Z.ltb_spec l 0), (Z.leb_spec l 0), (Z.ltb_spec (n - (n + offset)) l); destruct l; try lia; do 1 f_equal; lia.
  - destruct (Z.ltb_spec offset (- n)); [lia|]. assert (Hm : (if n <=? offset then n else offset) = Z.min offset n) by (destruct (Z.leb_spec n offset); lia).
    rewrite Hm. destruct (Z.ltb_spec (Z.min offset n) 0); [lia|]. do 2 f_equal. set (o := Z.min offset n) in *. clearbody o. destruct len as [l|]; simpl; [|lia].
    destruct (Z.ltb_spec l 0), (Z.leb_spec l 0), (Z.ltb_spec (n - o) l); destruct l; try lia; do 1 f_equal; lia.
Qed.

(** ** Functions on lists *)

(** The result of comparing two values. *)
Definition compares (old : bool) (op : OpKind) (v1 v2 : Value) : Value :=
  match _doOperation old op v1 v2 UndefinedValue true true false with Done (Some (v, _)) => v | _ => ErrorValue end.
Definition is_true (v : Value) : bool := match v with BooleanValue true => true | _ => false end.
(** [t] has the value [v] in the state [s], and leaves it alone. *)
Definition evals (E : ExprTree -> M (bool * Value)) (s : EvalState) (t : ExprTree) (v : Value) : Prop := E t s = Some (Done (s, (true, v))).

Lemma Operate_comparison old op v1 v2 s : is_comparison op -> Operate old op v1 v2 s = Some (Done (s, compares old op v1 v2)).
Proof.
  intros Ho. unfold Operate, compares, bind, lift.
  assert (Hr : exists v sig, _doOperation old op v1 v2 UndefinedValue true true false = Done (Some (v, sig))); [|by destruct Hr as (v & sig & ->)].
  assert (Hd : _doOperation old op v1 v2 UndefinedValue true true false =
    match (if IsStrictOperator op then strict_result v1 v2 UndefinedValue true true false else None) with
    | Some r => Done (Some r) | None => (let! x := doComparison op v1 v2 in Done (Some x))%outcome end).
  { unfold _doOperation. by destruct op. }
  rewrite Hd. destruct (if IsStrictOperator op then _ else None) as [[v sig]|] eqn:Hs; [by eexists _, _|].
  destruct (doComparison_total op v1 v2 Ho) as (v & sig & -> & _); [|by eexists _, _].
  destruct op; try done; simpl in Hs; auto; right; right; destruct (strict_none _ _ _ _ _ Hs); auto.
Qed.
Lemma arg_value E s t v k : evals E s t v -> arg E t k s = k v s.
Proof. unfold evals, arg, bind. by intros ->. Qed.

Section lists.
Context (old : bool) (E : ExprTree -> M (bool * Value)) (s : EvalState).

Lemma member_loop_spec useIS x l vs : Forall2 (evals E s) l vs ->
  member_loop old E useIS x l s =
  Some (Done (s, (true, BooleanValue (existsb (fun v => is_true (compares old (if useIS then META_EQUAL_OP else EQUAL_OP) v x)) vs)))).
Proof.
  induction 1 as [|t v l vs Ht _ IH]; [done|]. simpl. rewrite (arg_value _ _ _ _ _ Ht). unfold bind at 1.
  rewrite Operate_comparison by (by destruct useIS). destruct (compares _ _ _ _) as [| |[]| | | | | | |]; done.
Qed.
Lemma compare_loop_spec op all x l vs : is_comparison op -> Forall2 (evals E s) l vs ->
  Forall (fun v => exists b, compares old op v x = BooleanValue b) vs ->
  compare_loop old E op all x l s =
  Some (Done (s, (true, BooleanValue ((if all then @forallb Value else @existsb Value) (fun v => is_true (compares old op v x)) vs)))).
Proof.
  intros Ho. induction 1 as [|t v l vs Ht _ IH]; intros Hv; [by destruct all|]. apply Forall_cons in Hv as [[b Hb] Hv]. simpl.
  rewrite (arg_value _ _ _ _ _ Ht). unfold bind at 1. rewrite Operate_comparison, Hb by done. destruct all, b; simpl; rewrite ?Hb; done || by apply IH.
Qed.

(** The integers of a list, from the first on. *)
Lemma number_loop_spec step (f : Z -> Z -> Z) l zs z0 k :
  (forall a b, step (IntegerValue a) (IntegerValue b) s = Some (Done (s, IntegerValue (f a b)))) ->
  Forall2 (evals E s) l (IntegerValue <$> zs) ->
  number_loop E step (Some (IntegerValue z0)) l k s = k (Some (IntegerValue (fold_left f zs z0))) s.
Proof.
  intros Hf. revert zs z0. induction l as [|t l IH]; intros zs z0 Hl; destruct zs as [|z zs]; simpl in Hl; inversion Hl as [|? ? ? ? Ht Hl']; subst; [done|].
  simpl. rewrite (arg_value _ _ _ _ _ Ht). simpl. unfold bind. rewrite Hf. by apply IH.
Qed.
Lemma number_loop_first step f t l z zs k :
  (forall a b, step (IntegerValue a) (IntegerValue b) s = Some (Done (s, IntegerValue (f a b)))) ->
  Forall2 (evals E s) (t :: l) (IntegerValue <$> z :: zs) ->
  number_loop E step None (t :: l) k s = k (Some (IntegerValue (fold_left f zs z))) s.
Proof.
  intros Hf Hl. apply Forall2_cons in Hl as [Ht Hl]. cbn [number_loop]. rewrite (arg_value _ _ _ _ _ Ht). simpl. unfold bind, ret.
  by apply number_loop_spec.
Qed.
End lists.

Lemma compares_ints old op a b : is_comparison op -> compares old op (IntegerValue a) (IntegerValue b) =
  match op with
  | LESS_THAN_OP => BooleanValue (a <? b) | LESS_OR_EQUAL_OP => BooleanValue (a <=? b)
  | GREATER_THAN_OP => BooleanValue (b <? a) | GREATER_OR_EQUAL_OP => BooleanValue (b <=? a)
  | EQUAL_OP | META_EQUAL_OP => BooleanValue (a =? b) | _ => BooleanValue (negb (a =? b))
  end.
Proof.
  intros Ho. destruct op; try done; unfold compares; cbn; f_equal; rewrite ?Z.gtb_ltb; try done;
    destruct (Z.ltb_spec a b), (Z.ltb_spec b a), (Z.eqb_spec a b), (Z.leb_spec a b), (Z.leb_spec b a); simpl; lia || done.
Qed.
Lemma wrap32_sum zs z : wrap32 z = z -> fold_left (fun a b => wrap32 (a + b)) zs z = wrap32 (fold_left Z.add zs z).
Proof.
  revert z. induction zs as [|y zs IH]; intros z Hz; [done|]. simpl. rewrite IH.
  - revert y. clear. assert (Hw : forall l a b, wrap32 a = wrap32 b -> wrap32 (fold_left Z.add l a) = wrap32 (fold_left Z.add l b)).
    { induction l as [|x l IHl]; intros a b Hab; [done|]. simpl. apply IHl. unfold wrap32 in *.
      replace (a + x + 2 ^ 31) with ((a + 2 ^ 31) + x) by lia. replace (b + x + 2 ^ 31) with ((b + 2 ^ 31) + x) by lia.
      rewrite <- (Z.add_mod_idemp_l (a + 2 ^ 31)), <- (Z.add_mod_idemp_l (b + 2 ^ 31)) by lia. do 3 f_equal. lia. }
    intros y. apply Hw. apply wrap32_small, wrap32_range.
  - apply wrap32_small, wrap32_range.
Qed.

(** C25 (functional): the functions on lists, for a list whose elements have values.  member() finds an
    element that == says is equal; anyCompare() and allCompare() are the disjunction and the conjunction of
    comparisons that come out true or false; on integers min() and max() give the least and the greatest,
    and sum() the sum modulo 2^32. *)
Theorem list_functions_spec old E s a b c sc l vs x :
  evals E s b (ListValue sc l) -> Forall2 (evals E s) l vs ->
  (evals E s a x -> IsExceptional x = false -> is_aggregate x = false ->
   testMember old E (s2b "member") [a; b] s = Some (Done (s, (true, BooleanValue (existsb (fun v => is_true (compares old EQUAL_OP v x)) vs))))) /\
  (forall sym op, comparison_named sym = Some op -> evals E s a (StringValue sym) -> evals E s c x ->
   Forall (fun v => exists r, compares old op v x = BooleanValue r) vs ->
   listCompare old E (s2b "anyCompare") [a; b; c] s = Some (Done (s, (true, BooleanValue (existsb (fun v => is_true (compares old op v x)) vs)))) /\
   listCompare old E (s2b "allCompare") [a; b; c] s = Some (Done (s, (true, BooleanValue (forallb (fun v => is_true (compares old op v x)) vs))))) /\
  (forall z zs, vs = IntegerValue <$> z :: zs -> Forall int_range (z :: zs) ->
   minMax old E (s2b "min") [b] s = Some (Done (s, (true, IntegerValue (fold_left Z.min zs z)))) /\
   minMax old E (s2b "max") [b] s = Some (Done (s, (true, IntegerValue (fold_left Z.max zs z)))) /\
   sumAvg old E (s2b "sum") [b] s = Some (Done (s, (true, IntegerValue (wrap32 (fold_left Z.add zs z)))))).
Proof.
  intros Hb Hl. split_and!.
  - intros Ha He Hg. unfold testMember. rewrite (arg_value _ _ _ _ _ Ha), (arg_value _ _ _ _ _ Hb). unfold IsExceptional in He.
    apply orb_false_iff in He as [He1 He2]. simpl. rewrite He1, He2. simpl. rewrite <- (member_loop_spec old E s false x l vs Hl). by destruct x.
  - intros sym op Hop Ha Hc Hv. assert (Ho : is_comparison op) by (unfold comparison_named in Hop; repeat case_match; by simplify_eq).
    split; unfold listCompare; rewrite (arg_value _ _ _ _ _ Ha), Hop; unfold list_arg; rewrite (arg_value _ _ _ _ _ Hb), (arg_value _ _ _ _ _ Hc).
    + by apply (compare_loop_spec old E s op false x l vs).
    + by apply (compare_loop_spec old E s op true x l vs).
  - intros z zs -> Hr. destruct l as [|t l]; [by inversion Hl|]. apply Forall_cons in Hr as [Hz Hr].
    assert (Hc : forall op u w, is_comparison op -> Operate old op (IntegerValue u) (IntegerValue w) s = Some (Done (s, compares old op (IntegerValue u) (IntegerValue w))))
      by (intros; by apply Operate_comparison).
    split_and!.
    + unfold minMax, list_arg. rewrite (arg_value _ _ _ _ _ Hb). erewrite (number_loop_first E s _ Z.min); [done| |exact Hl].
      intros u w. cbn. unfold bind. rewrite Hc, compares_ints by done. destruct (Z.ltb_spec w u); unfold ret; do 4 f_equal; lia.
    + unfold minMax, list_arg. rewrite (arg_value _ _ _ _ _ Hb). erewrite (number_loop_first E s _ Z.max); [done| |exact Hl].
      intros u w. cbn. unfold bind. rewrite Hc, compares_ints by done. destruct (Z.ltb_spec u w); unfold ret; do 4 f_equal; lia.
    + unfold sumAvg, list_arg. rewrite (arg_value _ _ _ _ _ Hb). erewrite (number_loop_first E s _ (fun u w => wrap32 (u + w))); [|done|exact Hl].
      simpl. rewrite wrap32_sum by (by apply wrap32_small). done.
Qed.

(** Bool() of a string is true exactly for the string "false", in any case. *)
Theorem bool_of_string_inverted E s a buf :
  evals E s a (StringValue buf) -> convBool E [a] s = Some (Done (s, (true, BooleanValue (strcaseeq (s2b "false") (until_nul buf))))).
Proof.
  intros Ha. unfold convBool. rewrite (arg_value _ _ _ _ _ Ha). unfold bool_value, ret. do 5 f_equal.
  rewrite negb_orb, negb_involutive. destruct buf as [|ch buf]; [done|]. unfold streq. by rewrite (bool_decide_eq_false_2 (ch :: buf = [])), andb_true_r by done.
Qed.

(** A comparison that is undefined ends anyCompare() with false, whatever the elements after it are. *)
Theorem any_compare_stops_at_undefined old E s a b c sc t l v x sym op :
  comparison_named sym = Some op -> evals E s a (StringValue sym) -> evals E s b (ListValue sc (t :: l)) -> evals E s c x ->
  evals E s t v -> compares old op v x = UndefinedValue ->
  listCompare old E (s2b "anyCompare") [a; b; c] s = Some (Done (s, (true, BooleanValue false))).
Proof.
  intros Hop Ha Hb Hc Ht Hv. assert (Ho : is_comparison op) by (unfold comparison_named in Hop; repeat case_match; by simplify_eq).
  unfold listCompare. rewrite (arg_value _ _ _ _ _ Ha), Hop. unfold list_arg. rewrite (arg_value _ _ _ _ _ Hb), (arg_value _ _ _ _ _ Hc).
  cbn [compare_loop]. rewrite (arg_value _ _ _ _ _ Ht). unfold bind. by rewrite Operate_comparison, Hv.
Qed.
