(* ===== verification/ClassAdRuns.v ===== *)
(** Reasoning about the evaluation of ClassAd expressions: rules for its monad, and the expressions
    whose values are never lists. *)

From S2P Require Import Prelude ClassAdOps ClassAdEval.

Open Scope Z_scope.
Open Scope eval_scope.

(** ** Reasoning about runs *)

(** [m] comes back from [s], and unless the process stops the result satisfies [Q]. *)
Definition runs {A} (m : M A) (s : EvalState) (Q : EvalState -> A -> Prop) : Prop :=
  match m s with
  | None => False
  | Some (EXCEPT _) => True
  | Some (Done (s', a)) => Q s' a
  end.

Lemma runs_ret {A} (a : A) s (Q : EvalState -> A -> Prop) : Q s a -> runs (ret a) s Q.
Proof. done. Qed.
Lemma runs_bind {A B} (m : M A) (f : A -> M B) s Q : runs m s (fun s' a => runs (f a) s' Q) -> runs (bind m f) s Q.
Proof. unfold runs, bind. by destruct (m s) as [[[s' a]|]|]. Qed.
Lemma runs_get s (Q : EvalState -> EvalState -> Prop) : Q s s -> runs get s Q.
Proof. done. Qed.
Lemma runs_modify f s (Q : EvalState -> unit -> Prop) : Q (f s) tt -> runs (modify f) s Q.
Proof. done. Qed.
Lemma runs_weaken {A} (m : M A) s (P Q : EvalState -> A -> Prop) : (forall s' a, P s' a -> Q s' a) -> runs m s P -> runs m s Q.
Proof. unfold runs. intros HPQ. destruct (m s) as [[[s' a]|]|]; auto. Qed.
Lemma runs_lift {A} (o : outcome A) s (Q : EvalState -> A -> Prop) : (forall a, o = Done a -> Q s a) -> runs (lift o) s Q.
Proof. unfold runs, lift. destruct o; auto. Qed.
Lemma runs_deref a s (Q : EvalState -> Ad -> Prop) : (forall ad, heap s !! a = Some ad -> Q s ad) -> runs (deref a) s Q.
Proof. intros HQ. unfold deref. apply runs_bind, runs_get. destruct (heap s !! a) as [ad|] eqn:E; [by apply HQ|done]. Qed.
Lemma runs_is_Some {A} (m : M A) s Q : runs m s Q -> is_Some (m s).
Proof. unfold runs. destruct (m s) as [[[s' a]|]|]; by eauto. Qed.

(** The state but for the current ad. *)
Definition same (s s' : EvalState) : Prop := heap s' = heap s /\ rootAd s' = rootAd s /\ depth_remaining s' = depth_remaining s.
Lemma same_refl s : same s s.
Proof. done. Qed.
Lemma same_trans s1 s2 s3 : same s1 s2 -> same s2 s3 -> same s1 s3.
Proof. unfold same. intuition congruence. Qed.

(** ** Expressions without subscripts, lists and functions *)

Definition no_list (v : Value) : bool := match v with ListValue _ _ => false | _ => true end.
Fixpoint plain (t : ExprTree) : bool :=
  let opt (c : option ExprTree) := match c with None => true | Some t => plain t end in
  match t with
  | Literal v _ => no_list v
  | AttributeReference e _ _ => opt e
  | Operation op c1 c2 c3 => negb (bool_decide (op = SUBSCRIPT_OP)) && opt c1 && opt c2 && opt c3
  | FunctionCall _ _ => false
  | ClassAdNode _ => true
  | ExprList _ _ => false
  end.
Fixpoint height (t : ExprTree) : nat :=
  let opt (c : option ExprTree) := match c with None => O | Some t => S (height t) end in
  match t with
  | AttributeReference e _ _ => opt e
  | Operation _ c1 c2 c3 => Nat.max (opt c1) (Nat.max (opt c2) (opt c3))
  | _ => O
  end.

Lemma compare_values_no_list op v1 v2 t exact v : compare_values op v1 v2 t exact = Done v -> no_list v.
Proof.
  unfold compare_values, compareIntegers, compareReals, compareBools, compareAbsoluteTimes, compareRelativeTimes, compareIntegers, compareReals, compared.
  intros Hv. repeat case_match; by simplify_eq.
Qed.
Lemma coerce_no_list v1 v2 : no_list v1 -> no_list v2 -> no_list (coerceToNumber v1 v2).1.1 /\ no_list (coerceToNumber v1 v2).1.2.
Proof. by destruct v1, v2. Qed.
Lemma doComparison_no_list op v1 v2 r : doComparison op v1 v2 = Done r -> no_list r.1.
Proof.
  unfold doComparison. destruct (coerceToNumber v1 v2) as [[w1 w2] t]. unfold obind. intros Hr.
  match type of Hr with match ?m with _ => _ end = _ => destruct m as [v|] eqn:Hv; [|done] end. injection Hr as <-. simpl.
  assert (Hc : forall o e, compare_values o w1 w2 t e = Done v -> no_list v) by (intros; by eapply compare_values_no_list).
  destruct op; try (by eapply Hc); repeat case_match; simplify_eq; try done; by eapply Hc.
Qed.
Lemma doArithmetic_no_list op v1 v2 r : doArithmetic op v1 v2 = Done r -> no_list r.1.
Proof.
  unfold doArithmetic. case_match; [by intros [= <-]|]. case_match; [intros [= <-]; by destruct v1|]. unfold obind. intros Hr.
  match type of Hr with match ?m with _ => _ end = _ => destruct m as [v|] eqn:Hv; [|done] end. injection Hr as <-. simpl.
  unfold doIntegerArithmetic, doRealArithmetic, doTimeArithmetic, int_cast in Hv. repeat case_match; by simplify_eq.
Qed.
Lemma doLogical_no_list old op v1 v2 r : doLogical old op v1 v2 = Done r -> no_list r.1.
Proof.
  unfold doLogical. destruct (is_truth (coerce_bool old v1)) eqn:H1; [|by intros [= <-]]. destruct (is_truth (coerce_bool old v2)) eqn:H2; [|by intros [= <-]].
  simpl. assert (Hn : no_list (coerce_bool old v2)) by (by destruct (coerce_bool old v2)).
  assert (Hm : no_list (coerce_bool old v1)) by (by destruct (coerce_bool old v1)). destruct (coerce_bool old v1) as [| |[]| | | | | | |]; try done;
    destruct (coerce_bool old v2) as [| |[]| | | | | | |]; try done; destruct op; try done; by intros [= <-].
Qed.
Lemma doBitwise_no_list op v1 v2 r : doBitwise op v1 v2 = Done r -> no_list r.1.
Proof.
  unfold doBitwise, shifted, obind. intros Hr. repeat case_match; by simplify_eq.
Qed.
Lemma strict_no_list v1 v2 v3 b1 b2 b3 r : strict_result v1 v2 v3 b1 b2 b3 = Some r -> no_list r.1.
Proof. unfold strict_result. intros Hr. repeat case_match; by simplify_eq. Qed.

#[local] Arguments doComparison : simpl never.
#[local] Arguments doArithmetic : simpl never.
#[local] Arguments doLogical : simpl never.
#[local] Arguments doBitwise : simpl never.

Lemma doOperation_no_list old op v1 v2 v3 b1 b2 b3 r :
  _doOperation old op v1 v2 v3 b1 b2 b3 = Done (Some r) -> no_list v1 -> no_list v2 -> no_list v3 -> no_list r.1.
Proof.
  intros Hr H1 H2 H3. unfold _doOperation in Hr.
  assert (Hlet : forall x : outcome (Value * Z), (forall y, x = Done y -> no_list y.1) -> (let! y := x in Done (Some y))%outcome = Done (Some r) -> no_list r.1).
  { intros [y|] Hy; simpl; [|done]. intros [= <-]. by apply Hy. }
  set (pre := if IsStrictOperator op then _ else None) in Hr.
  assert (Hpre : forall x, pre = Some x -> no_list x.1) by (subst pre; intros x; destruct (IsStrictOperator op); [apply strict_no_list|done]).
  destruct pre as [x|]; [specialize (Hpre x eq_refl)|clear Hpre];
    destruct op; simpl in Hr; simplify_eq; try done; try (by destruct v1);
    try (revert Hr; apply Hlet; intros y; apply doComparison_no_list || apply doArithmetic_no_list || apply doLogical_no_list || apply doBitwise_no_list).
  - destruct v1; try done; destruct v2; by simplify_eq/=.
  - destruct v1; simpl in *; repeat case_match; by simplify_eq/=.
Qed.
