(* ===== verification/ClassAdTermination.v ===== *)
(** Evaluation of ClassAd expressions comes back: circles of attributes are cut by the limit on nested
    references, as long as no subscript starts a new count. *)

From S2P Require Import Prelude ClassAdOps ClassAdEval ClassAdRuns.

Open Scope Z_scope.
Open Scope eval_scope.

(** ** Termination *)

(** The scopes and the chains of parents go up: each ad has a rank, at most [K], and its parents a lower one. *)
Definition scoped (h : Heap) (rk : Z -> nat) (K : nat) : Prop :=
  forall a ad, h !! a = Some ad -> (rk a <= K)%nat /\
    (forall p, ad_parentScope ad = Some p -> rk p < rk a)%nat /\ (forall p, ad_chained_parent ad = Some p -> rk p < rk a)%nat.
(** The expressions of the ads are plain and at most [H] high. *)
Definition plain_heap (h : Heap) (H : nat) : Prop :=
  forall a ad n t, h !! a = Some ad -> ad_attrs ad !! n = Some t -> plain t /\ (height t <= H)%nat.

Section termination.
Context `{F : Functions} (old : bool) (h : Heap) (rk : Z -> nat) (K H : nat).
Hypothesis Hscope : scoped h rk K.
Hypothesis Hplain : plain_heap h H.

Lemma Lookup_runs fuel a name s : heap s = h -> (rk a < fuel)%nat ->
  runs (Lookup fuel a name) s (fun s' t => s' = s /\ forall x, t = Some x -> plain x /\ (height x <= H)%nat).
Proof.
  intros Hh. revert a. induction fuel as [|fuel IH]; intros a Hf; [lia|]. cbn [Lookup].
  apply runs_bind, runs_deref. intros ad Had. rewrite Hh in Had. destruct (ad_attrs ad !! lower name) as [t|] eqn:Ht.
  - apply runs_ret. split; [done|]. intros x [= <-]. by eapply Hplain.
  - destruct (ad_chained_parent ad) as [p|] eqn:Hp; [|by apply runs_ret].
    destruct (Hscope a ad Had) as (_ & _ & Hc). specialize (Hc p Hp). apply IH. lia.
Qed.
Definition plain_found (r : found) : Prop := forall x, r = EVAL_OK x -> plain x /\ (height x <= H)%nat.
Lemma scope_runs fuel this a name s : heap s = h -> (rk a < fuel)%nat ->
  runs (lookup_in_scope fuel this a name) s (fun s' r => same s s' /\ plain_found r).
Proof.
  revert a s. induction fuel as [|fuel IH]; intros a s Hh Hf; [lia|]. cbn [lookup_in_scope].
  apply runs_bind, runs_modify, runs_bind.
  eapply runs_weaken; [|apply (Lookup_runs (S fuel) a name); done]. intros s1 t [-> Ht].
  assert (Hn : forall x, plain_found (EVAL_OK (ClassAdNode x))) by (intros x y [= <-]; simpl; split; [done|lia]).
  destruct t as [t|]; [apply runs_ret; split; [done|]; intros x [= <-]; by apply Ht|].
  apply runs_bind, runs_deref. intros ad Had. simpl in Had. rewrite Hh in Had. destruct (_ || _).
  { apply runs_bind, runs_get, runs_ret. split; [done|]. simpl. destruct (rootAd s); [apply Hn|done]. }
  destruct (strcaseeq name _); [apply runs_ret; split; [done|apply Hn]|].
  destruct (strcaseeq name _); [apply runs_ret; split; [done|]; by destruct (ad_parentScope ad)|].
  destruct (ad_parentScope ad) as [p|] eqn:Hp; [|by apply runs_ret]. destruct (p =? this); [by apply runs_ret|].
  destruct (Hscope a ad Had) as (_ & Hc & _). specialize (Hc p Hp). eapply runs_weaken; [|apply IH; [done|lia]].
  intros s' r [Hs Hr]. split; [|done]. by eapply same_trans; [|exact Hs].
Qed.
Lemma rk_bound a ad : h !! a = Some ad -> (rk a <= K)%nat.
Proof. intros Had. by apply Hscope in Had as (? & _). Qed.
(** An address that is not in the heap stops the search at once. *)
Lemma scope_runs' fuel this a name s : heap s = h -> (K < fuel)%nat ->
  runs (lookup_in_scope fuel this a name) s (fun s' r => same s s' /\ plain_found r).
Proof.
  intros Hh Hf. destruct (h !! a) as [ad|] eqn:Had; [apply scope_runs; [done|]; apply rk_bound in Had; lia|].
  destruct fuel as [|fuel]; [lia|]. unfold runs, lookup_in_scope, bind, Lookup, deref, get, bind. simpl. by rewrite Hh, Had.
Qed.
Lemma find_from_runs fuel a name b s : heap s = h -> (K < fuel)%nat ->
  runs (find_from fuel a name b) s (fun s' r => same s s' /\ plain_found r).
Proof.
  intros Hh Hf. unfold find_from, LookupInScope. apply runs_bind. eapply runs_weaken; [|by apply scope_runs'].
  intros s1 r [Hs Hr]. destruct r; try (by apply runs_ret). apply runs_bind, runs_deref. intros ad _.
  destruct (if b then ad_alternateScope ad else None) as [o|]; [|by apply runs_ret].
  eapply runs_weaken; [|apply scope_runs'; [by destruct Hs as [-> _]|done]]. intros s2 r [Hs2 Hr2]. split; [by eapply same_trans|done].
Qed.

(** Enough fuel for a tree of height [n] when [d] references may still be nested. *)
Definition enough (n : nat) (d : Z) : nat := n + Z.to_nat d * S H + K + 2.
Definition result_ok (s s' : EvalState) (r : bool * Value) : Prop := same s s' /\ no_list r.2.

Section step.
Variable fuel : nat.
Variable Eval : ExprTree -> M (bool * Value).
Hypothesis IH : forall t s, plain t -> heap s = h -> (enough (height t) (depth_remaining s) <= fuel)%nat -> runs (Eval t) s (result_ok s).

Lemma FindExpr_runs expr name absolute s :
  heap s = h -> (match expr with None => True | Some t => plain t /\ (enough (height t) (depth_remaining s) <= fuel)%nat end) -> (K < fuel)%nat ->
  runs (FindExpr fuel Eval expr name absolute) s (fun s' r => same s s' /\ plain_found r).
Proof.
  intros Hh He Hf. unfold FindExpr. destruct expr as [t|].
  - destruct He as [Hp He]. apply runs_bind. eapply runs_weaken; [|by apply IH]. intros s1 [ok v] [Hs Hv]. destruct ok; simpl; [|by apply runs_ret].
    assert (H1 : heap s1 = h) by (destruct Hs as [-> _]; done).
    destruct v; try (by apply runs_ret). eapply runs_weaken; [|by apply find_from_runs]. intros s2 r [Hs2 Hr]. split; [by eapply same_trans|done].
  - apply runs_bind, runs_get. destruct (if absolute then rootAd s else curAd s) as [a|]; [by apply find_from_runs|].
    destruct absolute; [by apply runs_ret|]. by apply runs_lift.
Qed.
Lemma reference_runs expr name absolute s :
  heap s = h -> (match expr with None => True | Some t => plain t /\ (enough (height t) (depth_remaining s) <= fuel)%nat end) ->
  (Z.to_nat (depth_remaining s) * S H + K < fuel)%nat -> runs (evaluate_reference fuel Eval expr name absolute) s (result_ok s).
Proof.
  intros Hh He Hf. unfold evaluate_reference. apply runs_bind, runs_get. apply runs_bind. eapply runs_weaken; [|apply FindExpr_runs; [done|done|lia]].
  intros s1 r [Hs Hr]. destruct r as [t| | | | |]; try (apply runs_ret; done); try (by apply runs_bind, runs_modify, runs_ret).
  apply runs_bind, runs_get. destruct (Z.leb_spec (depth_remaining s1) 0) as [Hd|Hd]; [by apply runs_bind, runs_modify, runs_ret|].
  apply runs_bind, runs_modify. destruct (Hr t eq_refl) as [Hp Hh']. destruct Hs as (E1 & E2 & E3). apply runs_bind.
  eapply runs_weaken; [|apply IH; [done|simpl; congruence|]].
  - intros s2 r [(F1 & F2 & F3) Hv]. simpl in F1, F2, F3. apply runs_bind, runs_modify, runs_bind, runs_modify, runs_ret. split; [|done].
    unfold same; simpl. rewrite F1, F2, F3, E1, E2, E3. split_and!; [done..|lia].
  - simpl. unfold enough. rewrite E3 in *. rewrite Z2Nat.inj_pred.
    destruct (Z.to_nat (depth_remaining s)) as [|d] eqn:Ed; [lia|]. simpl Nat.pred. lia.
Qed.
Definition child_ok (s : EvalState) (c : option ExprTree) : Prop :=
  match c with None => True | Some t => plain t /\ (enough (height t) (depth_remaining s) <= fuel)%nat end.
Lemma child_ok_same s s' c : same s s' -> child_ok s c -> child_ok s' c.
Proof. intros (_ & _ & E). unfold child_ok. by rewrite E. Qed.
Lemma child_runs c s : heap s = h -> child_ok s c -> runs (evaluate_child Eval c) s (result_ok s).
Proof. intros Hh Hc. unfold evaluate_child. destruct c as [t|]; [destruct Hc; by apply IH|by apply runs_ret]. Qed.
Lemma shortCircuit_runs op v c2 c3 s : heap s = h -> child_ok s c2 -> child_ok s c3 ->
  runs (shortCircuit old Eval op v c2 c3) s (fun s' r => same s s' /\ forall x, r = Some x -> no_list x).
Proof.
  intros Hh H2 H3. assert (Hb : forall b : bool, runs (match (if b then c2 else c3) with None => ret None | Some t => let* (ok, v) := Eval t in ret (if (ok : bool) then Some v else None) end) s
    (fun s' r => same s s' /\ forall x, r = Some x -> no_list x)).
  { intros b. assert (Hc : child_ok s (if b then c2 else c3)) by (by destruct b). destruct (if b then c2 else c3) as [t|]; [|by apply runs_ret].
    apply runs_bind. destruct Hc. eapply runs_weaken; [|by apply IH]. intros s1 [ok x] [Hs Hv]. apply runs_ret. split; [done|]. destruct ok; [by intros y [= <-]|done]. }
  unfold shortCircuit. destruct op, (IsBooleanValueEquiv old v) as [[]|]; first [exact (Hb true)|exact (Hb false)|apply runs_ret; split; [done|intros x Hx; by simplify_eq]].
Qed.
Lemma operation_runs op c1 c2 c3 s :
  heap s = h -> op <> SUBSCRIPT_OP -> child_ok s c1 -> child_ok s c2 -> child_ok s c3 ->
  runs (evaluate_operation old fuel Eval op c1 c2 c3) s (result_ok s).
Proof.
  intros Hh Hop H1 H2 H3. unfold evaluate_operation. apply runs_bind. eapply runs_weaken; [|by apply child_runs].
  intros s1 [ok1 v1] [Hs1 Hv1]. destruct ok1; simpl; [|by apply runs_ret]. assert (Hh1 : heap s1 = h) by (destruct Hs1; congruence).
  apply runs_bind. apply (runs_weaken _ _ (fun s' r => same s1 s' /\ forall x, r = Some x -> no_list x)).
  2: { destruct (present c1); [|by apply runs_ret]. apply shortCircuit_runs; [done|by eapply child_ok_same..]. }
  intros s2 sc [Hs2 Hsc]. pose proof (same_trans _ _ _ Hs1 Hs2) as Hs12. assert (Hh2 : heap s2 = h) by (destruct Hs12; congruence).
  destruct sc as [v|]; [apply runs_ret; split; [done|by apply Hsc]|].
  apply runs_bind. eapply runs_weaken; [|apply child_runs; [done|by apply (child_ok_same s)]]. intros s3 [ok2 v2] [Hs3 Hv2].
  pose proof (same_trans _ _ _ Hs12 Hs3) as Hs13. destruct ok2; simpl; [|by apply runs_ret]. assert (Hh3 : heap s3 = h) by (destruct Hs13; congruence).
  apply runs_bind. eapply runs_weaken; [|apply child_runs; [done|by apply (child_ok_same s)]]. intros s4 [ok3 v3] [Hs4 Hv3].
  pose proof (same_trans _ _ _ Hs13 Hs4) as Hs14. destruct ok3; simpl; [|by apply runs_ret].
  unfold finish_operation. apply runs_bind, runs_lift. intros r Hr. destruct r as [[v sig]|].
  - apply runs_ret. split; [done|]. by eapply (doOperation_no_list _ _ _ _ _ _ _ _ _ Hr).
  - exfalso. unfold _doOperation in Hr. set (pre := if IsStrictOperator op then _ else None) in Hr. clearbody pre.
    destruct op, pre; simpl in Hr; try done; unfold obind in Hr; by repeat case_match.
Qed.
End step.

Lemma Evaluate_runs fuel t s :
  plain t -> heap s = h -> (enough (height t) (depth_remaining s) <= fuel)%nat -> runs (Evaluate old fuel t) s (result_ok s).
Proof.
  revert t s. induction fuel as [|fuel IH]; intros t s Hp Hh Hf; [unfold enough in Hf; lia|]. destruct t; cbn [Evaluate]; try done.
  - apply runs_ret. split; [done|]. simpl in *. destruct value; try done. by destruct factor.
  - apply reference_runs; [done..| |unfold enough in Hf; lia]. simpl in Hp, Hf. destruct expr as [e|]; [|done]. split; [done|]. unfold enough in *. simpl in Hf. lia.
  - simpl in Hp, Hf. apply andb_True in Hp as [Hp H3]. apply andb_True in Hp as [Hp H2]. apply andb_True in Hp as [H0 H1].
    apply operation_runs; [done..| | | |].
    + intros ->. done.
    + destruct child1; [|done]. split; [done|]. unfold enough in *. lia.
    + destruct child2; [|done]. split; [done|]. unfold enough in *. lia.
    + destruct child3; [|done]. split; [done|]. unfold enough in *. lia.
Qed.
Lemma set_root_runs fuel start a s : heap s = h -> (rk a < fuel)%nat -> runs (set_root fuel start a) s (fun s' _ => heap s' = h /\ depth_remaining s' = depth_remaining s).
Proof.
  revert a. induction fuel as [|fuel IH]; intros a Hh Hf; [lia|]. cbn [set_root]. apply runs_bind, runs_deref. intros ad Had. rewrite Hh in Had.
  destruct (ad_parentScope ad) as [p|] eqn:Hp; [|by apply runs_modify]. destruct (p =? start); [by apply runs_ret|].
  destruct (Hscope a ad Had) as (_ & Hc & _). specialize (Hc p Hp). apply IH; [done|lia].
Qed.
End termination.

(** C22 (termination): evaluation in a heap of ads whose scopes form no cycle and whose expressions have
    no subscripts, lists or function calls always comes back, also when attributes refer to each other
    in circles: the number of references that may be nested bounds the fuel, which is linear in it, in
    the height of the expressions and in the depth of the scopes. *)
Theorem evaluation_terminates `{F : Functions} old h rk K H a ad t s fuel :
  scoped h rk K -> plain_heap h H -> heap s = h -> h !! a = Some ad -> plain t -> (height t <= H)%nat ->
  (enough K H H MAX_CLASSAD_RECURSION <= fuel)%nat -> is_Some (EvaluateExpr old fuel a t s).
Proof.
  intros Hs Hp Hh Had Ht Hl Hf. eapply (runs_is_Some _ _ (fun _ _ => True)). unfold EvaluateExpr, in_new_state, SetScopes.
  apply runs_bind, runs_get, runs_bind, runs_modify, runs_bind, runs_bind, runs_modify.
  eapply runs_weaken; [|apply (set_root_runs h rk K Hs); [done|]].
  - intros s1 _ [H1 H2]. apply runs_bind. eapply runs_weaken; [|eapply (Evaluate_runs old h rk K H Hs Hp); [done|done|]].
    + intros s2 r _. by apply runs_bind, runs_modify, runs_ret.
    + simpl in H2. rewrite H2. unfold enough in *. lia.
  - pose proof (rk_bound h rk K Hs a ad Had). unfold enough in Hf. lia.
Qed.
