(* ===== verification/ClassAdMatch.v ===== *)
(** Matching of two ads: how references cross from one ad to the other through the match ad of
    matchClassad.cpp, and what the three questions asked of a match ad answer. *)

From S2P Require Import Prelude ClassAdOps ClassAdEval ClassAdRuns.

Open Scope Z_scope.
Open Scope eval_scope.

(** ** Steps of the evaluation *)

Section steps.
Context `{F : Functions} (old : bool).

Lemma Lookup_here fuel a ad name t s :
  heap s !! a = Some ad -> ad_attrs ad !! lower name = Some t -> Lookup (S fuel) a name s = Some (Done (s, Some t)).
Proof. intros Ha Ht. cbn [Lookup]. unfold deref, bind, get, ret. by rewrite Ha, Ht. Qed.
Lemma scope_here fuel this a ad name t s :
  heap s !! a = Some ad -> ad_attrs ad !! lower name = Some t ->
  lookup_in_scope (S fuel) this a name s = Some (Done (s <| curAd := Some a |>, EVAL_OK t)).
Proof. intros Ha Ht. cbn [lookup_in_scope]. unfold bind, modify. by rewrite (Lookup_here _ _ ad _ t). Qed.

(** The names LookupInScope() answers itself. *)
Definition special (name : bytes) : bool :=
  strcaseeq name (s2b "toplevel") || strcaseeq name (s2b "root") || strcaseeq name (s2b "self") || strcaseeq name (s2b "parent").
Lemma scope_up fuel this a ad name p s :
  heap s !! a = Some ad -> ad_attrs ad !! lower name = None -> ad_chained_parent ad = None -> special name = false ->
  ad_parentScope ad = Some p -> p <> this ->
  lookup_in_scope (S fuel) this a name s = lookup_in_scope fuel this p name (s <| curAd := Some a |>).
Proof.
  intros Ha Ht Hc Hs Hp Hne. unfold special in Hs. apply orb_false_iff in Hs as [Hs H4]. apply orb_false_iff in Hs as [Hs H3].
  cbn [lookup_in_scope Lookup]. unfold bind, modify, deref, bind, get, ret. set (s1 := s <| curAd := Some a |>).
  change (heap s) with (heap s1) in Ha. rewrite Ha, Ht, Hc, Ha, Hs, H3, H4, Hp. by rewrite (proj2 (Z.eqb_neq p this) Hne).
Qed.

(** A reference whose expression was found. *)
Lemma reference_found fuel e name absolute t s s1 :
  FindExpr fuel (Evaluate old fuel) e name absolute s = Some (Done (s1, EVAL_OK t)) -> 0 < depth_remaining s1 ->
  Evaluate old (S fuel) (AttributeReference e name absolute) s =
  (let* r := Evaluate old fuel t in
   modify (fun s2 => s2 <| depth_remaining ::= Z.succ |>) ;; modify (fun s2 => s2 <| curAd := curAd s |>) ;; ret r) (s1 <| depth_remaining ::= Z.pred |>).
Proof.
  intros Hf Hd. cbn [Evaluate]. unfold evaluate_reference, bind at 1, get at 1, bind at 1. rewrite Hf. unfold bind at 1, get at 1.
  by rewrite (proj2 (Z.leb_gt _ _) Hd).
Qed.
Lemma find_name fuel name (absolute : bool) a s s1 t :
  (if absolute then rootAd s else curAd s) = Some a -> LookupInScope fuel a name s = Some (Done (s1, EVAL_OK t)) ->
  FindExpr fuel (Evaluate old fuel) None name absolute s = Some (Done (s1, EVAL_OK t)).
Proof. intros Ha Hl. unfold FindExpr, bind at 1, get. rewrite Ha. unfold find_from, bind. by rewrite Hl. Qed.
Lemma find_dot fuel e name a ad t s s1 :
  Evaluate old (S fuel) e s = Some (Done (s1, (true, ClassAdValue a))) -> heap s1 !! a = Some ad -> ad_attrs ad !! lower name = Some t ->
  FindExpr (S fuel) (Evaluate old (S fuel)) (Some e) name false s = Some (Done (s1 <| curAd := Some a |>, EVAL_OK t)).
Proof.
  intros He Ha Ht. unfold FindExpr, bind at 1. rewrite He.
  change (find_from (S fuel) a name false s1 = Some (Done (s1 <| curAd := Some a |>, EVAL_OK t))).
  unfold find_from, LookupInScope, bind. by rewrite (scope_here fuel a a ad name t s1 Ha Ht).
Qed.
(** A name whose expression is an ad. *)
Lemma eval_ad_name fuel name (absolute : bool) a b s s1 :
  (if absolute then rootAd s else curAd s) = Some a -> LookupInScope (S fuel) a name s = Some (Done (s1, EVAL_OK (ClassAdNode b))) ->
  0 < depth_remaining s1 ->
  Evaluate old (S (S fuel)) (AttributeReference None name absolute) s = Some (Done (s1 <| curAd := curAd s |>, (true, ClassAdValue b))).
Proof.
  intros Ha Hl Hd. rewrite (reference_found _ _ _ _ (ClassAdNode b) _ s1); [|by eapply find_name|done].
  cbn [Evaluate]. unfold bind, modify, ret. unfold set_field, set_curAd, set_depth. simpl. by rewrite Z.succ_pred.
Qed.
(** A computation in a new state for an ad that is its own root. *)
Lemma new_state_at {A} fuel a ad (c : M A) s : heap s !! a = Some ad -> ad_parentScope ad = None ->
  in_new_state (S fuel) (Some a) c s =
  (let* x := c in modify (fun s1 => mkEvalState (heap s1) (rootAd s) (curAd s) (depth_remaining s)) ;; ret x)
    (mkEvalState (heap s) (Some a) (Some a) MAX_CLASSAD_RECURSION).
Proof.
  intros Ha Hp. unfold in_new_state, SetScopes, bind at 1 2 3 4, get, modify at 1 2. cbn [set_root]. unfold deref, bind at 1 2, get, set_field, set_curAd.
  cbn [heap rootAd curAd depth_remaining]. rewrite Ha. unfold ret at 1. cbn beta iota. by rewrite Hp.
Qed.
End steps.

(** ** The match ad *)

Section matching.
Context `{F : Functions} (old : bool) (h : Heap) (m lc rc la ra : Z) (adl adr : Ad).
Hypothesis Hdistinct : NoDup [m; lc; rc; la; ra].
Hypothesis Hleft : h !! la = Some adl.
Hypothesis Hright : h !! ra = Some adr.
Local Notation mh := (InitMatchClassAd h m lc rc la ra).

Lemma distinct_ads : m <> lc /\ m <> rc /\ m <> la /\ m <> ra /\ lc <> rc /\ lc <> la /\ lc <> ra /\ rc <> la /\ rc <> ra /\ la <> ra.
Proof. rewrite !NoDup_cons in Hdistinct. set_solver. Qed.
Ltac distinct := destruct distinct_ads as (? & ? & ? & ? & ? & ? & ? & ? & ? & ?).

(** The name of an attribute in an ad of the match. *)
Definition holds_name (a : Z) (name : string) (t : ExprTree) : Prop :=
  exists ad, mh !! a = Some ad /\ ad_attrs ad !! lower (s2b name) = Some t.
Lemma match_left : mh !! la = Some (adl <| ad_parentScope := Some lc |>).
Proof. distinct. unfold InitMatchClassAd. repeat (case_match || simplify_map_eq); done. Qed.
Lemma match_right : mh !! ra = Some (adr <| ad_parentScope := Some rc |>).
Proof. distinct. unfold InitMatchClassAd. repeat (case_match || simplify_map_eq); done. Qed.
Lemma match_ad_names : holds_name m "LEFT" (ClassAdNode la) /\ holds_name m "RIGHT" (ClassAdNode ra).
Proof. distinct. unfold holds_name, InitMatchClassAd. repeat (case_match || simplify_map_eq); split; by eexists. Qed.
Lemma left_context : exists ad, mh !! lc = Some ad /\ forall name, name ∈ ["target"; "other"]%string -> ad_attrs ad !! lower (s2b name) = Some (absref "RIGHT").
Proof. distinct. unfold InitMatchClassAd. repeat (case_match || simplify_map_eq). eexists; split; [done|]. set_unfold. intros ? [->|[->|[]]]; done. Qed.
Lemma right_context : exists ad, mh !! rc = Some ad /\ forall name, name ∈ ["target"; "other"]%string -> ad_attrs ad !! lower (s2b name) = Some (absref "LEFT").
Proof. distinct. unfold InitMatchClassAd. repeat (case_match || simplify_map_eq). eexists; split; [done|]. set_unfold. intros ? [->|[->|[]]]; done. Qed.

(** The ad at [a] has the other ad at [b]: [a]'s context [c] leads to it by the name [side] of the match ad. *)
Definition faces (a c b : Z) (side : string) (ad : Ad) : Prop :=
  mh !! a = Some (ad <| ad_parentScope := Some c |>) /\ holds_name m side (ClassAdNode b) /\ c <> a /\
  exists ctx, mh !! c = Some ctx /\ forall name, name ∈ ["target"; "other"]%string -> ad_attrs ctx !! lower (s2b name) = Some (absref side).
Lemma left_faces : faces la lc ra "RIGHT" adl.
Proof. distinct. split_and!; [apply match_left|apply match_ad_names|done|apply left_context]. Qed.
Lemma right_faces : faces ra rc la "LEFT" adr.
Proof. distinct. split_and!; [apply match_right|apply match_ad_names|done|apply right_context]. Qed.

(** A name of the match ad that stands for one of the two ads. *)
Lemma eval_side fuel (absolute : bool) side b s :
  holds_name m side (ClassAdNode b) -> heap s = mh -> (if absolute then rootAd s else curAd s) = Some m -> 0 < depth_remaining s ->
  Evaluate old (S (S fuel)) (AttributeReference None (s2b side) absolute) s = Some (Done (s, (true, ClassAdValue b))).
Proof.
  intros (ad & Had & Hn) Hh Hm Hd. rewrite <- Hh in Had.
  rewrite (eval_ad_name old fuel (s2b side) absolute m b s (s <| curAd := Some m |>) Hm (scope_here fuel m m ad (s2b side) _ s Had Hn)) by done.
  by destruct s.
Qed.
(** [target] and [other] evaluate to the other ad. *)
Lemma eval_target fuel a c b side ad name s :
  faces a c b side ad -> name ∈ ["target"; "other"]%string -> ad_attrs ad !! lower (s2b name) = None -> ad_chained_parent ad = None ->
  heap s = mh -> rootAd s = Some m -> curAd s = Some a -> 1 < depth_remaining s ->
  Evaluate old (S (S (S fuel))) (ref name) s = Some (Done (s, (true, ClassAdValue b))).
Proof.
  intros (Ha & Hb & Hne & ctx & Hc & Hctx) Hname Hno Hch Hh Hr Hcur Hd. rewrite <- Hh in Ha, Hc. specialize (Hctx name Hname). set (nm := s2b name) in *.
  assert (Hsp : special nm = false) by (subst nm; set_unfold in Hname; by destruct Hname as [->|[->|[]]]).
  assert (Hl : LookupInScope (S (S fuel)) a nm s = Some (Done (s <| curAd := Some c |>, EVAL_OK (absref side)))).
  { unfold LookupInScope. rewrite (scope_up (S fuel) a a (ad <| ad_parentScope := Some c |>) nm c s Ha Hno Hch Hsp eq_refl Hne).
    etransitivity; [apply (scope_here fuel a c ctx nm (absref side)); [exact Hc|exact Hctx]|done]. }
  unfold ref. fold nm. rewrite (reference_found old _ None nm false (absref side) s (s <| curAd := Some c |>)); [|by eapply find_name|simpl; lia].
  unfold bind at 1, absref. rewrite (eval_side fuel true side b) by (done || (simpl; lia)).
  unfold bind, modify, ret, set_field, set_curAd, set_depth; simpl. rewrite Z.succ_pred. by destruct s.
Qed.

(** The expression [t] evaluated inside the ad [b], and the way back. *)
Definition evaluate_inside (fuel : nat) (b : Z) (t : ExprTree) (s : EvalState) : option (outcome (EvalState * (bool * Value))) :=
  (let* r := Evaluate old fuel t in
   modify (fun s2 => s2 <| depth_remaining ::= Z.succ |>) ;; modify (fun s2 => s2 <| curAd := curAd s |>) ;; ret r)
  (s <| curAd := Some b |> <| depth_remaining ::= Z.pred |>).
Lemma eval_dot_inside fuel e name b ad t s :
  Evaluate old (S fuel) e s = Some (Done (s, (true, ClassAdValue b))) -> heap s !! b = Some ad -> ad_attrs ad !! lower name = Some t ->
  0 < depth_remaining s -> Evaluate old (S (S fuel)) (AttributeReference (Some e) name false) s = evaluate_inside (S fuel) b t s.
Proof. intros He Hb Ht Hd. by rewrite (reference_found old (S fuel) (Some e) name false t s (s <| curAd := Some b |>) (find_dot old fuel e name b ad t s s He Hb Ht) Hd). Qed.

(** EvaluateExpr() on the match ad: it is its own root. *)
Lemma eval_on_match_ad fuel t s : heap s = mh ->
  EvaluateExpr old (S fuel) m t s =
  (let* a := Evaluate old (S fuel) t in modify (fun s1 => mkEvalState (heap s1) (rootAd s) (curAd s) (depth_remaining s)) ;; ret a)
    (mkEvalState mh (Some m) (Some m) MAX_CLASSAD_RECURSION).
Proof.
  intros Hh. destruct match_ad_names as [(ad & Had & _) _].
  assert (Hp : ad_parentScope ad = None).
  { distinct. revert Had. unfold InitMatchClassAd. repeat (case_match || simplify_map_eq). by intros [= <-]. }
  unfold EvaluateExpr. rewrite (new_state_at fuel m ad); [by rewrite Hh|by rewrite Hh|done].
Qed.

(** The state after leaving the ad [b] again. *)
Lemma inside_result fuel b t s s1 r :
  Evaluate old fuel t (s <| curAd := Some b |> <| depth_remaining ::= Z.pred |>) = Some (Done (s1, r)) ->
  heap s1 = heap s -> rootAd s1 = rootAd s -> depth_remaining s1 = Z.pred (depth_remaining s) ->
  evaluate_inside fuel b t s = Some (Done (s, r)).
Proof.
  intros He H1 H2 H3. unfold evaluate_inside, bind at 1. rewrite He. unfold bind, modify, ret, set_field, set_depth, set_curAd; simpl.
  rewrite H1, H2, H3, Z.succ_pred. by destruct s.
Qed.
End matching.

(** What EvalMatchExpr() makes of a result. *)
Definition match_result (r : bool * Value) : bool :=
  r.1 && match r.2 with BooleanValue b => b | IntegerValue i => negb (i =? 0) | _ => false end.
(** A result that counts as true in a conjunction. *)
Definition accepts (old : bool) (r : bool * Value) : bool := r.1 && bool_decide (IsBooleanValueEquiv old r.2 = Some true).

(** The conjunction is true only when both sides count as true. *)
Lemma and_accepts old v1 v2 : exists v sig, _doOperation old LOGICAL_AND_OP v1 v2 UndefinedValue true true false = Done (Some (v, sig)) /\
  match_result (negb (sig =? SIG_NONE), v) = accepts old (true, v1) && accepts old (true, v2).
Proof.
  unfold _doOperation. simpl. unfold doLogical, obind, coerce_bool, accepts. simpl.
  assert (Hb : forall v, (exists b, IsBooleanValueEquiv old v = Some b) \/ (IsBooleanValueEquiv old v = None /\ forall b, v <> BooleanValue b)).
  { intros []; simpl; destruct old; eauto. }
  destruct (Hb v1) as [[b1 ->]|[-> H1]], (Hb v2) as [[b2 ->]|[-> H2]]; try (destruct b1); try (destruct b2); simpl;
    try (destruct v1); try (destruct v2); simpl; try (by eexists _, _); exfalso; (by eapply H1) || (by eapply H2).
Qed.

(** A conjunction whose sides leave the state as it was. *)
Lemma conjunction_result `{F : Functions} old fuel t1 t2 s r1 r2 :
  Evaluate old fuel t1 s = Some (Done (s, r1)) -> Evaluate old fuel t2 s = Some (Done (s, r2)) ->
  exists r, Evaluate old (S fuel) (Operation LOGICAL_AND_OP (Some t1) (Some t2) None) s = Some (Done (s, r)) /\
    match_result r = accepts old r1 && accepts old r2.
Proof.
  intros H1 H2. destruct r1 as [[] v1], r2 as [ok2 v2]; cbn [Evaluate]; unfold evaluate_operation, evaluate_child, bind; rewrite H1; cbn [negb present];
    [|by eexists].
  destruct (decide (IsBooleanValueEquiv old v1 = Some false)) as [E|E].
  { unfold shortCircuit. rewrite E. simpl. eexists. split; [done|]. unfold accepts. simpl. by rewrite E. }
  assert (Hs : shortCircuit old (Evaluate old fuel) LOGICAL_AND_OP v1 (Some t2) None = ret None).
  { unfold shortCircuit. by destruct (IsBooleanValueEquiv old v1) as [[]|]. }
  rewrite Hs. simpl. rewrite H2. destruct ok2; simpl; [|eexists; split; [done|by rewrite andb_false_r]].
  destruct (and_accepts old v1 v2) as (v & sig & Hv & Hm). unfold finish_operation, bind, present. rewrite Hv. simpl. by eexists.
Qed.

(** In a match a reference target.X or other.X made inside one ad evaluates the
    attribute X of the other ad inside that ad, with one reference less to spare, and then goes back:
    unless the ad has an attribute of its own called target or other. *)
Theorem target_crosses `{F : Functions} old h m lc rc la ra adl adr me it ad_me ad_it name X t fuel s :
  NoDup [m; lc; rc; la; ra] -> h !! la = Some adl -> h !! ra = Some adr ->
  (me, ad_me, it, ad_it) ∈ [(la, adl, ra, adr); (ra, adr, la, adl)] ->
  name ∈ ["target"; "other"]%string -> ad_attrs ad_me !! lower (s2b name) = None -> ad_chained_parent ad_me = None ->
  ad_attrs ad_it !! lower (s2b X) = Some t ->
  heap s = InitMatchClassAd h m lc rc la ra -> rootAd s = Some m -> curAd s = Some me -> 1 < depth_remaining s ->
  Evaluate old (4 + fuel) (dot (ref name) X) s = evaluate_inside old (3 + fuel) it t s.
Proof.
  intros Hd Hl Hr Hme Hname Hno Hch Hx Hh Hroot Hcur Hdep.
  assert (Hf : exists c side, faces h m lc rc la ra me c it side ad_me).
  { set_unfold in Hme. destruct Hme as [[= -> -> -> ->]|[[= -> -> -> ->]|[]]]; eexists _, _; [by apply (left_faces h m lc rc la ra adl adr)|by apply (right_faces h m lc rc la ra adl adr)]. }
  assert (Hit : exists p, heap s !! it = Some (ad_it <| ad_parentScope := Some p |>)).
  { rewrite Hh. set_unfold in Hme. destruct Hme as [[= -> -> -> ->]|[[= -> -> -> ->]|[]]]; eexists; [by eapply match_right|by eapply match_left]. }
  destruct Hf as (c & side & Hf), Hit as [p Hit]. eapply eval_dot_inside; [|exact Hit|exact Hx|lia].
  by eapply (eval_target old h m lc rc la ra).
Qed.

(** The answer of EvalMatchExpr() for an expression of the match ad. *)
Lemma EvalMatchExpr_result `{F : Functions} old h m lc rc la ra adl adr t r s s1 fuel :
  NoDup [m; lc; rc; la; ra] -> h !! la = Some adl -> h !! ra = Some adr -> heap s = InitMatchClassAd h m lc rc la ra ->
  Evaluate old (S fuel) t (mkEvalState (heap s) (Some m) (Some m) MAX_CLASSAD_RECURSION) = Some (Done (s1, r)) -> heap s1 = heap s ->
  EvalMatchExpr old (S fuel) m t s = Some (Done (s, match_result r)).
Proof.
  intros Hd Hl Hr Hh He H1. unfold EvalMatchExpr, bind at 1. rewrite (eval_on_match_ad old h m lc rc la ra adl adr) by done.
  rewrite <- Hh. unfold bind at 1. rewrite He. unfold bind, modify, ret. simpl. rewrite H1. destruct s, r as [[] v]; done.
Qed.

(** C19 (functional): symmetricMatch() answers true exactly when the Requirements of the right ad,
    evaluated inside it, and those of the left ad, evaluated inside it, both come out and count as true;
    leftMatchesRight() and rightMatchesLeft() look at one of them each, and take a boolean or an integer
    only, whatever the semantics. *)
Theorem symmetric_match_both `{F : Functions} old h m lc rc la ra adl adr tl tr fuel s s1 s2 r1 r2 :
  NoDup [m; lc; rc; la; ra] -> h !! la = Some adl -> h !! ra = Some adr -> heap s = InitMatchClassAd h m lc rc la ra ->
  ad_attrs adr !! s2b "requirements" = Some tr -> ad_attrs adl !! s2b "requirements" = Some tl ->
  Evaluate old (2 + fuel) tr (mkEvalState (heap s) (Some m) (Some ra) 999) = Some (Done (s1, r1)) ->
  Evaluate old (2 + fuel) tl (mkEvalState (heap s) (Some m) (Some la) 999) = Some (Done (s2, r2)) ->
  same (mkEvalState (heap s) (Some m) (Some ra) 999) s1 -> same (mkEvalState (heap s) (Some m) (Some la) 999) s2 ->
  symmetricMatch old (4 + fuel) m s = Some (Done (s, accepts old r1 && accepts old r2)) /\
  leftMatchesRight old (3 + fuel) m s = Some (Done (s, match_result r1)) /\
  rightMatchesLeft old (3 + fuel) m s = Some (Done (s, match_result r2)).
Proof.
  intros Hd Hl Hr Hh Htr Htl He1 He2 (A1 & A2 & A3) (B1 & B2 & B3). set (s0 := mkEvalState (heap s) (Some m) (Some m) MAX_CLASSAD_RECURSION).
  destruct (match_ad_names h m lc rc la ra adl adr Hd Hl Hr) as [HL HR].
  assert (HrA : Evaluate old (3 + fuel) left_matches_right s0 = Some (Done (s0, r1))).
  { unfold left_matches_right, dot. rewrite (eval_dot_inside old (S fuel) _ _ ra (adr <| ad_parentScope := Some rc |>) tr).
    - by apply (inside_result old (2 + fuel) ra tr s0 s1).
    - by apply (eval_side old h m lc rc la ra fuel false "RIGHT" ra).
    - simpl. rewrite Hh. by eapply match_right.
    - exact Htr.
    - done. }
  assert (HrB : Evaluate old (3 + fuel) right_matches_left s0 = Some (Done (s0, r2))).
  { unfold right_matches_left, dot. rewrite (eval_dot_inside old (S fuel) _ _ la (adl <| ad_parentScope := Some lc |>) tl).
    - by apply (inside_result old (2 + fuel) la tl s0 s2).
    - by apply (eval_side old h m lc rc la ra fuel false "LEFT" la).
    - simpl. rewrite Hh. by eapply match_left.
    - exact Htl.
    - done. }
  split_and!; [|by eapply EvalMatchExpr_result..].
  destruct (conjunction_result old (3 + fuel) left_matches_right right_matches_left s0 r1 r2 HrA HrB) as (r & Hand & Ha).
  rewrite <- Ha. by eapply EvalMatchExpr_result.
Qed.
