(* ===== verification/UserPolicy.v ===== *)
(** The policy of a job: condor_utils/user_job_policy.cpp, with the parts of condor_utils/compat_classad.cpp
    it evaluates expressions with.

    The job ad lives in the heap of ads of ClassAdEval, and the policy changes it: missing expressions
    get their defaults, and the expressions of the configuration are put into the ad while they are
    evaluated. *)

From Stdlib Require Import SpecFloat.
From S2P Require Import Prelude ClassAdOps ClassAdEval ClassAdFunctions ClassAdMatch.

Open Scope Z_scope.
Open Scope eval_scope.

Definition ATTR_SCRATCH_EXPRESSION : bytes := s2b "UserJobPolicyScratchExpression".
Definition PARAM_SYSTEM_PERIODIC_REMOVE : bytes := s2b "SYSTEM_PERIODIC_REMOVE".
Definition PARAM_SYSTEM_PERIODIC_RELEASE : bytes := s2b "SYSTEM_PERIODIC_RELEASE".
Definition PARAM_SYSTEM_PERIODIC_HOLD : bytes := s2b "SYSTEM_PERIODIC_HOLD".
Definition old_style_exit : bytes := s2b "OldStyleExit".
Definition ATTR_USER_POLICY_ACTION : bytes := s2b "UserPolicyAction".
Definition ATTR_USER_POLICY_FIRING_EXPR : bytes := s2b "UserPolicyFiringExpr".
Definition ATTR_TAKE_ACTION : bytes := s2b "TakeAction".
Definition ATTR_USER_POLICY_ERROR : bytes := s2b "UserPolicyError".
Definition ATTR_USER_ERROR_REASON : bytes := s2b "ErrorReason".
Definition ATTR_COMPLETION_DATE : bytes := s2b "CompletionDate".
Definition ATTR_JOB_STATUS : bytes := s2b "JobStatus".
Definition ATTR_ON_EXIT_BY_SIGNAL : bytes := s2b "ExitBySignal".
Definition ATTR_ON_EXIT_CODE : bytes := s2b "ExitCode".
Definition ATTR_ON_EXIT_SIGNAL : bytes := s2b "ExitSignal".
Definition ATTR_ON_EXIT_HOLD_CHECK : bytes := s2b "OnExitHold".
Definition ATTR_ON_EXIT_REMOVE_CHECK : bytes := s2b "OnExitRemove".
Definition ATTR_PERIODIC_HOLD_CHECK : bytes := s2b "PeriodicHold".
Definition ATTR_PERIODIC_RELEASE_CHECK : bytes := s2b "PeriodicRelease".
Definition ATTR_PERIODIC_REMOVE_CHECK : bytes := s2b "PeriodicRemove".
Definition ATTR_TIMER_REMOVE_CHECK : bytes := s2b "TimerRemove".
Definition HELD : Z := 5.

Definition USER_ERROR_NOT_JOB_AD : Z := 0.
Definition USER_ERROR_INCONSISTANT : Z := 1.
Definition KIND_OLDSTYLE : Z := 2.
Definition KIND_NEWSTYLE : Z := 3.
Definition REMOVE_JOB : Z := 0.
Definition HOLD_JOB : Z := 1.
Inductive policy_action := STAYS_IN_QUEUE | REMOVE_FROM_QUEUE | HOLD_IN_QUEUE | UNDEFINED_EVAL | RELEASE_FROM_HOLD.
#[export] Instance policy_action_eq_dec : EqDecision policy_action.
Proof. solve_decision. Defined.
Inductive policy_mode := PERIODIC_ONLY | PERIODIC_THEN_EXIT.
#[export] Instance policy_mode_eq_dec : EqDecision policy_mode.
Proof. solve_decision. Defined.
Inductive FireSource := FS_NotYet | FS_JobAttribute | FS_SystemMacro.

Record UserPolicy := mkUserPolicy {
  m_ad : option Z;
  m_fire_expr_val : Z;
  m_fire_source : FireSource;
  m_fire_expr : option bytes
}.
Definition new_UserPolicy : UserPolicy := mkUserPolicy None (-1) FS_NotYet None.

(** The clock, and param(): the text of a macro and the expression it is parsed to, if it can be. *)
Class Site := {
  time : Z;
  param : bytes -> option bytes;
  ParseExpression : bytes -> option ExprTree;
  ExprTreeToString : ExprTree -> bytes
}.

Section policy.
Context `{F : Functions} `{Site} (strictEvaluation : bool) (fuel : nat).

(** ** The job ad *)

Definition update_ad (a : Z) (f : gmap bytes ExprTree -> gmap bytes ExprTree) : M unit :=
  let* ad := deref a in modify (fun s => s <| heap ::= <[a := ad <| ad_attrs ::= f |>]> |>).
(** ClassAd::Insert() *)
Definition insert_attr (a : Z) (name : bytes) (tree : ExprTree) : M unit :=
  let* tree := SetParentScope a tree in update_ad a (<[lower name := tree]>).
(** ClassAd::Delete() and Remove(): an attribute of the chained parent is hidden by an undefined one. *)
Definition remove_attr (a : Z) (name : bytes) : M unit :=
  update_ad a (delete (lower name)) ;;
  let* ad := deref a in
  match ad_chained_parent ad with
  | None => ret tt
  | Some p =>
      let* t := Lookup fuel p name in
      match t with Some _ => insert_attr a name (Literal UndefinedValue NO_FACTOR) | None => ret tt end
  end.
Definition LookupExpr (a : Z) (name : bytes) : M (option ExprTree) := Lookup fuel a name.
Definition missing (o : option ExprTree) : bool := match o with None => true | Some _ => false end.

Definition attr_value (a : Z) (name : bytes) : M (option Value) :=
  let* (ok, v) := EvaluateAttr fuel (Evaluate (negb strictEvaluation) fuel) a name in ret (if (ok : bool) then Some v else None).
Definition LookupInteger (a : Z) (name : bytes) : M (option Z) :=
  let* v := attr_value a name in
  match v with
  | Some (IntegerValue i) => ret (Some i)
  | _ => let* v := attr_value a name in ret (match v with Some (BooleanValue b) => Some (if b then 1 else 0) | _ => None end)
  end.
(** getTheMyRef() and releaseTheMyRef() around an evaluation. *)
Definition with_my {A} (a : Z) (m : M A) : M A :=
  (if strictEvaluation then ret tt else insert_attr a (s2b "my") (ref "self")) ;;
  let* x := m in
  (if strictEvaluation then ret tt else remove_attr a (s2b "my")) ;;
  ret x.
Definition IS_DOUBLE_ZERO (r : double) : bool :=
  let e := decimal false 1 (-6) in SFleb (SFopp e) r && SFleb r e.
(** EvalBool() with the ad itself as the target; [None] when it returns 0. *)
Definition truth_of (v : option Value) : option bool :=
  match v with
  | Some (BooleanValue b) => Some b
  | Some (IntegerValue i) => Some (negb (i =? 0))
  | Some (RealValue r) => Some (IS_DOUBLE_ZERO r)
  | _ => None
  end.
Definition EvalBool (a : Z) (name : bytes) : M (option bool) := with_my a (let* v := attr_value a name in ret (truth_of v)).
Definition EvalInteger (a : Z) (name : bytes) : M (option Z) :=
  with_my a (let* v := attr_value a name in ret (match v with Some (IntegerValue i) => Some i | _ => None end)).
Definition EvalString (a : Z) (name : bytes) : M (option bytes) :=
  with_my a (let* v := attr_value a name in ret (match v with Some (StringValue s) => Some (until_nul s) | _ => None end)).
Definition AssignExpr (a : Z) (name value : bytes) : M unit :=
  match ParseExpression value with Some tree => insert_attr a name tree | None => ret tt end.

(** ** class UserPolicy *)

Definition bool_literal (b : bool) : ExprTree := Literal (BooleanValue b) NO_FACTOR.
Definition set_default (a : Z) (name : bytes) (b : bool) (expr : option ExprTree) : M unit :=
  if missing expr then insert_attr a name (bool_literal b) else ret tt.
Definition SetDefaults (a : Z) : M unit :=
  let* ph_expr := LookupExpr a ATTR_PERIODIC_HOLD_CHECK in
  let* pr_expr := LookupExpr a ATTR_PERIODIC_REMOVE_CHECK in
  let* pl_expr := LookupExpr a ATTR_PERIODIC_RELEASE_CHECK in
  let* oeh_expr := LookupExpr a ATTR_ON_EXIT_HOLD_CHECK in
  let* oer_expr := LookupExpr a ATTR_ON_EXIT_REMOVE_CHECK in
  set_default a ATTR_PERIODIC_HOLD_CHECK false ph_expr ;;
  set_default a ATTR_PERIODIC_REMOVE_CHECK false pr_expr ;;
  set_default a ATTR_PERIODIC_RELEASE_CHECK false pl_expr ;;
  set_default a ATTR_ON_EXIT_HOLD_CHECK false oeh_expr ;;
  set_default a ATTR_ON_EXIT_REMOVE_CHECK true oer_expr.
Definition Init (p : UserPolicy) (a : Z) : M UserPolicy :=
  SetDefaults a ;; ret (mkUserPolicy (Some a) (-1) (m_fire_source p) None).

(** The policy object after an expression has fired. *)
Definition fire (p : UserPolicy) (source : FireSource) (expr : bytes) (val : Z) : UserPolicy := mkUserPolicy (m_ad p) val source (Some expr).
Definition looking_at (p : UserPolicy) (expr : bytes) : UserPolicy := mkUserPolicy (m_ad p) (m_fire_expr_val p) (m_fire_source p) (Some expr).

(** [Some] action when the policy fires. *)
Definition AnalyzeSinglePeriodicPolicy (p : UserPolicy) (a : Z) (attrname macroname : bytes) (on_true_return : policy_action) :
    M (UserPolicy * option policy_action) :=
  let* result := EvalBool a attrname in
  match result with
  | None =>
      let* t := LookupExpr a attrname in
      ret (if missing t then looking_at p attrname else fire p FS_JobAttribute attrname (-1), Some UNDEFINED_EVAL)
  | Some true => ret (fire p FS_JobAttribute attrname 1, Some on_true_return)
  | Some false =>
      match param macroname with
      | None | Some [] => ret (looking_at p attrname, None)
      | Some sysexpr =>
          AssignExpr a ATTR_SCRATCH_EXPRESSION sysexpr ;;
          let* result := EvalBool a ATTR_SCRATCH_EXPRESSION in
          remove_attr a ATTR_SCRATCH_EXPRESSION ;;
          match result with
          | Some true => ret (fire p FS_SystemMacro macroname 1, Some on_true_return)
          | _ => ret (looking_at p attrname, None)
          end
      end
  end.
(** One policy after the other, as long as none has fired. *)
Definition or_else (m : M (UserPolicy * option policy_action)) (k : UserPolicy -> M (UserPolicy * policy_action)) : M (UserPolicy * policy_action) :=
  let* (p, r) := m in match r with Some x => ret (p, x) | None => k p end.
Definition exit_policy (p : UserPolicy) (a : Z) : M (UserPolicy * policy_action) :=
  let* by_signal := LookupExpr a ATTR_ON_EXIT_BY_SIGNAL in
  if missing by_signal then lift (EXCEPT "UserPolicy Error: ExitBySignal is not present in the classad")
  else
    let* code := LookupExpr a ATTR_ON_EXIT_CODE in
    let* signal := LookupExpr a ATTR_ON_EXIT_SIGNAL in
    if missing code && missing signal then lift (EXCEPT "UserPolicy Error: No signal/exit codes in job ad!")
    else
      let* on_exit_hold := EvalBool a ATTR_ON_EXIT_HOLD_CHECK in
      match on_exit_hold with
      | None => ret (mkUserPolicy (m_ad p) (m_fire_expr_val p) FS_JobAttribute (Some ATTR_ON_EXIT_HOLD_CHECK), UNDEFINED_EVAL)
      | Some true => ret (fire p FS_JobAttribute ATTR_ON_EXIT_HOLD_CHECK 1, HOLD_IN_QUEUE)
      | Some false =>
          let* on_exit_remove := EvalBool a ATTR_ON_EXIT_REMOVE_CHECK in
          match on_exit_remove with
          | None => ret (mkUserPolicy (m_ad p) (m_fire_expr_val p) FS_JobAttribute (Some ATTR_ON_EXIT_REMOVE_CHECK), UNDEFINED_EVAL)
          | Some true => ret (fire p FS_JobAttribute ATTR_ON_EXIT_REMOVE_CHECK 1, REMOVE_FROM_QUEUE)
          | Some false => ret (fire p FS_JobAttribute ATTR_ON_EXIT_REMOVE_CHECK 0, STAYS_IN_QUEUE)
          end
      end.
Definition timer_policy (p : UserPolicy) (a : Z) : M (UserPolicy * option policy_action) :=
  let* t := LookupInteger a ATTR_TIMER_REMOVE_CHECK in
  match t with
  | None =>
      let* expr := LookupExpr a ATTR_TIMER_REMOVE_CHECK in
      ret (if missing expr then (looking_at p ATTR_TIMER_REMOVE_CHECK, None) else (fire p FS_JobAttribute ATTR_TIMER_REMOVE_CHECK (-1), Some UNDEFINED_EVAL))
  | Some timer_remove =>
      ret (if (0 <=? timer_remove) && (timer_remove <? time) then (fire p FS_JobAttribute ATTR_TIMER_REMOVE_CHECK 1, Some REMOVE_FROM_QUEUE)
           else (looking_at p ATTR_TIMER_REMOVE_CHECK, None))
  end.
Definition periodic (p : UserPolicy) (a : Z) (state : Z) : M (UserPolicy * option policy_action) :=
  if state =? HELD then AnalyzeSinglePeriodicPolicy p a ATTR_PERIODIC_RELEASE_CHECK PARAM_SYSTEM_PERIODIC_RELEASE RELEASE_FROM_HOLD
  else AnalyzeSinglePeriodicPolicy p a ATTR_PERIODIC_HOLD_CHECK PARAM_SYSTEM_PERIODIC_HOLD HOLD_IN_QUEUE.
Definition AnalyzePolicy (p : UserPolicy) (mode : policy_mode) : M (UserPolicy * policy_action) :=
  match m_ad p with
  | None => lift (EXCEPT "UserPolicy Error: Must call Init() first!")
  | Some a =>
      let* state := LookupInteger a ATTR_JOB_STATUS in
      match state with
      | None => ret (p, UNDEFINED_EVAL)
      | Some state =>
          or_else (timer_policy (mkUserPolicy (Some a) (-1) (m_fire_source p) None) a) (fun p =>
          or_else (periodic p a state) (fun p =>
          or_else (AnalyzeSinglePeriodicPolicy p a ATTR_PERIODIC_REMOVE_CHECK PARAM_SYSTEM_PERIODIC_REMOVE REMOVE_FROM_QUEUE) (fun p =>
          match mode with
          | PERIODIC_ONLY => ret (mkUserPolicy (m_ad p) (m_fire_expr_val p) (m_fire_source p) None, STAYS_IN_QUEUE)
          | PERIODIC_THEN_EXIT => exit_policy p a
          end)))
      end
  end.

(** ** The reason *)

Definition CONDOR_HOLD_CODE_JobPolicy : Z := 3.
Definition CONDOR_HOLD_CODE_JobPolicyUndefined : Z := 5.
Definition CONDOR_HOLD_CODE_SystemPolicy : Z := 26.
Definition CONDOR_HOLD_CODE_SystemPolicyUndefined : Z := 27.

(** An expression of the configuration, evaluated in the job ad. *)
Definition in_scratch {A} (a : Z) (expr : bytes) (m : M A) : M A :=
  AssignExpr a ATTR_SCRATCH_EXPRESSION expr ;; let* x := m in remove_attr a ATTR_SCRATCH_EXPRESSION ;; ret x.
(** The subcode or the text of the reason: from the configuration if it is set there, else from the attribute. *)
Definition reason_expr {A} (a : Z) (eval : bytes -> M (option A)) (macro attr : option bytes) : M (option A) :=
  match macro ≫= param with
  | Some (c :: e) => in_scratch a (c :: e) (eval ATTR_SCRATCH_EXPRESSION)
  | _ => match attr with Some n => eval n | None => ret None end
  end.
Definition value_name (v : Z) : outcome bytes :=
  if v =? 0 then Done (s2b "FALSE") else if v =? 1 then Done (s2b "TRUE") else if v =? -1 then Done (s2b "UNDEFINED")
  else EXCEPT "Unrecognized FiringExpressionValue".
(** The text, the code and the subcode; [None] when nothing has fired. *)
Definition FiringReason (p : UserPolicy) : M (option (bytes * Z * Z)) :=
  match m_ad p, m_fire_expr p with
  | Some a, Some expr =>
      let undef := m_fire_expr_val p =? -1 in
      let suffixed x := if undef then None else Some (expr ++ s2b x) in
      let* (expr_src, exprString, code, attrs, macros) :=
        (match m_fire_source p with
         | FS_NotYet => ret (s2b "UNKNOWN (never set)", [], 0, (None, None), (None, None))
         | FS_JobAttribute =>
             let* tree := LookupExpr a expr in
             ret (s2b "job attribute", match tree with Some t => ExprTreeToString t | None => [] end,
                  if undef then CONDOR_HOLD_CODE_JobPolicyUndefined else CONDOR_HOLD_CODE_JobPolicy, (suffixed "Reason"%string, suffixed "SubCode"%string), (None, None))
         | FS_SystemMacro =>
             ret (s2b "system macro", default [] (param expr),
                  if undef then CONDOR_HOLD_CODE_SystemPolicyUndefined else CONDOR_HOLD_CODE_SystemPolicy, (None, None), (suffixed "_REASON"%string, suffixed "_SUBCODE"%string))
         end) in
      let* subcode := reason_expr a (EvalInteger a) macros.2 attrs.2 in
      let* reason := reason_expr a (EvalString a) macros.1 attrs.1 in
      match reason with
      | Some (c :: text) => ret (Some (c :: text, code, default 0 subcode))
      | _ =>
          let* v := lift (value_name (m_fire_expr_val p)) in
          ret (Some (s2b "The " ++ expr_src ++ [SP] ++ expr ++ s2b " expression '" ++ exprString ++ s2b "' evaluated to " ++ v, code, default 0 subcode))
      end
  | _, _ => ret None
  end.

(** ** The older interface *)

Definition JadKind (a : Z) : M Z :=
  let* ph_expr := LookupExpr a ATTR_PERIODIC_HOLD_CHECK in
  let* pr_expr := LookupExpr a ATTR_PERIODIC_REMOVE_CHECK in
  let* pl_expr := LookupExpr a ATTR_PERIODIC_REMOVE_CHECK in
  let* oeh_expr := LookupExpr a ATTR_ON_EXIT_HOLD_CHECK in
  let* oer_expr := LookupExpr a ATTR_ON_EXIT_REMOVE_CHECK in
  if missing ph_expr && missing pr_expr && missing pl_expr && missing oeh_expr && missing oer_expr then
    let* cdate := LookupInteger a ATTR_COMPLETION_DATE in
    ret (match cdate with Some _ => KIND_OLDSTYLE | None => USER_ERROR_NOT_JOB_AD end)
  else if missing ph_expr || missing pr_expr || missing pl_expr || missing oeh_expr || missing oer_expr then ret USER_ERROR_INCONSISTANT
  else ret KIND_NEWSTYLE.

(** The result, a new ad. *)
Notation ResultAd := (gmap bytes ExprTree).
Definition put (name : bytes) (v : Value) (r : ResultAd) : ResultAd := <[lower name := Literal v NO_FACTOR]> r.
Definition default_response : ResultAd :=
  put ATTR_USER_POLICY_ERROR (BooleanValue false) (put ATTR_TAKE_ACTION (BooleanValue false) ∅).
Definition error_response (reason : Z) : ResultAd :=
  put ATTR_USER_ERROR_REASON (IntegerValue reason) (put ATTR_USER_POLICY_ERROR (BooleanValue true) default_response).
Definition action_response (action : Z) (expr : bytes) : ResultAd :=
  put ATTR_USER_POLICY_FIRING_EXPR (StringValue expr) (put ATTR_USER_POLICY_ACTION (IntegerValue action) (put ATTR_TAKE_ACTION (BooleanValue true) default_response)).

Definition exit_response (a : Z) : M ResultAd :=
  let* code := LookupExpr a ATTR_ON_EXIT_CODE in
  let* signal := LookupExpr a ATTR_ON_EXIT_SIGNAL in
  if missing code && missing signal then ret default_response
  else
    let* on_exit_hold := EvalBool a ATTR_ON_EXIT_HOLD_CHECK in
    match on_exit_hold with
    | Some true => ret (action_response HOLD_JOB ATTR_ON_EXIT_HOLD_CHECK)
    | _ =>
        let* on_exit_remove := EvalBool a ATTR_ON_EXIT_REMOVE_CHECK in
        ret (match on_exit_remove with Some true => action_response REMOVE_JOB ATTR_ON_EXIT_REMOVE_CHECK | _ => default_response end)
    end.
Definition user_job_policy (jad : option Z) : M ResultAd :=
  match jad with
  | None => lift (EXCEPT "Could not evaluate user policy due to job ad being NULL!")
  | Some a =>
      let* adkind := JadKind a in
      if adkind =? USER_ERROR_NOT_JOB_AD then ret (error_response USER_ERROR_NOT_JOB_AD)
      else if adkind =? USER_ERROR_INCONSISTANT then ret (error_response USER_ERROR_INCONSISTANT)
      else if adkind =? KIND_OLDSTYLE then
        let* cdate := LookupInteger a ATTR_COMPLETION_DATE in
        ret (if 0 <? default 0 cdate then action_response REMOVE_JOB old_style_exit else default_response)
      else
        let* p := Init new_UserPolicy a in
        let* (p, analyze_result) := AnalyzePolicy p PERIODIC_ONLY in
        let fired := default [] (m_fire_expr p) in
        match analyze_result with
        | HOLD_IN_QUEUE => ret (action_response HOLD_JOB fired)
        | REMOVE_FROM_QUEUE | RELEASE_FROM_HOLD => ret (action_response REMOVE_JOB fired)
        | STAYS_IN_QUEUE | UNDEFINED_EVAL => exit_response a
        end
  end.
End policy.

(** ** What a decision means *)

(** If [m] comes back with a result, the state and the result satisfy [Q]. *)
Definition gives {A} (m : M A) (s : EvalState) (Q : EvalState -> A -> Prop) : Prop := forall s' x, m s = Some (Done (s', x)) -> Q s' x.
Lemma gives_ret {A} (x : A) s (Q : EvalState -> A -> Prop) : Q s x -> gives (ret x) s Q.
Proof. by intros Hx s' y [= <- <-]. Qed.
Lemma gives_bind {A B} (m : M A) (f : A -> M B) s Q : (forall s1 x, m s = Some (Done (s1, x)) -> gives (f x) s1 Q) -> gives (bind m f) s Q.
Proof. intros Hf s' y. unfold bind. destruct (m s) as [[[s1 x]|]|] eqn:Hm; try done. by apply Hf. Qed.
Lemma gives_lift {A} e s (Q : EvalState -> A -> Prop) : gives (lift (EXCEPT e)) s Q.
Proof. by intros s' x. Qed.
Lemma gives_seq {A B} (m : M A) (f : A -> M B) s (P : EvalState -> A -> Prop) Q :
  gives m s P -> (forall s1 x, P s1 x -> gives (f x) s1 Q) -> gives (bind m f) s Q.
Proof. intros Hm Hf. apply gives_bind. intros s1 x Hx. by apply Hf, Hm. Qed.

Section contract.
Context `{F : Functions} `{S : Site} (strict : bool) (fuel : nat) (a : Z).

(** The policy looks at the ad, evaluates attributes of it, and puts [my] and the scratch attribute
    into it and takes them out again. *)
Inductive policy_step (s s' : EvalState) : Prop :=
| looked name t : LookupExpr fuel a name s = Some (Done (s', t)) -> policy_step s s'
| evaluated name v : attr_value strict fuel a name s = Some (Done (s', v)) -> policy_step s s'
| came name t : name = s2b "my" \/ name = ATTR_SCRATCH_EXPRESSION -> insert_attr a name t s = Some (Done (s', tt)) -> policy_step s s'
| went name : name = s2b "my" \/ name = ATTR_SCRATCH_EXPRESSION -> remove_attr fuel a name s = Some (Done (s', tt)) -> policy_step s s'.
Definition during : EvalState -> EvalState -> Prop := rtc policy_step.

(** What an expression with value [v] says: only booleans and numbers say something. *)
Inductive says : option Value -> option bool -> Prop :=
| says_boolean b : says (Some (BooleanValue b)) (Some b)
| says_nonzero i : i <> 0 -> says (Some (IntegerValue i)) (Some true)
| says_zero : says (Some (IntegerValue 0)) (Some false)
| says_real r : says (Some (RealValue r)) (Some (IS_DOUBLE_ZERO r))
| says_nothing v : match v with Some (BooleanValue _) | Some (IntegerValue _) | Some (RealValue _) => False | _ => True end -> says v None.
(** The value of the attribute, with [my] standing for the ad itself. *)
Definition value_is (name : bytes) (s : EvalState) (v : option Value) : Prop :=
  exists s0 s1, (if strict then s0 = s else insert_attr a (s2b "my") (ref "self") s = Some (Done (s0, tt))) /\
    attr_value strict fuel a name s0 = Some (Done (s1, v)).
(** Asked in the course of the policy, the expression of the job said [r] ... *)
Definition job_said (s : EvalState) (name : bytes) (r : option bool) : Prop :=
  exists s0 v, during s s0 /\ value_is name s0 v /\ says v r.
(** ... and so did the expression of the administrator, evaluated in the ad of the job. *)
Definition macro_said (s : EvalState) (macro : bytes) (r : option bool) : Prop :=
  exists text s0 s1 v, param macro = Some text /\ text <> [] /\ during s s0 /\
    AssignExpr a ATTR_SCRATCH_EXPRESSION text s0 = Some (Done (s1, tt)) /\ value_is ATTR_SCRATCH_EXPRESSION s1 v /\ says v r.
Definition timer_says (s : EvalState) (t : option Z) : Prop :=
  exists s0 s1, during s s0 /\ LookupInteger strict fuel a ATTR_TIMER_REMOVE_CHECK s0 = Some (Done (s1, t)).

(** FiringExpression() is the attribute [name] of the job, or the macro, and said [b]. *)
Definition fired_job (s : EvalState) (p : UserPolicy) (name : bytes) (b : bool) : Prop :=
  m_fire_expr p = Some name /\ m_fire_source p = FS_JobAttribute /\ m_fire_expr_val p = (if b then 1 else 0) /\ job_said s name (Some b).
Definition fired_macro (s : EvalState) (p : UserPolicy) (macro : bytes) : Prop :=
  m_fire_expr p = Some macro /\ m_fire_source p = FS_SystemMacro /\ m_fire_expr_val p = 1 /\ macro_said s macro (Some true).
Definition fired_timer (s : EvalState) (p : UserPolicy) : Prop :=
  m_fire_expr p = Some ATTR_TIMER_REMOVE_CHECK /\ m_fire_source p = FS_JobAttribute /\ m_fire_expr_val p = 1 /\
  exists t, timer_says s (Some t) /\ 0 <= t < time.

(** What explains each decision on a job with this status. *)
Definition explains (s : EvalState) (status : Z) (mode : policy_mode) (p : UserPolicy) (r : policy_action) : Prop :=
  match r with
  | REMOVE_FROM_QUEUE => fired_timer s p \/ fired_job s p ATTR_PERIODIC_REMOVE_CHECK true \/ fired_macro s p PARAM_SYSTEM_PERIODIC_REMOVE \/
      mode = PERIODIC_THEN_EXIT /\ fired_job s p ATTR_ON_EXIT_REMOVE_CHECK true
  | HOLD_IN_QUEUE =>
      status <> HELD /\ (fired_job s p ATTR_PERIODIC_HOLD_CHECK true \/ fired_macro s p PARAM_SYSTEM_PERIODIC_HOLD) \/
      mode = PERIODIC_THEN_EXIT /\ fired_job s p ATTR_ON_EXIT_HOLD_CHECK true
  | RELEASE_FROM_HOLD =>
      status = HELD /\ (fired_job s p ATTR_PERIODIC_RELEASE_CHECK true \/ fired_macro s p PARAM_SYSTEM_PERIODIC_RELEASE)
  | STAYS_IN_QUEUE =>
      job_said s (if status =? HELD then ATTR_PERIODIC_RELEASE_CHECK else ATTR_PERIODIC_HOLD_CHECK) (Some false) /\
      job_said s ATTR_PERIODIC_REMOVE_CHECK (Some false) /\
      match mode with
      | PERIODIC_ONLY => m_fire_expr p = None /\ m_fire_expr_val p = -1
      | PERIODIC_THEN_EXIT => job_said s ATTR_ON_EXIT_HOLD_CHECK (Some false) /\ fired_job s p ATTR_ON_EXIT_REMOVE_CHECK false
      end
  | UNDEFINED_EVAL => m_fire_expr_val p = -1 /\ exists name, m_fire_expr p = Some name /\
      (name = ATTR_TIMER_REMOVE_CHECK /\ timer_says s None \/
       name ∈ [ATTR_PERIODIC_HOLD_CHECK; ATTR_PERIODIC_RELEASE_CHECK; ATTR_PERIODIC_REMOVE_CHECK; ATTR_ON_EXIT_HOLD_CHECK; ATTR_ON_EXIT_REMOVE_CHECK] /\
       job_said s name None)
  end.

(** *** The parts *)

Lemma during_step s s1 s2 : during s s1 -> policy_step s1 s2 -> during s s2.
Proof. intros. by eapply rtc_r. Qed.
Lemma truth_of_says v : says v (truth_of v).
Proof.
  destruct v as [v|]; [|by constructor]. destruct v as [| |b|i| | | | | |]; simpl; try by constructor.
  destruct (Z.eqb_spec i 0) as [->|]; by constructor.
Qed.
Lemma LookupExpr_gives s s1 name : during s s1 -> gives (LookupExpr fuel a name) s1 (fun s2 _ => during s s2).
Proof. intros Hd s2 t Ht. by eapply during_step, looked. Qed.
Lemma LookupInteger_gives s s1 name : during s s1 ->
  gives (LookupInteger strict fuel a name) s1 (fun s2 t => during s s2 /\ LookupInteger strict fuel a name s1 = Some (Done (s2, t))).
Proof.
  intros Hd s2 t Ht. split; [|done]. revert s2 t Ht. change (gives (LookupInteger strict fuel a name) s1 (fun s2 _ => during s s2)).
  unfold LookupInteger. apply gives_bind. intros s2 v Hv. assert (Hd2 : during s s2) by (by eapply during_step, evaluated).
  assert (Hb : gives (let* v := attr_value strict fuel a name in ret (match v with Some (BooleanValue b) => Some (if b then 1 else 0) | _ => None end)) s2 (fun s2 _ => during s s2)).
  { apply gives_bind. intros s3 w Hw. apply gives_ret. by eapply during_step, evaluated. }
  destruct v as [[]|]; try exact Hb; by apply gives_ret.
Qed.
Lemma EvalBool_gives s s1 name : during s s1 ->
  gives (EvalBool strict fuel a name) s1 (fun s2 r => during s s2 /\ exists v, value_is name s1 v /\ says v r).
Proof.
  intros Hd. unfold EvalBool, with_my.
  apply (gives_seq _ _ _ (fun s0 _ => during s s0 /\ if strict then s0 = s1 else insert_attr a (s2b "my") (ref "self") s1 = Some (Done (s0, tt)))).
  { destruct strict; [by apply gives_ret|]. intros s0 [] Hi. split; [|done]. eapply during_step, came; [exact Hd|by left|exact Hi]. }
  intros s0 _ [Hd0 Hmy]. apply (gives_seq _ _ _ (fun s2 r => during s s2 /\ exists v, value_is name s1 v /\ says v r)).
  { apply gives_bind. intros s2 v Hv. apply gives_ret. split; [by eapply during_step, evaluated|]. exists v. split; [|apply truth_of_says]. by exists s0, s2. }
  intros s2 r [Hd2 Hr]. apply (gives_seq _ _ _ (fun s3 _ => during s s3)).
  { destruct strict; [by apply gives_ret|]. intros s3 [] Hi. eapply during_step, went; [exact Hd2|by left|exact Hi]. }
  intros s3 _ Hd3. by apply gives_ret.
Qed.
Lemma AssignExpr_gives s s1 text : during s s1 ->
  gives (AssignExpr a ATTR_SCRATCH_EXPRESSION text) s1 (fun s2 _ => during s s2 /\ AssignExpr a ATTR_SCRATCH_EXPRESSION text s1 = Some (Done (s2, tt))).
Proof.
  intros Hd s2 [] Hr. split; [|done]. unfold AssignExpr in Hr. destruct (ParseExpression text) as [t|].
  - eapply during_step, came; [exact Hd|by right|exact Hr].
  - by injection Hr as <-.
Qed.

(** An expression of the job and the macro that stands behind it. *)
Lemma single_gives s s1 p attr macro action :
  during s s1 -> m_fire_expr_val p = -1 ->
  gives (AnalyzeSinglePeriodicPolicy strict fuel p a attr macro action) s1 (fun s2 pr =>
    during s s2 /\
    match pr.2 with
    | None => m_fire_expr_val pr.1 = -1 /\ job_said s attr (Some false)
    | Some r => (fired_job s pr.1 attr true \/ fired_macro s pr.1 macro) /\ r = action \/
                r = UNDEFINED_EVAL /\ m_fire_expr_val pr.1 = -1 /\ m_fire_expr pr.1 = Some attr /\ job_said s attr None
    end).
Proof.
  intros Hd Hp. unfold AnalyzeSinglePeriodicPolicy. eapply gives_seq; [by apply (EvalBool_gives s)|]. intros s2 r (Hd2 & v & Hv & Hr).
  assert (Hsaid : job_said s attr r) by (by exists s1, v). destruct r as [[]|].
  - apply gives_ret. split; [done|]. left. split; [|done]. left. by split_and!.
  - assert (Hn : forall s3, during s s3 -> gives (ret (looking_at p attr, None)) s3 (fun s2 (pr : UserPolicy * option policy_action) => during s s2 /\
      match pr.2 with None => m_fire_expr_val pr.1 = -1 /\ job_said s attr (Some false) | Some _ => False end)) by (intros; by apply gives_ret).
    destruct (param macro) as [[|c e]|] eqn:Hm; [by apply gives_ret| |by apply gives_ret].
    eapply gives_seq; [by apply (AssignExpr_gives s)|]. intros s3 _ [Hd3 Ha]. eapply gives_seq; [by apply (EvalBool_gives s)|].
    intros s4 r (Hd4 & w & Hw & Hr'). apply (gives_seq _ _ _ (fun s5 _ => during s s5)).
    { intros s5 [] H5. eapply during_step, went; [exact Hd4|by right|exact H5]. }
    intros s5 _ Hd5. destruct r as [[]|]; apply gives_ret; (split; [done|]); [|done|done].
    left. split; [|done]. right. split_and!; [done..|]. by exists (c :: e), s2, s3, w.
  - eapply gives_seq; [by apply (LookupExpr_gives s)|]. intros s3 t Hd3. apply gives_ret. split; [done|]. right. by destruct t.
Qed.
Lemma or_else_gives s s1 m k (Q : UserPolicy * policy_action -> Prop) (P : UserPolicy -> Prop) :
  gives m s1 (fun s2 pr => during s s2 /\ match pr.2 with Some r => Q (pr.1, r) | None => P pr.1 end) ->
  (forall p s2, during s s2 -> P p -> gives (k p) s2 (fun _ => Q)) -> gives (or_else m k) s1 (fun _ => Q).
Proof.
  intros Hm Hk. unfold or_else. eapply gives_seq; [exact Hm|]. intros s2 [p [r|]] [Hd Hr]; [by apply gives_ret|by apply Hk].
Qed.
Lemma timer_gives s s1 p : during s s1 -> m_fire_expr_val p = -1 ->
  gives (timer_policy strict fuel p a) s1 (fun s2 pr =>
    during s s2 /\
    match pr.2 with
    | None => m_fire_expr_val pr.1 = -1
    | Some r => fired_timer s pr.1 /\ r = REMOVE_FROM_QUEUE \/
        r = UNDEFINED_EVAL /\ m_fire_expr_val pr.1 = -1 /\ m_fire_expr pr.1 = Some ATTR_TIMER_REMOVE_CHECK /\ timer_says s None
    end).
Proof.
  intros Hd Hp. unfold timer_policy. eapply gives_seq; [by apply (LookupInteger_gives s)|]. intros s2 t [Hd2 Ht].
  assert (Hs : timer_says s t) by (by exists s1, s2). destruct t as [t|].
  - apply gives_ret. split; [done|]. destruct ((0 <=? t) && (t <? time)) eqn:E; [|done]. left. split; [|done].
    apply andb_true_iff in E as [E1%Z.leb_le E2%Z.ltb_lt]. split_and!; [done..|]. by exists t.
  - eapply gives_seq; [by apply (LookupExpr_gives s)|]. intros s3 x Hd3. apply gives_ret. split; [done|]. destruct (missing x); [done|]. by right.
Qed.
Lemma exit_gives s s1 p status : during s s1 -> m_fire_expr_val p = -1 ->
  job_said s (if status =? HELD then ATTR_PERIODIC_RELEASE_CHECK else ATTR_PERIODIC_HOLD_CHECK) (Some false) ->
  job_said s ATTR_PERIODIC_REMOVE_CHECK (Some false) ->
  gives (exit_policy strict fuel p a) s1 (fun _ pr => explains s status PERIODIC_THEN_EXIT pr.1 pr.2).
Proof.
  intros Hd Hp H1 H2. unfold exit_policy. eapply gives_seq; [by apply (LookupExpr_gives s)|]. intros s2 t Hd2. destruct (missing t); [apply gives_lift|].
  eapply gives_seq; [by apply (LookupExpr_gives s)|]. intros s3 c Hd3. eapply gives_seq; [by apply (LookupExpr_gives s)|]. intros s4 g Hd4.
  destruct (_ && _); [apply gives_lift|]. eapply gives_seq; [by apply (EvalBool_gives s)|]. intros s5 r (Hd5 & v & Hv & Hr).
  assert (Hsaid : job_said s ATTR_ON_EXIT_HOLD_CHECK r) by (by exists s4, v). destruct r as [[]|].
  - apply gives_ret. right. by split_and!.
  - eapply gives_seq; [by apply (EvalBool_gives s)|]. intros s6 r (Hd6 & w & Hw & Hr').
    assert (Hsaid' : job_said s ATTR_ON_EXIT_REMOVE_CHECK r) by (by exists s5, w). destruct r as [[]|]; apply gives_ret.
    + do 3 right. by split_and!.
    + by split_and!.
    + split; [done|]. eexists. split; [done|]. right. split; [set_solver|done].
  - apply gives_ret. split; [done|]. eexists. split; [done|]. right. split; [set_solver|done].
Qed.
End contract.

(** C20 (safety): what AnalyzePolicy() decides, when it returns for a job ad with a JobStatus, is
    explained by the values of the expressions, asked in the course of the call. A job is removed only
    if TimerRemove lies in the past, or PeriodicRemove, the macro SYSTEM_PERIODIC_REMOVE or, after an
    exit, OnExitRemove said yes; held only if it is not held and PeriodicHold or its macro said yes, or
    OnExitHold did after an exit; released only if it is held and PeriodicRelease or its macro said yes;
    it stays only if its periodic expressions said no, and after an exit OnExitHold and OnExitRemove
    too; the answer is UNDEFINED_EVAL only if the expression that is named has no truth value. The
    expression, its source and its value are those reported. A number says yes when it is not zero, but
    EvalBool() inverts real values, and the hold or release expression is asked before PeriodicRemove,
    which user_job_policy.h promises the other way round; both are recorded. *)
Theorem policy_explained `{F : Functions} `{S : Site} strict fuel p a mode s s1 status s' p' r :
  m_ad p = Some a -> LookupInteger strict fuel a ATTR_JOB_STATUS s = Some (Done (s1, Some status)) ->
  AnalyzePolicy strict fuel p mode s = Some (Done (s', (p', r))) -> explains strict fuel a s status mode p' r.
Proof.
  intros Ha Hst Hr.
  cut (gives (AnalyzePolicy strict fuel p mode) s (fun _ pr => explains strict fuel a s status mode pr.1 pr.2)); [intros Hg; exact (Hg _ _ Hr)|].
  assert (Hmono : forall (m : M (UserPolicy * option policy_action)) s0 (P Q : EvalState -> UserPolicy * option policy_action -> Prop),
    (forall s x, P s x -> Q s x) -> gives m s0 P -> gives m s0 Q) by (intros m s0 P Q HPQ Hm s2 x Hx; apply HPQ; by eapply Hm).
  unfold AnalyzePolicy. rewrite Ha. eapply gives_seq; [apply (LookupInteger_gives strict fuel a s s); constructor|]. intros s2 st [Hd Hs2].
  rewrite Hst in Hs2. injection Hs2 as <- <-. eapply (or_else_gives strict fuel a s).
  { eapply Hmono; [|by apply timer_gives]. intros s3 [q [x|]] [Hd3 Hx]; (split; [exact Hd3|]); simpl in *; [|exact Hx].
    destruct Hx as [[Hq ->]|(-> & ? & ? & ?)]; [by left|]. split; [done|]. eexists. split; [done|]. by left. }
  intros q s3 Hd3 Hq. simpl in Hq. eapply (or_else_gives strict fuel a s _ _ _ _ (fun q => m_fire_expr_val q = -1 /\
    job_said strict fuel a s (if status =? HELD then ATTR_PERIODIC_RELEASE_CHECK else ATTR_PERIODIC_HOLD_CHECK) (Some false))).
  { unfold periodic. destruct (Z.eqb_spec status HELD) as [He|He]; (eapply Hmono; [|by apply single_gives]); intros s4 [q1 [x|]] [Hd4 Hx];
      (split; [exact Hd4|]); simpl in *; try exact Hx; destruct Hx as [[Hx ->]|(-> & ? & ? & ?)]; [by split| | |].
    - split; [done|]. eexists. split; [done|]. right. split; [set_solver|done].
    - left. by split.
    - split; [done|]. eexists. split; [done|]. right. split; [set_solver|done]. }
  intros q1 s4 Hd4 [Hq1 Hsaid]. eapply (or_else_gives strict fuel a s _ _ _ _ (fun q => m_fire_expr_val q = -1 /\ job_said strict fuel a s ATTR_PERIODIC_REMOVE_CHECK (Some false))).
  { eapply Hmono; [|by apply single_gives]. intros s5 [q2 [x|]] [Hd5 Hx]; (split; [exact Hd5|]); simpl in *; [|exact Hx].
    destruct Hx as [[[Hx|Hx] ->]|(-> & ? & ? & ?)]; [by right; left|by right; right; left|].
    split; [done|]. eexists. split; [done|]. right. split; [set_solver|done]. }
  intros q2 s5 Hd5 [Hq2 Hsaid2]. destruct mode; [by apply gives_ret|by apply exit_gives].
Qed.

(** ** The order of the expressions *)

(** A job ad on its own. *)
Definition own_ad (s : EvalState) (a : Z) (ad : Ad) : Prop :=
  heap s !! a = Some ad /\ ad_parentScope ad = None /\ ad_chained_parent ad = None /\ ad_attrs ad !! s2b "my" = None.
(** The attribute is the constant [v]. *)
Definition constant (ad : Ad) (name : bytes) (v : Value) : Prop := ad_attrs ad !! lower name = Some (Literal v NO_FACTOR).

Section precedence.
Context `{F : Functions} `{S : Site} (fuel : nat) (a : Z) (ad : Ad) (s : EvalState).
Hypothesis Hown : own_ad s a ad.

Lemma attr_value_constant strict s1 ad1 name v :
  heap s1 !! a = Some ad1 -> ad_parentScope ad1 = None -> constant ad1 name v -> evaluate_literal v NO_FACTOR = v ->
  attr_value strict (Datatypes.S fuel) a name s1 = Some (Done (s1, Some v)).
Proof.
  intros Ha Hp Hc Hv. unfold attr_value, EvaluateAttr, bind at 1. rewrite (new_state_at fuel a ad1 _ s1 Ha Hp).
  unfold LookupInScope, bind at 1 2. rewrite (scope_here fuel a a ad1 name (Literal v NO_FACTOR)); [|exact Ha|exact Hc].
  cbn [Evaluate]. unfold ret at 1. rewrite Hv. unfold bind, modify, ret. simpl. by destruct s1.
Qed.
Lemma LookupInteger_constant strict name i : constant ad name (IntegerValue i) -> LookupInteger strict (Datatypes.S fuel) a name s = Some (Done (s, Some i)).
Proof. intros Hc. destruct Hown as (Ha & Hp & _). unfold LookupInteger, bind. by rewrite (attr_value_constant _ s ad name (IntegerValue i)). Qed.
Lemma LookupExpr_here name : LookupExpr (Datatypes.S fuel) a name s = Some (Done (s, ad_attrs ad !! lower name)).
Proof.
  destruct Hown as (Ha & _ & Hc & _). unfold LookupExpr. cbn [Lookup]. unfold deref, bind, get, ret. rewrite Ha.
  destruct (ad_attrs ad !! lower name); [done|]. by rewrite Hc.
Qed.
(** [my] comes and goes. *)
Lemma EvalBool_constant strict name b : constant ad name (BooleanValue b) -> EvalBool strict (Datatypes.S fuel) a name s = Some (Done (s, Some b)).
Proof.
  intros Hc. destruct Hown as (Ha & Hp & Hch & Hmy). unfold EvalBool, with_my. destruct strict.
  { unfold bind at 1 2 3, ret at 1. by rewrite (attr_value_constant _ s ad name (BooleanValue b)). }
  set (ad1 := ad <| ad_attrs ::= <[s2b "my" := ref "self"]> |>). set (s1 := s <| heap ::= <[a := ad1]> |>).
  assert (Hi : insert_attr a (s2b "my") (ref "self") s = Some (Done (s1, tt))).
  { unfold insert_attr, update_ad, deref, bind, get, SetParentScope, ref, ret. by rewrite Ha. }
  assert (H1 : heap s1 !! a = Some ad1) by (simpl; apply lookup_insert_eq).
  assert (Hc1 : constant ad1 name (BooleanValue b)).
  { unfold constant in *. simpl. rewrite lookup_insert_ne; [done|]. intros E. change (s2b "my") with (lower (s2b "my")) in Hmy, E. congruence. }
  assert (Hr : remove_attr (Datatypes.S fuel) a (s2b "my") s1 = Some (Done (s, tt))).
  { set (ad2 := ad1 <| ad_attrs ::= delete (lower (s2b "my")) |>). set (s2 := s1 <| heap ::= <[a := ad2]> |>).
    assert (H2 : heap s2 !! a = Some ad2) by (simpl; apply lookup_insert_eq).
    assert (Hu : update_ad a (delete (lower (s2b "my"))) s1 = Some (Done (s2, tt))) by (unfold update_ad, deref, bind, get, ret; by rewrite H1).
    unfold remove_attr, bind at 1. rewrite Hu. unfold deref, bind, get, ret. rewrite H2. change (ad_chained_parent ad2) with (ad_chained_parent ad). rewrite Hch. do 3 f_equal.
    assert (E : ad2 = ad). { subst ad2 ad1. destruct ad; simpl in *. unfold set_field, set_ad_attrs; simpl. by rewrite delete_insert_id. }
    subst s2 s1. rewrite E. destruct s; simpl in *. unfold set_field, set_heap; simpl. by rewrite insert_insert_eq, insert_id. }
  unfold bind at 1. rewrite Hi. unfold bind at 1 2. rewrite (attr_value_constant _ s1 ad1 name (BooleanValue b)) by done. unfold ret at 1, bind. by rewrite Hr.
Qed.
End precedence.

(** The policy of a job whose expressions have been evaluated. *)
Record Policy := mkPolicy { periodic_hold : bool; periodic_release : bool; periodic_remove : bool; on_exit_hold : bool; on_exit_remove : bool }.
(** The decision and the expression it is due to. *)
Definition decide_policy (status : Z) (mode : policy_mode) (q : Policy) : policy_action * option bytes :=
  if (status =? HELD) && periodic_release q then (RELEASE_FROM_HOLD, Some ATTR_PERIODIC_RELEASE_CHECK)
  else if negb (status =? HELD) && periodic_hold q then (HOLD_IN_QUEUE, Some ATTR_PERIODIC_HOLD_CHECK)
  else if periodic_remove q then (REMOVE_FROM_QUEUE, Some ATTR_PERIODIC_REMOVE_CHECK)
  else match mode with
       | PERIODIC_ONLY => (STAYS_IN_QUEUE, None)
       | PERIODIC_THEN_EXIT =>
           if on_exit_hold q then (HOLD_IN_QUEUE, Some ATTR_ON_EXIT_HOLD_CHECK)
           else (if on_exit_remove q then REMOVE_FROM_QUEUE else STAYS_IN_QUEUE, Some ATTR_ON_EXIT_REMOVE_CHECK)
       end.
Definition has_policy (ad : Ad) (status : Z) (q : Policy) : Prop :=
  constant ad ATTR_JOB_STATUS (IntegerValue status) /\ ad_attrs ad !! lower ATTR_TIMER_REMOVE_CHECK = None /\
  constant ad ATTR_PERIODIC_HOLD_CHECK (BooleanValue (periodic_hold q)) /\ constant ad ATTR_PERIODIC_RELEASE_CHECK (BooleanValue (periodic_release q)) /\
  constant ad ATTR_PERIODIC_REMOVE_CHECK (BooleanValue (periodic_remove q)) /\ constant ad ATTR_ON_EXIT_HOLD_CHECK (BooleanValue (on_exit_hold q)) /\
  constant ad ATTR_ON_EXIT_REMOVE_CHECK (BooleanValue (on_exit_remove q)).
(** What the caller has to record before it asks for the exit policy. *)
Definition has_exited (ad : Ad) : Prop := is_Some (ad_attrs ad !! lower ATTR_ON_EXIT_BY_SIGNAL) /\ is_Some (ad_attrs ad !! lower ATTR_ON_EXIT_CODE).

Section table.
Context `{F : Functions} `{S : Site} (strict : bool) (fuel : nat) (a : Z) (ad : Ad) (s : EvalState) (p : UserPolicy).
Hypothesis Hown : own_ad s a ad.

Lemma single_constant q attr macro action b : constant ad attr (BooleanValue b) -> param macro = None ->
  AnalyzeSinglePeriodicPolicy strict (Datatypes.S fuel) q a attr macro action s =
  Some (Done (s, if b then (fire q FS_JobAttribute attr 1, Some action) else (looking_at q attr, None))).
Proof.
  intros Hc Hm. unfold AnalyzeSinglePeriodicPolicy, bind. rewrite (EvalBool_constant fuel a ad s Hown strict attr b Hc). destruct b; [done|]. by rewrite Hm.
Qed.
Lemma timer_absent q : ad_attrs ad !! lower ATTR_TIMER_REMOVE_CHECK = None ->
  timer_policy strict (Datatypes.S (Datatypes.S fuel)) q a s = Some (Done (s, (looking_at q ATTR_TIMER_REMOVE_CHECK, None))).
Proof.
  intros Ht. destruct Hown as (Ha & Hp & Hc & _).
  assert (Hv : attr_value strict (Datatypes.S (Datatypes.S fuel)) a ATTR_TIMER_REMOVE_CHECK s = Some (Done (s, Some UndefinedValue))).
  { unfold attr_value, EvaluateAttr, bind at 1. rewrite (new_state_at (Datatypes.S fuel) a ad _ s Ha Hp). unfold LookupInScope, bind at 1 2.
    cbn [lookup_in_scope Lookup]. unfold bind, modify, deref, bind, get, ret, set_field, set_curAd. cbn [heap rootAd curAd depth_remaining].
    rewrite Ha, Ht, Hc. cbn [heap]. rewrite Ha. vm_compute strcaseeq. cbn [orb]. rewrite Hp. destruct s; done. }
  unfold timer_policy, LookupInteger, bind. rewrite Hv. unfold ret. rewrite Hv, (LookupExpr_here (Datatypes.S fuel) a ad s Hown), Ht. done.
Qed.

(** or_else() on a policy that has been evaluated. *)
Lemma or_else_done (m : M (UserPolicy * option policy_action)) k pr : m s = Some (Done (s, pr)) ->
  or_else m k s = match pr.2 with Some x => Some (Done (s, (pr.1, x))) | None => k pr.1 s end.
Proof. intros Hm. unfold or_else, bind. rewrite Hm. by destruct pr as [q []]. Qed.
Lemma exit_constant q h o : has_exited ad -> constant ad ATTR_ON_EXIT_HOLD_CHECK (BooleanValue h) -> constant ad ATTR_ON_EXIT_REMOVE_CHECK (BooleanValue o) ->
  exit_policy strict (Datatypes.S fuel) q a s =
  Some (Done (s, if h then (fire q FS_JobAttribute ATTR_ON_EXIT_HOLD_CHECK 1, HOLD_IN_QUEUE)
                 else (fire q FS_JobAttribute ATTR_ON_EXIT_REMOVE_CHECK (if o then 1 else 0), if o then REMOVE_FROM_QUEUE else STAYS_IN_QUEUE))).
Proof.
  intros [[t Ht] [c Hc]] Hh Ho. unfold exit_policy, bind. rewrite (LookupExpr_here fuel a ad s Hown), Ht. cbn [missing].
  rewrite (LookupExpr_here fuel a ad s Hown), Hc, (LookupExpr_here fuel a ad s Hown). cbn [missing andb]. rewrite (EvalBool_constant fuel a ad s Hown strict _ h Hh). destruct h; [done|].
  rewrite (EvalBool_constant fuel a ad s Hown strict _ o Ho). by destruct o.
Qed.
End table.

(** C21 (functional): the policy expressions are consulted in a fixed order. For a job ad on its own (no
    scopes, no chained parent, no attribute my) whose policy expressions are boolean constants, without
    TimerRemove and without macros of the administrator, AnalyzePolicy() releases a held job or holds
    another one if its periodic expression says so, then looks at PeriodicRemove, and after an exit,
    which the ad records, at OnExitHold and OnExitRemove; it names the expression that decided and
    leaves the ad as it was. (This is the order of the code; user_job_policy.h says PeriodicRemove comes
    before PeriodicRelease.) *)
Theorem policy_precedence `{F : Functions} `{S : Site} strict fuel a ad s p mode status q :
  own_ad s a ad -> has_policy ad status q -> m_ad p = Some a -> (forall m, param m = None) -> (mode = PERIODIC_THEN_EXIT -> has_exited ad) ->
  exists p', AnalyzePolicy strict (2 + fuel) p mode s = Some (Done (s, (p', (decide_policy status mode q).1))) /\
    m_fire_expr p' = (decide_policy status mode q).2.
Proof.
  intros Hown (Hst & Ht & Hph & Hpl & Hpr & Hoh & Hor) Ha Hm He. unfold AnalyzePolicy. rewrite Ha. unfold bind at 1. cbn [Nat.add].
  rewrite (LookupInteger_constant _ a ad s Hown strict ATTR_JOB_STATUS status Hst).
  rewrite (or_else_done s _ _ _ (timer_absent strict fuel a ad s Hown _ Ht)). unfold decide_policy, periodic.
  destruct (Z.eqb_spec status HELD); cbn [andb negb].
  - rewrite (or_else_done s _ _ _ (single_constant strict (Datatypes.S fuel) a ad s Hown _ _ _ _ _ Hpl (Hm _))). destruct (periodic_release q); cbn [fst snd]; [by eexists|].
    rewrite (or_else_done s _ _ _ (single_constant strict (Datatypes.S fuel) a ad s Hown _ _ _ _ _ Hpr (Hm _))). destruct (periodic_remove q); cbn [fst snd]; [by eexists|].
    destruct mode; [by eexists|]. rewrite (exit_constant strict (Datatypes.S fuel) a ad s Hown _ _ _ (He eq_refl) Hoh Hor). destruct (on_exit_hold q); by eexists.
  - rewrite (or_else_done s _ _ _ (single_constant strict (Datatypes.S fuel) a ad s Hown _ _ _ _ _ Hph (Hm _))). destruct (periodic_hold q); cbn [fst snd]; [by eexists|].
    rewrite (or_else_done s _ _ _ (single_constant strict (Datatypes.S fuel) a ad s Hown _ _ _ _ _ Hpr (Hm _))). destruct (periodic_remove q); cbn [fst snd]; [by eexists|].
    destruct mode; [by eexists|]. rewrite (exit_constant strict (Datatypes.S fuel) a ad s Hown _ _ _ (He eq_refl) Hoh Hor). destruct (on_exit_hold q); by eexists.
Qed.
