(* ===== verification/Sinful.v ===== *)
(** Addresses of daemons: condor_utils/condor_sinful.cpp and split_sin() of condor_utils/internet.cpp.

    A sinful string is <host:port?params>, where the parameters are key=value pairs in URL encoding; one
    of them may hold another sinful string. *)

From stdpp Require Import sorting.
From S2P Require Import Prelude.

Open Scope Z_scope.

Definition ch (n : nat) : ascii := ascii_of_nat n.
Definition PERCENT : ascii := ch 37.
Definition AMP : ascii := ch 38.
Definition COLON : ascii := ch 58.
Definition SEMI : ascii := ch 59.
Definition LESS : ascii := ch 60.
Definition EQUAL : ascii := ch 61.
Definition GREATER : ascii := ch 62.
Definition QMARK : ascii := ch 63.
Definition LBRACKET : ascii := ch 91.
Definition RBRACKET : ascii := ch 93.
Definition ceqb (a b : ascii) : bool := bool_decide (a = b).
Definition one_of (l : list ascii) (c : ascii) : bool := bool_decide (c ∈ l).

(** strcspn() and strspn(): the characters up to the first one in the set, and the others. *)
Definition cspn (l : list ascii) (s : bytes) : bytes * bytes := span (fun c => negb (one_of l c)) s.
Definition spn (p : ascii -> bool) (s : bytes) : bytes * bytes := span p s.
Definition starts (c : ascii) (s : bytes) : bool := match s with x :: _ => ceqb x c | [] => false end.

(** ** URL encoding *)

Definition hex_value (c : ascii) : option nat :=
  let n := nat_of_ascii c in
  if (48 <=? n)%nat && (n <=? 57)%nat then Some (n - 48)%nat
  else if (97 <=? n)%nat && (n <=? 102)%nat then Some (n - 97 + 10)%nat
  else if (65 <=? n)%nat && (n <=? 70)%nat then Some (n - 65 + 10)%nat
  else None.
(** urlDecode() of at most [max] characters.  An escape is read to its end; if that lies past [max], the
    difference wraps around and the rest of the string is taken as it is. *)
Fixpoint urlDecode (str : bytes) (max : Z) : option bytes :=
  match str with
  | [] => Some []
  | c :: r =>
      if max =? 0 then Some []
      else if max <? 0 then Some str
      else if ceqb c PERCENT then
        match r with
        | h1 :: h2 :: r' =>
            match hex_value h1, hex_value h2 with
            | Some d1, Some d2 => cons (ch (16 * d1 + d2)) <$> urlDecode r' (max - 3)
            | _, _ => None
            end
        | _ => None
        end
      else cons c <$> urlDecode r (max - 1)
  end.

Definition isalnum_c (c : ascii) : bool :=
  let n := nat_of_ascii c in
  (48 <=? n)%nat && (n <=? 57)%nat || (65 <=? n)%nat && (n <=? 90)%nat || (97 <=? n)%nat && (n <=? 122)%nat.
(** The letters and digits, and . _ - : # *)
Definition needsUrlEncodeEscape (c : ascii) : bool := negb (isalnum_c c || one_of (s2b "._-:#") c).
Definition hex_char (d : nat) : ascii := ch (if (d <? 10)%nat then 48 + d else 87 + d).
(** sprintf(code,"%%%02x",*str): a character from 128 on is negative and is printed as 8 digits, which do
    not fit the four bytes of [code]. *)
Definition escape (c : ascii) : outcome bytes :=
  let n := nat_of_ascii c in
  if (128 <=? n)%nat then EXCEPT "buffer overflow" else Done [PERCENT; hex_char (n / 16); hex_char (n mod 16)].
Fixpoint urlEncode (str : bytes) : outcome bytes :=
  match str with
  | [] => Done []
  | c :: r =>
      (let! e := if needsUrlEncodeEscape c then escape c else Done [c] in
       let! t := urlEncode r in Done (e ++ t))%outcome
  end.

(** ** Parameters *)

Notation Params := (gmap bytes bytes).
(** The parameters, those before the error when the string is bad. *)
Fixpoint parse_params (fuel : nat) (str : bytes) (params : Params) : Params * bool :=
  match fuel with
  | O => (params, false)
  | S fuel' =>
      match (spn (one_of [SEMI; AMP]) str).2 with
      | [] => (params, true)
      | str1 =>
          let '(k, str2) := cspn [EQUAL; AMP; SEMI] str1 in
          if bool_decide (k = []) then (params, false)
          else
            match urlDecode str1 (Z.of_nat (length k)) with
            | None => (params, false)
            | Some key =>
                if starts EQUAL str2 then
                  let str3 := drop 1 str2 in
                  let '(v, str4) := cspn [AMP; SEMI] str3 in
                  match urlDecode str3 (Z.of_nat (length v)) with
                  | None => (params, false)
                  | Some value => parse_params fuel' str4 (<[key := value]> params)
                  end
                else parse_params fuel' str2 (<[key := []]> params)
            end
      end
  end.
Definition parseUrlEncodedParams (str : bytes) (params : Params) : Params * bool := parse_params (S (length str)) str params.

(** The order of std::map<std::string,...>. *)
Fixpoint bytes_leb (a b : bytes) : bool :=
  match a, b with
  | [], _ => true
  | _, [] => false
  | x :: a', y :: b' =>
      let m := nat_of_ascii x in let n := nat_of_ascii y in
      if (m <? n)%nat then true else if (n <? m)%nat then false else bytes_leb a' b'
  end.
Definition key_le (x y : bytes * bytes) : Prop := bytes_leb x.1 y.1 = true.
#[export] Instance key_le_dec : RelDecision key_le := fun x y => decide (bytes_leb x.1 y.1 = true).
Definition in_order (params : Params) : list (bytes * bytes) := merge_sort key_le (map_to_list params).
Fixpoint encode_pairs (result : bytes) (l : list (bytes * bytes)) : outcome bytes :=
  match l with
  | [] => Done result
  | (k, v) :: l' =>
      let result := match result with [] => [] | _ => result ++ [AMP] end in
      (let! ek := urlEncode (until_nul k) in
       let! ev := (match v with [] => Done [] | _ => let! e := urlEncode (until_nul v) in Done (EQUAL :: e) end) in
       encode_pairs (result ++ ek ++ ev) l')%outcome
  end.
Definition urlEncodeParams (params : Params) : outcome bytes := encode_pairs [] (in_order params).

(** ** split_sin() *)

(** The parts; a port or parameters that are absent are NULL in the source. *)
Definition split_host (addr : bytes) : option (bytes * bytes) :=
  if starts LBRACKET addr then
    match cspn [RBRACKET] (drop 1 addr) with
    | (host, _ :: rest) => Some (host, rest)
    | (_, []) => None
    end
  else Some (cspn [COLON; QMARK; GREATER] addr).
Definition split_sin (addr : bytes) : option (bytes * option bytes * option bytes) :=
  if negb (starts LESS addr) then None
  else
    match split_host (drop 1 addr) with
    | None => None
    | Some (host, addr1) =>
        let '(port, addr2) :=
          if starts COLON addr1 then let '(p, r) := spn isdigit (drop 1 addr1) in (Some p, r) else (None, addr1) in
        let '(params, addr3) :=
          if starts QMARK addr2 then let '(p, r) := cspn [GREATER] (drop 1 addr2) in (Some p, r) else (None, addr2) in
        if bool_decide (addr3 = [GREATER]) then Some (host, port, params) else None
    end.

(** ** class Sinful *)

Record Sinful := mkSinful {
  m_sinful : bytes;
  m_host : bytes;
  m_port : bytes;
  m_params : Params;
  m_valid : bool
}.
#[export] Instance rebuild_Sinful : Rebuild Sinful := fun s => mkSinful (m_sinful s) (m_host s) (m_port s) (m_params s) (m_valid s).
#[export] Instance set_m_sinful : Setter m_sinful := ltac:(solve_setter).
#[export] Instance set_m_host : Setter m_host := ltac:(solve_setter).
#[export] Instance set_m_port : Setter m_port := ltac:(solve_setter).
#[export] Instance set_m_params : Setter m_params := ltac:(solve_setter).

(** Two colons, and so perhaps an IPv6 address without its brackets. *)
Definition two_colons (s : bytes) : bool :=
  match (cspn [COLON] s).2 with _ :: r => match (cspn [COLON] r).2 with _ :: _ => true | [] => false end | [] => false end.
(** The parts of a string that begins with [<]. *)
Definition from_parts (sinful : bytes) : Sinful :=
  match split_sin sinful with
  | None => mkSinful sinful [] [] ∅ false
  | Some (host, port, params) =>
      let '(m, ok) := match params with None => (∅, true) | Some p => parseUrlEncodedParams p ∅ end in
      mkSinful sinful host (default [] port) m ok
  end.
(** The constructor. *)
Definition new_Sinful (sinful : option bytes) : Sinful :=
  match sinful with
  | None => mkSinful [] [] [] ∅ true
  | Some str =>
      if starts LESS str then from_parts str
      else if negb (starts LBRACKET str) && two_colons str then mkSinful [LESS] [] [] ∅ false
      else from_parts (LESS :: str ++ [GREATER])
  end.

Definition non_empty (s : bytes) : option bytes := match s with [] => None | _ => Some (until_nul s) end.
Definition getSinful (s : Sinful) : option bytes := non_empty (m_sinful s).
Definition getHost (s : Sinful) : option bytes := non_empty (m_host s).
Definition getPort (s : Sinful) : option bytes := non_empty (m_port s).
Definition getParam (s : Sinful) (key : bytes) : option bytes := until_nul <$> m_params s !! key.
Definition numParams (s : Sinful) : Z := Z.of_nat (size (m_params s)).
Definition getPortNum (s : Sinful) : Z := match getPort s with None => -1 | Some p => atoi p end.

Definition has_colon (s : bytes) : bool := existsb (ceqb COLON) s.
Definition regenerateSinful (s : Sinful) : outcome Sinful :=
  (let! params := (if bool_decide (m_params s = ∅) then Done [] else let! e := urlEncodeParams (m_params s) in Done (QMARK :: e)) in
   Done (s <| m_sinful :=
     [LESS] ++ (if has_colon (m_host s) then [LBRACKET] ++ m_host s ++ [RBRACKET] else m_host s) ++
     (match m_port s with [] => [] | p => COLON :: p end) ++ params ++ [GREATER] |>))%outcome.
Definition setParam (s : Sinful) (key : bytes) (value : option bytes) : outcome Sinful :=
  regenerateSinful (s <| m_params ::= match value with None => delete key | Some v => <[key := v]> end |>).
Definition clearParams (s : Sinful) : outcome Sinful := regenerateSinful (s <| m_params := ∅ |>).
Definition setHost (s : Sinful) (host : bytes) : outcome Sinful := regenerateSinful (s <| m_host := host |>).
Definition setPort (s : Sinful) (port : bytes) : outcome Sinful := regenerateSinful (s <| m_port := port |>).
Definition setPort_int (s : Sinful) (port : Z) : outcome Sinful := setPort s (print_d port).

Definition ATTR_CCBID : bytes := s2b "CCBID".
Definition ATTR_SOCK : bytes := s2b "sock".
Definition setCCBContact (s : Sinful) (contact : option bytes) : outcome Sinful := setParam s ATTR_CCBID contact.
Definition getCCBContact (s : Sinful) : option bytes := getParam s ATTR_CCBID.
Definition setSharedPortID (s : Sinful) (contact : option bytes) : outcome Sinful := setParam s ATTR_SOCK contact.
Definition getSharedPortID (s : Sinful) : option bytes := getParam s ATTR_SOCK.
Definition setPrivateAddr (s : Sinful) (addr : option bytes) : outcome Sinful := setParam s (s2b "PrivAddr") addr.
Definition getPrivateAddr (s : Sinful) : option bytes := getParam s (s2b "PrivAddr").
Definition setPrivateNetworkName (s : Sinful) (addr : option bytes) : outcome Sinful := setParam s (s2b "PrivNet") addr.
Definition getPrivateNetworkName (s : Sinful) : option bytes := getParam s (s2b "PrivNet").
Definition setNoUDP (s : Sinful) (flag : bool) : outcome Sinful := setParam s (s2b "noUDP") (if flag then Some [] else None).
Definition noUDP (s : Sinful) : bool := match getParam s (s2b "noUDP") with Some _ => true | None => false end.

Definition both_equal (a b : option bytes) : bool := match a, b with Some x, Some y => streq x y | _, _ => false end.
Definition same_endpoint (s addr : Sinful) : bool :=
  both_equal (getHost s) (getHost addr) && both_equal (getPort s) (getPort addr) &&
  bool_decide (getSharedPortID s = getSharedPortID addr).
(** The search goes through the private addresses inside each other; [None] when there are more than [fuel]. *)
Fixpoint addressPointsToMe (fuel : nat) (s addr : Sinful) : option bool :=
  match fuel with
  | O => None
  | S fuel' =>
      if same_endpoint s addr then Some true
      else match getPrivateAddr s with
           | Some p => addressPointsToMe fuel' (new_Sinful (Some p)) addr
           | None => Some false
           end
  end.

(** ** URL encoding is undone by decoding *)

Definition ascii7 (c : ascii) : bool := (nat_of_ascii c <? 128)%nat && negb (ceqb c NUL).
(** The characters of an encoded text. *)
Definition encoded (c : ascii) : bool := negb (needsUrlEncodeEscape c) || ceqb c PERCENT.

(** What is checked for each of the characters. *)
Definition escape_ok (c : ascii) : bool :=
  match escape c with
  | Done [p; h1; h2] =>
      match hex_value h1, hex_value h2 with
      | Some d1, Some d2 => ceqb p PERCENT && ceqb (ch (16 * d1 + d2)) c && encoded h1 && encoded h2
      | _, _ => false
      end
  | _ => negb (ascii7 c)
  end.
Lemma escape_checked c : escape_ok c = true.
Proof. destruct c as [[] [] [] [] [] [] [] []]; vm_compute; reflexivity. Qed.
Lemma escape_decodes c : ascii7 c -> exists h1 h2 d1 d2, escape c = Done [PERCENT; h1; h2] /\
  hex_value h1 = Some d1 /\ hex_value h2 = Some d2 /\ ch (16 * d1 + d2) = c /\ encoded h1 /\ encoded h2.
Proof.
  intros Hc%Is_true_true. pose proof (escape_checked c) as He. unfold escape_ok in He. destruct (escape c) as [[|p [|h1 [|h2 []]]]|]; try (rewrite Hc in He; done).
  destruct (hex_value h1) as [d1|] eqn:H1; [|done]. destruct (hex_value h2) as [d2|] eqn:H2; [|done]. rewrite !andb_true_iff in He. destruct He as (((Hp & Hch) & E1) & E2).
  apply bool_decide_eq_true in Hp as ->. apply bool_decide_eq_true in Hch. exists h1, h2, d1, d2. by rewrite H1, H2, E1, E2.
Qed.
Lemma encoded_no c : encoded c -> c ∉ [EQUAL; AMP; SEMI; GREATER; QMARK].
Proof. intros Hc Hin. set_unfold in Hin. destruct_or!; by subst. Qed.
Lemma encoded_not l c : l ⊆ [EQUAL; AMP; SEMI; GREATER; QMARK] -> encoded c -> one_of l c = false.
Proof. intros Hl Hc. apply bool_decide_eq_false. intros Hin. apply (encoded_no c Hc), Hl, Hin. Qed.

Lemma urlEncode_spec s : forallb ascii7 s -> exists e, urlEncode s = Done e /\ forallb encoded e /\ (s <> [] -> e <> []) /\
  forall rest, urlDecode (e ++ rest) (Z.of_nat (length e)) = Some s.
Proof.
  induction s as [|c s IH]; intros Hs; [exists []; split_and!; try done; by intros []|].
  simpl in Hs. apply andb_True in Hs as [Hc Hs]. destruct (IH Hs) as (e & He & Hen & _ & Hd). cbn [urlEncode]. rewrite He.
  destruct (needsUrlEncodeEscape c) eqn:Hn.
  - destruct (escape_decodes c Hc) as (h1 & h2 & d1 & d2 & -> & H1 & H2 & Hch & E1 & E2). exists ([PERCENT; h1; h2] ++ e). split_and!; try done.
    + simpl. by rewrite !andb_True.
    + intros rest. cbn [app urlDecode length]. rewrite (proj2 (Z.eqb_neq _ 0)), (proj2 (Z.ltb_ge _ 0)) by lia.
      change (ceqb PERCENT PERCENT) with true. cbn iota. rewrite H1, H2, Hch.
      replace (Z.of_nat (S (S (S (length e)))) - 3) with (Z.of_nat (length e)) by lia. by rewrite Hd.
  - exists (c :: e). split_and!; try done.
    + simpl. rewrite andb_True. split; [|done]. unfold encoded. by rewrite Hn.
    + intros rest. cbn [app urlDecode length]. rewrite (proj2 (Z.eqb_neq _ 0)), (proj2 (Z.ltb_ge _ 0)) by lia.
      assert (Hp : ceqb c PERCENT = false) by (apply bool_decide_eq_false; intros ->; done). rewrite Hp.
      replace (Z.of_nat (S (length e)) - 1) with (Z.of_nat (length e)) by lia. by rewrite Hd.
Qed.

Lemma urlDecode_length str max s : urlDecode str max = Some s -> (length s <= length str)%nat.
Proof.
  remember (length str) as n eqn:Hn. revert str Hn max s. induction n as [n IH] using lt_wf_ind. intros str -> max s Hd. destruct str as [|c r]; cbn [urlDecode] in Hd; [by simplify_eq|].
  destruct (max =? 0); [injection Hd as <-; simpl; lia|]. destruct (max <? 0); [by injection Hd as <-|]. destruct (ceqb c PERCENT).
  - destruct r as [|h1 [|h2 r]]; try done. destruct (hex_value h1), (hex_value h2); try done.
    destruct (urlDecode r _) as [t|] eqn:E; [|done]. simplify_eq/=. pose proof (IH (length r) ltac:(simpl; lia) r eq_refl _ _ E). lia.
  - destruct (urlDecode r _) as [t|] eqn:E; [|done]. simplify_eq/=. pose proof (IH (length r) ltac:(simpl; lia) r eq_refl _ _ E). lia.
Qed.

(** ** Parameters are read back *)

Lemma span_app p a b : forallb p a -> match b with [] => True | c :: _ => p c = false end -> span p (a ++ b) = (a, b).
Proof.
  intros Ha Hb. induction a as [|c a IH]; simpl in *.
  - destruct b as [|c b]; [done|]. simpl. by rewrite Hb.
  - apply andb_True in Ha as [Hc Ha]. rewrite (IH Ha). destruct (p c); done.
Qed.
Lemma span_length p s : (length (span p s).1 + length (span p s).2 = length s)%nat.
Proof. induction s as [|c s IH]; [done|]. simpl. destruct (p c); simpl; lia. Qed.
Lemma until_nul_ascii7 s : forallb ascii7 s -> until_nul s = s.
Proof.
  induction s as [|c s IH]; [done|]. simpl. intros [Hc Hs]%andb_True. unfold ascii7 in Hc. apply andb_True in Hc as [_ Hc].
  unfold ceqb in Hc. case_bool_decide; [done|]. by rewrite IH.
Qed.

Definition good_pair (kv : bytes * bytes) : Prop := kv.1 <> [] /\ forallb ascii7 kv.1 /\ forallb ascii7 kv.2.
#[local] Arguments urlDecode : simpl never.
#[local] Arguments urlEncode : simpl never.

Lemma cspn_encoded l e rest : l ⊆ [EQUAL; AMP; SEMI; GREATER; QMARK] -> forallb encoded e -> match rest with [] => True | c :: _ => c ∈ l end -> cspn l (e ++ rest) = (e, rest).
Proof.
  intros Hl He Hr. apply span_app.
  - induction e as [|c e IH]; [done|]. simpl in *. apply andb_True in He as [Hc He]. rewrite (encoded_not l c Hl Hc). by apply IH.
  - destruct rest as [|c rest]; [done|]. unfold one_of. by rewrite bool_decide_eq_true_2.
Qed.
(** The rest of the text after a pair. *)
Definition after_pair (rest : bytes) : Prop := match rest with [] => True | c :: _ => c = AMP end.
Definition param_char (c : ascii) : bool := encoded c || one_of [EQUAL; AMP] c.
Lemma encoded_param e : forallb encoded e -> forallb param_char e.
Proof. induction e as [|c e IH]; [done|]. simpl. rewrite !andb_True. intros [Hc He]. split; [|by apply IH]. unfold param_char. by destruct (encoded c). Qed.

Lemma pair_spec kv : good_pair kv -> exists t, t <> [] /\ forallb param_char t /\
  (forall result l, encode_pairs result (kv :: l) = encode_pairs (match result with [] => [] | _ => result ++ [AMP] end ++ t) l) /\
  (forall fuel rest m, after_pair rest -> parse_params (S fuel) (t ++ rest) m = parse_params fuel rest (<[kv.1 := kv.2]> m)).
Proof.
  destruct kv as [k v]. intros (Hk & Hka & Hva). simpl in *. destruct (urlEncode_spec k Hka) as (ek & Hek & Enk & Hne & Hdk). specialize (Hne Hk).
  destruct (urlEncode_spec v Hva) as (ev & Hev & Env & _ & Hdv).
  assert (Hstart : forall rest, (spn (one_of [SEMI; AMP]) (ek ++ rest)).2 = ek ++ rest).
  { destruct ek as [|c ek]; [done|]. intros rest. simpl in Enk. apply andb_True in Enk as [Hc _]. unfold spn. simpl. rewrite (encoded_not [SEMI; AMP] c); [done|set_solver|done]. }
  set (t := ek ++ match v with [] => [] | _ => EQUAL :: ev end). exists t. split_and!.
  - subst t. by destruct ek.
  - subst t. rewrite forallb_app, andb_True. split; [by apply encoded_param|]. destruct v; [done|]. simpl. by apply encoded_param.
  - intros result l. cbn [encode_pairs]. rewrite !until_nul_ascii7, Hek, Hev by done. unfold obind. subst t. by destruct v.
  - intros fuel rest m Hrest. subst t. cbn [parse_params]. rewrite <- app_assoc, Hstart.
    set (str1 := ek ++ _ ++ rest). assert (Hs1 : exists c1 r1, str1 = c1 :: r1) by (subst str1; destruct ek; [done|]; by eexists _, _).
    assert (Hc : cspn [EQUAL; AMP; SEMI] str1 = (ek, match v with [] => [] | _ => EQUAL :: ev end ++ rest)).
    { apply cspn_encoded; [set_solver|done|]. destruct v; [|set_solver]. destruct rest; [done|]. simpl in *. subst. set_solver. }
    destruct str1 as [|c1 r1] eqn:E; [by destruct Hs1 as (? & ? & ?)|]. rewrite <- E in *. rewrite Hc, (bool_decide_eq_false_2 (ek = [])) by done. subst str1. rewrite Hdk. destruct v as [|c v].
    + destruct rest as [|c rest]; [done|]. simpl in Hrest. by subst c.
    + cbn [starts app]. change (ceqb EQUAL EQUAL) with true. cbn iota. change (drop 1 (EQUAL :: ev ++ rest)) with (ev ++ rest).
      rewrite (cspn_encoded [AMP; SEMI] ev rest); [|set_solver|done|destruct rest; [done|]; simpl in Hrest; subst; set_solver]. by rewrite Hdv.
Qed.

Definition put_all (l : list (bytes * bytes)) (m : Params) : Params := fold_left (fun m kv => <[kv.1 := kv.2]> m) l m.
Lemma pairs_spec l : Forall good_pair l -> forall result, result <> [] ->
  exists t, encode_pairs result l = Done (result ++ t) /\ after_pair t /\ forallb param_char t /\ (length l <= length t)%nat /\
    forall fuel m, (length l < fuel)%nat -> parse_params fuel t m = (put_all l m, true).
Proof.
  induction 1 as [|kv l Hkv _ IH]; intros result Hr.
  - exists []. split_and!; try done; [by rewrite app_nil_r|]. by intros [|fuel] m Hf; [simpl in Hf; lia|].
  - destruct (pair_spec kv Hkv) as (t & Ht & Hpc & Henc & Hparse). rewrite Henc.
    destruct result as [|r0 result]; [done|]. set (res := r0 :: result) in *. destruct (IH ((res ++ [AMP]) ++ t)) as (t' & -> & Ha & Hpc' & Hlen & Hp'); [by destruct res|].
    exists (AMP :: t ++ t'). split_and!; [by rewrite <- !app_assoc|done| | |].
    + simpl. rewrite forallb_app. by rewrite andb_True.
    + simpl. rewrite length_app. lia.
    + intros [|fuel] m Hf; [lia|]. change (parse_params (S fuel) (AMP :: t ++ t') m) with (parse_params (S fuel) (t ++ t') m).
      rewrite Hparse by done. rewrite Hp'; [done|]. simpl in Hf. lia.
Qed.
Lemma put_all_spec l m : NoDup l.*1 -> put_all l m = list_to_map l ∪ m.
Proof.
  revert m. induction l as [|[k v] l IH]; intros m Hn; [symmetry; apply (left_id_L ∅ (∪))|]. apply NoDup_cons in Hn as [Hk Hn].
  cbn [put_all fold_left fst snd]. fold (put_all l (<[k := v]> m)). rewrite IH by done. cbn [list_to_map foldr]. simpl.
  rewrite <- insert_union_r, insert_union_l; [done|]. by apply not_elem_of_list_to_map_1.
Qed.
Lemma in_order_spec params : NoDup (in_order params).*1 /\ list_to_map (in_order params) = params.
Proof.
  assert (Hp : in_order params ≡ₚ map_to_list params) by apply merge_sort_Permutation.
  assert (Hn : NoDup (in_order params).*1) by (rewrite Hp; apply NoDup_fst_map_to_list). split; [done|].
  rewrite (list_to_map_proper _ _ Hn Hp). apply list_to_map_to_list.
Qed.
Definition good_params (params : Params) : Prop := map_Forall (fun k v => good_pair (k, v)) params.
Lemma params_spec params : good_params params -> params <> ∅ ->
  exists t, urlEncodeParams params = Done t /\ forallb param_char t /\ parseUrlEncodedParams t ∅ = (params, true).
Proof.
  intros Hg Hne. destruct (in_order_spec params) as [Hn Hl]. unfold urlEncodeParams.
  assert (Hall : Forall good_pair (in_order params)).
  { assert (Hp : in_order params ≡ₚ map_to_list params) by apply merge_sort_Permutation. rewrite Hp. apply Forall_forall.
    intros [k v] Hin%elem_of_map_to_list. by apply Hg. }
  destruct (in_order params) as [|kv l] eqn:E; [by rewrite <- Hl in Hne|]. apply Forall_cons in Hall as [Hkv Hall].
  destruct (pair_spec kv Hkv) as (t & Ht & Hpc & Henc & Hparse). rewrite Henc. cbn [app].
  destruct (pairs_spec l Hall t Ht) as (t' & -> & Ha & Hpc' & Hlen & Hp'). exists (t ++ t'). split_and!; [done|by rewrite forallb_app, andb_True|].
  unfold parseUrlEncodedParams. rewrite Hparse by done. rewrite Hp'.
  - change (put_all l (<[kv.1 := kv.2]> ∅)) with (put_all (kv :: l) ∅). rewrite put_all_spec by done. by rewrite Hl, (right_id_L ∅ (∪)).
  - rewrite length_app. destruct t; [done|]. simpl. lia.
Qed.

(** ** Addresses are read back *)

(** A host without the characters of the syntax; colons are allowed, they get brackets. *)
Definition good_host (host : bytes) : bool := forallb (fun c => negb (one_of [QMARK; GREATER; LBRACKET; RBRACKET] c)) host.
Definition good_sinful (s : Sinful) : Prop := good_host (m_host s) /\ forallb isdigit (m_port s) /\ good_params (m_params s).

Lemma forallb_weaken {A} (p q : A -> bool) l : (forall x, p x -> q x) -> forallb p l -> forallb q l.
Proof. intros Hpq. induction l as [|x l IH]; [done|]. simpl. rewrite !andb_True. intros [Hx Hl]. auto. Qed.
(** What follows the host. *)
Definition after_host (rest : bytes) : Prop := match rest with [] => False | c :: _ => c ∈ [COLON; QMARK; GREATER] end.
Lemma split_host_spec host rest : good_host host -> after_host rest ->
  split_host ((if has_colon host then [LBRACKET] ++ host ++ [RBRACKET] else host) ++ rest) = Some (host, rest).
Proof.
  intros Hh Hr. unfold split_host. destruct (has_colon host) eqn:Hc.
  - cbn [app starts]. change (ceqb LBRACKET LBRACKET) with true. cbn iota. change (drop 1 (LBRACKET :: (host ++ [RBRACKET]) ++ rest)) with ((host ++ [RBRACKET]) ++ rest).
    rewrite <- app_assoc. unfold cspn. rewrite span_app; [done| |done].
    eapply forallb_weaken; [|exact Hh]. intros c Hc1. destruct (one_of [RBRACKET] c) eqn:E; [|done]. apply bool_decide_eq_true in E. set_unfold in E. destruct_or!; by subst.
  - assert (Hs : starts LBRACKET (host ++ rest) = false).
    { destruct host as [|c host]; simpl.
      - destruct rest as [|c rest]; [done|]. simpl in Hr |- *. set_unfold in Hr. destruct_or!; by subst.
      - unfold good_host in Hh. simpl in Hh. apply andb_True in Hh as [Hh _]. apply bool_decide_eq_false. by intros ->. }
    rewrite Hs. f_equal. apply span_app.
    + unfold has_colon in Hc. assert (Hn : forallb (fun c => negb (ceqb COLON c)) host) by (clear -Hc; induction host as [|c l IH]; [done|]; simpl in *; apply orb_false_iff in Hc as [-> Hc]; by apply IH).
      clear Hc Hs. unfold good_host in Hh. induction host as [|c host IH]; [done|]. simpl in *. rewrite !andb_True in *. destruct Hh as [H1 Hh], Hn as [H2 Hn]. split; [|by apply IH].
      destruct (one_of [COLON; QMARK; GREATER] c) eqn:E; [|done]. apply bool_decide_eq_true in E. set_unfold in E. destruct_or!; by subst.
    + destruct rest as [|c rest]; [done|]. simpl in Hr. unfold one_of. by rewrite bool_decide_eq_true_2.
Qed.
Lemma split_sin_spec host port params : good_host host -> forallb isdigit port ->
  match params with None => True | Some t => Is_true (forallb param_char t) end ->
  split_sin ([LESS] ++ (if has_colon host then [LBRACKET] ++ host ++ [RBRACKET] else host) ++
    (match port with [] => [] | p => COLON :: p end) ++ match params with None => [] | Some t => QMARK :: t end ++ [GREATER]) =
  Some (host, match port with [] => None | p => Some p end, params).
Proof.
  intros Hh Hp Ht. set (tail := match params with None => [] | Some t => QMARK :: t end ++ [GREATER]).
  set (rest := match port with [] => [] | p => COLON :: p end ++ tail).
  assert (Htail : exists c r, tail = c :: r /\ (c = QMARK \/ c = GREATER)) by (subst tail; destruct params; eexists _, _; (split; [done|]); auto).
  destruct Htail as (c & r & Ec & Hc).
  assert (Hrest : after_host rest) by (subst rest; destruct port; simpl; [rewrite Ec; destruct Hc as [-> | ->]; set_solver|set_solver]).
  pose proof (split_host_spec host rest Hh Hrest) as Hsplit. set (ht := if has_colon host then _ else host) in *. clearbody ht.
  change (split_sin (LESS :: ht ++ rest) = Some (host, match port with [] => None | p => Some p end, params)).
  unfold split_sin. cbn [starts]. change (ceqb LESS LESS) with true. cbn [negb]. change (drop 1 (LESS :: ht ++ rest)) with (ht ++ rest). rewrite Hsplit. clear Hsplit Hrest.
  assert (Hport : (if starts COLON rest then let '(p, r) := spn isdigit (drop 1 rest) in (Some p, r) else (None, rest)) = (match port with [] => None | p => Some p end, tail)).
  { subst rest. destruct port as [|d port].
    - cbn [app]. rewrite Ec. by destruct Hc as [-> | ->].
    - assert (Hd : match tail with [] => True | c :: _ => isdigit c = false end) by (rewrite Ec; by destruct Hc as [-> | ->]).
      change ((let '(p, r) := spn isdigit ((d :: port) ++ tail) in (Some p, r)) = (Some (d :: port), tail)).
      unfold spn. by rewrite (span_app isdigit (d :: port) tail Hp Hd). }
  rewrite Hport. assert (Hpar : (if starts QMARK tail then let '(p, r) := cspn [GREATER] (drop 1 tail) in (Some p, r) else (None, tail)) = (params, [GREATER])).
  { subst tail. destruct params as [t|]; [|done]. cbn [app starts]. change (ceqb QMARK QMARK) with true. cbn iota. change (drop 1 (QMARK :: t ++ [GREATER])) with (t ++ [GREATER]).
    unfold cspn. rewrite span_app; [done| |done]. eapply forallb_weaken; [|exact Ht]. intros x Hx. destruct (one_of [GREATER] x) eqn:E; [|done].
    apply bool_decide_eq_true in E. set_unfold in E. destruct_or!; by subst. }
  by rewrite Hpar.
Qed.

(** C28 (roundtrip): the string generated for an address is parsed back as the same address, when its
    host holds none of ? > [ ], its port consists of digits and its parameters have keys that are not
    empty: a host with colons gets brackets, and the keys and values of the parameters may contain any
    character of ASCII but NUL, those of the syntax included. *)
Theorem sinful_roundtrip s : good_sinful s ->
  exists str, regenerateSinful s = Done (s <| m_sinful := str |>) /\
    new_Sinful (Some str) = mkSinful str (m_host s) (m_port s) (m_params s) true.
Proof.
  intros (Hh & Hp & Hg). unfold regenerateSinful.
  assert (Hpar : exists params, (if bool_decide (m_params s = ∅) then Done [] else let! e := urlEncodeParams (m_params s) in Done (QMARK :: e))%outcome
      = Done (match params with None => [] | Some t => QMARK :: t end) /\ match params with None => True | Some t => Is_true (forallb param_char t) end /\
      match params with None => (∅, true) | Some p => parseUrlEncodedParams p ∅ end = (m_params s, true)).
  { case_bool_decide as E; [exists None; by rewrite E|]. destruct (params_spec _ Hg E) as (t & -> & Hc & Hparse). by exists (Some t). }
  destruct Hpar as (params & -> & Hc & Hparse). cbn [obind]. eexists. split; [done|]. unfold new_Sinful.
  match goal with |- context [starts LESS ?x] => change (starts LESS x) with true end. cbn iota. unfold from_parts.
  pose proof (split_sin_spec (m_host s) (m_port s) params Hh Hp Hc) as Hsplit. destruct (m_port s); by rewrite Hsplit, Hparse.
Qed.

(** ** Private addresses inside each other *)

Lemma parse_params_length n fuel str m : (length str <= n)%nat -> map_Forall (fun _ v => (length v <= n)%nat) m ->
  map_Forall (fun _ v => (length v <= n)%nat) (parse_params fuel str m).1.
Proof.
  revert str m. induction fuel as [|fuel IH]; intros str m Hs Hm; [done|]. cbn [parse_params].
  pose proof (span_length (one_of [SEMI; AMP]) str) as Hl. unfold spn. destruct (span (one_of [SEMI; AMP]) str).2 as [|c1 r1] eqn:E1; [done|].
  pose proof (span_length (fun c => negb (one_of [EQUAL; AMP; SEMI] c)) (c1 :: r1)) as Hl2. unfold cspn at 1.
  destruct (span (fun c => negb (one_of [EQUAL; AMP; SEMI] c)) (c1 :: r1)) as [k str2] eqn:E2. cbn [fst snd] in Hl2.
  destruct (bool_decide (k = [])); [done|]. destruct (urlDecode (c1 :: r1) _) as [key|]; [|done]. destruct (starts EQUAL str2).
  - pose proof (span_length (fun c => negb (one_of [AMP; SEMI] c)) (drop 1 str2)) as Hl3. unfold cspn.
    destruct (span (fun c => negb (one_of [AMP; SEMI] c)) (drop 1 str2)) as [v str4]. cbn [fst snd] in Hl3. rewrite length_drop in Hl3.
    destruct (urlDecode (drop 1 str2) _) as [value|] eqn:E3; [|done]. apply urlDecode_length in E3. rewrite length_drop in E3.
    apply IH; [lia|]. apply map_Forall_insert_2; [lia|done].
  - apply IH; [lia|]. apply map_Forall_insert_2; [simpl; lia|done].
Qed.
Lemma starts_length c s : starts c s = true -> (length (drop 1 s) < length s)%nat.
Proof. destruct s; [done|]. intros _. rewrite length_drop. simpl. lia. Qed.
Lemma split_sin_length s host port params : split_sin s = Some (host, port, Some params) -> (length params + 3 <= length s)%nat.
Proof.
  unfold split_sin. destruct (starts LESS s) eqn:Hs; [|done]. apply starts_length in Hs. cbn [negb]. destruct (split_host (drop 1 s)) as [[h a1]|] eqn:Hh; [|done].
  assert (H1 : (length a1 <= length (drop 1 s))%nat).
  { revert Hh. unfold split_host. destruct (starts LBRACKET _).
    - pose proof (span_length (fun c => negb (one_of [RBRACKET] c)) (drop 1 (drop 1 s))) as Hl. unfold cspn. destruct (span _ _) as [x [|y rest]]; [done|]. cbn [fst snd length] in Hl. rewrite !length_drop in *. intros [= <- <-]. lia.
    - pose proof (span_length (fun c => negb (one_of [COLON; QMARK; GREATER] c)) (drop 1 s)) as Hl. unfold cspn. destruct (span _ _) as [x rest]. simpl in Hl. intros [= <- <-]. lia. }
  assert (H2 : forall port2 a2, (if starts COLON a1 then let '(p, r) := spn isdigit (drop 1 a1) in (Some p, r) else (None, a1)) = (port2, a2) -> (length a2 <= length a1)%nat).
  { intros port2 a2. destruct (starts COLON a1); [|by intros [= _ <-]]. pose proof (span_length isdigit (drop 1 a1)) as Hl. unfold spn. destruct (span _ _) as [x rest]. simpl in Hl.
    rewrite length_drop in Hl. intros [= _ <-]. lia. }
  destruct (if starts COLON a1 then _ else _) as [port2 a2]. specialize (H2 _ _ eq_refl).
  destruct (starts QMARK a2) eqn:Hq; [|case_bool_decide; congruence]. apply starts_length in Hq.
  pose proof (span_length (fun c => negb (one_of [GREATER] c)) (drop 1 a2)) as Hl. unfold cspn. destruct (span _ _) as [x rest]. simpl in Hl.
  case_bool_decide; [|done]. subst rest. intros [= _ _ ->]. simpl in Hl. lia.
Qed.
Lemma until_nul_length s : (length (until_nul s) <= length s)%nat.
Proof. induction s as [|c s IH]; simpl; [lia|]. case_bool_decide; simpl; lia. Qed.
Lemma private_shorter p q : getPrivateAddr (new_Sinful (Some p)) = Some q -> (length q < length p)%nat.
Proof.
  assert (Hparts : forall s, getPrivateAddr (from_parts s) = Some q -> (length q + 3 <= length s)%nat).
  { intros s. unfold from_parts, getPrivateAddr, getParam. destruct (split_sin s) as [[[host port] [params|]]|] eqn:Hs; [| |done]; [|done].
    apply split_sin_length in Hs. pose proof (parse_params_length (length params) (S (length params)) params ∅ (Nat.le_refl _) (map_Forall_empty _)) as Hl.
    unfold parseUrlEncodedParams. destruct (parse_params _ _ _) as [m ok]. simpl in Hl |- *. destruct (m !! _) as [v|] eqn:Hv; [|done]. simpl. intros [= <-].
    apply Hl in Hv. pose proof (until_nul_length v). lia. }
  unfold new_Sinful. destruct (starts LESS p); [intros Hq%Hparts; lia|]. destruct (_ && _); [done|]. intros Hq%Hparts. simpl in Hq. rewrite length_app in Hq. simpl in Hq. lia.
Qed.

(** The search of addressPointsToMe() through private addresses ends: an address is
    longer than the private address inside it, also when it has to be given its brackets first. *)
Theorem address_search_terminates s addr fuel :
  (match getPrivateAddr s with None => 0 | Some p => S (length p) end < fuel)%nat -> is_Some (addressPointsToMe fuel s addr).
Proof.
  revert s. induction fuel as [|fuel IH]; intros s Hf; [lia|]. cbn [addressPointsToMe]. destruct (same_endpoint s addr); [by eexists|].
  destruct (getPrivateAddr s) as [p|] eqn:Hp; [|by eexists]. apply IH. destruct (getPrivateAddr (new_Sinful (Some p))) as [q|] eqn:Hq; [|lia].
  apply private_shorter in Hq. lia.
Qed.

(** ** A concrete address *)

(** An address with a broker contact and a private address, both full of special characters. *)
Definition behind_firewall : Sinful :=
  mkSinful [] (s2b "2001:db8::1") (s2b "9618")
    {[ATTR_CCBID := s2b "128.105.1.1:9618?sock=ccb#12"; s2b "PrivAddr" := s2b "<10.0.0.1:9618?noUDP&PrivAddr=%3c127.0.0.1%3e>"; s2b "noUDP" := []]} true.
Lemma good_firewall : good_sinful behind_firewall.
Proof. split; [done|]. split; [done|]. apply map_Forall_to_list. vm_compute map_to_list. repeat constructor; done. Qed.
Lemma sinful_roundtrip_witness : exists str, regenerateSinful behind_firewall = Done (behind_firewall <| m_sinful := str |>) /\
  new_Sinful (Some str) = mkSinful str (s2b "2001:db8::1") (s2b "9618") (m_params behind_firewall) true.
Proof. exact (sinful_roundtrip behind_firewall good_firewall). Defined.
Lemma address_search_terminates_witness : is_Some (addressPointsToMe 50 behind_firewall behind_firewall).
Proof. apply (address_search_terminates behind_firewall behind_firewall 50). vm_compute. lia. Defined.
