(* ===== verification/CondorList.v ===== *)
(** The list template of condor_utils/list.h, and what it promises.

    [List<ObjType>] is a circular doubly linked list through a dummy item, with one scan pointer kept
    in the list itself.  The first half of the file translates the pointer operations; the second is
    the sequence with a cursor that they implement, and the theorem that they do. *)

From S2P Require Import Prelude.

Open Scope Z_scope.

(** ** The items in memory *)

Module LinkedList.
Section linked.
Context {A : Type}.

(** class Item; [obj] is NULL in the dummy. *)
Record Item := mkItem { next : Z; prev : Z; obj : option A }.
(** class List *)
Record List := mkList { dummy : Z; current : Z; num_elem : Z }.
(** The items by their addresses. *)
Abbreviation heap := (gmap Z Item).

Definition set_next (k v : Z) (h : heap) : option heap :=
  it ← h !! k; Some (<[k := mkItem v (prev it) (obj it)]> h).
Definition set_prev (k v : Z) (h : heap) : option heap :=
  it ← h !! k; Some (<[k := mkItem (next it) v (obj it)]> h).

(** The constructor; [d] is the address of the new dummy. *)
Definition new_List (h : heap) (d : Z) : heap * List := (<[d := mkItem d d None]> h, mkList d d 0).

Definition List_Number (l : List) : Z := num_elem l.
Definition List_IsEmpty (h : heap) (l : List) : option bool :=
  it ← h !! dummy l; Some (bool_decide (next it = dummy l)).

(** The four assignments of Append() and Insert(): the new item [a] comes before [x]. *)
Definition link_before (h : heap) (x a : Z) (o : A) : option heap :=
  let h := <[a := mkItem a a (Some o)]> h in
  it ← h !! x;
  h ← set_next (prev it) a h;
  h ← set_prev a (prev it) h;
  h ← set_prev x a h;
  set_next a x h.
Definition List_Append (h : heap) (l : List) (a : Z) (o : A) : option (heap * List) :=
  h ← link_before h (dummy l) a o; Some (h, mkList (dummy l) a (num_elem l + 1)).
Definition List_Insert (h : heap) (l : List) (a : Z) (o : A) : option (heap * List) :=
  h ← link_before h (current l) a o; Some (h, mkList (dummy l) (current l) (num_elem l + 1)).

Definition List_Rewind (l : List) : List := mkList (dummy l) (dummy l) (num_elem l).
Definition List_AtEnd (h : heap) (l : List) : option bool :=
  it ← h !! current l; Some (bool_decide (next it = dummy l)).
(** Next(), which returns the object or NULL. *)
Definition List_Next (h : heap) (l : List) : option (List * option A) :=
  b ← List_AtEnd h l;
  if b : bool then Some (l, None)
  else it ← h !! current l;
       it' ← h !! next it;
       Some (mkList (dummy l) (next it) (num_elem l), obj it').
Definition List_Current (h : heap) (l : List) : option (option A) :=
  b ← List_IsEmpty h l;
  if b : bool then Some None else it ← h !! current l; Some (obj it).
Definition List_Head (h : heap) (l : List) : option (option A) :=
  b ← List_IsEmpty h l;
  if b : bool then Some None else it ← h !! dummy l; it' ← h !! next it; Some (obj it').
Definition List_InsertHead (h : heap) (l : List) (a : Z) (o : A) : option (heap * List) :=
  '(l, _) ← List_Next h (List_Rewind l); List_Insert h l a o.

Definition List_RemoveItem (h : heap) (l : List) (x : Z) : option (heap * List) :=
  if bool_decide (x = dummy l) then None (* assert( item != dummy ) *)
  else it ← h !! x;
       h ← set_next (prev it) (next it) h;
       h ← set_prev (next it) (prev it) h;
       Some (delete x h, mkList (dummy l) (current l) (num_elem l - 1)).
Definition List_DeleteCurrent (h : heap) (l : List) : option (heap * List) :=
  if bool_decide (current l = dummy l) then None (* assert( current != dummy ) *)
  else it ← h !! current l;
       it' ← h !! prev it;
       List_RemoveItem h (mkList (dummy l) (prev it) (num_elem l)) (next it').

End linked.
Arguments Item : clear implicits.
End LinkedList.

(** ** The sequence with a cursor *)

Section cursor.
Context {A : Type}.

(** [pos] is the number of items up to and including the one the scan pointer is at, 0 when the scan
    is rewound. *)
Record Seq := mkSeq { items : list A; pos : nat }.

Definition new_Seq : Seq := mkSeq [] 0.
Definition seq_Number (s : Seq) : Z := Z.of_nat (length (items s)).
Definition seq_IsEmpty (s : Seq) : bool := bool_decide (items s = []).
Definition seq_Append (s : Seq) (o : A) : Seq := mkSeq (items s ++ [o]) (S (length (items s))).
(** Before the current item; at the end when the scan is rewound. *)
Definition seq_Insert (s : Seq) (o : A) : Seq :=
  match pos s with
  | O => mkSeq (items s ++ [o]) 0
  | S k => mkSeq (take k (items s) ++ o :: drop k (items s)) (S (S k))
  end.
Definition seq_Rewind (s : Seq) : Seq := mkSeq (items s) 0.
Definition seq_AtEnd (s : Seq) : bool := bool_decide (pos s = length (items s)).
Definition seq_Next (s : Seq) : Seq * option A :=
  if seq_AtEnd s then (s, None) else (mkSeq (items s) (S (pos s)), items s !! pos s).
Definition seq_Current (s : Seq) : option A := match pos s with O => None | S k => items s !! k end.
Definition seq_Head (s : Seq) : option A := head (items s).
Definition seq_InsertHead (s : Seq) (o : A) : Seq := seq_Insert (seq_Next (seq_Rewind s)).1 o.
Definition seq_DeleteCurrent (s : Seq) : option Seq :=
  match pos s with O => None | S k => Some (mkSeq (take k (items s) ++ drop (S k) (items s)) k) end.

Definition in_range (s : Seq) : Prop := (pos s <= length (items s))%nat.

End cursor.
Arguments Seq : clear implicits.

(** ** The pointers implement the sequence *)

Section refinement.
Context {A : Type}.
Import LinkedList.
Implicit Types (h : gmap Z (Item A)) (l : List) (a b d x : Z) (s : Seq A).

Definition nextof h a : option Z := next <$> h !! a.
Definition prevof h a : option Z := prev <$> h !! a.
Definition objof h a : option (option A) := obj <$> h !! a.

(** The items [r] are linked in their order between [a] and [b]. *)
Fixpoint chain h a (r : list Z) b : Prop :=
  match r with
  | [] => nextof h a = Some b /\ prevof h b = Some a
  | x :: r' => nextof h a = Some x /\ prevof h x = Some a /\ chain h x r' b
  end.

(** The list [l] in the memory [h] holds the sequence [s]. *)
Definition represents h l s : Prop :=
  exists r, NoDup (dummy l :: r) /\ chain h (dummy l) r (dummy l) /\
    mapM (objof h) r = Some (Some <$> items s) /\ objof h (dummy l) = Some None /\
    (dummy l :: r) !! pos s = Some (current l) /\ num_elem l = Z.of_nat (length (items s)).

Lemma chain_app h a r1 x r2 b : chain h a (r1 ++ x :: r2) b <-> chain h a r1 x /\ chain h x r2 b.
Proof. revert a. induction r1 as [|y r1 IH]; intros a; cbn; [tauto|]. rewrite IH. tauto. Qed.

Lemma chain_frame h h' a r b :
  (forall y, y ∈ a :: r -> nextof h' y = nextof h y) ->
  (forall y, y ∈ r ++ [b] -> prevof h' y = prevof h y) -> chain h a r b -> chain h' a r b.
Proof.
  revert a. induction r as [|x r IH]; intros a Hn Hp; cbn.
  - rewrite Hn, Hp by set_solver. done.
  - intros (? & ? & ?). rewrite Hn, Hp by set_solver. split_and!; try done.
    apply IH; try done; intros y Hy; [apply Hn|apply Hp]; set_solver.
Qed.

(** The first item of [r], or [b]; the last one, or [a]. *)
Definition first_of (r : list Z) b : Z := match r with [] => b | x :: _ => x end.

Lemma chain_ends h a r1 r2 b :
  chain h a (r1 ++ r2) b -> chain h a r1 (first_of r2 b) /\
  match r2 with [] => True | x :: r2' => chain h x r2' b end.
Proof. destruct r2 as [|x r2]; cbn; [rewrite app_nil_r; done|]. apply chain_app. Qed.

Fixpoint last_of a (r : list Z) : Z := match r with [] => a | x :: r' => last_of x r' end.

Lemma chain_last h a r b : chain h a r b -> prevof h b = Some (last_of a r) /\ nextof h (last_of a r) = Some b.
Proof.
  revert a. induction r as [|x r IH]; intros a; cbn [chain]; [intros [??]; done|].
  intros (_ & _ & H). exact (IH _ H).
Qed.
Lemma chain_set_last h a r b c :
  chain h a r b -> NoDup (a :: r) -> forall h',
  nextof h' (last_of a r) = Some c -> prevof h' c = Some (last_of a r) ->
  (forall y, y ∈ a :: r -> y <> last_of a r -> nextof h' y = nextof h y) ->
  (forall y, y ∈ r -> prevof h' y = prevof h y) -> chain h' a r c.
Proof.
  revert a. induction r as [|x r IH]; intros a Hc Hnd h' Hn Hp Fn Fp; cbn in *; [done|].
  destruct Hc as (? & ? & Hc). apply NoDup_cons in Hnd as [Ha Hnd].
  assert (a <> last_of x r). { intros ->. apply Ha. clear. revert x. induction r as [|y r IH]; intros x; cbn; set_solver. }
  split_and!; [by rewrite Fn by set_solver|by rewrite Fp by set_solver|].
  apply IH; try done; [intros y ??; apply Fn; set_solver|intros y ?; apply Fp; set_solver].
Qed.

(** Reading a memory after assignments to some of its items. *)
Local Ltac cells :=
  repeat case_decide; subst;
  repeat first [rewrite lookup_insert_eq | rewrite lookup_insert_ne by congruence
    | match goal with |- context [<[?k := _]> _ !! ?y] => destruct (decide (k = y)); subst end];
  repeat match goal with H : ?h !! _ = Some _ |- _ => rewrite H end; cbn; congruence.

(** What the assignments of Append() and Insert(), and those of RemoveItem(), do to the links. *)
Lemma link_before_links h p x a (o : A) :
  nextof h p = Some x -> prevof h x = Some p -> h !! a = None ->
  exists h', link_before h x a o = Some h' /\
    (forall y, nextof h' y = if decide (y = a) then Some x else if decide (y = p) then Some a else nextof h y) /\
    (forall y, prevof h' y = if decide (y = a) then Some p else if decide (y = x) then Some a else prevof h y) /\
    (forall y, objof h' y = if decide (y = a) then Some (Some o) else objof h y).
Proof.
  unfold nextof, prevof, objof, link_before, set_next, set_prev. intros Hn Hp Ha.
  destruct (h !! p) as [ip|] eqn:Ep; [|done]. destruct (h !! x) as [ix|] eqn:Ex; [|done]. cbn in Hn, Hp. simplify_eq.
  assert (a <> next ip) by congruence. assert (a <> prev ix) by congruence.
  rewrite lookup_insert_ne, Ex by done. cbn. rewrite lookup_insert_ne, Ep by done. cbn.
  rewrite lookup_insert_ne, lookup_insert_eq by done. cbn.
  rewrite lookup_insert_ne by done.
  destruct (decide (prev ix = next ip)) as [E|E].
  - rewrite E in *. rewrite lookup_insert_eq. cbn. rewrite lookup_insert_ne, lookup_insert_eq by done. cbn.
    eexists; split; [done|]. rewrite Ep in Ex. simplify_eq.
    split_and!; intros y; cells.
  - rewrite lookup_insert_ne, lookup_insert_ne, Ex by done. cbn. rewrite lookup_insert_ne, lookup_insert_eq by done. cbn.
    eexists; split; [done|].
    split_and!; intros y; cells.
Qed.

Lemma RemoveItem_links h l p x n :
  prevof h x = Some p -> nextof h x = Some n -> is_Some (h !! p) -> is_Some (h !! n) -> x <> p -> x <> n -> x <> dummy l ->
  exists h', List_RemoveItem h l x = Some (h', mkList (dummy l) (current l) (num_elem l - 1)) /\
    (forall y, y <> x -> nextof h' y = if decide (y = p) then Some n else nextof h y) /\
    (forall y, y <> x -> prevof h' y = if decide (y = n) then Some p else prevof h y) /\
    (forall y, y <> x -> objof h' y = objof h y).
Proof.
  unfold nextof, prevof, objof, List_RemoveItem, set_next, set_prev. intros Hp Hn [ip Ep] [inx En] Hxp Hxn Hd.
  destruct (h !! x) as [ix|] eqn:Ex; [|done]. cbn in *. simplify_eq. rewrite bool_decide_eq_false_2 by done.
  rewrite Ep. cbn. destruct (decide (prev ix = next ix)) as [E|E].
  - rewrite E in *. rewrite lookup_insert_eq. cbn. eexists; split; [done|]. simplify_eq.
    split_and!; intros y Hy; rewrite lookup_delete_ne by done; cells.
  - rewrite lookup_insert_ne, En by done. cbn. eexists; split; [done|].
    split_and!; intros y Hy; rewrite lookup_delete_ne by done; cells.
Qed.

Lemma last_of_in a r : last_of a r ∈ a :: r.
Proof. revert a. induction r as [|x r IH]; intros a; cbn; [set_solver|]. specialize (IH x). set_solver. Qed.

Lemma chain_allocated h a r b y : chain h a r b -> y ∈ a :: r -> is_Some (h !! y).
Proof.
  revert a. induction r as [|x r IH]; intros a; cbn.
  - intros [Hn _] Hy. apply list_elem_of_singleton in Hy as ->. unfold nextof in Hn. destruct (h !! a); [by eexists|done].
  - intros (Hn & _ & Hc) Hy. apply elem_of_cons in Hy as [->|Hy]; [|by eapply IH].
    unfold nextof in Hn. destruct (h !! a); [by eexists|done].
Qed.

Lemma ring_insert h d r1 r2 a (o : A) :
  NoDup (d :: r1 ++ r2) -> chain h d (r1 ++ r2) d -> h !! a = None ->
  exists h', link_before h (first_of r2 d) a o = Some h' /\ chain h' d (r1 ++ a :: r2) d /\ (a ∉ (d :: r1 ++ r2)) /\
    (forall y, objof h' y = if decide (y = a) then Some (Some o) else objof h y).
Proof.
  intros Hnd Hc Ha.
  assert (Hna : a ∉ d :: r1 ++ r2). { intros Hin. destruct (chain_allocated _ _ _ _ _ Hc Hin). congruence. }
  destruct (chain_ends _ _ _ _ _ Hc) as [H1 H2]. destruct (chain_last _ _ _ _ H1) as [Hp Hn].
  destruct (link_before_links h _ _ a o Hn Hp Ha) as (h' & -> & Fn & Fp & Fo). exists h'. split_and!; try done.
  pose proof (last_of_in d r1) as Hl. apply NoDup_cons in Hnd as [Hd Hnd]. apply NoDup_app in Hnd as (Hn1 & Hdis & Hn2).
  assert (Hlx : forall y, y ∈ r2 -> y <> last_of d r1).
  { revert Hl. generalize (last_of d r1). clear -Hd Hdis. intros z Hl y Hy ->. set_solver. }
  assert (Hf : first_of r2 d ∉ r1). { clear -Hd Hdis. destruct r2; cbn; set_solver. }
  apply chain_app. split.
  - apply (chain_set_last _ _ _ _ a H1); [constructor; set_solver|..].
    + rewrite Fn. rewrite decide_False by set_solver. by rewrite decide_True.
    + rewrite Fp. by rewrite decide_True.
    + intros y Hy Hy'. rewrite Fn. rewrite !decide_False by set_solver. done.
    + intros y Hy. rewrite Fp. rewrite !decide_False; [done| |set_solver]. intros ->. by apply Hf.
  - destruct r2 as [|x r2]; cbn in *.
    + rewrite Fn, Fp, (decide_True (P := a = a)) by done. rewrite decide_False by set_solver. by rewrite decide_True.
    + rewrite Fn, Fp, (decide_True (P := a = a)) by done. rewrite decide_False by set_solver. rewrite decide_True by done.
      split_and!; try done. apply NoDup_cons in Hn2 as [? ?]. refine (chain_frame h h' _ _ _ _ _ H2).
      * intros y Hy. rewrite Fn. rewrite !decide_False; [done| |clear -Hy Hna; set_solver]. by apply Hlx.
      * intros y Hy. rewrite Fp. rewrite !decide_False; [done|clear -Hy H Hd; set_solver|clear -Hy Hna; set_solver].
Qed.

Lemma ring_remove h l r1 x r2 :
  NoDup (dummy l :: r1 ++ x :: r2) -> chain h (dummy l) (r1 ++ x :: r2) (dummy l) ->
  exists h', List_RemoveItem h l x = Some (h', mkList (dummy l) (current l) (num_elem l - 1)) /\
    chain h' (dummy l) (r1 ++ r2) (dummy l) /\ (forall y, y <> x -> objof h' y = objof h y).
Proof.
  set (d := dummy l). intros Hnd Hc. pose proof Hc as [H1 H2]%chain_app.
  destruct (chain_last _ _ _ _ H1) as [Hp Hn]. pose proof (last_of_in d r1) as Hl.
  apply NoDup_cons in Hnd as [Hd Hnd]. apply NoDup_app in Hnd as (Hn1 & Hdis & [Hx Hn2]%NoDup_cons).
  assert (Hf : (first_of r2 d ∉ r1) /\ x <> first_of r2 d). { clear -Hd Hdis Hx. destruct r2; cbn; set_solver. } destruct Hf as [Hf Hf'].
  assert (Hlx : forall y, y ∈ x :: r2 -> y <> last_of d r1).
  { revert Hl. generalize (last_of d r1). clear -Hd Hdis. intros z Hl y Hy ->. set_solver. }
  assert (Hxl : x <> last_of d r1) by (apply Hlx; left).
  assert (Hnx : nextof h x = Some (first_of r2 d)). { destruct r2; cbn in *; tauto. }
  destruct (RemoveItem_links h l (last_of d r1) x (first_of r2 d) Hp Hnx) as (h' & Hr & Fn & Fp & Fo).
  - eapply chain_allocated; [exact H1|done].
  - eapply chain_allocated; [exact Hc|]. destruct r2; cbn; set_solver.
  - done.
  - done.
  - clear -Hd. set_solver.
  - exists h'. split_and!; try done.
    assert (H1' : chain h' d r1 (first_of r2 d)).
    { apply (chain_set_last _ _ _ _ (first_of r2 d) H1); [constructor; set_solver|..].
      + rewrite Fn by congruence. by rewrite decide_True.
      + rewrite Fp by congruence. by rewrite decide_True.
      + intros y Hy Hy'. rewrite Fn by (clear -Hy Hd Hdis; set_solver). by rewrite decide_False.
      + intros y Hy. rewrite Fp by (clear -Hy Hdis; set_solver). rewrite decide_False; [done|]. intros ->. by apply Hf. }
    destruct r2 as [|z r2]; [by rewrite app_nil_r|]. apply chain_app. split; [done|].
    destruct H2 as (_ & _ & H2). refine (chain_frame h h' _ _ _ _ _ H2); intros y Hy.
    + rewrite Fn by (clear -Hy Hx; set_solver). rewrite decide_False; [done|]. apply Hlx. by right.
    + apply NoDup_cons in Hn2 as [? ?]. cbn in Fp. rewrite Fp by (clear -Hy Hx Hd; set_solver). rewrite decide_False; [done|]. clear -Hy H Hd. set_solver.
Qed.
End refinement.

Section operations.
Context {A : Type}.
Implicit Types (h : gmap Z (LinkedList.Item A)) (l : LinkedList.List) (a : Z) (o : A) (s : Seq A).

Lemma objs_length h r (xs : list A) : mapM (objof h) r = Some (Some <$> xs) -> length r = length xs.
Proof. intros H%length_mapM. by rewrite length_fmap in H. Qed.
Lemma objs_app h r1 r2 (xs : list A) :
  mapM (objof h) (r1 ++ r2) = Some (Some <$> xs) <->
  mapM (objof h) r1 = Some (Some <$> take (length r1) xs) /\ mapM (objof h) r2 = Some (Some <$> drop (length r1) xs).
Proof.
  rewrite !mapM_Some. split.
  - intros H. apply Forall2_app_inv_l in H as (k1 & k2 & H1 & H2 & E).
    apply fmap_app_inv in E as (x1 & x2 & -> & -> & ->).
    pose proof (Forall2_length _ _ _ H1) as L. rewrite length_fmap in L.
    rewrite take_app_length', drop_app_length' by done. done.
  - intros [H1 H2]. rewrite <- (take_drop (length r1) xs), fmap_app. by apply Forall2_app.
Qed.
Lemma objs_frame h h' r (xs : list A) :
  (forall y, y ∈ r -> objof h' y = objof h y) -> mapM (objof h) r = Some (Some <$> xs) -> mapM (objof h') r = Some (Some <$> xs).
Proof.
  rewrite !mapM_Some. revert xs. induction r as [|y r IH]; intros xs Hf H; [by inversion H|].
  apply Forall2_cons_inv_l in H as (z & zs & Hy & H & E). destruct xs as [|x xs]; [done|]. cbn in E. simplify_eq.
  cbn. constructor; [rewrite Hf by left; done|]. apply IH; [|done]. intros ??. apply Hf. by right.
Qed.

(** The place of the scan pointer: the items before it, the pointed one, and those after. *)
Lemma represents_at h l s :
  represents h l s -> (pos s = O /\ LinkedList.current l = LinkedList.dummy l) \/
  (exists r1 r2 x, pos s = S (length r1) /\ LinkedList.current l = x /\
     NoDup (LinkedList.dummy l :: r1 ++ x :: r2) /\ chain h (LinkedList.dummy l) (r1 ++ x :: r2) (LinkedList.dummy l) /\
     mapM (objof h) (r1 ++ x :: r2) = Some (Some <$> items s)).
Proof.
  intros (r & Hnd & Hc & Ho & Hd & Hp & Hn). destruct (pos s) as [|k] eqn:Ek; cbn in Hp; [left; split; congruence|right].
  exists (take k r), (drop (S k) r), (LinkedList.current l).
  pose proof (lookup_lt_Some _ _ _ Hp). rewrite length_take, Nat.min_l by lia.
  rewrite (take_drop_middle _ _ _ Hp). done.
Qed.

Lemma represents_in_range h l s : represents h l s -> in_range s.
Proof.
  intros (r & _ & _ & Ho & _ & Hp & _). apply objs_length in Ho. apply lookup_lt_Some in Hp. cbn in Hp. unfold in_range. lia.
Qed.

Lemma new_represents h d : h !! d = None -> represents (LinkedList.new_List h d).1 (LinkedList.new_List h d).2 (@new_Seq A).
Proof.
  intros Hd. exists []. cbn. unfold nextof, prevof, objof. rewrite lookup_insert_eq. cbn.
  split_and!; try done. apply NoDup_singleton.
Qed.

Lemma last_of_lookup d r : (d :: r) !! length r = Some (last_of d r).
Proof. revert d. induction r as [|x r IH]; intros d; [done|]. exact (IH x). Qed.

Lemma Append_refines h l s a o : represents h l s -> h !! a = None -> exists h' l', LinkedList.List_Append h l a o = Some (h', l') /\ represents h' l' (seq_Append s o).
Proof.
  intros (r & Hnd & Hc & Ho & Hd & Hp & Hn) Ha. pose proof (objs_length _ _ _ Ho) as Hl.
  destruct (ring_insert h (LinkedList.dummy l) r [] a o) as (h' & E & Hc' & Hna & Fo); [by rewrite app_nil_r..|done|].
  rewrite app_nil_r in Hna. cbn [first_of] in E. unfold LinkedList.List_Append. rewrite E. cbn. eexists _, _; split; [done|].
  exists (r ++ [a]). cbn. split_and!.
  - apply NoDup_cons. clear -Hnd Hna. rewrite NoDup_cons in Hnd. rewrite NoDup_app. split; [set_solver|]. split_and!; [tauto|set_solver|apply NoDup_singleton].
  - done.
  - apply objs_app. rewrite Hl, take_app_length, drop_app_length. split; [eapply objs_frame; [|done]|].
    + intros y Hy. rewrite Fo, decide_False; [done|clear -Hna Hy; set_solver].
    + cbn. rewrite Fo, decide_True by done. done.
  - rewrite Fo, decide_False by (clear -Hna; set_solver). done.
  - rewrite <- Hl. change ((r ++ [a]) !! length r = Some a). rewrite lookup_app_r by lia. by rewrite Nat.sub_diag.
  - rewrite length_app. cbn. lia.
Qed.

Lemma Insert_refines h l s a o : represents h l s -> h !! a = None -> exists h' l', LinkedList.List_Insert h l a o = Some (h', l') /\ represents h' l' (seq_Insert s o).
Proof.
  intros HR Ha. pose proof HR as (r & Hnd & Hc & Ho & Hd & Hp & Hn). pose proof (objs_length _ _ _ Ho) as Hl.
  destruct (represents_at _ _ _ HR) as [[Hz Hcur]|(r1 & r2 & x & Hk & Hcur & Hnd' & Hc' & Ho')].
  - destruct (Append_refines h l s a o HR Ha) as (h' & l' & E & HR').
    unfold LinkedList.List_Append in E. unfold LinkedList.List_Insert. rewrite Hcur. destruct (LinkedList.link_before _ _ _ _); [|done].
    cbn in *. simplify_eq. eexists _, _; split; [done|]. unfold seq_Insert. rewrite Hz.
    destruct HR' as (r' & ? & ? & ? & ? & ? & ?). exists r'. cbn in *. split_and!; try done. 
  - destruct (ring_insert h (LinkedList.dummy l) r1 (x :: r2) a o Hnd' Hc' Ha) as (h' & E & Hc'' & Hna & Fo).
    cbn [first_of] in E. unfold LinkedList.List_Insert. rewrite Hcur, E. cbn. eexists _, _; split; [done|].
    apply objs_app in Ho' as [Ho1 Ho2].
    exists (r1 ++ a :: x :: r2). unfold seq_Insert. rewrite Hk. cbn. split_and!.
    + rewrite NoDup_cons, NoDup_app in Hnd'. rewrite NoDup_cons, NoDup_app, (NoDup_cons a). clear -Hnd' Hna. set_solver.
    + done.
    + apply objs_app. pose proof (objs_length _ _ _ Ho1) as L1. rewrite length_take in L1.
      rewrite take_app_length', drop_app_length' by (rewrite length_take; lia). split.
      * eapply objs_frame; [|done]. intros y Hy. rewrite Fo, decide_False; [done|clear -Hna Hy; set_solver].
      * change (a :: x :: r2) with ([a] ++ x :: r2). apply objs_app. cbn [length take drop]. split.
        -- cbn. rewrite Fo, decide_True by done. done.
        -- eapply objs_frame; [|exact Ho2]. intros y Hy. rewrite Fo, decide_False; [done|clear -Hna Hy; set_solver].
    + rewrite Fo, decide_False by (clear -Hna; set_solver). done.
    + change ((r1 ++ a :: x :: r2) !! S (length r1) = Some x). rewrite lookup_app_r by lia. by replace (S (length r1) - length r1)%nat with 1%nat by lia.
    + rewrite length_app, length_take. cbn. rewrite length_drop. apply objs_length in Ho1. rewrite length_take in Ho1. lia.
Qed.

Lemma Rewind_refines h l s : represents h l s -> represents h (LinkedList.List_Rewind l) (seq_Rewind s).
Proof. intros (r & ? & ? & ? & ? & ? & ?). exists r. done. Qed.

Lemma chain_next h d r1 x r2 : chain h d (r1 ++ x :: r2) d -> nextof h x = Some (first_of r2 d).
Proof. intros [_ H]%chain_app. destruct r2; cbn in *; tauto. Qed.

(** The item after the scan pointer. *)
Lemma represents_next h l s :
  represents h l s -> exists n, nextof h (LinkedList.current l) = Some n /\
    match items s !! pos s with
    | None => n = LinkedList.dummy l
    | Some o => n <> LinkedList.dummy l /\ objof h n = Some (Some o) /\
        represents h (LinkedList.mkList (LinkedList.dummy l) n (LinkedList.num_elem l)) (mkSeq (items s) (S (pos s)))
    end.
Proof.
  intros HR. pose proof HR as (r & Hnd & Hc & Ho & Hd & Hp & Hn). pose proof (objs_length _ _ _ Ho) as Hl.
  assert (E : exists n, nextof h (LinkedList.current l) = Some n /\ n = first_of (drop (pos s) r) (LinkedList.dummy l)).
  { destruct (pos s) as [|k] eqn:Ek; cbn in Hp.
    - injection Hp as <-. rewrite drop_0. destruct r; cbn in *; destruct Hc as [? ?]; eauto.
    - rewrite <- (take_drop_middle _ _ _ Hp) in Hc. eexists. split; [apply (chain_next _ _ _ _ _ Hc)|done]. }
  destruct E as (n & En & ->). eexists; split; [done|].
  apply mapM_Some in Ho as Ho'. destruct (items s !! pos s) as [o|] eqn:Eo.
  - pose proof (Forall2_lookup_r _ _ _ (pos s) (Some o) Ho') as (x & Hx & Hox); [by rewrite list_lookup_fmap, Eo|].
    rewrite (drop_S _ _ _ Hx). cbn. apply NoDup_cons in Hnd as [Hnin ?].
    split_and!; [intros ->; apply Hnin; by eapply list_elem_of_lookup_2|done|].
    exists r. cbn. split_and!; try done. by apply NoDup_cons.
  - apply lookup_ge_None in Eo. by rewrite drop_ge by lia.
Qed.

Lemma AtEnd_refines h l s : represents h l s -> LinkedList.List_AtEnd h l = Some (seq_AtEnd s).
Proof.
  intros HR. destruct (represents_next _ _ _ HR) as (n & En & H). pose proof (represents_in_range _ _ _ HR) as Hr.
  unfold LinkedList.List_AtEnd, nextof, seq_AtEnd in *. destruct (h !! LinkedList.current l) as [it|]; [|done]. cbn in *. simplify_eq.
  f_equal. apply bool_decide_ext. unfold in_range in Hr. destruct (items s !! pos s) as [o|] eqn:E.
  - apply lookup_lt_Some in E. split; [tauto|lia].
  - apply lookup_ge_None in E. split; [lia|done].
Qed.

Lemma Next_refines h l s : represents h l s -> exists l', LinkedList.List_Next h l = Some (l', (seq_Next s).2) /\ represents h l' (seq_Next s).1.
Proof.
  intros HR. pose proof (AtEnd_refines _ _ _ HR) as HE. destruct (represents_next _ _ _ HR) as (n & En & H).
  pose proof (represents_in_range _ _ _ HR) as Hr. unfold LinkedList.List_Next, seq_Next. rewrite HE. cbn.
  destruct (seq_AtEnd s) eqn:E; [eauto|]. unfold nextof in En. destruct (h !! LinkedList.current l) as [it|]; [|done].
  cbn in *. simplify_eq. unfold seq_AtEnd, in_range in *. apply bool_decide_eq_false in E.
  destruct (items s !! pos s) as [o|] eqn:Eo; [|apply lookup_ge_None in Eo; lia].
  destruct H as (Hne & Hob & HR'). unfold objof in Hob. destruct (h !! LinkedList.next it) as [it'|]; [|done].
  cbn in *. simplify_eq. rewrite Hob. eauto.
Qed.

Lemma InsertHead_refines h l s a o :
  represents h l s -> h !! a = None -> exists h' l', LinkedList.List_InsertHead h l a o = Some (h', l') /\ represents h' l' (seq_InsertHead s o).
Proof.
  intros HR Ha. destruct (Next_refines _ _ _ (Rewind_refines _ _ _ HR)) as (l' & E & HR').
  unfold LinkedList.List_InsertHead, seq_InsertHead. rewrite E. cbn. by apply Insert_refines.
Qed.

Lemma IsEmpty_refines h l s : represents h l s -> LinkedList.List_IsEmpty h l = Some (seq_IsEmpty s).
Proof.
  intros HR. pose proof (AtEnd_refines _ _ _ (Rewind_refines _ _ _ HR)) as H.
  unfold LinkedList.List_AtEnd, LinkedList.List_IsEmpty, seq_AtEnd, seq_IsEmpty in *. cbn in H.
  destruct (h !! LinkedList.dummy l); [|done]. cbn in *. rewrite H. f_equal. apply bool_decide_ext. destruct (items s); done.
Qed.

Lemma current_object h l s : represents h l s -> objof h (LinkedList.current l) = Some (seq_Current s).
Proof.
  intros HR. pose proof HR as (r & _ & _ & Ho & Hd & Hp & _). unfold seq_Current.
  destruct (pos s) as [|k]; cbn in Hp; [congruence|]. apply mapM_Some in Ho.
  destruct (Forall2_lookup_l _ _ _ _ _ Ho Hp) as (y & Hy & ->). rewrite list_lookup_fmap in Hy.
  destruct (items s !! k); [|done]. cbn in Hy. by simplify_eq.
Qed.

Lemma Current_refines h l s : represents h l s -> LinkedList.List_Current h l = Some (seq_Current s).
Proof.
  intros HR. unfold LinkedList.List_Current. rewrite (IsEmpty_refines _ _ _ HR). cbn. unfold seq_IsEmpty. case_bool_decide as E.
  - unfold seq_Current. rewrite E. by destruct (pos s).
  - pose proof (current_object _ _ _ HR) as H. unfold objof in H. destruct (h !! LinkedList.current l); done.
Qed.

Lemma Head_refines h l s : represents h l s -> LinkedList.List_Head h l = Some (seq_Head s).
Proof.
  intros HR. unfold LinkedList.List_Head. rewrite (IsEmpty_refines _ _ _ HR). cbn. unfold seq_IsEmpty, seq_Head.
  case_bool_decide as E; [by rewrite E|]. destruct (represents_next _ _ _ (Rewind_refines _ _ _ HR)) as (n & En & H).
  unfold nextof in En. cbn in *. destruct (h !! LinkedList.dummy l) as [it|]; [|done]. cbn in *. simplify_eq.
  destruct (items s) as [|o xs]; [done|]. cbn in *. destruct H as (_ & Hob & _). unfold objof in Hob.
  destruct (h !! LinkedList.next it); done.
Qed.

Lemma DeleteCurrent_refines h l s :
  represents h l s ->
  match seq_DeleteCurrent s with
  | None => LinkedList.List_DeleteCurrent h l = None
  | Some s' => exists h' l', LinkedList.List_DeleteCurrent h l = Some (h', l') /\ represents h' l' s'
  end.
Proof.
  intros HR. unfold seq_DeleteCurrent. pose proof HR as (_ & _ & _ & _ & Hd & _ & Hn).
  destruct (represents_at _ _ _ HR) as [[-> Hc]|(r1 & r2 & x & -> & Hcur & Hnd & Hc & Ho)]; unfold LinkedList.List_DeleteCurrent.
  { by rewrite bool_decide_eq_true_2. }
  pose proof Hc as [H1 _]%chain_app. destruct (chain_last _ _ _ _ H1) as [Hpx Hnp].
  assert (x <> LinkedList.dummy l) by (clear -Hnd; rewrite NoDup_cons in Hnd; set_solver).
  rewrite Hcur, bool_decide_eq_false_2 by done. unfold prevof, nextof in *.
  destruct (h !! x) as [it|] eqn:Ex; [|done]. cbn in *. injection Hpx as Hpx. rewrite Hpx.
  destruct (h !! last_of (LinkedList.dummy l) r1) as [it'|]; [|done]. cbn in *. injection Hnp as ->.
  destruct (ring_remove h (LinkedList.mkList (LinkedList.dummy l) (last_of (LinkedList.dummy l) r1) (LinkedList.num_elem l)) r1 x r2 Hnd Hc)
    as (h' & -> & Hc' & Fo). eexists _, _; split; [done|]. exists (r1 ++ r2).
  pose proof Ho as [Ho1 Ho2]%objs_app. change (x :: r2) with ([x] ++ r2) in Ho2. apply objs_app in Ho2 as [_ Ho2].
  cbn [length] in Ho2. rewrite drop_drop in Ho2. pose proof (objs_length _ _ _ Ho) as Hl. rewrite length_app in Hl. cbn in Hl.
  cbn. clear Hcur. split_and!.
  - clear -Hnd. rewrite NoDup_cons, NoDup_app, NoDup_cons in Hnd. rewrite NoDup_cons, NoDup_app. set_solver.
  - done.
  - rewrite NoDup_cons, NoDup_app, NoDup_cons in Hnd. apply objs_app.
    rewrite take_app_length', drop_app_length' by (rewrite length_take; lia). rewrite Nat.add_1_r in Ho2. split; (eapply objs_frame; [|done]);
      intros y Hy; apply Fo; intros ->; clear -Hnd Hy; set_solver.
  - rewrite Fo by done. done.
  - change (LinkedList.dummy l :: r1 ++ r2) with ((LinkedList.dummy l :: r1) ++ r2). rewrite lookup_app_l by (cbn; lia). apply last_of_lookup.
  - rewrite length_app, length_take, length_drop. lia.
Qed.

(** C16 (refinement): the pointer operations of List<ObjType> implement a sequence with a cursor: on a list that
    holds the sequence [s], with every item freshly allocated, Append, Insert, InsertHead, Rewind, Next
    and DeleteCurrent succeed and leave a list that holds what they make of [s], and the queries
    return its properties; DeleteCurrent fails its assertion exactly when the scan is rewound. *)
Theorem list_refines h l s a o :
  represents h l s -> h !! a = None ->
  (exists h' l', LinkedList.List_Append h l a o = Some (h', l') /\ represents h' l' (seq_Append s o)) /\
  (exists h' l', LinkedList.List_Insert h l a o = Some (h', l') /\ represents h' l' (seq_Insert s o)) /\
  (exists h' l', LinkedList.List_InsertHead h l a o = Some (h', l') /\ represents h' l' (seq_InsertHead s o)) /\
  represents h (LinkedList.List_Rewind l) (seq_Rewind s) /\
  (exists l', LinkedList.List_Next h l = Some (l', (seq_Next s).2) /\ represents h l' (seq_Next s).1) /\
  match seq_DeleteCurrent s with
  | None => LinkedList.List_DeleteCurrent h l = None
  | Some s' => exists h' l', LinkedList.List_DeleteCurrent h l = Some (h', l') /\ represents h' l' s'
  end /\
  LinkedList.List_IsEmpty h l = Some (seq_IsEmpty s) /\ LinkedList.List_AtEnd h l = Some (seq_AtEnd s) /\
  LinkedList.List_Current h l = Some (seq_Current s) /\ LinkedList.List_Head h l = Some (seq_Head s) /\ LinkedList.List_Number l = seq_Number s.
Proof.
  intros HR Ha. pose proof (DeleteCurrent_refines _ _ _ HR).
  split_and!; eauto using Append_refines, Insert_refines, InsertHead_refines, Rewind_refines, Next_refines,
    IsEmpty_refines, AtEnd_refines, Current_refines, Head_refines.
  destruct HR as (r & HR). apply HR.
Qed.

End operations.

(** Two items appended and one inserted before the second. *)
Definition three_items : option (gmap Z (LinkedList.Item bytes) * LinkedList.List) :=
  let '(h, l) := LinkedList.new_List ∅ 1 in
  '(h, l) ← LinkedList.List_Append h l 2 (s2b "a");
  '(h, l) ← LinkedList.List_Append h l 3 (s2b "c");
  LinkedList.List_Insert h l 4 (s2b "b").

Lemma list_refines_witness :
  exists h l, three_items = Some (h, l) /\ represents h l (mkSeq [s2b "a"; s2b "b"; s2b "c"] 3) /\
    exists h' l', LinkedList.List_Append h l 5 (s2b "d") = Some (h', l') /\
      represents h' l' (mkSeq [s2b "a"; s2b "b"; s2b "c"; s2b "d"] 4).
Proof.
  assert (H : represents (from_option fst ∅ three_items) (from_option snd (LinkedList.mkList 0 0 0) three_items) (mkSeq [s2b "a"; s2b "b"; s2b "c"] 3)).
  { exists [2; 4; 3]. repeat split; try by vm_compute. repeat constructor; set_solver. }
  exists (from_option fst ∅ three_items), (from_option snd (LinkedList.mkList 0 0 0) three_items).
  split; [by vm_compute|]. split; [done|].
  destruct (list_refines _ _ _ 5 (s2b "d") H) as [(h' & l' & E & HR) _]; [by vm_compute|].
  exists h', l'. split; [exact E|exact HR].
Defined.
