(* ===== verification/StringList.v ===== *)
(** Lists of strings: condor_utils/string_list.cpp, over the list template of CondorList.

    Every scan of a StringList goes through the scan pointer of its list, so the operations that look
    for a string also move it. *)

From stdpp Require Import sorting.
From S2P Require Import Prelude CondorList Sinful.

Open Scope Z_scope.

Record StringList := mkStringList { m_strings : Seq bytes; m_delimiters : bytes }.
#[export] Instance StringList_rebuild : Rebuild StringList := fun l => mkStringList (m_strings l) (m_delimiters l).
#[export] Instance m_strings_setter : Setter m_strings := ltac:(solve_setter).

(** ** Building a list *)

Definition isSeparator (l : StringList) (x : ascii) : bool := one_of (m_delimiters l) x.
Definition sl_append (l : StringList) (str : bytes) : StringList := l <| m_strings ::= fun s => seq_Append s str |>.
Definition sl_insert (l : StringList) (str : bytes) : StringList := l <| m_strings ::= fun s => seq_Insert s str |>.
Definition rewind (l : StringList) : StringList := l <| m_strings ::= seq_Rewind |>.
Definition next (l : StringList) : StringList * option bytes :=
  let '(s, x) := seq_Next (m_strings l) in (l <| m_strings := s |>, x).
Definition sl_number (l : StringList) : Z := seq_Number (m_strings l).
Definition isEmpty (l : StringList) : bool := seq_IsEmpty (m_strings l).
(** The strings from the first to the last. *)
Definition strings (l : StringList) : list bytes := items (m_strings l).

(** One turn of the loop of initializeFromString(): separators and white space are skipped, then the
    item goes on to the next separator; the fuel bounds the turns. *)
Fixpoint items_of (fuel : nat) (sep : ascii -> bool) (walk : bytes) : list bytes :=
  match fuel with
  | O => []
  | S fuel' =>
      match (span (fun c => sep c || isspace c) walk).2 with
      | [] => []
      | begin => let '(item, rest) := span (fun c => negb (sep c)) begin in item :: items_of fuel' sep rest
      end
  end.
(** initializeFromString() appends to the list. *)
Definition initializeFromString (l : StringList) (s : bytes) : StringList :=
  fold_left sl_append (items_of (S (length s)) (isSeparator l) s) l.
Definition new_StringList (s : option bytes) (delim : bytes) : StringList :=
  let l := mkStringList new_Seq delim in
  match s with Some s => initializeFromString l s | None => l end.
(** The copy constructor. *)
Definition copy (other : StringList) : StringList :=
  fold_left sl_append (strings other) (mkStringList new_Seq (m_delimiters other)).
(** StringList( const char *s = NULL, const char *delim = SPACE COMMA ) *)
Definition default_delim : bytes := s2b " ,".

(** ** Looking for a string *)

(** while( (x = m_strings.Next()) ) if( p(x) ) return; *)
Fixpoint scan (fuel : nat) (p : bytes -> bool) (s : Seq bytes) : Seq bytes * option bytes :=
  match fuel with
  | O => (s, None)
  | S fuel' => match seq_Next s with
               | (s', None) => (s', None)
               | (s', Some x) => if p x then (s', Some x) else scan fuel' p s'
               end
  end.
Definition look_for (p : bytes -> bool) (l : StringList) : StringList * option bytes :=
  let '(s, x) := scan (S (length (strings l))) p (seq_Rewind (m_strings l)) in (l <| m_strings := s |>, x).
Definition was_found (r : StringList * option bytes) : StringList * bool := (r.1, match r.2 with Some _ => true | None => false end).

Definition same (anycase : bool) (a b : bytes) : bool := if anycase then strcaseeq a b else streq a b.
Definition contains (l : StringList) (st : bytes) : StringList * bool := was_found (look_for (streq st) l).
Definition contains_anycase (l : StringList) (st : bytes) : StringList * bool := was_found (look_for (strcaseeq st) l).
(** substring(): some item is a prefix of [st]. *)
Definition substring (l : StringList) (st : bytes) : StringList * bool :=
  was_found (look_for (fun x => bool_decide (x `prefix_of` st)) l).
(** find(), which leaves the scan pointer alone. *)
Definition find (l : StringList) (str : bytes) (anycase : bool) : bool := existsb (same anycase str) (strings l).
Definition contains_case (anycase : bool) (l : StringList) (x : bytes) : StringList * bool :=
  if anycase then contains_anycase l x else contains l x.

(** ** Removing *)

Definition deleteCurrent (l : StringList) : option StringList :=
  s ← seq_DeleteCurrent (m_strings l); Some (l <| m_strings := s |>).
(** while( (x = m_strings.Next()) ) if( p(x) ) deleteCurrent(); *)
Fixpoint remove_loop (fuel : nat) (p : bytes -> bool) (l : StringList) : option StringList :=
  match fuel with
  | O => Some l
  | S fuel' => match next l with
               | (l', None) => Some l'
               | (l', Some x) => if p x then l' ← deleteCurrent l'; remove_loop fuel' p l' else remove_loop fuel' p l'
               end
  end.
Definition sl_remove (l : StringList) (str : bytes) : option StringList := remove_loop (S (length (strings l))) (streq str) (rewind l).
Definition remove_anycase (l : StringList) (str : bytes) : option StringList :=
  remove_loop (S (length (strings l))) (strcaseeq str) (rewind l).
Definition clearAll (l : StringList) : option StringList := remove_loop (S (length (strings l))) (fun _ => true) (rewind l).

(** ** Lists as sets *)

(** create_union(); [subset] is scanned with its own scan pointer. *)
Definition union_step (anycase : bool) '((l, result) : StringList * bool) (x : bytes) : StringList * bool :=
  let '(l, b) := contains_case anycase l x in if b : bool then (l, result) else (sl_append l x, true).
Definition create_union (l subset : StringList) (anycase : bool) : StringList * bool :=
  fold_left (union_step anycase) (strings subset) (l, false).
(** contains_list(): the scan stops at the first string that is not there. *)
Fixpoint contains_all (anycase : bool) (l : StringList) (subset : list bytes) : StringList * bool :=
  match subset with
  | [] => (l, true)
  | x :: subset' => let '(l, b) := contains_case anycase l x in if b : bool then contains_all anycase l subset' else (l, false)
  end.
Definition contains_list (l subset : StringList) (anycase : bool) : StringList * bool := contains_all anycase l (strings subset).
Definition identical (l other : StringList) (anycase : bool) : bool :=
  bool_decide (sl_number other = sl_number l) &&
  forallb (fun x => find l x anycase) (strings other) && forallb (fun x => find other x anycase) (strings l).

(** ** Printing *)

Fixpoint join (delim : bytes) (l : list bytes) : bytes :=
  match l with [] => [] | [x] => x | x :: l' => x ++ delim ++ join delim l' end.
(** print_to_delimed_string(), NULL for the empty list. *)
Definition print_to_delimed_string (l : StringList) (delim : option bytes) : option bytes :=
  match strings l with [] => None | xs => Some (join (default (m_delimiters l) delim) xs) end.
Definition print_to_string (l : StringList) : option bytes := print_to_delimed_string l (Some (s2b ",")).

(** ** Wildcards *)

Definition STAR : ascii := ch 42.
Definition upto (anycase : bool) (s : bytes) : bytes := if anycase then lower s else s.
(** strncmp(x,string,strlen(x)) == 0, strstr() and the comparison of the last characters, in either case. *)
Definition starts_with (anycase : bool) (x string : bytes) : bool := bool_decide (upto anycase x `prefix_of` upto anycase string).
Definition ends_in (anycase : bool) (x string : bytes) : bool :=
  if (length string <? length x)%nat then false else same anycase (drop (length string - length x) string) x.
Fixpoint has_substring (anycase : bool) (string x : bytes) : bool :=
  starts_with anycase x string || match string with [] => false | _ :: string' => has_substring anycase string' x end.

(** Whether the entry [x] matches in the loop of contains_withwildcard(). *)
Definition wildcard_match (anycase : bool) (x string : bytes) : bool :=
  match span (fun c => negb (ceqb c STAR)) x with
  | (_, []) => same anycase x string
  | ([], _ :: matchend) =>
      match reverse matchend with
      | c :: middle => if ceqb c STAR then has_substring anycase string (reverse middle) else ends_in anycase matchend string
      | [] => ends_in anycase matchend string
      end
  | (matchstart, [_]) => starts_with anycase matchstart string
  | (matchstart, _ :: matchend) => starts_with anycase matchstart string && ends_in anycase matchend string
  end.
Definition contains_withwildcard (l : StringList) (string : option bytes) (anycase : bool) : StringList * option bytes :=
  match string with None => (l, None) | Some string => look_for (fun x => wildcard_match anycase x string) l end.
(** With a list for the matches, every entry is tried and the matches are appended to it. *)
Definition all_matches (l : StringList) (string : option bytes) (anycase : bool) (matches : StringList)
  : StringList * StringList * option bytes :=
  match string with
  | None => (l, matches, None)
  | Some string =>
      let l := l <| m_strings := mkSeq (strings l) (length (strings l)) |> in
      let matches := fold_left sl_append (filter (fun x => wildcard_match anycase x string) (strings l)) matches in
      if isEmpty matches then (l, matches, None) else let '(matches, x) := next (rewind matches) in (l, matches, x)
  end.

(** ** Sorting and shuffling *)

Definition str_le (a b : bytes) : Prop := bytes_leb a b = true.
#[export] Instance str_le_dec a b : Decision (str_le a b) := decide (bytes_leb a b = true).
Definition refill (l : StringList) (lst : list bytes) : option StringList := l ← clearAll l; Some (fold_left sl_append lst l).
Definition qsort (l : StringList) : option StringList :=
  if (length (strings l) <? 2)%nat then Some l else refill l (merge_sort str_le (strings l)).
(** The swaps of shuffle(): [js] are the indices (unsigned int)(i + get_random_float() * (count-i)). *)
Fixpoint swaps (i : nat) (js : list nat) (lst : list bytes) : list bytes :=
  match js with
  | [] => lst
  | j :: js' =>
      match lst !! i, lst !! j with
      | Some a, Some b => swaps (S i) js' (<[j := a]> (<[i := b]> lst))
      | _, _ => swaps (S i) js' lst
      end
  end.
Definition shuffle (l : StringList) (js : list nat) : option StringList := refill l (swaps 0 (take (length (strings l) - 1) js) (strings l)).

(** ** What the operations do to the strings *)

Lemma strings_append l x : strings (sl_append l x) = strings l ++ [x].
Proof. done. Qed.
Lemma strings_append_all xs l : strings (fold_left sl_append xs l) = strings l ++ xs.
Proof.
  revert l. induction xs as [|x xs IH]; intros l; cbn; [by rewrite app_nil_r|]. rewrite IH, strings_append. by rewrite <- app_assoc.
Qed.
Lemma delimiters_append_all xs l : m_delimiters (fold_left sl_append xs l) = m_delimiters l.
Proof. revert l. induction xs as [|x xs IH]; intros l; cbn; [done|]. by rewrite IH. Qed.

Lemma initialize_appends l s : strings (initializeFromString l s) = strings l ++ items_of (S (length s)) (isSeparator l) s.
Proof. apply strings_append_all. Qed.

(** A scan from the place [k] ends at the first item that satisfies [p], with the pointer at it, or
    with the pointer at the last item. *)
Lemma scan_spec p xs k fuel :
  (k <= length xs)%nat -> (length xs - k < fuel)%nat ->
  scan fuel p (mkSeq xs k) =
  match list_find (fun x => p x = true) (drop k xs) with
  | Some (j, x) => (mkSeq xs (S (k + j)), Some x)
  | None => (mkSeq xs (length xs), None)
  end.
Proof.
  revert k. induction fuel as [|fuel IH]; intros k Hk Hf; [lia|]. cbn [scan]. unfold seq_Next, seq_AtEnd. cbn [pos items].
  case_bool_decide as E; [subst; by rewrite drop_all|].
  destruct (xs !! k) as [x|] eqn:Ex; [|apply lookup_ge_None in Ex; lia]. rewrite (drop_S _ _ _ Ex). cbn [list_find].
  destruct (p x) eqn:Ep.
  - rewrite decide_True by done. by rewrite Nat.add_0_r.
  - rewrite decide_False by done. rewrite IH by lia. destruct (list_find _ (drop (S k) xs)) as [[j y]|]; cbn; [|done].
    by rewrite Nat.add_succ_r.
Qed.

Lemma look_for_spec p l :
  look_for p l = match list_find (fun x => p x = true) (strings l) with
                 | Some (j, x) => (l <| m_strings := mkSeq (strings l) (S j) |>, Some x)
                 | None => (l <| m_strings := mkSeq (strings l) (length (strings l)) |>, None)
                 end.
Proof.
  unfold look_for, strings, seq_Rewind. rewrite scan_spec by lia. rewrite drop_0. destruct (list_find _ _) as [[??]|]; done.
Qed.
Lemma look_for_strings p l : strings (look_for p l).1 = strings l.
Proof. rewrite look_for_spec. destruct (list_find _ _) as [[??]|]; done. Qed.
Lemma look_for_found p l : (was_found (look_for p l)).2 = existsb p (strings l).
Proof.
  rewrite look_for_spec. unfold was_found. destruct (list_find _ _) as [[j x]|] eqn:E; cbn; symmetry.
  - apply list_find_Some in E as (E & Hp & _). apply existsb_exists. exists x. split; [|done]. apply list_elem_of_In. by eapply list_elem_of_lookup_2.
  - apply list_find_None in E. rewrite Forall_forall in E. apply not_true_is_false. intros (x & Hx & Hp)%existsb_exists.
    apply list_elem_of_In in Hx. by apply (E x).
Qed.
Lemma contains_case_spec anycase l x :
  strings (contains_case anycase l x).1 = strings l /\ (contains_case anycase l x).2 = find l x anycase.
Proof.
  unfold contains_case, contains, contains_anycase, find. destruct anycase; cbn [was_found fst]; (split; [apply look_for_strings|apply look_for_found]).
Qed.

(** The loops that delete keep exactly the strings that do not satisfy [p], in their order. *)
Lemma remove_loop_spec p (l : StringList) fuel :
  (pos (m_strings l) <= length (strings l))%nat -> (length (strings l) - pos (m_strings l) < fuel)%nat ->
  exists l', remove_loop fuel p l = Some l' /\ m_delimiters l' = m_delimiters l /\
    strings l' = take (pos (m_strings l)) (strings l) ++ filter (fun x => p x = false) (drop (pos (m_strings l)) (strings l)).
Proof.
  revert l. induction fuel as [|fuel IH]; intros [[xs k] d] Hk Hf; unfold strings in *; cbn in Hk, Hf; [lia|].
  cbn [remove_loop]. unfold next, seq_Next, seq_AtEnd. cbn [pos items m_strings]. case_bool_decide as E.
  { subst. eexists; split; [done|]. cbn. rewrite take_ge, drop_ge, app_nil_r by lia. done. }
  destruct (xs !! k) as [x|] eqn:Ex; [|apply lookup_ge_None in Ex; lia]. pose proof (lookup_lt_Some _ _ _ Ex).
  rewrite (drop_S _ _ _ Ex). rewrite filter_cons. destruct (p x) eqn:Ep.
  - cbn. edestruct (IH (mkStringList (mkSeq (take k xs ++ drop (S k) xs) k) d)) as (l' & Hr & Hd & Hl').
    + cbn. rewrite length_app, length_take. lia.
    + cbn. rewrite length_app, length_take, length_drop. lia.
    + exists l'. split_and!; [exact Hr|done|]. rewrite Hl'. cbn. rewrite take_app_le, take_take, Nat.min_id by (rewrite length_take; lia).
      rewrite drop_app_ge by (rewrite length_take; lia). rewrite length_take, Nat.min_l, Nat.sub_diag, drop_0 by lia. done.
  - edestruct (IH (mkStringList (mkSeq xs (S k)) d)) as (l' & Hr & Hd & Hl'); [cbn; lia|cbn; lia|].
    exists l'. split_and!; [exact Hr|done|]. rewrite Hl'. cbn. rewrite (take_S_r _ _ _ Ex), <- app_assoc. done.
Qed.
Local Ltac rewind_ok := unfold strings, rewind, seq_Rewind; cbn; lia.
Lemma remove_filters l str : exists l', sl_remove l str = Some l' /\ strings l' = filter (fun x => streq str x = false) (strings l).
Proof.
  destruct (remove_loop_spec (streq str) (rewind l) (S (length (strings l)))) as (l' & ? & _ & ?); [rewind_ok..|].
  exists l'. done.
Qed.
Lemma clearAll_spec l : exists l', clearAll l = Some l' /\ strings l' = [] /\ m_delimiters l' = m_delimiters l.
Proof.
  destruct (remove_loop_spec (fun _ => true) (rewind l) (S (length (strings l)))) as (l' & ? & ? & Hs); [rewind_ok..|].
  exists l'. split_and!; try done. rewrite Hs. cbn. clear. unfold strings, rewind. cbn. rewrite drop_0.
  induction (items (m_strings l)) as [|x xs IH]; [done|]. by rewrite filter_cons_False by done.
Qed.

(** ** Printing and reading back *)

(** A string that survives: not empty, no separator in it and no white space in front. *)
Definition item_ok (l : StringList) (x : bytes) : bool :=
  match x with [] => false | c :: _ => negb (isspace c) && forallb (fun c => negb (isSeparator l c)) x end.

Lemma span_all p s rest : forallb p s -> (match rest with [] => True | c :: _ => p c = false end) -> span p (s ++ rest) = (s, rest).
Proof.
  induction s as [|c s IH]; cbn; intros Hs Hr.
  - destruct rest as [|c rest]; cbn; [done|]. by rewrite Hr.
  - apply andb_prop_elim in Hs as [Hc Hs]. rewrite (Is_true_eq_true _ Hc), IH by done. done.
Qed.

Lemma items_of_join l xs fuel :
  isSeparator l (ch 44) -> forallb (item_ok l) xs -> (length xs <= fuel)%nat -> items_of fuel (isSeparator l) (join (s2b ",") xs) = xs.
Proof.
  intros Hsep. revert fuel. induction xs as [|x xs IH]; intros fuel Hok Hf; [by destruct fuel|]. destruct fuel as [|fuel]; [cbn in Hf; lia|].
  cbn [forallb] in Hok. apply andb_prop_elim in Hok as [Hx Hok]. destruct x as [|c x]; [done|].
  unfold item_ok in Hx. apply andb_prop_elim in Hx as [Hc Hx]. pose proof Hx as Hx'. cbn [forallb] in Hx'. apply andb_prop_elim in Hx' as [Hc' _].
  assert (Hskip : forall rest, (span (fun c => isSeparator l c || isspace c) (c :: x ++ rest)).2 = c :: x ++ rest).
  { intros rest. cbn. destruct (isSeparator l c), (isspace c); done. }
  destruct xs as [|y xs].
  - cbn [join items_of]. specialize (Hskip []). rewrite app_nil_r in Hskip. rewrite Hskip.
    pose proof (span_all _ (c :: x) [] Hx I) as E. rewrite app_nil_r in E. rewrite E. cbn. by destruct fuel.
  - cbn [join items_of app]. rewrite Hskip. rewrite (app_comm_cons x), (span_all _ (c :: x)); [|done|].
    + f_equal. cbn [app]. transitivity (items_of fuel (isSeparator l) (join (s2b ",") (y :: xs))); [|apply IH; [done|cbn in *; lia]].
      destruct fuel; [done|]. cbn [items_of]. change (s2b ",") with [ch 44]. cbn [app span]. rewrite (Is_true_eq_true _ Hsep). done.
    + change (s2b ",") with [ch 44]. cbn [app]. by rewrite (Is_true_eq_true _ Hsep).
Qed.

Lemma join_length delim xs : forallb (fun x => match x with [] => false | _ => true end) xs -> (length xs <= length (join delim xs))%nat.
Proof.
  induction xs as [|x xs IH]; [done|]. cbn [forallb]. intros [Hx Hs]%andb_prop_elim. specialize (IH Hs).
  destruct x; [done|]. destruct xs; cbn [join]; rewrite ?length_app; cbn in *; lia.
Qed.

(** C29 (roundtrip): a list of strings that is printed with print_to_string() and read back with the
    same delimiters is the same list, when its strings are not empty, hold no delimiter and do not begin
    with white space, and the comma is a delimiter; only the empty list prints as NULL. *)
Theorem string_list_roundtrip l :
  isSeparator l (ch 44) -> forallb (item_ok l) (strings l) ->
  match print_to_string l with
  | None => strings l = []
  | Some s => strings (new_StringList (Some s) (m_delimiters l)) = strings l
  end.
Proof.
  intros Hsep Hok. unfold print_to_string, print_to_delimed_string. destruct (strings l) as [|x xs] eqn:E; [done|].
  cbn [new_StringList]. rewrite initialize_appends. cbn [default app]. rewrite <- E in *.
  refine (items_of_join l _ _ Hsep Hok _). etransitivity; [apply join_length|apply Nat.le_succ_diag_r].
  clear -Hok. induction (strings l) as [|x xs IH]; [done|]. cbn in *. apply andb_prop_elim in Hok as [Hx Hok].
  apply andb_prop_intro. split; [by destruct x|by apply IH].
Qed.

(** ** Lists as sets *)

Lemma find_spec l str anycase : find l str anycase <-> exists x, x ∈ strings l /\ upto anycase str = upto anycase x.
Proof.
  unfold find. split.
  - intros H%Is_true_eq_true. apply existsb_exists in H as (x & Hx & Hs). exists x. rewrite list_elem_of_In. split; [done|].
    destruct anycase; cbn in *; unfold strcaseeq, streq in Hs; by apply bool_decide_eq_true in Hs.
  - intros (x & Hx & E). apply Is_true_eq_left, existsb_exists. exists x. rewrite <- list_elem_of_In. split; [done|].
    destruct anycase; cbn in *; unfold strcaseeq, streq; by apply bool_decide_eq_true.
Qed.

(** Identical() holds exactly when the lists have the same number of strings and each string of
    one is, up to case where asked, in the other; neither the order nor how often a string occurs is
    compared. *)
Theorem identical_iff_same_set l other anycase :
  identical l other anycase <->
  length (strings l) = length (strings other) /\
  (forall k, (exists x, x ∈ strings l /\ upto anycase x = k) <-> (exists x, x ∈ strings other /\ upto anycase x = k)).
Proof.
  unfold identical. rewrite !andb_True, bool_decide_spec. unfold sl_number, seq_Number. fold (strings l) (strings other).
  rewrite !forallb_True, !Forall_forall. split.
  - intros [[Hn H1] H2]. split; [lia|]. intros k. split; intros (x & Hx & <-).
    + apply H2, find_spec in Hx as (y & ? & ?). by exists y.
    + apply H1, find_spec in Hx as (y & ? & ?). by exists y.
  - intros [Hn H]. split_and!; [lia| |]; intros x Hx; apply find_spec; specialize (H (upto anycase x)).
    + destruct (proj2 H) as (y & ? & ?); [by exists x|]. by exists y.
    + destruct (proj1 H) as (y & ? & ?); [by exists x|]. by exists y.
Qed.

Lemma find_append l x str anycase : find (sl_append l x) str anycase = find l str anycase || same anycase str x.
Proof. unfold find. rewrite strings_append, existsb_app. cbn. by rewrite orb_false_r. Qed.

(** create_union() ends with the strings of both, adds a string only where none like it is there, and
    tells whether it added any. *)
Lemma create_union_spec l subset anycase :
  exists added, strings (create_union l subset anycase).1 = strings l ++ added /\
    (create_union l subset anycase).2 = negb (bool_decide (added = [])) /\
    (forall str, find (create_union l subset anycase).1 str anycase = find l str anycase || find subset str anycase).
Proof.
  unfold create_union. unfold find at 3. generalize (strings subset) as xs. clear subset.
  assert (G : forall xs l result, exists added,
    strings (fold_left (union_step anycase) xs (l, result)).1 = strings l ++ added /\
    (fold_left (union_step anycase) xs (l, result)).2 = result || negb (bool_decide (added = [])) /\
    forall str, find (fold_left (union_step anycase) xs (l, result)).1 str anycase
      = find l str anycase || existsb (same anycase str) xs).
  { intros xs. induction xs as [|x xs IH]; intros l' result.
    - exists []. cbn. rewrite app_nil_r. split_and!; [done|by destruct result|intros; by rewrite orb_false_r].
    - cbn [fold_left existsb union_step]. destruct (contains_case anycase l' x) as [l1 b] eqn:E.
      destruct (contains_case_spec anycase l' x) as [Hs Hb]. rewrite E in Hs, Hb. cbn in Hs, Hb. subst b.
      assert (Hfind : forall str, find l1 str anycase = find l' str anycase) by (intros; unfold find; by rewrite Hs).
      destruct (find l' x anycase) eqn:Ef.
      + destruct (IH l1 result) as (added & H1 & H2 & H3). exists added. rewrite H1, Hs, H2. split_and!; try done.
        intros str. rewrite H3, Hfind. destruct (same anycase str x) eqn:Exs; [|done]. cbn.
        apply Is_true_eq_left, find_spec in Ef as (y & Hy & Ey). rewrite orb_true_r. apply orb_true_intro. left. apply Is_true_eq_true, find_spec.
        exists y. split; [done|]. rewrite <- Ey. destruct anycase; cbn in *; unfold strcaseeq, streq in Exs; by apply bool_decide_eq_true in Exs.
      + destruct (IH (sl_append l1 x) true) as (added & H1 & H2 & H3). exists (x :: added).
        rewrite H1, strings_append, Hs, <- app_assoc, H2. split_and!; [done|by destruct result|].
        intros str. by rewrite H3, find_append, Hfind, <- orb_assoc. }
  intros xs. destruct (G xs l false) as (added & H1 & H2 & H3). by exists added.
Qed.

(** ** Wildcards *)

Definition plain (x : bytes) : bool := forallb (fun c => negb (ceqb c STAR)) x.

Lemma upto_app anycase a b : upto anycase (a ++ b) = upto anycase a ++ upto anycase b.
Proof. destruct anycase; [|done]. apply fmap_app. Qed.
Lemma upto_length anycase a : length (upto anycase a) = length a.
Proof. destruct anycase; [|done]. apply length_fmap. Qed.
Lemma upto_drop anycase n a : upto anycase (drop n a) = drop n (upto anycase a).
Proof. destruct anycase; [|done]. apply fmap_drop. Qed.
Lemma same_upto anycase a b : same anycase a b <-> upto anycase a = upto anycase b.
Proof. destruct anycase; cbn; unfold strcaseeq, streq; apply bool_decide_spec. Qed.

Lemma ends_with_spec anycase x string : ends_in anycase x string <-> upto anycase x `suffix_of` upto anycase string.
Proof.
  unfold ends_in. destruct (Nat.ltb_spec (length string) (length x)) as [Hl|Hl].
  - split; [done|]. intros H%suffix_length. rewrite !upto_length in H. lia.
  - rewrite same_upto, upto_drop. split.
    + intros <-. exists (take (length string - length x) (upto anycase string)). by rewrite take_drop.
    + intros [k E]. pose proof (f_equal length E) as L. rewrite length_app, !upto_length in L. rewrite E.
      rewrite drop_app_length' by lia. done.
Qed.
Lemma strstr_spec anycase string x : has_substring anycase string x <-> exists a b, upto anycase string = a ++ upto anycase x ++ b.
Proof.
  induction string as [|c string IH]; cbn [has_substring]; unfold starts_with in *.
  - rewrite orb_false_r, bool_decide_spec. split.
    + intros [b E]. by exists [], b.
    + intros (a & b & E). destruct a; [|by destruct anycase]. by exists b.
  - rewrite orb_True, bool_decide_spec, IH. change (c :: string) with ([c] ++ string). rewrite upto_app. split.
    + intros [[b E]|(a & b & E)]; [by exists [], b|]. exists (upto anycase [c] ++ a), b. by rewrite E, <- app_assoc.
    + intros (a & b & E). destruct a as [|y a]; [left; by exists b|right]. exists a, b. destruct anycase; cbn in E; by simplify_eq.
Qed.
Lemma span_plain x rest : plain x -> span (fun c => negb (ceqb c STAR)) (x ++ STAR :: rest) = (x, STAR :: rest).
Proof. intros Hx. apply span_all; [done|]. unfold ceqb. by rewrite bool_decide_eq_true_2. Qed.

(** Contains_withwildcard() matches an entry without an asterisk by equality, one with an asterisk
    by what comes before it at the beginning of the string and what comes after it at the end, and one
    between two asterisks anywhere in the string, up to case where asked. *)
Theorem wildcard_spec anycase p q string :
  plain p -> plain q ->
  (wildcard_match anycase p string <-> upto anycase p = upto anycase string) /\
  (wildcard_match anycase (p ++ STAR :: q) string <->
     upto anycase p `prefix_of` upto anycase string /\ upto anycase q `suffix_of` upto anycase string) /\
  (wildcard_match anycase (STAR :: q ++ [STAR]) string <-> exists a b, upto anycase string = a ++ upto anycase q ++ b).
Proof.
  intros Hp Hq. assert (HS : ceqb STAR STAR = true) by (unfold ceqb; by apply bool_decide_eq_true_2). split_and!.
  - unfold wildcard_match. pose proof (span_all _ p [] Hp I) as E. rewrite app_nil_r in E. rewrite E. destruct p; apply same_upto.
  - unfold wildcard_match. rewrite span_plain by done. destruct p as [|c p].
    + destruct (reverse q) as [|c middle] eqn:Er.
      * rewrite ends_with_spec. split; [|tauto]. intros. split; [|done]. by destruct anycase; apply prefix_nil.
      * assert (Hc : ceqb c STAR = false).
        { unfold plain in Hq. rewrite forallb_True, Forall_forall in Hq. apply not_true_is_false. intros E.
          specialize (Hq c). rewrite E in Hq. apply Hq. apply elem_of_reverse. rewrite Er. left. }
        rewrite Hc, ends_with_spec. split; [|tauto]. intros. split; [|done]. by destruct anycase; apply prefix_nil.
    + destruct q as [|c' q]; unfold starts_with.
      * rewrite bool_decide_spec. split; [|tauto]. intros. split; [done|]. by destruct anycase; apply suffix_nil.
      * rewrite andb_True, bool_decide_spec, ends_with_spec. done.
  - unfold wildcard_match. pose proof (span_plain [] (q ++ [STAR]) I) as E. cbn [app] in E. rewrite E.
    rewrite reverse_snoc, HS, reverse_involutive. apply strstr_spec.
Qed.

(** A pattern whose ends overlap in the string matches it: ab*ba matches aba. *)
Lemma wildcard_ends_overlap : wildcard_match false (s2b "ab*ba") (s2b "aba") = true.
Proof. vm_compute. reflexivity. Qed.

(** ** Sorting and shuffling *)

#[export] Instance str_le_total : Total str_le.
Proof.
  intros a. unfold str_le. induction a as [|x a IH]; intros [|y b]; cbn [bytes_leb]; cbv zeta; try (by left); try (by right).
  destruct (Nat.ltb_spec (nat_of_ascii x) (nat_of_ascii y)); [by left|].
  destruct (Nat.ltb_spec (nat_of_ascii y) (nat_of_ascii x)); [by right|]. apply IH.
Qed.
#[export] Instance str_le_trans : Transitive str_le.
Proof.
  intros a. unfold str_le. induction a as [|x a IH]; intros [|y b] [|z c]; cbn [bytes_leb]; cbv zeta; try done.
  repeat match goal with |- context [(?m <? ?n)%nat] => destruct (Nat.ltb_spec m n) end; try done; try lia. apply IH.
Qed.

Lemma refill_spec l xs : exists l', refill l xs = Some l' /\ strings l' = xs.
Proof.
  unfold refill. destruct (clearAll_spec l) as (l' & -> & Hs & _). cbn. eexists; split; [done|]. by rewrite strings_append_all, Hs.
Qed.
Lemma swaps_perm i js xs : swaps i js xs ≡ₚ xs.
Proof.
  revert i xs. induction js as [|j js IH]; intros i xs; cbn; [done|].
  destruct (xs !! i) as [a|] eqn:Ei; [|done]. destruct (xs !! j) as [b|] eqn:Ej; [|done].
  rewrite IH. by apply Permutation_insert_swap.
Qed.

(** Qsort() keeps the strings and puts them in the order of strcmp(), and shuffle() keeps the
    strings whatever the random numbers are; neither can fail. *)
Theorem sort_and_shuffle l js :
  (exists l', qsort l = Some l' /\ strings l' ≡ₚ strings l /\ Sorted str_le (strings l')) /\
  (exists l', shuffle l js = Some l' /\ strings l' ≡ₚ strings l).
Proof.
  split.
  - unfold qsort. destruct (Nat.ltb_spec (length (strings l)) 2) as [H|H].
    + exists l. split_and!; try done. destruct (strings l) as [|x [|y xs]]; [constructor|repeat constructor|cbn in H; lia].
    + destruct (refill_spec l (merge_sort str_le (strings l))) as (l' & E & Hs). exists l'. rewrite Hs. split_and!; [done|..].
      * apply merge_sort_Permutation.
      * apply Sorted_merge_sort; apply _.
  - unfold shuffle. destruct (refill_spec l (swaps 0 (take (length (strings l) - 1) js) (strings l))) as (l' & -> & Hs).
    exists l'. split; [done|]. rewrite Hs. apply swaps_perm.
Qed.

(** ** A list of daemons *)

Definition daemons : StringList := new_StringList (Some (s2b "MASTER, SCHEDD,,STARTD ")) default_delim.

Lemma string_list_roundtrip_witness :
  print_to_string daemons = Some (s2b "MASTER,SCHEDD,STARTD") /\
  strings (new_StringList (Some (s2b "MASTER,SCHEDD,STARTD")) (m_delimiters daemons)) = strings daemons.
Proof. split; [by vm_compute|]. exact (string_list_roundtrip daemons I I). Defined.

Lemma wildcard_spec_witness :
  wildcard_match true (s2b "ppp*.EDU") (s2b "pppmiron.cs.wisc.edu") <->
  lower (s2b "ppp") `prefix_of` lower (s2b "pppmiron.cs.wisc.edu") /\ lower (s2b ".EDU") `suffix_of` lower (s2b "pppmiron.cs.wisc.edu").
Proof. exact (proj1 (proj2 (wildcard_spec true (s2b "ppp") (s2b ".EDU") (s2b "pppmiron.cs.wisc.edu") I I))). Defined.
