(* ===== verification/Had.v ===== *)
(** The high availability daemon: condor_had/StateMachine.cpp and the helpers of condor_had/Utils.cpp.

    Each HAD of the pool runs a four-state machine on a timer; it elects one leader, whose master runs
    the controlled daemon (the negotiator by default).  A handler of the daemon is a computation over
    the object's fields and the world it talks to: the timers it has registered and what it has sent.
    Whether a connection succeeds is a parameter. *)

From S2P Require Import Prelude Sinful CondorList StringList.

Open Scope Z_scope.

(** ** Addresses (internet.cpp, Utils.cpp) *)

Definition AT : ascii := ch 64.
(** What is left of [s] after the first character [c], as strchr() finds it. *)
Definition after_char (c : ascii) (s : bytes) : option bytes :=
  match (span (fun x => negb (ceqb x c)) s).2 with [] => None | _ :: rest => Some rest end.
Definition before_char (c : ascii) (s : bytes) : bytes := (span (fun x => negb (ceqb x c)) s).1.
Definition has_char (c : ascii) (s : bytes) : bool := existsb (ceqb c) s.
(** Up to the last [c], the way strrchr() finds it; the whole of [s] when there is none. *)
Definition before_last (c : ascii) (s : bytes) : bytes :=
  match after_char c (reverse s) with Some r => reverse r | None => s end.

Definition getPortFromAddr (addr : option bytes) : Z :=
  match addr with
  | None => -1
  | Some addr =>
      let addr := match addr with c :: rest => if ceqb c LESS then rest else addr | [] => addr end in
      let inside := match addr with c :: _ => if ceqb c LBRACKET then after_char RBRACKET addr else Some addr | [] => Some addr end in
      match inside with
      | None => -1
      | Some addr =>
          match after_char COLON addr with
          | None | Some [] => -1
          | Some port =>
              match scan_int port with
              | None => -1
              | Some p => if (p <? 0) || (INT_MAX <? p) then -1 else p
              end
          end
      end
  end.

Definition getHostFromAddr (addr : option bytes) : option bytes :=
  match addr with
  | None | Some [] => None
  | Some addr =>
      let copy := if has_char RBRACKET addr then before_char RBRACKET addr else before_char COLON addr in
      let copy := before_last GREATER copy in
      match after_char AT copy with
      | Some rest => non_empty rest
      | None =>
          match copy with
          | [] => None
          | c :: rest =>
              if ceqb c LESS then
                match rest with
                | [] => None
                | c' :: rest' => if ceqb c' LBRACKET then non_empty rest' else Some rest
                end
              else Some copy
          end
      end
  end.

Definition generate_sinful (ip : bytes) (port : Z) : bytes :=
  if has_char COLON ip then s2b "<[" ++ ip ++ s2b "]:" ++ print_d port ++ s2b ">"
  else s2b "<" ++ ip ++ s2b ":" ++ print_d port ++ s2b ">".

(** ** The state *)

Inductive STATES := PRE_STATE | PASSIVE_STATE | ELECTION_STATE | LEADER_STATE.
#[export] Instance STATES_eq_dec : EqDecision STATES. Proof. solve_decision. Defined.

(** The commands of condor_commands.h that are sent here. *)
Inductive command :=
| CHILD_ON | CHILD_OFF_FAST
| HAD_ALIVE_CMD | HAD_SEND_ID_CMD
| HAD_AFTER_ELECTION_STATE | HAD_AFTER_LEADER_STATE | HAD_IN_LEADER_STATE.
#[export] Instance command_eq_dec : EqDecision command. Proof. solve_decision. Defined.

(** The value of HadIsActive: initializeClassAd() assigns a boolean, updateCollectorsClassAd() a
    string. *)
Inductive active := ActiveBool (b : bool) | ActiveString (s : bytes).
(** m_classAd, by the attributes that initializeClassAd() assigns. *)
Record HadAd := mkHadAd {
  ATTR_NAME : bytes;
  ATTR_MY_ADDRESS : option bytes;
  ATTR_HAD_IS_ACTIVE : active;
  ATTR_HAD_LIST : bytes;
  ATTR_HAD_CONTROLLEE_NAME : bytes;
  ATTR_HAD_INDEX : Z;
  ATTR_HAD_SELF_ID : Z }.

Record HADStateMachine := mkHAD {
  m_state : STATES;
  m_stateMachineTimerID : Z;
  m_hadInterval : Z;
  m_connectionTimeout : Z;
  m_callsCounter : Z;
  m_selfId : Z;
  m_isPrimary : bool;
  m_usePrimary : bool;
  m_otherHadIps : StringList;
  m_allHadIps : StringList;
  m_masterDaemon : bool;                        (** whether it is not NULL *)
  m_controlleeName : bytes;
  receivedAliveList : list Z;
  receivedIdList : list Z;
  m_standAloneMode : bool;
  m_useReplication : bool;
  m_replicationDaemonSinfulString : option bytes;
  m_name : bytes;
  m_classAd : option HadAd;                     (** [None] before initializeClassAd() *)
  m_updateCollectorTimerId : Z;
  m_updateCollectorInterval : Z }.
#[export] Instance HAD_rebuild : Rebuild HADStateMachine := fun r =>
  mkHAD (m_state r) (m_stateMachineTimerID r) (m_hadInterval r) (m_connectionTimeout r) (m_callsCounter r) (m_selfId r)
    (m_isPrimary r) (m_usePrimary r) (m_otherHadIps r) (m_allHadIps r) (m_masterDaemon r) (m_controlleeName r)
    (receivedAliveList r) (receivedIdList r) (m_standAloneMode r) (m_useReplication r) (m_replicationDaemonSinfulString r)
    (m_name r) (m_classAd r) (m_updateCollectorTimerId r) (m_updateCollectorInterval r).
#[export] Instance m_state_setter : Setter m_state := ltac:(solve_setter).
#[export] Instance m_stateMachineTimerID_setter : Setter m_stateMachineTimerID := ltac:(solve_setter).
#[export] Instance m_hadInterval_setter : Setter m_hadInterval := ltac:(solve_setter).
#[export] Instance m_connectionTimeout_setter : Setter m_connectionTimeout := ltac:(solve_setter).
#[export] Instance m_callsCounter_setter : Setter m_callsCounter := ltac:(solve_setter).
#[export] Instance m_selfId_setter : Setter m_selfId := ltac:(solve_setter).
#[export] Instance m_isPrimary_setter : Setter m_isPrimary := ltac:(solve_setter).
#[export] Instance m_usePrimary_setter : Setter m_usePrimary := ltac:(solve_setter).
#[export] Instance m_otherHadIps_setter : Setter m_otherHadIps := ltac:(solve_setter).
#[export] Instance m_allHadIps_setter : Setter m_allHadIps := ltac:(solve_setter).
#[export] Instance m_masterDaemon_setter : Setter m_masterDaemon := ltac:(solve_setter).
#[export] Instance m_controlleeName_setter : Setter m_controlleeName := ltac:(solve_setter).
#[export] Instance receivedAliveList_setter : Setter receivedAliveList := ltac:(solve_setter).
#[export] Instance receivedIdList_setter : Setter receivedIdList := ltac:(solve_setter).
#[export] Instance m_standAloneMode_setter : Setter m_standAloneMode := ltac:(solve_setter).
#[export] Instance m_useReplication_setter : Setter m_useReplication := ltac:(solve_setter).
#[export] Instance m_replicationDaemonSinfulString_setter : Setter m_replicationDaemonSinfulString := ltac:(solve_setter).
#[export] Instance m_name_setter : Setter m_name := ltac:(solve_setter).
#[export] Instance m_classAd_setter : Setter m_classAd := ltac:(solve_setter).
#[export] Instance m_updateCollectorTimerId_setter : Setter m_updateCollectorTimerId := ltac:(solve_setter).
#[export] Instance m_updateCollectorInterval_setter : Setter m_updateCollectorInterval := ltac:(solve_setter).

(** ** The world of a daemon *)

Inductive TimerHandler := CycleTimer | UpdateCollectorsTimer.
Record Timer := mkTimer { t_delta : Z; t_period : Z; t_handler : TimerHandler }.

(** What the daemon sends, and whether it arrived. *)
Inductive Event :=
| ToMaster (cmd : command) (controllee : bytes) (arrived : bool)
| ToReplication (cmd : command) (addr : bytes) (arrived : bool)
| ToHad (cmd : command) (addr : bytes) (ad : option HadAd) (arrived : bool)
| UPDATE_HAD_AD (ad : option HadAd)
| INVALIDATE_HAD_ADS (name : bytes).
Inductive Peer := TheMaster | TheReplicator (addr : bytes) | TheHad (addr : bytes).

(** [events] has the latest first. *)
Record World := mkWorld { events : list Event; timers : gmap Z Timer; next_timer : Z }.
#[export] Instance World_rebuild : Rebuild World := fun w => mkWorld (events w) (timers w) (next_timer w).
#[export] Instance events_setter : Setter events := ltac:(solve_setter).
#[export] Instance timers_setter : Setter timers := ltac:(solve_setter).
#[export] Instance next_timer_setter : Setter next_timer := ltac:(solve_setter).

(** The configuration, as param(), param_boolean() and param_integer() return it. *)
Record Config := mkConfig {
  HAD_CONTROLLEE : option bytes;
  HAD_USE_PRIMARY : option bool;
  HAD_LIST : option bytes;
  HAD_STAND_ALONE_DEBUG : option bytes;
  HAD_CONNECTION_TIMEOUT : option Z;
  HAD_USE_REPLICATION : option bool;
  REPLICATION_LIST : option bytes;
  HAD_UPDATE_INTERVAL : option Z }.
(** What the daemon learns from its host: daemonCore->InfoCommandSinfulString(), my_username(),
    my_full_hostname(). *)
Record Host := mkHost { InfoCommandSinfulString : option bytes; my_username : option bytes; my_full_hostname : bytes }.

(** A handler returns, ends the daemon through utilCrucialError(), or ends it through EXCEPT or a
    failed access. *)
Inductive result (A : Type) := Ok (a : A) (st : HADStateMachine) (w : World) | Exited (w : World) | Excepted (w : World).
Arguments Ok {A} a st w.
Arguments Exited {A} w.
Arguments Excepted {A} w.
Definition M (A : Type) : Type := HADStateMachine -> World -> result A.
Definition ret {A} (a : A) : M A := fun st w => Ok a st w.
Definition bind {A B} (m : M A) (f : A -> M B) : M B := fun st w =>
  match m st w with Ok a st w => f a st w | Exited w => Exited w | Excepted w => Excepted w end.
Definition get : M HADStateMachine := fun st w => Ok st st w.
Definition upd_st (f : HADStateMachine -> HADStateMachine) : M unit := fun st w => Ok tt (f st) w.
Definition emit (e : Event) : M unit := fun st w => Ok tt st (w <| events ::= cons e |>).
Definition crash {A} : M A := fun _ w => Excepted w.

Declare Scope had_scope.
Delimit Scope had_scope with had.
Notation "x <- m ;; k" := (bind m (fun x => k)) (at level 100, m at next level, right associativity) : had_scope.
Notation "m ;;; k" := (bind m (fun _ => k)) (at level 100, right associativity) : had_scope.
Open Scope had_scope.

(** ** Operations *)

Definition MESSAGES_PER_INTERVAL_FACTOR : Z := 2.
Definition DEFAULT_SEND_COMMAND_TIMEOUT : Z := 5.
Definition DEFAULT_HAD_UPDATE_INTERVAL : Z := 5 * 60.

Section daemon.
(** Whether a message to [Peer] arrives, given all that was sent before; condor_sockaddr::from_ip_string()
    and resolve_hostname(), by the text of the addresses. *)
Context (reaches : list Event -> Peer -> bool) (is_ip_string : bytes -> bool) (resolve_hostname : bytes -> list bytes).
Context (host : Host) (config : Config).

Definition reach (p : Peer) : M bool := fun st w => Ok (reaches (events w) p) st w.

(** daemonCore->Register_Timer(), which numbers the timers, and utilCancelTimer(). *)
Definition Register_Timer (t : Timer) : M Z := fun st w =>
  Ok (next_timer w) st (w <| timers ::= <[next_timer w := t]> |> <| next_timer ::= Z.succ |>).
Definition utilCancelTimer (timerId : Z) : M Z := fun st w =>
  if 0 <=? timerId then Ok (-1) st (w <| timers ::= delete timerId |>) else Ok timerId st w.

Definition utilToSinful (address : bytes) : option bytes :=
  let port := getPortFromAddr (Some address) in
  if port =? 0 then None
  else match getHostFromAddr (Some address) with
       | None => None
       | Some hostName =>
           if is_ip_string hostName then Some (generate_sinful hostName port)
           else match resolve_hostname hostName with
                | [] => None
                | ipAddress :: _ => Some (generate_sinful ipAddress port)
                end
       end.

(** sendControlCmdToMaster(); m_masterDaemon is dereferenced. *)
Definition sendControlCmdToMaster (comm : command) : M bool :=
  st <- get;;
  if negb (m_masterDaemon st) then crash
  else ok <- reach TheMaster;;
       emit (ToMaster comm (m_controlleeName st) ok);;;
       ret ok.
Definition sendReplicationCommand (comm : command) : M bool :=
  st <- get;;
  match m_replicationDaemonSinfulString st with
  | None => crash
  | Some addr =>
      if negb (m_masterDaemon st) then crash
      else ok <- reach (TheReplicator addr);;
           emit (ToReplication comm addr ok);;;
           ret ok
  end.

Definition clearBuffers : M unit := upd_st (fun st => st <| receivedAliveList := [] |> <| receivedIdList := [] |>).

Definition freeResources : M unit :=
  upd_st (fun st => st <| m_state := PRE_STATE |> <| m_connectionTimeout := DEFAULT_SEND_COMMAND_TIMEOUT |>);;;
  st <- get;;
  (if m_masterDaemon st then
     _ <- sendControlCmdToMaster CHILD_OFF_FAST;;
     upd_st (fun st => st <| m_masterDaemon := false |>)
   else ret tt);;;
  upd_st (fun st => st <| m_isPrimary := false |> <| m_usePrimary := false |> <| m_standAloneMode := false |>
                    <| m_callsCounter := 0 |> <| m_hadInterval := -1 |>);;;
  st <- get;;
  id <- utilCancelTimer (m_stateMachineTimerID st);;
  upd_st (fun st => st <| m_stateMachineTimerID := id |> <| m_selfId := -1 |>);;;
  clearBuffers;;;
  upd_st (fun st => st <| m_useReplication := false |> <| m_replicationDaemonSinfulString := None |>);;;
  id <- utilCancelTimer (m_updateCollectorTimerId st);;
  upd_st (fun st => st <| m_updateCollectorTimerId := id |> <| m_updateCollectorInterval := -1 |>).

(** ~HADStateMachine(), main_shutdown_graceful() and utilCrucialError(), which ends the daemon. *)
Definition destroy : M unit :=
  freeResources;;;
  st <- get;;
  emit (INVALIDATE_HAD_ADS (m_name st)).
Definition utilCrucialError {A} : M A := fun st w =>
  match destroy st w with Ok _ _ w => Exited w | Exited w => Exited w | Excepted w => Excepted w end.
Definition main_shutdown_graceful : M unit := utilCrucialError.

(** One turn of the loop of getHadList(): the address, the priority counter, what was found so far. *)
Record HadList := mkHadList { hl_other : StringList; hl_all : StringList; hl_selfId : Z; hl_primary : bool; hl_present : bool }.
Definition had_address (my_addr : Sinful) (usePrimary : bool) (number counter : Z) (sinful_addr : bytes) (r : HadList) : HadList :=
  let all := sl_insert (hl_all r) sinful_addr in
  if default false (addressPointsToMe (S (length (m_sinful my_addr))) my_addr (new_Sinful (Some sinful_addr))) then
    mkHadList (hl_other r) all counter (hl_primary r || (usePrimary && (counter =? number - 1))) true
  else mkHadList (sl_insert (hl_other r) sinful_addr) all (hl_selfId r) (hl_primary r) (hl_present r).
Fixpoint had_addresses (my_addr : Sinful) (usePrimary : bool) (number counter : Z) (l : list bytes) (r : HadList) : M HadList :=
  match l with
  | [] => ret r
  | try_address :: l' =>
      match utilToSinful try_address with
      | None => utilCrucialError
      | Some sinful_addr =>
          had_addresses my_addr usePrimary number (counter - 1) l' (had_address my_addr usePrimary number counter sinful_addr r)
      end
  end.
(** getHadList(): the lists are appended to, [selfId] is left alone when the daemon is not found. *)
Definition getHadList (str : bytes) (usePrimary : bool) (otherIps allIps : StringList) (selfId : Z) : M HadList :=
  let had_list := strings (new_StringList (Some str) default_delim) in
  let number := Z.of_nat (length had_list) in
  let my_addr := new_Sinful (InfoCommandSinfulString host) in
  match InfoCommandSinfulString host with
  | None => crash
  | Some _ =>
      if negb (m_valid my_addr) then crash
      else r <- had_addresses my_addr usePrimary number (number - 1) had_list (mkHadList otherIps allIps selfId false false);;
           if hl_present r then ret r else utilCrucialError
  end.

(** initializeClassAd() *)
Definition initializeClassAd : M unit :=
  upd_st (fun st => st <| m_classAd := Some (mkHadAd (m_name st) (InfoCommandSinfulString host) (ActiveBool false)
    (default (s2b "UNKNOWN") (print_to_string (m_allHadIps st))) (m_controlleeName st)
    (sl_number (m_allHadIps st) - 1 - m_selfId st) (m_selfId st)) |>).

(** setReplicationDaemonSinfulString(): the walk over REPLICATION_LIST with the index counting down. *)
Fixpoint find_replicator (selfId : Z) (myhost : option bytes) (index : Z) (l : list bytes) : M (option bytes) :=
  match l with
  | [] => ret None
  | replicationAddress :: l' =>
      match utilToSinful replicationAddress with
      | None => utilCrucialError
      | Some sinfulAddress =>
          if index =? selfId then
            if both_equal (getHostFromAddr (Some sinfulAddress)) myhost then ret (Some sinfulAddress) else utilCrucialError
          else find_replicator selfId myhost (index - 1) l'
      end
  end.
Definition setReplicationDaemonSinfulString : M unit :=
  st <- get;;
  if negb (m_useReplication st) then ret tt
  else match REPLICATION_LIST config with
       | None => utilCrucialError
       | Some tmp =>
           let l := strings (new_StringList (Some tmp) default_delim) in
           r <- find_replicator (m_selfId st) (getHostFromAddr (InfoCommandSinfulString host)) (Z.of_nat (length l) - 1) l;;
           match r with
           | Some addr => upd_st (fun st => st <| m_replicationDaemonSinfulString := Some addr |>)
           | None => upd_st (fun st => st <| m_useReplication := false |>)
           end
       end.

(** softReconfigure(); HAD_STAND_ALONE_DEBUG does not change anything. *)
Definition had_interval (connectionTimeout others : Z) : Z :=
  let time_to_send_all := wrap32 (connectionTimeout * 2) in
  let time_to_send_all := wrap32 (time_to_send_all * (others + 1)) in
  wrap32 ((time_to_send_all + 1) * MESSAGES_PER_INTERVAL_FACTOR).
Definition softReconfigure : M unit :=
  upd_st (fun st => st <| m_standAloneMode := false |> <| m_connectionTimeout := DEFAULT_SEND_COMMAND_TIMEOUT |>
                    <| m_hadInterval := -1 |> <| m_useReplication := false |> <| m_updateCollectorInterval := -1 |>
                    <| m_replicationDaemonSinfulString := None |>
                    <| m_name := default (s2b "UNKNOWN") (my_username host) ++ s2b "@" ++ my_full_hostname host |>);;;
  upd_st (fun st => st <| m_connectionTimeout := default DEFAULT_SEND_COMMAND_TIMEOUT (HAD_CONNECTION_TIMEOUT config) |>);;;
  upd_st (fun st => st <| m_hadInterval := had_interval (m_connectionTimeout st) (sl_number (m_otherHadIps st)) |>
                    <| m_useReplication := default (m_useReplication st) (HAD_USE_REPLICATION config) |>);;;
  setReplicationDaemonSinfulString;;;
  initializeClassAd;;;
  upd_st (fun st => st <| m_updateCollectorInterval := default DEFAULT_HAD_UPDATE_INTERVAL (HAD_UPDATE_INTERVAL config) |>
                    <| m_otherHadIps ::= fun l => l <| m_strings := mkSeq (strings l) (length (strings l)) |> |>).

Definition reinitialize : M unit :=
  freeResources;;;
  upd_st (fun st => st <| m_masterDaemon := true |> <| m_controlleeName := default (s2b "NEGOTIATOR") (HAD_CONTROLLEE config) |>
                    <| m_usePrimary := default (m_usePrimary st) (HAD_USE_PRIMARY config) |>);;;
  st <- get;;
  match HAD_LIST config with
  | None => utilCrucialError
  | Some tmp =>
      r <- getHadList tmp (m_usePrimary st) (m_otherHadIps st) (m_allHadIps st) (m_selfId st);;
      upd_st (fun st => st <| m_isPrimary := hl_primary r |> <| m_otherHadIps := hl_other r |> <| m_allHadIps := hl_all r |>
                        <| m_selfId := hl_selfId r |>)
  end;;;
  softReconfigure;;;
  id <- Register_Timer (mkTimer 0 0 CycleTimer);;
  upd_st (fun st => st <| m_stateMachineTimerID := id |>);;;
  st <- get;;
  id <- Register_Timer (mkTimer 0 (m_updateCollectorInterval st) UpdateCollectorsTimer);;
  upd_st (fun st => st <| m_updateCollectorTimerId := id |>);;;
  st <- get;;
  if m_standAloneMode st then ret tt
  else ok <- sendControlCmdToMaster CHILD_OFF_FAST;;
       if ok : bool then ret tt else utilCrucialError.

(** The constructor, and initialize() without the registration of the two commands. *)
Definition new_HADStateMachine : HADStateMachine :=
  mkHAD PRE_STATE (-1) (-1) DEFAULT_SEND_COMMAND_TIMEOUT 0 (-1) false false (new_StringList None default_delim)
    (new_StringList None default_delim) false [] [] [] false false None [] None (-1) (-1).
Definition main_init (w : World) : result unit := reinitialize new_HADStateMachine w.

(** isHardConfigurationNeeded(): the new list is read but m_allHadIps is compared with itself. *)
Definition isHardConfigurationNeeded : M bool :=
  st <- get;;
  let controllee := take 127 (default (s2b "NEGOTIATOR") (HAD_CONTROLLEE config)) in
  if negb (strcaseeq controllee (m_controlleeName st)) then ret true
  else if negb (Bool.eqb (default false (HAD_USE_PRIMARY config)) (m_usePrimary st)) then ret true
  else match HAD_LIST config with
       | None => utilCrucialError
       | Some tmp =>
           r <- getHadList tmp (m_usePrimary st) (new_StringList None default_delim) (new_StringList None default_delim) (-1);;
           st <- get;;
           ret (negb (m_selfId st =? hl_selfId r) || negb (identical (m_allHadIps st) (m_allHadIps st) true))
       end.
Definition main_config : M unit :=
  hard <- isHardConfigurationNeeded;;
  if hard : bool then reinitialize else softReconfigure.

(** ** The state machine *)

(** updateCollectorsClassAd() *)
Definition set_HadIsActive (value : bytes) (ad : HadAd) : HadAd :=
  mkHadAd (ATTR_NAME ad) (ATTR_MY_ADDRESS ad) (ActiveString value) (ATTR_HAD_LIST ad) (ATTR_HAD_CONTROLLEE_NAME ad) (ATTR_HAD_INDEX ad) (ATTR_HAD_SELF_ID ad).
Definition updateCollectorsClassAd (isHadActive : bytes) : M unit :=
  upd_st (fun st => st <| m_classAd ::= fmap (set_HadIsActive isHadActive) |>);;;
  st <- get;;
  emit (UPDATE_HAD_AD (m_classAd st)).
(** updateCollectors(), the timer handler *)
Definition updateCollectors : M unit :=
  st <- get;;
  (match m_classAd st with Some _ => emit (UPDATE_HAD_AD (m_classAd st)) | None => ret tt end);;;
  id <- utilCancelTimer (m_updateCollectorTimerId st);;
  upd_st (fun st => st <| m_updateCollectorTimerId := id |>);;;
  id <- Register_Timer (mkTimer (m_updateCollectorInterval st) 0 UpdateCollectorsTimer);;
  upd_st (fun st => st <| m_updateCollectorTimerId := id |>).

Definition checkList (selfId : Z) (l : list Z) : bool := forallb (fun id => negb (selfId <? id)) l.
Definition IsNil (l : list Z) : bool := match l with [] => true | _ => false end.
Definition set_state (s : STATES) : M unit := upd_st (fun st => st <| m_state := s |>).

Definition step : M unit :=
  st <- get;;
  match m_state st with
  | PRE_STATE => set_state PASSIVE_STATE;;; clearBuffers
  | PASSIVE_STATE =>
      if IsNil (receivedAliveList st) || m_isPrimary st then set_state ELECTION_STATE
      else clearBuffers
  | ELECTION_STATE =>
      if negb (IsNil (receivedAliveList st)) && negb (m_isPrimary st) then set_state PASSIVE_STATE;;; clearBuffers
      else if negb (checkList (m_selfId st) (receivedIdList st)) then set_state PASSIVE_STATE;;; clearBuffers
      else
        (if m_standAloneMode st && m_useReplication st then _ <- sendReplicationCommand HAD_AFTER_ELECTION_STATE;; ret tt else ret tt);;;
        if m_standAloneMode st then
          set_state LEADER_STATE;;; updateCollectorsClassAd (s2b "True");;; clearBuffers
        else
          returnValue <- sendControlCmdToMaster CHILD_ON;;
          (if returnValue && m_useReplication st then _ <- sendReplicationCommand HAD_AFTER_ELECTION_STATE;; ret tt else ret tt);;;
          (if returnValue : bool then set_state LEADER_STATE;;; updateCollectorsClassAd (s2b "True") else utilCrucialError);;;
          clearBuffers
  | LEADER_STATE =>
      if negb (IsNil (receivedAliveList st)) && negb (checkList (m_selfId st) (receivedAliveList st)) then
        set_state PASSIVE_STATE;;;
        updateCollectorsClassAd (s2b "False");;;
        (if m_useReplication st then _ <- sendReplicationCommand HAD_AFTER_LEADER_STATE;; ret tt else ret tt);;;
        (if negb (m_standAloneMode st) then _ <- sendControlCmdToMaster CHILD_OFF_FAST;; ret tt else ret tt);;;
        clearBuffers
      else
        (if m_useReplication st then _ <- sendReplicationCommand HAD_IN_LEADER_STATE;; ret tt else ret tt);;;
        clearBuffers
  end.

(** sendCommandToOthers(): a peer that is not reached is skipped. *)
Fixpoint send_to (comm : command) (addrs : list bytes) : M unit :=
  match addrs with
  | [] => ret tt
  | addr :: addrs' =>
      st <- get;;
      ok <- reach (TheHad addr);;
      emit (ToHad comm addr (m_classAd st) ok);;;
      send_to comm addrs'
  end.
Definition sendCommandToOthers (comm : command) : M bool :=
  st <- get;;
  send_to comm (strings (m_otherHadIps st));;;
  upd_st (fun st => st <| m_otherHadIps ::= fun l => l <| m_strings := mkSeq (strings l) (length (strings l)) |> |>);;;
  ret true.
Definition sendMessages : M bool :=
  st <- get;;
  match m_state st with
  | ELECTION_STATE => sendCommandToOthers HAD_SEND_ID_CMD
  | LEADER_STATE => sendCommandToOthers HAD_ALIVE_CMD
  | _ => ret false
  end.

Definition cycle : M unit :=
  st <- get;;
  id <- utilCancelTimer (m_stateMachineTimerID st);;
  upd_st (fun st => st <| m_stateMachineTimerID := id |>);;;
  id <- Register_Timer (mkTimer (Z.quot (m_hadInterval st) MESSAGES_PER_INTERVAL_FACTOR) 0 CycleTimer);;
  upd_st (fun st => st <| m_stateMachineTimerID := id |>);;;
  (if m_callsCounter st =? 0 then step else ret tt);;;
  _ <- sendMessages;;
  upd_st (fun st => st <| m_callsCounter ::= fun c => Z.rem (c + 1) MESSAGES_PER_INTERVAL_FACTOR |>).

(** ** What a HAD receives *)

(** The attributes of a received ad, as LookupInteger() and LookupString() find them. *)
Record Message := mkMessage { msg_id : option Z; msg_controllee : option bytes; msg_list : option bytes }.
Definition message_of (ad : option HadAd) : Message :=
  match ad with
  | Some ad => mkMessage (Some (ATTR_HAD_SELF_ID ad)) (Some (ATTR_HAD_CONTROLLEE_NAME ad)) (Some (ATTR_HAD_LIST ad))
  | None => mkMessage None None None
  end.
(** LookupString() into a buffer of 1024 bytes leaves a longer value without its NUL, and the
    comparison that follows reads on past the buffer. *)
Definition fits (s : bytes) : bool := (length s <? 1024)%nat.
Definition pushReceivedAlive (id : Z) : M unit := upd_st (fun st => st <| receivedAliveList ::= fun l => l ++ [id] |>).
Definition pushReceivedId (id : Z) : M unit := upd_st (fun st => st <| receivedIdList ::= fun l => l ++ [id] |>).
(** commandHandlerHad(); [None] when the ad or the end of the message cannot be read. *)
Definition commandHandlerHad (cmd : command) (strm : option Message) : M bool :=
  match strm with
  | None => ret false
  | Some msg =>
      match msg_id msg with
      | None => ret false
      | Some new_id =>
          match msg_controllee msg with
          | None => ret false
          | Some buf =>
              if negb (fits buf) then crash
              else
              st <- get;;
              if negb (strcaseeq buf (m_controlleeName st)) then ret false
              else match msg_list msg with
                   | None => ret false
                   | Some buf =>
                       if negb (fits buf) then crash
                       else (match cmd with
                             | HAD_ALIVE_CMD => pushReceivedAlive new_id
                             | HAD_SEND_ID_CMD => pushReceivedId new_id
                             | _ => ret tt
                             end);;; ret true
                   end
          end
      end
  end.

End daemon.
Arguments checkList : simpl never.
Arguments fits : simpl never.

(** ** The state machine without its surroundings *)

(** The state and the buffers of a daemon, and one step of them for a daemon with identity [id]. *)
Record Node := mkNode { n_state : STATES; n_alive : list Z; n_ids : list Z }.
Definition node_of (st : HADStateMachine) : Node := mkNode (m_state st) (receivedAliveList st) (receivedIdList st).
Definition node_step (id : Z) (primary : bool) (n : Node) : Node :=
  match n_state n with
  | PRE_STATE => mkNode PASSIVE_STATE [] []
  | PASSIVE_STATE => if IsNil (n_alive n) || primary then mkNode ELECTION_STATE (n_alive n) (n_ids n) else mkNode PASSIVE_STATE [] []
  | ELECTION_STATE =>
      if negb (IsNil (n_alive n)) && negb primary then mkNode PASSIVE_STATE [] []
      else if checkList id (n_ids n) then mkNode LEADER_STATE [] [] else mkNode PASSIVE_STATE [] []
  | LEADER_STATE => if checkList id (n_alive n) then mkNode LEADER_STATE [] [] else mkNode PASSIVE_STATE [] []
  end.
(** The command that sendMessages() sends in a state. *)
Definition announces (s : STATES) : option command :=
  match s with ELECTION_STATE => Some HAD_SEND_ID_CMD | LEADER_STATE => Some HAD_ALIVE_CMD | _ => None end.

(** The commands to the master among the events, the latest first, and whether they arrived. *)
Definition master_cmd (e : Event) : option (command * bool) := match e with ToMaster c _ ok => Some (c, ok) | _ => None end.
Definition master_cmds (es : list Event) : list (command * bool) := omap master_cmd es.
Definition had_cmd (e : Event) : option (command * bytes * option HadAd * bool) :=
  match e with ToHad c a ad ok => Some (c, a, ad, ok) | _ => None end.
Definition had_cmds (es : list Event) : list (command * bytes * option HadAd * bool) := omap had_cmd es.

(** What the handlers of the state machine leave alone. *)
Definition settings (st : HADStateMachine) :=
  (m_hadInterval st, m_connectionTimeout st, m_selfId st, m_isPrimary st, m_usePrimary st, strings (m_otherHadIps st),
   (strings (m_allHadIps st), m_masterDaemon st, m_controlleeName st, m_standAloneMode st, m_useReplication st,
    m_replicationDaemonSinfulString st, m_name st, m_updateCollectorInterval st), message_of (m_classAd st)).
(** A daemon that has been initialized. *)
Definition ready (st : HADStateMachine) : Prop :=
  m_masterDaemon st = true /\ m_standAloneMode st = false /\ (m_useReplication st = true -> is_Some (m_replicationDaemonSinfulString st)).
Definition timer_ids (st : HADStateMachine) : Z * Z := (m_stateMachineTimerID st, m_updateCollectorTimerId st).

Section proofs.
Context (reaches : list Event -> Peer -> bool).

Lemma message_set_active v ad : message_of (set_HadIsActive v <$> ad) = message_of ad.
Proof. by destruct ad. Qed.

(** What the transition from [s] to [s'] tells the master. *)
Definition change_cmds (s s' : STATES) (cmds : list (command * bool)) : Prop :=
  match s, s' with
  | LEADER_STATE, LEADER_STATE => cmds = []
  | _, LEADER_STATE => cmds = [(CHILD_ON, true)]
  | LEADER_STATE, _ => exists ok, cmds = [(CHILD_OFF_FAST, ok)]
  | _, _ => cmds = []
  end.

Lemma master_cmds_app es es' : master_cmds (es ++ es') = master_cmds es ++ master_cmds es'.
Proof. apply omap_app. Qed.

(** freeResources() and with it utilCrucialError() switch the controlled daemon off. *)
Lemma freeResources_spec st w :
  exists st' w', freeResources reaches st w = Ok tt st' w' /\ m_state st' = PRE_STATE /\ m_masterDaemon st' = false /\
    m_standAloneMode st' = false /\ m_useReplication st' = false /\ receivedAliveList st' = [] /\ receivedIdList st' = [] /\
    m_callsCounter st' = 0 /\ m_otherHadIps st' = m_otherHadIps st /\ m_allHadIps st' = m_allHadIps st /\ m_selfId st' = -1 /\
    m_usePrimary st' = false /\
    (timers w' = (if 0 <=? m_updateCollectorTimerId st then delete (m_updateCollectorTimerId st) else id)
                 ((if 0 <=? m_stateMachineTimerID st then delete (m_stateMachineTimerID st) else id) (timers w))) /\
    next_timer w' = next_timer w /\
    exists es, events w' = es ++ events w /\ had_cmds es = [] /\
      (if m_masterDaemon st then exists ok, master_cmds es = [(CHILD_OFF_FAST, ok)] else master_cmds es = []).
Proof.
  unfold freeResources, sendControlCmdToMaster, utilCancelTimer, clearBuffers, bind, upd_st, get, reach, emit, ret.
  destruct st as [????????????????????]. cbn. destruct m_masterDaemon0; cbn;
    destruct (0 <=? m_stateMachineTimerID0), (0 <=? m_updateCollectorTimerId0); cbn;
    eexists _, _; split_and!; try done; try (eexists [_]; split_and!; [done|done|by eexists]); try (by exists []).
Qed.

Lemma utilCrucialError_spec {A} st w :
  m_masterDaemon st = true ->
  exists w' es ok, utilCrucialError reaches st w = @Exited A w' /\ events w' = es ++ events w /\ master_cmds es = [(CHILD_OFF_FAST, ok)].
Proof.
  intros Hm. unfold utilCrucialError, destroy, bind.
  destruct (freeResources_spec st w) as (st' & w' & -> & _ & _ & _ & _ & _ & _ & _ & _ & _ & _ & _ & _ & _ & es & He & _ & Hc).
  rewrite Hm in Hc. destruct Hc as [ok Hc]. cbn. eexists _, (_ :: es), ok. split; [done|]. cbn. rewrite He. done.
Qed.

(** The outcome of a handler that cannot end the daemon other than through utilCrucialError(). *)
Definition ends_well {A} (r : result A) (w : World) (Q : A -> HADStateMachine -> World -> Prop) : Prop :=
  match r with
  | Ok a st w => Q a st w
  | Exited w' => exists es ok, events w' = es ++ events w /\ head (master_cmds es) = Some (CHILD_OFF_FAST, ok)
  | Excepted _ => False
  end.

Lemma step_spec st w :
  ready st ->
  ends_well (step reaches st w) w (fun _ st' w' =>
    node_of st' = node_step (m_selfId st) (m_isPrimary st) (node_of st) /\ settings st' = settings st /\
    m_callsCounter st' = m_callsCounter st /\ timer_ids st' = timer_ids st /\ timers w' = timers w /\ next_timer w' = next_timer w /\
    exists es, events w' = es ++ events w /\ had_cmds es = [] /\ change_cmds (m_state st) (m_state st') (master_cmds es)).
Proof.
  intros (Hm & Hs & Hr). unfold step, node_step, node_of, sendControlCmdToMaster, sendReplicationCommand, updateCollectorsClassAd,
    clearBuffers, set_state, bind, upd_st, get, reach, emit, ret. cbn.
  destruct (m_state st) eqn:Est; cbn.
  - split_and!; try done. exists []. done.
  - destruct (IsNil (receivedAliveList st) || m_isPrimary st); cbn; rewrite ?Est; (split_and!; try done; by exists []).
  - destruct (negb (IsNil (receivedAliveList st)) && negb (m_isPrimary st)); cbn; [split_and!; try done; by exists []|].
    destruct (checkList (m_selfId st) (receivedIdList st)); cbn; [|split_and!; try done; by exists []].
    rewrite Hs. cbn. rewrite Hm. cbn. destruct (reaches (events w) TheMaster) eqn:Ea; cbn.
    + destruct (m_useReplication st); cbn.
      * destruct (Hr eq_refl) as [a Ha]. rewrite Ha, Hm. cbn. split_and!; try done.
        { unfold settings. cbn. by rewrite message_set_active. }
        eexists [_; _; _]. split; [done|]. done.
      * split_and!; try done. { unfold settings. cbn. by rewrite message_set_active. }
        eexists [_; _]. split; [done|]. done.
    + destruct (@utilCrucialError_spec unit st (w <| events ::= cons (ToMaster CHILD_ON (m_controlleeName st) false) |>) Hm) as (w' & es & ok & E & He & Hc).
      unfold set_field, events_setter in E, He. cbn in E, He. unfold set_field, events_setter. cbn. rewrite E. cbn.
      exists (es ++ [ToMaster CHILD_ON (m_controlleeName st) false]), ok. rewrite He, <- app_assoc. split; [done|].
      by rewrite master_cmds_app, Hc.
  - assert (E : negb (IsNil (receivedAliveList st)) && negb (checkList (m_selfId st) (receivedAliveList st)) = negb (checkList (m_selfId st) (receivedAliveList st))).
    { by destruct (receivedAliveList st). }
    rewrite E. destruct (checkList (m_selfId st) (receivedAliveList st)); cbn.
    + destruct (m_useReplication st); cbn.
      * destruct (Hr eq_refl) as [a Ha]. rewrite Ha, Hm. cbn. rewrite !Est. split_and!; try done. eexists [_]. done.
      * rewrite !Est. split_and!; try done. by exists [].
    + destruct (m_useReplication st); cbn.
      * destruct (Hr eq_refl) as [a Ha]. rewrite Ha, Hm, Hs. cbn. rewrite Hm. cbn. split_and!; try done.
        { unfold settings. cbn. by rewrite message_set_active. }
        eexists [_; _; _]. split_and!; try done. by eexists.
      * rewrite Hs. cbn. rewrite Hm. cbn. split_and!; try done. { unfold settings. cbn. by rewrite message_set_active. }
        eexists [_; _]. split_and!; try done. by eexists.
Qed.

Definition sends (c : command) (ad : option HadAd) (addrs : list bytes) (oks : list bool) : list Event :=
  reverse (zip_with (fun a ok => ToHad c a ad ok) addrs oks).
Lemma omap_reverse {A B} (f : A -> option B) l : omap f (reverse l) = reverse (omap f l).
Proof.
  induction l as [|x l IH]; [done|]. rewrite reverse_cons, omap_app, IH. cbn [omap list_omap]. destruct (f x); [by rewrite reverse_cons|by rewrite app_nil_r].
Qed.
Lemma sends_masters c ad addrs oks : master_cmds (sends c ad addrs oks) = [].
Proof.
  unfold sends, master_cmds. rewrite omap_reverse. transitivity (reverse (@nil (command * bool))); [f_equal|done].
  revert oks. induction addrs as [|a addrs IH]; intros [|ok oks]; cbn; done.
Qed.
Lemma sends_hads c ad addrs oks : had_cmds (sends c ad addrs oks) = reverse (zip_with (fun a ok => (c, a, ad, ok)) addrs oks).
Proof.
  unfold sends, had_cmds. rewrite omap_reverse. f_equal. revert oks. induction addrs as [|a addrs IH]; intros [|ok oks]; cbn; [done..|]. by rewrite IH.
Qed.

(** A message to a daemon that is always reached arrives. *)
Definition arrival (a : bytes) (ok : bool) : Prop := (forall es, reaches es (TheHad a) = true) -> ok = true.

Lemma send_to_spec c addrs st w :
  exists oks, Forall2 arrival addrs oks /\
    send_to reaches c addrs st w = Ok tt st (w <| events ::= app (sends c (m_classAd st) addrs oks) |>).
Proof.
  revert w. induction addrs as [|a addrs IH]; intros w.
  - exists []. split; [constructor|]. by destruct w.
  - cbn [send_to]. unfold bind at 1 2 3, get, reach, emit.
    destruct (IH (w <| events ::= cons (ToHad c a (m_classAd st) (reaches (events w) (TheHad a))) |>)) as (oks & Ho & E).
    exists (reaches (events w) (TheHad a) :: oks). split; [constructor; [intros H; apply H|done]|].
    rewrite E. destruct w as [es ts n]. unfold sends, set_field, events_setter. cbn [zip_with events timers next_timer].
    by rewrite reverse_cons, <- app_assoc.
Qed.

(** What a cycle makes of the state and the buffers. *)
Definition cycled (st : HADStateMachine) : Node :=
  if m_callsCounter st =? 0 then node_step (m_selfId st) (m_isPrimary st) (node_of st) else node_of st.

(** What sendMessages() sends. *)
Definition sent (st : HADStateMachine) (cmds : list (command * bytes * option HadAd * bool)) : Prop :=
  match announces (m_state st) with
  | None => cmds = []
  | Some c => exists oks, Forall2 arrival (strings (m_otherHadIps st)) oks /\
      cmds = reverse (zip_with (fun a ok => (c, a, m_classAd st, ok)) (strings (m_otherHadIps st)) oks)
  end.

Lemma sendMessages_spec st w :
  exists b st' w' es, sendMessages reaches st w = Ok b st' w' /\ node_of st' = node_of st /\ settings st' = settings st /\
    m_callsCounter st' = m_callsCounter st /\ timer_ids st' = timer_ids st /\ m_classAd st' = m_classAd st /\
    timers w' = timers w /\ next_timer w' = next_timer w /\ events w' = es ++ events w /\
    master_cmds es = [] /\ sent st' (had_cmds es).
Proof.
  unfold sendMessages, sent, bind, get.
  assert (G : forall c, exists st' w' es, sendCommandToOthers reaches c st w = Ok true st' w' /\ node_of st' = node_of st /\ settings st' = settings st /\
    m_callsCounter st' = m_callsCounter st /\ timer_ids st' = timer_ids st /\ m_classAd st' = m_classAd st /\
    timers w' = timers w /\ next_timer w' = next_timer w /\ events w' = es ++ events w /\ master_cmds es = [] /\
    exists oks, Forall2 arrival (strings (m_otherHadIps st')) oks /\
      had_cmds es = reverse (zip_with (fun a ok => (c, a, m_classAd st', ok)) (strings (m_otherHadIps st')) oks)).
  { intros c. unfold sendCommandToOthers, bind, get. destruct (send_to_spec c (strings (m_otherHadIps st)) st w) as (oks & Ho & ->).
    eexists _, _, (sends c (m_classAd st) (strings (m_otherHadIps st)) oks). split; [done|].
    split_and!; try done; [apply sends_masters|]. exists oks. rewrite sends_hads. done. }
  destruct (m_state st) eqn:Est.
  - exists false, st, w, []. rewrite Est. done.
  - exists false, st, w, []. rewrite Est. done.
  - destruct (G HAD_SEND_ID_CMD) as (st' & w' & es & -> & Hn & H). exists true, st', w', es. split; [done|]. split; [done|].
    assert (m_state st' = ELECTION_STATE) as -> by (by injection Hn; intros; congruence). cbn [announces]. tauto.
  - destruct (G HAD_ALIVE_CMD) as (st' & w' & es & -> & Hn & H). exists true, st', w', es. split; [done|]. split; [done|].
    assert (m_state st' = LEADER_STATE) as -> by (by injection Hn; intros; congruence). cbn [announces]. tauto.
Qed.

Lemma node_state st st' : node_of st' = node_of st -> m_state st' = m_state st.
Proof. by intros [= -> _ _]. Qed.

(** A cycle first sets its timer again. *)
Definition timed (st : HADStateMachine) (w : World) : World :=
  mkWorld (events w) (<[next_timer w := mkTimer (Z.quot (m_hadInterval st) 2) 0 CycleTimer]>
    ((if 0 <=? m_stateMachineTimerID st then delete (m_stateMachineTimerID st) else id) (timers w))) (next_timer w + 1).
Lemma cycle_body st w :
  cycle reaches st w =
  bind (if m_callsCounter st =? 0 then step reaches else ret tt) (fun _ =>
  bind (sendMessages reaches) (fun _ => upd_st (fun st => st <| m_callsCounter ::= fun c => Z.rem (c + 1) MESSAGES_PER_INTERVAL_FACTOR |>)))
    (st <| m_stateMachineTimerID := next_timer w |>) (timed st w).
Proof.
  unfold cycle, bind at 1 2 3 4 5, get, upd_st at 1 2, utilCancelTimer, Register_Timer, timed. destruct (0 <=? m_stateMachineTimerID st); done.
Qed.

(** As long as the master is reached, no cycle ends the daemon. *)
Lemma step_goes_on st w : (forall es, reaches es TheMaster = true) -> ready st -> forall w', step reaches st w <> Exited w'.
Proof.
  intros Hre (Hm & Hs & Hr) w'. unfold step, sendControlCmdToMaster, sendReplicationCommand, updateCollectorsClassAd,
    clearBuffers, set_state, bind, upd_st, get, reach, emit, ret. cbn. rewrite Hs. cbn.
  destruct (m_state st); cbn; try done.
  - by destruct (IsNil (receivedAliveList st) || m_isPrimary st).
  - destruct (negb (IsNil (receivedAliveList st)) && negb (m_isPrimary st)); cbn; [done|].
    destruct (checkList (m_selfId st) (receivedIdList st)); cbn; [|done]. rewrite Hm. cbn. rewrite Hre. cbn.
    destruct (m_useReplication st); cbn; [|done]. destruct (Hr eq_refl) as [a Ha]. by rewrite Ha, Hm.
  - destruct (negb (IsNil (receivedAliveList st)) && negb (checkList (m_selfId st) (receivedAliveList st))); cbn.
    + destruct (m_useReplication st); cbn; [destruct (Hr eq_refl) as [a Ha]; rewrite Ha, Hm|]; cbn; rewrite Hm; done.
    + destruct (m_useReplication st); cbn; [destruct (Hr eq_refl) as [a Ha]; rewrite Ha, Hm|]; done.
Qed.
Lemma cycle_goes_on st w : (forall es, reaches es TheMaster = true) -> ready st -> forall w', cycle reaches st w <> Exited w'.
Proof.
  intros Hre Hr w'. rewrite cycle_body. unfold bind at 1.
  assert (H : forall w', (if m_callsCounter st =? 0 then step reaches else ret tt) (st <| m_stateMachineTimerID := next_timer w |>) (timed st w) <> Exited w').
  { intros w2. destruct (m_callsCounter st =? 0); [by apply step_goes_on|done]. }
  destruct ((if m_callsCounter st =? 0 then step reaches else ret tt) _ _) as [[] st2 w2|w2|w2]; [|by destruct (H w2)|done].
  unfold bind. destruct (sendMessages_spec st2 w2) as (b & st3 & w3 & es3 & -> & _). done.
Qed.

Lemma cycle_spec st w :
  ready st ->
  ends_well (cycle reaches st w) w (fun _ st' w' =>
    node_of st' = cycled st /\ settings st' = settings st /\ m_callsCounter st' = Z.rem (m_callsCounter st + 1) 2 /\
    timer_ids st' = (next_timer w, m_updateCollectorTimerId st) /\
    timers w' = <[next_timer w := mkTimer (Z.quot (m_hadInterval st) 2) 0 CycleTimer]>
                  ((if 0 <=? m_stateMachineTimerID st then delete (m_stateMachineTimerID st) else id) (timers w)) /\
    next_timer w' = next_timer w + 1 /\
    exists es, events w' = es ++ events w /\ change_cmds (m_state st) (m_state st') (master_cmds es) /\ sent st' (had_cmds es)).
Proof.
  intros Hr. rewrite cycle_body. set (st1 := st <| m_stateMachineTimerID := next_timer w |>). set (w1 := timed st w).
  assert (E2 : ends_well ((if m_callsCounter st =? 0 then step reaches else ret tt) st1 w1) w (fun _ st' w' =>
    node_of st' = cycled st /\ settings st' = settings st /\ m_callsCounter st' = m_callsCounter st /\ timer_ids st' = timer_ids st1 /\
    timers w' = timers w1 /\ next_timer w' = next_timer w1 /\
    exists es, events w' = es ++ events w /\ had_cmds es = [] /\ change_cmds (m_state st) (m_state st') (master_cmds es))).
  { unfold cycled. destruct (m_callsCounter st =? 0); [exact (step_spec st1 w1 Hr)|].
    cbn. split_and!; try done. exists []. split_and!; try done. by destruct (m_state st). }
  unfold bind at 1. destruct ((if m_callsCounter st =? 0 then step reaches else ret tt) st1 w1) as [[] st2 w2|w2|w2]; [|done|done].
  cbn [ends_well] in E2. destruct E2 as (Hn & Hs & Hc & Ht & Hts & Hnt & es & He & Hh & Hm).
  unfold bind. destruct (sendMessages_spec st2 w2) as (b & st3 & w3 & es3 & -> & Hn3 & Hs3 & Hc3 & Ht3 & Ha3 & Hts3 & Hnt3 & He3 & Hm3 & Hh3).
  cbn [ends_well]. unfold upd_st. split_and!.
  - exact (eq_trans Hn3 Hn).
  - exact (eq_trans Hs3 Hs).
  - change (Z.rem (m_callsCounter st3 + 1) 2 = Z.rem (m_callsCounter st + 1) 2). congruence.
  - exact (eq_trans Ht3 Ht).
  - etransitivity; [exact Hts3|]. exact Hts.
  - etransitivity; [exact Hnt3|]. exact Hnt.
  - exists (es3 ++ es). split_and!.
    + rewrite He3, He. by rewrite app_assoc.
    + rewrite master_cmds_app, Hm3. unfold set_field, m_callsCounter_setter. cbn [m_state app]. by rewrite (node_state _ _ Hn3).
    + unfold had_cmds in *. rewrite omap_app, Hh, app_nil_r. exact Hh3.
Qed.
Context (is_ip_string : bytes -> bool) (resolve_hostname : bytes -> list bytes).

Lemma crucial_ends_well {A} st w Q : m_masterDaemon st = true -> ends_well (@utilCrucialError reaches A st w) w Q.
Proof.
  intros Hm. destruct (@utilCrucialError_spec A st w Hm) as (w' & es & ok & -> & He & Hc). cbn. exists es, ok. by rewrite Hc.
Qed.
Lemma ends_well_bind {A B} (m : M A) (f : A -> M B) st w Q Q' :
  ends_well (m st w) w (fun a st' w' => exists es, events w' = es ++ events w /\ Q' a st' w' es) ->
  (forall a st' w' es, Q' a st' w' es -> events w' = es ++ events w -> ends_well (f a st' w') w' Q) ->
  ends_well (bind m f st w) w Q.
Proof.
  unfold bind. destruct (m st w) as [a st' w'|w'|w']; cbn; [|tauto..]. intros (es & He & HQ) Hf. specialize (Hf _ _ _ _ HQ He).
  destruct (f a st' w') as [b st2 w2|w2|w2]; cbn in *; try done. destruct Hf as (es2 & ok & He2 & Hc).
  exists (es2 ++ es), ok. rewrite He2, He, app_assoc. split; [done|]. rewrite master_cmds_app. destruct (master_cmds es2); done.
Qed.

Lemma bind_upd_st {B} f (k : unit -> M B) st w : bind (upd_st f) k st w = k tt (f st) w.
Proof. reflexivity. Qed.
Lemma bind_get {B} (k : HADStateMachine -> M B) st w : bind get k st w = k st st w.
Proof. reflexivity. Qed.

Section configuration.
Context (host : Host).
Definition host_ok : Prop := is_Some (InfoCommandSinfulString host) /\ m_valid (new_Sinful (InfoCommandSinfulString host)) = true.

Lemma had_addresses_spec my usep n l : forall c r st w,
  m_masterDaemon st = true ->
  ends_well (had_addresses reaches is_ip_string resolve_hostname my usep n c l r st w) w (fun _ st' w' => exists es, events w' = es ++ events w /\ st' = st /\ w' = w).
Proof.
  induction l as [|a l IH]; intros c r st w Hm; cbn [had_addresses].
  - cbn. exists []. done.
  - destruct (utilToSinful _ _ a); [by apply IH|by apply crucial_ends_well].
Qed.
Lemma getHadList_spec str usep o a i st w :
  host_ok -> m_masterDaemon st = true ->
  ends_well (getHadList reaches is_ip_string resolve_hostname host str usep o a i st w) w (fun _ st' w' => exists es, events w' = es ++ events w /\ st' = st /\ w' = w).
Proof.
  intros [[x Hx] Hv] Hm. unfold getHadList. rewrite Hx in *. rewrite Hv. cbn [negb].
  eapply ends_well_bind; [by apply had_addresses_spec|]. cbn. intros r st' w' es [-> ->] _.
  destruct (hl_present r); [cbn; exists []; done|by apply crucial_ends_well].
Qed.
Lemma find_replicator_spec i h l : forall n st w,
  m_masterDaemon st = true ->
  ends_well (find_replicator reaches is_ip_string resolve_hostname i h n l st w) w (fun _ st' w' => exists es, events w' = es ++ events w /\ st' = st /\ w' = w).
Proof.
  induction l as [|a l IH]; intros n st w Hm; cbn [find_replicator].
  - cbn. by exists [].
  - destruct (utilToSinful _ _ a) as [s|]; [|by apply crucial_ends_well]. destruct (n =? i); [|by apply IH].
    destruct (both_equal _ _); [cbn; by exists []|by apply crucial_ends_well].
Qed.

Lemma setReplication_spec config st w :
  m_masterDaemon st = true ->
  ends_well (setReplicationDaemonSinfulString reaches is_ip_string resolve_hostname host config st w) w (fun _ st' w' =>
    exists es, events w' = es ++ events w /\ w' = w /\
      exists u r, st' = st <| m_useReplication := u |> <| m_replicationDaemonSinfulString := r |> /\ (u = true -> is_Some r)).
Proof.
  intros Hm. unfold setReplicationDaemonSinfulString. unfold bind at 1, get. destruct (m_useReplication st) eqn:Eu; cbn [negb].
  - destruct (REPLICATION_LIST config) as [tmp|]; [|by apply crucial_ends_well].
    eapply ends_well_bind; [by apply find_replicator_spec|]. cbn. intros r st' w' es [-> ->] _.
    destruct r as [a|]; cbn; exists []; (split; [done|]); (split; [done|]).
    + exists true, (Some a). rewrite <- Eu. split; [by destruct st|eauto].
    + exists false, (m_replicationDaemonSinfulString st). split; [by destruct st|done].
  - cbn. exists []. split; [done|]. split; [done|]. exists false, (m_replicationDaemonSinfulString st). rewrite <- Eu. split; [by destruct st|congruence].
Qed.

(** What a soft reconfiguration leaves alone, and what it sets. *)
Definition reconfigured (st st' : HADStateMachine) : Prop :=
  node_of st' = node_of st /\ m_callsCounter st' = m_callsCounter st /\ timer_ids st' = timer_ids st /\ ready st' /\
  m_selfId st' = m_selfId st /\ m_isPrimary st' = m_isPrimary st /\
  strings (m_otherHadIps st') = strings (m_otherHadIps st) /\ m_allHadIps st' = m_allHadIps st /\ m_controlleeName st' = m_controlleeName st /\
  exists ad, m_classAd st' = Some ad /\ ATTR_HAD_IS_ACTIVE ad = ActiveBool false /\ ATTR_HAD_SELF_ID ad = m_selfId st /\
    ATTR_HAD_CONTROLLEE_NAME ad = m_controlleeName st /\ ATTR_HAD_LIST ad = default (s2b "UNKNOWN") (print_to_string (m_allHadIps st)).

Lemma advertise_spec config st u r w :
  m_masterDaemon st = true -> m_standAloneMode st = false -> (u = true -> is_Some r) ->
  exists st', bind (initializeClassAd host) (fun _ =>
    upd_st (fun st => st <| m_updateCollectorInterval := default DEFAULT_HAD_UPDATE_INTERVAL (HAD_UPDATE_INTERVAL config) |>
                    <| m_otherHadIps ::= fun l => l <| m_strings := mkSeq (strings l) (length (strings l)) |> |>))
    (st <| m_useReplication := u |> <| m_replicationDaemonSinfulString := r |>) w = Ok tt st' w /\ reconfigured st st'.
Proof.
  intros Hm Hs Hu. destruct st. eexists. split; [reflexivity|]. unfold reconfigured, node_of, timer_ids, ready. cbn in *.
  split_and!; try done. eexists. done.
Qed.

Lemma softReconfigure_spec config st w :
  m_masterDaemon st = true ->
  ends_well (softReconfigure reaches is_ip_string resolve_hostname host config st w) w (fun _ st' w' => exists es, events w' = es ++ events w /\ w' = w /\ reconfigured st st').
Proof.
  intros Hm. unfold softReconfigure. rewrite !bind_upd_st.
  match goal with |- ends_well (bind _ _ ?st1 _) _ _ => remember st1 as st' eqn:E end.
  assert (F : m_masterDaemon st' = true /\ m_standAloneMode st' = false /\ node_of st' = node_of st /\ m_callsCounter st' = m_callsCounter st /\ timer_ids st' = timer_ids st /\
    m_selfId st' = m_selfId st /\ m_isPrimary st' = m_isPrimary st /\ m_otherHadIps st' = m_otherHadIps st /\ m_allHadIps st' = m_allHadIps st /\
    m_controlleeName st' = m_controlleeName st).
  { subst st'. by destruct st. }
  clear E. destruct F as (Hm' & Hs' & Hn & Hc & Ht & Hi & Hp & Ho & Ha & Hco).
  eapply ends_well_bind; [by apply setReplication_spec|]. cbv beta. intros _ st2 w2 es (-> & u & r & -> & Hu) _.
  destruct (advertise_spec config st' u r w Hm' Hs' Hu) as (st3 & -> & HR). cbn [ends_well]. exists []. split; [done|]. split; [done|].
  unfold reconfigured in *. rewrite <- Hn, <- Hc, <- Ht, <- Hi, <- Hp, <- Ho, <- Ha, <- Hco. exact HR.
Qed.

(** ** The invariant of an initialized daemon *)

(** The last command to the master: a leader's was CHILD_ON and arrived, any other daemon's was
    CHILD_OFF_FAST. *)
Definition controls (s : STATES) (cmds : list (command * bool)) : Prop :=
  match s with
  | LEADER_STATE => head cmds = Some (CHILD_ON, true)
  | _ => exists ok, head cmds = Some (CHILD_OFF_FAST, ok)
  end.
(** One timer for the state machine and one for the collectors, and no other. *)
Definition two_timers (st : HADStateMachine) (w : World) : Prop :=
  0 <= m_stateMachineTimerID st < next_timer w /\ 0 <= m_updateCollectorTimerId st < next_timer w /\
  m_stateMachineTimerID st <> m_updateCollectorTimerId st /\
  exists t u, timers w = {[ m_stateMachineTimerID st := t; m_updateCollectorTimerId st := u ]} /\
    t_handler t = CycleTimer /\ t_handler u = UpdateCollectorsTimer.
Definition had_inv (st : HADStateMachine) (w : World) : Prop :=
  ready st /\ (m_callsCounter st = 0 \/ m_callsCounter st = 1) /\ two_timers st w /\ controls (m_state st) (master_cmds (events w)) /\
  is_Some (m_classAd st).

(** No timer is left once the two of the daemon are cancelled. *)
Definition no_other_timer (st : HADStateMachine) (w : World) : Prop :=
  0 <= next_timer w /\
  (if 0 <=? m_updateCollectorTimerId st then delete (m_updateCollectorTimerId st) else id)
    ((if 0 <=? m_stateMachineTimerID st then delete (m_stateMachineTimerID st) else id) (timers w)) = ∅.

Lemma two_timers_no_other st w : two_timers st w -> no_other_timer st w.
Proof.
  intros ((?&?) & (?&?) & Hne & t & u & Ht & _). split; [lia|]. rewrite Ht. rewrite !(proj2 (Z.leb_le _ _)) by lia.
  rewrite delete_insert_eq, delete_singleton_ne by done. apply delete_singleton_eq.
Qed.

Lemma reinitialize_spec config st w :
  host_ok -> no_other_timer st w ->
  match reinitialize reaches is_ip_string resolve_hostname host config st w with
  | Ok _ st' w' => had_inv st' w' /\ m_state st' = PRE_STATE /\ receivedAliveList st' = [] /\ receivedIdList st' = []
  | Exited w' => exists ok, head (master_cmds (events w')) = Some (CHILD_OFF_FAST, ok)
  | Excepted _ => False
  end.
Proof.
  intros Hh [Hn0 Hto]. unfold reinitialize. unfold bind at 1.
  destruct (freeResources_spec st w) as (st1 & w1 & -> & Hst & Hm & Hsa & Hur & Ha & Hi & Hc & Ho & Hal & Hsi & Hup & Ht & Hnt & es & He & _ & _).
  rewrite Hto in Ht. clear Hto.
  unfold bind at 1 2, upd_st at 1, get.
  match goal with |- match bind _ _ ?x _ with _ => _ end => set (st2 := x) end.
  assert (Hend : forall (r : result unit) Q w0, ends_well r w0 Q -> match r with Ok _ st' w' => Q tt st' w' | Exited w' => exists ok, head (master_cmds (events w')) = Some (CHILD_OFF_FAST, ok) | Excepted _ => False end).
  { intros [[] ??|w'|w'] Q w00 H; cbn in *; try done. destruct H as (es' & ok & He' & Hc'). exists ok. rewrite He', master_cmds_app.
    destruct (master_cmds es'); done. }
  refine (Hend _ (fun _ st' w' => had_inv st' w' /\ m_state st' = PRE_STATE /\ receivedAliveList st' = [] /\ receivedIdList st' = []) w1 _).
  eapply ends_well_bind with (Q' := fun _ st' w' es => w' = w1 /\ m_masterDaemon st' = true /\ node_of st' = mkNode PRE_STATE [] [] /\ m_callsCounter st' = 0).
  { destruct (HAD_LIST config) as [tmp|]; [|by apply crucial_ends_well].
    eapply ends_well_bind; [by apply getHadList_spec|]. cbn. intros r st' w' es' [-> ->] _. exists [].
    split_and!; try done. unfold node_of. cbn. by rewrite Hst, Ha, Hi. }
  cbn. intros _ st3 w3 es3 (-> & Hm3 & Hn3 & Hc3) _.
  eapply ends_well_bind; [by apply softReconfigure_spec|]. cbn. intros _ st4 w4 es4 (-> & Hn4 & Hc4 & _ & (Hm4 & Hs4 & Hr4) & _ & _ & _ & _ & _ & ad & Had & _) _.
  unfold bind, Register_Timer, upd_st, get, ret, sendControlCmdToMaster, reach, emit. cbn. rewrite Hs4. cbn. rewrite Hm4. cbn.
  rewrite Hn3 in Hn4. injection Hn4 as Hst4 Ha4 Hi4.
  destruct (reaches (events w1) TheMaster); cbn [ends_well].
  - split; [|by cbn; rewrite Hst4, Ha4, Hi4]. split; [done|]. split; [left; cbn; congruence|]. split; [|split].
    + unfold two_timers. cbn. split; [lia|]. split; [lia|]. split; [lia|].
      exists (mkTimer 0 0 CycleTimer). eexists (mkTimer 0 _ UpdateCollectorsTimer). split; [|done].
      rewrite Ht. rewrite insert_insert_ne by lia. reflexivity.
    + cbn. rewrite Hst4. cbn. by eexists.
    + cbn. rewrite Had. by eexists.
  - match goal with |- ends_well (utilCrucialError _ ?x ?y) _ _ => destruct (@utilCrucialError_spec unit x y Hm4) as (w' & es' & ok & -> & He' & Hc') end.
    cbn. cbn in He'. exists (es' ++ [ToMaster CHILD_OFF_FAST (m_controlleeName st4) false]), ok. rewrite He', <- app_assoc. split; [done|].
    by rewrite master_cmds_app, Hc'.
Qed.

(** ** The handlers of the daemon *)

Inductive handler :=
| OnCycle                                             (** the timer of the state machine *)
| OnUpdate                                            (** the timer of the collectors *)
| OnCommand (cmd : command) (strm : option Message)   (** a command of another HAD *)
| OnConfig (config : Config).                         (** a reconfiguration *)
Definition had_handle (h : handler) : M unit :=
  match h with
  | OnCycle => cycle reaches
  | OnUpdate => updateCollectors
  | OnCommand cmd strm => _ <- commandHandlerHad cmd strm;; ret tt
  | OnConfig config => main_config reaches is_ip_string resolve_hostname host config
  end.
Fixpoint handle_all (hs : list handler) : M unit :=
  match hs with [] => ret tt | h :: hs' => had_handle h;;; handle_all hs' end.
(** A message with a text that LookupString() does not terminate. *)
Definition oversized (h : handler) : Prop :=
  match h with
  | OnCommand _ (Some msg) => (exists s, msg_controllee msg = Some s /\ fits s = false) \/ (exists s, msg_list msg = Some s /\ fits s = false)
  | _ => False
  end.

Lemma controls_change s s' cmds es : controls s cmds -> change_cmds s s' es -> controls s' (es ++ cmds).
Proof. destruct s, s'; cbn; try (by intros H ->); intros ? [ok ->]; cbn; by eexists. Qed.

(** A new timer in the place of one of the two. *)
Lemma two_timers_cycle st w st' w' :
  two_timers st w -> timer_ids st' = (next_timer w, m_updateCollectorTimerId st) -> next_timer w' = next_timer w + 1 ->
  (exists t, t_handler t = CycleTimer /\ timers w' = <[next_timer w := t]>
     ((if 0 <=? m_stateMachineTimerID st then delete (m_stateMachineTimerID st) else id) (timers w))) -> two_timers st' w'.
Proof.
  intros ((?&?) & (?&?) & Hne & t & u & Ht & Hht & Hhu) [= Hi Hu] Hn (t' & Ht' & E). rewrite (proj2 (Z.leb_le _ _)) in E by lia.
  rewrite Ht in E. rewrite delete_insert_eq, delete_singleton_ne in E by done.
  unfold two_timers. rewrite Hi, Hu, Hn. split; [lia|]. split; [lia|]. split; [lia|]. exists t', u. done.
Qed.

Lemma updateCollectors_spec st w :
  had_inv st w -> exists st' w', updateCollectors st w = Ok tt st' w' /\ had_inv st' w'.
Proof.
  intros (Hr & Hc & Ht & Hk & Had). unfold updateCollectors. rewrite bind_get. destruct (m_classAd st) as [ad|] eqn:E; [|by destruct Had].
  destruct Ht as ((?&?) & (?&?) & Hne & t & u & Ht & Hht & Hhu).
  unfold bind, emit, utilCancelTimer, Register_Timer, upd_st. rewrite (proj2 (Z.leb_le _ _)) by lia. cbn.
  eexists _, _. split; [reflexivity|]. split; [done|]. split; [done|]. split; [|split; [done|cbn; by rewrite E]].
  unfold two_timers. cbn. split; [lia|]. split; [lia|]. split; [lia|]. exists t. eexists (mkTimer _ 0 UpdateCollectorsTimer).
  split; [|done]. rewrite Ht. rewrite delete_insert_ne, delete_singleton_eq by done. rewrite insert_insert_ne by lia. reflexivity.
Qed.

Lemma commandHandler_spec cmd strm st w :
  (exists b st', commandHandlerHad cmd strm st w = Ok b st' w /\ settings st' = settings st /\ m_state st' = m_state st /\
     m_callsCounter st' = m_callsCounter st /\ timer_ids st' = timer_ids st /\ m_classAd st' = m_classAd st) \/
  (commandHandlerHad cmd strm st w = Excepted w /\ oversized (OnCommand cmd strm)).
Proof.
  destruct strm as [[[new_id|] [buf|] lst]|]; cbn; try (left; by eexists _, _).
  destruct (fits buf) eqn:Ef; cbn; [|right; split; [done|left; by exists buf]].
  destruct (strcaseeq _ _); cbn; [|left; by eexists _, _].
  destruct lst as [buf'|]; [|left; by eexists _, _]. destruct (fits buf') eqn:Ef'; cbn; [|right; split; [done|right; by exists buf']].
  left. destruct cmd; unfold bind, ret, pushReceivedAlive, pushReceivedId, upd_st; eexists _, _; (split; [reflexivity|done]).
Qed.

Lemma settings_ready st st' : settings st' = settings st -> ready st -> ready st'.
Proof.
  intros E HR. assert (H : m_masterDaemon st' = m_masterDaemon st /\ m_standAloneMode st' = m_standAloneMode st /\
    m_useReplication st' = m_useReplication st /\ m_replicationDaemonSinfulString st' = m_replicationDaemonSinfulString st).
  { injection E; intros; split_and!; done. }
  destruct H as (H1 & H2 & H3 & H4). unfold ready. rewrite H1, H2, H3, H4. exact HR.
Qed.
Lemma settings_classAd st st' : settings st' = settings st -> is_Some (m_classAd st) -> is_Some (m_classAd st').
Proof. intros [=] [ad E]. rewrite E in *. destruct (m_classAd st'); [by eexists|done]. Qed.

Definition switched_off (w : World) : Prop := exists ok, head (master_cmds (events w)) = Some (CHILD_OFF_FAST, ok).
Lemma ends_well_off {A} (r : result A) w Q (R : HADStateMachine -> World -> Prop) :
  ends_well r w Q -> (forall a st' w', Q a st' w' -> R st' w') ->
  match r with Ok _ st' w' => R st' w' | Exited w' => switched_off w' | Excepted _ => False end.
Proof.
  destruct r as [a st' w'|w'|w']; cbn; intros H HR; [by eapply HR| |done]. destruct H as (es & ok & He & Hc). exists ok.
  rewrite He, master_cmds_app. destruct (master_cmds es); done.
Qed.

Lemma main_config_spec config st w :
  host_ok -> had_inv st w ->
  match main_config reaches is_ip_string resolve_hostname host config st w with
  | Ok _ st' w' => had_inv st' w' | Exited w' => switched_off w' | Excepted _ => False
  end.
Proof.
  intros Hh HI. pose proof HI as ((Hm & _) & _ & Ht & _). unfold main_config.
  assert (H : ends_well (isHardConfigurationNeeded reaches is_ip_string resolve_hostname host config st w) w (fun _ st' w' => st' = st /\ w' = w)).
  { unfold isHardConfigurationNeeded. rewrite bind_get. destruct (negb (strcaseeq _ _)); [done|].
    destruct (negb (Bool.eqb _ _)); [done|]. destruct (HAD_LIST config) as [tmp|]; [|by apply crucial_ends_well].
    eapply ends_well_bind; [by apply getHadList_spec|]. cbn. by intros r st' w' es [-> ->] _. }
  unfold bind. destruct (isHardConfigurationNeeded _ _ _ _ _ _ _) as [hard st' w'|w'|w']; cbn in H.
  - destruct H as [-> ->]. destruct hard.
    + pose proof (reinitialize_spec config st w Hh (two_timers_no_other _ _ Ht)) as H. destruct (reinitialize _ _ _ _ _ _ _); [tauto|done|done].
    + refine (ends_well_off _ _ _ _ (softReconfigure_spec config st w Hm) _). cbn.
      intros _ st' w' (es & _ & -> & Hn & Hc & Hti & Hr & _ & _ & _ & _ & _ & ad & Had & _).
      destruct HI as (_ & HC & Ht' & Hk & _). split; [done|]. split; [by rewrite Hc|]. split; [|split; [|by rewrite Had]].
      * unfold two_timers in *. injection Hti as -> ->. done.
      * by rewrite (node_state _ _ Hn).
  - destruct H as (es & ok & He & Hc). exists ok. rewrite He, master_cmds_app. destruct (master_cmds es); done.
  - done.
Qed.

Lemma handle_spec h st w :
  host_ok -> had_inv st w ->
  match had_handle h st w with
  | Ok _ st' w' => had_inv st' w' | Exited w' => switched_off w' | Excepted _ => oversized h
  end.
Proof.
  intros Hh HI. pose proof HI as (Hr & Hc & Ht & Hk & Had). destruct h as [| |cmd strm|config]; cbn [had_handle].
  - assert (G := ends_well_off _ _ _ had_inv (cycle_spec st w Hr)). destruct (cycle reaches st w); [|apply G|apply G];
      [apply G; clear G|..]; intros ? st' w'; cbn; intros (Hn & Hs & Hc' & Hti & Hts & Hnt & es & He & Hch & _);
      (split; [by eapply settings_ready|]; split; [|split; [|split; [|by eapply settings_classAd]]]).
    all: try (eapply (two_timers_cycle st w); [done|done|done|]; eexists; split; [|done]; done).
    all: try (rewrite He, master_cmds_app; by eapply controls_change).
    all: rewrite Hc'; destruct Hc as [-> | ->]; [right|left]; reflexivity.
  - destruct (updateCollectors_spec _ _ HI) as (st' & w' & -> & HI'). done.
  - unfold bind. destruct (commandHandler_spec cmd strm st w) as [(b & st' & -> & Hs & Hst & Hcc & Hti & Ha)|[-> Ho]]; [|done].
    cbn. split; [by eapply settings_ready|]. rewrite Hcc, Hst, Ha. split_and!; try done.
    unfold two_timers in *. injection Hti as -> ->. apply Ht.
  - pose proof (main_config_spec config st w Hh HI). destruct (main_config _ _ _ _ _ _ _); done.
Qed.

Lemma handle_all_spec hs st w :
  host_ok -> had_inv st w ->
  match handle_all hs st w with
  | Ok _ st' w' => had_inv st' w' | Exited w' => switched_off w' | Excepted _ => Exists oversized hs
  end.
Proof.
  intros Hh. revert st w. induction hs as [|h hs IH]; intros st w HI; [done|]. cbn [handle_all]. unfold bind.
  pose proof (handle_spec h st w Hh HI) as H. destruct (had_handle h st w) as [[] st' w'|w'|w']; [|done|by left].
  specialize (IH st' w' H). destruct (handle_all hs st' w') as [| |]; [done|done|by right].
Qed.

(** C12 (invariant): a HAD whose own address is valid, after any sequence of timers, messages and
    reconfigurations and whichever of its connections fail, in which no message has a string of 1024
    characters or more (on such a message the copy is not terminated and nothing is promised): it has
    exactly one timer for its state machine and one for the collectors. The last command it tried to
    send to its master is a CHILD_ON that arrived when it is leader, and a CHILD_OFF_FAST, which may
    have been lost with its connection, when it is not; when it ends itself, it is a CHILD_OFF_FAST too.
    *)
Theorem had_invariant config hs w :
  host_ok -> timers w = ∅ -> 0 <= next_timer w ->
  match bind (reinitialize reaches is_ip_string resolve_hostname host config) (fun _ => handle_all hs) new_HADStateMachine w with
  | Ok _ st w' => had_inv st w'
  | Exited w' => switched_off w'
  | Excepted _ => Exists oversized hs
  end.
Proof.
  intros Hh Ht Hn. unfold bind.
  pose proof (reinitialize_spec config new_HADStateMachine w Hh (conj Hn Ht)) as H.
  destruct (reinitialize _ _ _ _ _ _ _) as [[] st w'|w'|w']; [|done|done]. apply handle_all_spec; [done|apply H].
Qed.

(** ** The identities of the daemons *)

Definition my_address (a : bytes) : bool :=
  default false (addressPointsToMe (S (length (m_sinful (new_Sinful (InfoCommandSinfulString host))))) (new_Sinful (InfoCommandSinfulString host)) (new_Sinful (Some a))).

Definition others (sin : list bytes) : bool := forallb (fun a => negb (my_address a)) sin.

(** The loop of getHadList() over addresses of other daemons. *)
Lemma had_addresses_skip usep n l' : forall l sin c r st w,
  mapM (utilToSinful is_ip_string resolve_hostname) l = Some sin -> others sin ->
  had_addresses reaches is_ip_string resolve_hostname (new_Sinful (InfoCommandSinfulString host)) usep n c (l ++ l') r st w =
  had_addresses reaches is_ip_string resolve_hostname (new_Sinful (InfoCommandSinfulString host)) usep n (c - Z.of_nat (length l)) l'
    (mkHadList (fold_left sl_insert sin (hl_other r)) (fold_left sl_insert sin (hl_all r)) (hl_selfId r) (hl_primary r) (hl_present r)) st w.
Proof.
  induction l as [|a l IH]; intros sin c r st w Hs Ho; cbn in Hs.
  - injection Hs as <-. cbn. rewrite Z.sub_0_r. by destruct r.
  - destruct (utilToSinful _ _ a) as [s|] eqn:Es; [|done]. cbn in Hs. destruct (mapM _ l) as [sin'|] eqn:El; [|done]. cbn in Hs. injection Hs as <-.
    cbn [others forallb] in Ho. apply andb_prop_elim in Ho as [Hm Ho]. cbn [app had_addresses]. rewrite Es. unfold had_address.
    change (default false (addressPointsToMe _ _ (new_Sinful (Some s)))) with (my_address s). destruct (my_address s); [done|].
    rewrite (IH sin' (c - 1) _ st w eq_refl Ho). cbn [hl_other hl_all hl_selfId hl_primary hl_present fold_left length].
    by replace (c - 1 - Z.of_nat (length l)) with (c - Z.of_nat (S (length l))) by lia.
Qed.

Lemma list_insert_rewound l x : pos (m_strings l) = O -> pos (m_strings (sl_insert l x)) = O /\ strings (sl_insert l x) = strings l ++ [x].
Proof. destruct l as [[xs p] d]. cbn. intros ->. done. Qed.
Lemma insert_all_rewound sin l : pos (m_strings l) = O -> pos (m_strings (fold_left sl_insert sin l)) = O /\ strings (fold_left sl_insert sin l) = strings l ++ sin.
Proof.
  revert l. induction sin as [|a sin IH]; intros l Hl; cbn; [by rewrite app_nil_r|].
  destruct (list_insert_rewound l a Hl) as [Hp Hs]. destruct (IH _ Hp) as [-> ->]. by rewrite Hs, <- app_assoc.
Qed.

(** The identity of a HAD is the number of daemons after it in HAD_LIST, so the first one has the
    highest, and it is primary when primaries are in use and it is the first; the addresses of the
    others, in their order, are those it will send to. *)
Theorem had_identity str l1 a l2 s1 s s2 usep other all i st w :
  host_ok -> strings (new_StringList (Some str) default_delim) = l1 ++ a :: l2 ->
  mapM (utilToSinful is_ip_string resolve_hostname) l1 = Some s1 -> utilToSinful is_ip_string resolve_hostname a = Some s ->
  mapM (utilToSinful is_ip_string resolve_hostname) l2 = Some s2 -> others s1 -> my_address s = true -> others s2 ->
  pos (m_strings other) = O -> pos (m_strings all) = O ->
  exists r, getHadList reaches is_ip_string resolve_hostname host str usep other all i st w = Ok r st w /\
    hl_selfId r = Z.of_nat (length l2) /\ hl_primary r = usep && bool_decide (l1 = []) /\
    strings (hl_other r) = strings other ++ s1 ++ s2 /\ strings (hl_all r) = strings all ++ s1 ++ s :: s2.
Proof.
  intros [[x Hx] Hv] Hl E1 Es E2 Ho1 Hm Ho2 Hpo Hpa. unfold getHadList. rewrite Hl. rewrite Hx in *. rewrite Hv. cbn [negb].
  unfold bind. rewrite <- Hx. rewrite (had_addresses_skip _ _ _ _ _ _ _ _ _ E1 Ho1). cbn [had_addresses]. rewrite Es. unfold had_address.
  change (default false (addressPointsToMe _ _ (new_Sinful (Some s)))) with (my_address s). rewrite Hm.
  pose proof (had_addresses_skip usep (Z.of_nat (length (l1 ++ a :: l2))) [] l2 s2) as K. rewrite app_nil_r in K. rewrite (K _ _ _ _ E2 Ho2). cbn. eexists. split; [reflexivity|]. cbn.
  destruct (insert_all_rewound s1 other Hpo) as [Hp1 Hs1]. destruct (insert_all_rewound s1 all Hpa) as [Hp2 Hs2].
  destruct (list_insert_rewound _ s Hp2) as [Hp3 Hs3].
  rewrite (proj2 (insert_all_rewound s2 _ Hp1)), (proj2 (insert_all_rewound s2 _ Hp3)), Hs1, Hs3, Hs2. rewrite length_app. cbn.
  split_and!; [lia| |by rewrite <- app_assoc|by rewrite <- !app_assoc].
  f_equal. apply eq_true_iff_eq. rewrite Z.eqb_eq, bool_decide_eq_true. destruct l1; cbn; split; intros; try done; lia.
Qed.

(** ** Reconfigurations *)

Lemma identical_self l anycase : identical l l anycase = true.
Proof. apply Is_true_eq_true, identical_iff_same_set. done. Qed.

(** C39 (error): a reconfiguration in which only the other addresses of HAD_LIST change is taken as a soft one,
    since m_allHadIps is compared with itself: the daemon goes on sending to the old addresses.  A
    daemon that is leader stays leader, but publishes that it is not active. *)
Theorem changed_peers_ignored config tmp r st w :
  m_masterDaemon st = true ->
  strcaseeq (take 127 (default (s2b "NEGOTIATOR") (HAD_CONTROLLEE config))) (m_controlleeName st) = true ->
  default false (HAD_USE_PRIMARY config) = m_usePrimary st -> HAD_LIST config = Some tmp ->
  getHadList reaches is_ip_string resolve_hostname host tmp (m_usePrimary st) (new_StringList None default_delim) (new_StringList None default_delim) (-1) st w = Ok r st w ->
  hl_selfId r = m_selfId st ->
  ends_well (main_config reaches is_ip_string resolve_hostname host config st w) w (fun _ st' _ =>
    strings (m_otherHadIps st') = strings (m_otherHadIps st) /\ m_allHadIps st' = m_allHadIps st /\ node_of st' = node_of st /\
    exists ad, m_classAd st' = Some ad /\ ATTR_HAD_IS_ACTIVE ad = ActiveBool false).
Proof.
  intros Hm Hc Hp Hl Hg Hi. unfold main_config.
  assert (E : isHardConfigurationNeeded reaches is_ip_string resolve_hostname host config st w = Ok false st w).
  { unfold isHardConfigurationNeeded. rewrite bind_get, Hc, Hp, Hl. cbn [negb]. rewrite eqb_reflx. cbn [negb].
    unfold bind. rewrite Hg. cbn. rewrite Hi, Z.eqb_refl, identical_self. done. }
  unfold bind. rewrite E. pose proof (softReconfigure_spec config st w Hm) as H.
  destruct (softReconfigure _ _ _ _ _ _ _) as [[] st' w'|w'|w']; cbn in *; [|done|done].
  destruct H as (es & _ & _ & Hn & _ & _ & _ & _ & _ & Ho & Ha & _ & ad & Had & Hact & _). eauto 10.
Qed.

(** A step of the daemon: from PRE_STATE it becomes passive; a passive daemon goes into the
    election when it has heard no leader or is primary; in the election it withdraws when it hears a
    leader (unless it is primary) or a higher identity, and otherwise switches the controlled daemon on
    and leads; a leader that hears a leader of higher identity switches it off and becomes passive.  The
    buffers are kept only on the way into the election.  A daemon that cannot switch the controlled
    daemon on ends itself. *)
Theorem step_refines st w :
  ready st ->
  match step reaches st w with
  | Ok _ st' w' =>
      node_of st' = node_step (m_selfId st) (m_isPrimary st) (node_of st) /\ settings st' = settings st /\
      exists es, events w' = es ++ events w /\ change_cmds (m_state st) (m_state st') (master_cmds es)
  | Exited w' => switched_off w'
  | Excepted _ => False
  end.
Proof.
  intros Hr. refine (ends_well_off _ _ _ (fun st' w' => _) (step_spec st w Hr) _).
  cbn. intros _ st' w' (Hn & Hs & _ & _ & _ & _ & es & He & _ & Hc). eauto 10.
Qed.
End configuration.
End proofs.
