(* ===== verification/HadElection.v ===== *)
(** The election among the high availability daemons of a pool.

    Part one is the pool of the state machines alone: the daemons take turns, and a daemon that
    announces itself is heard by all the others.  In a round every daemon has one turn, in any order, as
    their timers have the same period; the order may change from round to round.  Part two is the pool
    of the daemons of Had, which send each other the messages of their handlers, and the proof that it
    behaves as part one. *)

From S2P Require Import Prelude Sinful CondorList StringList Had.

Open Scope Z_scope.

(** ** Turns and rounds of the state machines *)

#[export] Instance Node_inhabited : Inhabited Node := populate (mkNode PRE_STATE [] []).
(** A daemon's call counter and its node.  The daemons are in the order of HAD_LIST; [ident] are their
    identities, and the one at place 0 may be primary. *)
Abbreviation nodes := (list (Z * Node)).
Definition hears (s : STATES) (id : Z) (x : Z * Node) : Z * Node :=
  (x.1, match s with
        | LEADER_STATE => mkNode (n_state x.2) (n_alive x.2 ++ [id]) (n_ids x.2)
        | ELECTION_STATE => mkNode (n_state x.2) (n_alive x.2) (n_ids x.2 ++ [id])
        | _ => x.2
        end).
Definition stepped (id : Z) (primary : bool) (x : Z * Node) : Z * Node :=
  (Z.rem (x.1 + 1) 2, if x.1 =? 0 then node_step id primary x.2 else x.2).
Definition turn (prim : bool) (ident : nat -> Z) (i : nat) (p : nodes) : nodes :=
  match p !! i with
  | None => p
  | Some x =>
      let x' := stepped (ident i) (prim && (i =? 0)%nat) x in
      imap (fun j y => if decide (j = i) then x' else hears (n_state x'.2) (ident i) y) p
  end.
Definition turns (prim : bool) (ident : nat -> Z) (o : list nat) (p : nodes) : nodes := fold_left (fun p i => turn prim ident i p) o p.

Section election.
Context (prim : bool) (ident : nat -> Z) (n : nat) (ident_lt : forall i j, (i < j < n)%nat -> ident j < ident i).
Implicit Types (p : nodes) (i j k : nat) (o : list nat).

Lemma ident_le i j : (i <= j < n)%nat -> ident j <= ident i.
Proof. intros H. destruct (decide (i = j)) as [->|]; [lia|]. pose proof (ident_lt i j). lia. Qed.
Lemma ident_inj i j : (i < n)%nat -> (j < n)%nat -> ident i = ident j -> i = j.
Proof.
  intros Hi Hj E. destruct (lt_eq_lt_dec i j) as [[H|H]|H]; [pose proof (ident_lt i j); lia|done|pose proof (ident_lt j i); lia].
Qed.

Definition state p i : STATES := n_state (p !!! i).2.
Definition leads p i : Prop := (i < n)%nat /\ state p i = LEADER_STATE.
(** The identities of the daemons of [o] that are in the state [s]. *)
Definition announced (s : STATES) o p : list Z := ident <$> filter (fun i => state p i = s) o.

Lemma turn_length i p : length (turn prim ident i p) = length p.
Proof. unfold turn. destruct (p !! i); [|done]. apply length_imap. Qed.
Lemma turns_cons i o p : turns prim ident (i :: o) p = turns prim ident o (turn prim ident i p).
Proof. done. Qed.
Lemma turns_length o p : length (turns prim ident o p) = length p.
Proof. revert p. induction o as [|i o IH]; intros p; [done|]. cbn. etransitivity; [apply IH|apply turn_length]. Qed.

Lemma turn_self i p : (i < length p)%nat -> turn prim ident i p !!! i = stepped (ident i) (prim && (i =? 0)%nat) (p !!! i).
Proof.
  intros Hi. destruct (lookup_lt_is_Some_2 p i Hi) as [x Hx]. rewrite (list_lookup_total_correct _ _ _ Hx).
  apply list_lookup_total_correct. unfold turn. rewrite Hx, list_lookup_imap, Hx. cbn. by rewrite decide_True.
Qed.
Lemma turn_other i j p :
  (i < length p)%nat -> (j < length p)%nat -> j <> i ->
  turn prim ident i p !!! j = hears (state (turn prim ident i p) i) (ident i) (p !!! j).
Proof.
  intros Hi Hj Hij. unfold state. rewrite turn_self by done. destruct (lookup_lt_is_Some_2 p i Hi) as [x Hx]. destruct (lookup_lt_is_Some_2 p j Hj) as [y Hy].
  rewrite (list_lookup_total_correct _ _ _ Hx), (list_lookup_total_correct _ _ _ Hy).
  apply list_lookup_total_correct. unfold turn. rewrite Hx, list_lookup_imap, Hy. cbn. by rewrite decide_False.
Qed.

(** A daemon [j] that has no turn in [o] keeps its state and hears the others. *)
Definition extend (A I : list Z) (x : Z * Node) : Z * Node := (x.1, mkNode (n_state x.2) (n_alive x.2 ++ A) (n_ids x.2 ++ I)).
Lemma turns_other o p j :
  length p = n -> (j < n)%nat -> Forall (fun i => (i < n)%nat) o -> NoDup o -> j ∉ o ->
  turns prim ident o p !!! j = extend (announced LEADER_STATE o (turns prim ident o p)) (announced ELECTION_STATE o (turns prim ident o p)) (p !!! j).
Proof.
  intros Hn. revert p j Hn. induction o as [|i o IH]; intros p j Hn Hj Ho Hnd Hji.
  - unfold extend. cbn. destruct (p !!! j) as [c [s a ids]]. cbn. by rewrite !app_nil_r.
  - apply Forall_cons in Ho as [Hi Ho]. apply NoDup_cons in Hnd as [Hio Hnd]. apply not_elem_of_cons in Hji as [Hji Hjo].
    rewrite turns_cons. pose proof (turn_length i p) as Hl.
    rewrite (IH (turn prim ident i p) j) by (congruence || done).
    assert (Hs : state (turns prim ident o (turn prim ident i p)) i = state (turn prim ident i p) i).
    { unfold state at 1. rewrite (IH (turn prim ident i p) i) by (congruence || done). done. }
    rewrite turn_other by lia. unfold announced. rewrite !filter_cons. rewrite Hs. unfold extend, hears. cbn.
    destruct (state (turn prim ident i p) i) eqn:E; cbn; rewrite <- ?app_assoc; done.
Qed.

Lemma turns_state_other o p j :
  length p = n -> (j < n)%nat -> Forall (fun i => (i < n)%nat) o -> NoDup o -> j ∉ o -> state (turns prim ident o p) j = state p j.
Proof. intros. unfold state. by rewrite turns_other. Qed.

Lemma announced_ext s o p p' : (forall i, i ∈ o -> state p i = state p' i) -> announced s o p = announced s o p'.
Proof.
  intros H. unfold announced. f_equal. induction o as [|i o IH]; [done|]. rewrite !filter_cons, (H i) by left.
  rewrite IH; [done|]. intros k Hk. apply H. by right.
Qed.
Lemma elem_announced s o p x : x ∈ announced s o p <-> exists i, i ∈ o /\ state p i = s /\ x = ident i.
Proof. unfold announced. rewrite list_elem_of_fmap. setoid_rewrite list_elem_of_filter. naive_solver. Qed.

(** Every daemon has one turn. *)
Definition round_order o : Prop := o ≡ₚ seq 0 n.

(** What a round does to a daemon: it hears some of the others before its turn and the rest after it. *)
Lemma round_at o p j :
  length p = n -> round_order o -> (j < n)%nat ->
  exists A1 A2 I1 I2,
    (forall x, x ∈ A1 ++ A2 <-> exists i, leads (turns prim ident o p) i /\ i <> j /\ x = ident i) /\
    (forall x, x ∈ I1 ++ I2 -> exists i, (i < n)%nat /\ i <> j /\ x = ident i) /\
    turns prim ident o p !!! j = extend A2 I2 (stepped (ident j) (prim && (j =? 0)%nat) (extend A1 I1 (p !!! j))).
Proof.
  intros Hn Ho Hj. unfold round_order in Ho. assert (Hin : forall i, i ∈ o <-> (i < n)%nat). { intros i. rewrite Ho, elem_of_seq. lia. }
  assert (Hnd : NoDup o) by (rewrite Ho; apply NoDup_seq). pose proof (proj2 (Hin j) Hj) as Hjo.
  apply list_elem_of_split in Hjo as (o1 & o2 & ->). set (p1 := turns prim ident o1 p). set (p2 := turn prim ident j p1).
  assert (E : turns prim ident (o1 ++ j :: o2) p = turns prim ident o2 p2). { unfold turns, p2, p1. by rewrite fold_left_app. }
  rewrite E. set (p' := turns prim ident o2 p2) in *.
  apply NoDup_app in Hnd as (Hnd1 & Hdis & [Hj2 Hnd2]%NoDup_cons). assert (Hj1 : j ∉ o1) by (intros H; apply (Hdis j H); left).
  assert (F1 : Forall (fun i => (i < n)%nat) o1) by (apply Forall_forall; intros; apply Hin; set_solver).
  assert (F2 : Forall (fun i => (i < n)%nat) o2) by (apply Forall_forall; intros; apply Hin; set_solver).
  assert (L1 : length p1 = n) by (unfold p1; by rewrite turns_length). assert (L2 : length p2 = n) by (unfold p2; by rewrite turn_length).
  exists (announced LEADER_STATE o1 p'), (announced LEADER_STATE o2 p'), (announced ELECTION_STATE o1 p'), (announced ELECTION_STATE o2 p').
  split_and!.
  - intros x. rewrite elem_of_app, !elem_announced. unfold leads. split.
    + intros [(i & Hi & Hs & ->)|(i & Hi & Hs & ->)]; exists i; (split_and!; [apply Hin; set_solver|done|intros ->; done|done]).
    + intros (i & [Hi Hs] & Hij & ->). apply Hin in Hi. apply elem_of_app in Hi as [Hi|Hi]; [left; by exists i|].
      apply elem_of_cons in Hi as [->|Hi]; [done|right; by exists i].
  - intros x. rewrite elem_of_app, !elem_announced. intros [(i & Hi & _ & ->)|(i & Hi & _ & ->)]; exists i;
      (split_and!; [apply Hin; set_solver|intros ->; done|done]).
  - unfold p' at 1. rewrite turns_other by done. fold p'. f_equal. unfold p2. rewrite turn_self by (by rewrite L1). f_equal.
    unfold p1. rewrite turns_other by done. fold p1.
    rewrite (announced_ext LEADER_STATE o1 p1 p'), (announced_ext ELECTION_STATE o1 p1 p'); [done|..];
      intros i Hi; pose proof (proj1 (Forall_forall _ _) F1 i Hi); (assert (i <> j /\ i ∉ o2) as [? ?] by (split; [congruence|intros H'; apply (Hdis i Hi); by right]));
      unfold p'; rewrite turns_state_other by done; unfold state, p2; rewrite turn_other by (rewrite ?L1; done); by destruct (state (turn prim ident j p1) j).
Qed.

(** ** Convergence *)

Definition count p i : Z := (p !!! i).1.
Definition alive p i : list Z := n_alive (p !!! i).2.
Definition ids p i : list Z := n_ids (p !!! i).2.
Definition is_prim i : bool := prim && (i =? 0)%nat.
Definition pool_ok p : Prop := length p = n /\ forall i, (i < n)%nat -> count p i = 0 \/ count p i = 1.
(** What a leader has heard is at most the identity of some leader. *)
Definition settled p : Prop := forall j x, leads p j -> x ∈ alive p j -> exists k, leads p k /\ x <= ident k.
(** Before the step of a daemon, it has heard every other leader. *)
Definition heard p : Prop := forall i j, (j < n)%nat -> i <> j -> count p j = 0 -> leads p i -> ident i ∈ alive p j.
(** A leader is there; with a primary, the primary leads. *)
Definition decided p : Prop := if prim then leads p 0 else exists i, leads p i.

Lemma checkList_spec id l : checkList id l = true <-> forall x, x ∈ l -> x <= id.
Proof.
  unfold checkList. rewrite forallb_forall. setoid_rewrite <- list_elem_of_In. setoid_rewrite negb_true_iff. setoid_rewrite Z.ltb_ge. done.
Qed.

Section one_round.
Context (p : nodes) (o : list nat) (Hp : pool_ok p) (Ho : round_order o).
Local Notation p' := (turns prim ident o p).

Lemma round_ok : pool_ok p'.
Proof.
  destruct Hp as [Hl Hc]. split; [by rewrite turns_length|]. intros i Hi.
  destruct (round_at o p i Hl Ho Hi) as (A1 & A2 & I1 & I2 & _ & _ & E). unfold count. rewrite E. unfold extend, stepped. cbn [fst].
  destruct (Hc i Hi) as [H|H]; unfold count in H; rewrite H; [right|left]; done.
Qed.
Lemma round_counts i : (i < n)%nat -> count p' i = 1 - count p i.
Proof.
  intros Hi. destruct Hp as [Hl Hc]. destruct (round_at o p i Hl Ho Hi) as (A1 & A2 & I1 & I2 & _ & _ & E). unfold count at 1. rewrite E. unfold extend, stepped. cbn [fst].
  unfold count. destruct (Hc i Hi) as [H|H]; unfold count in H; rewrite H; done.
Qed.

(** A daemon that does not step hears every leader of the round, and nothing else. *)
Lemma round_waits j :
  (j < n)%nat -> count p j = 1 ->
  state p' j = state p j /\ exists A, alive p' j = alive p j ++ A /\ (forall x, x ∈ A <-> exists i, leads p' i /\ i <> j /\ x = ident i) /\
    exists I, ids p' j = ids p j ++ I /\ (forall x, x ∈ I -> x <= ident 0).
Proof.
  intros Hj H1. destruct Hp as [Hl Hc]. destruct (round_at o p j Hl Ho Hj) as (A1 & A2 & I1 & I2 & HA & HI & E).
  unfold state, alive, ids, count in *. rewrite E. unfold stepped, extend. cbn [fst snd n_state n_alive n_ids]. rewrite H1. cbn [Z.eqb n_state n_alive n_ids]. split; [done|].
  exists (A1 ++ A2). rewrite (app_assoc _ A1). split; [done|]. split; [done|]. exists (I1 ++ I2). rewrite (app_assoc _ I1). split; [done|].
  intros x Hx. destruct (HI x Hx) as (i & Hi & _ & ->). apply ident_le. lia.
Qed.
(** A daemon that steps has heard some of them before. *)
Lemma round_steps j :
  (j < n)%nat -> count p j = 0 ->
  exists A1 A2 I1 I2, (forall x, x ∈ A1 ++ A2 <-> exists i, leads p' i /\ i <> j /\ x = ident i) /\ (forall x, x ∈ I1 ++ I2 -> x <= ident 0) /\
    let m := node_step (ident j) (is_prim j) (mkNode (state p j) (alive p j ++ A1) (ids p j ++ I1)) in
    state p' j = n_state m /\ alive p' j = n_alive m ++ A2 /\ ids p' j = n_ids m ++ I2.
Proof.
  intros Hj H0. destruct Hp as [Hl Hc]. destruct (round_at o p j Hl Ho Hj) as (A1 & A2 & I1 & I2 & HA & HI & E).
  exists A1, A2, I1, I2. split; [done|]. split. { intros x Hx. destruct (HI x Hx) as (i & Hi & _ & ->). apply ident_le. lia. }
  unfold state, alive, ids, count, is_prim in *. rewrite E. unfold stepped, extend. cbn [fst snd n_state n_alive n_ids]. rewrite H0. done.
Qed.

Lemma round_heard : heard p'.
Proof.
  intros i j Hj Hij H0 Hi. rewrite round_counts in H0 by done.
  destruct (round_waits j Hj) as (_ & A & -> & HA & _); [lia|]. apply elem_of_app. right. apply HA. by exists i.
Qed.
End one_round.

(** The leader of the highest identity. *)
Lemma best_leader p : (exists i, leads p i) -> exists i, leads p i /\ forall j, leads p j -> ident j <= ident i.
Proof.
  intros [i Hi]. revert Hi. induction i as [i IH] using lt_wf_ind. intros Hi.
  destruct (decide (Exists (fun j => state p j = LEADER_STATE) (seq 0 i))) as [H|H].
  - apply Exists_exists in H as (j & Hj & Hs). apply elem_of_seq in Hj. apply (IH j); [lia|]. destruct Hi. split; [lia|done].
  - exists i. split; [done|]. intros j [Hj Hs]. destruct (decide (j < i)%nat); [|apply ident_le; lia].
    exfalso. apply H, Exists_exists. exists j. split; [apply elem_of_seq; lia|done].
Qed.

Lemma node_step_leader id pr m :
  n_state (node_step id pr m) = LEADER_STATE ->
  n_alive (node_step id pr m) = [] /\
  ((n_state m = LEADER_STATE /\ checkList id (n_alive m) = true) \/ (n_state m = ELECTION_STATE /\ (n_alive m = [] \/ pr = true))).
Proof.
  unfold node_step. destruct (n_state m); cbn; intros H; try done.
  - by destruct (IsNil (n_alive m) || pr).
  - destruct (n_alive m) as [|y l], pr; cbn in *; try done; destruct (checkList id (n_ids m)); cbn in *; try done; eauto 10.
  - destruct (checkList id (n_alive m)); cbn in *; [eauto|done].
Qed.

Section progress.
Context (p : nodes) (o : list nat) (Hp : pool_ok p) (Ho : round_order o).
Local Notation p' := (turns prim ident o p).

(** The leader of the highest identity leads on, unless one of a higher identity leads. *)
Lemma best_persists i :
  settled p -> leads p i -> (forall j, leads p j -> ident j <= ident i) -> exists k, leads p' k /\ ident i <= ident k.
Proof.
  intros Hs [Hi Hl] Hbest. destruct Hp as [_ Hc]. destruct (Hc i Hi) as [H0|H1].
  - destruct (round_steps p o Hp Ho i Hi H0) as (A1 & A2 & I1 & I2 & HA & _ & Hst & _). cbn in Hst. rewrite Hl in Hst. cbn in Hst.
    destruct (checkList (ident i) (alive p i ++ A1)) eqn:E; [exists i; split; [by split|lia]|].
    apply not_true_iff_false in E. rewrite checkList_spec in E.
    assert (X : exists x, x ∈ alive p i ++ A1 /\ ident i < x).
    { destruct (decide (Exists (fun x => ident i < x) (alive p i ++ A1))) as [H|H]; [by apply Exists_exists in H|].
      exfalso. apply E. intros x Hx. destruct (Z.le_gt_cases x (ident i)); [done|]. exfalso. apply H, Exists_exists. exists x. split; [done|lia]. }
    destruct X as (x & Hx & Hgt). apply elem_of_app in Hx as [Hx|Hx].
    + destruct (Hs i x (conj Hi Hl) Hx) as (k & Hk & ?). specialize (Hbest k Hk). lia.
    + destruct (proj1 (HA x)) as (k & Hk & _ & ->); [apply elem_of_app; by left|]. exists k. split; [done|lia].
  - destruct (round_waits p o Hp Ho i Hi H1) as (Hst & _). exists i. split; [|lia]. split; [done|congruence].
Qed.

Lemma round_settled : settled p -> settled p'.
Proof.
  intros Hs j x [Hj Hl] Hx. destruct Hp as [_ Hc]. destruct (Hc j Hj) as [H0|H1].
  - destruct (round_steps p o Hp Ho j Hj H0) as (A1 & A2 & I1 & I2 & HA & _ & Hst & Hal & _). rewrite Hl in Hst.
    destruct (node_step_leader _ _ _ (eq_sym Hst)) as [En _]. rewrite Hal, En in Hx.
    destruct (proj1 (HA x)) as (k & Hk & _ & ->); [apply elem_of_app; by right|]. exists k. split; [done|lia].
  - destruct (round_waits p o Hp Ho j Hj H1) as (Hst & A & Hal & HA & _). rewrite Hal in Hx. apply elem_of_app in Hx as [Hx|Hx].
    + destruct (Hs j x) as (k & Hk & Hxk); [split; [done|congruence]|done|].
      destruct (best_leader p (ex_intro _ k Hk)) as (i & Hi & Hbest). destruct (best_persists i Hs Hi Hbest) as (k' & Hk' & ?).
      exists k'. split; [done|]. specialize (Hbest k Hk). lia.
    + destruct (proj1 (HA x) Hx) as (k & Hk & _ & ->). exists k. split; [done|lia].
Qed.

Lemma round_decided : settled p -> decided p -> decided p'.
Proof.
  unfold decided. destruct prim eqn:E; intros Hs Hd.
  - destruct (best_persists 0%nat Hs Hd) as (k & Hk & Hle); [intros j [? _]; apply ident_le; lia|]. rewrite E in Hk.
    assert (k = 0%nat) as -> by (destruct Hk, Hd; apply ident_inj; [lia..|]; pose proof (ident_le 0 k); lia). done.
  - destruct (best_leader p Hd) as (i & Hi & Hbest). destruct (best_persists i Hs Hi Hbest) as (k & Hk & _). rewrite E in Hk. by exists k.
Qed.

Lemma no_new_leader j : heard p -> decided p -> leads p' j -> leads p j.
Proof.
  intros Hh Hd [Hj Hl]. destruct Hp as [_ Hc]. destruct (Hc j Hj) as [H0|H1].
  - destruct (round_steps p o Hp Ho j Hj H0) as (A1 & A2 & I1 & I2 & _ & _ & Hst & _). rewrite Hl in Hst.
    destruct (node_step_leader _ _ _ (eq_sym Hst)) as [_ [[Hs _]|[_ Hq]]]; [by split|]. cbn in Hq.
    assert (HI : exists i, leads p i /\ (i = j \/ is_prim j = false)).
    { unfold decided, is_prim in *. destruct prim; cbn; [|destruct Hd as [i Hi]; exists i; tauto]. exists 0%nat. split; [done|]. destruct j; [by left|by right]. }
    destruct HI as (i & Hi & [->|Hpj]); [done|]. destruct (decide (i = j)) as [->|Hij]; [done|]. exfalso.
    pose proof (Hh i j Hj Hij H0 Hi) as Hin. destruct Hq as [Hq|Hq]; [|congruence]. destruct (alive p j); [by apply elem_of_nil in Hin|done].
  - destruct (round_waits p o Hp Ho j Hj H1) as (Hst & _). split; [done|congruence].
Qed.

(** Once it is decided, the leader of the highest identity leads on, and any other one only until its
    next step. *)
Lemma best_stays i :
  settled p -> heard p -> decided p -> leads p i -> (forall j, leads p j -> ident j <= ident i) ->
  leads p' i /\ forall j, leads p' j -> leads p j /\ (j = i \/ count p j = 1).
Proof.
  intros Hs Hh Hd Hi Hbest. destruct (best_persists i Hs Hi Hbest) as (k & Hk & Hik).
  pose proof (no_new_leader k Hh Hd Hk) as Hk'. pose proof (Hbest k Hk'). assert (k = i) as -> by (destruct Hk', Hi; apply ident_inj; lia).
  split; [done|]. intros j Hj. pose proof (no_new_leader j Hh Hd Hj) as Hj'. split; [done|].
  destruct (decide (j = i)) as [->|Hji]; [by left|right]. destruct Hp as [_ Hc]. destruct Hj' as [Hjn Hjl]. destruct (Hc j Hjn) as [H0|]; [|done]. exfalso.
  destruct (round_steps p o Hp Ho j Hjn H0) as (A1 & A2 & I1 & I2 & _ & _ & Hst & _). destruct Hj as [_ Hl]. rewrite Hl in Hst.
  destruct (node_step_leader _ _ _ (eq_sym Hst)) as [_ [[_ Hck]|[Hne _]]]; [|cbn in Hne; congruence]. rewrite checkList_spec in Hck. cbn in Hck.
  pose proof (Hh i j Hjn (not_eq_sym Hji) H0 Hi) as Hin. specialize (Hck (ident i)). specialize (Hbest j (conj Hjn Hjl)).
  assert (ident i <= ident j) by (apply Hck, elem_of_app; by left). apply Hji. destruct Hi. apply ident_inj; lia.
Qed.

(** How far the daemon of the highest identity is from leading. *)
Definition clean q : bool := (prim || bool_decide (alive q 0 = [])) && checkList (ident 0) (ids q 0).
Definition rank q : Z :=
  match state q 0 with
  | LEADER_STATE => 0
  | ELECTION_STATE => if clean q then 1 else 3
  | PASSIVE_STATE => if clean q then 2 else 4
  | PRE_STATE => 3
  end.
Definition distance q : Z := 2 * rank q + count q 0.

Lemma undecided_rank q : (0 < n)%nat -> ~ decided q -> 1 <= rank q <= 4.
Proof.
  intros Hn Hd. unfold rank. destruct (state q 0) eqn:E; [lia|destruct (clean q); lia|destruct (clean q); lia|]. exfalso. apply Hd. unfold decided, leads.
  destruct prim; [done|]. exists 0%nat. done.
Qed.
Lemma round_progress : (0 < n)%nat -> ~ decided p -> ~ decided p' -> distance p' < distance p.
Proof.
  intros Hn Hd Hd'. assert (HA' : forall A, prim = false -> (forall x, x ∈ A <-> exists i, leads p' i /\ i <> 0%nat /\ x = ident i) -> A = []).
  { intros A Hpr HA. destruct A as [|x A]; [done|]. exfalso. apply Hd'. unfold decided. rewrite Hpr. destruct (proj1 (HA x)) as (i & Hi & _); [left|]. rewrite <- Hpr. by exists i. }
  assert (HI' : forall l I, (forall x, x ∈ I -> x <= ident 0) -> checkList (ident 0) l = true -> checkList (ident 0) (l ++ I) = true).
  { intros l I HI Hl. rewrite checkList_spec in *. intros x [Hx|Hx]%elem_of_app; auto. }
  destruct Hp as [_ Hc]. pose proof (undecided_rank p Hn Hd) as Hr. pose proof (undecided_rank p' Hn Hd') as Hr'.
  unfold distance. rewrite (round_counts p o Hp Ho) by done. destruct (Hc 0%nat Hn) as [H0|H1].
  - rewrite H0. enough (rank p' <= rank p - 1) by lia.
    destruct (round_steps p o Hp Ho 0%nat Hn H0) as (A1 & A2 & I1 & I2 & HA & HI & Hst & Hal & Hid).
    assert (HA0 : prim = false -> A1 = [] /\ A2 = []). { intros Hpr. pose proof (HA' _ Hpr HA) as E. by apply app_eq_nil in E. }
    assert (HI1 : forall x, x ∈ I1 -> x <= ident 0) by (intros; apply HI, elem_of_app; by left).
    assert (HI2 : forall x, x ∈ I2 -> x <= ident 0) by (intros; apply HI, elem_of_app; by right).
    assert (Hclr : alive p' 0 = A2 -> ids p' 0 = I2 -> clean p' = true).
    { intros Ea Ei. unfold clean. rewrite Ea, Ei. apply andb_true_iff. split; [|by apply (HI' [])].
      destruct prim; [done|]. by rewrite (proj2 (HA0 eq_refl)). }
    assert (Hpr : is_prim 0 = prim) by apply andb_true_r. cbv zeta in Hst, Hal, Hid. rewrite Hpr in Hst, Hal, Hid.
    assert (Hcl : clean p = true -> (IsNil (alive p 0 ++ A1) || prim = true) /\ checkList (ident 0) (ids p 0 ++ I1) = true).
    { unfold clean. rewrite andb_true_iff. intros [Ha Hk]. split; [|by apply HI']. destruct prim; [apply orb_true_r|]. cbn in Ha.
      apply bool_decide_eq_true in Ha. by rewrite Ha, (proj1 (HA0 eq_refl)). }
    unfold rank at 2. unfold rank in Hr. unfold node_step in Hst, Hal, Hid. cbn [n_state n_alive n_ids] in Hst, Hal, Hid.
    destruct (state p 0); [..|lia].
    + unfold rank. rewrite Hst. cbn. rewrite Hclr by done. lia.
    + destruct (IsNil (alive p 0 ++ A1) || prim) eqn:Ec; cbn [n_state n_alive n_ids] in Hst, Hal, Hid.
      * unfold rank in *. rewrite Hst in *. destruct (clean p) eqn:Ecl; [|destruct (clean p'); lia].
        enough (clean p' = true) as -> by lia. unfold clean. rewrite Hal, Hid. apply andb_true_iff. split; [|apply HI'; [done|by apply Hcl]].
        destruct prim eqn:Epr; [done|]. rewrite orb_false_r in Ec. rewrite (proj2 (HA0 eq_refl)), app_nil_r. cbn. apply bool_decide_eq_true.
        by destruct (alive p 0 ++ A1).
      * unfold rank. rewrite Hst, Hclr by done. destruct (clean p) eqn:Ecl; [destruct (Hcl eq_refl); congruence|lia].
    + assert (G : state p' 0 = PASSIVE_STATE /\ alive p' 0 = A2 /\ ids p' 0 = I2 /\ clean p = false).
      { destruct (negb (IsNil (alive p 0 ++ A1)) && negb prim) eqn:Ec.
        - split_and!; try done. apply not_true_iff_false. intros [Hx _]%Hcl. apply andb_true_iff in Ec as [Ex Ey]. rewrite negb_true_iff in *.
          rewrite Ex, Ey in Hx. done.
        - destruct (checkList (ident 0) (ids p 0 ++ I1)) eqn:Ek; cbn in Hst.
          + exfalso. unfold rank in Hr'. rewrite Hst in Hr'. lia.
          + split_and!; try done. apply not_true_iff_false. intros [_ Hx]%Hcl. congruence. }
      destruct G as (Gs & Ga & Gi & ->). unfold rank. rewrite Gs, Hclr by done. lia.
  - rewrite H1. enough (rank p' <= rank p) by lia.
    destruct (round_waits p o Hp Ho 0%nat Hn H1) as (Hst & A & Hal & HA & I & Hid & HI).
    assert (clean p = true -> clean p' = true).
    { unfold clean. rewrite !andb_true_iff, Hid. intros [Ha Hk]. split; [|by apply HI']. destruct prim eqn:Hpr; [done|]. cbn in *.
      rewrite bool_decide_eq_true in *. rewrite Hal, Ha. by rewrite (HA' A eq_refl HA). }
    unfold rank in *. rewrite Hst. destruct (state p 0); try lia; destruct (clean p), (clean p'); try lia; naive_solver.
Qed.
End progress.

Definition rounds (os : list (list nat)) p : nodes := fold_left (fun p o => turns prim ident o p) os p.
Lemma rounds_app os os' p : rounds (os ++ os') p = rounds os' (rounds os p).
Proof. apply fold_left_app. Qed.
Lemma rounds_cons o os p : rounds (o :: os) p = rounds os (turns prim ident o p).
Proof. done. Qed.

Lemma rounds_keep os p :
  Forall round_order os -> pool_ok p -> settled p ->
  pool_ok (rounds os p) /\ settled (rounds os p) /\ (decided p -> decided (rounds os p)) /\ (os <> [] -> heard (rounds os p)).
Proof.
  intros Hos. revert p. induction Hos as [|o os Ho Hos IH]; intros p Hp Hs; [done|]. rewrite rounds_cons.
  destruct (IH (turns prim ident o p)) as (H1 & H2 & H3 & H4); [by apply round_ok|by apply round_settled|].
  split_and!; [done|done|intros Hd; by apply H3, round_decided|]. intros _.
  destruct os as [|o' os]; [by apply round_heard|by apply H4].
Qed.

Lemma decided_dec p : decided p \/ ~ decided p.
Proof.
  unfold decided, leads. destruct prim.
  - destruct (decide ((0 < n)%nat /\ state p 0 = LEADER_STATE)); tauto.
  - destruct (decide (Exists (fun i => state p i = LEADER_STATE) (seq 0 n))) as [H|H].
    + left. apply Exists_exists in H as (i & Hi & Hs). apply elem_of_seq in Hi. exists i. split; [lia|done].
    + right. intros (i & Hi & Hs). apply H, Exists_exists. exists i. split; [apply elem_of_seq; lia|done].
Qed.

Lemma rounds_progress os p :
  (0 < n)%nat -> Forall round_order os -> pool_ok p -> settled p -> ~ decided (rounds os p) ->
  distance (rounds os p) + Z.of_nat (length os) <= distance p.
Proof.
  intros Hn Hos. revert p. induction Hos as [|o os Ho Hos IH]; intros p Hp Hs Hd; [cbn; lia|]. rewrite rounds_cons in *.
  assert (Hp' := round_ok p o Hp Ho). assert (Hs' := round_settled p o Hp Ho Hs).
  assert (Hd1 : ~ decided (turns prim ident o p)) by (intros H; apply Hd; by apply (rounds_keep os _ Hos Hp' Hs')).
  assert (Hd0 : ~ decided p) by (intros H; apply Hd1; by apply round_decided).
  pose proof (round_progress p o Hp Ho Hn Hd0 Hd1). specialize (IH _ Hp' Hs' Hd). cbn [length]. lia.
Qed.

Lemma decided_in_eight os p :
  (0 < n)%nat -> Forall round_order os -> pool_ok p -> settled p -> (8 <= length os)%nat -> decided (rounds os p).
Proof.
  intros Hn Hos Hp Hs Hl. destruct (decided_dec (rounds os p)) as [|Hd]; [done|]. exfalso.
  pose proof (rounds_progress os p Hn Hos Hp Hs Hd) as H. pose proof (undecided_rank _ Hn Hd).
  destruct (decided_dec p) as [Hdp|Hdp]; [by apply Hd, (rounds_keep os p Hos Hp Hs)|]. pose proof (undecided_rank _ Hn Hdp).
  destruct (rounds_keep os p Hos Hp Hs) as [[_ Hc'] _]. destruct Hp as [_ Hc]. unfold distance in H.
  destruct (Hc 0%nat Hn), (Hc' 0%nat Hn); lia.
Qed.

Definition sole p i : Prop := forall j, leads p j <-> j = i.
Lemma sole_stays os p i :
  Forall round_order os -> pool_ok p -> settled p -> heard p -> decided p -> sole p i -> sole (rounds os p) i.
Proof.
  intros Hos. revert p. induction Hos as [|o os Ho Hos IH]; intros p Hp Hs Hh Hd Hso; [done|]. rewrite rounds_cons.
  destruct (best_stays p o Hp Ho i Hs Hh Hd) as [Hi Hj]; [by apply Hso|intros j ->%Hso; lia|].
  apply IH; [by apply round_ok|by apply round_settled|by apply round_heard|by apply round_decided|].
  intros j. split; [|by intros ->]. intros [Hl _]%Hj. by apply Hso.
Qed.

(** After ten rounds there is one leader for good. *)
Lemma elects os p :
  (0 < n)%nat -> Forall round_order os -> pool_ok p -> settled p -> (10 <= length os)%nat ->
  exists i, (prim = true -> i = 0%nat) /\ forall more, Forall round_order more -> sole (rounds (os ++ more) p) i.
Proof.
  intros Hn Hos Hp Hs Hl. assert (E : exists q a b, os = q ++ [a; b] /\ (8 <= length q)%nat).
  { destruct os as [|b os'] using rev_ind; [cbn in Hl; lia|]. clear IHos'. destruct os' as [|a q] using rev_ind; [cbn in Hl; lia|].
    exists q, a, b. rewrite <- app_assoc. split; [done|]. rewrite !length_app in Hl. cbn in Hl. lia. }
  destruct E as (os8 & a & b & -> & Hl8). apply Forall_app in Hos as [H8 Hab]. apply Forall_cons in Hab as [Ha Hb]. apply Forall_cons in Hb as [Hb _].
  set (q := rounds os8 p). destruct (rounds_keep os8 p H8 Hp Hs) as (Hq & Hqs & _ & Hqh). fold q in Hq, Hqs, Hqh.
  assert (Hqh' : heard q) by (apply Hqh; intros ->; cbn in Hl8; lia). assert (Hqd : decided q) by (by apply decided_in_eight).
  assert (HL : exists i, (prim = true -> i = 0%nat) /\ leads q i /\ forall j, leads q j -> ident j <= ident i).
  { unfold decided in Hqd. destruct prim eqn:Ep.
    - exists 0%nat. split_and!; try done. intros j [Hj _]. apply ident_le. lia.
    - destruct (best_leader q Hqd) as (i & ? & ?). by exists i. }
  destruct HL as (i & Hpi & Hi & Hbest). exists i. split; [done|].
  destruct (best_stays q a Hq Ha i Hqs Hqh' Hqd Hi Hbest) as [Hi1 Hj1]. set (q1 := turns prim ident a q) in *.
  assert (Hq1 : pool_ok q1) by (by apply round_ok). assert (Hq1s : settled q1) by (by apply round_settled).
  assert (Hq1h : heard q1) by (by apply round_heard). assert (Hq1d : decided q1) by (by apply round_decided).
  destruct (best_stays q1 b Hq1 Hb i Hq1s Hq1h Hq1d Hi1) as [Hi2 Hj2]; [intros j [Hj _]%Hj1; by apply Hbest|].
  intros more Hm. rewrite <- app_assoc, rounds_app. fold q. change ([a; b] ++ more) with (a :: b :: more). rewrite !rounds_cons. fold q1.
  apply sole_stays; [done|by apply round_ok|by apply round_settled|by apply round_heard|by apply round_decided|].
  intros j. split; [|by intros ->]. intros Hj. destruct (Hj2 j Hj) as [Hjq1 [->|Hc1]]; [done|].
  destruct (Hj1 j Hjq1) as [_ [->|Hc0]]; [done|]. pose proof (round_counts q a Hq Ha j (proj1 Hjq1)) as Hcc. fold q1 in Hcc. lia.
Qed.
End election.

(** ** The pool of daemons *)

Record Daemon := mkDaemon { d_addr : bytes; d_st : HADStateMachine; d_w : World }.
Abbreviation message := (command * bytes * option HadAd * bool)%type.

Section pool.
Context (reaches : list Event -> Peer -> bool).

(** A message that has arrived is handled by the daemon with its address. *)
Definition receive (m : message) (d : Daemon) : option Daemon :=
  let '(c, a, ad, ok) := m in
  if ok && bool_decide (d_addr d = a) then
    match commandHandlerHad c (Some (message_of ad)) (d_st d) (d_w d) with
    | Ok _ st w => Some (mkDaemon (d_addr d) st w)
    | _ => None
    end
  else Some d.
Fixpoint receive_all (ms : list message) (d : Daemon) : option Daemon :=
  match ms with [] => Some d | m :: ms' => d ← receive m d; receive_all ms' d end.
(** The messages of the events that [w] has and [w0] has not, in the order they were sent. *)
Definition new_messages (w0 w : World) : list message :=
  reverse (had_cmds (take (length (events w) - length (events w0)) (events w))).
(** The cycle of one daemon and the handling of what it sends; no result when a daemon ends. *)
Definition daemon_turn (i : nat) (pool : list Daemon) : option (list Daemon) :=
  d ← pool !! i;
  match cycle reaches (d_st d) (d_w d) with
  | Ok _ st w => mapM (receive_all (new_messages (d_w d) w)) (<[i := mkDaemon (d_addr d) st w]> pool)
  | _ => None
  end.
Fixpoint daemon_turns (o : list nat) (pool : list Daemon) : option (list Daemon) :=
  match o with [] => Some pool | i :: o' => pool ← daemon_turn i pool; daemon_turns o' pool end.
Fixpoint daemon_rounds (os : list (list nat)) (pool : list Daemon) : option (list Daemon) :=
  match os with [] => Some pool | o :: os' => pool ← daemon_turns o pool; daemon_rounds os' pool end.

Definition node (d : Daemon) : Z * Node := (m_callsCounter (d_st d), node_of (d_st d)).

(** The running daemons of a HAD_LIST, in its order: their addresses and identities.  Each was
    initialized from that list, controls the daemon [name] and sends to all the others; it may also send
    to addresses of daemons that are not running. *)
Section configured.
Context (prim : bool) (addrs : list bytes) (ident : nat -> Z) (name : bytes).
Definition daemon_ok (i : nat) (d : Daemon) : Prop :=
  ready (d_st d) /\ (m_callsCounter (d_st d) = 0 \/ m_callsCounter (d_st d) = 1) /\ addrs !! i = Some (d_addr d) /\
  m_selfId (d_st d) = ident i /\ m_isPrimary (d_st d) = prim && (i =? 0)%nat /\
  NoDup (strings (m_otherHadIps (d_st d))) /\ (forall j a, addrs !! j = Some a -> a ∈ strings (m_otherHadIps (d_st d)) <-> j <> i) /\ lower (m_controlleeName (d_st d)) = name /\
  exists lst, message_of (m_classAd (d_st d)) = mkMessage (Some (m_selfId (d_st d))) (Some (m_controlleeName (d_st d))) (Some lst) /\
    fits (m_controlleeName (d_st d)) /\ fits lst.
Definition configured (pool : list Daemon) : Prop :=
  length pool = length addrs /\ forall i d, pool !! i = Some d -> daemon_ok i d.

Lemma daemon_ok_settings i a st w st' w' :
  settings st' = settings st -> (m_callsCounter st' = 0 \/ m_callsCounter st' = 1) -> daemon_ok i (mkDaemon a st w) -> daemon_ok i (mkDaemon a st' w').
Proof.
  intros E Hc (Hr & _ & Ha & Hid & Hp & Ho & Ho' & Hn & lst & Hm & Hf). unfold daemon_ok in *. cbn in *.
  assert (Hr' : ready st') by (by eapply settings_ready).
  assert (F : m_selfId st' = m_selfId st /\ m_isPrimary st' = m_isPrimary st /\ strings (m_otherHadIps st') = strings (m_otherHadIps st) /\
    m_controlleeName st' = m_controlleeName st /\ message_of (m_classAd st') = message_of (m_classAd st)).
  { unfold settings in E. injection E; intros; split_and!; done. }
  destruct F as (-> & -> & -> & -> & ->). split_and!; try done. by exists lst.
Qed.

Lemma receive_announcement s c i j d0 d :
  announces s = Some c -> daemon_ok i d0 -> daemon_ok j d ->
  exists d', receive (c, d_addr d, m_classAd (d_st d0), true) d = Some d' /\ d_addr d' = d_addr d /\ daemon_ok j d' /\
    node d' = hears s (ident i) (node d).
Proof.
  intros Hs (_ & _ & _ & Hid & _ & _ & _ & Hn0 & lst & Hm & Hf1 & Hf2) Hd. unfold receive. cbn [andb]. rewrite bool_decide_eq_true_2 by done.
  pose proof Hd as (_ & Hc & _ & _ & _ & _ & _ & Hn & _). rewrite Hm. unfold commandHandlerHad. cbn [msg_id msg_controllee msg_list].
  rewrite (Is_true_eq_true _ Hf1), (Is_true_eq_true _ Hf2). cbn [negb]. rewrite bind_get. unfold strcaseeq.
  rewrite bool_decide_eq_true_2 by congruence. cbn [negb]. destruct d as [a st w]. rewrite Hid.
  destruct s; cbn in Hs; simplify_eq; cbn; eexists; (split; [reflexivity|]); (split; [done|]); (split; [|done]);
    exact (daemon_ok_settings j a st w _ w eq_refl Hc Hd).
Qed.

(** A daemon among the addresses of an announcement handles it once; the others do not. *)
Lemma receive_all_announcement s c i j d0 : forall (l : list bytes) oks d,
  announces s = Some c -> daemon_ok i d0 -> daemon_ok j d -> NoDup l -> Forall2 (fun a ok => a = d_addr d -> ok = true) l oks ->
  exists d', receive_all (zip_with (fun a ok => (c, a, m_classAd (d_st d0), ok)) l oks) d = Some d' /\ d_addr d' = d_addr d /\ daemon_ok j d' /\
    node d' = if decide (d_addr d ∈ l) then hears s (ident i) (node d) else node d.
Proof.
  induction l as [|a l IH]; intros oks d Hs Hi Hj Hnd Hoks.
  { inversion Hoks; subst. exists d. by split_and!. }
  apply Forall2_cons_inv_l in Hoks as (ok & oks' & Hok & Hoks & ->). apply NoDup_cons in Hnd as [Ha Hnd]. cbn [zip_with receive_all].
  destruct (decide (d_addr d = a)) as [<-|Hne].
  - rewrite (Hok eq_refl). destruct (receive_announcement s c i j d0 d Hs Hi Hj) as (d1 & E & Ea & Hok1 & Hnode). rewrite E. cbn.
    destruct (IH oks' d1 Hs Hi Hok1 Hnd) as (d' & E' & Ea' & Hok' & Hnode'); [by rewrite Ea|]. exists d'. rewrite E'. split_and!; try done; [congruence|].
    rewrite Hnode', Ea. rewrite decide_False by done. rewrite decide_True by left. done.
  - unfold receive at 1. rewrite bool_decide_eq_false_2 by done. rewrite andb_false_r. cbn.
    destruct (IH oks' d Hs Hi Hj Hnd Hoks) as (d' & E' & Ea' & Hok' & Hnode'). exists d'. rewrite E'. split_and!; try done.
    rewrite Hnode'. apply decide_ext. rewrite elem_of_cons. naive_solver.
Qed.

Lemma mapM_pointwise {A B} (f : A -> option B) (P : nat -> A -> B -> Prop) l :
  (forall j d, l !! j = Some d -> exists d', f d = Some d' /\ P j d d') ->
  exists l', mapM f l = Some l' /\ length l' = length l /\ forall j d', l' !! j = Some d' -> exists d, l !! j = Some d /\ P j d d'.
Proof.
  revert P. induction l as [|x l IH]; intros P H.
  - exists []. done.
  - destruct (H 0%nat x eq_refl) as (x' & Ex & Px). destruct (IH (fun j => P (S j))) as (l' & El & Hl & Hl').
    { intros j d Hj. exact (H (S j) d Hj). }
    exists (x' :: l'). cbn. rewrite Ex. cbn. rewrite El. split; [done|]. split; [cbn; lia|]. intros [|j] d' Hj; cbn in Hj.
    + simplify_eq. eauto.
    + exact (Hl' j d' Hj).
Qed.

Lemma daemon_turn_refines i pool :
  (forall es, reaches es TheMaster = true) -> (forall es a, a ∈ addrs -> reaches es (TheHad a) = true) ->
  configured pool -> (i < length addrs)%nat ->
  exists pool', daemon_turn i pool = Some pool' /\ configured pool' /\ node <$> pool' = turn prim ident i (node <$> pool).
Proof.
  intros Hma Hha [Hl Hok] Hi. destruct (lookup_lt_is_Some_2 pool i) as [d0 Hd0]; [lia|]. pose proof (Hok i d0 Hd0) as Hd.
  pose proof Hd as (Hr & Hc & Ha & Hid & Hp & _). unfold daemon_turn. rewrite Hd0. cbn [mbind option_bind].
  pose proof (cycle_spec reaches (d_st d0) (d_w d0) Hr) as HC. pose proof (cycle_goes_on reaches (d_st d0) (d_w d0) Hma Hr) as HG.
  destruct (cycle reaches (d_st d0) (d_w d0)) as [[] st w|w|w]; [|by destruct (HG w)|done]. cbn [ends_well] in HC.
  destruct HC as (Hn & Hs & Hc' & _ & _ & _ & es & He & _ & Hsent).
  assert (Hd' : daemon_ok i (mkDaemon (d_addr d0) st w)).
  { destruct d0 as [a0 st0 w0]. refine (daemon_ok_settings i a0 st0 w0 st w Hs _ Hd). rewrite Hc'. destruct Hc as [Hc|Hc]; cbn in Hc |- *; rewrite Hc; [right|left]; done. }
  assert (Enode : node (mkDaemon (d_addr d0) st w) = stepped (ident i) (prim && (i =? 0)%nat) (node d0)).
  { unfold node, stepped. cbn [d_st fst snd]. rewrite Hc', Hn. unfold cycled. rewrite Hid, Hp. done. }
  set (d1 := mkDaemon (d_addr d0) st w) in *.
  assert (Ems : exists oks, Forall2 (arrival reaches) (strings (m_otherHadIps st)) oks /\ new_messages (d_w d0) w =
    match announces (m_state st) with None => [] | Some c => zip_with (fun a ok => (c, a, m_classAd (d_st d1), ok)) (strings (m_otherHadIps st)) oks end).
  { unfold new_messages. rewrite He, length_app. replace (length es + length (events (d_w d0)) - length (events (d_w d0)))%nat with (length es) by lia.
    rewrite take_app_length. unfold sent in Hsent. destruct (announces (m_state st)) as [c|].
    - destruct Hsent as (oks & Hoks & ->). exists oks. by rewrite reverse_involutive.
    - exists ((fun _ => true) <$> strings (m_otherHadIps st)). rewrite Hsent. split; [|done]. clear. induction (strings _); constructor; done. }
  destruct Ems as (oks & Hoks & ->). clear Hsent. pose proof Hd' as (_ & _ & _ & _ & _ & Hnd & Hel & _). cbn [d_st] in Hnd, Hel.
  destruct (mapM_pointwise (receive_all match announces (m_state st) with None => [] | Some c => zip_with (fun a ok => (c, a, m_classAd (d_st d1), ok)) (strings (m_otherHadIps st)) oks end)
    (fun j d d' => daemon_ok j d' /\ node d' = if decide (j = i) then node d1 else hears (m_state st) (ident i) (node d))
    (<[i := d1]> pool)) as (pool' & E & Hl' & Hpt).
  { intros j d Hj. assert (Hdj : daemon_ok j d /\ (j = i -> d = d1)).
    { destruct (decide (j = i)) as [->|Hji].
      - rewrite list_lookup_insert_eq in Hj by lia. simplify_eq. done.
      - rewrite list_lookup_insert_ne in Hj by done. split; [by apply Hok|done]. }
    destruct Hdj as [Hdj Hdi]. pose proof Hdj as (_ & _ & Haj & _). specialize (Hel j _ Haj).
    destruct (announces (m_state st)) as [c|] eqn:Ean.
    - destruct (receive_all_announcement (m_state st) c i j d1 (strings (m_otherHadIps st)) oks d Ean Hd' Hdj Hnd) as (d' & E' & _ & Hok' & Hno').
      { eapply Forall2_impl; [exact Hoks|]. intros a ok Har ->. apply Har. intros es0. apply Hha. by eapply list_elem_of_lookup_2. }
      exists d'. split; [done|]. split; [done|]. rewrite Hno'. destruct (decide (j = i)) as [->|Hji].
      + rewrite decide_False by tauto. by rewrite (Hdi eq_refl).
      + by rewrite decide_True by tauto.
    - exists d. split; [done|]. split; [done|]. destruct (decide (j = i)) as [->|Hji]; [by rewrite (Hdi eq_refl)|].
      destruct (m_state st); cbn in Ean; try done; by destruct (node d). }
  exists pool'. rewrite length_insert in Hl'. split; [done|]. split.
  { split; [lia|]. intros j d' Hj. by destruct (Hpt j d' Hj) as (d & _ & ? & _). }
  apply list_eq. intros j. rewrite list_lookup_fmap. unfold turn. rewrite list_lookup_fmap, Hd0. cbn [fmap option_fmap option_map].
  rewrite <- Enode. change (n_state (node d1).2) with (m_state st). rewrite list_lookup_imap, list_lookup_fmap.
  destruct (pool' !! j) as [d'|] eqn:Ej; cbn.
  - destruct (Hpt j d' Ej) as (d & Hj & _ & ->). destruct (decide (j = i)) as [->|Hji].
    + by rewrite Hd0.
    + rewrite list_lookup_insert_ne in Hj by done. by rewrite Hj.
  - apply lookup_ge_None in Ej. rewrite (lookup_ge_None_2 pool j) by lia. done.
Qed.

Lemma daemon_turns_refine o : forall pool,
  (forall es, reaches es TheMaster = true) -> (forall es a, a ∈ addrs -> reaches es (TheHad a) = true) ->
  configured pool -> Forall (fun i => (i < length addrs)%nat) o ->
  exists pool', daemon_turns o pool = Some pool' /\ configured pool' /\ node <$> pool' = turns prim ident o (node <$> pool).
Proof.
  induction o as [|i o IH]; intros pool Hma Hha Hc Ho; [by exists pool|]. apply Forall_cons in Ho as [Hi Ho].
  destruct (daemon_turn_refines i pool Hma Hha Hc Hi) as (pool1 & E1 & Hc1 & Hn1).
  destruct (IH pool1 Hma Hha Hc1 Ho) as (pool2 & E2 & Hc2 & Hn2). exists pool2. cbn [daemon_turns]. rewrite E1. cbn. rewrite E2.
  split; [done|]. split; [done|]. rewrite Hn2, Hn1. done.
Qed.
Lemma daemon_rounds_refine os : forall pool,
  (forall es, reaches es TheMaster = true) -> (forall es a, a ∈ addrs -> reaches es (TheHad a) = true) ->
  configured pool -> Forall (round_order (length addrs)) os ->
  exists pool', daemon_rounds os pool = Some pool' /\ configured pool' /\ node <$> pool' = rounds prim ident os (node <$> pool).
Proof.
  induction os as [|o os IH]; intros pool Hma Hha Hc Ho; [by exists pool|]. apply Forall_cons in Ho as [Hi Ho].
  destruct (daemon_turns_refine o pool Hma Hha Hc) as (pool1 & E1 & Hc1 & Hn1).
  { apply Forall_forall. intros i Hin. unfold round_order in Hi. rewrite Hi in Hin. apply elem_of_seq in Hin. lia. }
  destruct (IH pool1 Hma Hha Hc1 Ho) as (pool2 & E2 & Hc2 & Hn2). exists pool2. cbn [daemon_rounds]. rewrite E1. cbn. rewrite E2.
  split; [done|]. split; [done|]. rewrite Hn2, Hn1. done.
Qed.

(** The daemon at place [i] is leader. *)
Definition leader (pool : list Daemon) (i : nat) : Prop := exists d, pool !! i = Some d /\ m_state (d_st d) = LEADER_STATE.
(** What a leader has heard from leaders is at most the identity of a daemon that leads: so it is in a
    pool without a leader, as at the start or after the leader has died. *)
Definition pool_settled (pool : list Daemon) : Prop :=
  forall j d x, pool !! j = Some d -> m_state (d_st d) = LEADER_STATE -> x ∈ receivedAliveList (d_st d) ->
  exists k, leader pool k /\ x <= ident k.

Lemma leader_leads pool i : length pool = length addrs -> leader pool i <-> leads (length addrs) (node <$> pool) i.
Proof.
  intros Hl. unfold leader, leads, state. split.
  - intros (d & Hd & Hs). split; [rewrite <- Hl; by eapply lookup_lt_Some|].
    erewrite list_lookup_total_correct; [|by rewrite list_lookup_fmap, Hd]. done.
  - intros [Hi Hs]. destruct (lookup_lt_is_Some_2 pool i) as [d Hd]; [lia|]. exists d. split; [done|].
    erewrite list_lookup_total_correct in Hs; [|by rewrite list_lookup_fmap, Hd]. done.
Qed.

(** C4 (liveness): the election. Take the HADs of one HAD_LIST, all of them running and configured
    alike, in the order of the list and with identities that decrease along it, where every one can at
    all times reach its master and every other one. They may be in any states and have heard any
    candidates, but what a leader has heard from leaders is at most the identity of one that leads now
    (the pool is settled: so it is when the daemons start, or when the leader has died). Every daemon
    takes one cycle in each round, in an order that may change from round to round. After ten rounds
    there is exactly one leader, the primary if there is one; it stays the only leader however many such
    rounds follow, and no daemon ends. *)
Theorem one_leader_elected os pool :
  (forall es, reaches es TheMaster = true) -> (forall es a, a ∈ addrs -> reaches es (TheHad a) = true) ->
  (forall i j, (i < j < length addrs)%nat -> ident j < ident i) -> (0 < length addrs)%nat -> configured pool -> pool_settled pool ->
  Forall (round_order (length addrs)) os -> (10 <= length os)%nat ->
  exists i, (prim = true -> i = 0%nat) /\
    forall more, Forall (round_order (length addrs)) more ->
    exists pool', daemon_rounds (os ++ more) pool = Some pool' /\ configured pool' /\ forall j, leader pool' j <-> j = i.
Proof.
  intros Hma Hha Hlt Hn Hc Hs Hos Hl. pose proof Hc as [Hlen Hok].
  destruct (elects prim ident (length addrs) Hlt os (node <$> pool) Hn Hos) as (i & Hi & Hsole); [..|done|].
  - split; [by rewrite length_fmap|]. intros i Hi. destruct (lookup_lt_is_Some_2 pool i) as [d Hd]; [lia|].
    unfold count. erewrite list_lookup_total_correct; [|by rewrite list_lookup_fmap, Hd]. apply (Hok i d Hd).
  - intros j x Hj Hx. apply (leader_leads pool j Hlen) in Hj as (d & Hd & Hst). unfold alive in Hx.
    erewrite list_lookup_total_correct in Hx; [|by rewrite list_lookup_fmap, Hd].
    destruct (Hs j d x Hd Hst Hx) as (k & Hk & Hle). exists k. split; [by apply leader_leads|done].
  - exists i. split; [done|]. intros more Hm.
    destruct (daemon_rounds_refine (os ++ more) pool Hma Hha Hc) as (pool' & E & Hc' & Hn'); [by apply Forall_app|].
    exists pool'. split; [done|]. split; [done|]. intros j. rewrite (leader_leads pool' j (proj1 Hc')), Hn'. by apply Hsole.
Qed.
End configured.
End pool.
