(* ===== verification/Replication.v ===== *)
(** The replication daemon: condor_had/ReplicatorStateMachine.cpp and its base class
    AbstractReplicatorStateMachine.cpp, HAD_Version.cpp and FilesOperations.cpp.

    The daemons copy the state file of the controlled daemon from the leader to the other machines of
    HAD_LIST.  A version (a group identity and a logical clock) is kept in a file beside the state file;
    the leader counts the clock up when the state file changes and announces it, and the backups start
    a transferer process to fetch the files.  A handler is a computation over the fields of the object
    and its world: the files, the timers, and what it has done so far.  The operating system and the
    network are parameters that depend on what was done before. *)

From S2P Require Import Prelude Sinful CondorList StringList Had.

Open Scope Z_scope.

(** ** Versions (Version.h) *)

Inductive ReplicatorState := VERSION_REQUESTING | VERSION_DOWNLOADING | BACKUP | REPLICATION_LEADER.
#[export] Instance ReplicatorState_eq_dec : EqDecision ReplicatorState. Proof. solve_decision. Defined.
Definition state_number (s : ReplicatorState) : Z :=
  match s with VERSION_REQUESTING => 0 | VERSION_DOWNLOADING => 1 | BACKUP => 2 | REPLICATION_LEADER => 3 end.

(** The state of a version comes from the network as any integer. *)
Record Version := mkVersion {
  v_stateFilePath : bytes;
  v_versionFilePath : bytes;
  m_gid : Z;
  m_logicalClock : Z;
  m_sinfulString : bytes;
  v_state : Z;
  v_isPrimary : Z }.
#[export] Instance Version_eq_dec : EqDecision Version. Proof. solve_decision. Defined.
Definition new_Version : Version := mkVersion [] [] 0 0 [] (state_number VERSION_REQUESTING) 0.

Definition getHostName (v : Version) : bytes := default [] (getHostFromAddr (Some (m_sinfulString v))).
Definition isComparable (v version : Version) : bool := m_gid v =? m_gid version.
(** operator > and operator >= *)
Definition version_gt (v version : Version) : bool :=
  let leader x := v_state x =? state_number REPLICATION_LEADER in
  if leader v && negb (leader version) then true
  else if negb (leader v) && leader version then false
  else m_logicalClock version <? m_logicalClock v.
Definition version_ge (v version : Version) : bool := negb (version_gt version v).
Definition setState (v : Version) (state : Z) : Version :=
  mkVersion (v_stateFilePath v) (v_versionFilePath v) (m_gid v) (m_logicalClock v) (m_sinfulString v) state (v_isPrimary v).

(** *** On the wire *)

(** The values coded on a stream one after the other. *)
Inductive Field := WInt (z : Z) | WStr (s : bytes).
Definition code_int (s : list Field) : option (Z * list Field) := match s with WInt z :: s' => Some (z, s') | _ => None end.
Definition code_str (s : list Field) : option (bytes * list Field) := match s with WStr x :: s' => Some (x, s') | _ => None end.

Definition code (v : Version) : list Field :=
  [WInt (m_gid v); WInt (m_logicalClock v); WStr (m_sinfulString v); WInt (v_isPrimary v)].
Definition decode (v : Version) (stream : list Field) : option (Version * list Field) :=
  '(temporaryGid, stream) ← code_int stream;
  '(temporaryLogicalClock, stream) ← code_int stream;
  '(temporarySinfulString, stream) ← code_str stream;
  '(temporaryIsPrimary, stream) ← code_int stream;
  Some (mkVersion (v_stateFilePath v) (v_versionFilePath v) temporaryGid temporaryLogicalClock temporarySinfulString
          (v_state v) temporaryIsPrimary, stream).
(** decodeVersionAndState(); [None] is the null pointer. *)
Definition decodeVersionAndState (stream : list Field) : option Version :=
  '(newVersion, stream) ← decode new_Version stream;
  '(remoteReplicatorState, _) ← code_int stream;
  Some (setState newVersion remoteReplicatorState).

(** *** In the version file *)

Definition BUFSIZ : nat := Z.to_nat 8192.
(** An input stream, and getline( buffer, n ): at most n - 1 characters up to a newline, which is
    taken out; failing when there are more, or none before the end. *)
Record istream := mkIstream { rest : bytes; eofbit : bool; failbit : bool }.
Definition getline (n : nat) (s : istream) : bytes * istream :=
  if eofbit s || failbit s then ([], mkIstream (rest s) (eofbit s) true)
  else let '(line, more) := span (fun c => negb (ceqb c LF)) (rest s) in
       if (n <=? length line)%nat then (take (n - 1) line, mkIstream (drop (n - 1) line ++ more) false true)
       else match more with
            | [] => (line, mkIstream [] true (bool_decide (line = [])))
            | _ :: more' => (line, mkIstream more' false false)
            end.
(** load( temporaryGid, temporaryLogicalClock ) on the text of an open file: its result and the new
    values of the arguments. *)
Definition load_text (text : bytes) (temporaryLogicalClock : Z) : bool * Z * Z :=
  let '(buffer, versionFile) := getline BUFSIZ (mkIstream text false false) in
  let temporaryGid := atoi buffer in
  if eofbit versionFile then (false, temporaryGid, temporaryLogicalClock)
  else let '(buffer, _) := getline BUFSIZ versionFile in
       (true, temporaryGid, atoi buffer).
(** What save() writes. *)
Definition version_text (v : Version) : bytes := print_d (m_gid v) ++ LF :: print_d (m_logicalClock v).

(** ** The state of the daemon (AbstractReplicatorStateMachine.h, ReplicatorStateMachine.h) *)

Record ProcessMetadata := mkMetadata { m_pid : Z; m_lastTimeCreated : Z }.
Definition unset : ProcessMetadata := mkMetadata (-1) (-1).
Definition isValid (p : ProcessMetadata) : bool := negb (m_pid p =? -1) && negb (m_lastTimeCreated p =? -1).

(** m_classAd, by the attributes that initializeClassAd() assigns. *)
Record RepAd := mkRepAd { RepAd_NAME : bytes; RepAd_MY_ADDRESS : bytes; ATTR_REPLICATION_LIST : bytes }.

(** m_lastModifiedTime is the static member of Version. *)
Record ReplicatorStateMachine := mkReplicator {
  m_myVersion : Version;
  m_lastModifiedTime : Z;
  m_versionsList : list Version;
  m_stateFilePath : bytes;
  m_versionFilePath : bytes;
  m_transfererPath : bytes;
  m_state : ReplicatorState;
  m_replicationDaemonsList : StringList;
  m_connectionTimeout : Z;
  m_downloadReaperId : Z;
  m_uploadReaperId : Z;
  m_downloadTransfererMetadata : ProcessMetadata;
  m_uploadTransfererMetadataList : list ProcessMetadata;
  m_name : bytes;
  m_classAd : option RepAd;
  m_updateCollectorTimerId : Z;
  m_updateInterval : Z;
  m_replicationInterval : Z;
  m_hadAliveTolerance : Z;
  m_maxTransfererLifeTime : Z;
  m_newlyJoinedWaitingVersionInterval : Z;
  m_versionRequestingTimerId : Z;
  m_versionDownloadingTimerId : Z;
  m_replicationTimerId : Z;
  m_lastHadAliveTime : Z }.
#[export] Instance Replicator_rebuild : Rebuild ReplicatorStateMachine := fun r =>
  mkReplicator (m_myVersion r) (m_lastModifiedTime r) (m_versionsList r) (m_stateFilePath r) (m_versionFilePath r)
    (m_transfererPath r) (m_state r) (m_replicationDaemonsList r) (m_connectionTimeout r) (m_downloadReaperId r)
    (m_uploadReaperId r) (m_downloadTransfererMetadata r) (m_uploadTransfererMetadataList r) (m_name r)
    (m_classAd r) (m_updateCollectorTimerId r) (m_updateInterval r) (m_replicationInterval r)
    (m_hadAliveTolerance r) (m_maxTransfererLifeTime r) (m_newlyJoinedWaitingVersionInterval r)
    (m_versionRequestingTimerId r) (m_versionDownloadingTimerId r) (m_replicationTimerId r) (m_lastHadAliveTime r).
#[export] Instance rep_m_myVersion_setter : Setter m_myVersion := ltac:(solve_setter).
#[export] Instance rep_m_lastModifiedTime_setter : Setter m_lastModifiedTime := ltac:(solve_setter).
#[export] Instance rep_m_versionsList_setter : Setter m_versionsList := ltac:(solve_setter).
#[export] Instance rep_m_stateFilePath_setter : Setter m_stateFilePath := ltac:(solve_setter).
#[export] Instance rep_m_versionFilePath_setter : Setter m_versionFilePath := ltac:(solve_setter).
#[export] Instance rep_m_transfererPath_setter : Setter m_transfererPath := ltac:(solve_setter).
#[export] Instance rep_m_state_setter : Setter m_state := ltac:(solve_setter).
#[export] Instance rep_m_replicationDaemonsList_setter : Setter m_replicationDaemonsList := ltac:(solve_setter).
#[export] Instance rep_m_connectionTimeout_setter : Setter m_connectionTimeout := ltac:(solve_setter).
#[export] Instance rep_m_downloadReaperId_setter : Setter m_downloadReaperId := ltac:(solve_setter).
#[export] Instance rep_m_uploadReaperId_setter : Setter m_uploadReaperId := ltac:(solve_setter).
#[export] Instance rep_m_downloadTransfererMetadata_setter : Setter m_downloadTransfererMetadata := ltac:(solve_setter).
#[export] Instance rep_m_uploadTransfererMetadataList_setter : Setter m_uploadTransfererMetadataList := ltac:(solve_setter).
#[export] Instance rep_m_name_setter : Setter m_name := ltac:(solve_setter).
#[export] Instance rep_m_classAd_setter : Setter m_classAd := ltac:(solve_setter).
#[export] Instance rep_m_updateCollectorTimerId_setter : Setter m_updateCollectorTimerId := ltac:(solve_setter).
#[export] Instance rep_m_updateInterval_setter : Setter m_updateInterval := ltac:(solve_setter).
#[export] Instance rep_m_replicationInterval_setter : Setter m_replicationInterval := ltac:(solve_setter).
#[export] Instance rep_m_hadAliveTolerance_setter : Setter m_hadAliveTolerance := ltac:(solve_setter).
#[export] Instance rep_m_maxTransfererLifeTime_setter : Setter m_maxTransfererLifeTime := ltac:(solve_setter).
#[export] Instance rep_m_newlyJoinedWaitingVersionInterval_setter : Setter m_newlyJoinedWaitingVersionInterval := ltac:(solve_setter).
#[export] Instance rep_m_versionRequestingTimerId_setter : Setter m_versionRequestingTimerId := ltac:(solve_setter).
#[export] Instance rep_m_versionDownloadingTimerId_setter : Setter m_versionDownloadingTimerId := ltac:(solve_setter).
#[export] Instance rep_m_replicationTimerId_setter : Setter m_replicationTimerId := ltac:(solve_setter).
#[export] Instance rep_m_lastHadAliveTime_setter : Setter m_lastHadAliveTime := ltac:(solve_setter).

(** ** The world of a daemon *)

(** The commands of condor_commands.h that the daemon understands, those of the HAD among them. *)
Inductive rep_command :=
| REPLICATION_TRANSFER_FILE | REPLICATION_LEADER_VERSION | REPLICATION_NEWLY_JOINED_VERSION
| REPLICATION_GIVING_UP_VERSION | REPLICATION_SOLICIT_VERSION | REPLICATION_SOLICIT_VERSION_REPLY
| HAD_BEFORE_PASSIVE_STATE | FromHad (c : command).
#[export] Instance rep_command_eq_dec : EqDecision rep_command. Proof. solve_decision. Defined.

Inductive RepTimerHandler := ReplicationTimer | VersionRequestingTimer | VersionDownloadingTimer | RepUpdateTimer.
Record RepTimer := mkRepTimer { rt_delta : Z; rt_period : Z; rt_handler : RepTimerHandler }.

(** What the daemon does, with what came of it. *)
Inductive Done :=
| Sent (cmd : rep_command) (addr : bytes) (body : list Field) (arrived : bool)
| Created (args : list bytes) (pid : Z)
| Killed (pid : Z)
| Clock (t : Z)
| Stat (path : bytes)
| OpenRead (path : bytes)
| OpenWrite (path : bytes)
| Rename (from to : bytes)
| Unlink (path : bytes)
| UPDATE_AD_GENERIC (ad : RepAd)
| INVALIDATE_ADS_GENERIC (name : bytes).

Record File := mkFile { content : bytes; st_mtime : Z }.
(** [done] has the latest first. *)
Record RepWorld := mkRepWorld { done : list Done; files : gmap bytes File; rep_timers : gmap Z RepTimer; next_id : Z }.
#[export] Instance RepWorld_rebuild : Rebuild RepWorld := fun w => mkRepWorld (done w) (files w) (rep_timers w) (next_id w).
#[export] Instance done_setter : Setter done := ltac:(solve_setter).
#[export] Instance files_setter : Setter files := ltac:(solve_setter).
#[export] Instance rep_timers_setter : Setter rep_timers := ltac:(solve_setter).
#[export] Instance next_id_setter : Setter next_id := ltac:(solve_setter).

(** The configuration, as param() and param_integer() return it. *)
Record RepConfig := mkRepConfig {
  c_REPLICATION_LIST : option bytes;
  c_HAD_CONNECTION_TIMEOUT : option Z;
  TRANSFERER : option bytes;
  SPOOL : option bytes;
  STATE_FILE : option bytes;
  NEGOTIATOR_STATE_FILE : option bytes;
  REPLICATION_INTERVAL : option Z;
  MAX_TRANSFER_LIFETIME : option Z;
  NEWLY_JOINED_WAITING_VERSION_INTERVAL : option Z;
  c_HAD_LIST : option bytes;
  REPLICATION_UPDATE_INTERVAL : option Z }.
(** daemonCore->InfoCommandSinfulString(), daemonCore->InfoCommandPort(), my_full_hostname(). *)
Record RepHost := mkRepHost { my_sinful : bytes; my_port : Z; my_hostname : bytes }.
(** The operating system and the network: whether a connection succeeds, the time, the process id
    that Create_Process() returns (0 when it fails), whether a file operation succeeds, how much of a
    text gets into a file, and the next numbers from rand(); each may depend on all that was done. *)
Record System := mkSystem {
  connects : list Done -> bytes -> bool;
  time : list Done -> Z;
  Create_Process : list Done -> Z;
  io_succeeds : list Done -> bool;
  bytes_written : list Done -> nat;
  rand : list Done -> list Z }.

(** A handler returns, ends the daemon through utilCrucialError(), or ends it by following a null
    pointer ([NullVersion]), through EXCEPT ([NoList]), or not at all, when rand() keeps returning the
    current gid ([RandLoop]). *)
Inductive Crash := NullVersion | NoList | RandLoop | AssertList.
Inductive outcome (A : Type) :=
| Returns (a : A) (st : ReplicatorStateMachine) (w : RepWorld)
| Ends (w : RepWorld)
| Crashes (why : Crash) (w : RepWorld).
Arguments Returns {A} a st w.
Arguments Ends {A} w.
Arguments Crashes {A} why w.
Definition R (A : Type) : Type := ReplicatorStateMachine -> RepWorld -> outcome A.
Definition rret {A} (a : A) : R A := fun st w => Returns a st w.
Definition rbind {A B} (m : R A) (f : A -> R B) : R B := fun st w =>
  match m st w with Returns a st w => f a st w | Ends w => Ends w | Crashes y w => Crashes y w end.
Definition self : R ReplicatorStateMachine := fun st w => Returns st st w.
Definition world : R RepWorld := fun st w => Returns w st w.
Definition update (f : ReplicatorStateMachine -> ReplicatorStateMachine) : R unit := fun st w => Returns tt (f st) w.
Definition change_world (f : RepWorld -> RepWorld) : R unit := fun st w => Returns tt st (f w).
Definition act (d : Done) : R unit := change_world (fun w => w <| done ::= cons d |>).
Definition crashes {A} (why : Crash) : R A := fun _ w => Crashes why w.

Declare Scope rep_scope.
Delimit Scope rep_scope with rep.
Notation "x <- m ;; k" := (rbind m (fun x => k)) (at level 100, m at next level, right associativity) : rep_scope.
Notation "m ;;; k" := (rbind m (fun _ => k)) (at level 100, right associativity) : rep_scope.
Open Scope rep_scope.

Definition when_ (b : bool) (m : R unit) : R unit := if b then m else rret tt.
Fixpoint each {A} (f : A -> R unit) (l : list A) : R unit :=
  match l with [] => rret tt | x :: l' => f x;;; each f l' end.

Definition IO_RETRY_TIMES : nat := 3.
Definition VERSION_FILE_NAME : bytes := s2b "Version".
Definition UPLOADING_TEMPORARY_FILES_EXTENSION : bytes := s2b "up".
Definition DOWNLOADING_TEMPORARY_FILES_EXTENSION : bytes := s2b "down".
Definition HAD_ALIVE_TOLERANCE_FACTOR : Z := 2.
Definition NEWLY_JOINED_TOLERANCE_FACTOR : Z := 2.
Definition MINUTE : Z := 60.

Section replicator.
Context (sys : System) (is_ip_string : bytes -> bool) (resolve_hostname : bytes -> list bytes) (host : RepHost).

(** *** System calls *)

Definition now : R Z := w <- world;; let t := time sys (done w) in act (Clock t);;; rret t.
Definition rep_Register_Timer (t : RepTimer) : R Z := fun st w =>
  Returns (next_id w) st (w <| rep_timers ::= <[next_id w := t]> |> <| next_id ::= Z.succ |>).
(** utilCancelTimer(), on the timer of a field: its new value *)
Definition rep_utilCancelTimer (timerId : Z) : R Z := fun st w =>
  if 0 <=? timerId then Returns (-1) st (w <| rep_timers ::= delete timerId |>) else Returns timerId st w.

(** class StatWrapper: its buffer stays zero when stat() fails. *)
Inductive StatResult := StatOk (mtime : Z) | StatENOENT | StatError.
Definition stat (path : bytes) : R StatResult :=
  w <- world;; act (Stat path);;;
  rret (match files w !! path with
        | None => StatENOENT
        | Some f => if io_succeeds sys (done w) then StatOk (st_mtime f) else StatError
        end).
Definition mtime_of (r : StatResult) : Z := match r with StatOk t => t | _ => 0 end.
(** An output stream that writes [text] and is closed: the file is cut to nothing when it is opened. *)
Definition write_file (path text : bytes) : R unit :=
  w <- world;; act (OpenWrite path);;;
  when_ (io_succeeds sys (done w))
    (change_world (fun w' => w' <| files ::= <[path := mkFile (take (bytes_written sys (done w)) text) (time sys (done w))]> |>)).
(** An input stream: the text of the file when it opens. *)
Definition read_file (path : bytes) : R (option bytes) :=
  w <- world;; act (OpenRead path);;;
  rret (if io_succeeds sys (done w) then content <$> files w !! path else None).
(** rename() and unlink(): whether they succeed *)
Definition rename (from to : bytes) : R bool :=
  w <- world;; act (Rename from to);;;
  match files w !! from with
  | Some f =>
      if io_succeeds sys (done w) then change_world (fun w => w <| files ::= fun fs => <[to := f]> (delete from fs) |>);;; rret true
      else rret false
  | None => rret false
  end.
Definition unlink_path (path : bytes) : R bool :=
  w <- world;; act (Unlink path);;;
  match files w !! path with
  | Some f => if io_succeeds sys (done w) then change_world (fun w => w <| files ::= delete path |>);;; rret true else rret false
  | None => rret false
  end.

(** *** FilesOperations.cpp *)

Definition temporaryFilePath (filePath extension : bytes) : bytes := filePath ++ s2b "." ++ extension.
Definition rotateFile (filePath extension : bytes) : R bool := rename (temporaryFilePath filePath extension) filePath.
Definition unlinkFile (filePath extension : bytes) : R bool :=
  r <- stat (temporaryFilePath filePath extension);;
  match r with StatENOENT => rret true | _ => unlink_path (temporaryFilePath filePath extension) end.
(** safeManipulateFile(): up to IO_RETRY_TIMES attempts *)
Fixpoint manipulate (times : nat) (manipulation : R bool) : R bool :=
  match times with
  | O => rret false
  | S times' => ok <- manipulation;; if ok : bool then rret true else manipulate times' manipulation
  end.
Definition safeManipulateFile (filePath extension : bytes) (manipulation : bytes -> bytes -> R bool) : R bool :=
  manipulate IO_RETRY_TIMES (manipulation filePath extension).
Definition safeRotateFile (filePath extension : bytes) : R bool := safeManipulateFile filePath extension rotateFile.
Definition safeUnlinkFile (filePath extension : bytes) : R bool := safeManipulateFile filePath extension unlinkFile.

(** *** The end of a daemon *)

Definition extension (pid : Z) (ext : bytes) : bytes := print_d pid ++ s2b "." ++ ext.
(** What happens to one transferer in killTransferers() and the killStuck functions *)
Definition kill_transferer (pid : Z) (ext : bytes) : R unit :=
  act (Killed pid);;;
  st <- self;;
  _ <- safeUnlinkFile (m_versionFilePath st) (extension pid ext);;
  _ <- safeUnlinkFile (m_stateFilePath st) (extension pid ext);;
  rret tt.
(** The loops over m_uploadTransfererMetadataList kill the processes for which [p] holds and delete
    them from the list. *)
Definition kill_uploads (p : ProcessMetadata -> bool) : R unit :=
  st <- self;;
  each (fun x => when_ (p x) (kill_transferer (m_pid x) UPLOADING_TEMPORARY_FILES_EXTENSION)) (m_uploadTransfererMetadataList st);;;
  update (fun st => st <| m_uploadTransfererMetadataList ::= List.filter (fun x => negb (p x)) |>).
Definition killTransferers : R unit :=
  st <- self;;
  when_ (isValid (m_downloadTransfererMetadata st))
    (kill_transferer (m_pid (m_downloadTransfererMetadata st)) DOWNLOADING_TEMPORARY_FILES_EXTENSION;;;
     update (fun st => st <| m_downloadTransfererMetadata := unset |>));;;
  kill_uploads isValid.

Definition cancel_timer (id : ReplicatorStateMachine -> Z) (set : Z -> ReplicatorStateMachine -> ReplicatorStateMachine) : R unit :=
  st <- self;; i <- rep_utilCancelTimer (id st);; update (set i).
Definition finalizeDelta : R unit :=
  cancel_timer m_replicationTimerId (fun i st => st <| m_replicationTimerId := i |>);;;
  cancel_timer m_versionRequestingTimerId (fun i st => st <| m_versionRequestingTimerId := i |>);;;
  cancel_timer m_versionDownloadingTimerId (fun i st => st <| m_versionDownloadingTimerId := i |>);;;
  cancel_timer m_updateCollectorTimerId (fun i st => st <| m_updateCollectorTimerId := i |>);;;
  update (fun st => st <| m_replicationInterval := -1 |> <| m_hadAliveTolerance := -1 |> <| m_maxTransfererLifeTime := -1 |>
                       <| m_newlyJoinedWaitingVersionInterval := -1 |> <| m_lastHadAliveTime := -1 |> <| m_updateInterval := -1 |>
                       <| m_classAd := None |>);;;
  st <- self;;
  act (INVALIDATE_ADS_GENERIC (m_name st)).
(** utilClearList() of a list of strings *)
Definition utilClearList (l : StringList) : option StringList := remove_loop (S (length (strings l))) (fun _ => true) (rewind l).
Definition abstract_finalize : R unit :=
  update (fun st => st <| m_state := VERSION_REQUESTING |> <| m_connectionTimeout := DEFAULT_SEND_COMMAND_TIMEOUT |>);;;
  st <- self;;
  match utilClearList (m_replicationDaemonsList st) with
  | None => crashes AssertList
  | Some l => update (fun st => st <| m_replicationDaemonsList := l |> <| m_transfererPath := [] |>)
  end;;;
  killTransferers.
Definition finalize : R unit := finalizeDelta;;; abstract_finalize.
(** utilCrucialError(): main_shutdown_graceful() deletes the state machine, whose destructors finalize
    it, and exits. *)
Definition rep_utilCrucialError {A} : R A := fun st w =>
  match finalize st w with Returns _ _ w => Ends w | Ends w => Ends w | Crashes y w => Crashes y w end.
Definition rep_main_shutdown_graceful : R unit := rep_utilCrucialError.
Definition REPLICATION_ASSERT (b : bool) : R unit := if b then rret tt else rep_utilCrucialError.

(** *** Version::load(), save(), synchronize(), initialize() *)

(** load( temporaryGid, temporaryLogicalClock ): its result and the new values of the arguments *)
Definition load_into (v : Version) (temporaryGid temporaryLogicalClock : Z) : R (bool * Z * Z) :=
  text <- read_file (v_versionFilePath v);;
  match text with
  | None => rret (false, temporaryGid, temporaryLogicalClock)
  | Some text =>
      let r := load_text text temporaryLogicalClock in
      when_ r.1.1 (REPLICATION_ASSERT ((0 <=? r.1.2) && (0 <=? r.2)));;;
      rret r
  end.
Definition set_version (f : Version -> Version) : R unit := update (fun st => st <| m_myVersion ::= f |>).
Definition with_numbers (gid clock : Z) (v : Version) : Version :=
  mkVersion (v_stateFilePath v) (v_versionFilePath v) gid clock (m_sinfulString v) (v_state v) (v_isPrimary v).
Definition load : R bool :=
  st <- self;;
  r <- load_into (m_myVersion st) (-1) (-1);;
  if r.1.1 : bool then set_version (with_numbers r.1.2 r.2);;; rret true else rret false.
Definition save : R unit := st <- self;; write_file (v_versionFilePath (m_myVersion st)) (version_text (m_myVersion st)).
Definition setGid (newGid : Z) : R unit := set_version (fun v => with_numbers newGid (m_logicalClock v) v);;; save.

Definition createFile (filePath : bytes) : R unit :=
  r <- stat filePath;;
  match r with StatENOENT => write_file filePath [] | _ => rret tt end.
Definition synchronize (isLogicalClockIncremented : bool) : R bool :=
  st <- self;;
  let v := m_myVersion st in
  REPLICATION_ASSERT (negb (bool_decide (v_stateFilePath v = [])) && negb (bool_decide (v_versionFilePath v = [])));;;
  _ <- load;;
  createFile (v_stateFilePath v);;;
  status <- stat (v_stateFilePath v);;
  _ <- now;;
  st <- self;;
  if mtime_of status <=? m_lastModifiedTime st then rret false
  else
    update (fun st => st <| m_lastModifiedTime := mtime_of status |>);;;
    let clock := m_logicalClock (m_myVersion st) in
    if isLogicalClockIncremented && (clock <? INT_MAX) then
      set_version (fun v => with_numbers (m_gid v) (clock + 1) v);;; save;;; rret true
    else if isLogicalClockIncremented then rep_utilCrucialError
    else rret false.
Definition version_initialize (pStateFilePath pVersionFilePath : bytes) : R unit :=
  REPLICATION_ASSERT (negb (bool_decide (pStateFilePath = [])) && negb (bool_decide (pVersionFilePath = [])));;;
  update (fun st => st <| m_lastModifiedTime := -1 |>);;;
  set_version (fun v => mkVersion pStateFilePath pVersionFilePath (m_gid v) (m_logicalClock v) (m_sinfulString v) (v_state v) (v_isPrimary v));;;
  loaded <- load;;
  when_ (negb loaded) save;;;
  _ <- synchronize false;;
  set_version (fun v => mkVersion (v_stateFilePath v) (v_versionFilePath v) (m_gid v) (m_logicalClock v) (my_sinful host) (v_state v) (v_isPrimary v)).
Definition checkVersionSynchronization : R unit :=
  st <- self;;
  r <- load_into (m_myVersion st) (-1) (-1);;
  REPLICATION_ASSERT ((r.1.2 =? m_gid (m_myVersion st)) && (r.2 =? m_logicalClock (m_myVersion st))).

(** *** Commands to the other daemons *)

(** sendCommand() with versionAndStateCommand() or noCommand() *)
Definition sendCommand (comm : rep_command) (daemonSinfulString : bytes) (function : list Field) : R unit :=
  w <- world;;
  act (Sent comm daemonSinfulString (WStr (my_sinful host) :: function) (connects sys (done w) daemonSinfulString)).
Definition versionAndStateCommand (st : ReplicatorStateMachine) : list Field :=
  code (m_myVersion st) ++ [WInt (state_number (m_state st))].
Definition sendVersionAndStateCommand (comm : rep_command) (daemonSinfulString : bytes) : R unit :=
  st <- self;; sendCommand comm daemonSinfulString (versionAndStateCommand st).
Definition rewind_daemons : R unit := update (fun st => st <| m_replicationDaemonsList ::= rewind |>).
Definition broadcastVersion (comm : rep_command) : R unit :=
  st <- self;;
  each (sendVersionAndStateCommand comm) (strings (m_replicationDaemonsList st));;;
  rewind_daemons.
Definition requestVersions : R unit :=
  st <- self;;
  each (fun a => sendCommand REPLICATION_SOLICIT_VERSION a []) (strings (m_replicationDaemonsList st));;;
  rewind_daemons.

(** *** Transferers *)

Definition transferer_args (direction daemonSinfulString : bytes) (st : ReplicatorStateMachine) : list bytes :=
  [m_transfererPath st; s2b "-f"; direction; daemonSinfulString; m_versionFilePath st; s2b "1"; m_stateFilePath st].
Definition create_transferer (direction daemonSinfulString : bytes) : R Z :=
  st <- self;; w <- world;;
  let transfererPid := Create_Process sys (done w) in
  act (Created (transferer_args direction daemonSinfulString st) transfererPid);;;
  rret transfererPid.
Definition download (daemonSinfulString : bytes) : R bool :=
  transfererPid <- create_transferer DOWNLOADING_TEMPORARY_FILES_EXTENSION daemonSinfulString;;
  if transfererPid =? 0 then rret false
  else
    st <- self;;
    REPLICATION_ASSERT (negb (isValid (m_downloadTransfererMetadata st)));;;
    t <- now;;
    update (fun st => st <| m_downloadTransfererMetadata := mkMetadata transfererPid t |>);;;
    rret true.
Definition upload (daemonSinfulString : bytes) : R bool :=
  transfererPid <- create_transferer UPLOADING_TEMPORARY_FILES_EXTENSION daemonSinfulString;;
  if transfererPid =? 0 then rret false
  else
    t <- now;;
    update (fun st => st <| m_uploadTransfererMetadataList ::= fun l => l ++ [mkMetadata transfererPid t] |>);;;
    rret true.
Definition downloadTransferersNumber (st : ReplicatorStateMachine) : Z := if m_pid (m_downloadTransfererMetadata st) =? -1 then 0 else 1.

(** The status of a process that has ended *)
Inductive ExitStatus := ExitSignaled (signal : Z) | ExitCode (code : Z).
Definition succeeded (s : ExitStatus) : bool := match s with ExitCode 0 => true | _ => false end.
(** AbstractReplicatorStateMachine::downloadReplicaTransfererReaper(), true for TRANSFERER_TRUE *)
Definition abstract_downloadReaper (pid : Z) (exitStatus : ExitStatus) : R bool :=
  update (fun st => st <| m_downloadTransfererMetadata := unset |>);;;
  if negb (succeeded exitStatus) then rret false
  else
    let ext := extension pid DOWNLOADING_TEMPORARY_FILES_EXTENSION in
    st <- self;;
    ok <- safeRotateFile (m_versionFilePath st) ext;;
    if negb ok then rret false
    else
      ok <- safeRotateFile (m_stateFilePath st) ext;;
      if negb ok then rret false
      else _ <- synchronize false;; rret true.
Definition uploadReplicaTransfererReaper (pid : Z) (exitStatus : ExitStatus) : R bool :=
  update (fun st => st <| m_uploadTransfererMetadataList ::= List.filter (fun x => negb (pid =? m_pid x)) |>);;;
  rret (succeeded exitStatus).
Definition killStuckDownloadingTransferer (currentTime : Z) : R unit :=
  st <- self;;
  let x := m_downloadTransfererMetadata st in
  when_ (isValid x && (m_maxTransfererLifeTime st <? currentTime - m_lastTimeCreated x))
    (kill_transferer (m_pid x) DOWNLOADING_TEMPORARY_FILES_EXTENSION;;;
     update (fun st => st <| m_downloadTransfererMetadata := unset |>)).
Definition killStuckUploadingTransferers (currentTime : Z) : R unit :=
  st <- self;;
  kill_uploads (fun x => isValid x && (m_maxTransfererLifeTime st <? currentTime - m_lastTimeCreated x)).

(** *** The versions of the pool *)

Definition updateVersionsList (newVersion : Version) : R unit :=
  update (fun st => st <| m_versionsList ::= fun l =>
    List.filter (fun oldVersion => negb (bool_decide (getHostName oldVersion = getHostName newVersion))) l ++ [newVersion] |>).
Definition better (bestVersion version : Version) : Version :=
  if isComparable version bestVersion && version_gt version bestVersion then version else bestVersion.
(** replicaSelectionHandler(): its result and the new value of its argument *)
Definition replicaSelectionHandler (newVersion : Version) : R (bool * Version) :=
  st <- self;;
  REPLICATION_ASSERT (bool_decide (m_state st = VERSION_DOWNLOADING) || bool_decide (m_state st = BACKUP));;;
  if bool_decide (m_state st = BACKUP) then
    let myVersionCopy := setState (m_myVersion st) (v_state newVersion) in
    rret (negb (isComparable newVersion myVersionCopy) || version_gt newVersion myVersionCopy, newVersion)
  else match m_versionsList st with
       | [] => rret (false, newVersion)
       | first :: more =>
           let bestVersion := fold_left better more first in
           let myVersionCopy := setState (m_myVersion st) (v_state bestVersion) in
           if isComparable myVersionCopy bestVersion && version_ge myVersionCopy bestVersion then rret (false, newVersion)
           else rret (true, bestVersion)
       end.
Definition gidSelectionHandler : R unit :=
  st <- self;;
  REPLICATION_ASSERT (bool_decide (m_state st = BACKUP) || bool_decide (m_state st = REPLICATION_LEADER));;;
  let areVersionsComparable := forallb (isComparable (m_myVersion st)) (m_versionsList st) in
  if areVersionsComparable then rret tt
  else
    w <- world;;
    match List.filter (fun z => negb (z =? m_gid (m_myVersion st))) (rand sys (done w)) with
    | temporaryGid :: _ => setGid temporaryGid
    | [] => crashes RandLoop
    end.
Definition becomeLeader : R unit :=
  t <- now;;
  update (fun st => st <| m_lastHadAliveTime := t |>);;;
  gidSelectionHandler;;;
  update (fun st => st <| m_state := REPLICATION_LEADER |>).

(** *** Notifications of the HAD *)

Definition beforePassiveStateHandler : R unit :=
  st <- self;;
  REPLICATION_ASSERT (bool_decide (m_state st = VERSION_REQUESTING));;;
  broadcastVersion REPLICATION_NEWLY_JOINED_VERSION;;;
  requestVersions;;;
  st <- self;;
  id <- rep_Register_Timer (mkRepTimer (m_newlyJoinedWaitingVersionInterval st) 0 VersionRequestingTimer);;
  update (fun st => st <| m_versionRequestingTimerId := id |>).
Definition afterElectionStateHandler : R unit :=
  st <- self;;
  REPLICATION_ASSERT (negb (bool_decide (m_state st = REPLICATION_LEADER)));;;
  match m_state st with VERSION_REQUESTING | VERSION_DOWNLOADING => rret tt | _ => becomeLeader end.
Definition afterLeaderStateHandler : R unit :=
  st <- self;;
  match m_state st with
  | REPLICATION_LEADER =>
      broadcastVersion REPLICATION_GIVING_UP_VERSION;;;
      update (fun st => st <| m_state := BACKUP |>)
  | _ => rret tt
  end.
Definition inLeaderStateHandler : R unit :=
  st <- self;;
  match m_state st with
  | VERSION_REQUESTING | VERSION_DOWNLOADING => rret tt
  | BACKUP => becomeLeader
  | REPLICATION_LEADER => t <- now;; update (fun st => st <| m_lastHadAliveTime := t |>)
  end.

(** *** Commands of the other daemons *)

(** onLeaderVersion() follows the pointer before it tests it. *)
Definition onLeaderVersion (stream : list Field) : R unit :=
  st <- self;;
  if negb (bool_decide (m_state st = BACKUP)) then rret tt
  else
    checkVersionSynchronization;;;
    match decodeVersionAndState stream with
    | None => crashes NullVersion
    | Some newVersion =>
        r <- replicaSelectionHandler newVersion;;
        st <- self;;
        if (downloadTransferersNumber st =? 0) && r.1 then _ <- download (m_sinfulString r.2);; rret tt else rret tt
    end.
Definition onTransferFile (daemonSinfulString : bytes) : R unit :=
  st <- self;;
  if bool_decide (m_state st = REPLICATION_LEADER) then _ <- upload daemonSinfulString;; rret tt else rret tt.
Definition onSolicitVersion (daemonSinfulString : bytes) : R unit :=
  st <- self;;
  when_ (bool_decide (m_state st = BACKUP) || bool_decide (m_state st = REPLICATION_LEADER))
    (sendVersionAndStateCommand REPLICATION_SOLICIT_VERSION_REPLY daemonSinfulString).
Definition onSolicitVersionReply (stream : list Field) : R unit :=
  st <- self;;
  if bool_decide (m_state st = VERSION_REQUESTING) then
    match decodeVersionAndState stream with Some newVersion => updateVersionsList newVersion | None => rret tt end
  else rret tt.
Definition onGivingUpVersion : R unit :=
  st <- self;; when_ (bool_decide (m_state st = REPLICATION_LEADER)) gidSelectionHandler.
Definition commandHandler (comm : rep_command) (stream : list Field) : R unit :=
  match code_str stream with
  | None => rret tt
  | Some (daemonSinfulString, stream) =>
      match comm with
      | REPLICATION_LEADER_VERSION => onLeaderVersion stream
      | REPLICATION_TRANSFER_FILE => onTransferFile daemonSinfulString
      | REPLICATION_SOLICIT_VERSION => onSolicitVersion daemonSinfulString
      | REPLICATION_SOLICIT_VERSION_REPLY => onSolicitVersionReply stream
      | REPLICATION_NEWLY_JOINED_VERSION => rret tt
      | REPLICATION_GIVING_UP_VERSION => onGivingUpVersion
      | HAD_BEFORE_PASSIVE_STATE => beforePassiveStateHandler
      | FromHad HAD_AFTER_ELECTION_STATE => afterElectionStateHandler
      | FromHad HAD_AFTER_LEADER_STATE => afterLeaderStateHandler
      | FromHad HAD_IN_LEADER_STATE => inLeaderStateHandler
      | FromHad _ => rret tt
      end
  end.

(** *** Timers *)

Definition versionDownloadingTimer : R unit :=
  cancel_timer m_versionDownloadingTimerId (fun i st => st <| m_versionDownloadingTimerId := i |>);;;
  update (fun st => st <| m_versionsList := [] |>);;;
  checkVersionSynchronization;;;
  update (fun st => st <| m_state := BACKUP |>).
Definition versionRequestingTimer : R unit :=
  cancel_timer m_versionRequestingTimerId (fun i st => st <| m_versionRequestingTimerId := i |>);;;
  update (fun st => st <| m_state := VERSION_DOWNLOADING |>);;;
  r <- replicaSelectionHandler new_Version;;
  if r.1 : bool then
    _ <- download (m_sinfulString r.2);;
    st <- self;;
    id <- rep_Register_Timer (mkRepTimer (m_maxTransfererLifeTime st) 0 VersionDownloadingTimer);;
    update (fun st => st <| m_versionDownloadingTimerId := id |>)
  else versionDownloadingTimer.
Definition replicationTimer : R unit :=
  cancel_timer m_replicationTimerId (fun i st => st <| m_replicationTimerId := i |>);;;
  st <- self;;
  id <- rep_Register_Timer (mkRepTimer (m_replicationInterval st) 0 ReplicationTimer);;
  update (fun st => st <| m_replicationTimerId := id |>);;;
  if bool_decide (m_state st = VERSION_REQUESTING) then rret tt
  else
    t <- now;;
    let currentTime := wrap32 t in
    killStuckDownloadingTransferer currentTime;;;
    if bool_decide (m_state st = VERSION_DOWNLOADING) then rret tt
    else
      killStuckUploadingTransferers currentTime;;;
      if bool_decide (m_state st = BACKUP) then checkVersionSynchronization
      else
        updated <- synchronize true;;
        when_ updated (broadcastVersion REPLICATION_LEADER_VERSION);;;
        st <- self;;
        when_ (m_hadAliveTolerance st <? currentTime - m_lastHadAliveTime st)
          (broadcastVersion REPLICATION_GIVING_UP_VERSION;;; update (fun st => st <| m_state := BACKUP |>)).
Definition rep_updateCollectors : R unit :=
  st <- self;; match m_classAd st with Some ad => act (UPDATE_AD_GENERIC ad) | None => rret tt end.
(** ReplicatorStateMachine::downloadReplicaTransfererReaper() *)
Definition downloadReplicaTransfererReaper (pid : Z) (exitStatus : ExitStatus) : R bool :=
  returnValue <- abstract_downloadReaper pid exitStatus;;
  st <- self;;
  when_ (returnValue && bool_decide (m_state st = VERSION_DOWNLOADING)) versionDownloadingTimer;;;
  rret returnValue.

(** *** Configuration *)

Section config.
Context (config : RepConfig).

(** initializeReplicationList(): whether the daemon found itself in what is left of the list *)
Fixpoint replication_addresses (my_addr : Sinful) (l : list bytes) (isMyAddressPresent : bool) : R bool :=
  match l with
  | [] => rret isMyAddressPresent
  | replicationAddress :: l' =>
      match utilToSinful is_ip_string resolve_hostname replicationAddress with
      | None => rep_utilCrucialError
      | Some sinfulAddress =>
          if default false (addressPointsToMe (S (length (m_sinful my_addr))) my_addr (new_Sinful (Some sinfulAddress)))
          then replication_addresses my_addr l' true
          else update (fun st => st <| m_replicationDaemonsList ::= fun d => sl_insert d sinfulAddress |>);;;
               replication_addresses my_addr l' isMyAddressPresent
      end
  end.
Definition initializeReplicationList (buffer : bytes) : R unit :=
  let replicationAddressList := strings (new_StringList (Some buffer) default_delim) in
  present <- replication_addresses (new_Sinful (Some (my_sinful host))) replicationAddressList false;;
  if present : bool then rret tt else rep_utilCrucialError.
Definition abstract_reinitialize : R unit :=
  match c_REPLICATION_LIST config with
  | Some buffer => initializeReplicationList buffer
  | None => rep_utilCrucialError
  end;;;
  update (fun st => st <| m_connectionTimeout := default DEFAULT_SEND_COMMAND_TIMEOUT (c_HAD_CONNECTION_TIMEOUT config) |>);;;
  match TRANSFERER config with
  | Some buffer => update (fun st => st <| m_transfererPath := buffer |>)
  | None => rep_utilCrucialError
  end;;;
  match SPOOL config with
  | None => rep_utilCrucialError
  | Some spoolDirectory =>
      let stateFile := match STATE_FILE config with Some b => Some b | None => NEGOTIATOR_STATE_FILE config end in
      update (fun st => st <| m_versionFilePath := spoolDirectory ++ s2b "/" ++ VERSION_FILE_NAME |>
                           <| m_stateFilePath := default (spoolDirectory ++ s2b "/" ++ s2b "Accountantnew.log") stateFile |>)
  end.
Definition rep_initializeClassAd : R unit :=
  let name := s2b "replication@" ++ my_hostname host ++ s2b " -p " ++ print_d (my_port host) in
  match c_REPLICATION_LIST config with
  | None => crashes NoList
  | Some buffer =>
      update (fun st => st <| m_name := name |>
        <| m_classAd := Some (mkRepAd name (my_sinful host) (join (s2b ",") (strings (new_StringList (Some buffer) default_delim)))) |>)
  end.
(** reinitialize(); the reapers are numbered 1 and 2. *)
Definition rep_reinitialize : R unit :=
  finalize;;;
  abstract_reinitialize;;;
  st <- self;;
  version_initialize (m_stateFilePath st) (m_versionFilePath st);;;
  let hadConnectionTimeout := default DEFAULT_SEND_COMMAND_TIMEOUT (c_HAD_CONNECTION_TIMEOUT config) in
  update (fun st => st
    <| m_replicationInterval := default (5 * MINUTE) (REPLICATION_INTERVAL config) |>
    <| m_maxTransfererLifeTime := default (5 * MINUTE) (MAX_TRANSFER_LIFETIME config) |>
    <| m_newlyJoinedWaitingVersionInterval :=
         default (wrap32 (NEWLY_JOINED_TOLERANCE_FACTOR * (hadConnectionTimeout + 1))) (NEWLY_JOINED_WAITING_VERSION_INTERVAL config) |>);;;
  match c_HAD_LIST config with
  | None => rep_utilCrucialError
  | Some buffer =>
      update (fun st => st <| m_hadAliveTolerance :=
        wrap32 (HAD_ALIVE_TOLERANCE_FACTOR * (2 * hadConnectionTimeout * sl_number (new_StringList (Some buffer) default_delim) + 1)) |>)
  end;;;
  rep_initializeClassAd;;;
  let updateInterval := default 300 (REPLICATION_UPDATE_INTERVAL config) in
  st <- self;;
  when_ (negb (m_updateInterval st =? updateInterval))
    (update (fun st => st <| m_updateInterval := updateInterval |>);;;
     cancel_timer m_updateCollectorTimerId (fun i st => st <| m_updateCollectorTimerId := i |>);;;
     id <- rep_Register_Timer (mkRepTimer 0 updateInterval RepUpdateTimer);;
     update (fun st => st <| m_updateCollectorTimerId := id |>));;;
  st <- self;;
  id <- rep_Register_Timer (mkRepTimer (m_replicationInterval st) 0 ReplicationTimer);;
  update (fun st => st <| m_replicationTimerId := id |>
    <| m_downloadReaperId ::= fun r => if r =? -1 then 1 else r |> <| m_uploadReaperId ::= fun r => if r =? -1 then 2 else r |>);;;
  beforePassiveStateHandler.
End config.

(** The constructors *)
Definition new_ReplicatorStateMachine : ReplicatorStateMachine :=
  mkReplicator new_Version (-1) [] [] [] [] VERSION_REQUESTING (new_StringList None default_delim) DEFAULT_SEND_COMMAND_TIMEOUT
    (-1) (-1) unset [] [] None (-1) (-1) (-1) (-1) (-1) (-1) (-1) (-1) (-1) (-1).
Definition rep_main_init (config : RepConfig) (w : RepWorld) : outcome unit := rep_reinitialize config new_ReplicatorStateMachine w.
Definition rep_main_config (config : RepConfig) : R unit := rep_reinitialize config.

(** *** Runs *)

(** What the daemon is called for: a timer, a command, the end of a process, a new configuration; and
    what others do to its files. *)
Inductive Call :=
| Fires (id : Z)
| Receives (comm : rep_command) (stream : list Field)
| DownloadEnds (pid : Z) (exitStatus : ExitStatus)
| UploadEnds (pid : Z) (exitStatus : ExitStatus)
| Reconfigures (config : RepConfig)
| FilesChange (f : gmap bytes File -> gmap bytes File).
(** The timer manager calls the handler of a timer and then removes the timer, unless it is periodic. *)
Definition fire_timer (t : RepTimerHandler) : R unit :=
  match t with
  | ReplicationTimer => replicationTimer
  | VersionRequestingTimer => versionRequestingTimer
  | VersionDownloadingTimer => versionDownloadingTimer
  | RepUpdateTimer => rep_updateCollectors
  end.
Definition call (c : Call) : R unit :=
  match c with
  | Fires id =>
      w <- world;;
      match rep_timers w !! id with
      | None => rret tt
      | Some t => fire_timer (rt_handler t);;; when_ (rt_period t =? 0) (change_world (fun w => w <| rep_timers ::= delete id |>))
      end
  | Receives comm stream => commandHandler comm stream
  | DownloadEnds pid exitStatus => _ <- downloadReplicaTransfererReaper pid exitStatus;; rret tt
  | UploadEnds pid exitStatus => _ <- uploadReplicaTransfererReaper pid exitStatus;; rret tt
  | Reconfigures config => rep_main_config config
  | FilesChange f => change_world (fun w => w <| files ::= f |>)
  end.
Definition calls (cs : list Call) : R unit := each call cs.

End replicator.
