(* ===== verification/ReplicationInv.v ===== *)
(** The invariant of the replication daemon, over any sequence of calls.

    A computation that only talks to the network and the files is [calm]: it leaves the fields that
    matter and the timers alone.  The rest is the bookkeeping of the timers, each owned by the field
    that holds its id, and one lemma for every handler. *)

From S2P Require Import Prelude Sinful CondorList StringList Had Replication.

Open Scope Z_scope.
Open Scope rep_scope.

(** ** Reasoning about handlers *)

(** The outcome of a handler: when it ends the daemon no timer is left, and [E] says how it may fail. *)
Definition runs {A} (E : Crash -> Prop) (m : R A) (st : ReplicatorStateMachine) (w : RepWorld)
    (Q : A -> ReplicatorStateMachine -> RepWorld -> Prop) : Prop :=
  match m st w with
  | Returns a st w => Q a st w
  | Ends w => rep_timers w = ∅
  | Crashes y _ => E y
  end.
Definition never (_ : Crash) : Prop := False.

Lemma rep_runs_bind {A B} E (m : R A) (f : A -> R B) st w Q :
  runs E (rbind m f) st w Q <-> runs E m st w (fun a st w => runs E (f a) st w Q).
Proof. unfold runs, rbind. by destruct (m st w). Qed.
Lemma runs_elim {A} E (m : R A) st w Q :
  runs E m st w Q -> match m st w with Returns a st w => Q a st w | Ends w => rep_timers w = ∅ | Crashes y _ => E y end.
Proof. done. Qed.
Lemma runs_mono {A} (E E' : Crash -> Prop) (m : R A) st w (Q Q' : A -> ReplicatorStateMachine -> RepWorld -> Prop) :
  runs E m st w Q -> (forall y, E y -> E' y) -> (forall a st w, Q a st w -> Q' a st w) -> runs E' m st w Q'.
Proof. unfold runs. destruct (m st w); auto. Qed.

(** The field that holds the id of a timer. *)
Definition owner (st : ReplicatorStateMachine) (h : RepTimerHandler) : Z :=
  match h with
  | ReplicationTimer => m_replicationTimerId st
  | VersionRequestingTimer => m_versionRequestingTimerId st
  | VersionDownloadingTimer => m_versionDownloadingTimerId st
  | RepUpdateTimer => m_updateCollectorTimerId st
  end.
#[export] Instance RepTimerHandler_eq_dec : EqDecision RepTimerHandler. Proof. solve_decision. Defined.
(** Every timer is the one its field knows, and a field does not hold the id of another's timer. *)
Definition timers_owned (own : RepTimerHandler -> Z) (ts : gmap Z RepTimer) (next : Z) : Prop :=
  0 <= next /\
  (forall id t, ts !! id = Some t -> id = own (rt_handler t) /\ 0 <= id) /\
  (forall h, own h < next /\ forall t, ts !! own h = Some t -> rt_handler t = h).
Definition armed (st : ReplicatorStateMachine) (w : RepWorld) (h : RepTimerHandler) : option RepTimer := rep_timers w !! owner st h.
Arguments armed : simpl never.
Definition version_ok (v : Version) : Prop := 0 <= m_gid v <= INT_MAX /\ 0 <= m_logicalClock v <= INT_MAX.
Definition good (st : ReplicatorStateMachine) (w : RepWorld) : Prop :=
  timers_owned (owner st) (rep_timers w) (next_id w) /\ version_ok (m_myVersion st).

(** What most operations leave alone: all but the own version, the lists of daemons and uploads and the
    time of the last notification; and the timers. *)
Definition mask (st : ReplicatorStateMachine) (w : RepWorld) :=
  ((m_state st, m_versionsList st, m_stateFilePath st, m_versionFilePath st, m_transfererPath st),
   (m_downloadTransfererMetadata st, m_updateInterval st, m_replicationInterval st, m_hadAliveTolerance st,
    m_maxTransfererLifeTime st, m_newlyJoinedWaitingVersionInterval st),
   (m_versionRequestingTimerId st, m_versionDownloadingTimerId st, m_replicationTimerId st, m_updateCollectorTimerId st),
   (rep_timers w, next_id w)).
Definition quiet (st : ReplicatorStateMachine) (w : RepWorld) (st' : ReplicatorStateMachine) (w' : RepWorld) : Prop :=
  mask st' w' = mask st w /\ (version_ok (m_myVersion st) -> version_ok (m_myVersion st')).
Definition calm {A} (E : Crash -> Prop) (m : R A) : Prop :=
  forall st w, good st w -> runs E m st w (fun _ st' w' => quiet st w st' w').

Lemma quiet_refl st w : quiet st w st w.
Proof. done. Qed.
Lemma quiet_trans st w st1 w1 st2 w2 : quiet st w st1 w1 -> quiet st1 w1 st2 w2 -> quiet st w st2 w2.
Proof. intros [E1 H1] [E2 H2]. split; [by rewrite E2|auto]. Qed.
Lemma quiet_good st w st' w' : quiet st w st' w' -> good st w -> good st' w'.
Proof.
  intros [Hm Hv] [(Ho1 & Ho2 & Ho3) Hk]. split; [|auto].
  assert (E : forall h, owner st' h = owner st h) by (unfold mask in Hm; intros []; cbn; congruence).
  assert (Et : rep_timers w' = rep_timers w) by (unfold mask in Hm; congruence).
  assert (En : next_id w' = next_id w) by (unfold mask in Hm; congruence).
  rewrite Et, En. split_and!; [done| |].
  - intros id t Ht. rewrite E. by apply Ho2.
  - intros h. rewrite E. apply Ho3.
Qed.

Create HintDb calm.
Lemma calm_ret {A} E (a : A) : calm E (rret a).
Proof. by intros st w _. Qed.
Lemma calm_bind {A B} E (m : R A) (f : A -> R B) : calm E m -> (forall a, calm E (f a)) -> calm E (rbind m f).
Proof.
  intros Hm Hf st w Hg. rewrite rep_runs_bind. eapply runs_mono; [by apply Hm|done|]. intros a st1 w1 Hq. cbn.
  eapply runs_mono; [by apply Hf, (quiet_good st w)|done|]. intros b st2 w2. by apply quiet_trans.
Qed.
Lemma calm_self E : calm E self.
Proof. by intros st w _. Qed.
Lemma calm_world E : calm E world.
Proof. by intros st w _. Qed.
Lemma calm_act E d : calm E (act d).
Proof. by intros st w _. Qed.
Lemma calm_files E f : calm E (change_world (fun w => w <| files ::= f |>)).
Proof. by intros st w _. Qed.
Lemma calm_when E b m : calm E m -> calm E (when_ b m).
Proof. destruct b; [done|]. intros _. apply calm_ret. Qed.
Lemma calm_each {A} E (f : A -> R unit) l : (forall x, calm E (f x)) -> calm E (each f l).
Proof. intros Hf. induction l as [|x l IH]; [apply calm_ret|]. apply calm_bind; [apply Hf|intros _; apply IH]. Qed.
Lemma calm_manipulate E n m : calm E m -> calm E (manipulate n m).
Proof. intros Hm. induction n as [|n IH]; [apply calm_ret|]. apply calm_bind; [done|]. intros []; [apply calm_ret|done]. Qed.
#[export] Hint Resolve calm_ret calm_self calm_world calm_act calm_files : calm.
(** A computation built from calm ones is calm. *)
Ltac calm :=
  repeat first
    [ solve [auto with calm nocore]
    | apply calm_bind | apply calm_when | apply calm_each | apply calm_manipulate
    | progress intros
    | match goal with |- calm _ (match ?x with _ => _ end) => destruct x end
    | match goal with |- calm _ (let _ := ?x in _) => cbv zeta end ].

Lemma owned_cancel own own' ts next h x :
  timers_owned own ts next -> x < 0 -> (forall h', own' h' = if decide (h' = h) then x else own h') ->
  let ts' := if 0 <=? own h then delete (own h) ts else ts in
  timers_owned own' ts' next /\ forall h', ts' !! own' h' = if decide (h' = h) then None else ts !! own h'.
Proof.
  intros (H0 & H1 & H2) Hx He ts'.
  assert (Hl : forall id t, ts' !! id = Some t -> ts !! id = Some t /\ rt_handler t <> h).
  { intros id t Ht. subst ts'. destruct (Z.leb_spec 0 (own h)).
    - apply lookup_delete_Some in Ht as [Hn Ht]. split; [done|]. intros Hh. apply H1 in Ht as [Ht _]. congruence.
    - split; [done|]. intros Hh. apply H1 in Ht as [Ht ?]. rewrite Hh in Ht. lia. }
  assert (Hk : forall h', h' <> h -> ts' !! own h' = ts !! own h').
  { intros h' Hh. subst ts'. destruct (0 <=? own h); [|done]. destruct (decide (own h = own h')) as [Eo|]; [|by rewrite lookup_delete_ne].
    rewrite Eo, lookup_delete_eq. destruct (ts !! own h') as [t|] eqn:Et; [|done]. exfalso. apply Hh.
    rewrite <- (proj2 (H2 h') t Et). apply (proj2 (H2 h)). by rewrite Eo. }
  assert (Hn : ts' !! x = None).
  { destruct (ts' !! x) as [t|] eqn:Et; [|done]. apply Hl in Et as [Et _]. apply H1 in Et as [_ ?]. lia. }
  split; [split_and!; [done| |]|].
  - intros id t Ht. apply Hl in Ht as [Ht Hh]. rewrite He, decide_False by done. by apply H1.
  - intros h'. rewrite He. destruct (decide (h' = h)) as [->|Hh]; [split; [lia|]; by rewrite Hn|].
    split; [apply H2|]. intros t Ht. rewrite (Hk _ Hh) in Ht. by apply (H2 h').
  - intros h'. rewrite He. destruct (decide (h' = h)) as [->|Hh]; [done|by apply Hk].
Qed.

Lemma owned_register own own' ts next h t :
  timers_owned own ts next -> rt_handler t = h -> ts !! own h = None ->
  (forall h', own' h' = if decide (h' = h) then next else own h') ->
  timers_owned own' (<[next := t]> ts) (Z.succ next) /\
  forall h', <[next := t]> ts !! own' h' = if decide (h' = h) then Some t else ts !! own h'.
Proof.
  intros (H0 & H1 & H2) Ht Hn He. split; [split_and!; [lia| |]|].
  - intros id t0 Hl. apply lookup_insert_Some in Hl as [[<- <-]|[Hne Hl]]; [rewrite He, decide_True by done; lia|].
    apply H1 in Hl as Hl'. rewrite He, decide_False; [done|]. intros Hh. destruct Hl' as [Hi _]. rewrite Hh in Hi. subst id. congruence.
  - intros h'. rewrite He. destruct (decide (h' = h)) as [->|Hh].
    + split; [lia|]. intros t0. rewrite lookup_insert_eq. intros [= <-]. done.
    + destruct (H2 h') as [Hlt Hs]. split; [lia|]. intros t0. rewrite lookup_insert_ne by lia. apply Hs.
  - intros h'. rewrite He. destruct (decide (h' = h)) as [->|Hh]; [by rewrite lookup_insert_eq|].
    destruct (H2 h') as [Hlt _]. by rewrite lookup_insert_ne by lia.
Qed.

Definition set_owner (h : RepTimerHandler) (i : Z) (st : ReplicatorStateMachine) : ReplicatorStateMachine :=
  match h with
  | ReplicationTimer => st <| m_replicationTimerId := i |>
  | VersionRequestingTimer => st <| m_versionRequestingTimerId := i |>
  | VersionDownloadingTimer => st <| m_versionDownloadingTimerId := i |>
  | RepUpdateTimer => st <| m_updateCollectorTimerId := i |>
  end.
Lemma owner_set h i st h' : owner (set_owner h i st) h' = if decide (h' = h) then i else owner st h'.
Proof. by destruct h, h'. Qed.

(** The timers that are armed, by their handlers. *)
Definition arms (st : ReplicatorStateMachine) (w : RepWorld) (a : RepTimerHandler -> option RepTimer) : Prop :=
  forall h, armed st w h = a h.
Definition but (h : RepTimerHandler) (t : option RepTimer) (a : RepTimerHandler -> option RepTimer) (h' : RepTimerHandler) : option RepTimer :=
  if decide (h' = h) then t else a h'.

Lemma cancel_runs E h st w :
  good st w ->
  runs E (cancel_timer (fun st => owner st h) (set_owner h)) st w (fun _ st' w' =>
    exists i, st' = set_owner h i st /\ i < 0 /\ good st' w' /\ next_id w' = next_id w /\ done w' = done w /\ files w' = files w /\
      arms st' w' (but h None (armed st w)) /\ rep_timers w' = delete (owner st h) (rep_timers w)).
Proof.
  intros [Ho Hv]. unfold runs, cancel_timer, rbind, self, rep_utilCancelTimer, update.
  set (i := if 0 <=? owner st h then -1 else owner st h).
  assert (Hi : i < 0) by (subst i; destruct (Z.leb_spec 0 (owner st h)); lia).
  destruct (owned_cancel (owner st) (owner (set_owner h i st)) (rep_timers w) (next_id w) h i Ho Hi (owner_set h i st)) as [Ho' Ha].
  assert (Hv' : version_ok (m_myVersion (set_owner h i st))) by (by destruct h).
  assert (Hd : owner st h < 0 -> delete (owner st h) (rep_timers w) = rep_timers w).
  { intros Hlt. apply delete_id. destruct (rep_timers w !! owner st h) as [t|] eqn:Et; [|done]. apply (proj1 (proj2 Ho)) in Et as [_ ?]. lia. }
  subst i. destruct (Z.leb_spec 0 (owner st h)); (eexists; split_and!; [reflexivity|done|done|done|done|done|exact Ha|]); [done|]. symmetry. by apply Hd.
Qed.
Lemma register_runs E t st w :
  good st w -> armed st w (rt_handler t) = None ->
  runs E (rbind (rep_Register_Timer t) (fun id => update (set_owner (rt_handler t) id))) st w (fun _ st' w' =>
    exists i, st' = set_owner (rt_handler t) i st /\ good st' w' /\ next_id w' = Z.succ (next_id w) /\ done w' = done w /\ files w' = files w /\
      arms st' w' (but (rt_handler t) (Some t) (armed st w)) /\ rep_timers w' = <[next_id w := t]> (rep_timers w)).
Proof.
  intros [Ho Hv] Hn. unfold runs, rbind, rep_Register_Timer, update.
  destruct (owned_register (owner st) (owner (set_owner (rt_handler t) (next_id w) st)) (rep_timers w) (next_id w) (rt_handler t) t Ho eq_refl Hn
    (owner_set _ _ st)) as [Ho' Ha].
  exists (next_id w). split_and!; [done| |done|done|done|exact Ha|done]. split; [done|]. by destruct (rt_handler t).
Qed.

Section proofs.
Context (sys : System) (is_ip_string : bytes -> bool) (resolve_hostname : bytes -> list bytes) (host : RepHost).

Lemma calm_update E f : (forall st w, quiet st w (f st) w) -> calm E (update f).
Proof. intros Hf st w _. apply Hf. Qed.
Lemma calm_now E : calm E (now sys).
Proof. calm. Qed.
Lemma calm_stat E path : calm E (stat sys path).
Proof. calm. Qed.
Lemma calm_write E path text : calm E (write_file sys path text).
Proof. unfold write_file. calm. Qed.
Lemma calm_read E path : calm E (read_file sys path).
Proof. calm. Qed.
Lemma calm_rotate E path ext : calm E (safeRotateFile sys path ext).
Proof. apply calm_manipulate. unfold rotateFile, rename. calm. Qed.
Lemma calm_unlink E path ext : calm E (safeUnlinkFile sys path ext).
Proof. apply calm_manipulate. unfold unlinkFile, unlink_path. apply calm_bind; [apply calm_stat|]. calm. Qed.
#[local] Hint Resolve calm_now calm_stat calm_write calm_read calm_rotate calm_unlink : calm.
Lemma calm_kill E pid ext : calm E (kill_transferer sys pid ext).
Proof. unfold kill_transferer. calm. Qed.
Lemma calm_kill_uploads E p : calm E (kill_uploads sys p).
Proof. unfold kill_uploads. pose proof calm_kill. calm. by apply calm_update. Qed.
#[local] Hint Resolve calm_kill calm_kill_uploads : calm.

Definition killed (d : ProcessMetadata) : ProcessMetadata := if isValid d then unset else d.
Lemma killTransferers_runs E st w :
  good st w ->
  runs E (killTransferers sys) st w (fun _ st' w' =>
    quiet (st <| m_downloadTransfererMetadata := killed (m_downloadTransfererMetadata st) |>) w st' w').
Proof.
  intros Hg. unfold killTransferers, killed. rewrite rep_runs_bind. unfold runs at 1, self. cbn. rewrite rep_runs_bind.
  destruct (isValid (m_downloadTransfererMetadata st)) eqn:Ev.
  - cbn [when_]. rewrite rep_runs_bind. eapply runs_mono; [apply calm_kill, Hg|done|]. intros [] st1 w1 Hq. unfold runs at 1, update.
    set (st2 := st1 <| m_downloadTransfererMetadata := unset |>).
    assert (Hq2 : quiet (st <| m_downloadTransfererMetadata := unset |>) w st2 w1).
    { destruct Hq as [Hm Hv]. split; [|done]. unfold mask in *. subst st2. cbn. congruence. }
    eapply runs_mono; [apply calm_kill_uploads|done|].
    + eapply quiet_good; [exact Hq2|]. done.
    + intros [] st3 w3 Hq3. eapply quiet_trans; [exact Hq2|exact Hq3].
  - cbn [when_]. unfold runs at 1, rret. eapply runs_mono; [apply calm_kill_uploads, Hg|done|]. intros [] st1 w1 Hq. cbn in Hq.
    by destruct st.
Qed.

Lemma owned_empty own ts next : timers_owned own ts next -> (forall h, ts !! own h = None) -> ts = ∅.
Proof.
  intros (_ & H1 & _) Hn. apply map_eq. intros id. rewrite lookup_empty. destruct (ts !! id) as [t|] eqn:Et; [|done].
  pose proof Et as Et'. apply H1 in Et as [-> _]. by rewrite Hn in Et'.
Qed.

Lemma utilClearList_clears l : exists l', utilClearList l = Some l' /\ strings l' = [].
Proof. destruct (clearAll_spec l) as (l' & E & Hs & _). by exists l'. Qed.

(** Reasoning through a sequence: the specification of the first computation, then the rest. *)
Lemma runs_then {A B} (E E0 : Crash -> Prop) (m : R A) (f : A -> R B) st w Q0 Q :
  runs E0 m st w Q0 -> (forall y, E0 y -> E y) -> (forall a st w, Q0 a st w -> runs E (f a) st w Q) -> runs E (rbind m f) st w Q.
Proof. intros Hm HE Hf. rewrite rep_runs_bind. eapply runs_mono; [exact Hm|done|exact Hf]. Qed.
Lemma runs_calm {A B} E (m : R A) (f : A -> R B) st w Q :
  calm never m -> good st w -> (forall a st' w', quiet st w st' w' -> good st' w' -> runs E (f a) st' w' Q) -> runs E (rbind m f) st w Q.
Proof.
  intros Hm Hg Hf. eapply runs_then; [apply Hm, Hg|done|]. intros a st' w' Hq. apply Hf; [done|]. by apply (quiet_good st w).
Qed.

Lemma finalizeDelta_runs E st w :
  good st w ->
  runs E finalizeDelta st w (fun _ st' w' =>
    good st' w' /\ rep_timers w' = ∅ /\ next_id w' = next_id w /\ m_state st' = m_state st /\ m_versionsList st' = m_versionsList st /\
    m_downloadTransfererMetadata st' = m_downloadTransfererMetadata st /\ m_updateInterval st' = -1).
Proof.
  intros Hg. unfold finalizeDelta.
  refine (runs_then _ never _ _ _ _ _ _ (cancel_runs never ReplicationTimer st w Hg) _ _); [done|].
  intros [] st1 w1 (i1 & E1 & _ & G1 & N1 & _ & _ & A1 & _).
  refine (runs_then _ never _ _ _ _ _ _ (cancel_runs never VersionRequestingTimer st1 w1 G1) _ _); [done|].
  intros [] st2 w2 (i2 & E2 & _ & G2 & N2 & _ & _ & A2 & _).
  refine (runs_then _ never _ _ _ _ _ _ (cancel_runs never VersionDownloadingTimer st2 w2 G2) _ _); [done|].
  intros [] st3 w3 (i3 & E3 & _ & G3 & N3 & _ & _ & A3 & _).
  refine (runs_then _ never _ _ _ _ _ _ (cancel_runs never RepUpdateTimer st3 w3 G3) _ _); [done|].
  intros [] st4 w4 (i4 & E4 & _ & G4 & N4 & _ & _ & A4 & _).
  assert (He : rep_timers w4 = ∅).
  { apply (owned_empty (owner st4) _ (next_id w4)); [apply G4|]. intros h. change (armed st4 w4 h = None). rewrite (A4 h). unfold but.
    destruct h; cbn; [..|done]; rewrite (A3 _); unfold but; cbn; [| |done]; rewrite (A2 _); unfold but; cbn; [|done]; by rewrite (A1 _). }
  unfold runs, rbind, update, self, act, change_world. cbn. split_and!; [exact G4|exact He|congruence|by subst..].
Qed.
Lemma finalize_runs E st w :
  good st w ->
  runs E (finalize sys) st w (fun _ st' w' =>
    good st' w' /\ rep_timers w' = ∅ /\ m_state st' = VERSION_REQUESTING /\ m_versionsList st' = m_versionsList st /\
    m_downloadTransfererMetadata st' = killed (m_downloadTransfererMetadata st) /\ m_updateInterval st' = -1).
Proof.
  intros Hg. unfold finalize. refine (runs_then _ never _ _ _ _ _ _ (finalizeDelta_runs never st w Hg) _ _); [done|].
  intros [] st1 w1 (G1 & T1 & _ & _ & V1 & D1 & U1). unfold abstract_finalize.
  set (st2 := st1 <| m_state := VERSION_REQUESTING |> <| m_connectionTimeout := DEFAULT_SEND_COMMAND_TIMEOUT |>).
  unfold rbind at 1 2, runs at 1, update at 1, self at 1. fold st2.
  destruct (utilClearList_clears (m_replicationDaemonsList st2)) as (l & El & _).
  set (st3 := st2 <| m_replicationDaemonsList := l |> <| m_transfererPath := [] |>).
  assert (G3 : good st3 w1) by exact G1.
  pose proof (killTransferers_runs E st3 w1 G3) as Hk.
  unfold rbind. rewrite El. unfold update. fold st3. unfold runs in Hk. destruct (killTransferers sys st3 w1) as [a st' w'|w'|y w']; [|done|done].
  pose proof Hk as [Hm _]. unfold mask in Hm. subst st3 st2. cbn in Hm. split_and!; [|congruence..].
  eapply quiet_good; [exact Hk|exact G3].
Qed.
Lemma utilCrucialError_runs {A} st w Q : good st w -> @runs A never (rep_utilCrucialError sys) st w Q.
Proof.
  intros Hg. pose proof (finalize_runs never st w Hg) as H. unfold runs, rep_utilCrucialError in *.
  destruct (finalize sys st w) as [a st' w'|w'|y w']; [|done|done]. apply H.
Qed.
Lemma calm_error {A} : @calm A never (rep_utilCrucialError sys).
Proof. intros st w Hg. by apply utilCrucialError_runs. Qed.
Lemma assert_runs b st w : good st w -> runs never (REPLICATION_ASSERT sys b) st w (fun _ st' w' => b = true /\ st' = st /\ w' = w).
Proof. intros Hg. destruct b; [done|]. by apply utilCrucialError_runs. Qed.
Lemma calm_assert b : calm never (REPLICATION_ASSERT sys b).
Proof. destruct b; [apply calm_ret|apply calm_error]. Qed.
#[local] Hint Resolve calm_error calm_assert : calm.

Lemma runs_self {A} E (f : ReplicatorStateMachine -> R A) st w Q : runs E (f st) st w Q -> runs E (rbind self f) st w Q.
Proof. done. Qed.
Lemma runs_update {A} E f (k : unit -> R A) st w Q : runs E (k tt) (f st) w Q -> runs E (rbind (update f) k) st w Q.
Proof. done. Qed.
Lemma atoi_le s : atoi s <= INT_MAX.
Proof.
  unfold atoi. destruct (scan_int s) as [z|]; [|done]. unfold wrap32, INT_MAX.
  pose proof (Z.mod_pos_bound (clamp_long z + 2 ^ 31) (2 ^ 32)). lia.
Qed.

Lemma load_into_runs v g c st w :
  good st w ->
  runs never (load_into sys v g c) st w (fun r st' w' => quiet st w st' w' /\ (r.1.1 = true -> 0 <= r.1.2 <= INT_MAX /\ 0 <= r.2 <= INT_MAX)).
Proof.
  intros Hg. unfold load_into. eapply runs_calm; [auto with calm|done|]. intros [text|] st1 w1 Hq G1; [|done].
  destruct (load_text text c) as [[b g'] c'] eqn:El. cbv zeta. cbn [fst snd]. destruct b; cbn [when_].
  - eapply runs_then; [by apply assert_runs|done|]. intros [] st2 w2 (Ha & -> & ->). split; [done|]. intros _. cbn.
    apply andb_prop in Ha as [Ha1 Ha2]. rewrite Z.leb_le in Ha1, Ha2.
    unfold load_text in El. destruct (getline BUFSIZ _) as [b1 f1]. destruct (eofbit f1); [done|]. destruct (getline BUFSIZ f1) as [b2 f2].
    injection El as <- <-. pose proof (atoi_le b1). pose proof (atoi_le b2). lia.
  - split; [exact Hq|done].
Qed.
Lemma calm_load_into v g c : calm never (load_into sys v g c).
Proof. intros st w Hg. eapply runs_mono; [by apply load_into_runs|done|]. by intros r st' w' [? _]. Qed.
Lemma calm_load : calm never (load sys).
Proof.
  intros st w Hg. unfold load. apply runs_self. eapply runs_then; [by apply load_into_runs|done|].
  intros r st1 w1 [Hq Hr]. destruct r.1.1; [|done]. apply runs_update. split; [apply Hq|]. intros _. by apply Hr.
Qed.
Lemma calm_save : calm never (save sys).
Proof. unfold save. calm. Qed.
#[local] Hint Resolve calm_load_into calm_load calm_save : calm.
Lemma calm_createFile path : calm never (createFile sys path).
Proof. unfold createFile. calm. Qed.
#[local] Hint Resolve calm_createFile : calm.
Lemma calm_check : calm never (checkVersionSynchronization sys).
Proof. unfold checkVersionSynchronization. calm. Qed.

Lemma calm_synchronize b : calm never (synchronize sys b).
Proof.
  intros st w Hg. unfold synchronize. apply runs_self. cbv zeta.
  eapply runs_calm; [auto with calm|done|]. intros [] st1 w1 Q1 G1.
  eapply runs_calm; [auto with calm|done|]. intros _ st2 w2 Q2 G2.
  eapply runs_calm; [auto with calm|done|]. intros [] st3 w3 Q3 G3.
  eapply runs_calm; [auto with calm|done|]. intros status st4 w4 Q4 G4.
  eapply runs_calm; [auto with calm|done|]. intros t st5 w5 Q5 G5. apply runs_self.
  assert (Hq : quiet st w st5 w5) by eauto 6 using quiet_trans.
  destruct (_ <=? _); [exact Hq|]. apply runs_update. destruct b; cbn [andb]; [|exact Hq].
  destruct (Z.ltb_spec (m_logicalClock (m_myVersion st5)) INT_MAX) as [Hlt|_].
  - apply runs_update. eapply runs_calm; [auto with calm| |].
    + split; [apply G5|]. destruct G5 as [_ [? ?]]. split; cbn; lia.
    + intros [] st6 w6 Q6 _. eapply quiet_trans; [|exact Q6]. split; [apply Hq|]. destruct G5 as [_ [? ?]]. intros _. split; cbn; lia.
  - apply utilCrucialError_runs. exact G5.
Qed.
#[local] Hint Resolve calm_check calm_synchronize : calm.
Lemma calm_send c a f : calm never (sendCommand sys host c a f).
Proof. unfold sendCommand. calm. Qed.
#[local] Hint Resolve calm_send : calm.
Lemma calm_send_version c a : calm never (sendVersionAndStateCommand sys host c a).
Proof. unfold sendVersionAndStateCommand. calm. Qed.
#[local] Hint Resolve calm_send_version : calm.
Lemma calm_rewind_daemons : calm never rewind_daemons.
Proof. by apply calm_update. Qed.
#[local] Hint Resolve calm_rewind_daemons : calm.
Lemma calm_broadcast c : calm never (broadcastVersion sys host c).
Proof. unfold broadcastVersion. calm. Qed.
Lemma calm_request : calm never (requestVersions sys host).
Proof. unfold requestVersions. calm. Qed.
#[local] Hint Resolve calm_broadcast calm_request : calm.
Lemma calm_selection v : calm never (replicaSelectionHandler sys v).
Proof. unfold replicaSelectionHandler. calm. Qed.
Lemma calm_upload a : calm never (upload sys a).
Proof. unfold upload, create_transferer. calm. Qed.
#[local] Hint Resolve calm_selection calm_upload : calm.

(** ** The invariant *)

Definition meta_ok (d : ProcessMetadata) : Prop := d = unset \/ isValid d = true.
(** The timers that a daemon in a state needs. *)
Definition needs (st : ReplicatorStateMachine) (h : RepTimerHandler) : option RepTimer :=
  match h with
  | ReplicationTimer => Some (mkRepTimer (m_replicationInterval st) 0 ReplicationTimer)
  | VersionRequestingTimer =>
      if bool_decide (m_state st = VERSION_REQUESTING)
      then Some (mkRepTimer (m_newlyJoinedWaitingVersionInterval st) 0 VersionRequestingTimer) else None
  | VersionDownloadingTimer =>
      if bool_decide (m_state st = VERSION_DOWNLOADING)
      then Some (mkRepTimer (m_maxTransfererLifeTime st) 0 VersionDownloadingTimer) else None
  | RepUpdateTimer => None
  end.
Definition joining (s : ReplicatorState) : bool := match s with VERSION_REQUESTING | VERSION_DOWNLOADING => true | _ => false end.
Definition lists_ok (st : ReplicatorStateMachine) : Prop :=
  NoDup (getHostName <$> m_versionsList st) /\ (joining (m_state st) = false -> m_versionsList st = []).
(** The daemon has exactly the timers that its state needs, besides one for the collectors; it knows
    versions of other daemons only while it joins the pool, one for each host; it has a transferer that
    downloads or it has none; and its version has a gid and a logical clock that are no negative ints. *)
Definition rep_inv (st : ReplicatorStateMachine) (w : RepWorld) : Prop :=
  good st w /\ meta_ok (m_downloadTransfererMetadata st) /\ lists_ok st /\
  forall h, h <> RepUpdateTimer -> armed st w h = needs st h.
Lemma quiet_armed st w st' w' h : quiet st w st' w' -> armed st' w' h = armed st w h.
Proof. intros [Hm _]. unfold mask in Hm. unfold armed. destruct h; cbn; congruence. Qed.
Lemma quiet_needs st w st' w' h : quiet st w st' w' -> needs st' h = needs st h.
Proof.
  intros [Hm _]. unfold mask in Hm. assert (m_state st' = m_state st) by congruence. destruct h; cbn; [| | |done];
    repeat case_bool_decide; try congruence; f_equal; f_equal; congruence.
Qed.
Lemma quiet_state st w st' w' : quiet st w st' w' -> m_state st' = m_state st.
Proof. intros [Hm _]. unfold mask in Hm. congruence. Qed.
Lemma quiet_meta st w st' w' : quiet st w st' w' -> m_downloadTransfererMetadata st' = m_downloadTransfererMetadata st.
Proof. intros [Hm _]. unfold mask in Hm. congruence. Qed.
Lemma quiet_versions st w st' w' : quiet st w st' w' -> m_versionsList st' = m_versionsList st.
Proof. intros [Hm _]. unfold mask in Hm. congruence. Qed.
Lemma quiet_lists st w st' w' : quiet st w st' w' -> lists_ok st -> lists_ok st'.
Proof. intros Hq. unfold lists_ok. by rewrite (quiet_state _ _ _ _ Hq), (quiet_versions _ _ _ _ Hq). Qed.
Lemma quiet_inv st w st' w' : quiet st w st' w' -> rep_inv st w -> rep_inv st' w'.
Proof.
  intros Hq (Hg & Hm & Hl & Ha). split_and!.
  - by apply (quiet_good st w).
  - by rewrite (quiet_meta _ _ _ _ Hq).
  - by apply (quiet_lists st w st' w').
  - intros h Hh. by rewrite (quiet_armed _ _ _ _ _ Hq), (quiet_needs _ _ _ _ _ Hq), Ha.
Qed.
(** A handler that keeps the invariant; [E] says how it may fail. *)
Definition keeps {A} (E : Crash -> Prop) (m : R A) : Prop := forall st w, rep_inv st w -> runs E m st w (fun _ st' w' => rep_inv st' w').
Lemma calm_keeps {A} E (m : R A) : calm never m -> keeps E m.
Proof. intros Hm st w Hi. eapply runs_mono; [apply Hm, Hi|done|]. intros a st' w' Hq. by apply (quiet_inv st w). Qed.
Lemma rep_keeps_bind {A B} E (m : R A) (f : A -> R B) : keeps E m -> (forall a, keeps E (f a)) -> keeps E (rbind m f).
Proof. intros Hm Hf st w Hi. eapply runs_then; [by apply Hm|done|]. intros a st' w' Hi'. by apply Hf. Qed.
(** Reading the state first. *)
Lemma keeps_self {A} E (f : ReplicatorStateMachine -> R A) :
  (forall st w, rep_inv st w -> runs E (f st) st w (fun _ st' w' => rep_inv st' w')) -> keeps E (rbind self f).
Proof. intros Hf st w Hi. apply runs_self. by apply Hf. Qed.

Lemma inv_state st w s :
  rep_inv st w -> joining (m_state st) = false -> joining s = false -> rep_inv (st <| m_state := s |>) w.
Proof.
  intros (Hg & Hm & [Hn Hl] & Ha) Hs Hs'. split_and!; [exact Hg|done| |].
  - split; [done|]. intros _. cbn. by apply Hl.
  - intros h Hh. change (armed (st <| m_state := s |>) w h) with (armed st w h). rewrite Ha by done.
    destruct h; cbn; [done| | |done]; destruct (m_state st), s; done.
Qed.
Lemma inv_meta st w d : rep_inv st w -> meta_ok d -> rep_inv (st <| m_downloadTransfererMetadata := d |>) w.
Proof. intros (Hg & Hm & Hl & Ha) Hd. split_and!; [exact Hg|done|exact Hl|exact Ha]. Qed.

(** Create_Process() returns no pid -1, and time() does not fail. *)
Definition sys_ok : Prop := (forall es, Create_Process sys es <> -1) /\ (forall es, time sys es <> -1).
Context (Hsys : sys_ok).


Lemma download_runs a st w :
  good st w ->
  runs never (download sys a) st w (fun _ st' w' =>
    exists d, (meta_ok (m_downloadTransfererMetadata st) -> meta_ok d) /\ quiet (st <| m_downloadTransfererMetadata := d |>) w st' w').
Proof.
  intros Hg. unfold download, create_transferer.
  rewrite rep_runs_bind. unfold runs at 1, rbind at 1 2 3, self at 1, world at 1, act, change_world, rret at 1.
  set (w1 := w <| done ::= _ |>). set (pid := Create_Process sys (done w)).
  assert (Hpid : pid <> -1) by apply Hsys. destruct (pid =? 0); [exists (m_downloadTransfererMetadata st); split; [done|by destruct st]|].
  apply runs_self. eapply runs_then; [by apply assert_runs|done|]. intros [] st1 w2 (_ & -> & ->).
  unfold runs, rbind, now, world, act, change_world, update, rret. cbn.
  exists (mkMetadata pid (time sys (done w1))). split; [|done]. intros _. right. unfold isValid. cbn.
  apply andb_true_intro. split; apply negb_true_iff, Z.eqb_neq; [done|apply Hsys].
Qed.
Lemma keeps_download a : keeps never (download sys a).
Proof.
  intros st w Hi. eapply runs_mono; [apply download_runs, Hi|done|]. intros b st' w' (d & Hd & Hq).
  eapply quiet_inv; [exact Hq|]. apply inv_meta; [done|]. apply Hd, Hi.
Qed.

Lemma gidSelection_runs st w :
  rep_inv st w -> joining (m_state st) = false -> runs never (gidSelectionHandler sys) st w (fun _ st' w' => st' = st /\ w' = w).
Proof.
  intros Hi Hs. unfold gidSelectionHandler. apply runs_self. pose proof Hi as (Hg & _ & [_ Hl] & _).
  eapply runs_then; [by apply assert_runs|done|]. intros [] st1 w1 (_ & -> & ->). by rewrite (Hl Hs).
Qed.
Lemma becomeLeader_runs st w :
  rep_inv st w -> joining (m_state st) = false -> runs never (becomeLeader sys) st w (fun _ st' w' => rep_inv st' w').
Proof.
  intros Hi Hs. unfold becomeLeader. eapply runs_calm; [auto with calm|apply Hi|]. intros t st1 w1 Q1 G1. apply runs_update.
  set (st2 := st1 <| m_lastHadAliveTime := t |>). assert (Q2 : quiet st w st2 w1) by exact Q1.
  assert (Hi2 : rep_inv st2 w1) by (by apply (quiet_inv st w)). assert (Hs2 : joining (m_state st2) = false) by (by rewrite (quiet_state _ _ _ _ Q2)).
  eapply runs_then; [by apply gidSelection_runs|done|]. intros [] st3 w3 [-> ->]. by apply inv_state.
Qed.

Lemma keeps_afterElection : keeps never (afterElectionStateHandler sys).
Proof.
  apply keeps_self. intros st w Hi. eapply runs_then; [apply assert_runs, Hi|done|]. intros [] st1 w1 (_ & -> & ->).
  destruct (m_state st) eqn:Es; [done|done|apply becomeLeader_runs; [done|by rewrite Es]..].
Qed.
Lemma keeps_afterLeader : keeps never (afterLeaderStateHandler sys host).
Proof.
  apply keeps_self. intros st w Hi. destruct (m_state st) eqn:Es; [done..|].
  eapply runs_calm; [auto with calm|apply Hi|]. intros [] st1 w1 Q1 _. apply inv_state; [by apply (quiet_inv st w)| |done].
  by rewrite (quiet_state _ _ _ _ Q1), Es.
Qed.
Lemma keeps_inLeader : keeps never (inLeaderStateHandler sys).
Proof.
  apply keeps_self. intros st w Hi. destruct (m_state st) eqn:Es; [done|done|apply becomeLeader_runs; [done|by rewrite Es]|].
  eapply runs_calm; [auto with calm|apply Hi|]. intros t st1 w1 Q1 _. by apply (quiet_inv st w).
Qed.

(** A message that onLeaderVersion() cannot decode. *)
Definition undecodable (c : Call) : Prop :=
  match c with
  | Receives REPLICATION_LEADER_VERSION stream =>
      match code_str stream with Some (_, stream) => decodeVersionAndState stream = None | None => False end
  | _ => False
  end.
Lemma keeps_leaderVersion stream : keeps (fun y => y = NullVersion /\ decodeVersionAndState stream = None) (onLeaderVersion sys stream).
Proof.
  apply keeps_self. intros st w Hi. case_bool_decide as Hs; cbn [negb]; [|done].
  eapply runs_calm; [auto with calm|apply Hi|]. intros [] st1 w1 Q1 G1. destruct (decodeVersionAndState stream) as [v|]; [|done].
  eapply runs_calm; [auto with calm|done|]. intros r st2 w2 Q2 G2. apply runs_self.
  assert (Hi2 : rep_inv st2 w2) by eauto using quiet_inv. destruct (_ && _); [|done].
  eapply runs_then; [by apply keeps_download|done|]. done.
Qed.
Lemma updated_hosts v l :
  NoDup (getHostName <$> l) ->
  NoDup (getHostName <$> (List.filter (fun o => negb (bool_decide (getHostName o = getHostName v))) l ++ [v])).
Proof.
  intros Hn. rewrite fmap_app. cbn. apply NoDup_app. split_and!; [|intros x Hx [->|[]%elem_of_nil]%elem_of_cons|apply NoDup_singleton].
  - induction l as [|x l IH]; [constructor|]. cbn in *. apply NoDup_cons in Hn as [Hx Hn]. case_bool_decide; cbn; [by apply IH|].
    apply NoDup_cons. split; [|by apply IH]. intros Hin. apply Hx. apply list_elem_of_fmap in Hin as (y & -> & Hy).
    apply list_elem_of_fmap. exists y. split; [done|]. apply list_elem_of_In, filter_In in Hy as [Hy _]. by apply list_elem_of_In.
  - apply list_elem_of_fmap in Hx as (y & Hy & Hin). apply list_elem_of_In, filter_In in Hin as [_ Hin].
    case_bool_decide; done.
Qed.
Lemma keeps_solicitReply stream : keeps never (onSolicitVersionReply stream).
Proof.
  apply keeps_self. intros st w Hi. case_bool_decide as Hs; [|done]. destruct (decodeVersionAndState stream) as [v|]; [|done].
  destruct Hi as (Hg & Hm & [Hn _] & Ha). split_and!; [exact Hg|exact Hm| |exact Ha]. split; [by apply updated_hosts|]. cbn. by rewrite Hs.
Qed.

(** *** The timers *)

Lemma versionDownloadingTimer_runs st w :
  good st w -> meta_ok (m_downloadTransfererMetadata st) -> armed st w ReplicationTimer = needs st ReplicationTimer ->
  armed st w VersionRequestingTimer = None ->
  runs never (versionDownloadingTimer sys) st w (fun _ st' w' =>
    rep_inv st' w' /\ rep_timers w' = delete (m_versionDownloadingTimerId st) (rep_timers w)).
Proof.
  intros Hg Hm Hr Hq. unfold versionDownloadingTimer. refine (runs_then _ never _ _ _ _ _ _ (cancel_runs never VersionDownloadingTimer st w Hg) _ _); [done|].
  intros [] st1 w1 (i & -> & Hi & G1 & _ & _ & _ & A1 & T1). apply runs_update.
  set (st2 := (set_owner VersionDownloadingTimer i st) <| m_versionsList := [] |>). assert (G2 : good st2 w1) by exact G1.
  eapply runs_calm; [auto with calm|exact G2|]. intros [] st3 w3 Q3 G3. split.
  - split_and!; [exact G3|cbn; by rewrite (quiet_meta _ _ _ _ Q3)| |].
    + split; cbn; rewrite (quiet_versions _ _ _ _ Q3); [constructor|done].
    + intros h Hh. change (armed (st3 <| m_state := BACKUP |>) w3 h) with (armed st3 w3 h). rewrite (quiet_armed _ _ _ _ _ Q3).
      change (armed st2 w1 h) with (armed (set_owner VersionDownloadingTimer i st) w1 h). rewrite (A1 h). unfold but.
      destruct h; cbn -[needs]; [|done|done|done]. rewrite Hr.
      transitivity (Some (mkRepTimer (m_replicationInterval st3) 0 ReplicationTimer)); [|done]. cbn. do 2 f_equal.
      destruct Q3 as [Q3 _]. unfold mask in Q3. subst st2. cbn in Q3. congruence.
  - cbn in T1. rewrite <- T1. destruct Q3 as [Q3 _]. unfold mask in Q3. congruence.
Qed.

(** Registering a timer, then the rest. *)
Lemma runs_register {A} t (k : unit -> R A) st w Q :
  good st w -> armed st w (rt_handler t) = None ->
  (forall i w', good (set_owner (rt_handler t) i st) w' -> arms (set_owner (rt_handler t) i st) w' (but (rt_handler t) (Some t) (armed st w)) ->
    rep_timers w' = <[next_id w := t]> (rep_timers w) -> runs never (k tt) (set_owner (rt_handler t) i st) w' Q) ->
  runs never (rbind (rep_Register_Timer t) (fun id => rbind (update (set_owner (rt_handler t) id)) k)) st w Q.
Proof.
  intros Hg Hn Hk. pose proof (register_runs never t st w Hg Hn) as H. unfold runs, rbind, rep_Register_Timer, update in *.
  destruct H as (i & Hst & G & _ & _ & _ & Ha & Ht). rewrite Hst in *. by apply Hk.
Qed.

Lemma versionRequestingTimer_runs st w :
  rep_inv st w -> m_state st = VERSION_REQUESTING ->
  runs never (versionRequestingTimer sys) st w (fun _ st' w' =>
    rep_inv st' w' /\ rep_timers w' !! m_versionRequestingTimerId st = None).
Proof.
  intros (Hg & Hm & [Hn _] & Ha) Hs. unfold versionRequestingTimer.
  refine (runs_then _ never _ _ _ _ _ _ (cancel_runs never VersionRequestingTimer st w Hg) _ _); [done|].
  intros [] st1 w1 (i & -> & Hi & G1 & N1 & _ & _ & A1 & T1). apply runs_update.
  set (st2 := (set_owner VersionRequestingTimer i st) <| m_state := VERSION_DOWNLOADING |>). assert (G2 : good st2 w1) by exact G1.
  eapply runs_calm; [auto with calm|exact G2|]. intros r st3 w3 Q3 G3.
  assert (A3 : arms st3 w3 (but VersionRequestingTimer None (armed st w))).
  { intros h. rewrite (quiet_armed _ _ _ _ _ Q3). exact (A1 h). }
  assert (M3 : meta_ok (m_downloadTransfererMetadata st3)) by (by rewrite (quiet_meta _ _ _ _ Q3)).
  assert (I3 : m_replicationInterval st3 = m_replicationInterval st) by (destruct Q3 as [Q3 _]; unfold mask in Q3; subst st2; cbn in Q3; congruence).
  assert (T3 : rep_timers w3 = delete (m_versionRequestingTimerId st) (rep_timers w)).
  { cbn in T1. rewrite <- T1. destruct Q3 as [Q3 _]. unfold mask in Q3. congruence. }
  destruct r.1.
  - eapply runs_then; [by apply download_runs|done|]. intros b st4 w4 (d & Hd & Q4). apply runs_self.
    assert (A4 : arms st4 w4 (but VersionRequestingTimer None (armed st w))).
    { intros h. rewrite (quiet_armed _ _ _ _ _ Q4). exact (A3 h). }
    assert (G4 : good st4 w4) by (eapply quiet_good; [exact Q4|exact G3]).
    assert (Hq4 : quiet (st2 <| m_downloadTransfererMetadata := d |>) w1 st4 w4).
    { destruct Q3 as [Q3 Q3v], Q4 as [Q4 Q4v]. split; [|auto]. unfold mask in *. subst st2. cbn in *. congruence. }
    assert (S4 : m_state st4 = VERSION_DOWNLOADING) by exact (quiet_state _ _ _ _ Hq4).
    assert (I4 : m_replicationInterval st4 = m_replicationInterval st) by (destruct Hq4 as [Hq4 _]; unfold mask in Hq4; subst st2; cbn in Hq4; congruence).
    assert (T4 : rep_timers w4 = rep_timers w3 /\ next_id w4 = next_id w).
    { destruct Q3 as [Q3 _], Q4 as [Q4 _]. unfold mask in *. split; congruence. }
    refine (runs_mono _ _ _ _ _ _ _ (register_runs never (mkRepTimer (m_maxTransfererLifeTime st4) 0 VersionDownloadingTimer) st4 w4 G4 _) _ _); [|done|].
    { change (armed st4 w4 VersionDownloadingTimer = None). rewrite (A4 VersionDownloadingTimer). change (armed st w VersionDownloadingTimer = None). rewrite Ha by done. cbn. by rewrite Hs. }
    intros [] st5 w5 (i5 & -> & G5 & _ & _ & _ & A5 & T5). cbn [rt_handler] in *. split.
    + split_and!; [exact G5| | |].
      * change (meta_ok (m_downloadTransfererMetadata st4)). rewrite (quiet_meta _ _ _ _ Hq4). by apply Hd.
      * split; [|cbn; by rewrite S4]. change (NoDup (getHostName <$> m_versionsList st4)). by rewrite (quiet_versions _ _ _ _ Hq4).
      * intros h Hh. rewrite (A5 h). unfold but. destruct h; cbn -[needs]; [| | |done].
        -- rewrite (A4 ReplicationTimer). change (armed st w ReplicationTimer = needs st4 ReplicationTimer). rewrite Ha by done. cbn. congruence.
        -- rewrite (A4 VersionRequestingTimer). cbn. by rewrite S4.
        -- cbn. by rewrite S4.
    + rewrite T5, lookup_insert_ne; [rewrite (proj1 T4), T3; apply lookup_delete_eq|].
      destruct Hg as [(_ & _ & Ho) _]. destruct (Ho VersionRequestingTimer) as [Ho' _]. cbn in Ho'. rewrite (proj2 T4). lia.
  - eapply runs_mono; [apply versionDownloadingTimer_runs; [done|done| |]|done|].
    + rewrite (A3 ReplicationTimer). change (armed st w ReplicationTimer = needs st3 ReplicationTimer). rewrite Ha by done. cbn. congruence.
    + by rewrite (A3 VersionRequestingTimer).
    + intros [] st4 w4 [Hi4 ->]. split; [done|]. rewrite T3. apply lookup_delete_None. right. apply lookup_delete_eq.
Qed.

Lemma quiet_timers st w st' w' : quiet st w st' w' -> rep_timers w' = rep_timers w.
Proof. intros [Hm _]. unfold mask in Hm. congruence. Qed.
(** The invariant, with the timers left alone. *)
Definition steady (w0 : RepWorld) (st : ReplicatorStateMachine) (w : RepWorld) : Prop := rep_inv st w /\ rep_timers w = rep_timers w0.
Lemma steady_quiet w0 st w st' w' : quiet st w st' w' -> steady w0 st w -> steady w0 st' w'.
Proof. intros Hq [Hi Ht]. split; [by apply (quiet_inv st w)|]. by rewrite (quiet_timers _ _ _ _ Hq). Qed.
Lemma steady_calm {A B} (m : R A) (f : A -> R B) w0 st w Q :
  calm never m -> steady w0 st w ->
  (forall a st' w', steady w0 st' w' -> m_state st' = m_state st -> runs never (f a) st' w' Q) -> runs never (rbind m f) st w Q.
Proof.
  intros Hm Hs Hf. eapply runs_calm; [done|apply Hs|]. intros a st' w' Hq _. apply Hf; [by apply (steady_quiet _ st w)|]. by apply (quiet_state st w st' w').
Qed.
Lemma killStuck_runs {B} t (f : unit -> R B) w0 st w Q :
  steady w0 st w -> (forall st' w', steady w0 st' w' -> m_state st' = m_state st -> runs never (f tt) st' w' Q) ->
  runs never (rbind (killStuckDownloadingTransferer sys t) f) st w Q.
Proof.
  intros Hs Hf. unfold killStuckDownloadingTransferer. rewrite rep_runs_bind. apply runs_self. cbv zeta.
  destruct (_ && _); cbn [when_]; [|by apply Hf]. eapply steady_calm; [auto with calm|done|]. intros [] st1 w1 [Hi Ht] Hst.
  apply Hf; [|done]. split; [apply inv_meta; [done|by left]|done].
Qed.
Lemma replicationTimer_runs st w :
  rep_inv st w -> runs never (replicationTimer sys host) st w (fun _ st' w' => rep_inv st' w' /\ rep_timers w' !! m_replicationTimerId st = None).
Proof.
  intros (Hg & Hm & Hl & Ha). unfold replicationTimer.
  refine (runs_then _ never _ _ _ _ _ _ (cancel_runs never ReplicationTimer st w Hg) _ _); [done|].
  intros [] st1 w1 (i & -> & Hi & G1 & N1 & _ & _ & A1 & T1). apply runs_self.
  refine (runs_register (mkRepTimer (m_replicationInterval st) 0 ReplicationTimer) _ _ _ _ G1 _ _); [exact (A1 ReplicationTimer)|].
  cbn [rt_handler]. intros i2 w2 G2 A2 T2. set (st2 := set_owner ReplicationTimer i2 _) in *.
  assert (Hs : steady w2 st2 w2).
  { split; [|done]. split_and!; [done|done|done|]. intros h Hh. rewrite (A2 h). unfold but. destruct h; [done| | |done];
      cbn -[needs]; rewrite (A1 _); unfold but; cbn -[needs]; by rewrite Ha. }
  assert (Ht2 : rep_timers w2 !! m_replicationTimerId st = None).
  { rewrite T2, lookup_insert_ne; [rewrite T1; apply lookup_delete_eq|]. destruct Hg as [(_ & _ & Ho) _].
    destruct (Ho ReplicationTimer) as [Ho' _]. cbn in Ho'. rewrite N1. lia. }
  assert (Hend : forall st' w', steady w2 st' w' -> rep_inv st' w' /\ rep_timers w' !! m_replicationTimerId st = None).
  { intros st' w' [Hi' ->]. done. }
  assert (Es : m_state (set_owner ReplicationTimer i st) = m_state st2) by done. rewrite Es. clearbody st2.
  case_bool_decide as Hr; [by apply Hend|]. eapply steady_calm; [auto with calm|done|]. intros t st3 w3 Hs3 Es3. cbv zeta.
  apply (killStuck_runs _ _ w2); [done|]. intros st4 w4 Hs4 Es4. case_bool_decide as Hd; [by apply Hend|].
  eapply (steady_calm _ _ w2); [unfold killStuckUploadingTransferers; calm|done|]. intros [] st5 w5 Hs5 Es5.
  case_bool_decide as Hb.
  - eapply runs_mono; [apply calm_check, Hs5|done|]. intros [] st6 w6 Q6. by apply Hend, (steady_quiet _ st5 w5).
  - eapply steady_calm; [auto with calm|done|]. intros u st6 w6 Hs6 Es6.
    eapply (steady_calm _ _ w2); [apply calm_when; auto with calm|done|]. intros [] st7 w7 Hs7 Es7. apply runs_self.
    destruct (_ <? _); cbn [when_]; [|by apply Hend].
    eapply steady_calm; [auto with calm|done|]. intros [] st8 w8 [Hi8 Ht8] Es8. apply Hend. split; [|done].
    apply inv_state; [done| |done]. assert (E8 : m_state st8 = m_state st2) by congruence. rewrite E8. by destruct (m_state st2).
Qed.

(** *** The ends of transferers, and commands *)

Lemma keeps_update E f : (forall st w, rep_inv st w -> rep_inv (f st) w) -> keeps E (update f).
Proof. intros Hf st w Hi. by apply Hf. Qed.
Lemma rep_keeps_ret {A} E (a : A) : keeps E (rret a).
Proof. by intros st w Hi. Qed.
Lemma keeps_downloadReaper pid status : keeps never (downloadReplicaTransfererReaper sys pid status).
Proof.
  unfold downloadReplicaTransfererReaper. apply rep_keeps_bind.
  - apply rep_keeps_bind; [apply keeps_update; intros; apply inv_meta; [done|by left]|]. intros []. destruct (negb (succeeded status)); [apply rep_keeps_ret|].
    cbv zeta. apply calm_keeps. calm.
  - intros b. apply keeps_self. intros st w Hi. apply (runs_then _ never _ _ _ _ (fun _ st' w' => rep_inv st' w')); [|done|by intros [] st1 w1].
    destruct b; cbn [andb when_]; [|done]. case_bool_decide as Hs; cbn [when_]; [|done].
    eapply runs_mono; [apply versionDownloadingTimer_runs|done|by intros [] st1 w1 [H1 _]]; [apply Hi..| |].
    + by apply Hi.
    + destruct Hi as (_ & _ & _ & Ha). rewrite Ha by done. cbn. by rewrite Hs.
Qed.
Lemma keeps_uploadReaper pid status : keeps never (uploadReplicaTransfererReaper pid status).
Proof. apply rep_keeps_bind; [|intros; apply rep_keeps_ret]. apply keeps_update. by intros st w Hi. Qed.

Lemma keeps_mono {A} (E E' : Crash -> Prop) (m : R A) : keeps E m -> (forall y, E y -> E' y) -> keeps E' m.
Proof. intros Hm HE st w Hi. eapply runs_mono; [by apply Hm|done|done]. Qed.
Lemma keeps_never {A} E (m : R A) : keeps never m -> keeps E m.
Proof. intros Hm. by apply (keeps_mono never). Qed.
Lemma keeps_command comm stream :
  comm <> HAD_BEFORE_PASSIVE_STATE -> keeps (fun y => y = NullVersion /\ undecodable (Receives comm stream)) (commandHandler sys host comm stream).
Proof.
  intros Hc. unfold commandHandler, undecodable. destruct (code_str stream) as [[a rest]|]; [|apply rep_keeps_ret].
  destruct comm as [| | | | | | |c]; [..|destruct c]; try apply rep_keeps_ret; try done.
  - apply calm_keeps. unfold onTransferFile. calm.
  - eapply keeps_mono; [apply keeps_leaderVersion|exact (fun y H => H)].
  - apply keeps_never, keeps_self. intros st w Hi. destruct (bool_decide_reflect (m_state st = REPLICATION_LEADER)) as [Hs|]; cbn [when_]; [|done].
    eapply runs_mono; [apply gidSelection_runs; [done|by rewrite Hs]|done|]. by intros [] st1 w1 [-> ->].
  - apply calm_keeps. unfold onSolicitVersion. calm.
  - apply keeps_never, keeps_solicitReply.
  - apply keeps_never, keeps_afterElection.
  - apply keeps_never, keeps_afterLeader.
  - apply keeps_never, keeps_inLeader.
Qed.

(** *** Configuration *)

(** What holds while the daemon is set up again. *)
Definition starting (st : ReplicatorStateMachine) (w : RepWorld) : Prop :=
  good st w /\ rep_timers w = ∅ /\ m_state st = VERSION_REQUESTING /\ NoDup (getHostName <$> m_versionsList st) /\
  m_downloadTransfererMetadata st = unset /\ m_updateInterval st = -1.
Definition starts_up {A} (m : R A) : Prop := forall st w, starting st w -> runs never m st w (fun _ st' w' => starting st' w').
Lemma starts_calm {A} (m : R A) : calm never m -> starts_up m.
Proof.
  intros Hm st w (Hg & Ht & Hs & Hn & Hd & Hu). eapply runs_mono; [by apply Hm|done|]. intros a st' w' Hq.
  split_and!; [by apply (quiet_good st w)|by rewrite (quiet_timers _ _ _ _ Hq)|by rewrite (quiet_state _ _ _ _ Hq)|
    by rewrite (quiet_versions _ _ _ _ Hq)|by rewrite (quiet_meta _ _ _ _ Hq)|]. destruct Hq as [Hq _]. unfold mask in Hq. congruence.
Qed.
Lemma starts_bind {A B} (m : R A) (f : A -> R B) : starts_up m -> (forall a, starts_up (f a)) -> starts_up (rbind m f).
Proof. intros Hm Hf st w Hi. eapply runs_then; [by apply Hm|done|]. intros a st' w' Hi'. by apply Hf. Qed.
Lemma starts_update f : (forall st w, starting st w -> starting (f st) w) -> starts_up (update f).
Proof. intros Hf st w Hi. by apply Hf. Qed.
Lemma starts_addresses my l b : starts_up (replication_addresses sys is_ip_string resolve_hostname my l b).
Proof.
  revert b. induction l as [|a l IH]; intros b; cbn [replication_addresses]; [apply starts_calm, calm_ret|].
  destruct (utilToSinful _ _ a); [|apply starts_calm, calm_error]. destruct (default false _); [apply IH|].
  apply starts_bind; [by apply starts_update|]. intros []. apply IH.
Qed.
Lemma starts_abstract config : starts_up (abstract_reinitialize sys is_ip_string resolve_hostname host config).
Proof.
  unfold abstract_reinitialize. repeat (apply starts_bind; [|intros []]).
  - destruct (c_REPLICATION_LIST config); [|apply starts_calm, calm_error]. apply starts_bind; [apply starts_addresses|].
    intros []; apply starts_calm; [apply calm_ret|apply calm_error].
  - by apply starts_update.
  - destruct (TRANSFERER config); [by apply starts_update|apply starts_calm, calm_error].
  - destruct (SPOOL config); [by apply starts_update|apply starts_calm, calm_error].
Qed.
Lemma calm_initialize a b : calm never (version_initialize sys host a b).
Proof.
  unfold version_initialize. apply calm_bind; [calm|intros _]. do 2 (apply calm_bind; [by apply calm_update|intros _]).
  apply calm_bind; [calm|intros loaded]. apply calm_bind; [calm|intros _]. apply calm_bind; [calm|intros _]. by apply calm_update.
Qed.

(** The first part of reinitialize() leaves no timer, the second sets them. *)
Definition set_up (st : ReplicatorStateMachine) (w : RepWorld) : Prop :=
  good st w /\ m_state st = VERSION_REQUESTING /\ NoDup (getHostName <$> m_versionsList st) /\
  m_downloadTransfererMetadata st = unset /\ armed st w VersionRequestingTimer = None /\ armed st w VersionDownloadingTimer = None.
Lemma set_up_quiet st w st' w' : quiet st w st' w' -> set_up st w -> set_up st' w'.
Proof.
  intros Hq (Hg & Hs & Hn & Hd & Ha & Ha'). unfold set_up.
  rewrite (quiet_state _ _ _ _ Hq), (quiet_versions _ _ _ _ Hq), (quiet_meta _ _ _ _ Hq), !(quiet_armed _ _ _ _ _ Hq).
  split_and!; try done. by apply (quiet_good st w).
Qed.
Lemma beforePassive_runs st w :
  set_up st w -> armed st w ReplicationTimer = needs st ReplicationTimer ->
  runs never (beforePassiveStateHandler sys host) st w (fun _ st' w' => rep_inv st' w').
Proof.
  intros Hs Hr. unfold beforePassiveStateHandler. apply runs_self.
  eapply runs_then; [apply assert_runs, Hs|done|]. intros [] st1 w1 (_ & -> & ->).
  eapply runs_calm; [auto with calm|apply Hs|]. intros [] st1 w1 Q1 G1.
  eapply runs_calm; [auto with calm|done|]. intros [] st2 w2 Q2 G2. apply runs_self.
  assert (Q : quiet st w st2 w2) by eauto using quiet_trans. clear Q1 Q2 G1.
  pose proof (set_up_quiet _ _ _ _ Q Hs) as (_ & Es & En & Ed & Ea & Ea').
  refine (runs_mono _ _ _ _ _ _ _ (register_runs never (mkRepTimer (m_newlyJoinedWaitingVersionInterval st2) 0 VersionRequestingTimer) st2 w2 G2 Ea) _ _); [done|].
  intros [] st3 w3 (i & -> & G3 & _ & _ & _ & A3 & _). cbn [rt_handler] in *. split_and!; [done|by left| |].
  - split; [exact En|cbn; by rewrite Es].
  - intros h Hh. rewrite (A3 h). unfold but. destruct h; cbn -[needs]; [| | |done].
    + rewrite (quiet_armed _ _ _ _ _ Q), Hr. symmetry. exact (quiet_needs _ _ _ _ ReplicationTimer Q).
    + cbn. by rewrite Es.
    + rewrite Ea'. cbn. by rewrite Es.
Qed.
Lemma start_timers_runs updateInterval st w :
  starting st w ->
  runs never
    (when_ (negb (m_updateInterval st =? updateInterval))
       (update (fun st => st <| m_updateInterval := updateInterval |>);;;
        cancel_timer m_updateCollectorTimerId (fun i st => st <| m_updateCollectorTimerId := i |>);;;
        id <- rep_Register_Timer (mkRepTimer 0 updateInterval RepUpdateTimer);;
        update (fun st => st <| m_updateCollectorTimerId := id |>))) st w
    (fun _ st' w' => set_up st' w' /\ armed st' w' ReplicationTimer = None).
Proof.
  intros (Hg & Ht & Hs & Hn & Hd & Hu).
  assert (Ha : forall h, armed st w h = None) by (intros h; unfold armed; by rewrite Ht).
  destruct (negb _); cbn [when_]; [|by split_and!]. apply runs_update. set (st1 := st <| m_updateInterval := updateInterval |>).
  refine (runs_then _ never _ _ _ _ _ _ (cancel_runs never RepUpdateTimer st1 w Hg) _ _); [done|].
  intros [] st2 w2 (i & -> & _ & G2 & _ & _ & _ & A2 & _).
  refine (runs_mono _ _ _ _ _ _ _ (register_runs never (mkRepTimer 0 updateInterval RepUpdateTimer) _ w2 G2 (A2 RepUpdateTimer)) _ _); [done|].
  intros [] st3 w3 (i3 & -> & G3 & _ & _ & _ & A3 & _). cbn [rt_handler] in *.
  assert (A : forall h, h <> RepUpdateTimer -> armed (set_owner RepUpdateTimer i3 (set_owner RepUpdateTimer i st1)) w3 h = None).
  { intros h Hh. rewrite (A3 h). unfold but at 1. rewrite decide_False by done. rewrite (A2 h). unfold but. rewrite decide_False by done. exact (Ha h). }
  split; [split_and!|]; try done; by apply A.
Qed.
Lemma reinitialize_runs config st w :
  good st w -> meta_ok (m_downloadTransfererMetadata st) -> NoDup (getHostName <$> m_versionsList st) ->
  runs never (rep_reinitialize sys is_ip_string resolve_hostname host config) st w (fun _ st' w' => rep_inv st' w').
Proof.
  intros Hg Hm Hn. unfold rep_reinitialize. eapply runs_then; [by apply finalize_runs|done|].
  intros [] st1 w1 (G1 & T1 & S1 & V1 & D1 & U1).
  assert (Hs1 : starting st1 w1).
  { split_and!; [done..|by rewrite V1| |done]. rewrite D1. destruct Hm as [->|Hv]; [done|]. unfold killed. by rewrite Hv. }
  apply (runs_then _ never _ _ _ _ (fun _ st' w' => starting st' w' /\ is_Some (c_REPLICATION_LIST config))).
  { destruct (c_REPLICATION_LIST config) as [l|] eqn:El.
    - eapply runs_mono; [by apply starts_abstract|done|]. intros [] st' w' H'. split; [exact H'|by eexists].
    - unfold abstract_reinitialize. rewrite El. apply (runs_then _ never _ _ _ _ (fun _ _ _ => False)); [by apply utilCrucialError_runs|done|done]. }
  { done. }
  intros [] st2 w2 [Hs2 [l El]]. apply runs_self.
  eapply runs_then; [exact (starts_calm _ (calm_initialize _ _) _ _ Hs2)|done|]. intros [] st3 w3 Hs3. cbv zeta.
  eapply runs_then; [apply starts_update; [|exact Hs3]; by intros|done|]. intros [] st4 w4 Hs4.
  apply (runs_then _ never _ _ _ _ (fun _ st' w' => starting st' w')).
  { destruct (c_HAD_LIST config); [exact Hs4|]. apply utilCrucialError_runs, Hs4. }
  { done. }
  intros [] st5 w5 Hs5. apply (runs_then _ never _ _ _ _ (fun _ st' w' => starting st' w')).
  { unfold rep_initializeClassAd. rewrite El. exact Hs5. }
  { done. }
  intros [] st6 w6 Hs6. apply runs_self. eapply runs_then; [by apply start_timers_runs|done|]. intros [] st7 w7 [Hs7 Ha7].
  apply runs_self. pose proof (register_runs never (mkRepTimer (m_replicationInterval st7) 0 ReplicationTimer) st7 w7 (proj1 Hs7) Ha7) as Hr.
  unfold runs, rbind, rep_Register_Timer, update in Hr. unfold rbind at 1, rep_Register_Timer, runs at 1. apply runs_update.
  destruct Hr as (i & Ei & G8 & _ & _ & _ & A8 & _). apply (f_equal m_replicationTimerId) in Ei. cbn in Ei. subst i. cbn [rt_handler] in *.
  destruct Hs7 as (_ & Es & En & Ed & Er & Edl). apply beforePassive_runs; [|exact (A8 ReplicationTimer)]. split_and!; [exact G8|done|done|done| |].
  - etransitivity; [exact (A8 VersionRequestingTimer)|exact Er].
  - etransitivity; [exact (A8 VersionDownloadingTimer)|exact Edl].
Qed.

Lemma keeps_reconfigure config : keeps never (rep_main_config sys is_ip_string resolve_hostname host config).
Proof. intros st w (Hg & Hm & [Hn _] & _). by apply reinitialize_runs. Qed.

(** *** Any run *)

(** The timer manager removes a timer that the handler has removed already, or one for the collectors. *)
Lemma inv_remove st w id :
  rep_inv st w -> (rep_timers w !! id = None \/ id = m_updateCollectorTimerId st) -> rep_inv st (w <| rep_timers ::= delete id |>).
Proof.
  intros Hi [Hn| ->].
  - replace (w <| rep_timers ::= delete id |>) with w; [done|]. destruct w. unfold set_field, rep_timers_setter. cbn in *. by rewrite delete_id.
  - destruct Hi as ([(H0 & H1 & H2) Hv] & Hm & Hl & Ha). split_and!; [split; [split_and!|done]|done|done|].
    + done.
    + intros i t Ht. cbn in Ht. apply lookup_delete_Some in Ht as [_ Ht]. by apply H1.
    + intros h. split; [apply H2|]. intros t Ht. cbn in Ht. apply lookup_delete_Some in Ht as [_ Ht]. by apply H2.
    + intros h Hh. rewrite <- Ha by done. unfold armed. cbn. destruct (decide (m_updateCollectorTimerId st = owner st h)) as [E|E]; [|by rewrite lookup_delete_ne].
      rewrite <- E, lookup_delete_eq. destruct (rep_timers w !! m_updateCollectorTimerId st) as [t|] eqn:Et; [|done]. exfalso. apply Hh.
      rewrite <- (proj2 (H2 RepUpdateTimer) t Et). symmetry. apply (proj2 (H2 h)). by rewrite <- E.
Qed.
Lemma fire_runs st w id t :
  rep_inv st w -> rep_timers w !! id = Some t ->
  runs never (fire_timer sys host (rt_handler t)) st w (fun _ st' w' =>
    rep_inv st' w' /\ (rep_timers w' !! id = None \/ id = m_updateCollectorTimerId st')).
Proof.
  intros Hi Ht. pose proof Hi as ([(_ & H1 & _) _] & _ & _ & Ha). destruct (H1 id t Ht) as [Eid _].
  specialize (Ha (rt_handler t)). unfold armed in Ha. rewrite <- Eid, Ht in Ha. clear H1 Ht.
  destruct (rt_handler t) eqn:Eh; cbn [fire_timer owner] in *.
  - eapply runs_mono; [by apply replicationTimer_runs|done|]. intros [] st' w' [Hi' Hn]. split; [done|]. left. by rewrite Eid.
  - specialize (Ha ltac:(done)). cbn in Ha. case_bool_decide as Hs; [|done].
    eapply runs_mono; [by apply versionRequestingTimer_runs|done|]. intros [] st' w' [Hi' Hn]. split; [done|]. left. by rewrite Eid.
  - specialize (Ha ltac:(done)). cbn in Ha. case_bool_decide as Hs; [|done]. destruct Hi as (Hg & Hm & _ & Ha').
    eapply runs_mono; [apply versionDownloadingTimer_runs; [done|done|by apply Ha'|]|done|].
    { rewrite Ha' by done. cbn. by rewrite Hs. }
    intros [] st' w' [Hi' ->]. split; [done|]. left. rewrite Eid. apply lookup_delete_eq.
  - unfold rep_updateCollectors. apply runs_self. unfold runs. destruct (m_classAd st); (split; [exact Hi|by right]).
Qed.

Definition joins_again (c : Call) : Prop := match c with Receives HAD_BEFORE_PASSIVE_STATE _ => True | _ => False end.
Lemma keeps_call c :
  ~ joins_again c -> keeps (fun y => y = NullVersion /\ undecodable c) (call sys is_ip_string resolve_hostname host c).
Proof.
  intros Hc. destruct c as [id|comm stream|pid status|pid status|config|f]; cbn [call].
  - intros st w Hi. rewrite rep_runs_bind. unfold runs at 1, world. destruct (rep_timers w !! id) as [t|] eqn:Et; [|done].
    eapply runs_then; [by apply fire_runs|done|]. intros [] st1 w1 [Hi1 H1]. destruct (_ =? _); cbn [when_]; [|done]. by apply inv_remove.
  - apply keeps_command. by intros ->.
  - apply rep_keeps_bind; [apply keeps_never, keeps_downloadReaper|intros; apply rep_keeps_ret].
  - apply rep_keeps_bind; [apply keeps_never, keeps_uploadReaper|intros; apply rep_keeps_ret].
  - apply keeps_never, keeps_reconfigure.
  - apply calm_keeps. intros st w _. done.
Qed.

(** C13 (invariant): after any sequence of calls of a replication daemon in which its HAD does not send
    HAD_BEFORE_PASSIVE_STATE again, whatever else it is told, whatever becomes of its transferers and
    files and whichever connections and file operations fail, as long as Create_Process() returns no -1
    and time() does not fail: it has exactly the timers that its state needs (so it always leaves the
    states of a daemon that joins the pool), it keeps versions of other daemons only while it joins, at
    most one of each host, and its own version is one that the version file can hold; when it ends
    itself it leaves no timer. It fails otherwise only on the announcement of a leader that it cannot
    decode. *)
Theorem replication_invariant config cs w :
  rep_timers w = ∅ -> 0 <= next_id w -> Forall (fun c => ~ joins_again c) cs ->
  match rbind (rep_reinitialize sys is_ip_string resolve_hostname host config)
          (fun _ => calls sys is_ip_string resolve_hostname host cs) new_ReplicatorStateMachine w with
  | Returns _ st w' => rep_inv st w'
  | Ends w' => rep_timers w' = ∅
  | Crashes y _ => y = NullVersion /\ Exists undecodable cs
  end.
Proof.
  intros Ht Hn Hcs.
  assert (H : runs (fun y => y = NullVersion /\ Exists undecodable cs) (rbind (rep_reinitialize sys is_ip_string resolve_hostname host config)
          (fun _ => calls sys is_ip_string resolve_hostname host cs)) new_ReplicatorStateMachine w (fun _ st' w' => rep_inv st' w')); [|exact (runs_elim _ _ _ _ _ H)].
  eapply runs_then; [apply reinitialize_runs; [|by left|constructor]|done|].
  - split; [|done]. rewrite Ht. split_and!; [done|done|]. intros h. rewrite lookup_empty. split; [destruct h; cbn; lia|done].
  - intros [] st1 w1 Hi. revert st1 w1 Hi. unfold calls. induction Hcs as [|c cs Hc _ IH]; intros st1 w1 Hi; [done|].
    cbn [each]. eapply runs_then; [by apply keeps_call|intros y [? ?]; split; [done|by left]|].
    intros [] st2 w2 Hi2. eapply runs_mono; [by apply IH|intros y [? ?]; split; [done|by right]|done].
Qed.
End proofs.
