(* ===== verification/ReplicationVersions.v ===== *)
(** What the replication daemon promises about versions: which one it fetches, that the version file
    is read back as it was written, and that a transfer installs what it fetched. *)

From S2P Require Import Prelude Sinful CondorList StringList Had Replication ReplicationInv.

Open Scope Z_scope.
Open Scope rep_scope.

(** ** The choice of a version *)

(** What counts for operator >: the leader first, then the logical clock. *)
Definition outranks (v version : Version) : Prop :=
  let leader x := v_state x = state_number REPLICATION_LEADER in
  (leader v /\ ~ leader version) \/ ((leader v <-> leader version) /\ m_logicalClock version < m_logicalClock v).
(** A version to fetch: one of another gid, or with a later clock. *)
Definition newer (v my : Version) : Prop := m_gid v <> m_gid my \/ m_logicalClock my < m_logicalClock v.
Definition best_of (l : list Version) (best : Version) : Prop :=
  best ∈ l /\ exists first, head l = Some first /\ m_gid best = m_gid first /\
  forall v, v ∈ l -> m_gid v = m_gid first -> ~ outranks v best.

Lemma version_gt_outranks v version : version_gt v version = true <-> outranks v version.
Proof.
  unfold version_gt, outranks. change (state_number REPLICATION_LEADER) with 3. cbv zeta.
  destruct (Z.eqb_spec (v_state v) 3), (Z.eqb_spec (v_state version) 3); cbn [andb negb]; rewrite ?Z.ltb_lt;
    [lia|split; [intros _; lia|done]|split; [done|intros; exfalso; lia]|lia].
Qed.
Lemma outranks_trans a b c : ~ outranks a b -> outranks c b -> ~ outranks a c.
Proof.
  unfold outranks. change (state_number REPLICATION_LEADER) with 3.
  destruct (decide (v_state a = 3)), (decide (v_state b = 3)), (decide (v_state c = 3)); lia.
Qed.
Lemma newer_same my v : newer v (setState my (v_state v)) <-> newer v my.
Proof. done. Qed.
Lemma fold_better more first :
  let best := fold_left better more first in
  best ∈ first :: more /\ m_gid best = m_gid first /\ forall v, v ∈ first :: more -> m_gid v = m_gid first -> ~ outranks v best.
Proof.
  induction more as [|x more IH] using rev_ind; cbn; intros.
  - split_and!; [left|done|]. intros v [->|[]%elem_of_nil]%elem_of_cons _. unfold outranks. lia.
  - rewrite fold_left_app. cbn. set (b := fold_left better more first) in *. destruct IH as (H1 & H2 & H3).
    unfold better at 1 2 3. unfold isComparable. destruct (Z.eqb_spec (m_gid x) (m_gid b)) as [Eg|Eg]; cbn [andb];
      [destruct (version_gt x b) eqn:Eo|].
    + apply version_gt_outranks in Eo. split_and!; [set_solver|congruence|]. intros v Hv Hg.
      rewrite app_comm_cons, elem_of_app, list_elem_of_singleton in Hv. destruct Hv as [Hv| ->]; [|unfold outranks; lia].
      apply (outranks_trans v b x); [by apply H3|done].
    + split_and!; [set_solver|done|]. intros v Hv Hg. rewrite app_comm_cons, elem_of_app, list_elem_of_singleton in Hv.
      destruct Hv as [Hv| ->]; [by apply H3|]. rewrite <- version_gt_outranks, Eo. done.
    + split_and!; [set_solver|done|]. intros v Hv Hg. rewrite app_comm_cons, elem_of_app, list_elem_of_singleton in Hv.
      destruct Hv as [Hv| ->]; [by apply H3|congruence].
Qed.

(** C17 (functional): the choice of the version to fetch. A backup that is told a version wants it
    exactly when it has another gid or a later logical clock than its own. A daemon that joins the pool
    chooses, among the versions with the gid of the first one, one that no other outranks, where a
    leader outranks every daemon that does not lead, whatever their clocks, and the logical clock
    decides otherwise; it fetches that version exactly when it has another gid or a later clock than its
    own, so that a daemon never goes back to an older version of the same gid. (The comments in
    replicaSelectionHandler() and on operator > promise the greatest clock even against a leader; the
    code does not do that.) *)
Theorem replica_selection sys newVersion st w :
  match m_state st with
  | BACKUP => exists b, replicaSelectionHandler sys newVersion st w = Returns (b, newVersion) st w /\ (b = true <-> newer newVersion (m_myVersion st))
  | VERSION_DOWNLOADING =>
      (m_versionsList st = [] /\ replicaSelectionHandler sys newVersion st w = Returns (false, newVersion) st w) \/
      exists best, best_of (m_versionsList st) best /\
        ((newer best (m_myVersion st) /\ replicaSelectionHandler sys newVersion st w = Returns (true, best) st w) \/
         (~ newer best (m_myVersion st) /\ replicaSelectionHandler sys newVersion st w = Returns (false, newVersion) st w))
  | _ => True
  end.
Proof.
  destruct (m_state st) eqn:Es; try done.
  - unfold replicaSelectionHandler, rbind, self. rewrite Es. cbn. destruct (m_versionsList st) as [|first more] eqn:El; [by left|right].
    exists (fold_left better more first). destruct (fold_better more first) as (H1 & H2 & H3). set (best := fold_left better more first) in *.
    split; [split; [done|by exists first]|]. unfold version_ge, version_gt, isComparable, newer, rret. cbn.
    destruct (v_state best =? 3); cbn; destruct (Z.eqb_spec (m_gid (m_myVersion st)) (m_gid best)); cbn [andb]; [|left; split; [naive_solver|done]| |left; split; [naive_solver|done]];
      destruct (Z.ltb_spec (m_logicalClock (m_myVersion st)) (m_logicalClock best)); cbn [negb];
      [left; split; [by right|done]|right; split; [intros [?|?]; [congruence|lia]|done]|left; split; [by right|done]|right; split; [intros [?|?]; [congruence|lia]|done]].
  - unfold replicaSelectionHandler, rbind, self. rewrite Es. cbn. eexists. split; [reflexivity|].
    unfold version_gt, isComparable, newer. cbn. destruct (v_state newVersion =? 3); cbn; rewrite orb_true_iff, negb_true_iff, Z.eqb_neq, Z.ltb_lt; done.
Qed.

(** ** The version file *)

Lemma print_digits_length fuel n acc : (length (print_digits fuel n acc) <= fuel + length acc)%nat.
Proof.
  revert n acc. induction fuel as [|fuel IH]; intros n acc; cbn [print_digits]; [lia|]. destruct (n <? 10); [cbn; lia|].
  specialize (IH (n / 10) (digit_char (n mod 10) :: acc)). cbn in IH. lia.
Qed.
Lemma print_int_length n : 0 <= n <= INT_MAX -> (length (print_u n) < BUFSIZ)%nat.
Proof.
  intros Hn. unfold print_u. pose proof (print_digits_length (S (Z.to_nat (Z.log2 n))) n []) as H. cbn [length] in H.
  assert (Z.log2 n <= 30) by (transitivity (Z.log2 INT_MAX); [apply Z.log2_le_mono; lia|done]). pose proof (Z.log2_nonneg n).
  unfold BUFSIZ. lia.
Qed.
Lemma print_u_all_digits n : 0 <= n -> forallb isdigit (print_u n) = true.
Proof. intros Hn. apply Is_true_eq_true, print_digits_all; done. Qed.

Lemma scan_digits_app s1 s2 a b :
  forallb isdigit s1 = true -> scan_digits (s1 ++ s2) a b = scan_digits s2 (scan_digits s1 a b).1 (scan_digits s1 a b).2.
Proof.
  revert a b. induction s1 as [|c s1 IH]; intros a b Hd; [done|]. cbn in *. apply andb_prop in Hd as [Hc Hd].
  unfold isdigit in Hc. destruct (digit c); [|done]. by apply IH.
Qed.
Lemma scan_digits_grows s a b : 0 <= a -> a <= (scan_digits s a b).1.
Proof.
  revert a b. induction s as [|c s IH]; intros a b Ha; cbn; [lia|]. destruct (digit c) as [d|] eqn:Ed; cbn; [|lia].
  assert (0 <= d) by (unfold digit in Ed; destruct (_ && _) eqn:E; [|done]; injection Ed as <-; apply andb_prop in E as [E _]; apply Nat.leb_le in E; lia).
  specialize (IH (10 * a + d) true). lia.
Qed.
Lemma scan_int_digits s :
  forallb isdigit s = true -> scan_int s = match s with [] => None | _ => Some (scan_digits s 0 false).1 end.
Proof.
  intros Hd. assert (Hs : forallb wordchar s).
  { apply Is_true_true, forallb_forall. intros c Hc. rewrite forallb_forall in Hd. apply Is_true_true, isdigit_wordchar. by rewrite (Hd c Hc). }
  unfold scan_int. rewrite word_no_nul by done. rewrite word_no_space by done.
  destruct s as [|c s]; [done|]. cbn in Hd. apply andb_prop in Hd as [Hc _]. unfold isdigit in Hc.
  assert (E : match c :: s with "-"%char :: s' => (true, s') | "+"%char :: s' => (false, s') | _ => (false, c :: s) end = (false, c :: s)).
  { destruct c as [[][][][][][][][]]; done. }
  rewrite E. cbn [scan_digits]. destruct (digit c) as [d|]; [|done].
  assert (H : forall s a, (scan_digits s a true).2 = true). { intros s'. induction s' as [|x s' IH]; intros a; cbn; [done|]. by destruct (digit x). }
  specialize (H s (10 * 0 + d)). destruct (scan_digits s _ true) as [v b]. cbn in H. by subst b.
Qed.
(** What is left of a number when its text is cut. *)
Lemma atoi_prefix n k : 0 <= n <= INT_MAX -> 0 <= atoi (take k (print_u n)) <= n /\ ((length (print_u n) <= k)%nat -> atoi (take k (print_u n)) = n).
Proof.
  intros Hn. pose proof (print_u_all_digits n ltac:(lia)) as Hd. pose proof (scan_print_u n ltac:(lia)) as Hv.
  rewrite <- (take_drop k (print_u n)) in Hd, Hv. rewrite forallb_app in Hd. apply andb_prop in Hd as [Hd1 Hd2].
  rewrite (scan_digits_app _ _ _ _ Hd1) in Hv.
  pose proof (scan_digits_grows (take k (print_u n)) 0 false ltac:(lia)) as Hg0.
  pose proof (scan_digits_grows (drop k (print_u n)) _ (scan_digits (take k (print_u n)) 0 false).2 Hg0) as Hg. rewrite Hv in Hg. cbn in Hg.
  assert (E : atoi (take k (print_u n)) = (scan_digits (take k (print_u n)) 0 false).1).
  { unfold atoi. rewrite scan_int_digits by done. destruct (take k (print_u n)) as [|c s] eqn:Et; [done|]. rewrite <- Et in *.
    set (z := (scan_digits _ _ _).1) in *. unfold clamp_long, wrap32, INT_MAX in *. rewrite Z.min_r, Z.max_r by lia. rewrite Z.mod_small; lia. }
  rewrite E. split; [done|]. intros Hk. rewrite drop_ge in Hv by done. by apply (f_equal fst) in Hv.
Qed.

Lemma getline_line n line more :
  forallb (fun c => negb (ceqb c LF)) line = true -> (length line < n)%nat ->
  getline n (mkIstream (line ++ LF :: more) false false) = (line, mkIstream more false false).
Proof.
  intros Hl Hn. unfold getline. cbn [eofbit failbit orb rest]. rewrite (span_all _ line (LF :: more)); [|by rewrite Hl|done].
  rewrite (proj2 (Nat.leb_gt _ _)) by done. done.
Qed.
Lemma getline_last n line :
  forallb (fun c => negb (ceqb c LF)) line = true -> (length line < n)%nat ->
  getline n (mkIstream line false false) = (line, mkIstream [] true (bool_decide (line = []))).
Proof.
  intros Hl Hn. unfold getline. cbn [eofbit failbit orb rest]. pose proof (span_all (fun c => negb (ceqb c LF)) line [] ltac:(by rewrite Hl) I) as E.
  rewrite app_nil_r in E. rewrite E, (proj2 (Nat.leb_gt _ _)) by done. done.
Qed.
Lemma digits_no_newline s : forallb isdigit s = true -> forallb (fun c => negb (ceqb c LF)) s = true.
Proof.
  rewrite !forallb_forall. intros Hd c Hc. specialize (Hd c Hc). unfold ceqb. apply negb_true_iff, bool_decide_eq_false. by intros ->.
Qed.
Lemma digits_take s k : forallb isdigit s = true -> forallb isdigit (take k s) = true.
Proof. rewrite <- (take_drop k s) at 1. rewrite forallb_app. by intros [? _]%andb_prop. Qed.

(** C30 (roundtrip): the version file.  What save() writes is read back by load() as the same gid and logical clock.
    When only the first [k] bytes of it get into the file, load() either fails (no more than the gid was
    written) or finds the gid and a clock that is not later than the one that was saved. *)
Theorem version_file_roundtrip v k c :
  version_ok v ->
  let '(loaded, gid, clock) := load_text (take k (version_text v)) c in
  (loaded = true <-> (length (print_d (m_gid v)) < k)%nat) /\
  (loaded = true -> gid = m_gid v /\ 0 <= clock <= m_logicalClock v) /\
  ((length (version_text v) <= k)%nat -> clock = m_logicalClock v).
Proof.
  intros [Hg Hc]. unfold version_text, print_d. rewrite !(proj2 (Z.ltb_ge _ _)) by lia.
  pose proof (print_u_all_digits _ (proj1 Hg)) as Dg. pose proof (print_u_all_digits _ (proj1 Hc)) as Dc.
  pose proof (print_int_length _ Hg) as Lg. pose proof (print_int_length _ Hc) as Lc.
  set (D1 := print_u (m_gid v)) in *. set (D2 := print_u (m_logicalClock v)) in *. unfold load_text.
  destruct (decide (length D1 < k)%nat) as [Hk|Hk].
  - rewrite take_app. rewrite take_ge by lia. replace (k - length D1)%nat with (S (k - length D1 - 1)) by lia. cbn [take].
    rewrite getline_line by (done || by apply digits_no_newline). cbn [eofbit].
    rewrite getline_last; [|by apply digits_no_newline, digits_take|rewrite length_take; lia].
    assert (Eg : atoi D1 = m_gid v).
    { destruct (atoi_prefix (m_gid v) (length D1) Hg) as [_ E]. fold D1 in E. rewrite take_ge in E by lia. by apply E. }
    destruct (atoi_prefix (m_logicalClock v) (k - length D1 - 1) Hc) as [B E]. fold D2 in B, E.
    split_and!; [done|done|]. intros Hl. apply E. rewrite length_app in Hl. cbn in Hl. lia.
  - rewrite take_app_le by lia. rewrite getline_last; [|by apply digits_no_newline, digits_take|rewrite length_take; lia]. cbn [eofbit].
    split_and!; [split; [done|lia]|done|]. intros Hl. rewrite length_app in Hl. cbn in Hl. lia.
Qed.

(** ** A transfer that succeeds *)

Lemma rename_succeeds sys from to f st w :
  (forall es, io_succeeds sys es = true) -> files w !! from = Some f ->
  exists w', rename sys from to st w = Returns true st w' /\ files w' = <[to := f]> (delete from (files w)).
Proof. intros Hio Hf. unfold rename, rbind, world, act, change_world, rret. cbn. rewrite Hf, Hio. by eexists. Qed.
Lemma safeRotate_succeeds sys path ext f st w :
  (forall es, io_succeeds sys es = true) -> files w !! temporaryFilePath path ext = Some f ->
  exists w', safeRotateFile sys path ext st w = Returns true st w' /\ files w' = <[path := f]> (delete (temporaryFilePath path ext) (files w)).
Proof.
  intros Hio Hf. destruct (rename_succeeds sys _ path f st w Hio Hf) as (w' & E & Hw'). exists w'. split; [|done].
  unfold safeRotateFile, safeManipulateFile, rotateFile, IO_RETRY_TIMES. cbn [manipulate]. unfold rbind. by rewrite E.
Qed.
(** synchronize( false ) on files that are there: the version is the one of the version file. *)
Lemma synchronize_loads sys gid clock fv fs st w :
  let v := m_myVersion st in
  (forall es, io_succeeds sys es = true) -> v_stateFilePath v <> [] -> v_versionFilePath v <> [] ->
  files w !! v_versionFilePath v = Some fv -> files w !! v_stateFilePath v = Some fs ->
  load_text (content fv) (-1) = (true, gid, clock) -> 0 <= gid -> 0 <= clock ->
  exists st' w', synchronize sys false st w = Returns false st' w' /\ files w' = files w /\ m_myVersion st' = with_numbers gid clock v /\
    m_downloadTransfererMetadata st' = m_downloadTransfererMetadata st /\ m_state st' = m_state st.
Proof.
  intros v Hio Hs Hv Hfv Hfs Hl Hg Hc. unfold synchronize. unfold rbind at 1, self at 1. fold v.
  rewrite !bool_decide_eq_false_2 by done. cbn [andb negb REPLICATION_ASSERT]. unfold rbind at 1, rret at 1.
  unfold load, load_into, read_file, rbind, self, world, act, change_world, rret. cbn [done files set_field]. fold v. cbn.
  rewrite Hfv, Hio. cbn. rewrite Hl. cbn. rewrite !(proj2 (Z.leb_le _ _)) by done. cbn.
  unfold createFile, stat, set_version, update, now, rbind, world, act, change_world, rret. cbn. repeat (rewrite ?Hfs, ?Hio; cbn).
  destruct (Z.leb_spec (st_mtime fs) (m_lastModifiedTime st)); eexists _, _; (split; [reflexivity|done]).
Qed.

(** When the transferer that downloads has succeeded, and the renames succeed, the files it
    fetched take the places of the version file and the state file, the daemon has the version it
    fetched, and it may download again. *)
Theorem download_installs sys pid fv fs gid clock st w :
  let v := m_myVersion st in
  let ext := extension pid DOWNLOADING_TEMPORARY_FILES_EXTENSION in
  (forall es, io_succeeds sys es = true) ->
  v_versionFilePath v = m_versionFilePath st -> v_stateFilePath v = m_stateFilePath st -> m_state st <> VERSION_DOWNLOADING ->
  m_versionFilePath st <> [] -> m_stateFilePath st <> [] -> m_versionFilePath st <> m_stateFilePath st ->
  m_versionFilePath st <> temporaryFilePath (m_stateFilePath st) ext ->
  files w !! temporaryFilePath (m_versionFilePath st) ext = Some fv -> files w !! temporaryFilePath (m_stateFilePath st) ext = Some fs ->
  load_text (content fv) (-1) = (true, gid, clock) -> 0 <= gid -> 0 <= clock ->
  exists st' w', downloadReplicaTransfererReaper sys pid (ExitCode 0) st w = Returns true st' w' /\
    files w' !! m_versionFilePath st = Some fv /\ files w' !! m_stateFilePath st = Some fs /\
    m_gid (m_myVersion st') = gid /\ m_logicalClock (m_myVersion st') = clock /\
    downloadTransferersNumber st' = 0 /\ m_state st' = m_state st.
Proof.
  intros v ext Hio Ev Es Hst Hv Hs Hne Hnt Hfv Hfs Hl Hg Hc.
  assert (Ht : temporaryFilePath (m_versionFilePath st) ext <> temporaryFilePath (m_stateFilePath st) ext).
  { unfold temporaryFilePath. intros E. by apply app_inj_2 in E as [E _]. }
  set (st1 := st <| m_downloadTransfererMetadata := unset |>).
  destruct (safeRotate_succeeds sys (m_versionFilePath st) ext fv st1 w Hio Hfv) as (w1 & E1 & F1).
  destruct (safeRotate_succeeds sys (m_stateFilePath st) ext fs st1 w1 Hio) as (w2 & E2 & F2).
  { rewrite F1, lookup_insert_ne, lookup_delete_ne by done. done. }
  assert (L1 : files w2 !! m_versionFilePath st = Some fv).
  { rewrite F2, lookup_insert_ne, lookup_delete_ne, F1, lookup_insert_eq by done. done. }
  assert (L2 : files w2 !! m_stateFilePath st = Some fs) by (rewrite F2; apply lookup_insert_eq).
  destruct (synchronize_loads sys gid clock fv fs st1 w2) as (st3 & w3 & E3 & F3 & V3 & M3 & S3); cbn [m_myVersion st1] in *; try done.
  { change (v_stateFilePath v <> []). by rewrite Es. }
  { change (v_versionFilePath v <> []). by rewrite Ev. }
  { change (files w2 !! v_versionFilePath v = Some fv). by rewrite Ev. }
  { change (files w2 !! v_stateFilePath v = Some fs). by rewrite Es. }
  exists st3, w3. split.
  - unfold downloadReplicaTransfererReaper, abstract_downloadReaper, rbind at 1 2 3 4 5 6, update at 1, self at 1 2. cbn [negb succeeded].
    fold ext st1. cbv zeta. change (m_versionFilePath st1) with (m_versionFilePath st). rewrite E1. cbn [negb].
    change (m_stateFilePath st1) with (m_stateFilePath st). rewrite E2. cbn [negb].
    unfold rbind. rewrite E3. cbn. rewrite S3, bool_decide_eq_false_2 by done. done.
  - rewrite F3, V3, S3. unfold downloadTransferersNumber. rewrite M3. split_and!; done.
Qed.
