(* ===== verification/CondorId.v ===== *)
(** Job identifiers: condor_utils/condor_id.cpp and condor_id.h, and the hash function of
    condor_utils/read_multiple_logs.cpp.  Compare() is a total order, reverse_bits() reverses
    the 32 bits of a word. *)

From S2P Require Import Prelude.

Open Scope Z_scope.

Record CondorID := mkCondorID { _cluster : Z; _proc : Z; _subproc : Z }.

#[export] Instance CondorID_eq_dec : EqDecision CondorID.
Proof. solve_decision. Defined.
#[export] Instance CondorID_countable : Countable CondorID.
Proof.
  apply (inj_countable' (fun i => (_cluster i, _proc i, _subproc i))
    (fun p => mkCondorID p.1.1 p.1.2 p.2)). by intros [].
Defined.

Definition compare (a b : Z) : Z := if a =? b then 0 else if b <? a then 1 else -1.

Definition Compare (x y : CondorID) : Z :=
  let result := compare (_cluster x) (_cluster y) in
  let result := if result =? 0 then compare (_proc x) (_proc y) else result in
  if result =? 0 then compare (_subproc x) (_subproc y) else result.

(** [None] is the NULL pointer. *)
Definition ServiceDataCompare (lhs rhs : option CondorID) : Z :=
  match lhs, rhs with
  | Some _, None => -1
  | None, None => 0
  | None, Some _ => -1
  | Some x, Some y => Compare x y
  end.

(** The loop of reverse_bits() on a 32-bit unsigned int; it turns at most 31 times. *)
Fixpoint reverse_loop (fuel : nat) (x y high_zeros : Z) : Z * Z :=
  match fuel with
  | O => (y, high_zeros)
  | S fuel' =>
      if x =? 0 then (y, high_zeros)
      else reverse_loop fuel' (Z.shiftr x 1)
             (Z.lor (wrapu32 (Z.shiftl y 1)) (Z.land x 1)) (high_zeros - 1)
  end.
Definition reverse_bits (x : Z) : Z :=
  let '(y, high_zeros) := reverse_loop 32 (Z.shiftr x 1) x 31 in
  wrapu32 (Z.shiftl y high_zeros).

Definition HashFn (i : CondorID) : Z :=
  let a := wrapu32 (_cluster i) in
  let b := wrapu32 (_proc i) in
  let c := wrapu32 (_subproc i) in
  let c := wrapu32 (wrapu32 (Z.shiftl c 16) + Z.shiftr c 16) in
  wrapu32 (a + reverse_bits b + c).

(** ReadMultipleUserLogs::hashFuncJobID() *)
Definition hashFuncJobID (key : CondorID) : Z :=
  let result := Z.lxor (Z.lxor (wrap32 (_cluster key * 29)) (wrap32 (_proc key * 7))) (_subproc key) in
  let result := if result <? 0 then wrap32 (- result) else result in
  wrapu32 result.

(** ** Compare() *)

(** The lexicographic order on the three numbers. *)
Definition id_lt (x y : CondorID) : Prop :=
  _cluster x < _cluster y \/ (_cluster x = _cluster y /\
    (_proc x < _proc y \/ (_proc x = _proc y /\ _subproc x < _subproc y))).

Lemma compare_spec a b :
  (a < b /\ compare a b = -1) \/ (a = b /\ compare a b = 0) \/ (b < a /\ compare a b = 1).
Proof. unfold compare. destruct (Z.eqb_spec a b), (Z.ltb_spec b a); lia. Qed.

Lemma Compare_spec x y :
  (id_lt x y /\ Compare x y = -1) \/ (x = y /\ Compare x y = 0) \/ (id_lt y x /\ Compare x y = 1).
Proof.
  destruct x as [x1 x2 x3], y as [y1 y2 y3]. unfold Compare, id_lt; simpl.
  destruct (compare_spec x1 y1) as [[? ->]|[[-> ->]|[? ->]]]; simpl; [lia| |lia].
  destruct (compare_spec x2 y2) as [[? ->]|[[-> ->]|[? ->]]]; simpl; [lia| |lia].
  destruct (compare_spec x3 y3) as [[? ->]|[[-> ->]|[? ->]]]; [lia| |lia]. auto.
Qed.

Lemma id_lt_trans x y z : id_lt x y -> id_lt y z -> id_lt x z.
Proof. unfold id_lt. lia. Qed.
Lemma id_lt_irrefl x : ~ id_lt x x.
Proof. unfold id_lt. lia. Qed.

(** CondorID::Compare() is a total order on job identifiers: it is zero exactly on
    equal ones (so operator== is equality), antisymmetric, and transitive. *)
Theorem Compare_total_order (x y z : CondorID) :
  (Compare x y = 0 <-> x = y) /\ Compare y x = - Compare x y /\
  (Compare x y <= 0 /\ Compare y z <= 0 -> Compare x z <= 0) /\ -1 <= Compare x y <= 1.
Proof.
  split; [|split; [|split]].
  - destruct (Compare_spec x y) as [[H1 ->]|[[-> ->]|[H1 ->]]]; [|done|]; split; try lia;
      intros ->; by apply id_lt_irrefl in H1.
  - destruct (Compare_spec x y) as [[H1 ->]|[[E1 ->]|[H1 ->]]], (Compare_spec y x) as [[H2 ->]|[[E2 ->]|[H2 ->]]];
      subst; try lia; exfalso; eapply id_lt_irrefl; eauto using id_lt_trans.
  - intros [Hxy Hyz]. destruct (Compare_spec x z) as [[_ ->]|[[_ ->]|[H3 _]]]; [lia..|].
    destruct (Compare_spec x y) as [[H1 _]|[[-> _]|[_ E]]]; [| |lia];
      (destruct (Compare_spec y z) as [[H2 _]|[[-> _]|[_ E]]]; [| |lia]);
      exfalso; eapply id_lt_irrefl; eauto using id_lt_trans.
  - destruct (Compare_spec x y) as [[_ ->]|[[_ ->]|[_ ->]]]; lia.
Qed.

(** ** reverse_bits() *)

Lemma wrapu32_testbit z i : 0 <= i -> Z.testbit (wrapu32 z) i = (i <? 32) && Z.testbit z i.
Proof.
  intros Hi. unfold wrapu32. destruct (Z.ltb_spec i 32).
  - by rewrite Z.mod_pow2_bits_low by lia.
  - by rewrite Z.mod_pow2_bits_high by lia.
Qed.

(** After [j] turns: the low [j] bits hold bits 1 to [j] reversed, above them is the word. *)
Definition reversed (x0 y j : Z) : Prop :=
  forall i, 0 <= i < 32 -> Z.testbit y i = Z.testbit x0 (if i <? j then j - i else i - j).

Lemma reverse_step x0 y j :
  0 <= j < 31 -> reversed x0 y j ->
  reversed x0 (Z.lor (wrapu32 (Z.shiftl y 1)) (Z.land (Z.shiftr x0 (j + 1)) 1)) (j + 1).
Proof.
  intros Hj Hr i Hi. rewrite Z.lor_spec, wrapu32_testbit by lia.
  rewrite (proj2 (Z.ltb_lt i 32)) by lia. simpl. rewrite Z.shiftl_spec by lia.
  rewrite Z.land_spec.
  destruct (Z.eq_dec i 0) as [->|Hi0].
  - rewrite Z.testbit_neg_r, Z.shiftr_spec by lia. rewrite (proj2 (Z.ltb_lt 0 (j + 1))) by lia.
    change (Z.testbit 1 0) with true. rewrite andb_true_r. simpl. f_equal; lia.
  - replace (Z.testbit 1 i) with false by (symmetry; apply Z.bits_above_log2; simpl; lia).
    rewrite andb_false_r, orb_false_r by lia. rewrite Hr by lia. f_equal.
    destruct (Z.ltb_spec (i - 1) j), (Z.ltb_spec i (j + 1)); lia.
Qed.

Lemma reverse_loop_spec fuel x0 y j :
  0 <= x0 < 2 ^ 32 -> 0 <= j <= 31 -> Z.of_nat fuel = 32 - j -> reversed x0 y j ->
  exists y' j', reverse_loop fuel (Z.shiftr x0 (j + 1)) y (31 - j) = (y', 31 - j') /\
    0 <= j' <= 31 /\ reversed x0 y' j' /\ Z.shiftr x0 (j' + 1) = 0.
Proof.
  intros Hx. revert y j. induction fuel as [|fuel IH]; intros y j Hj Hf Hr; [lia|].
  cbn [reverse_loop]. destruct (Z.eqb_spec (Z.shiftr x0 (j + 1)) 0) as [He|He].
  { exists y, j. done. }
  assert (Hj31 : j <> 31).
  { intros ->. apply He. rewrite Z.shiftr_div_pow2 by lia. apply Z.div_small. lia. }
  rewrite Z.shiftr_shiftr by lia. replace (31 - j - 1) with (31 - (j + 1)) by lia.
  apply IH; [lia|lia|]. apply reverse_step; [lia|done].
Qed.

(** Reverse_bits() of a 32-bit word is the word with its bits in the opposite
    order: bit [i] of the result is bit [31 - i] of the argument. *)
Theorem reverse_bits_spec x i :
  0 <= x < 2 ^ 32 -> 0 <= i < 32 -> Z.testbit (reverse_bits x) i = Z.testbit x (31 - i).
Proof.
  intros Hx Hi. unfold reverse_bits.
  destruct (reverse_loop_spec 32 x x 0 Hx) as (y & j & Hl & Hj & Hr & Hz); [lia|lia| |].
  { intros k Hk. rewrite (proj2 (Z.ltb_ge k 0)) by lia. f_equal. lia. }
  change (0 + 1) with 1 in Hl. change (31 - 0) with 31 in Hl. rewrite Hl. rewrite wrapu32_testbit by lia.
  rewrite (proj2 (Z.ltb_lt i 32)) by lia. cbn [andb]. rewrite Z.shiftl_spec by lia.
  destruct (Z.lt_ge_cases i (31 - j)).
  - rewrite Z.testbit_neg_r by lia. symmetry.
    replace (31 - i) with ((31 - i - (j + 1)) + (j + 1)) by lia.
    rewrite <- Z.shiftr_spec by lia. by rewrite Hz, Z.bits_0.
  - rewrite Hr by lia. f_equal. destruct (Z.ltb_spec (i - (31 - j)) j); lia.
Qed.
