(* ===== verification/CheckEvents.v ===== *)
(** Consistency checks on user log events: condor_utils/check_events.cpp and check_events.h,
    used by DAGMan on every event it reads.

    The checker keeps, in a hash table keyed by the job id, how many events of each kind it has
    seen.  The table holds pointers, so a counter is changed in place ([HT.modify]).  The counters
    are mathematical integers: one would need 2^31 events of a job to wrap around. *)

From S2P Require Import Prelude HashTable CondorId.

Open Scope Z_scope.

(** ** Events (condor_event.h) *)

Definition ULOG_SUBMIT : Z := 0.
Definition ULOG_EXECUTE : Z := 1.
Definition ULOG_EXECUTABLE_ERROR : Z := 2.
Definition ULOG_JOB_TERMINATED : Z := 5.
Definition ULOG_JOB_ABORTED : Z := 9.
Definition ULOG_POST_SCRIPT_TERMINATED : Z := 16.

Record ULogEvent := mkEvent { eventNumber : Z; cluster : Z; proc : Z; subproc : Z }.
Definition event_id (e : ULogEvent) : CondorID := mkCondorID (cluster e) (proc e) (subproc e).

(** ** The checker *)

Inductive check_event_result_t := EVENT_OKAY | EVENT_BAD_EVENT | EVENT_ERROR | EVENT_WARNING.

#[export] Instance check_event_result_eq_dec : EqDecision check_event_result_t.
Proof. solve_decision. Defined.

Definition ALLOW_NONE : Z := 0.
Definition ALLOW_ALMOST_ALL : Z := Z.shiftl 1 0.
Definition ALLOW_TERM_ABORT : Z := Z.shiftl 1 1.
Definition ALLOW_RUN_AFTER_TERM : Z := Z.shiftl 1 2.
Definition ALLOW_GARBAGE : Z := Z.shiftl 1 3.
Definition ALLOW_EXEC_BEFORE_SUBMIT : Z := Z.shiftl 1 4.
Definition ALLOW_DOUBLE_TERMINATE : Z := Z.shiftl 1 5.
Definition ALLOW_DUPLICATE_EVENTS : Z := Z.shiftl 1 6.

Record JobInfo := mkInfo {
  submitCount : Z;
  errorCount : Z;
  abortCount : Z;
  termCount : Z;
  postScriptCount : Z
}.
Definition new_JobInfo : JobInfo := mkInfo 0 0 0 0 0.
Definition TotalEndCount (i : JobInfo) : Z := abortCount i + termCount i.

Definition noSubmitId : CondorID := mkCondorID (-1) 0 0.

Section checks.
Variable allowEvents : Z.

Definition allows (flag : Z) : bool := negb (Z.land allowEvents flag =? 0).
Definition AllowAlmostAll : bool := allows ALLOW_ALMOST_ALL.
Definition AllowExtraAborts : bool := allows ALLOW_ALMOST_ALL || allows ALLOW_TERM_ABORT.
Definition AllowExtraRuns : bool := allows ALLOW_RUN_AFTER_TERM.
Definition AllowGarbage : bool := allows ALLOW_ALMOST_ALL || allows ALLOW_GARBAGE.
Definition AllowExecSubmit : bool := allows ALLOW_ALMOST_ALL || allows ALLOW_EXEC_BEFORE_SUBMIT.
Definition AllowDoubleTerm : bool := allows ALLOW_ALMOST_ALL || allows ALLOW_DOUBLE_TERMINATE.
Definition AllowDuplicates : bool := allows ALLOW_ALMOST_ALL || allows ALLOW_DUPLICATE_EVENTS.

(** The error message and the result, both passed by reference. *)
Definition report : Type := bytes * check_event_result_t.

Definition complain (bad : bool) (msg : bytes) (r : check_event_result_t) (x : report) : report :=
  if bad then (msg, r) else x.
Definition counted (idStr text : bytes) (n : Z) : bytes := idStr ++ text ++ print_d n ++ s2b ")".

Definition CheckJobSubmit (idStr : bytes) (info : JobInfo) (x : report) : report :=
  let x := complain (negb (submitCount info =? 1))
             (counted idStr (s2b " submitted, submit count != 1 (") (submitCount info))
             (if AllowDuplicates then EVENT_BAD_EVENT else EVENT_ERROR) x in
  complain (negb (TotalEndCount info =? 0))
    (counted idStr (s2b " submitted, total end count != 0 (") (TotalEndCount info))
    (if AllowExecSubmit then EVENT_BAD_EVENT else EVENT_ERROR) x.

Definition CheckJobExecute (idStr : bytes) (info : JobInfo) (x : report) : report :=
  let x := complain (submitCount info <? 1)
             (counted idStr (s2b " executing, submit count < 1 (") (submitCount info))
             (if AllowExecSubmit || AllowGarbage then EVENT_WARNING else EVENT_ERROR) x in
  complain (negb (TotalEndCount info =? 0))
    (counted idStr (s2b " executing, total end count != 0 (") (TotalEndCount info))
    (if AllowExtraRuns then EVENT_BAD_EVENT else EVENT_ERROR) x.

Definition CheckJobEnd (idStr : bytes) (info : JobInfo) (x : report) : report :=
  let x := complain (submitCount info <? 1)
             (counted idStr (s2b " ended, submit count < 1 (") (submitCount info))
             (if AllowExecSubmit || (AllowGarbage && (submitCount info <=? 1))
              then EVENT_WARNING else EVENT_ERROR) x in
  let x := complain (negb (TotalEndCount info =? 1))
             (counted idStr (s2b " ended, total end count != 1 (") (TotalEndCount info))
             (if AllowExtraAborts && (abortCount info =? 1) && (termCount info =? 1) then EVENT_BAD_EVENT
              else if AllowDoubleTerm && (termCount info =? 2) then EVENT_BAD_EVENT
              else if AllowExtraRuns then EVENT_BAD_EVENT
              else if AllowDuplicates then EVENT_BAD_EVENT
              else EVENT_ERROR) x in
  complain (negb (postScriptCount info =? 0))
    (counted idStr (s2b " ended, post script count != 0 (") (postScriptCount info))
    (if AllowDuplicates then EVENT_BAD_EVENT else EVENT_ERROR) x.

(** The POST script of a node whose submit attempts all failed. *)
Definition no_submit (id : CondorID) (info : JobInfo) : bool :=
  bool_decide (noSubmitId = id) && (submitCount info =? 0) && (termCount info =? 0) &&
  (1 <=? postScriptCount info).

Definition CheckPostTerm (idStr : bytes) (id : CondorID) (info : JobInfo) (x : report) : report :=
  if no_submit id info then x
  else
    let x := complain (submitCount info <? 1)
               (counted idStr (s2b " post script ended, submit count < 1 (") (submitCount info))
               (if AllowDuplicates || (AllowGarbage && (submitCount info <=? 1))
                then EVENT_BAD_EVENT else EVENT_ERROR) x in
    let x := complain (TotalEndCount info <? 1)
               (counted idStr (s2b " post script ended, total end count < 1 (") (TotalEndCount info))
               (if AllowAlmostAll then EVENT_BAD_EVENT else EVENT_ERROR) x in
    complain (1 <? postScriptCount info)
      (counted idStr (s2b " post script ended, post script count > 1 (") (postScriptCount info))
      (if AllowDuplicates || AllowGarbage then EVENT_BAD_EVENT else EVENT_ERROR) x.

Definition CheckJobFinal (idStr : bytes) (id : CondorID) (info : JobInfo) (x : report) : report :=
  if no_submit id info then x
  else if negb (_subproc id =? 0) then x
  else
    let x := complain (negb (submitCount info =? 1))
               (counted idStr (s2b " ended, submit count != 1 (") (submitCount info))
               (if AllowAlmostAll || (AllowGarbage && (submitCount info <=? 1))
                then EVENT_BAD_EVENT else EVENT_ERROR) x in
    let x := complain (negb (TotalEndCount info =? 1))
               (counted idStr (s2b " ended, total end count != 1 (") (TotalEndCount info))
               (if AllowExtraAborts && (abortCount info =? 1) && (termCount info =? 1) then EVENT_BAD_EVENT
                else if AllowDoubleTerm && (termCount info =? 2) then EVENT_BAD_EVENT
                else if AllowExtraRuns then EVENT_BAD_EVENT
                else if AllowGarbage && (TotalEndCount info =? 0) then EVENT_BAD_EVENT
                else if AllowDuplicates then EVENT_BAD_EVENT
                else EVENT_ERROR) x in
    complain (1 <? postScriptCount info)
      (counted idStr (s2b " ended, post script count > 1 (") (postScriptCount info))
      (if AllowDuplicates || AllowGarbage then EVENT_BAD_EVENT else EVENT_ERROR) x.

(** The switch of CheckAnEvent(): the counters, then the checks. *)
Definition count_event (n : Z) (i : JobInfo) : JobInfo :=
  if n =? ULOG_SUBMIT then
    mkInfo (submitCount i + 1) (errorCount i) (abortCount i) (termCount i) (postScriptCount i)
  else if n =? ULOG_EXECUTABLE_ERROR then
    mkInfo (submitCount i) (errorCount i + 1) (abortCount i) (termCount i) (postScriptCount i)
  else if n =? ULOG_JOB_ABORTED then
    mkInfo (submitCount i) (errorCount i) (abortCount i + 1) (termCount i) (postScriptCount i)
  else if n =? ULOG_JOB_TERMINATED then
    mkInfo (submitCount i) (errorCount i) (abortCount i) (termCount i + 1) (postScriptCount i)
  else if n =? ULOG_POST_SCRIPT_TERMINATED then
    mkInfo (submitCount i) (errorCount i) (abortCount i) (termCount i) (postScriptCount i + 1)
  else i.
Definition check_event (n : Z) (idStr : bytes) (id : CondorID) (i : JobInfo) (x : report) : report :=
  if n =? ULOG_SUBMIT then CheckJobSubmit idStr i x
  else if n =? ULOG_EXECUTE then CheckJobExecute idStr i x
  else if (n =? ULOG_JOB_ABORTED) || (n =? ULOG_JOB_TERMINATED) then CheckJobEnd idStr i x
  else if n =? ULOG_POST_SCRIPT_TERMINATED then CheckPostTerm idStr id i x
  else x.
End checks.

Record CheckEvents := mkCheck {
  jobHash : HT.HashTable CondorID JobInfo;
  allowEvents : Z
}.

Definition new_CheckEvents (allow : Z) : CheckEvents :=
  mkCheck (HT.initialize HT.rejectDuplicateKeys) allow.
Definition SetAllowEvents (c : CheckEvents) (a : Z) : CheckEvents := mkCheck (jobHash c) a.

Definition id_string (id : CondorID) : bytes :=
  s2b "BAD EVENT: job (" ++ print_d (_cluster id) ++ s2b "." ++ print_d (_proc id) ++ s2b "." ++
  print_d (_subproc id) ++ s2b ")".

Definition CheckAnEvent (c : CheckEvents) (event : ULogEvent) : CheckEvents * report :=
  let id := event_id event in
  let '(t, rc) :=
    match HT.lookup hashFuncJobID (jobHash c) id with
    | Some _ => (jobHash c, 0)
    | None => HT.insert hashFuncJobID (jobHash c) id new_JobInfo
    end in
  if negb (rc =? 0) then (mkCheck t (allowEvents c), (s2b "EVENT ERROR: hash table insert error", EVENT_ERROR))
  else
    let t := HT.modify hashFuncJobID t id (count_event (eventNumber event)) in
    let info := default new_JobInfo (HT.lookup hashFuncJobID t id) in
    (mkCheck t (allowEvents c),
     check_event (allowEvents c) (eventNumber event) (id_string id) id info ([], EVENT_OKAY)).

Definition MAX_MSG_LEN : Z := 1024.

(** One turn of the loop of CheckAllJobs(): the message, whether it is full, the result. *)
Definition check_all_step (allow : Z) (s : bytes * bool * check_event_result_t)
    (ji : CondorID * JobInfo) : bytes * bool * check_event_result_t :=
  let '(errorMsg, msgFull, result) := s in
  let '(id, info) := ji in
  let '(errorMsg, msgFull) :=
    if negb msgFull && (MAX_MSG_LEN <? Z.of_nat (length errorMsg))
    then (errorMsg ++ s2b " ...", true) else (errorMsg, msgFull) in
  let '(tmpMsg, result) := CheckJobFinal allow (id_string id) id info ([], result) in
  let errorMsg :=
    if negb (bool_decide (tmpMsg = [])) && negb msgFull
    then (match errorMsg with [] => [] | _ => errorMsg ++ s2b "; " end) ++ tmpMsg
    else errorMsg in
  (errorMsg, msgFull, result).

(** The jobs in the order jobHash.iterate() returns them. *)
Definition all_jobs (t : HT.HashTable CondorID JobInfo) : list (CondorID * JobInfo) :=
  match HT.drain (S (Z.to_nat (HT.numElems t))) (HT.startIterations t) with
  | Some (l, _) => l
  | None => []
  end.
Definition CheckAllJobs (c : CheckEvents) : CheckEvents * report :=
  let '(errorMsg, _, result) :=
    foldl (check_all_step (allowEvents c)) ([], false, EVENT_OKAY) (all_jobs (jobHash c)) in
  (mkCheck (HT.startIterations (jobHash c)) (allowEvents c), (errorMsg, result)).

Definition ResultToString (r : check_event_result_t) : bytes :=
  match r with
  | EVENT_OKAY => s2b "EVENT_OKAY"
  | EVENT_BAD_EVENT => s2b "EVENT_BAD_EVENT"
  | EVENT_ERROR => s2b "EVENT_ERROR"
  | EVENT_WARNING => s2b "Bad result value!!!!"
  end.

(** ** The checker over a map *)

Definition job_info (m : gmap CondorID JobInfo) (id : CondorID) : JobInfo := default new_JobInfo (m !! id).

Record checker (c : CheckEvents) (m : gmap CondorID JobInfo) : Prop := {
  ck_wf : HT.wf hashFuncJobID (jobHash c);
  ck_unique : HT.unique (jobHash c);
  ck_reject : HT.duplicateKeyBehavior (jobHash c) = HT.rejectDuplicateKeys;
  ck_map : HT.to_map (jobHash c) = m
}.

Lemma new_checker allow : checker (new_CheckEvents allow) ∅.
Proof.
  destruct (HT.initialize_wf hashFuncJobID (Value:=JobInfo) HT.rejectDuplicateKeys) as (? & ? & _).
  by split.
Qed.

(** CheckAnEvent() counts the event in the entry of its job, which it creates if need be, and
    reports what the checks say of the new counts. *)
Lemma CheckAnEvent_map c m e :
  checker c m ->
  let info := count_event (eventNumber e) (job_info m (event_id e)) in
  let '(c', x) := CheckAnEvent c e in
  checker c' (<[event_id e := info]> m) /\ allowEvents c' = allowEvents c /\
  x = check_event (allowEvents c) (eventNumber e) (id_string (event_id e)) (event_id e) info ([], EVENT_OKAY).
Proof.
  intros [Hwf Hu Hr Hm]. unfold CheckAnEvent. set (id := event_id e). set (g := count_event (eventNumber e)).
  assert (Hent : exists t, match HT.lookup hashFuncJobID (jobHash c) id with
      | Some _ => (jobHash c, 0)
      | None => HT.insert hashFuncJobID (jobHash c) id new_JobInfo end = (t, 0) /\
    HT.wf hashFuncJobID t /\ HT.unique t /\ HT.duplicateKeyBehavior t = HT.rejectDuplicateKeys /\
    HT.to_map t = <[id := job_info m id]> m).
  { rewrite HT.lookup_to_map, Hm by done. unfold job_info. destruct (m !! id) as [i|] eqn:Hid.
    - exists (jobHash c). simpl. split_and!; [done..|]. by rewrite insert_id.
    - pose proof (HT.insert_spec hashFuncJobID (jobHash c) id new_JobInfo Hwf Hu) as Hi.
      destruct (HT.insert _ _ _ _) as [t rc]. destruct Hi as (? & ? & _ & Hd & Hi); [congruence|].
      rewrite Hm, Hid, bool_decide_false in Hi by (intros [_ []]; done). destruct Hi as [? ->].
      exists t. split_and!; [done..|congruence|done]. }
  destruct Hent as (t & -> & Hwt & Hut & Hdt & Hmt). simpl.
  destruct (HT.modify_spec hashFuncJobID t id g Hwt Hut) as (Hw' & Hu' & Hm').
  rewrite HT.lookup_to_map, Hm', Hmt, alter_insert_eq, lookup_insert_eq by done. simpl.
  split_and!; [|done..]. split; simpl; [done..| |by rewrite Hm', Hmt, alter_insert_eq].
  unfold HT.modify. by destruct (_ =? _).
Qed.

(** Feeding a sequence of events. *)
Fixpoint check_run (c : CheckEvents) (es : list ULogEvent) : CheckEvents * list check_event_result_t :=
  match es with
  | [] => (c, [])
  | e :: es' => let '(c1, (_, r)) := CheckAnEvent c e in
                let '(c2, rs) := check_run c1 es' in (c2, r :: rs)
  end.

(** ** The life of a job *)

Inductive life := Unsubmitted | Submitted | Ended | Posted.

#[export] Instance life_eq_dec : EqDecision life.
Proof. solve_decision. Defined.

(** Submitted once, executed any number of times, ended once, its POST script run at most once. *)
Definition life_step (s : life) (n : Z) : option life :=
  if n =? ULOG_SUBMIT then match s with Unsubmitted => Some Submitted | _ => None end
  else if n =? ULOG_EXECUTE then match s with Submitted => Some Submitted | _ => None end
  else if (n =? ULOG_JOB_ABORTED) || (n =? ULOG_JOB_TERMINATED)
  then match s with Submitted => Some Ended | _ => None end
  else if n =? ULOG_POST_SCRIPT_TERMINATED then match s with Ended => Some Posted | _ => None end
  else Some s.
Fixpoint life_run (s : life) (ns : list Z) : option life :=
  match ns with
  | [] => Some s
  | n :: ns' => match life_step s n with Some s' => life_run s' ns' | None => None end
  end.

(** The counts of a job at a point of its life. *)
Definition lives (i : JobInfo) (s : life) : Prop :=
  0 <= abortCount i /\ 0 <= termCount i /\
  match s with
  | Unsubmitted => submitCount i = 0 /\ TotalEndCount i = 0 /\ postScriptCount i = 0
  | Submitted => submitCount i = 1 /\ TotalEndCount i = 0 /\ postScriptCount i = 0
  | Ended => submitCount i = 1 /\ TotalEndCount i = 1 /\ postScriptCount i = 0
  | Posted => submitCount i = 1 /\ TotalEndCount i = 1 /\ postScriptCount i = 1
  end.

Lemma allows_none flag : allows ALLOW_NONE flag = false.
Proof. unfold allows, ALLOW_NONE. by rewrite Z.land_0_l. Qed.
Lemma complain_okay bad msg r m0 :
  r <> EVENT_OKAY -> (complain bad msg r (m0, EVENT_OKAY)).2 = EVENT_OKAY <-> bad = false.
Proof. intros Hr. destruct bad; simpl; [|done]. split; [by intros ->|done]. Qed.

(** The result of a chain of complaints is OKAY iff none was made. *)
Lemma complain_chain bad msg r x :
  r <> EVENT_OKAY -> (complain bad msg r x).2 = EVENT_OKAY <-> bad = false /\ x.2 = EVENT_OKAY.
Proof. intros Hr. destruct bad; simpl; [|tauto]. split; [by intros ->|by intros []]. Qed.

Lemma submit_okay allow s i x :
  (CheckJobSubmit allow s i x).2 = EVENT_OKAY <->
  x.2 = EVENT_OKAY /\ submitCount i = 1 /\ TotalEndCount i = 0.
Proof.
  unfold CheckJobSubmit. rewrite !complain_chain by (by repeat case_match).
  rewrite !negb_false_iff, !Z.eqb_eq. tauto.
Qed.
Lemma execute_okay allow s i x :
  (CheckJobExecute allow s i x).2 = EVENT_OKAY <->
  x.2 = EVENT_OKAY /\ 1 <= submitCount i /\ TotalEndCount i = 0.
Proof.
  unfold CheckJobExecute. rewrite !complain_chain by (by repeat case_match).
  rewrite negb_false_iff, Z.eqb_eq, Z.ltb_ge. tauto.
Qed.
Lemma end_okay allow s i x :
  (CheckJobEnd allow s i x).2 = EVENT_OKAY <->
  x.2 = EVENT_OKAY /\ 1 <= submitCount i /\ TotalEndCount i = 1 /\ postScriptCount i = 0.
Proof.
  unfold CheckJobEnd. rewrite !complain_chain by (by repeat case_match).
  rewrite !negb_false_iff, !Z.eqb_eq, Z.ltb_ge. tauto.
Qed.
Lemma post_okay allow s id i x :
  (CheckPostTerm allow s id i x).2 = EVENT_OKAY <->
  x.2 = EVENT_OKAY /\ (no_submit id i = true \/
    (1 <= submitCount i /\ 1 <= TotalEndCount i /\ postScriptCount i <= 1)).
Proof.
  unfold CheckPostTerm. destruct (no_submit id i); [tauto|].
  rewrite !complain_chain by (by repeat case_match). rewrite !Z.ltb_ge. naive_solver.
Qed.
Lemma final_okay allow s id i x :
  (CheckJobFinal allow s id i x).2 = EVENT_OKAY <->
  x.2 = EVENT_OKAY /\ (no_submit id i = true \/ _subproc id <> 0 \/
    (submitCount i = 1 /\ TotalEndCount i = 1 /\ postScriptCount i <= 1)).
Proof.
  unfold CheckJobFinal. destruct (no_submit id i); [tauto|].
  destruct (Z.eqb_spec (_subproc id) 0) as [Hs|Hs]; simpl; [|tauto].
  rewrite !complain_chain by (by repeat case_match).
  rewrite !negb_false_iff, !Z.eqb_eq, Z.ltb_ge. naive_solver.
Qed.

(** One event of a job: the checks accept it iff the life of the job allows it. *)
Lemma check_event_life allow n idStr id i s :
  id <> noSubmitId -> lives i s ->
  match life_step s n with
  | Some s' => (check_event allow n idStr id (count_event n i) ([], EVENT_OKAY)).2 = EVENT_OKAY /\
               lives (count_event n i) s'
  | None => (check_event allow n idStr id (count_event n i) ([], EVENT_OKAY)).2 <> EVENT_OKAY
  end.
Proof.
  intros Hid Hl. unfold life_step, check_event.
  assert (Hns : forall j, no_submit id j = false).
  { intros j. unfold no_submit. by rewrite bool_decide_false. }
  destruct (Z.eqb_spec n ULOG_SUBMIT) as [->|H1].
  { unfold count_event. simpl. destruct s; simpl; rewrite submit_okay; unfold lives, TotalEndCount in *; simpl in *; lia || naive_solver lia. }
  destruct (Z.eqb_spec n ULOG_EXECUTE) as [->|H2].
  { unfold count_event. simpl. destruct s; simpl; rewrite execute_okay; unfold lives, TotalEndCount in *; simpl in *; naive_solver lia. }
  destruct (Z.eqb_spec n ULOG_JOB_ABORTED) as [->|H3].
  { unfold count_event. simpl. destruct s; simpl; rewrite end_okay; unfold lives, TotalEndCount in *; simpl in *; naive_solver lia. }
  destruct (Z.eqb_spec n ULOG_JOB_TERMINATED) as [->|H4].
  { unfold count_event. simpl. destruct s; simpl; rewrite end_okay; unfold lives, TotalEndCount in *; simpl in *; naive_solver lia. }
  simpl. destruct (Z.eqb_spec n ULOG_POST_SCRIPT_TERMINATED) as [->|H5].
  { unfold count_event. simpl. destruct s; simpl; rewrite post_okay, Hns; unfold lives, TotalEndCount in *; simpl in *; naive_solver lia. }
  split; [done|]. unfold count_event.
  rewrite (proj2 (Z.eqb_neq n ULOG_SUBMIT)), (proj2 (Z.eqb_neq n ULOG_JOB_ABORTED)),
    (proj2 (Z.eqb_neq n ULOG_JOB_TERMINATED)), (proj2 (Z.eqb_neq n ULOG_POST_SCRIPT_TERMINATED)) by done.
  by destruct (n =? ULOG_EXECUTABLE_ERROR).
Qed.

(** The event numbers of one job. *)
Definition events_of (id : CondorID) (es : list ULogEvent) : list Z :=
  eventNumber <$> filter (fun e => event_id e = id) es.

Definition all_okay (rs : list check_event_result_t) : Prop := Forall (fun r => r = EVENT_OKAY) rs.

Lemma lives_new : lives new_JobInfo Unsubmitted.
Proof. done. Qed.

Lemma events_of_cons id e es :
  events_of id (e :: es) = if decide (event_id e = id) then eventNumber e :: events_of id es else events_of id es.
Proof. unfold events_of. rewrite filter_cons. by case_decide. Qed.

(** A run from any point of the lives of the jobs. *)
Lemma check_run_life es c m (life_of : CondorID -> life) :
  checker c m -> (forall id, lives (job_info m id) (life_of id)) ->
  Forall (fun e => event_id e <> noSubmitId) es ->
  (all_okay (check_run c es).2 <-> forall id, is_Some (life_run (life_of id) (events_of id es))) /\
  (all_okay (check_run c es).2 ->
   exists m', checker (check_run c es).1 m' /\
     (forall id s, life_run (life_of id) (events_of id es) = Some s -> lives (job_info m' id) s) /\
     (forall id, is_Some (m' !! id) <-> is_Some (m !! id) \/ id ∈ event_id <$> es)).
Proof.
  revert c m life_of. induction es as [|e es IH]; intros c m life_of Hc Hl Hns.
  { simpl. split; [split; [by eauto|constructor]|]. intros _. exists m. split_and!; [done| |].
    - intros id s [= <-]. apply Hl.
    - set_solver. }
  apply Forall_cons in Hns as [Hne Hns]. simpl.
  pose proof (CheckAnEvent_map c m e Hc) as Hs. destruct (CheckAnEvent c e) as [c1 [msg r]].
  destruct Hs as (Hc1 & Hal & Hx). set (id0 := event_id e) in *. set (info := count_event _ _) in *.
  pose proof (check_event_life (allowEvents c) (eventNumber e) (id_string id0) id0 (job_info m id0)
    (life_of id0) Hne (Hl id0)) as Hlf. fold info in Hlf. rewrite <- Hx in Hlf. simpl in Hlf.
  destruct (life_step (life_of id0) (eventNumber e)) as [s'|] eqn:Hst.
  - destruct Hlf as [-> Hlv].
    set (life_of' := fun id => if decide (id0 = id) then s' else life_of id).
    assert (Hl' : forall id, lives (job_info (<[id0:=info]> m) id) (life_of' id)).
    { intros id. unfold job_info, life_of'. rewrite lookup_insert. case_decide; [done|apply Hl]. }
    assert (Hrun : forall id, life_run (life_of id) (events_of id (e :: es)) =
                              life_run (life_of' id) (events_of id es)).
    { intros id. rewrite events_of_cons. fold id0. unfold life_of'. case_decide; [|done].
      subst id. simpl. by rewrite Hst. }
    destruct (IH c1 _ life_of' Hc1 Hl' Hns) as [Hiff Hex].
    destruct (check_run c1 es) as [c2 rs]. simpl in *. split.
    + unfold all_okay. rewrite Forall_cons. setoid_rewrite Hrun. unfold all_okay in Hiff. tauto.
    + intros [_ Hok]%Forall_cons. destruct (Hex Hok) as (m' & Hc' & Hm' & Hd).
      exists m'. split_and!; [done| |].
      * intros id s. rewrite Hrun. apply Hm'.
      * intros id. rewrite Hd, lookup_insert_is_Some. simpl. rewrite elem_of_cons. fold id0.
        destruct (decide (id0 = id)); naive_solver.
  - destruct (check_run c1 es) as [c2 rs]. simpl. split.
    + split.
      * intros [-> _]%Forall_cons. done.
      * intros Hall. destruct (Hall id0) as [s Hs]. rewrite events_of_cons, decide_True in Hs by done.
        simpl in Hs. by rewrite Hst in Hs.
    + by intros [-> _]%Forall_cons.
Qed.

Lemma run_new allow es :
  Forall (fun e => event_id e <> noSubmitId) es ->
  let r := check_run (new_CheckEvents allow) es in
  (all_okay r.2 <-> forall id, is_Some (life_run Unsubmitted (events_of id es))) /\
  (all_okay r.2 -> exists m', checker r.1 m' /\
     (forall id s, life_run Unsubmitted (events_of id es) = Some s -> lives (job_info m' id) s) /\
     (forall id, is_Some (m' !! id) <-> id ∈ event_id <$> es)).
Proof.
  intros Hns. destruct (check_run_life es (new_CheckEvents allow) ∅ (fun _ => Unsubmitted) (new_checker allow)
    (fun id => lives_new) Hns) as [Hiff Hex].
  split; [done|]. intros Hok. destruct (Hex Hok) as (m' & ? & ? & Hd). exists m'. split_and!; [done..|].
  intros id. rewrite Hd, lookup_empty. split; [|by right]. intros [[? [=]]|?]; done.
Qed.

(** C31 (refinement): the checker, whatever events it is told to tolerate, calls all the events of a log
    EVENT_OKAY exactly when the events of every job, taken out of the interleaving, describe the life of
    a job: one submit, then any number of executions, then one termination or abort, then at most one
    POST script; other events, executable errors among them, may occur anywhere and end nothing,
    although check_events.h counts an executable error as an end. No event has the id that the checker
    reserves for POST scripts of nodes whose submit failed (noSubmitId). *)
Theorem events_okay_iff_lifecycle allow es :
  Forall (fun e => event_id e <> noSubmitId) es ->
  all_okay (check_run (new_CheckEvents allow) es).2 <->
  forall id, is_Some (life_run Unsubmitted (events_of id es)).
Proof. intros Hns. apply (run_new allow es Hns). Qed.

Lemma check_all_fold allow l msg full r :
  (foldl (check_all_step allow) (msg, full, r) l).2 = EVENT_OKAY <->
  r = EVENT_OKAY /\ Forall (fun ji => no_submit ji.1 ji.2 = true \/ _subproc ji.1 <> 0 \/
    (submitCount ji.2 = 1 /\ TotalEndCount ji.2 = 1 /\ postScriptCount ji.2 <= 1)) l.
Proof.
  revert msg full r. induction l as [|[id i] l IH]; intros msg full r; cbn [foldl]; [rewrite Forall_nil; simpl; tauto|].
  unfold check_all_step at 2. pose proof (final_okay allow (id_string id) id i ([], r)) as Hf.
  destruct (CheckJobFinal allow (id_string id) id i ([], r)) as [tmp r'].
  destruct (negb full && _); rewrite IH, Forall_cons; simpl in *; tauto.
Qed.

Lemma CheckAllJobs_okay c m :
  checker c m ->
  (CheckAllJobs c).2.2 = EVENT_OKAY <->
  map_Forall (fun id i => no_submit id i = true \/ _subproc id <> 0 \/
    (submitCount i = 1 /\ TotalEndCount i = 1 /\ postScriptCount i <= 1)) m.
Proof.
  intros [Hwf Hu Hr Hm]. unfold CheckAllJobs, all_jobs. rewrite (HT.drain_all hashFuncJobID) by done.
  destruct (foldl _ _ _) as [[msg full] r] eqn:Hf. simpl.
  pose proof (check_all_fold (allowEvents c) (HT.entries (jobHash c)) [] false EVENT_OKAY) as Hc.
  rewrite Hf in Hc. simpl in Hc. rewrite Hc, Forall_forall. rewrite <- Hm. unfold HT.to_map. split.
  - intros [_ Hall] id i Hi. apply (Hall (id, i)). by apply elem_of_list_to_map_2.
  - intros Hall. split; [done|]. intros [id i] Hi. apply (Hall id i).
    apply elem_of_list_to_map; [|done]. rewrite HT.fst_entries. apply Hu.
Qed.

(** After a log of which every event was okay, CheckAllJobs() reports EVENT_OKAY
    exactly when every job seen (parallel-universe nodes apart) has ended. *)
Theorem all_jobs_okay_iff_ended allow es :
  Forall (fun e => event_id e <> noSubmitId) es ->
  all_okay (check_run (new_CheckEvents allow) es).2 ->
  (CheckAllJobs (check_run (new_CheckEvents allow) es).1).2.2 = EVENT_OKAY <->
  forall id, id ∈ event_id <$> es -> _subproc id = 0 ->
    life_run Unsubmitted (events_of id es) = Some Ended \/
    life_run Unsubmitted (events_of id es) = Some Posted.
Proof.
  intros Hns Hok. destruct (run_new allow es Hns) as [Hiff Hex].
  destruct (Hex Hok) as (m & Hc & Hlv & Hd). rewrite (CheckAllJobs_okay _ m Hc).
  assert (Hnosub : forall id i, id ∈ event_id <$> es -> no_submit id i = false).
  { intros id i (e & -> & He)%list_elem_of_fmap. rewrite Forall_forall in Hns. unfold no_submit.
    rewrite bool_decide_false; [done|]. intros Heq. by apply (Hns e He). }
  split.
  - intros Hall id Hid Hsub. destruct (proj1 Hiff Hok id) as [s Hs].
    destruct (proj2 (Hd id) Hid) as [i Hi]. specialize (Hlv id s Hs). unfold job_info in Hlv. rewrite Hi in Hlv.
    destruct (Hall id i Hi) as [Hn|[?|?]]; [by rewrite Hnosub in Hn|done|]. rewrite Hs.
    simpl in Hlv. destruct s; unfold lives in Hlv; (left; reflexivity) || (right; reflexivity) || lia.
  - intros Hall id i Hi. assert (Hid : id ∈ event_id <$> es) by (apply Hd; eauto).
    destruct (decide (_subproc id = 0)) as [Hsub|]; [|by right; left]. right; right.
    destruct (Hall id Hid Hsub) as [Hs|Hs]; specialize (Hlv id _ Hs); unfold job_info in Hlv;
      rewrite Hi in Hlv; unfold lives in Hlv; simpl in Hlv; lia.
Qed.

(** ** Tolerance *)

Section tolerance.
Variables a1 a2 : Z.
(** Every flag of [a1] is in [a2]. *)
Hypothesis Hsub : Z.land a1 a2 = a1.

Lemma allows_mono flag : allows a1 flag = true -> allows a2 flag = true.
Proof.
  unfold allows. rewrite !negb_true_iff, !Z.eqb_neq. intros H1 H2. apply H1.
  rewrite <- Hsub, <- Z.land_assoc, H2. apply Z.land_0_r.
Qed.

(** A complaint that is an error for [a2] is one for [a1]. *)
Lemma complain_mono bad msg r1 r2 x1 x2 :
  (r2 = EVENT_ERROR -> r1 = EVENT_ERROR) -> (x2.2 = EVENT_ERROR -> x1.2 = EVENT_ERROR) ->
  (complain bad msg r2 x2).2 = EVENT_ERROR -> (complain bad msg r1 x1).2 = EVENT_ERROR.
Proof. intros Hr Hx. by destruct bad. Qed.

Ltac flag_mono :=
  unfold AllowAlmostAll, AllowExtraRuns, AllowExtraAborts, AllowGarbage, AllowExecSubmit,
    AllowDoubleTerm, AllowDuplicates;
  repeat match goal with |- context [allows a1 ?f] =>
    let H := fresh in pose proof (allows_mono f) as H;
    destruct (allows a1 f), (allows a2 f); try discriminate (H eq_refl); clear H; simpl; try done
  end;
  repeat case_match; done.

Lemma check_event_mono n s id i x :
  (check_event a2 n s id i x).2 = EVENT_ERROR -> (check_event a1 n s id i x).2 = EVENT_ERROR.
Proof.
  unfold check_event. destruct (n =? ULOG_SUBMIT).
  { unfold CheckJobSubmit. repeat apply complain_mono; try done; flag_mono. }
  destruct (n =? ULOG_EXECUTE).
  { unfold CheckJobExecute. repeat apply complain_mono; try done; flag_mono. }
  destruct (_ || _).
  { unfold CheckJobEnd. repeat apply complain_mono; try done; flag_mono. }
  destruct (_ =? _); [|done]. unfold CheckPostTerm. destruct (no_submit id i); [done|].
  repeat apply complain_mono; try done; flag_mono.
Qed.
End tolerance.

(** Tolerance is monotone.  Two checkers that have seen the same events, the second
    one allowing at least what the first allows: an event the second calls EVENT_ERROR is an
    EVENT_ERROR for the first; adding flags never turns a tolerated event into an error. *)
Theorem tolerance_monotone c1 c2 m e :
  checker c1 m -> checker c2 m -> Z.land (allowEvents c1) (allowEvents c2) = allowEvents c1 ->
  (CheckAnEvent c2 e).2.2 = EVENT_ERROR -> (CheckAnEvent c1 e).2.2 = EVENT_ERROR.
Proof.
  intros H1 H2 Hsub. pose proof (CheckAnEvent_map c1 m e H1) as E1. pose proof (CheckAnEvent_map c2 m e H2) as E2.
  destruct (CheckAnEvent c1 e) as [c1' x1], (CheckAnEvent c2 e) as [c2' x2].
  destruct E1 as (_ & _ & ->), E2 as (_ & _ & ->). by apply check_event_mono.
Qed.

Lemma almost_all_check a n s id i x :
  allows a ALLOW_ALMOST_ALL = true -> allows a ALLOW_RUN_AFTER_TERM = false -> x.2 = EVENT_OKAY ->
  (check_event a n s id i x).2 = EVENT_ERROR <-> n = ULOG_EXECUTE /\ TotalEndCount i <> 0.
Proof.
  intros Ha Hr Hx. assert (Hx' : x.2 <> EVENT_ERROR) by (rewrite Hx; done).
  unfold check_event, CheckJobSubmit, CheckJobExecute, CheckJobEnd, CheckPostTerm,
    AllowAlmostAll, AllowExtraRuns, AllowExtraAborts, AllowGarbage, AllowExecSubmit,
    AllowDoubleTerm, AllowDuplicates. rewrite Ha, Hr. simpl.
  assert (Hn : forall y, y <> ULOG_EXECUTE -> (y = ULOG_EXECUTE /\ TotalEndCount i <> 0) <-> False) by naive_solver.
  destruct (Z.eqb_spec n ULOG_SUBMIT) as [->|].
  { rewrite Hn by done. unfold complain. by repeat case_match. }
  destruct (Z.eqb_spec n ULOG_EXECUTE) as [->|].
  { unfold complain. destruct (Z.eqb_spec (TotalEndCount i) 0); simpl; [|naive_solver].
    destruct (submitCount i <? 1); simpl; naive_solver. }
  rewrite Hn by done. destruct (_ || _); [unfold complain; by repeat case_match|].
  destruct (_ =? _); [|done]. destruct (no_submit id i); [done|]. unfold complain. by repeat case_match.
Qed.

(** With ALLOW_ALMOST_ALL, and without ALLOW_RUN_AFTER_TERM, the only event that
    is an EVENT_ERROR is an execute event of a job that has already terminated or aborted. *)
Theorem almost_all_rejects_only_reruns c m e :
  checker c m -> allows (allowEvents c) ALLOW_ALMOST_ALL = true ->
  allows (allowEvents c) ALLOW_RUN_AFTER_TERM = false ->
  (CheckAnEvent c e).2.2 = EVENT_ERROR <->
  eventNumber e = ULOG_EXECUTE /\ TotalEndCount (job_info m (event_id e)) <> 0.
Proof.
  intros Hc Ha Hr. pose proof (CheckAnEvent_map c m e Hc) as He. destruct (CheckAnEvent c e) as [c' x].
  destruct He as (_ & _ & ->). cbn [snd]. rewrite almost_all_check by done.
  split; intros [Hn Ht]; (split; [done|]); rewrite Hn in *; exact Ht.
Qed.

(** CheckAllJobs() returns the verdict on the last bad job the iteration meets, not the
    worst one: with ALLOW_TERM_ABORT, a job that was submitted twice (an error) followed by one
    that was both terminated and aborted (tolerated) gives EVENT_BAD_EVENT; the first job alone
    gives EVENT_ERROR. *)
Theorem check_all_jobs_masks_error :
  let twice j := [mkEvent ULOG_SUBMIT j 0 0; mkEvent ULOG_SUBMIT j 0 0; mkEvent ULOG_JOB_TERMINATED j 0 0] in
  let spurious j := [mkEvent ULOG_SUBMIT j 0 0; mkEvent ULOG_JOB_TERMINATED j 0 0; mkEvent ULOG_JOB_ABORTED j 0 0] in
  let verdict es := (CheckAllJobs (check_run (new_CheckEvents ALLOW_TERM_ABORT) es).1).2.2 in
  verdict (twice 7) = EVENT_ERROR /\ verdict (twice 7 ++ spurious 1) = EVENT_BAD_EVENT.
Proof. vm_compute. done. Qed.
