(* ===== verification/PriorityList.v ===== *)
(** Priority lists: condor_utils/prioritysimplelist.h, with the array list it extends
    (condor_utils/simplelist.h) and its binary search (condor_utils/binary_search.h).  DAGMan
    keeps the nodes that are ready to be submitted in such a list.

    The arrays of the class are lists of [size] elements; growing them by doubling is not visible.
    The main result is that the insertion points found by binary search and scanning are those of
    stable insertion into a list sorted by priority. *)

From S2P Require Import Prelude.

Open Scope Z_scope.

(** ** BinarySearch::Search *)

(** The while loop: the key is found at an index, or belongs at one.  Every turn shortens the
    interval, so that [length array] turns are enough ([search_spec]). *)
Fixpoint search_loop (fuel : nat) (array : list Z) (key low high : Z) : bool * Z :=
  match fuel with
  | O => (false, low)
  | S fuel' =>
      if high <? low then (false, low)
      else
        let mid := low + (high - low) / 2 in
        match array !! Z.to_nat mid with
        | None => (false, low)
        | Some midVal =>
            if midVal <? key then search_loop fuel' array key (mid + 1) high
            else if key <? midVal then search_loop fuel' array key low (mid - 1)
            else (true, mid)
        end
  end.
Definition Search (array : list Z) (key : Z) : bool * Z :=
  search_loop (length array) array key 0 (Z.of_nat (length array) - 1).

Section PriorityList.
Context {A : Type} `{EqDecision A}.

(** [current] is the position of the scan, -1 after Rewind(). *)
Record PrioritySimpleList := mkPList {
  items : list A;
  priorities : list Z;
  current : Z
}.

Definition new_PrioritySimpleList : PrioritySimpleList := mkPList [] [] (-1).

Definition Number (l : PrioritySimpleList) : Z := Z.of_nat (length (items l)).
Definition IsEmpty (l : PrioritySimpleList) : bool := Number l =? 0.
Definition IsMember (l : PrioritySimpleList) (x : A) : bool := existsb (fun y => bool_decide (y = x)) (items l).

(** [for ( ; index >= 0; index-- ) if ( priorities[index] < priority ) break;] then [index++],
    where [n] is [index + 1]. *)
Fixpoint scan_before (n : nat) (ps : list Z) (priority : Z) : Z :=
  match n with
  | O => 0
  | S i => match ps !! i with
           | Some p => if p <? priority then Z.of_nat n else scan_before i ps priority
           | None => Z.of_nat n
           end
  end.
Definition FindInsertBefore (l : PrioritySimpleList) (priority : Z) : Z :=
  match priorities l with
  | [] => 0
  | p0 :: _ =>
      if priority <=? p0 then 0
      else
        let '(found, index) := Search (priorities l) priority in
        if found then scan_before (S (Z.to_nat index)) (priorities l) priority else index
  end.

(** [for ( ; index < size; index++ ) if ( priorities[index] > priority ) break;] *)
Fixpoint scan_after (ps : list Z) (index priority : Z) : Z :=
  match ps with
  | [] => index
  | p :: ps' => if priority <? p then index else scan_after ps' (index + 1) priority
  end.
Definition FindInsertAfter (l : PrioritySimpleList) (priority : Z) : Z :=
  match last (priorities l) with
  | None => Number l
  | Some p =>
      if p <=? priority then Number l
      else
        let '(found, index) := Search (priorities l) priority in
        if found then scan_after (drop (Z.to_nat index) (priorities l)) index priority else index
  end.

(** Everything from [index] on moves back one slot; the scan position stays. *)
Definition InsertAt (l : PrioritySimpleList) (index : Z) (item : A) (prio : Z) : PrioritySimpleList :=
  let i := Z.to_nat index in
  mkPList (take i (items l) ++ item :: drop i (items l))
    (take i (priorities l) ++ prio :: drop i (priorities l)) (current l).

Definition Append (l : PrioritySimpleList) (item : A) (prio : Z) : PrioritySimpleList :=
  InsertAt l (FindInsertAfter l prio) item prio.
Definition Prepend (l : PrioritySimpleList) (item : A) (prio : Z) : PrioritySimpleList :=
  InsertAt l (FindInsertBefore l prio) item prio.

(** ** Scans *)

Definition Rewind (l : PrioritySimpleList) : PrioritySimpleList := mkPList (items l) (priorities l) (-1).

Definition Next (l : PrioritySimpleList) : PrioritySimpleList * option A :=
  if Number l - 1 <=? current l then (l, None)
  else (mkPList (items l) (priorities l) (current l + 1), items l !! Z.to_nat (current l + 1)).

Definition DeleteCurrent (l : PrioritySimpleList) : PrioritySimpleList :=
  if (Number l <=? current l) || (current l <? 0) then l
  else
    let i := Z.to_nat (current l) in
    mkPList (delete i (items l)) (delete i (priorities l)) (current l - 1).

(** Delete(): [i] is the index of the loop, [n] the number of elements not looked at. *)
Fixpoint delete_loop (n i : nat) (l : PrioritySimpleList) (item : A) (delete_all found_it : bool)
  : PrioritySimpleList * bool :=
  match n with
  | O => (l, found_it)
  | S n' =>
      if bool_decide (items l !! i = Some item) then
        let l' := mkPList (delete i (items l)) (delete i (priorities l))
                    (if Z.of_nat i <=? current l then current l - 1 else current l) in
        if delete_all then delete_loop n' i l' item delete_all true else (l', true)
      else delete_loop n' (S i) l item delete_all found_it
  end.
Definition Delete (l : PrioritySimpleList) (item : A) (delete_all : bool) : PrioritySimpleList * bool :=
  delete_loop (length (items l)) 0 l item delete_all false.

End PriorityList.
Arguments PrioritySimpleList : clear implicits.

(** ** Binary search *)

(** Sorted lowest to highest. *)
Definition ascending (ps : list Z) : Prop :=
  forall i j x y, (i <= j)%nat -> ps !! i = Some x -> ps !! j = Some y -> x <= y.

(** Where a key can be inserted: everything before is smaller, everything from there on greater
    (or equal, on the side where [le] allows it). *)
Definition splits (ps : list Z) (n : nat) (before after : Z -> Prop) : Prop :=
  (n <= length ps)%nat /\ Forall before (take n ps) /\ Forall after (drop n ps).

Lemma splits_lookup ps n (P Q : Z -> Prop) :
  (n <= length ps)%nat ->
  (forall i x, (i < n)%nat -> ps !! i = Some x -> P x) ->
  (forall i x, (n <= i)%nat -> ps !! i = Some x -> Q x) -> splits ps n P Q.
Proof.
  intros Hn HP HQ. split; [done|]. split; apply Forall_lookup_2; intros i x.
  - intros Hi. apply lookup_take_Some in Hi as [Hi ?]. eauto.
  - rewrite lookup_drop. intros Hi. apply (HQ (n + i)%nat); [lia|done].
Qed.

Lemma search_loop_spec fuel ps key low high :
  ascending ps -> 0 <= low -> high < Z.of_nat (length ps) -> low <= high + 1 ->
  high - low < Z.of_nat fuel ->
  (forall i x, Z.of_nat i < low -> ps !! i = Some x -> x < key) ->
  (forall i x, high < Z.of_nat i -> ps !! i = Some x -> key < x) ->
  match search_loop fuel ps key low high with
  | (true, index) => 0 <= index /\ ps !! Z.to_nat index = Some key
  | (false, index) => 0 <= index /\ splits ps (Z.to_nat index) (fun x => x < key) (fun x => key < x)
  end.
Proof.
  intros Hs. revert low high. induction fuel as [|fuel IH]; intros low high Hl Hh Hlh Hf Hlo Hhi.
  { simpl. split; [done|]. apply splits_lookup; [lia| |]; intros i x Hi; [apply Hlo|apply Hhi]; lia. }
  cbn [search_loop]. destruct (Z.ltb_spec high low) as [Hlt|Hge].
  { split; [done|]. apply splits_lookup; [lia| |]; intros i x Hi; [apply Hlo|apply Hhi]; lia. }
  set (mid := low + (high - low) / 2).
  assert (Hmid : low <= mid <= high).
  { pose proof (Z.div_pos (high - low) 2). pose proof (Z.div_le_upper_bound (high - low) 2 (high - low)). lia. }
  assert (Hk : (Z.to_nat mid < length ps)%nat) by lia.
  apply lookup_lt_is_Some in Hk as [midVal Hmv]. rewrite Hmv.
  destruct (Z.ltb_spec midVal key) as [Hlt|Hge'].
  { apply IH; [lia..| |done]. intros i x Hi Hx. assert (x <= midVal) by (eapply Hs; [|done|done]; lia). lia. }
  destruct (Z.ltb_spec key midVal) as [Hlt|Hge''].
  { apply IH; [lia..|done|]. intros i x Hi Hx. assert (midVal <= x) by (eapply Hs; [|done|done]; lia). lia. }
  split; [lia|]. rewrite Hmv. f_equal. lia.
Qed.

Lemma Search_spec ps key :
  ascending ps ->
  match Search ps key with
  | (true, index) => 0 <= index /\ ps !! Z.to_nat index = Some key
  | (false, index) => 0 <= index /\ splits ps (Z.to_nat index) (fun x => x < key) (fun x => key < x)
  end.
Proof.
  intros Hs. apply search_loop_spec; [done|lia..| |].
  - lia.
  - intros i x Hi Hx. apply lookup_lt_Some in Hx. lia.
Qed.

(** ** Insertion points *)

Lemma scan_before_spec ps n p :
  ascending ps -> (n <= length ps)%nat ->
  (forall i x, (n <= i)%nat -> ps !! i = Some x -> p <= x) ->
  0 <= scan_before n ps p /\
  splits ps (Z.to_nat (scan_before n ps p)) (fun x => x < p) (fun x => p <= x).
Proof.
  intros Hs. induction n as [|n IH]; intros Hn Hhi; simpl.
  { split; [done|]. apply splits_lookup; [lia|intros; lia|done]. }
  destruct (lookup_lt_is_Some_2 ps n) as [q Hq]; [lia|]. rewrite Hq.
  destruct (Z.ltb_spec q p) as [Hlt|Hge].
  - split; [lia|]. apply splits_lookup; [lia| |].
    + intros i x Hi Hx. assert (x <= q) by (eapply Hs; [|done|done]; lia). lia.
    + intros i x Hi. apply Hhi. lia.
  - apply IH; [lia|]. intros i x Hi Hx. assert (q <= x) by (eapply Hs; [|done|done]; lia). lia.
Qed.

Lemma scan_after_spec ps k p :
  ascending ps -> (k <= length ps)%nat ->
  (forall i x, (i < k)%nat -> ps !! i = Some x -> x <= p) ->
  0 <= scan_after (drop k ps) (Z.of_nat k) p /\
  splits ps (Z.to_nat (scan_after (drop k ps) (Z.of_nat k) p)) (fun x => x <= p) (fun x => p < x).
Proof.
  intros Hs. remember (drop k ps) as tl eqn:Htl. revert k Htl.
  induction tl as [|q tl IH]; intros k Htl Hk Hlo; simpl.
  - assert (Hlen : (length ps <= k)%nat).
    { pose proof (length_drop ps k) as Hd. rewrite <- Htl in Hd. simpl in Hd. lia. }
    split; [lia|]. apply splits_lookup; [lia| |].
    + intros i x Hi. apply Hlo. lia.
    + intros i x Hi Hx. apply lookup_lt_Some in Hx. lia.
  - assert (Hq : ps !! k = Some q).
    { pose proof (lookup_drop ps k 0) as Hd. rewrite <- Htl, Nat.add_0_r in Hd. done. }
    destruct (Z.ltb_spec p q) as [Hlt|Hge].
    + split; [lia|]. apply splits_lookup; [lia| |].
      * intros i x Hi. apply Hlo. lia.
      * intros i x Hi Hx. assert (q <= x) by (eapply Hs; [|done|done]; lia). lia.
    + replace (Z.of_nat k + 1) with (Z.of_nat (S k)) by lia. apply IH.
      * rewrite (drop_S ps q k Hq) in Htl. by simplify_eq.
      * apply lookup_lt_Some in Hq. lia.
      * intros i x Hi Hx. destruct (decide (i = k)) as [->|]; [|apply (Hlo i); [lia|done]].
        rewrite Hq in Hx. by simplify_eq.
Qed.

(** ** Insertion *)

Section laws.
Context {A : Type}.
Implicit Types l : PrioritySimpleList A.

(** The two arrays have the same length and the priorities are in order. *)
Definition plist_ok l : Prop := length (items l) = length (priorities l) /\ ascending (priorities l).

(** The elements with their priorities. *)
Definition entries_by_priority l : list (A * Z) := zip (items l) (priorities l).

Lemma FindInsertBefore_spec l p :
  plist_ok l ->
  splits (priorities l) (Z.to_nat (FindInsertBefore l p)) (fun x => x < p) (fun x => p <= x).
Proof.
  intros [_ Hs]. unfold FindInsertBefore. destruct (priorities l) as [|p0 ps] eqn:Hp; [done|].
  rewrite <- Hp in Hs |- *. destruct (Z.leb_spec p p0) as [Hle|Hgt].
  - apply splits_lookup; [lia|intros; lia|]. intros i x _ Hx.
    assert (p0 <= x); [|lia]. eapply (Hs 0%nat i); [lia|by rewrite Hp|done].
  - pose proof (Search_spec (priorities l) p Hs) as Hsp.
    destruct (Search (priorities l) p) as [[] k]; destruct Hsp as [Hk Hsp].
    + apply scan_before_spec; [done|apply lookup_lt_Some in Hsp; lia|].
      intros i x Hi Hx. eapply (Hs (Z.to_nat k) i); [lia|done|done].
    + destruct Hsp as (Hn & Hb & Ha). split; [done|]. split; [done|].
      eapply Forall_impl; [apply Ha|]. simpl. lia.
Qed.

Lemma FindInsertAfter_spec l p :
  plist_ok l ->
  splits (priorities l) (Z.to_nat (FindInsertAfter l p)) (fun x => x <= p) (fun x => p < x).
Proof.
  intros [Hlen Hs]. unfold FindInsertAfter, Number. rewrite Hlen.
  destruct (last (priorities l)) as [q|] eqn:Hq.
  2: { apply last_None in Hq. rewrite Hq. by apply splits_lookup; [simpl|..]. }
  rewrite last_lookup in Hq. destruct (Z.leb_spec q p) as [Hle|Hgt].
  - apply splits_lookup; [lia| |].
    + intros i x Hi Hx. apply lookup_lt_Some in Hx as Hl.
      assert (x <= q); [|lia]. eapply (Hs i); [|done|done]. lia.
    + intros i x Hi Hx. apply lookup_lt_Some in Hx. lia.
  - pose proof (Search_spec (priorities l) p Hs) as Hsp.
    destruct (Search (priorities l) p) as [[] k]; destruct Hsp as [Hk Hsp].
    + rewrite <- (Z2Nat.id k) at 2 by done.
      apply scan_after_spec; [done|apply lookup_lt_Some in Hsp; lia|].
      intros i x Hi Hx. eapply (Hs i (Z.to_nat k)); [lia|done|done].
    + destruct Hsp as (Hn & Hb & Ha). split; [done|]. split; [|done].
      eapply Forall_impl; [apply Hb|]. simpl. lia.
Qed.

Lemma zip_insert_at l n x p :
  length (items l) = length (priorities l) ->
  entries_by_priority (InsertAt l (Z.of_nat n) x p) =
    take n (entries_by_priority l) ++ (x, p) :: drop n (entries_by_priority l).
Proof.
  intros Hl. unfold entries_by_priority, InsertAt; simpl. rewrite Nat2Z.id.
  rewrite zip_with_app by (rewrite !length_take; lia). simpl.
  by rewrite zip_with_take, zip_with_drop.
Qed.

Lemma filter_split_at (es : list (A * Z)) n (P : Z -> Prop) `{forall x, Decision (P x)} :
  Forall P (take n es.*2) -> Forall (fun x => ~ P x) (drop n es.*2) ->
  filter (fun e => P e.2) es = take n es /\ filter (fun e => ~ P e.2) es = drop n es.
Proof.
  rewrite <- fmap_take, <- fmap_drop, !Forall_fmap. intros Hb Ha.
  assert (Ht : forall ts : list (A * Z), Forall (P ∘ snd) ts ->
    filter (fun e => P e.2) ts = ts /\ filter (fun e => ~ P e.2) ts = []).
  { induction 1 as [|e ts He _ [IH1 IH2]]; [done|].
    rewrite filter_cons_True, filter_cons_False by (simpl in *; tauto). by rewrite IH1. }
  assert (Hd : forall ts : list (A * Z), Forall ((fun x => ~ P x) ∘ snd) ts ->
    filter (fun e => P e.2) ts = [] /\ filter (fun e => ~ P e.2) ts = ts).
  { induction 1 as [|e ts He _ [IH1 IH2]]; [done|].
    rewrite filter_cons_False, filter_cons_True by (simpl in *; tauto). by rewrite IH2. }
  split; rewrite <- (take_drop n es) at 1; rewrite filter_app.
  - rewrite (proj1 (Ht _ Hb)), (proj1 (Hd _ Ha)). by rewrite app_nil_r.
  - by rewrite (proj2 (Ht _ Hb)), (proj2 (Hd _ Ha)).
Qed.

Lemma snd_entries l : length (items l) = length (priorities l) -> (entries_by_priority l).*2 = priorities l.
Proof. intros Hl. unfold entries_by_priority. apply snd_zip. lia. Qed.

Lemma InsertAt_nat l k x p : InsertAt l (Z.of_nat (Z.to_nat k)) x p = InsertAt l k x p.
Proof. unfold InsertAt. by rewrite Nat2Z.id. Qed.

Lemma splits_mono ps n (P Q P' Q' : Z -> Prop) :
  splits ps n P Q -> (forall x, P x -> P' x) -> (forall x, Q x -> Q' x) -> splits ps n P' Q'.
Proof. intros (Hn & HP & HQ) H1 H2. split; [done|]. split; eapply Forall_impl; eauto. Qed.

Lemma ascending_cons p ps : ascending (p :: ps) <-> Forall (Z.le p) ps /\ ascending ps.
Proof.
  split.
  - intros Hs. split.
    + apply Forall_lookup_2. intros i x Hx. by apply (Hs 0%nat (S i)); [lia| |].
    + intros i j x y Hij Hx Hy. by apply (Hs (S i) (S j)); [lia| |].
  - intros [Hf Hs] [|i] [|j] x y Hij Hx Hy; simpl in *; simplify_eq; [lia| |lia|].
    + rewrite Forall_lookup in Hf. by eapply Hf.
    + apply (Hs i j); [lia|done|done].
Qed.

Lemma ascending_app ps qs :
  ascending (ps ++ qs) <-> ascending ps /\ ascending qs /\ Forall (fun x => Forall (Z.le x) qs) ps.
Proof.
  induction ps as [|p ps IH]; simpl.
  - split; [|by intros (_ & ? & _)]. intros ?. split; [|done]. by intros [].
  - rewrite !ascending_cons, IH, Forall_app, Forall_cons. tauto.
Qed.

Lemma ascending_insert ps n p :
  ascending ps -> splits ps n (fun x => x <= p) (fun x => p <= x) ->
  ascending (take n ps ++ p :: drop n ps).
Proof.
  intros Hs (_ & Hb & Ha). rewrite <- (take_drop n ps) in Hs.
  apply ascending_app in Hs as (H1 & H2 & H3). apply ascending_app.
  rewrite ascending_cons. split_and!; [done..|].
  rewrite Forall_forall in *. intros x Hx. constructor; eauto.
Qed.

Lemma InsertAt_ok l n x p :
  plist_ok l -> splits (priorities l) n (fun y => y <= p) (fun y => p <= y) ->
  plist_ok (InsertAt l (Z.of_nat n) x p).
Proof.
  intros [Hl Hs] Hsp. split.
  - simpl. rewrite !length_app. simpl. rewrite !length_take, !length_drop. lia.
  - simpl. rewrite Nat2Z.id. by apply ascending_insert.
Qed.

(** C35 (equivalence): inserting into a priority list with Append() or Prepend(), which find the place
    by binary search, is stable insertion: the list stays sorted by priority, Append() puts the
    element after every element of the same or a better (lower) priority, Prepend() before
    every element of the same or a worse one, and nothing else moves. *)
Theorem priority_insert_stable l x p :
  plist_ok l ->
  plist_ok (Append l x p) /\ plist_ok (Prepend l x p) /\
  entries_by_priority (Append l x p) =
    filter (fun e => e.2 <= p) (entries_by_priority l) ++ (x, p) ::
    filter (fun e => ~ e.2 <= p) (entries_by_priority l) /\
  entries_by_priority (Prepend l x p) =
    filter (fun e => e.2 < p) (entries_by_priority l) ++ (x, p) ::
    filter (fun e => ~ e.2 < p) (entries_by_priority l).
Proof.
  intros Hok. pose proof (FindInsertAfter_spec l p Hok) as Ha.
  pose proof (FindInsertBefore_spec l p Hok) as Hb. unfold Append, Prepend.
  rewrite <- (InsertAt_nat l (FindInsertAfter l p)), <- (InsertAt_nat l (FindInsertBefore l p)).
  split_and!.
  - apply InsertAt_ok; [done|]. eapply splits_mono; [apply Ha|simpl; lia..].
  - apply InsertAt_ok; [done|]. eapply splits_mono; [apply Hb|simpl; lia..].
  - rewrite zip_insert_at by apply Hok.
    destruct (filter_split_at (entries_by_priority l) (Z.to_nat (FindInsertAfter l p)) (fun y => y <= p)) as [Hf Hg];
      [rewrite snd_entries by apply Hok; apply Ha
      |rewrite snd_entries by apply Hok; eapply Forall_impl; [apply Ha|simpl; lia]|].
    f_equal; [by rewrite <- Hf|f_equal; by rewrite <- Hg].
  - rewrite zip_insert_at by apply Hok.
    destruct (filter_split_at (entries_by_priority l) (Z.to_nat (FindInsertBefore l p)) (fun y => y < p)) as [Hf Hg];
      [rewrite snd_entries by apply Hok; apply Hb
      |rewrite snd_entries by apply Hok; eapply Forall_impl; [apply Hb|simpl; lia]|].
    f_equal; [by rewrite <- Hf|f_equal; by rewrite <- Hg].
Qed.
End laws.
