(* ===== verification/DagJob.v ===== *)
(** DAGMan nodes: condor_dagman/job.cpp, job.h and script.cpp.

    A node carries the description from the DAG file, its status, its three dependency queues and
    the counters of its jobs.  A [Job*] is represented by the node's id, which the constructor
    makes unique; a [set<JobID_t>] is a [gset Z], iterated in increasing order ([ascending_ids]).
    Debug output is not modelled. *)

From S2P Require Import Prelude CondorId.
From stdpp Require Export sorting relations.

Open Scope Z_scope.

Inductive job_type_t := TYPE_CONDOR | TYPE_STORK.
Inductive queue_t := Q_PARENTS | Q_WAITING | Q_CHILDREN.
Inductive status_t :=
| STATUS_NOT_READY | STATUS_READY | STATUS_PRERUN | STATUS_SUBMITTED | STATUS_POSTRUN
| STATUS_DONE | STATUS_ERROR.

#[export] Instance job_type_eq_dec : EqDecision job_type_t.
Proof. solve_decision. Defined.
#[export] Instance status_eq_dec : EqDecision status_t.
Proof. solve_decision. Defined.

Definition status_is (s t : status_t) : bool := bool_decide (s = t).

(** class Script.  The process id is that of the last run, 0 before. *)
Record Script := mkScript {
  _post : bool;
  _cmd : bytes;
  _retValScript : Z;
  _retValJob : Z;
  _pid : Z;
  _done : bool
}.
Definition new_Script (post : bool) (cmd : bytes) : Script := mkScript post cmd (-1) (-1) 0 false.

#[export] Instance rebuild_Script : Rebuild Script :=
  fun s => mkScript (_post s) (_cmd s) (_retValScript s) (_retValJob s) (_pid s) (_done s).
#[export] Instance set_retValScript : Setter _retValScript := ltac:(solve_setter).
#[export] Instance set_retValJob : Setter _retValJob := ltac:(solve_setter).
#[export] Instance set_pid : Setter _pid := ltac:(solve_setter).
#[export] Instance set_done : Setter _done := ltac:(solve_setter).

Record Job := mkJob {
  _jobType : job_type_t;
  _jobName : bytes;
  _directory : bytes;
  _cmdFile : bytes;
  _jobID : Z;
  _Status : status_t;
  _parents : gset Z;
  _waiting : gset Z;
  _children : gset Z;
  _scriptPre : option Script;
  _scriptPost : option Script;
  _CondorID : CondorID;
  retry_max : Z;
  retries : Z;
  _submitTries : Z;
  retval : Z;
  retry_abort_val : option Z;
  abort_dag_val : option Z;
  abort_dag_return_val : option Z;
  countedAsDone : bool;
  _visited : bool;
  _dfsOrder : Z;
  varsFromDag : list (bytes * bytes);
  _queuedNodeJobProcs : Z;
  _hasNodePriority : bool;
  _nodePriority : Z;
  _timesHeld : Z;
  _jobProcsOnHold : Z;
  _isIdle : bool;
  _throttleInfo : option bytes;
  _logIsMonitored : bool;
  _noop : bool;
  _preskip : Z;
  _final : bool;
  _dagFile : option bytes;
  error_text : bytes
}.

#[export] Instance rebuild_Job : Rebuild Job := fun j =>
  mkJob (_jobType j) (_jobName j) (_directory j) (_cmdFile j) (_jobID j) (_Status j) (_parents j)
    (_waiting j) (_children j) (_scriptPre j) (_scriptPost j) (_CondorID j) (retry_max j) (retries j)
    (_submitTries j) (retval j) (retry_abort_val j) (abort_dag_val j) (abort_dag_return_val j)
    (countedAsDone j) (_visited j) (_dfsOrder j) (varsFromDag j) (_queuedNodeJobProcs j)
    (_hasNodePriority j) (_nodePriority j) (_timesHeld j) (_jobProcsOnHold j) (_isIdle j)
    (_throttleInfo j) (_logIsMonitored j) (_noop j) (_preskip j) (_final j) (_dagFile j) (error_text j).
#[export] Instance set_jobName : Setter _jobName := ltac:(solve_setter).
#[export] Instance set_directory : Setter _directory := ltac:(solve_setter).
#[export] Instance set_Status : Setter _Status := ltac:(solve_setter).
#[export] Instance set_parents : Setter _parents := ltac:(solve_setter).
#[export] Instance set_waiting : Setter _waiting := ltac:(solve_setter).
#[export] Instance set_children : Setter _children := ltac:(solve_setter).
#[export] Instance set_scriptPre : Setter _scriptPre := ltac:(solve_setter).
#[export] Instance set_scriptPost : Setter _scriptPost := ltac:(solve_setter).
#[export] Instance set_CondorID : Setter _CondorID := ltac:(solve_setter).
#[export] Instance set_retries : Setter retries := ltac:(solve_setter).
#[export] Instance set_submitTries : Setter _submitTries := ltac:(solve_setter).
#[export] Instance set_retval : Setter retval := ltac:(solve_setter).
#[export] Instance set_countedAsDone : Setter countedAsDone := ltac:(solve_setter).
#[export] Instance set_visited : Setter _visited := ltac:(solve_setter).
#[export] Instance set_dfsOrder : Setter _dfsOrder := ltac:(solve_setter).
#[export] Instance set_varsFromDag : Setter varsFromDag := ltac:(solve_setter).
#[export] Instance set_queuedNodeJobProcs : Setter _queuedNodeJobProcs := ltac:(solve_setter).
#[export] Instance set_hasNodePriority : Setter _hasNodePriority := ltac:(solve_setter).
#[export] Instance set_nodePriority : Setter _nodePriority := ltac:(solve_setter).
#[export] Instance set_timesHeld : Setter _timesHeld := ltac:(solve_setter).
#[export] Instance set_jobProcsOnHold : Setter _jobProcsOnHold := ltac:(solve_setter).
#[export] Instance set_isIdle : Setter _isIdle := ltac:(solve_setter).
#[export] Instance set_throttleInfo : Setter _throttleInfo := ltac:(solve_setter).
#[export] Instance set_logIsMonitored : Setter _logIsMonitored := ltac:(solve_setter).
#[export] Instance set_noop : Setter _noop := ltac:(solve_setter).
#[export] Instance set_preskip : Setter _preskip := ltac:(solve_setter).
#[export] Instance set_final : Setter _final := ltac:(solve_setter).
#[export] Instance set_retry_max : Setter retry_max := ltac:(solve_setter).
#[export] Instance set_retry_abort_val : Setter retry_abort_val := ltac:(solve_setter).
#[export] Instance set_abort_dag_val : Setter abort_dag_val := ltac:(solve_setter).
#[export] Instance set_abort_dag_return_val : Setter abort_dag_return_val := ltac:(solve_setter).
#[export] Instance set_dagFile : Setter _dagFile := ltac:(solve_setter).
#[export] Instance set_error_text : Setter error_text := ltac:(solve_setter).

(** The three sets of [_queues]. *)
Definition _queues (q : queue_t) (j : Job) : gset Z :=
  match q with Q_PARENTS => _parents j | Q_WAITING => _waiting j | Q_CHILDREN => _children j end.
Definition set_queue (q : queue_t) (s : gset Z) (j : Job) : Job :=
  match q with
  | Q_PARENTS => j <| _parents := s |>
  | Q_WAITING => j <| _waiting := s |>
  | Q_CHILDREN => j <| _children := s |>
  end.

(** The iteration order of a [set<JobID_t>]. *)
Definition ascending_ids (s : gset Z) : list Z := merge_sort Z.le (elements s).

(** Job::Job().  The id comes from the static counter [_jobID_counter]. *)
Definition new_Job (id : Z) (jobType : job_type_t) (jobName directory cmdFile : bytes) : Job :=
  mkJob jobType jobName directory cmdFile id STATUS_READY ∅ ∅ ∅ None None (mkCondorID (-1) (-1) (-1))
    0 0 0 (-1) None None None false false (-1) [] 0 false 0 0 0 false None false false (-1) false
    None (s2b "unknown").

Definition status_name (s : status_t) : bytes :=
  match s with
  | STATUS_NOT_READY => s2b "STATUS_NOT_READY"
  | STATUS_READY => s2b "STATUS_READY    "
  | STATUS_PRERUN => s2b "STATUS_PRERUN   "
  | STATUS_SUBMITTED => s2b "STATUS_SUBMITTED"
  | STATUS_POSTRUN => s2b "STATUS_POSTRUN  "
  | STATUS_DONE => s2b "STATUS_DONE     "
  | STATUS_ERROR => s2b "STATUS_ERROR    "
  end.

Definition SetStatus (j : Job) (newStatus : status_t) : Job := j <| _Status := newStatus |>.
Definition TerminateSuccess (j : Job) : Job := j <| _Status := STATUS_DONE |>.
Definition TerminateFailure (j : Job) : Job := j <| _Status := STATUS_ERROR |>.
Definition IsActive (j : Job) : bool :=
  status_is (_Status j) STATUS_PRERUN || status_is (_Status j) STATUS_SUBMITTED ||
  status_is (_Status j) STATUS_POSTRUN.
Definition SanityCheck (j : Job) : bool :=
  negb (countedAsDone j && negb (status_is (_Status j) STATUS_DONE)).

(** ** Queues *)

Definition QueueIsEmpty (q : queue_t) (j : Job) : bool := bool_decide (_queues q j = ∅).
Definition CanSubmit (j : Job) : bool := QueueIsEmpty Q_WAITING j && status_is (_Status j) STATUS_READY.
Definition NumParents (j : Job) : Z := Z.of_nat (length (elements (_parents j))).
Definition NumChildren (j : Job) : Z := Z.of_nat (length (elements (_children j))).

Definition AddToQueue (q : queue_t) (jobID : Z) (j : Job) : Job * bool :=
  if bool_decide (jobID ∈ _queues q j) then (j, false)
  else (set_queue q ({[jobID]} ∪ _queues q j) j, true).
Definition RemoveFromQueue (q : queue_t) (jobID : Z) (j : Job) : Job * bool :=
  if bool_decide (jobID ∈ _queues q j) then (set_queue q (_queues q j ∖ {[jobID]}) j, true)
  else (j, false).
Definition RemoveDependency_queue (q : queue_t) (jobID : Z) (j : Job) : Job * bool * bytes :=
  match RemoveFromQueue q jobID j with
  | (j', true) => (j', true, s2b "n/a")
  | (j', false) => (j', false, s2b "no such dependency")
  end.

(** A NULL pointer is [None]. *)
Definition HasChild (j : Job) (child : option Job) : bool :=
  match child with Some c => bool_decide (_jobID c ∈ _children j) | None => false end.
Definition HasParent (j : Job) (parent : option Job) : bool :=
  match parent with Some p => bool_decide (_jobID p ∈ _parents j) | None => false end.

Definition CanAddParent (j : Job) (parent : option Job) : bool * bytes :=
  match parent with
  | None => (false, s2b "parent == NULL")
  | Some p =>
      if _final j then (false, s2b "Tried to add a parent to a Final node")
      else if negb (status_is (_Status j) STATUS_READY) && negb (status_is (_Status p) STATUS_DONE) then
        (false, status_name (_Status j) ++ s2b " child may not be given a new " ++
                status_name (_Status p) ++ s2b " parent")
      else (true, s2b "n/a")
  end.
Definition CanAddChild (j : Job) (child : option Job) : bool * bytes :=
  match child with
  | None => (false, s2b "child == NULL")
  | Some _ =>
      if _final j then (false, s2b "Tried to add a child to a final node") else (true, s2b "n/a")
  end.

(** check_warning_strictness(DAG_STRICT_3), with the knob DAGMAN_USE_STRICT: a warning may be
    fatal, and then ends the process. *)
Definition check_warning_strictness {A} (strict : Z) (level : Z) (a : A) : outcome A :=
  if level <=? strict then EXCEPT "Warning is fatal error because of DAGMAN_USE_STRICT setting"
  else Done a.

Definition AddParent (strict : Z) (j : Job) (parent : option Job) : outcome (Job * bool * bytes) :=
  match CanAddParent j parent, parent with
  | (true, whynot), Some p =>
      if HasParent j parent then check_warning_strictness strict 3 (j, true, whynot)
      else match AddToQueue Q_PARENTS (_jobID p) j with
           | (j1, false) => Done (j1, false, s2b "unknown error appending to PARENTS queue")
           | (j1, true) =>
               if status_is (_Status p) STATUS_DONE then Done (j1, true, s2b "n/a")
               else match AddToQueue Q_WAITING (_jobID p) j1 with
                    | (_, false) => EXCEPT "Failed to add parent to job"
                    | (j2, true) => Done (j2, true, s2b "n/a")
                    end
           end
  | (_, whynot), _ => Done (j, false, whynot)
  end.
Definition AddChild (strict : Z) (j : Job) (child : option Job) : outcome (Job * bool * bytes) :=
  match CanAddChild j child, child with
  | (true, whynot), Some c =>
      if HasChild j child then check_warning_strictness strict 3 (j, true, whynot)
      else match AddToQueue Q_CHILDREN (_jobID c) j with
           | (j1, false) => Done (j1, false, s2b "unknown error appending to CHILDREN queue")
           | (j1, true) => Done (j1, true, s2b "n/a")
           end
  | (_, whynot), _ => Done (j, false, whynot)
  end.
Definition RemoveChild (j : Job) (child : option Job) : Job * bool * bytes :=
  match child with
  | None => (j, false, s2b "child == NULL")
  | Some c => RemoveDependency_queue Q_CHILDREN (_jobID c) j
  end.
Definition RemoveParent (j : Job) (parent : option Job) : Job * bool * bytes :=
  match parent with
  | None => (j, false, s2b "parent == NULL")
  | Some p => RemoveDependency_queue Q_PARENTS (_jobID p) j
  end.

(** ** Scripts and PRE_SKIP *)

Definition AddScript (j : Job) (post : bool) (cmd : option bytes) : Job * bool * bytes :=
  match cmd with
  | None | Some [] => (j, false, s2b "missing script name")
  | Some cmd =>
      match (if post then _scriptPost j else _scriptPre j) with
      | Some _ =>
          (* the message names the PRE script whichever was meant; NULL prints as (null) *)
          (j, false, (if post then s2b "POST" else s2b "PRE") ++ s2b " script already assigned (" ++
                     match _scriptPre j with Some s => _cmd s | None => s2b "(null)" end ++ s2b ")")
      | None =>
          let script := new_Script post cmd in
          (if post then j <| _scriptPost := Some script |> else j <| _scriptPre := Some script |>,
           true, s2b "n/a")
      end
  end.

Definition PRE_SKIP_INVALID : Z := -1.
Definition PRE_SKIP_MIN : Z := 0.
Definition PRE_SKIP_MAX : Z := 255.
Definition HasPreSkip (j : Job) : bool := negb (_preskip j =? PRE_SKIP_INVALID).
Definition AddPreSkip (j : Job) (exitCode : Z) : Job * bool * bytes :=
  if (exitCode <? PRE_SKIP_MIN) || (PRE_SKIP_MAX <? exitCode) then
    (j, false, s2b "PRE_SKIP exit code must be between 0 and 255" ++ [LF])
  else if _preskip j =? PRE_SKIP_INVALID then (j <| _preskip := exitCode |>, true, s2b "n/a")
  else (j, false, s2b "Two definitions of PRE_SKIP for a node." ++ [LF]).

(** ** Names and directories of splices *)

Definition PrefixDirectory (j : Job) (prefix : bytes) : Job :=
  if streq prefix (s2b ".") then j
  else match _directory j with
       | "/"%char :: _ => j
       | d => j <| _directory := prefix ++ s2b "/" ++ d |>
       end.
Definition PrefixName (j : Job) (prefix : bytes) : Job := j <| _jobName := prefix ++ _jobName j |>.
