(* ===== verification/Dag.v ===== *)
(** The DAG of DAGMan: condor_dagman/dag.cpp and throttle_by_category.cpp, its nodes, their
    dependencies and the search for cycles.

    The nodes live in a store indexed by their ids, the values of [_nodeIDHash]; a [Job*] is an id.
    The hash tables of the class reject duplicate keys and are finite maps here, which is what
    HashTable.v shows of them. *)

From S2P Require Import Prelude CondorId PriorityList DagJob.

Open Scope Z_scope.

(** ** class ThrottleByCategory *)

(** A [ThrottleInfo*] is represented by the name of the category. *)
Record ThrottleInfo := mkThrottle { _totalJobs : Z; _maxJobs : Z; _currentJobs : Z }.
#[export] Instance rebuild_ThrottleInfo : Rebuild ThrottleInfo :=
  fun t => mkThrottle (_totalJobs t) (_maxJobs t) (_currentJobs t).
#[export] Instance set_totalJobs : Setter _totalJobs := ltac:(solve_setter).
#[export] Instance set_maxJobs : Setter _maxJobs := ltac:(solve_setter).
#[export] Instance set_currentJobs : Setter _currentJobs := ltac:(solve_setter).

Definition noThrottleSetting : Z := -1.
Definition isSet (t : ThrottleInfo) : bool := negb (_maxJobs t =? noThrottleSetting).

Notation ThrottleByCategory := (gmap bytes ThrottleInfo).

Definition AddCategory (ts : ThrottleByCategory) (category : bytes) (maxJobs : Z)
  : outcome ThrottleByCategory :=
  match ts !! category with
  | Some _ => EXCEPT "HashTable error"
  | None => Done (<[category := mkThrottle 0 maxJobs 0]> ts)
  end.

Definition SetThrottle (strict : Z) (ts : ThrottleByCategory) (category : bytes) (maxJobs : Z)
  : outcome ThrottleByCategory :=
  match ts !! category with
  | None => AddCategory ts category maxJobs
  | Some info =>
      let ts' := <[category := info <| _maxJobs := maxJobs |>]> ts in
      if isSet info && negb (_maxJobs info =? maxJobs) then check_warning_strictness strict 3 ts'
      else Done ts'
  end.

(** ** class Dag *)

Inductive dag_status :=
| DAG_STATUS_OK | DAG_STATUS_ERROR | DAG_STATUS_NODE_FAILED | DAG_STATUS_ABORT | DAG_STATUS_RM
| DAG_STATUS_CYCLE | DAG_STATUS_HALTED.

#[export] Instance dag_status_eq_dec : EqDecision dag_status.
Proof. solve_decision. Defined.

Record Dag := mkDag {
  _jobs : list Z;
  _nodeIDHash : gmap Z Job;
  _nodeNameHash : gmap bytes Z;
  _condorIDHash : gmap Z Z;
  _storkIDHash : gmap Z Z;
  _noopIDHash : gmap Z Z;
  _final_job : option Z;
  _catThrottles : ThrottleByCategory;
  _numNodesDone : Z;
  _numNodesFailed : Z;
  _numJobsSubmitted : Z;
  _numIdleJobProcs : Z;
  _numHeldJobProcs : Z;
  _preRunNodeCount : Z;
  _postRunNodeCount : Z;
  _readyQ : PrioritySimpleList Z;
  _submitQ : list Z;
  _runningFinalNode : bool;
  _dagIsHalted : bool;
  _dagStatus : dag_status;
  DFS_ORDER : Z
}.

#[export] Instance rebuild_Dag : Rebuild Dag := fun d =>
  mkDag (_jobs d) (_nodeIDHash d) (_nodeNameHash d) (_condorIDHash d) (_storkIDHash d)
    (_noopIDHash d) (_final_job d) (_catThrottles d) (_numNodesDone d) (_numNodesFailed d)
    (_numJobsSubmitted d) (_numIdleJobProcs d) (_numHeldJobProcs d) (_preRunNodeCount d)
    (_postRunNodeCount d) (_readyQ d) (_submitQ d) (_runningFinalNode d) (_dagIsHalted d)
    (_dagStatus d) (DFS_ORDER d).
#[export] Instance set_jobs : Setter _jobs := ltac:(solve_setter).
#[export] Instance set_nodeIDHash : Setter _nodeIDHash := ltac:(solve_setter).
#[export] Instance set_nodeNameHash : Setter _nodeNameHash := ltac:(solve_setter).
#[export] Instance set_condorIDHash : Setter _condorIDHash := ltac:(solve_setter).
#[export] Instance set_storkIDHash : Setter _storkIDHash := ltac:(solve_setter).
#[export] Instance set_noopIDHash : Setter _noopIDHash := ltac:(solve_setter).
#[export] Instance set_final_job : Setter _final_job := ltac:(solve_setter).
#[export] Instance set_catThrottles : Setter _catThrottles := ltac:(solve_setter).
#[export] Instance set_numNodesDone : Setter _numNodesDone := ltac:(solve_setter).
#[export] Instance set_numNodesFailed : Setter _numNodesFailed := ltac:(solve_setter).
#[export] Instance set_numJobsSubmitted : Setter _numJobsSubmitted := ltac:(solve_setter).
#[export] Instance set_numIdleJobProcs : Setter _numIdleJobProcs := ltac:(solve_setter).
#[export] Instance set_numHeldJobProcs : Setter _numHeldJobProcs := ltac:(solve_setter).
#[export] Instance set_preRunNodeCount : Setter _preRunNodeCount := ltac:(solve_setter).
#[export] Instance set_postRunNodeCount : Setter _postRunNodeCount := ltac:(solve_setter).
#[export] Instance set_readyQ : Setter _readyQ := ltac:(solve_setter).
#[export] Instance set_submitQ : Setter _submitQ := ltac:(solve_setter).
#[export] Instance set_runningFinalNode : Setter _runningFinalNode := ltac:(solve_setter).
#[export] Instance set_dagIsHalted : Setter _dagIsHalted := ltac:(solve_setter).
#[export] Instance set_dagStatus : Setter _dagStatus := ltac:(solve_setter).
#[export] Instance set_DFS_ORDER : Setter DFS_ORDER := ltac:(solve_setter).

Definition new_Dag : Dag :=
  mkDag [] ∅ ∅ ∅ ∅ ∅ None ∅ 0 0 0 0 0 0 0 new_PrioritySimpleList [] false false DAG_STATUS_OK 0.

(** [*job = j]: the object behind a pointer. *)
Definition put_node (d : Dag) (job : Z) (j : Job) : Dag := d <| _nodeIDHash ::= <[job := j]> |>.

Definition FindNodeByNodeID (d : Dag) (jobID : Z) : outcome (option Job) :=
  match _nodeIDHash d !! jobID with
  | None => Done None
  | Some job =>
      if _jobID job =? jobID then Done (Some job) else EXCEPT "Searched for node ID; got another"
  end.

Definition FindNodeByName (d : Dag) (jobName : bytes) : outcome (option Z) :=
  match _nodeNameHash d !! jobName with
  | None => Done None
  | Some job =>
      match _nodeIDHash d !! job with
      | None => Done None
      | Some j => if streq jobName (_jobName j) then Done (Some job) else EXCEPT "Searched for node; got another"
      end
  end.

(** Dag::Add().  The object is that of the constructor, at the address of its id. *)
Definition AddJob (d : Dag) (j : Job) : outcome (Dag * bool) :=
  match _nodeNameHash d !! _jobName j, _nodeIDHash d !! _jobID j with
  | None, None =>
      let d1 := put_node (d <| _nodeNameHash ::= <[_jobName j := _jobID j]> |>) (_jobID j) j in
      if _final j then
        match _final_job d with
        | Some _ => Done (d1, false)
        | None =>
            let d2 := put_node d1 (_jobID j) (SetStatus j STATUS_NOT_READY) in
            Done (d2 <| _final_job := Some (_jobID j) |> <| _jobs ::= fun l => l ++ [_jobID j] |>, true)
        end
      else Done (d1 <| _jobs ::= fun l => l ++ [_jobID j] |>, true)
  | _, _ => EXCEPT "Assertion ERROR on (insertResult == 0)"
  end.

Definition AddDependency (strict : Z) (d : Dag) (parent child : option Z) : outcome (Dag * bool) :=
  match parent, child with
  | Some p, Some c =>
      let! (jp, ok1, _) :=
        match _nodeIDHash d !! p with
        | Some jp => AddChild strict jp (_nodeIDHash d !! c)
        | None => EXCEPT "dangling pointer"
        end in
      if negb ok1 then Done (put_node d p jp, false)
      else
        let d1 := put_node d p jp in
        let! (jc, ok2, _) :=
          match _nodeIDHash d1 !! c with
          | Some jc => AddParent strict jc (_nodeIDHash d1 !! p)
          | None => EXCEPT "dangling pointer"
          end in
        let d2 := put_node d1 c jc in
        if ok2 then Done (d2, true)
        else match _nodeIDHash d2 !! p with
             | None => EXCEPT "dangling pointer"
             | Some jp2 =>
                 match RemoveChild jp2 (_nodeIDHash d2 !! c) with
                 | (_, false, _) => EXCEPT "Fatal error attempting to add dependency"
                 | (jp3, true, _) => Done (put_node d2 p jp3, false)
                 end
             end
  | _, _ => Done (d, false)
  end%outcome.

Definition RemoveDependency (d : Dag) (parent child : option Z) : outcome (Dag * bool * bytes) :=
  match parent, child with
  | None, _ => Done (d, false, s2b "parent == NULL")
  | _, None => Done (d, false, s2b "child == NULL")
  | Some p, Some c =>
      match _nodeIDHash d !! p, _nodeIDHash d !! c with
      | Some jp, Some jc =>
          if negb (HasChild jp (Some jc)) then Done (d, false, s2b "no such dependency")
          else if negb (HasParent jc (Some jp)) then EXCEPT "Assertion ERROR on (child->HasParent( parent ))"
          else
            let '(jp', _, _) := RemoveChild jp (Some jc) in
            let d1 := put_node d p jp' in
            match _nodeIDHash d1 !! c with
            | None => EXCEPT "dangling pointer"
            | Some jc1 =>
                let '(jc', _, whynot) := RemoveParent jc1 (Some jp') in
                Done (put_node d1 c jc', true, whynot)
            end
      | _, _ => EXCEPT "dangling pointer"
      end
  end.

(** ** Building: dagman_commands.cpp *)

Definition NodeExists (d : Dag) (nodeName : bytes) : outcome bool :=
  match _nodeNameHash d !! nodeName with
  | None => Done false
  | Some job =>
      match _nodeIDHash d !! job with
      | None => Done false
      | Some j => if streq nodeName (_jobName j) then Done true else EXCEPT "Searched for node; got another"
      end
  end.

Definition isReservedWord (token : bytes) : bool :=
  strcaseeq token (s2b "PARENT") || strcaseeq token (s2b "CHILD").

(** The empty message stands for success. *)
Definition IsValidNodeName (d : Dag) (name : option bytes) : outcome (bool * bytes) :=
  match name with
  | None => Done (false, s2b "missing node name")
  | Some [] => Done (false, s2b "empty node name (name == " ++ [DQUOTE; DQUOTE] ++ s2b ")")
  | Some name =>
      if isReservedWord name then
        Done (false, s2b "invalid node name: '" ++ name ++ s2b "' is a DAGMan reserved word")
      else
        let! exists_already := NodeExists d name in
        if (exists_already : bool) then
          Done (false, s2b "node name '" ++ name ++ s2b "' already exists in DAG")
        else Done (true, [])
  end%outcome.
Definition IsValidSubmitFileName (name : option bytes) : bool * bytes :=
  match name with
  | None => (false, s2b "missing submit file name")
  | Some [] => (false, s2b "empty submit file name (name == " ++ [DQUOTE; DQUOTE] ++ s2b ")")
  | Some _ => (true, [])
  end.

(** AddNode().  [next] is [Job::_jobID_counter]; it is returned with the result. *)
Definition AddNode (d : Dag) (next : Z) (type : job_type_t) (name : option bytes) (directory : bytes)
    (submitFile precmd postcmd : option bytes) (noop isDone isFinal : bool)
  : outcome (Dag * Z * bool * bytes) :=
  (let! (valid, why) := IsValidNodeName d name in
  match (valid : bool), name, IsValidSubmitFileName submitFile, submitFile with
  | true, Some name, (true, _), Some submitFile =>
      let isDone := isDone && negb isFinal in
      let node := new_Job next type name directory submitFile in
      let '(node, ok1, why1) :=
        match precmd with Some _ => AddScript node false precmd | None => (node, true, []) end in
      if negb ok1 then Done (d, next + 1, false, s2b "failed to add PRE script: " ++ why1)
      else
        let '(node, ok2, why2) :=
          match postcmd with Some _ => AddScript node true postcmd | None => (node, true, []) end in
        if negb ok2 then Done (d, next + 1, false, s2b "failed to add POST script: " ++ why2)
        else
          let node := node <| _noop := noop |> in
          let node := if isDone then SetStatus node STATUS_DONE else node in
          let node := node <| _final := isFinal |> in
          let! (d', added) := AddJob d node in
          if (added : bool) then Done (d', next + 1, true, s2b "n/a")
          else Done (d', next + 1, false, s2b "unknown failure adding " ++
                 (if isFinal then s2b "Final " else []) ++ s2b "node to DAG")
  | false, _, _, _ => Done (d, next, false, why)
  | _, _, (_, why2), _ => Done (d, next, false, why2)
  end)%outcome.

(** The DONE line of a DAG file (parse_done() in parse.cpp), once the node is found: [true] is its
    success. *)
Definition set_done_line (strict : Z) (d : Dag) (job : Z) : Dag * bool :=
  match _nodeIDHash d !! job with
  | None => (d, negb (1 <=? strict))
  | Some j =>
      if _final j then (d, negb (1 <=? strict)) else (put_node d job (SetStatus j STATUS_DONE), true)
  end.


(** ** Cycles *)

(** DFSVisit(): [None] is an exhausted fuel.  A missing node is the NULL of FindNodeByNodeID(). *)
Fixpoint DFSVisit (fuel : nat) (d : Dag) (job : Z) : option Dag :=
  match fuel with
  | O => None
  | S fuel' =>
      match _nodeIDHash d !! job with
      | None => Some d
      | Some j =>
          if _visited j then Some d
          else
            let d1 := put_node d job (j <| _visited := true |>) in
            match foldl (fun od child => match od with Some d' => DFSVisit fuel' d' child | None => None end)
                    (Some d1) (ascending_ids (_children j)) with
            | None => None
            | Some d2 =>
                let d3 := d2 <| DFS_ORDER ::= Z.succ |> in
                Some (match _nodeIDHash d3 !! job with
                      | Some j' => put_node d3 job (j' <| _dfsOrder := DFS_ORDER d3 |>)
                      | None => d3
                      end)
            end
      end
  end.

(** Each nested call marks another node. *)
Definition dfs_fuel (d : Dag) : nat := S (size (_nodeIDHash d)).

(** The loop that numbers the nodes from those without parents. *)
Definition number_step (od : option Dag) (job : Z) : option Dag :=
  match od with
  | None => None
  | Some d =>
      match _nodeIDHash d !! job with
      | Some j =>
          if negb (_visited j) && (NumParents j =? 0) then DFSVisit (dfs_fuel d) d job else Some d
      | None => Some d
      end
  end.

(** An edge to a child whose number is not smaller; [None] is the dereference of NULL. *)
Definition bad_edge (d : Dag) (j : Job) (child : Z) : option bool :=
  match _nodeIDHash d !! child with
  | Some c => Some (_dfsOrder j <=? _dfsOrder c)
  | None => None
  end.
Definition any_true (l : list (option bool)) : option bool :=
  foldl (fun acc b => match acc, b with Some x, Some y => Some (x || y) | _, _ => None end) (Some false) l.
Definition bad_node (d : Dag) (job : Z) : option bool :=
  match _nodeIDHash d !! job with
  | Some j => any_true (bad_edge d j <$> ascending_ids (_children j))
  | None => None
  end.

Definition isCycle (d : Dag) : option (Dag * bool) :=
  match foldl number_step (Some (d <| DFS_ORDER := 0 |>)) (_jobs d) with
  | None => None
  | Some d' =>
      match any_true (bad_node d' <$> _jobs d') with
      | Some b => Some (d', b)
      | None => None
      end
  end.
