(* ===== verification/DagCycle.v ===== *)
(** The cycle check of DAGMan (Dag::isCycle, Dag::DFSVisit in condor_dagman/dag.cpp): it always
    ends, and reports a cycle exactly when the dependencies have one. *)

From S2P Require Import Prelude CondorId PriorityList DagJob Dag.

Open Scope Z_scope.

(** ** Descents in a finite set *)

Fixpoint linked {A} (R : relation A) (l : list A) : Prop :=
  match l with
  | x :: (y :: _) as t => R x y /\ linked R t
  | _ => True
  end.

Lemma linked_tc {A} (R : relation A) x l y : linked R (x :: l) -> y ∈ x :: l -> y = x \/ tc R x y.
Proof.
  revert x. induction l as [|z l IH]; intros x Hc Hy.
  { apply list_elem_of_singleton in Hy. auto. }
  destruct Hc as [Hxz Hc]. apply elem_of_cons in Hy as [->|Hy]; [auto|]. right.
  destruct (IH z Hc Hy) as [->|Ht]; [by apply tc_once|by eapply tc_l].
Qed.

(** In a finite set where everything has a predecessor there is a cycle. *)
Lemma finite_descent_cycle (R : relation Z) (U : gset Z) :
  U <> ∅ -> (forall x, x ∈ U -> exists y, y ∈ U /\ R y x) -> exists n, tc R n n.
Proof.
  intros HU Hpred.
  assert (Hn : forall n, (exists x, tc R x x) \/
    exists x l, length l = n /\ linked R (x :: l) /\ NoDup (x :: l) /\ Forall (.∈ U) (x :: l)).
  { induction n as [|n [?|(x & l & Hl & Hc & Hd & Hf)]]; [|auto|].
    - apply set_choose_L in HU as [x Hx]. right. exists x, []. split; [done|]. split; [done|].
      split; [apply NoDup_singleton|]. by constructor.
    - apply Forall_cons in Hf as Hf'. destruct Hf' as [Hx _].
      destruct (Hpred x Hx) as (y & Hy & Hyx).
      destruct (decide (y ∈ x :: l)) as [Hin|Hnin].
      + left. exists y. destruct (linked_tc R x l y Hc Hin) as [->|Ht]; [by apply tc_once|by eapply tc_l].
      + right. exists y, (x :: l). split; [simpl; lia|]. split; [done|]. split; [by constructor|by constructor]. }
  destruct (Hn (size U)) as [?|(x & l & Hl & _ & Hd & Hf)]; [done|].
  assert (Hs : (size (list_to_set (x :: l) : gset Z) <= size U)%nat).
  { apply subseteq_size. intros y Hy. apply elem_of_list_to_set in Hy. rewrite Forall_forall in Hf. auto. }
  rewrite size_list_to_set in Hs by done. simpl in Hs. lia.
Qed.

(** ** The graph and the marks *)

Definition edge (d : Dag) (u v : Z) : Prop := exists j, _nodeIDHash d !! u = Some j /\ v ∈ _children j.

(** The dependencies are closed and the two sides agree. *)
Record wf_graph (d : Dag) : Prop := mkWfGraph {
  wf_ids : forall i j, _nodeIDHash d !! i = Some j -> _jobID j = i;
  wf_jobs : forall i, i ∈ _jobs d <-> is_Some (_nodeIDHash d !! i);
  wf_sym : forall u v, edge d u v <-> exists jv, _nodeIDHash d !! v = Some jv /\ u ∈ _parents jv
}.

(** A node without the marks of the search. *)
Definition unmarked (j : Job) : Job := j <| _visited := false |> <| _dfsOrder := 0 |>.

(** The search changes only marks. *)
Definition same_graph (d d' : Dag) : Prop :=
  _jobs d' = _jobs d /\ unmarked <$> _nodeIDHash d' = unmarked <$> _nodeIDHash d.

Definition visited (d : Dag) (i : Z) : Prop :=
  exists j, _nodeIDHash d !! i = Some j /\ _visited j = true.
Definition whites (d : Dag) : gset Z := dom (filter (fun ij => _visited ij.2 = false) (_nodeIDHash d)).

Lemma elem_of_whites d i : i ∈ whites d <-> exists j, _nodeIDHash d !! i = Some j /\ _visited j = false.
Proof.
  unfold whites. rewrite elem_of_dom. split.
  - intros [j Hj]. apply map_lookup_filter_Some in Hj. eauto.
  - intros (j & Hj & Hv). exists j. by apply map_lookup_filter_Some.
Qed.

Lemma same_graph_refl d : same_graph d d.
Proof. done. Qed.
Lemma same_graph_trans d1 d2 d3 : same_graph d1 d2 -> same_graph d2 d3 -> same_graph d1 d3.
Proof. intros [H1 H2] [H3 H4]. split; congruence. Qed.

Lemma same_graph_lookup d d' i j :
  same_graph d d' -> _nodeIDHash d !! i = Some j ->
  exists j', _nodeIDHash d' !! i = Some j' /\ unmarked j' = unmarked j.
Proof.
  intros [_ He] Hi. apply (f_equal (lookup i)) in He. rewrite !lookup_fmap, Hi in He.
  destruct (_nodeIDHash d' !! i) as [j'|]; [|done]. apply (inj Some) in He. by exists j'.
Qed.
Lemma same_graph_sym d d' : same_graph d d' -> same_graph d' d.
Proof. intros [H1 H2]. by split. Qed.

Lemma same_graph_edge d d' u v : same_graph d d' -> edge d u v <-> edge d' u v.
Proof.
  intros Hs. split; intros (j & Hj & Hv).
  - destruct (same_graph_lookup d d' u j Hs Hj) as (j' & Hj' & He). exists j'. split; [done|].
    by apply (f_equal _children) in He; simpl in He; rewrite He.
  - apply same_graph_sym in Hs. destruct (same_graph_lookup d' d u j Hs Hj) as (j' & Hj' & He).
    exists j'. split; [done|]. by apply (f_equal _children) in He; simpl in He; rewrite He.
Qed.

(** Marking a node. *)
Lemma same_graph_put d i j j' :
  _nodeIDHash d !! i = Some j -> unmarked j' = unmarked j -> same_graph d (put_node d i j').
Proof.
  intros Hi He. split; [done|]. simpl. rewrite fmap_insert, He.
  apply insert_id. by rewrite lookup_fmap, Hi.
Qed.

(** ** The search ends *)

Definition keeps (d d' : Dag) : Prop :=
  same_graph d d' /\ whites d' ⊆ whites d.

Lemma keeps_trans d1 d2 d3 : keeps d1 d2 -> keeps d2 d3 -> keeps d1 d3.
Proof. intros [? ?] [? ?]. split; [by eapply same_graph_trans|set_solver]. Qed.

(** The step of the loop over the children. *)
Abbreviation visit_children fuel :=
  (foldl (fun od child => match od with Some d' => DFSVisit fuel d' child | None => None end)).

Lemma visit_children_None fuel cs : visit_children fuel None cs = None.
Proof. by induction cs. Qed.

Lemma whites_mark d u j :
  _nodeIDHash d !! u = Some j -> whites (put_node d u (j <| _visited := true |>)) = whites d ∖ {[u]}.
Proof.
  intros Hu. apply set_eq. intros i. rewrite elem_of_difference, elem_of_singleton, !elem_of_whites.
  unfold put_node; simpl. destruct (decide (i = u)) as [->|Hne].
  - rewrite lookup_insert_eq. split; [|tauto]. intros (j' & [= <-] & Hf). done.
  - rewrite lookup_insert_ne by done. split; [|tauto]. by intros.
Qed.

Lemma whites_order d i j n :
  _nodeIDHash d !! i = Some j -> whites (put_node d i (j <| _dfsOrder := n |>)) = whites d.
Proof.
  intros Hi. apply set_eq. intros k. rewrite !elem_of_whites. unfold put_node; simpl.
  destruct (decide (k = i)) as [->|Hne].
  - rewrite lookup_insert_eq, Hi. split; intros (j' & Hj & Hf); apply (inj Some) in Hj; subst; eauto.
  - by rewrite lookup_insert_ne by done.
Qed.

Lemma DFSVisit_total fuel d u :
  (size (whites d) < fuel)%nat -> exists d', DFSVisit fuel d u = Some d' /\ keeps d d' /\ u ∉ whites d'.
Proof.
  revert d u. induction fuel as [|fuel IH]; intros d u Hf; [lia|]. simpl.
  destruct (_nodeIDHash d !! u) as [j|] eqn:Hu.
  2: { exists d. split_and!; [done..|]. rewrite elem_of_whites. intros (j & Hj & _). congruence. }
  destruct (_visited j) eqn:Hv.
  { exists d. split_and!; [done..|]. rewrite elem_of_whites. intros (j' & Hj & Hfv). congruence. }
  set (d1 := put_node d u (j <| _visited := true |>)).
  assert (Hw1 : whites d1 = whites d ∖ {[u]}) by by apply whites_mark.
  assert (Hs1 : (size (whites d1) < fuel)%nat).
  { rewrite Hw1. assert (Hsub : {[u]} ⊆ whites d) by (apply singleton_subseteq_l, elem_of_whites; eauto).
    rewrite size_difference by done. apply subseteq_size in Hsub. rewrite size_singleton in *. lia. }
  assert (Hc : forall cs dk, keeps d1 dk -> exists d2, visit_children fuel (Some dk) cs = Some d2 /\ keeps d1 d2).
  { induction cs as [|c cs IHcs]; intros dk Hk; [by exists dk|]. simpl.
    destruct (IH dk c) as (d' & -> & Hk' & _); [|apply IHcs; by eapply keeps_trans].
    destruct Hk as [_ Hw]. apply subseteq_size in Hw. lia. }
  destruct (Hc (ascending_ids (_children j)) d1) as (d2 & -> & Hk2); [done|]. eexists. split; [done|].
  assert (Hk : keeps d d2).
  { eapply keeps_trans; [|done]. split; [by eapply same_graph_put|set_solver]. }
  destruct (same_graph_lookup d d2 u j) as (j' & Hj' & _); [apply Hk|done|]. simpl. rewrite Hj'.
  setoid_rewrite (whites_order (d2 <| DFS_ORDER ::= Z.succ |>) u j' _ Hj'). split.
  - eapply keeps_trans; [apply Hk|]. split; [by eapply (same_graph_put d2)|].
    by setoid_rewrite (whites_order d2 u j').
  - destruct Hk2 as [_ Hw2]. change (u ∉ whites d2). set_solver.
Qed.

Lemma dfs_fuel_enough d : (size (whites d) < dfs_fuel d)%nat.
Proof.
  unfold dfs_fuel, whites. rewrite size_dom. apply Nat.lt_succ_r, map_size_filter.
Qed.

(** ** Numbers on an acyclic graph *)

(** The number of a node, and the nodes that have one. *)
Definition order (d : Dag) (i : Z) : Z := match _nodeIDHash d !! i with Some j => _dfsOrder j | None => -1 end.
Definition finished (d : Dag) (i : Z) : Prop :=
  exists j, _nodeIDHash d !! i = Some j /\ _visited j = true /\ 1 <= _dfsOrder j.
Definition gray (d : Dag) (i : Z) : Prop := visited d i /\ ~ finished d i.

(** A numbered node has a greater number than its children; an unvisited one has none yet. *)
Definition numbered (d : Dag) : Prop :=
  0 <= DFS_ORDER d /\
  (forall i j, _nodeIDHash d !! i = Some j -> _visited j = false -> _dfsOrder j < 1) /\
  (forall i, finished d i -> order d i <= DFS_ORDER d /\
     forall v, edge d i v -> finished d v /\ order d v < order d i).

(** What a visit leaves: the older numbers, no unfinished node of its own. *)
Record visits (d d' : Dag) : Prop := mkVisits {
  v_graph : same_graph d d';
  v_numbered : numbered d';
  v_finished : forall i, finished d i -> finished d' i /\ order d' i = order d i;
  v_gray : forall i, gray d' i <-> gray d i;
  v_order : DFS_ORDER d <= DFS_ORDER d'
}.

Lemma visits_refl d : numbered d -> visits d d.
Proof. intros. by split; [done| |..]. Qed.
Lemma visits_trans d1 d2 d3 : visits d1 d2 -> visits d2 d3 -> visits d1 d3.
Proof.
  intros [G1 N1 F1 Y1 O1] [G2 N2 F2 Y2 O2]. split; [by eapply same_graph_trans|done| | |lia].
  - intros i Hi. destruct (F1 i Hi) as [Hi' E1]. destruct (F2 i Hi') as [? E2]. split; [done|congruence].
  - intros i. by rewrite Y2, Y1.
Qed.

Lemma finished_dec d i : visited d i -> finished d i \/ gray d i.
Proof.
  intros (j & Hj & Hv). destruct (decide (1 <= _dfsOrder j)) as [Hle|Hnle].
  - left. by exists j.
  - right. split; [by exists j|]. intros (j' & Hj' & _ & Hle).
    assert (j' = j) as -> by congruence. done.
Qed.

(** Marking [u]: it becomes gray, nothing else changes. *)
Lemma mark_spec d u j :
  _nodeIDHash d !! u = Some j -> _visited j = false -> numbered d ->
  let d1 := put_node d u (j <| _visited := true |>) in
  same_graph d d1 /\ numbered d1 /\ DFS_ORDER d1 = DFS_ORDER d /\
  (forall i, finished d1 i <-> finished d i) /\ (forall i, order d1 i = order d i) /\
  (forall i, gray d1 i <-> i = u \/ gray d i).
Proof.
  intros Hu Hv (H0 & Hw & Hn) d1.
  assert (Hg : same_graph d d1) by by eapply same_graph_put.
  assert (Ho : forall i, order d1 i = order d i).
  { intros i. unfold order, d1, put_node; simpl. destruct (decide (i = u)) as [->|Hne].
    - by rewrite lookup_insert_eq, Hu.
    - by rewrite lookup_insert_ne. }
  assert (Hf : forall i, finished d1 i <-> finished d i).
  { intros i. unfold finished, d1, put_node; simpl. destruct (decide (i = u)) as [->|Hne].
    - rewrite lookup_insert_eq, Hu. pose proof (Hw u j Hu Hv). split.
      + intros (j' & [= <-] & _ & Hle). simpl in Hle. lia.
      + intros (j' & [= <-] & Ht & _). congruence.
    - by rewrite lookup_insert_ne. }
  split_and!; [done| |done|done|done|].
  - split_and!; [done| |].
    + intros i k. unfold d1, put_node; simpl. destruct (decide (i = u)) as [->|Hne].
      * rewrite lookup_insert_eq. by intros [= <-].
      * rewrite lookup_insert_ne by done. apply Hw.
    + intros i Hi. rewrite Ho. apply Hf in Hi. destruct (Hn i Hi) as [Hle He]. split; [done|].
      intros v Hv'. rewrite Ho, Hf. apply He. by apply (same_graph_edge d d1).
  - intros i. unfold gray. rewrite Hf. unfold visited, d1, put_node; simpl.
    destruct (decide (i = u)) as [->|Hne].
    + rewrite lookup_insert_eq. split; [auto|]. intros _. split; [eexists; by split|].
      intros (j' & Hj' & Ht & _). congruence.
    + rewrite lookup_insert_ne by done. naive_solver.
Qed.

(** Numbering [u], the last gray node, when its children are finished. *)
Lemma number_spec d2 u j :
  _nodeIDHash d2 !! u = Some j -> gray d2 u -> numbered d2 -> ~ edge d2 u u ->
  (forall v, edge d2 u v -> finished d2 v) ->
  let d3 := d2 <| DFS_ORDER ::= Z.succ |> in
  let d4 := put_node d3 u (j <| _dfsOrder := DFS_ORDER d3 |>) in
  same_graph d2 d4 /\ numbered d4 /\ DFS_ORDER d2 <= DFS_ORDER d4 /\
  (forall i, finished d4 i <-> i = u \/ finished d2 i) /\
  (forall i, finished d2 i -> order d4 i = order d2 i) /\
  (forall i, gray d4 i <-> i <> u /\ gray d2 i).
Proof.
  intros Hu [(j0 & Hj0 & Hvis) Hnf] (H0 & Hw & Hn) Hself Hch d3 d4.
  assert (j0 = j) as -> by congruence.
  assert (Hg : same_graph d2 d4) by by eapply (same_graph_put d3).
  assert (Hlk : forall i, _nodeIDHash d4 !! i =
    if decide (i = u) then Some (j <| _dfsOrder := DFS_ORDER d2 + 1 |>) else _nodeIDHash d2 !! i).
  { intros i. unfold d4, put_node; simpl. case_decide as Hi; [subst; by rewrite lookup_insert_eq|].
    by rewrite lookup_insert_ne. }
  assert (Hf : forall i, finished d4 i <-> i = u \/ finished d2 i).
  { intros i. unfold finished. rewrite Hlk. case_decide as Hi; [|naive_solver]. subst.
    split; [auto|]. intros _. eexists. split; [done|]. simpl. split; [done|lia]. }
  assert (Hou : order d4 u = DFS_ORDER d2 + 1).
  { unfold order. rewrite Hlk. by rewrite decide_True. }
  assert (Ho : forall i, i <> u -> order d4 i = order d2 i).
  { intros i Hi. unfold order. rewrite Hlk. by rewrite decide_False. }
  assert (Hnu : forall i, finished d2 i -> i <> u) by (intros i Hi ->; done).
  assert (Ho4 : DFS_ORDER d4 = DFS_ORDER d2 + 1) by done.
  split_and!; [done| |lia|done|auto|].
  - split_and!; [lia| |].
    + intros i k. rewrite Hlk. case_decide as Hi; [|apply Hw]. intros [= <-]. simpl. congruence.
    + intros i Hi. apply Hf in Hi. destruct (decide (i = u)) as [->|Hne].
      * rewrite Hou, Ho4. split; [done|]. intros v Hv%(same_graph_edge d2 d4); [|done].
        specialize (Hch v Hv). rewrite Hf. split; [auto|]. rewrite (Ho v) by auto.
        pose proof (proj1 (Hn v Hch)). lia.
      * destruct Hi as [?|Hi]; [done|]. destruct (Hn i Hi) as [Hle He]. rewrite Ho, Ho4 by done.
        split; [lia|]. intros v Hv%(same_graph_edge d2 d4); [|done]. destruct (He v Hv) as [Hfv Hlt].
        rewrite Hf, Ho by auto. auto.
  - intros i. unfold gray. rewrite Hf. unfold visited. rewrite Hlk.
    case_decide as Hi; [subst; tauto|]. naive_solver.
Qed.

Definition acyclic (d : Dag) : Prop := forall n, ~ tc (edge d) n n.
Definition closed (d : Dag) : Prop := forall u v, edge d u v -> is_Some (_nodeIDHash d !! v).

Lemma same_graph_tc d d' u v : same_graph d d' -> tc (edge d) u v -> tc (edge d') u v.
Proof.
  intros Hs. induction 1 as [x y He|x y z He _ IH].
  - by apply tc_once, (same_graph_edge d d').
  - eapply tc_l; [|done]. by apply (same_graph_edge d d').
Qed.
Lemma same_graph_acyclic d d' : same_graph d d' -> acyclic d -> acyclic d'.
Proof. intros Hs Ha n Hn. eapply Ha, (same_graph_tc d' d); [by apply same_graph_sym|done]. Qed.
Lemma same_graph_closed d d' : same_graph d d' -> closed d -> closed d'.
Proof.
  intros Hs Hc u v He%(same_graph_edge d d'); [|done]. destruct (Hc u v He) as [j Hj].
  destruct (same_graph_lookup d d' v j Hs Hj) as (j' & ? & _). eauto.
Qed.

Lemma elem_of_ascending_ids s i : i ∈ ascending_ids s <-> i ∈ s.
Proof. unfold ascending_ids. by rewrite merge_sort_Permutation, elem_of_elements. Qed.

Definition visit_post (d d' : Dag) (u : Z) : Prop :=
  visits d d' /\ (is_Some (_nodeIDHash d !! u) -> ~ gray d u -> finished d' u).

(** The loop over the children of the gray node [u]. *)
Lemma visit_children_spec fuel u cs d1 d2 :
  (forall d v d', DFSVisit fuel d v = Some d' -> acyclic d -> closed d -> numbered d ->
     (forall g, gray d g -> tc (edge d) g v) -> visit_post d d' v) ->
  acyclic d1 -> closed d1 -> numbered d1 -> Forall (edge d1 u) cs ->
  (forall g, gray d1 g -> g = u \/ tc (edge d1) g u) ->
  visit_children fuel (Some d1) cs = Some d2 ->
  visits d1 d2 /\ Forall (finished d2) cs.
Proof.
  intros IH. revert d1. induction cs as [|c cs IHcs]; intros d1 Ha Hc Hn He Hg Hv.
  { simplify_eq/=. split; [by apply visits_refl|done]. }
  apply Forall_cons in He as [Hec Hecs]. simpl in Hv.
  destruct (DFSVisit fuel d1 c) as [dc|] eqn:Hdc; [|by rewrite visit_children_None in Hv].
  assert (Hgc : forall g, gray d1 g -> tc (edge d1) g c).
  { intros g [->|Ht]%Hg; [by apply tc_once|]. eapply tc_r; done. }
  destruct (IH d1 c dc Hdc Ha Hc Hn Hgc) as [Hvs Hfin].
  assert (Hs : same_graph d1 dc) by apply Hvs.
  destruct (IHcs dc) as [Hvs2 Hfs]; [by eapply same_graph_acyclic|by eapply same_graph_closed|apply Hvs| | |done|].
  - eapply Forall_impl; [apply Hecs|]. intros v Hev. by apply (same_graph_edge d1 dc).
  - intros g [->|Ht]%(v_gray _ _ Hvs)%Hg; [auto|]. right. by eapply same_graph_tc.
  - split; [by eapply visits_trans|]. constructor; [|done]. apply Hvs2, Hfin; [eauto|].
    intros Hgr%Hgc. by eapply Ha.
Qed.

Lemma DFSVisit_spec fuel d u d' :
  DFSVisit fuel d u = Some d' -> acyclic d -> closed d -> numbered d ->
  (forall g, gray d g -> tc (edge d) g u) -> visit_post d d' u.
Proof.
  revert d u d'. induction fuel as [|fuel IH]; intros d u d' Hd Ha Hc Hn Hg; [done|]. simpl in Hd.
  destruct (_nodeIDHash d !! u) as [j|] eqn:Hu.
  2: { simplify_eq. split; [by apply visits_refl|]. rewrite Hu. by intros []. }
  destruct (_visited j) eqn:Hv.
  { simplify_eq. split; [by apply visits_refl|]. intros _ Hng.
    destruct (finished_dec d' u) as [|Hgr]; [by exists j|done|done]. }
  destruct (mark_spec d u j Hu Hv Hn) as (Hs1 & Hn1 & Ho1 & Hf1 & Hor1 & Hg1).
  set (d1 := put_node d u (j <| _visited := true |>)) in *.
  destruct (visit_children fuel (Some d1) (ascending_ids (_children j))) as [d2|] eqn:Hd2; [|done].
  assert (Ha1 : acyclic d1) by by eapply same_graph_acyclic.
  assert (He1 : Forall (edge d1 u) (ascending_ids (_children j))).
  { apply Forall_forall. intros v Hv'%elem_of_ascending_ids. apply (same_graph_edge d d1); [done|].
    by exists j. }
  assert (Hanc : forall g, gray d1 g -> g = u \/ tc (edge d1) g u).
  { intros g [->|Hgr]%Hg1; [auto|]. right. eapply same_graph_tc; [done|]. by apply Hg. }
  destruct (visit_children_spec fuel u _ d1 d2 IH Ha1 (same_graph_closed d d1 Hs1 Hc) Hn1 He1 Hanc Hd2)
    as [Hvs Hfs].
  assert (Hs2 : same_graph d d2) by (eapply same_graph_trans; [done|apply Hvs]).
  destruct (same_graph_lookup d d2 u j Hs2 Hu) as (j2 & Hj2 & He2).
  assert (Hgu : gray d2 u) by (apply (v_gray _ _ Hvs), Hg1; auto).
  assert (Ha2 : acyclic d2) by by eapply same_graph_acyclic.
  destruct (number_spec d2 u j2 Hj2 Hgu (v_numbered _ _ Hvs)) as (Hs4 & Hn4 & Ho4 & Hf4 & Hor4 & Hg4).
  { intros He. by eapply Ha2, tc_once. }
  { intros v (j' & Hj' & Hin). assert (j' = j2) as -> by congruence.
    rewrite Forall_forall in Hfs. apply Hfs, elem_of_ascending_ids.
    by apply (f_equal _children) in He2; simpl in He2; rewrite <- He2. }
  simpl in Hd. rewrite Hj2 in Hd. apply (inj Some) in Hd. subst d'.
  split; [split|].
  - by eapply same_graph_trans.
  - done.
  - intros i Hi. apply Hf1 in Hi as Hi1. destruct (v_finished _ _ Hvs i Hi1) as [Hi2 Heq].
    split; [apply Hf4; auto|]. by rewrite Hor4, Heq, Hor1.
  - intros i. rewrite Hg4, (v_gray _ _ Hvs), Hg1. split; [tauto|]. intros Hi. split; [|auto].
    intros ->. destruct Hi as [(j' & Hj' & Ht) _]. congruence.
  - etrans; [|exact Ho4]. rewrite <- Ho1. apply Hvs.
  - intros _ _. apply Hf4. auto.
Qed.

(** ** The check *)

Lemma any_true_spec (l : list (option bool)) :
  Forall is_Some l -> exists b, any_true l = Some b /\ (b = true <-> Some true ∈ l).
Proof.
  intros Hl. unfold any_true.
  assert (Hgen : forall x, exists b,
    foldl (fun acc b => match acc, b with Some x, Some y => Some (x || y) | _, _ => None end) (Some x) l = Some b
    /\ (b = true <-> x = true \/ Some true ∈ l)).
  { induction Hl as [|o l [y ->] Hl IH]; intros x; simpl.
    - exists x. split; [done|]. split; [auto|]. by intros [?|?%elem_of_nil].
    - destruct (IH (x || y)) as (b & -> & Hb). exists b. split; [done|].
      rewrite Hb, orb_true_iff, elem_of_cons. destruct y; naive_solver. }
  destruct (Hgen false) as (b & -> & Hb). exists b. split; [done|]. rewrite Hb. naive_solver.
Qed.

(** A bad edge of the numbering. *)
Definition unordered (d : Dag) : Prop := exists u v, edge d u v /\ order d u <= order d v.

Lemma bad_node_spec d u :
  closed d -> is_Some (_nodeIDHash d !! u) ->
  exists b, bad_node d u = Some b /\ (b = true <-> exists v, edge d u v /\ order d u <= order d v).
Proof.
  intros Hc [j Hj]. unfold bad_node. rewrite Hj.
  destruct (any_true_spec (bad_edge d j <$> ascending_ids (_children j))) as (b & -> & Hb).
  { apply Forall_fmap, Forall_forall. intros v Hv%elem_of_ascending_ids.
    destruct (Hc u v) as [jv Hjv]; [by exists j|]. unfold compose, bad_edge. by rewrite Hjv. }
  exists b. split; [done|]. rewrite Hb, list_elem_of_fmap. split.
  - intros (v & He & Hv%elem_of_ascending_ids). exists v. split; [by exists j|].
    unfold bad_edge, order in *. rewrite Hj. destruct (_nodeIDHash d !! v); [|done].
    apply (inj Some) in He. by apply Z.leb_le.
  - intros (v & (j' & Hj' & Hv) & Hle). assert (j' = j) as -> by congruence. exists v.
    split; [|by apply elem_of_ascending_ids]. destruct (Hc u v) as [jv Hjv]; [by exists j|].
    unfold bad_edge, order in *. rewrite Hj, Hjv in *. f_equal. symmetry. by apply Z.leb_le.
Qed.

Lemma report_spec d :
  closed d -> (forall i, i ∈ _jobs d <-> is_Some (_nodeIDHash d !! i)) ->
  exists b, any_true (bad_node d <$> _jobs d) = Some b /\ (b = true <-> unordered d).
Proof.
  intros Hc Hj. destruct (any_true_spec (bad_node d <$> _jobs d)) as (b & -> & Hb).
  { apply Forall_fmap, Forall_forall. intros u Hu%Hj. destruct (bad_node_spec d u Hc Hu) as (b & Hb & _).
    unfold compose. rewrite Hb. eauto. }
  exists b. split; [done|]. rewrite Hb, list_elem_of_fmap. split.
  - intros (u & He & Hu%Hj). destruct (bad_node_spec d u Hc Hu) as (b' & Hb' & Hiff).
    rewrite Hb' in He. simplify_eq. destruct (proj1 Hiff) as (v & ? & ?); [done|]. by exists u, v.
  - intros (u & v & He & Hle). destruct He as (j & Hju & Hv). assert (Hu : is_Some (_nodeIDHash d !! u)) by eauto.
    exists u. split; [|by apply Hj]. destruct (bad_node_spec d u Hc Hu) as (b' & -> & Hiff). f_equal.
    symmetry. apply Hiff. exists v. split; [by exists j|done].
Qed.

(** Numbers that decrease along every edge exclude cycles. *)
Lemma ordered_acyclic d : ~ unordered d -> acyclic d.
Proof.
  intros Hu. assert (Hlt : forall u v, tc (edge d) u v -> order d v < order d u).
  { induction 1 as [x y He|x y z He _ IH].
    - destruct (Z.lt_ge_cases (order d y) (order d x)); [done|]. exfalso. apply Hu. by exists x, y.
    - destruct (Z.lt_ge_cases (order d y) (order d x)); [lia|]. exfalso. apply Hu. by exists x, y. }
  intros n Hn%Hlt. lia.
Qed.


(** ** The loop over the nodes without parents *)

Definition roots_visited (d : Dag) (js : list Z) : Prop :=
  forall i j, i ∈ js -> _nodeIDHash d !! i = Some j -> NumParents j = 0 -> _visited j = true.

Lemma number_step_total d i :
  exists d', number_step (Some d) i = Some d' /\ keeps d d' /\ roots_visited d' [i].
Proof.
  unfold number_step, roots_visited. destruct (_nodeIDHash d !! i) as [j|] eqn:Hi.
  2: { exists d. split_and!; [done..|]. intros i' j' ->%list_elem_of_singleton Hj. congruence. }
  destruct (negb (_visited j) && (NumParents j =? 0)) eqn:Hw.
  - destruct (DFSVisit_total (dfs_fuel d) d i (dfs_fuel_enough d)) as (d' & -> & Hk & Hn).
    exists d'. split_and!; [done..|]. intros i' j' ->%list_elem_of_singleton Hj' _.
    destruct (_visited j') eqn:Hv; [done|]. destruct Hn. apply elem_of_whites. eauto.
  - exists d. split_and!; [done..|]. intros i' j' ->%list_elem_of_singleton Hj Hp.
    assert (j' = j) as -> by congruence. rewrite Hp, andb_true_r in Hw. by apply negb_false_iff.
Qed.

Lemma roots_visited_keeps d d' js : keeps d d' -> roots_visited d js -> roots_visited d' js.
Proof.
  intros [Hs Hw] Hr i j' Hi Hj' Hp. apply same_graph_sym in Hs.
  destruct (same_graph_lookup d' d i j' Hs Hj') as (j & Hj & He).
  destruct (_visited j') eqn:Hv; [done|].
  assert (Hwh : i ∈ whites d) by (apply Hw, elem_of_whites; eauto).
  apply elem_of_whites in Hwh as (j2 & Hj2 & Hv2). assert (j2 = j) as -> by congruence.
  rewrite (Hr i j Hi Hj) in Hv2; [done|]. rewrite <- Hp. unfold NumParents.
  by apply (f_equal _parents) in He; simpl in He; rewrite He.
Qed.

Lemma number_total js d :
  exists d', foldl number_step (Some d) js = Some d' /\ keeps d d' /\ roots_visited d' js.
Proof.
  revert d. induction js as [|i js IH]; intros d.
  { exists d. split_and!; [done..|]. by intros i j ?%elem_of_nil. }
  cbn [foldl]. destruct (number_step_total d i) as (d1 & -> & Hk1 & Hr1).
  destruct (IH d1) as (d2 & -> & Hk2 & Hr2). exists d2. split_and!; [done|by eapply keeps_trans|].
  intros i' j' [->|Hi]%elem_of_cons; [|by apply Hr2].
  eapply (roots_visited_keeps d1 d2 [i]); [done..|]. by apply list_elem_of_singleton.
Qed.

Lemma number_numbered js d d' :
  foldl number_step (Some d) js = Some d' -> acyclic d -> closed d -> numbered d ->
  (forall i, ~ gray d i) -> visits d d'.
Proof.
  revert d. induction js as [|i js IH]; intros d Hd Ha Hc Hn Hg.
  { simplify_eq/=. by apply visits_refl. }
  cbn [foldl] in Hd. destruct (number_step_total d i) as (d1 & H1 & _). rewrite H1 in Hd.
  assert (Hv : visits d d1).
  { unfold number_step in H1. destruct (_nodeIDHash d !! i) as [j|]; [|simplify_eq; by apply visits_refl].
    destruct (negb (_visited j) && _); [|simplify_eq; by apply visits_refl].
    eapply DFSVisit_spec; [done..|]. intros g Hgg. by destruct (Hg g). }
  eapply visits_trans; [done|]. assert (Hs : same_graph d d1) by apply Hv.
  apply IH; [done|by eapply same_graph_acyclic|by eapply same_graph_closed|apply Hv|].
  intros g Hgg%(v_gray _ _ Hv). by destruct (Hg g).
Qed.

Lemma number_idle js d : roots_visited d js -> foldl number_step (Some d) js = Some d.
Proof.
  induction js as [|i js IH]; intros Hr; [done|]. cbn [foldl].
  assert (number_step (Some d) i = Some d) as ->.
  { unfold number_step. destruct (_nodeIDHash d !! i) as [j|] eqn:Hi; [|done].
    destruct (Z.eqb_spec (NumParents j) 0) as [Hp|]; [|by rewrite andb_false_r].
    rewrite (Hr i j); [done|by left|done|done]. }
  apply IH. intros i' j Hi'. apply Hr. by right.
Qed.

(** On an acyclic graph everything ends up numbered. *)
Lemma all_finished d :
  wf_graph d -> acyclic d -> numbered d -> (forall i, ~ gray d i) -> roots_visited d (_jobs d) ->
  forall i, is_Some (_nodeIDHash d !! i) -> finished d i.
Proof.
  intros Hwf Ha Hn Hg Hr.
  assert (Hfd : forall i j, _nodeIDHash d !! i = Some j -> finished d i \/ _visited j = false).
  { intros i j Hj. destruct (_visited j) eqn:Hv; [|auto]. left.
    destruct (finished_dec d i) as [|Hgr]; [by exists j|done|]. by destruct (Hg i). }
  destruct (decide (whites d = ∅)) as [He|Hne].
  - intros i [j Hj]. destruct (Hfd i j Hj) as [|Hv]; [done|].
    assert (i ∈ whites d) by (apply elem_of_whites; eauto). set_solver.
  - exfalso. destruct (finite_descent_cycle (edge d) (whites d) Hne) as [n Hcyc]; [|by apply (Ha n)].
    intros x (j & Hj & Hv)%elem_of_whites.
    destruct (decide (_parents j = ∅)) as [Hp|Hp].
    { rewrite (Hr x j) in Hv; [done| |done|]; [apply Hwf; eauto|].
      unfold NumParents. by rewrite Hp, elements_empty. }
    apply set_choose_L in Hp as [p Hp].
    assert (He : edge d p x) by (apply (wf_sym d Hwf); eauto). exists p. split; [|done].
    pose proof He as (jp & Hjp & _). apply elem_of_whites. exists jp. split; [done|].
    destruct (Hfd p jp Hjp) as [Hfp|]; [|done]. destruct Hn as (_ & _ & Hn).
    destruct (proj2 (Hn p Hfp) x He) as [(j' & Hj' & Ht & _) _]. congruence.
Qed.

Lemma wf_closed d : wf_graph d -> closed d.
Proof. intros Hwf u v He. apply (wf_sym d Hwf) in He as (jv & Hjv & _). eauto. Qed.

Lemma same_graph_wf d d' : same_graph d d' -> wf_graph d -> wf_graph d'.
Proof.
  intros Hs [Hi Hj Hsym]. pose proof (same_graph_sym _ _ Hs) as Hs'. split.
  - intros i j' Hj'. destruct (same_graph_lookup d' d i j' Hs' Hj') as (j & Hlk & He).
    apply (f_equal _jobID) in He. simpl in He. rewrite <- He. by apply Hi.
  - intros i. destruct Hs as [Hjs Hn]. rewrite Hjs, Hj. split; intros [j Hlk].
    + destruct (same_graph_lookup d d' i j (conj Hjs Hn) Hlk) as (j' & ? & _). eauto.
    + destruct (same_graph_lookup d' d i j Hs' Hlk) as (j' & ? & _). eauto.
  - intros u v. rewrite <- (same_graph_edge d d' u v Hs), Hsym.
    split; intros (jv & Hlk & Hin).
    + destruct (same_graph_lookup d d' v jv Hs Hlk) as (j' & Hl' & He). exists j'. split; [done|].
      by apply (f_equal _parents) in He; simpl in He; rewrite He.
    + destruct (same_graph_lookup d' d v jv Hs' Hlk) as (j' & Hl' & He). exists j'. split; [done|].
      by apply (f_equal _parents) in He; simpl in He; rewrite He.
Qed.

Lemma fresh_numbered d :
  DFS_ORDER d = 0 ->
  (forall i j, _nodeIDHash d !! i = Some j -> _visited j = false /\ _dfsOrder j = -1) -> numbered d.
Proof.
  intros H0 Hf. split; [lia|]. split.
  - intros i j Hj _. destruct (Hf i j Hj) as [_ ->]. lia.
  - intros i (j & Hj & Ht & _). destruct (Hf i j Hj). congruence.
Qed.

Lemma isCycle_total_iff d :
  wf_graph d ->
  (forall i j, _nodeIDHash d !! i = Some j -> _visited j = false /\ _dfsOrder j = -1) ->
  exists d' b, isCycle d = Some (d', b) /\
    (b = false <-> forall n, ~ tc (edge d) n n) /\
    isCycle d' = Some (d' <| DFS_ORDER := 0 |>, b).
Proof.
  intros Hwf Hfresh. set (d0 := d <| DFS_ORDER := 0 |>).
  destruct (number_total (_jobs d) d0) as (d' & Hd' & [Hs Hw] & Hr).
  assert (Hj : _jobs d' = _jobs d) by apply Hs.
  assert (Hwf' : wf_graph d') by exact (same_graph_wf d d' Hs Hwf).
  assert (Hc' : closed d') by by apply wf_closed.
  destruct (report_spec d' Hc' (wf_jobs d' Hwf')) as (b & Hb & Hiff).
  exists d', b. unfold isCycle. fold d0. rewrite Hd', Hb. split; [done|]. split.
  - split.
    + intros ->. assert (Ha : acyclic d').
      { apply ordered_acyclic. intros Hu%Hiff. done. }
      apply (same_graph_acyclic d' d); [by apply (same_graph_sym d0 d')|done].
    + intros Ha. destruct b; [|done]. destruct (proj1 Hiff eq_refl) as (u & v & He & Hle).
      assert (Hv : visits d0 d').
      { eapply number_numbered; [done|done|exact (wf_closed d Hwf)| |].
        - apply fresh_numbered; [done|apply Hfresh].
        - intros i [(j & Hj' & Ht) _]. destruct (Hfresh i j Hj'). congruence. }
      assert (Hfu : finished d' u).
      { apply all_finished; [done|by eapply (same_graph_acyclic d0)|apply Hv| |by rewrite Hj|].
        - intros i Hgi%(v_gray _ _ Hv). destruct Hgi as [(j & Hj' & Ht) _]. destruct (Hfresh i j Hj'). congruence.
        - destruct He as (j & Hju & _). eauto. }
      destruct (v_numbered _ _ Hv) as (_ & _ & Hn). destruct (proj2 (Hn u Hfu) v He). lia.
  - rewrite Hj, (number_idle (_jobs d) (d' <| DFS_ORDER := 0 |>)) by done.
    cbn [_jobs set_field set_DFS_ORDER]. rewrite Hj in Hb |- *.
    change (bad_node (d' <| DFS_ORDER := 0 |>)) with (bad_node d'). by rewrite Hb.
Qed.

(** C34 (functional): Dag::isCycle(), run on a DAG whose two-sided dependencies agree and whose nodes
    have not been numbered, always ends and reports no cycle exactly when the dependencies have
    none; run again on the same DAG (as condor_event_timer() does) it gives the same answer. *)
Theorem isCycle_iff_cycle d :
  wf_graph d ->
  (forall i j, _nodeIDHash d !! i = Some j -> _visited j = false /\ _dfsOrder j = -1) ->
  exists d' b, isCycle d = Some (d', b) /\
    (b = false <-> forall n, ~ tc (edge d) n n) /\
    isCycle d' = Some (d' <| DFS_ORDER := 0 |>, b).
Proof. apply isCycle_total_iff. Qed.
