(* ===== verification/DagBuild.v ===== *)
(** Building a DAG from its input file: the calls parse.cpp makes to AddNode(), AddDependency() and
    for DONE lines.  The dependencies of a DAG that was built agree on both sides, and a node waits
    for every parent that is not done.  Adding a dependency twice can break this when it fails, and
    removing one does not stop the child from waiting. *)

From S2P Require Import Prelude CondorId PriorityList DagJob Dag DagCycle.

Open Scope Z_scope.

(** ** Lines of a DAG file *)

Inductive build_op :=
| BNode (type : job_type_t) (name : option bytes) (directory : bytes)
    (submitFile precmd postcmd : option bytes) (noop isDone isFinal : bool)
| BDepend (parent child : Z)
| BDone (job : Z).

Definition build_step (strict : Z) (s : Dag * Z) (op : build_op) : outcome (Dag * Z * bool) :=
  match op with
  | BNode type name dir sub pre post noop isDone isFinal =>
      let! (d, next, ok, _) := AddNode s.1 s.2 type name dir sub pre post noop isDone isFinal in
      Done (d, next, ok)
  | BDepend parent child =>
      let! (d, ok) := AddDependency strict s.1 (Some parent) (Some child) in Done (d, s.2, ok)
  | BDone job => let '(d, ok) := set_done_line strict s.1 job in Done (d, s.2, ok)
  end%outcome.

(** parse() gives up at the first line that fails. *)
Fixpoint build (strict : Z) (s : Dag * Z) (ops : list build_op) : outcome (Dag * Z * bool) :=
  match ops with
  | [] => Done (s, true)
  | op :: ops' =>
      (let! (d, next, ok) := build_step strict s op in
       if (ok : bool) then build strict (d, next) ops' else Done (d, next, false))%outcome
  end.

(** ** The invariant *)

Record built (d : Dag) (next : Z) : Prop := mkBuilt {
  b_graph : wf_graph d;
  b_next : forall i, is_Some (_nodeIDHash d !! i) -> i < next;
  b_marks : forall i j, _nodeIDHash d !! i = Some j -> _visited j = false /\ _dfsOrder j = -1;
  b_waiting : forall c jc, _nodeIDHash d !! c = Some jc -> _waiting jc ⊆ _parents jc;
  b_done : forall c jc p, _nodeIDHash d !! c = Some jc -> p ∈ _parents jc -> p ∉ _waiting jc ->
             exists jp, _nodeIDHash d !! p = Some jp /\ _Status jp = STATUS_DONE;
  b_final : forall i j, _nodeIDHash d !! i = Some j -> _final j = true ->
              _parents j = ∅ /\ _children j = ∅ /\ _Status j = STATUS_NOT_READY
}.

Lemma built_new : built new_Dag 0.
Proof.
  split; try (intros ?? Hl; simpl in Hl; by rewrite lookup_empty in Hl).
  - split; simpl.
    + intros i j. by rewrite lookup_empty.
    + intros i. rewrite lookup_empty. split; [by intros ?%elem_of_nil|by intros []].
    + intros u v. split; [intros (j & Hj & _)|intros (j & Hj & _)]; simpl in Hj; by rewrite lookup_empty in Hj.
  - intros i [j Hj]. simpl in Hj. by rewrite lookup_empty in Hj.
  - intros c jc p Hl. simpl in Hl. by rewrite lookup_empty in Hl.
Qed.

(** ** Adding a node *)

(** A node as AddNode() makes it. *)
Record blank (j : Job) : Prop := mkBlank {
  k_parents : _parents j = ∅;
  k_waiting : _waiting j = ∅;
  k_children : _children j = ∅;
  k_marks : _visited j = false /\ _dfsOrder j = -1
}.

(** A new node, with its final status, at the end of the list. *)
Lemma built_insert d next d' j :
  built d next -> blank j -> _jobID j = next -> (_final j = true -> _Status j = STATUS_NOT_READY) ->
  _nodeIDHash d' = <[next := j]> (_nodeIDHash d) -> _jobs d' = _jobs d ++ [next] ->
  built d' (next + 1).
Proof.
  intros [[Hi Hj Hs] Hn Hm Hw Hd Hf] [Kp Kw Kc Km] Hid Hfin Hnode Hjobs.
  assert (Hfresh : _nodeIDHash d !! next = None).
  { destruct (_nodeIDHash d !! next) eqn:He; [|done]. assert (next < next) by (apply Hn; eauto). lia. }
  assert (Hlk : forall i k, _nodeIDHash d' !! i = Some k ->
    (i = next /\ k = j) \/ (i <> next /\ _nodeIDHash d !! i = Some k)).
  { intros i k. rewrite Hnode. destruct (decide (i = next)) as [->|Hne].
    - rewrite lookup_insert_eq. naive_solver.
    - rewrite lookup_insert_ne by done. auto. }
  assert (Hlk' : forall i k, _nodeIDHash d !! i = Some k -> _nodeIDHash d' !! i = Some k).
  { intros i k Hk. rewrite Hnode, lookup_insert_ne; [done|]. intros <-. congruence. }
  split.
  - split.
    + intros i k [[-> ->]|[_ Hk]]%Hlk; [done|by apply Hi].
    + intros i. rewrite Hjobs, elem_of_app, list_elem_of_singleton, Hj, Hnode.
      destruct (decide (i = next)) as [->|Hne]; [rewrite lookup_insert_eq|rewrite lookup_insert_ne by done]; naive_solver.
    + intros u v. split.
      * intros (k & [[-> ->]|[_ Hk]]%Hlk & Hv); [rewrite Kc in Hv; set_solver|].
        destruct (proj1 (Hs u v)) as (jv & Hjv & Hin); [by exists k|]. eauto.
      * intros (k & [[-> ->]|[_ Hk]]%Hlk & Hv); [rewrite Kp in Hv; set_solver|].
        destruct (proj2 (Hs u v)) as (ju & Hju & Hin); [by exists k|]. exists ju. eauto.
  - intros i [k [[-> ->]|[_ Hk]]%Hlk]; [lia|]. assert (i < next) by (apply Hn; eauto). lia.
  - intros i k [[-> ->]|[_ Hk]]%Hlk; [done|by eapply Hm].
  - intros c k [[-> ->]|[_ Hk]]%Hlk; [set_solver|by eapply Hw].
  - intros c k p [[-> ->]|[_ Hk]]%Hlk Hp Hnw; [rewrite Kp in Hp; set_solver|].
    destruct (Hd c k p Hk Hp Hnw) as (jp & ? & ?). eauto.
  - intros i k [[-> ->]|[_ Hk]]%Hlk Hfk; [auto|by eapply Hf].
Qed.

Lemma AddJob_built d next j d' :
  built d next -> blank j -> _jobID j = next ->
  AddJob d j = Done (d', true) -> built d' (next + 1).
Proof.
  intros Hb Hk Hid. unfold AddJob. destruct (_nodeNameHash d !! _jobName j); [done|].
  destruct (_nodeIDHash d !! _jobID j); [done|]. destruct (_final j) eqn:Hf.
  - destruct (_final_job d); intros He; simplify_eq.
    apply (built_insert d _ _ (SetStatus j STATUS_NOT_READY)); [done|by destruct Hk|done|done| |done].
    simpl. by rewrite insert_insert_eq.
  - intros He; simplify_eq. apply (built_insert d _ _ j); [done..|by rewrite Hf|done|done].
Qed.

Lemma AddScript_blank j post cmd j' ok why :
  blank j -> AddScript j post cmd = (j', ok, why) -> blank j' /\ _jobID j' = _jobID j.
Proof.
  intros Hb. unfold AddScript. destruct cmd as [[|c cmd]|]; intros He; [by simplify_eq| |by simplify_eq].
  destruct (if post then _scriptPost j else _scriptPre j); [by simplify_eq|].
  destruct post; simplify_eq; (split; [by destruct Hb|done]).
Qed.

Lemma AddNode_built d next type name dir sub pre post noop isDone isFinal d' next' why :
  built d next ->
  AddNode d next type name dir sub pre post noop isDone isFinal = Done (d', next', true, why) ->
  built d' next'.
Proof.
  intros Hb. unfold AddNode, obind. destruct (IsValidNodeName d name) as [[valid w]|]; [|done].
  destruct valid; [|done]. destruct name as [name|]; [|by destruct (IsValidSubmitFileName sub)].
  destruct (IsValidSubmitFileName sub) as [[] w2]; [|done]. destruct sub as [sub|]; [|done].
  set (node := new_Job next type name dir sub).
  assert (Hn0 : blank node /\ _jobID node = next) by done.
  destruct (match pre with Some _ => AddScript node false pre | None => (node, true, []) end)
    as [[n1 ok1] why1] eqn:H1.
  assert (Hn1 : blank n1 /\ _jobID n1 = next).
  { destruct pre; [|by simplify_eq]. destruct (AddScript_blank _ _ _ _ _ _ (proj1 Hn0) H1). done. }
  destruct ok1; [|done]. cbn [negb].
  destruct (match post with Some _ => AddScript n1 true post | None => (n1, true, []) end)
    as [[n2 ok2] why2'] eqn:H2.
  assert (Hn2 : blank n2 /\ _jobID n2 = next).
  { destruct post; [|by simplify_eq]. destruct (AddScript_blank _ _ _ _ _ _ (proj1 Hn1) H2) as [? ->]. by split; [|apply Hn1]. }
  destruct ok2; [|done]. cbn [negb].
  match goal with |- context [AddJob d ?n] => destruct (AddJob d n) as [[d1 added]|] eqn:Ha end; [|done].
  destruct added; [|done]. intros He. injection He as <- <- <-.
  eapply AddJob_built; [done| | |exact Ha]; destruct Hn2 as [[] Hid], (isDone && negb isFinal); done.
Qed.

(** ** Adding a dependency *)

Definition add_child (c : Z) (j : Job) : Job := j <| _children := {[c]} ∪ _children j |>.
Definition add_parent (p : Z) (isDone : bool) (j : Job) : Job :=
  j <| _parents := {[p]} ∪ _parents j |>
    <| _waiting := if isDone || bool_decide (p ∈ _parents j) then _waiting j else {[p]} ∪ _waiting j |>.

Lemma add_child_same c j : c ∈ _children j -> add_child c j = j.
Proof.
  intros Hc. unfold add_child. replace ({[c]} ∪ _children j) with (_children j) by set_solver. by destruct j.
Qed.
Lemma add_parent_same p b j : p ∈ _parents j -> add_parent p b j = j.
Proof.
  intros Hp. unfold add_parent. rewrite bool_decide_true by done. rewrite orb_true_r.
  replace ({[p]} ∪ _parents j) with (_parents j) by set_solver. by destruct j.
Qed.

Lemma AddChild_spec strict j c j' ok why :
  AddChild strict j (Some c) = Done (j', ok, why) ->
  if ok then j' = add_child (_jobID c) j /\ _final j = false else j' = j /\ _final j = true.
Proof.
  unfold AddChild, CanAddChild, HasChild, AddToQueue, check_warning_strictness. simpl.
  destruct (_final j) eqn:Hf; [intros He; by simplify_eq|].
  case_bool_decide as Hc; simpl.
  - destruct (3 <=? strict); intros He; simplify_eq. by rewrite add_child_same.
  - intros He. by simplify_eq.
Qed.
Lemma AddParent_spec strict j p j' ok why :
  AddParent strict j (Some p) = Done (j', ok, why) ->
  if ok then j' = add_parent (_jobID p) (status_is (_Status p) STATUS_DONE) j /\ _final j = false /\
             (_Status j = STATUS_READY \/ _Status p = STATUS_DONE)
  else j' = j.
Proof.
  unfold AddParent, CanAddParent, HasParent, AddToQueue, check_warning_strictness. simpl.
  destruct (_final j) eqn:Hf; [intros He; by simplify_eq|].
  destruct (negb (status_is (_Status j) STATUS_READY) && negb (status_is (_Status p) STATUS_DONE)) eqn:Hst;
    [intros He; by simplify_eq|].
  assert (Hor : _Status j = STATUS_READY \/ _Status p = STATUS_DONE).
  { unfold status_is in Hst. do 2 case_bool_decide; auto; done. }
  case_bool_decide as Hp.
  - destruct (3 <=? strict); intros He; simplify_eq. by rewrite add_parent_same.
  - unfold add_parent. rewrite (bool_decide_false (_ ∈ _parents j)) by done. rewrite orb_false_r.
    destruct (status_is (_Status p) STATUS_DONE).
    + intros He; simplify_eq. split_and!; [|done|done]. by destruct j.
    + simpl. case_bool_decide as Hw; [done|]. intros He. by simplify_eq.
Qed.

(** A successful AddDependency() adds the one edge. *)
Lemma AddDependency_spec strict d p c d' :
  (forall i j, _nodeIDHash d !! i = Some j -> _jobID j = i) -> AddDependency strict d (Some p) (Some c) = Done (d', true) ->
  exists jp jc, _nodeIDHash d !! p = Some jp /\ _nodeIDHash d !! c = Some jc /\
    _final jp = false /\ _final jc = false /\ _jobs d' = _jobs d /\
    forall i, _nodeIDHash d' !! i =
      (fun j => (if decide (i = c) then add_parent p (status_is (_Status jp) STATUS_DONE) else id)
                  ((if decide (i = p) then add_child c else id) j)) <$> _nodeIDHash d !! i.
Proof.
  intros Hwf. unfold AddDependency, obind.
  destruct (_nodeIDHash d !! p) as [jp|] eqn:Hp; [|done].
  destruct (_nodeIDHash d !! c) as [jc|] eqn:Hc; [|by destruct (_final jp); simpl].
  destruct (AddChild strict jp (Some jc)) as [[[jp' ok1] w1]|] eqn:H1; [|done].
  apply AddChild_spec in H1. destruct ok1; [|done]. destruct H1 as [-> Hfp]. cbn [negb].
  rewrite (Hwf c jc Hc). set (d1 := put_node d p (add_child c jp)).
  assert (Hc1 : _nodeIDHash d1 !! c = Some ((if decide (c = p) then add_child c else id) jc)).
  { unfold d1; simpl. destruct (decide (c = p)) as [->|Hne].
    - rewrite lookup_insert_eq. congruence.
    - by rewrite lookup_insert_ne. }
  assert (Hp1 : _nodeIDHash d1 !! p = Some (add_child c jp)) by (unfold d1; simpl; by rewrite lookup_insert_eq).
  rewrite Hc1, Hp1.
  destruct (AddParent strict _ (Some (add_child c jp))) as [[[jc' ok2] w2]|] eqn:H2; [|done].
  apply AddParent_spec in H2. destruct ok2.
  2: { destruct (_nodeIDHash (put_node d1 c jc') !! p); [|done].
       by destruct (RemoveChild _ _) as [[? []] ?]. }
  intros [= <-]. destruct H2 as (-> & Hfc & _). exists jp, jc.
  assert (Hid : _jobID (add_child c jp) = p) by exact (Hwf p jp Hp).
  split_and!; [done|done|done|by destruct (decide (c = p))|done|].
  intros i. rewrite Hid. change (_Status (add_child c jp)) with (_Status jp). unfold put_node; simpl.
  destruct (decide (i = c)) as [->|Hic].
  - rewrite lookup_insert_eq, Hc. simpl. done.
  - rewrite lookup_insert_ne by done. unfold d1; simpl. destruct (decide (i = p)) as [->|Hip].
    + by rewrite lookup_insert_eq, Hp.
    + rewrite lookup_insert_ne by done. by destruct (_nodeIDHash d !! i).
Qed.

Lemma AddDependency_built strict d next p c d' :
  built d next -> AddDependency strict d (Some p) (Some c) = Done (d', true) ->
  built d' next /\ forall u v, edge d' u v <-> edge d u v \/ (u = p /\ v = c).
Proof.
  intros [Hwf Hn Hm Hw Hd Hf] Hadd.
  destruct (AddDependency_spec strict d p c d' (wf_ids d Hwf) Hadd) as (jp & jc & Hjp & Hjc & Hfp & Hfc & Hjobs & Hlk).
  set (isDone := status_is (_Status jp) STATUS_DONE) in *.
  set (upd i j := (if decide (i = c) then add_parent p isDone else id) ((if decide (i = p) then add_child c else id) j)).
  assert (Hfwd : forall i j, _nodeIDHash d !! i = Some j -> _nodeIDHash d' !! i = Some (upd i j)).
  { intros i j Hj. by rewrite Hlk, Hj. }
  assert (Hbwd : forall i j', _nodeIDHash d' !! i = Some j' -> exists j, _nodeIDHash d !! i = Some j /\ j' = upd i j).
  { intros i j'. rewrite Hlk. destruct (_nodeIDHash d !! i) as [j|]; [|done]. simpl. intros [= <-]. by exists j. }
  assert (Hsame : forall i j, _jobID (upd i j) = _jobID j /\ _Status (upd i j) = _Status j /\
    _visited (upd i j) = _visited j /\ _dfsOrder (upd i j) = _dfsOrder j /\ _final (upd i j) = _final j).
  { intros i j. unfold upd. by do 2 case_decide. }
  assert (Hch : forall i j, _children (upd i j) = if decide (i = p) then {[c]} ∪ _children j else _children j).
  { intros i j. unfold upd. by do 2 case_decide. }
  assert (Hpa : forall i j, _parents (upd i j) = if decide (i = c) then {[p]} ∪ _parents j else _parents j).
  { intros i j. unfold upd. by do 2 case_decide. }
  assert (Hwa : forall i j, _waiting (upd i j) = if decide (i = c)
    then (if isDone || bool_decide (p ∈ _parents j) then _waiting j else {[p]} ∪ _waiting j) else _waiting j).
  { intros i j. unfold upd. by do 2 case_decide. }
  assert (Hedge : forall u v, edge d' u v <-> edge d u v \/ (u = p /\ v = c)).
  { intros u v. unfold edge. split.
    - intros (j' & (j & Hj & ->)%Hbwd & Hv). rewrite Hch in Hv. case_decide as Hup; [|eauto].
      apply elem_of_union in Hv as [->%elem_of_singleton|]; eauto.
    - intros [(j & Hj & Hv)|[-> ->]].
      + exists (upd u j). split; [by apply Hfwd|]. rewrite Hch. case_decide; set_solver.
      + exists (upd p jp). split; [by apply Hfwd|]. rewrite Hch, decide_True by done. set_solver. }
  split; [|done]. split.
  - split.
    + intros i j' (j & Hj & ->)%Hbwd. rewrite (proj1 (Hsame i j)). by apply (wf_ids d Hwf).
    + intros i. rewrite Hjobs, (wf_jobs d Hwf), Hlk. by rewrite fmap_is_Some.
    + intros u v. rewrite Hedge, (wf_sym d Hwf). split.
      * intros [(jv & Hjv & Hu)|[-> ->]].
        -- exists (upd v jv). split; [by apply Hfwd|]. rewrite Hpa. case_decide; set_solver.
        -- exists (upd c jc). split; [by apply Hfwd|]. rewrite Hpa, decide_True by done. set_solver.
      * intros (j' & (j & Hj & ->)%Hbwd & Hu). rewrite Hpa in Hu. case_decide as Hvc; [|eauto].
        apply elem_of_union in Hu as [->%elem_of_singleton|]; eauto.
  - intros i [j' (j & Hj & _)%Hbwd]. apply Hn. eauto.
  - intros i j' (j & Hj & ->)%Hbwd. destruct (Hsame i j) as (_ & _ & -> & -> & _). by eapply Hm.
  - intros i j' (j & Hj & ->)%Hbwd. rewrite Hpa, Hwa. specialize (Hw i j Hj).
    case_decide; [|done]. destruct (isDone || _); set_solver.
  - intros i j' q (j & Hj & ->)%Hbwd Hq Hnq. rewrite Hpa in Hq. rewrite Hwa in Hnq.
    assert (Hold : q ∈ _parents j -> q ∉ _waiting j -> exists jq, _nodeIDHash d' !! q = Some jq /\ _Status jq = STATUS_DONE).
    { intros H1 H2. destruct (Hd i j q Hj H1 H2) as (jq & Hjq & Hst). exists (upd q jq).
      split; [by apply Hfwd|]. by rewrite (proj1 (proj2 (Hsame q jq))). }
    case_decide as Hic; [|auto]. destruct (decide (q ∈ _parents j)) as [Hqp|Hqp].
    { apply Hold; [done|]. destruct (isDone || _); set_solver. }
    assert (q = p) as -> by set_solver. rewrite bool_decide_false, orb_false_r in Hnq by done.
    exists (upd p jp). split; [by apply Hfwd|]. rewrite (proj1 (proj2 (Hsame p jp))).
    unfold isDone, status_is in Hnq. case_bool_decide; [done|set_solver].
  - intros i j' (j & Hj & ->)%Hbwd. destruct (Hsame i j) as (_ & -> & _ & _ & ->). intros Hfi.
    destruct (Hf i j Hj Hfi) as (H1 & H2 & H3). rewrite Hpa, Hch.
    assert (i <> c /\ i <> p) as [? ?] by (split; intros ->; congruence).
    by rewrite !decide_False.
Qed.

Lemma set_done_built strict d next job d' :
  built d next -> set_done_line strict d job = (d', true) -> built d' next.
Proof.
  intros Hb. unfold set_done_line. destruct (_nodeIDHash d !! job) as [j|] eqn:Hj; [|intros He; by simplify_eq].
  destruct (_final j) eqn:Hfj; [intros He; by simplify_eq|]. intros He. simplify_eq.
  destruct Hb as [[Hi Hjs Hs] Hn Hm Hw Hd Hf].
  assert (Hlk : forall i k, _nodeIDHash (put_node d job (SetStatus j STATUS_DONE)) !! i = Some k ->
    exists k0, _nodeIDHash d !! i = Some k0 /\ k = (if decide (i = job) then SetStatus k0 STATUS_DONE else k0)).
  { intros i k. simpl. destruct (decide (i = job)) as [->|Hne].
    - rewrite lookup_insert_eq. intros [= <-]. by exists j.
    - rewrite lookup_insert_ne by done. eauto. }
  assert (Hlk' : forall i k, _nodeIDHash d !! i = Some k ->
    _nodeIDHash (put_node d job (SetStatus j STATUS_DONE)) !! i = Some (if decide (i = job) then SetStatus k STATUS_DONE else k)).
  { intros i k Hk. simpl. destruct (decide (i = job)) as [->|Hne].
    - rewrite lookup_insert_eq. congruence.
    - by rewrite lookup_insert_ne. }
  split.
  - split.
    + intros i k (k0 & Hk & ->)%Hlk. specialize (Hi i k0 Hk). by case_decide.
    + intros i. simpl. rewrite Hjs. destruct (decide (i = job)) as [->|Hne].
      * rewrite lookup_insert_eq, Hj. naive_solver.
      * by rewrite lookup_insert_ne.
    + intros u v. split.
      * intros (k & (k0 & Hk & ->)%Hlk & Hv). destruct (proj1 (Hs u v)) as (jv & Hjv & Hu).
        { exists k0. split; [done|]. by destruct (decide (u = job)). }
        eexists. split; [by apply Hlk'|]. by destruct (decide (v = job)).
      * intros (k & (k0 & Hk & ->)%Hlk & Hu). destruct (proj2 (Hs u v)) as (ju & Hju & Hv).
        { exists k0. split; [done|]. by destruct (decide (v = job)). }
        eexists. split; [by apply Hlk'|]. by destruct (decide (u = job)).
  - intros i [k (k0 & Hk & _)%Hlk]. apply Hn. eauto.
  - intros i k (k0 & Hk & ->)%Hlk. destruct (Hm i k0 Hk). by case_decide.
  - intros i k (k0 & Hk & ->)%Hlk. specialize (Hw i k0 Hk). by case_decide.
  - intros i k q (k0 & Hk & ->)%Hlk Hq Hnq. destruct (Hd i k0 q Hk) as (jq & Hjq & Hst).
    { by destruct (decide (i = job)). } { by destruct (decide (i = job)). }
    eexists. split; [by apply Hlk'|]. by destruct (decide (q = job)).
  - intros i k (k0 & Hk & ->)%Hlk Hfi. destruct (decide (i = job)) as [->|Hne].
    + assert (k0 = j) as -> by congruence. simpl in Hfi. congruence.
    + by eapply Hf.
Qed.

Lemma build_step_built strict d next op d' next' :
  built d next -> build_step strict (d, next) op = Done (d', next', true) -> built d' next'.
Proof.
  intros Hb. destruct op as [type name dir sub pre post noop isDone isFinal|p c|job]; cbn [build_step fst snd]; unfold obind.
  - destruct (AddNode _ _ _ _ _ _ _ _ _ _ _) as [[[[d1 n1] ok] why]|] eqn:Ha; [|done].
    intros He. simplify_eq. by eapply AddNode_built.
  - destruct (AddDependency strict d (Some p) (Some c)) as [[d1 ok]|] eqn:Ha; [|done].
    intros He. simplify_eq. by eapply AddDependency_built.
  - destruct (set_done_line strict d job) as [d1 ok] eqn:Ha. intros He. simplify_eq.
    by eapply set_done_built.
Qed.

Lemma build_built strict ops d next d' next' :
  built d next -> build strict (d, next) ops = Done (d', next', true) -> built d' next'.
Proof.
  revert d next. induction ops as [|op ops IH]; intros d next Hb He; simpl in He; [by simplify_eq|].
  unfold obind in He. destruct (build_step strict (d, next) op) as [[[d1 n1] ok]|] eqn:Hs; [|done].
  destruct ok; [|done]. eapply IH; [|done]. by eapply build_step_built.
Qed.

(** In a DAG built from an input file, from any sequence of node, dependency and DONE
    lines that were all accepted, node ids are keys, the children of a node are exactly the nodes
    that have it as a parent, every parent a node does not wait for is done, a final node has no
    dependencies, and the cycle check gives the right answer on it. *)
Theorem built_dag_consistent strict ops d next :
  build strict (new_Dag, 0) ops = Done (d, next, true) ->
  built d next /\
  (forall u v, edge d u v <-> exists jv, _nodeIDHash d !! v = Some jv /\ u ∈ _parents jv) /\
  exists d' b, isCycle d = Some (d', b) /\ (b = false <-> forall n, ~ tc (edge d) n n).
Proof.
  intros Hb. assert (Hd : built d next) by (eapply build_built; [apply built_new|done]).
  split_and!; [done|apply Hd|].
  destruct (isCycle_total_iff d (b_graph d next Hd) (b_marks d next Hd)) as (d' & b & H1 & H2 & _). eauto.
Qed.

(** ** Two flaws of the bookkeeping *)

Lemma edge_parent d next p c jc :
  built d next -> edge d p c -> _nodeIDHash d !! c = Some jc -> p ∈ _parents jc.
Proof.
  intros Hb He Hc. apply (wf_sym d (b_graph d next Hb)) in He as (j & Hj & Hp). congruence.
Qed.

(** Dag::RemoveDependency() takes the edge out of the children of the parent and the
    parents of the child but not out of the waiting queue: a child that was waiting for the parent
    still waits for it, although the parent will not report to it any more. *)
Theorem removed_dependency_still_waits d next p c jc :
  built d next -> p <> c -> edge d p c -> _nodeIDHash d !! c = Some jc -> p ∈ _waiting jc ->
  exists d' w jc', RemoveDependency d (Some p) (Some c) = Done (d', true, w) /\
    ~ edge d' p c /\ _nodeIDHash d' !! c = Some jc' /\ (p ∉ _parents jc') /\
    p ∈ _waiting jc' /\ CanSubmit jc' = false.
Proof.
  intros Hb Hpc He Hc Hw. pose proof (edge_parent d next p c jc Hb He Hc) as Hpar.
  destruct He as (jp & Hp & Hch). pose proof (wf_ids d (b_graph d next Hb)) as Hid.
  unfold RemoveDependency. rewrite Hp, Hc. unfold HasChild, HasParent.
  rewrite (Hid c jc Hc), (Hid p jp Hp), !bool_decide_true by done. cbn [negb RemoveChild].
  unfold RemoveDependency_queue, RemoveFromQueue; cbn [_queues set_queue].
  rewrite (Hid c jc Hc), bool_decide_true by done.
  unfold put_node at 1; cbn [_nodeIDHash]. simpl. rewrite lookup_insert_ne, Hc by done. cbn [RemoveParent].
  unfold RemoveDependency_queue, RemoveFromQueue; cbn [_queues set_queue]. simpl.
  rewrite (Hid p jp Hp), bool_decide_true by done.
  eexists _, _, _. split; [done|]. split_and!.
  - intros (j & Hj & Hin). simpl in Hj. rewrite lookup_insert_ne, lookup_insert_eq in Hj by done.
    apply (inj Some) in Hj. subst j. simpl in Hin. set_solver.
  - simpl. apply lookup_insert_eq.
  - simpl. set_solver.
  - done.
  - unfold CanSubmit, QueueIsEmpty. simpl. rewrite bool_decide_false; [done|set_solver].
Qed.

(** When AddDependency() is called for a dependency that is already there and the child has
    moved on, it fails and "reverses the earlier successful AddChild()", which did nothing: the parent
    loses the child, the child keeps the parent. *)
Theorem failed_dependency_breaks_symmetry strict d next p c jp jc :
  built d next -> p <> c -> strict < 3 -> edge d p c ->
  _nodeIDHash d !! p = Some jp -> _nodeIDHash d !! c = Some jc -> _final jp = false -> _final jc = false ->
  _Status jc <> STATUS_READY -> _Status jp <> STATUS_DONE ->
  exists d', AddDependency strict d (Some p) (Some c) = Done (d', false) /\
    ~ edge d' p c /\ exists jc', _nodeIDHash d' !! c = Some jc' /\ p ∈ _parents jc'.
Proof.
  intros Hb Hpc Hst He Hp Hc Hfp Hfc Hsc Hsp. pose proof (edge_parent d next p c jc Hb He Hc) as Hpar.
  destruct He as (jp' & Hp' & Hch). assert (jp' = jp) as -> by congruence.
  pose proof (wf_ids d (b_graph d next Hb)) as Hid. unfold AddDependency, obind. rewrite Hp, Hc.
  unfold AddChild, CanAddChild, HasChild, check_warning_strictness. rewrite Hfp, (Hid c jc Hc).
  rewrite bool_decide_true, (proj2 (Z.leb_gt 3 strict)) by (done || lia). cbn [negb].
  unfold put_node at 1; simpl. rewrite lookup_insert_ne, Hc, lookup_insert_eq by done.
  unfold AddParent, CanAddParent, status_is. rewrite Hfc, !bool_decide_false by done. cbn [negb andb].
  simpl. rewrite lookup_insert_ne, !lookup_insert_eq by done. cbn [RemoveChild].
  unfold RemoveDependency_queue, RemoveFromQueue; cbn [_queues set_queue].
  rewrite (Hid c jc Hc), bool_decide_true by done. eexists. split; [done|]. split.
  - intros (j & Hj & Hin). simpl in Hj. rewrite lookup_insert_eq in Hj.
    apply (inj Some) in Hj. subst j. simpl in Hin. set_solver.
  - exists jc. split; [|done]. simpl. by rewrite lookup_insert_ne, lookup_insert_eq.
Qed.
