(* ===== verification/DagRun.v ===== *)
(** Running a DAG: the scheduler of condor_dagman/dag.cpp, its script queues (scriptQ.cpp,
    script.cpp), the job side (job.cpp) and the main loop of dagman_main.cpp.

    The handlers run in a state monad over [Run], the objects DAGMan keeps, and end in one of four
    ways: they return, leave the process through DC_Exit(), stop it with EXCEPT, or, in the model
    only, run out of fuel.  What other programs and the system answer (condor_submit, a log reader,
    Create_Process, access, time) is the oracle [World]: the n-th question gets the n-th answer, and
    the theorems hold for every oracle.  The commands given to the outside are kept in [trace].

    A [Job*] is the node's id and a [Script*] the id of its node, since a script queue holds either
    PRE or POST scripts.  A [Queue] is a list.  Debug output, the jobstate
    log, the node status file, sleeping and the counts of deferrals, which are only printed, are
    not modelled. *)

From S2P Require Import Prelude CondorId PriorityList DagJob Dag.
From S2P Require Import HashTable CheckEvents.

Open Scope Z_scope.

(** ** Events, as the log readers return them *)

Definition ULOG_CHECKPOINTED : Z := 3.
Definition ULOG_JOB_EVICTED : Z := 4.
Definition ULOG_SHADOW_EXCEPTION : Z := 7.
Definition ULOG_JOB_SUSPENDED : Z := 10.
Definition ULOG_JOB_HELD : Z := 12.
Definition ULOG_JOB_RELEASED : Z := 13.

Inductive ULogEventOutcome := ULOG_OK | ULOG_NO_EVENT | ULOG_RD_ERROR | ULOG_MISSED_EVENT | ULOG_UNK_ERROR.

(** An event with the members of its subclass that DAGMan looks at: those of JobTerminatedEvent and
    PostScriptTerminatedEvent, and the notes of SubmitEvent. *)
Record LogEvent := mkLogEvent {
  event : ULogEvent;
  normal : bool;
  returnValue : Z;
  signalNumber : Z;
  dagNodeName : bytes;
  submitEventLogNotes : option bytes
}.

(** ** The knobs of the Dag and Dagman objects *)

Class Config := mkConfig {
  strict_level : Z;
  _maxJobsSubmitted : Z;
  _maxIdleJobProcs : Z;
  _maxPreScripts : Z;
  _maxPostScripts : Z;
  _maxJobHolds : Z;
  max_submits_per_interval : Z;
  max_submit_attempts : Z;
  _alwaysRunPost : bool;
  _submitDepthFirst : bool;
  m_retryNodeFirst : bool;
  m_retrySubmitFirst : bool;
  _allowLogError : bool;
  _abortOnScarySubmit : bool;
  _generateSubdagSubmits : bool
}.

(** ** The outside *)

Inductive call :=
| CallChdir | CallChdirBack | CallCreateProcess
| CallStorkLogName | CallNFSError | CallMonitor | CallUnmonitor | CallLogFileCount | CallCheckLogFile
| CallSubmit | CallSubmitCluster | CallSubmitProc | CallSubmitSubproc
| CallRunSubmitDag | CallWriteUserLog | CallHaltFile | CallTime.

Class World := mkWorld {
  answer_bool : nat -> call -> bool;
  answer_int : nat -> call -> Z;
  strsignal : Z -> bytes
}.

Inductive action :=
| ASpawn (node : Z) (post : bool) (args : list bytes)
| ASubmit (node : Z) (ok : bool)
| ARemove (node : Z)
| ARemoveAll
| AKill (pid : Z)
| AWritePostEvent (node : Z) (e : LogEvent).

(** ** The state *)

Record ScriptQ := mkScriptQ {
  _numScriptsRunning : Z;
  _scriptPidTable : HT.HashTable Z Z;
  _waitingQueue : list Z
}.
Definition hashFuncInt (n : Z) : Z := if n <? 0 then 0 - n else n.
Definition new_ScriptQ : ScriptQ := mkScriptQ 0 (HT.initialize HT.allowDuplicateKeys) [].
#[export] Instance rebuild_ScriptQ : Rebuild ScriptQ :=
  fun q => mkScriptQ (_numScriptsRunning q) (_scriptPidTable q) (_waitingQueue q).
#[export] Instance set_numScriptsRunning : Setter _numScriptsRunning := ltac:(solve_setter).
#[export] Instance set_scriptPidTable : Setter _scriptPidTable := ltac:(solve_setter).
#[export] Instance set_waitingQueue : Setter _waitingQueue := ltac:(solve_setter).

Record Run := mkRun {
  dag : Dag;
  _preScriptQ : ScriptQ;
  _postScriptQ : ScriptQ;
  _nextSubmitTime : Z;
  _nextSubmitDelay : Z;
  _checkCondorEvents : CheckEvents;
  _checkStorkEvents : CheckEvents;
  log_unk_count : Z;
  ulog_rd_error_count : Z;
  _recoveryMaxfakeID : Z;
  _subprocID : Z;
  deep_priority : Z;
  _recovery : bool;
  inShutdownRescue : bool;
  tick : nat;
  trace : list action
}.

#[export] Instance rebuild_Run : Rebuild Run := fun s =>
  mkRun (dag s) (_preScriptQ s) (_postScriptQ s) (_nextSubmitTime s) (_nextSubmitDelay s)
    (_checkCondorEvents s) (_checkStorkEvents s) (log_unk_count s) (ulog_rd_error_count s)
    (_recoveryMaxfakeID s) (_subprocID s) (deep_priority s) (_recovery s) (inShutdownRescue s) (tick s) (trace s).
#[export] Instance set_dag : Setter dag := ltac:(solve_setter).
#[export] Instance set_preScriptQ : Setter _preScriptQ := ltac:(solve_setter).
#[export] Instance set_postScriptQ : Setter _postScriptQ := ltac:(solve_setter).
#[export] Instance set_nextSubmitTime : Setter _nextSubmitTime := ltac:(solve_setter).
#[export] Instance set_nextSubmitDelay : Setter _nextSubmitDelay := ltac:(solve_setter).
#[export] Instance set_checkCondorEvents : Setter _checkCondorEvents := ltac:(solve_setter).
#[export] Instance set_checkStorkEvents : Setter _checkStorkEvents := ltac:(solve_setter).
#[export] Instance set_log_unk_count : Setter log_unk_count := ltac:(solve_setter).
#[export] Instance set_ulog_rd_error_count : Setter ulog_rd_error_count := ltac:(solve_setter).
#[export] Instance set_recoveryMaxfakeID : Setter _recoveryMaxfakeID := ltac:(solve_setter).
#[export] Instance set_subprocID : Setter _subprocID := ltac:(solve_setter).
#[export] Instance set_deep_priority : Setter deep_priority := ltac:(solve_setter).
#[export] Instance set_recovery : Setter _recovery := ltac:(solve_setter).
#[export] Instance set_inShutdownRescue : Setter inShutdownRescue := ltac:(solve_setter).
#[export] Instance set_tick : Setter tick := ltac:(solve_setter).
#[export] Instance set_trace : Setter trace := ltac:(solve_setter).

Definition new_Run (d : Dag) (allow_events : Z) : Run :=
  mkRun d new_ScriptQ new_ScriptQ 0 1 (new_CheckEvents allow_events) (new_CheckEvents allow_events)
    0 0 0 0 0 false false 0 [].

(** ** The monad *)

Inductive result (A : Type) : Type :=
| RDone (a : A) (s : Run)
| RExit (code : Z) (s : Run)
| RExcept (msg : string)
| RFuel.
Arguments RDone {A} a s.
Arguments RExit {A} code s.
Arguments RExcept {A} msg%_string.
Arguments RFuel {A}.

Definition M (A : Type) : Type := Run -> result A.

#[export] Instance M_ret : MRet M := fun A a s => RDone a s.
#[export] Instance M_bind : MBind M := fun A B k m s =>
  match m s with
  | RDone a s' => k a s'
  | RExit code s' => RExit code s'
  | RExcept msg => RExcept msg
  | RFuel => RFuel
  end.

Definition gets {A} (f : Run -> A) : M A := fun s => RDone (f s) s.
Definition modify (f : Run -> Run) : M unit := fun s => RDone tt (f s).
Definition mod_dag (f : Dag -> Dag) : M unit := modify (fun s => s <| dag ::= f |>).
Definition fail {A} (msg : string) : M A := fun _ => RExcept msg.
Definition DC_Exit {A} (code : Z) : M A := fun s => RExit code s.
Definition ASSERT (b : bool) : M unit := if b then mret tt else fail "Assertion ERROR".
Definition when (b : bool) (m : M unit) : M unit := if b then m else mret tt.
Definition lift {A} (o : outcome A) : M A :=
  match o with Done a => mret a | EXCEPT msg => fail msg end.

(** [job->...] *)
Definition node (i : Z) : M Job := fun s =>
  match _nodeIDHash (dag s) !! i with
  | Some j => RDone j s
  | None => RExcept "dangling pointer"
  end.
Definition upd (i : Z) (f : Job -> Job) : M unit := j ← node i; mod_dag (fun d => put_node d i (f j)).

Fixpoint for_each {A} (l : list A) (f : A -> M unit) : M unit :=
  match l with
  | [] => mret tt
  | x :: l' => f x;; for_each l' f
  end.

Definition emit (a : action) : M unit := modify (fun s => s <| trace ::= fun l => l ++ [a] |>).

(** WIFSIGNALED and the like, of wait(2). *)
Definition WTERMSIG (status : Z) : Z := Z.land status 127.
Definition WIFSIGNALED (status : Z) : bool := negb (WTERMSIG status =? 0) && negb (WTERMSIG status =? 127).
Definition WEXITSTATUS (status : Z) : Z := Z.land (Z.shiftr status 8) 255.

Section Scheduler.
Context `{Config} `{World}.

Definition ask (c : call) : M bool := fun s =>
  RDone (answer_bool (tick s) c) (s <| tick ::= S |>).
Definition ask_int (c : call) : M Z := fun s =>
  RDone (answer_int (tick s) c) (s <| tick ::= S |>).

(** ** Error texts: at most 127 characters in [error_text] *)

Definition JOB_ERROR_TEXT_MAXLEN : nat := 128.
Definition snprintf (text : bytes) : bytes := take (JOB_ERROR_TEXT_MAXLEN - 1) text.
Definition after_retries (text : bytes) (j : Job) : bytes :=
  text ++ s2b " (after " ++ print_d (retries j) ++ s2b " node retries)".
Definition proc_id (e : ULogEvent) : bytes :=
  print_d (cluster e) ++ s2b "." ++ print_d (proc e) ++ s2b "." ++ print_d (subproc e).

Definition DAG_ERROR_CONDOR_SUBMIT_FAILED : Z := -1001.
Definition DAG_ERROR_CONDOR_JOB_ABORTED : Z := -1002.
Definition DAG_ERROR_LOG_MONITOR_ERROR : Z := -1003.
Definition DAG_ERROR_JOB_SKIPPED : Z := -1004.
Definition MAX_SIGNAL : Z := 64.
Definition EXIT_OKAY : Z := 0.
Definition EXIT_ERROR : Z := 1.
Definition EXIT_ABORT : Z := 2.

(** [if ( job->_scriptPost != NULL ) job->_scriptPost->_retValJob = r] and its relatives. *)
Definition post_retValJob (r : Z) (j : Job) : Job :=
  j <| _scriptPost ::= fmap (fun sc => sc <| _retValJob := r |>) |>.
Definition post_retValScript (r : Z) (j : Job) : Job :=
  j <| _scriptPost ::= fmap (fun sc => sc <| _retValScript := r |>) |>.

(** ** Log files *)

Definition LogMonitorFailed (j : Job) : Job :=
  if status_is (_Status j) STATUS_ERROR then j
  else post_retValJob DAG_ERROR_LOG_MONITOR_ERROR
         (j <| _Status := STATUS_ERROR |>
            <| error_text := snprintf (s2b "Unable to monitor node job log file") |>
            <| retval := DAG_ERROR_LOG_MONITOR_ERROR |>).

Definition MonitorLogFile (job : Z) : M bool :=
  j ← node job;
  if _logIsMonitored j then mret true
  else
    named ← (if decide (_jobType j = TYPE_CONDOR) then mret true else ask CallStorkLogName);
    if negb named then upd job LogMonitorFailed;; mret false
    else
      nfs_error ← ask CallNFSError;
      if (nfs_error : bool) then upd job LogMonitorFailed;; mret false
      else
        monitored ← ask CallMonitor;
        if negb monitored then fail "Fatal log file monitoring error!"
        else upd job (fun j => j <| _logIsMonitored := true |>);; mret true.

Definition UnmonitorLogFile (job : Z) : M unit :=
  j ← node job;
  when (_logIsMonitored j)
    (ok ← ask CallUnmonitor;
     if negb ok then fail "Fatal log file monitoring error!"
     else upd job (fun j => j <| _logIsMonitored := false |>)).

(** ** Counts *)

Definition node_failed : M unit :=
  mod_dag (fun d =>
    let d := d <| _numNodesFailed ::= Z.succ |> in
    if decide (_dagStatus d = DAG_STATUS_OK) then d <| _dagStatus := DAG_STATUS_NODE_FAILED |> else d).

Definition UpdateJobCounts (job change : Z) : M unit :=
  mod_dag (fun d => d <| _numJobsSubmitted ::= Z.add change |>);;
  n ← gets (fun s => _numJobsSubmitted (dag s));
  ASSERT (0 <=? n);;
  j ← node job;
  match _throttleInfo j with
  | None => mret tt
  | Some category =>
      mod_dag (fun d => d <| _catThrottles ::= alter (fun t => t <| _currentJobs ::= Z.add change |>) category |>);;
      t ← gets (fun s => _catThrottles (dag s) !! category);
      match t with
      | Some t => ASSERT (0 <=? _currentJobs t)
      | None => fail "dangling pointer"
      end
  end.

Definition DecrementJobCounts (job : Z) : M unit :=
  upd job (fun j => j <| _queuedNodeJobProcs ::= Z.pred |>);;
  j ← node job;
  ASSERT (0 <=? _queuedNodeJobProcs j);;
  when (_queuedNodeJobProcs j =? 0) (UpdateJobCounts job (-1)).

(** ** Job ids *)

Definition NOOP_NODE_PROCID : Z := INT_MAX.
Definition JobIsNoop (id : CondorID) : bool := (_cluster id =? 0) && (_proc id =? NOOP_NODE_PROCID).
Definition GetIndexID (id : CondorID) : Z := if JobIsNoop id then _subproc id else _cluster id.
Definition _defaultCondorId : CondorID := mkCondorID (-1) (-1) (-1).

(** GetEventIDHash(): the table to read, and its update. *)
Definition GetEventIDHash (isNoop : bool) (jobType : job_type_t) (d : Dag) : gmap Z Z :=
  if isNoop then _noopIDHash d
  else match jobType with TYPE_CONDOR => _condorIDHash d | TYPE_STORK => _storkIDHash d end.
Definition set_EventIDHash (isNoop : bool) (jobType : job_type_t) (f : gmap Z Z -> gmap Z Z) (d : Dag) : Dag :=
  if isNoop then d <| _noopIDHash ::= f |>
  else match jobType with
       | TYPE_CONDOR => d <| _condorIDHash ::= f |>
       | TYPE_STORK => d <| _storkIDHash ::= f |>
       end.
Definition hash_remove (isNoop : bool) (jobType : job_type_t) (id : Z) (msg : string) : M unit :=
  found ← gets (fun s => GetEventIDHash isNoop jobType (dag s) !! id);
  match found with
  | None => fail msg
  | Some _ => mod_dag (set_EventIDHash isNoop jobType (delete id))
  end.
Definition hash_insert (isNoop : bool) (jobType : job_type_t) (id job : Z) : M unit :=
  found ← gets (fun s => GetEventIDHash isNoop jobType (dag s) !! id);
  match found with
  | Some _ => fail "Assertion ERROR on (insertResult == 0)"
  | None => mod_dag (set_EventIDHash isNoop jobType (<[id := job]>))
  end.

(** ** The ready queue *)

Definition ready_prepend (job : Z) : M unit :=
  j ← node job; mod_dag (fun d => d <| _readyQ ::= fun q => Prepend q job (- _nodePriority j) |>).
Definition ready_append (job : Z) : M unit :=
  j ← node job; mod_dag (fun d => d <| _readyQ ::= fun q => Append q job (- _nodePriority j) |>).

(** Job::FixPriority() *)
Definition raise_priority (d : Dag) (j : Job) (p : Z) : Job :=
  match _nodeIDHash d !! p with
  | Some parent =>
      if _hasNodePriority parent && (_nodePriority j <? _nodePriority parent)
      then j <| _nodePriority := _nodePriority parent |> <| _hasNodePriority := true |> else j
  | None => j
  end.
Definition FixPriority (job : Z) : M unit :=
  d ← gets dag;
  upd job (fun j => foldl (raise_priority d) j (ascending_ids (_parents j))).

(** ** Scripts *)

Definition dag_status_code (st : dag_status) : Z :=
  match st with
  | DAG_STATUS_OK => 0 | DAG_STATUS_ERROR => 1 | DAG_STATUS_NODE_FAILED => 2 | DAG_STATUS_ABORT => 3
  | DAG_STATUS_RM => 4 | DAG_STATUS_CYCLE => 5 | DAG_STATUS_HALTED => 6
  end.

(** strtok() with blanks and tabs. *)
Fixpoint tokens (s : bytes) (cur : bytes) : list bytes :=
  match s with
  | [] => match cur with [] => [] | _ => [cur] end
  | c :: s' =>
      if bool_decide (c = SP) || bool_decide (c = TAB)
      then match cur with [] => tokens s' [] | _ => cur :: tokens s' [] end
      else tokens s' (cur ++ [c])
  end.

(** The argument for a token, and whether it draws a warning. *)
Definition expand_token (j : Job) (sc : Script) (status failedCount : Z) (token : bytes) : bytes * bool :=
  if strcaseeq token (s2b "$JOB") then (_jobName j, false)
  else if strcaseeq token (s2b "$RETRY") then (print_d (retries j), false)
  else if strcaseeq token (s2b "$MAX_RETRIES") then (print_d (retry_max j), false)
  else if strcaseeq token (s2b "$JOBID") then
    if _post sc then (print_d (_cluster (_CondorID j)) ++ s2b "." ++ print_d (_proc (_CondorID j)), false)
    else (token, true)
  else if strcaseeq token (s2b "$RETURN") then (print_d (_retValJob sc), negb (_post sc))
  else if strcaseeq token (s2b "$PRE_SCRIPT_RETURN") then (print_d (_retValScript sc), negb (_post sc))
  else if strcaseeq token (s2b "$DAG_STATUS") then (print_d status, false)
  else if strcaseeq token (s2b "$FAILED_COUNT") then (print_d failedCount, false)
  else match token with
       | "$"%char :: _ => (token, true)
       | _ => (token, false)
       end.
Definition script_args (j : Job) (sc : Script) (status failedCount : Z) : list (bytes * bool) :=
  expand_token j sc status failedCount <$> tokens (_cmd sc) [].

Definition script_of (post : bool) (j : Job) : option Script := if post then _scriptPost j else _scriptPre j.
Definition set_script (post : bool) (f : Script -> Script) (j : Job) : Job :=
  if post then j <| _scriptPost ::= fmap f |> else j <| _scriptPre ::= fmap f |>.
Definition script (post : bool) (job : Z) : M Script :=
  j ← node job;
  match script_of post j with Some sc => mret sc | None => fail "dangling pointer" end.

Definition scriptQ (post : bool) (s : Run) : ScriptQ := if post then _postScriptQ s else _preScriptQ s.
Definition mod_scriptQ (post : bool) (f : ScriptQ -> ScriptQ) : M unit :=
  modify (fun s => if post then s <| _postScriptQ ::= f |> else s <| _preScriptQ ::= f |>).

(** ** Ending: main_shutdown_rescue() *)

(** Everything from here to [StartNode] is written against a given StartNode(), through which every
    recursive call goes: a node that is started may end at once and start others. *)
Section Open.
Variable start : Z -> bool -> M bool.

(** The loop of StartFinalNode() over the ready queue; [n] is the number of its elements, each of
    which takes one turn. *)
Fixpoint clear_ready (is_final : Z -> bool) (n : nat) (q : PrioritySimpleList Z) : PrioritySimpleList Z :=
  match n with
  | O => q
  | S n' =>
      match Next q with
      | (q', None) => q'
      | (q', Some job) => clear_ready is_final n' (if is_final job then q' else DeleteCurrent q')
      end
  end.
Definition node_is_final (d : Dag) (job : Z) : bool :=
  match _nodeIDHash d !! job with Some j => _final j | None => false end.

Definition StartFinalNode : M bool :=
  d ← gets dag;
  match _final_job d with
  | None => mret false
  | Some f =>
      j ← node f;
      if negb (status_is (_Status j) STATUS_NOT_READY) then mret false
      else
        mod_dag (fun d => d <| _readyQ ::= fun q =>
          clear_ready (node_is_final d) (length (items q)) (Rewind q) |>);;
        upd f (fun j => SetStatus j STATUS_READY);;
        started ← start f false;
        if (started : bool) then mod_dag (fun d => d <| _runningFinalNode := true |>);; mret true
        else mret false
  end.

(** Dag::RemoveRunningJobs() with bForce == false *)
Definition RemoveRunningJobs : M unit :=
  d ← gets dag;
  let typed ty job := match _nodeIDHash d !! job with Some j => bool_decide (_jobType j = ty) | None => false end in
  when (existsb (typed TYPE_CONDOR) (_jobs d)) (emit ARemoveAll);;
  for_each (_jobs d) (fun job =>
    j ← node job;
    when (bool_decide (_jobType j = TYPE_STORK) && status_is (_Status j) STATUS_SUBMITTED) (emit (ARemove job))).
Definition RemoveRunningScripts : M unit :=
  jobs ← gets (fun s => _jobs (dag s));
  for_each jobs (fun job =>
    j ← node job;
    if status_is (_Status j) STATUS_PRERUN then
      match _scriptPre j with
      | None => fail "Node has no PRE script!"
      | Some sc => when (negb (_pid sc =? 0)) (emit (AKill (_pid sc)))
      end
    else if status_is (_Status j) STATUS_POSTRUN then
      match _scriptPost j with
      | None => fail "Node has no POST script!"
      | Some sc => when (negb (_pid sc =? 0)) (emit (AKill (_pid sc)))
      end
    else mret tt).

Definition main_shutdown_rescue (exitVal : Z) (dagStatus : dag_status) : M unit :=
  again ← gets inShutdownRescue;
  if (again : bool) then mret tt
  else
    modify (fun s => s <| inShutdownRescue := true |>);;
    mod_dag (fun d => d <| _dagStatus := dagStatus |>);;
    s ← gets id;
    when (0 <? _numJobsSubmitted (dag s)) RemoveRunningJobs;;
    when (0 <? _numScriptsRunning (_preScriptQ s) + _numScriptsRunning (_postScriptQ s)) RemoveRunningScripts;;
    started ← StartFinalNode;
    modify (fun s => s <| inShutdownRescue := false |>);;
    if (started : bool) then mret tt else DC_Exit exitVal.

(** check_warning_strictness() *)
Definition warn (level : Z) : M unit :=
  when (level <=? strict_level) (main_shutdown_rescue EXIT_ERROR DAG_STATUS_ERROR).

Definition CheckForDagAbort (job : Z) : M bool :=
  j ← node job;
  match abort_dag_val j with
  | None => mret false
  | Some v =>
      if negb (retval j =? v) then mret false
      else
        match abort_dag_return_val j with
        | Some r => main_shutdown_rescue r (if r =? 0 then DAG_STATUS_OK else DAG_STATUS_ABORT)
        | None => main_shutdown_rescue (retval j) DAG_STATUS_ABORT
        end;;
        mret true
  end.

(** ** Running scripts *)

(** Script::BackgroundRun(): the process id, or 0. *)
Definition BackgroundRun (post : bool) (job : Z) : M Z :=
  sc ← script post job;
  there ← ask CallChdir;
  if negb there then mret 0
  else
    j ← node job;
    d ← gets dag;
    let args := script_args j sc (dag_status_code (_dagStatus d)) (_numNodesFailed d) in
    for_each args (fun '(_, warning) => when warning (warn 1));;
    emit (ASpawn job post (fst <$> args));;
    pid ← ask_int CallCreateProcess;
    upd job (set_script post (fun sc => sc <| _pid := pid |>));;
    back ← ask CallChdirBack;
    mret (if negb back then 0 else pid).

(** ScriptQ::Run(), given the two reapers of the Dag: must the script wait, or else start it.  A
    script that cannot be started is reaped at once with exit status 1. *)
Definition deferScript (post : bool) (job : Z) : M bool :=
  j ← node job;
  halted ← gets (fun s => _dagIsHalted (dag s));
  running ← gets (fun s => _numScriptsRunning (scriptQ post s));
  let maxScripts := if post then _maxPostScripts else _maxPreScripts in
  mret ((halted && negb post && negb (_final j)) || (negb (maxScripts =? 0) && (maxScripts <=? running))).
Definition start_script (reaper : bool -> bytes -> Z -> M unit) (post : bool) (job : Z) : M Z :=
  pid ← BackgroundRun post job;
  if negb (pid =? 0) then
    mod_scriptQ post (fun q => q <| _numScriptsRunning ::= Z.succ |>
      <| _scriptPidTable ::= fun t => (HT.insert hashFuncInt t pid job).1 |>);;
    mret 1
  else
    j ← node job;
    reaper post (_jobName j) (Z.shiftl 1 8);; mret 0.
Definition ScriptQ_Run (reaper : bool -> bytes -> Z -> M unit) (post : bool) (job : Z) : M Z :=
  wait ← deferScript post job;
  if (wait : bool) then mod_scriptQ post (fun q => q <| _waitingQueue ::= fun l => l ++ [job] |>);; mret 0
  else start_script reaper post job.

(** ** The end of a node *)

(** Dag::TerminateJob() *)
Definition TerminateJob (job : Z) (recovery bootstrap : bool) : M unit :=
  ASSERT (negb (recovery && bootstrap));;
  mod_dag (fun d => if decide (_final_job d = Some job) then d <| _runningFinalNode := false |> else d);;
  upd job TerminateSuccess;;
  j ← node job;
  when (negb (countedAsDone j))
    (mod_dag (fun d => d <| _numNodesDone ::= Z.succ |>);;
     upd job (fun j => j <| countedAsDone := true |>);;
     d ← gets dag;
     ASSERT (_numNodesDone d <=? Z.of_nat (length (_jobs d))));;
  for_each (ascending_ids (_children j)) (fun child =>
    upd child (fun c => (RemoveFromQueue Q_WAITING (_jobID j) c).1);;
    c ← node child;
    when (status_is (_Status c) STATUS_READY && QueueIsEmpty Q_WAITING c && negb bootstrap)
      (if recovery then MonitorLogFile child;; mret tt
       else start child false;; mret tt)).

Definition RestartNode (job : Z) (recovery : bool) : M unit :=
  j ← node job;
  if negb (status_is (_Status j) STATUS_ERROR) then fail "Node is not in ERROR state"
  else if bool_decide (retry_abort_val j = Some (retval j)) then node_failed
  else
    upd job (fun j => SetStatus j STATUS_READY);;
    upd job (fun j => j <| retries ::= Z.succ |>);;
    j ← node job;
    ASSERT (retries j <=? retry_max j);;
    upd job (fun j => j <| _scriptPre ::= fmap (fun sc => sc <| _done := false |>) |>);;
    upd job (fun j => j <| error_text := [] |>);;
    if negb recovery then start job true;; mret tt
    else
      j ← node job;
      when (negb (bool_decide (_CondorID j = _defaultCondorId)))
        (hash_remove (_noop j) (_jobType j) (GetIndexID (_CondorID j)) "Event ID hash table error!");;
      upd job (fun j => j <| _CondorID := _defaultCondorId |>);;
      MonitorLogFile job;; mret tt.

(** The node has failed: another try, or one more failed node. *)
Definition post_failed_text (j : Job) (mainJobRetval : Z) (e : LogEvent) : bytes :=
  let text :=
    (if 0 <? mainJobRetval then s2b "Job exited with status " ++ print_d mainJobRetval ++ s2b " and "
     else if (mainJobRetval <? 0) && (- MAX_SIGNAL <=? mainJobRetval)
     then s2b "Job died on signal " ++ print_d (0 - mainJobRetval) ++ s2b " and "
     else s2b "Job failed due to DAGMAN error " ++ print_d mainJobRetval ++ s2b " and ") ++
    (if normal e then s2b "POST Script failed with status " ++ print_d (returnValue e)
     else s2b "POST Script died on signal " ++ print_d (signalNumber e)) in
  if 0 <? retry_max j then after_retries text j else text.

Definition ProcessPostTermEvent (e : LogEvent) (job : Z) (recovery : bool) : M unit :=
  UnmonitorLogFile job;;
  j ← node job;
  (if status_is (_Status j) STATUS_POSTRUN then mod_dag (fun d => d <| _postRunNodeCount ::= Z.pred |>)
   else ASSERT recovery);;
  (if negb (normal e && (returnValue e =? 0)) then
     let mainJobRetval := retval j in
     upd job TerminateFailure;;
     (if normal e then
        upd job (fun j => j <| error_text := snprintf (s2b "POST script failed with status " ++ print_d (returnValue e)) |>
                            <| retval := returnValue e |>)
      else
        upd job (fun j => j <| error_text := snprintf (s2b "POST Script died on signal " ++ print_d (signalNumber e)) |>
                            <| retval := 0 - signalNumber e |>));;
     j ← node job;
     (if retries j <? retry_max j then RestartNode job recovery
      else
        node_failed;;
        upd job (fun j => j <| error_text := snprintf (post_failed_text j mainJobRetval e) |>))
   else
     ASSERT (returnValue e =? 0);;
     upd job (fun j => j <| retval := 0 |>);;
     TerminateJob job recovery false);;
  CheckForDagAbort job;; mret tt.

(** Dag::PostScriptReaper().  The result of a POST script comes back through the log, except for a
    Stork job. *)
Definition find_node (nodeName : bytes) : M Z :=
  d ← gets dag;
  found ← lift (FindNodeByName d nodeName);
  match found with Some job => mret job | None => fail "Assertion ERROR on (job != NULL)" end.

Definition post_event (nodeName : bytes) (status cl pr sub : Z) : LogEvent :=
  if WIFSIGNALED status
  then mkLogEvent (mkEvent ULOG_POST_SCRIPT_TERMINATED cl pr sub) false (-1) status nodeName None
  else mkLogEvent (mkEvent ULOG_POST_SCRIPT_TERMINATED cl pr sub) true (WEXITSTATUS status) (-1) nodeName None.

Definition PostScriptReaper (nodeName : bytes) (status : Z) : M unit :=
  job ← find_node nodeName;
  j ← node job;
  if negb (status_is (_Status j) STATUS_POSTRUN) then fail "Node is not in POSTRUN state"
  else
    let id := _CondorID j in
    match _jobType j with
    | TYPE_STORK =>
        recovery ← gets _recovery;
        ProcessPostTermEvent (post_event nodeName status (_cluster id) (_proc id) (_subproc id)) job recovery
    | TYPE_CONDOR =>
        let e := post_event nodeName status (_cluster id) (if _noop j then _proc id else 0)
                   (if _noop j then _subproc id else 0) in
        written ← ask CallWriteUserLog;
        if (written : bool) then emit (AWritePostEvent job e)
        else main_shutdown_rescue EXIT_ERROR DAG_STATUS_ERROR
    end.

Definition RunPostScript (job : Z) (ignore_status : bool) (status : Z) (incrementRunCount : bool) : M bool :=
  j ← node job;
  match _scriptPost j with
  | None => mret false
  | Some _ =>
      if negb ignore_status && negb (status =? 0) then mret false
      else
        upd job (fun j => SetStatus j STATUS_POSTRUN);;
        monitored ← MonitorLogFile job;
        if negb monitored then mret false
        else
          when incrementRunCount (mod_dag (fun d => d <| _postRunNodeCount ::= Z.succ |>));;
          ScriptQ_Run (fun _ => PostScriptReaper) true job;;
          mret true
  end.

Definition GetExceptionString (sig : Z) : bytes :=
  let sig := if 64 <? sig then WTERMSIG sig else sig in
  s2b "signal " ++ print_d sig ++ s2b " (" ++ strsignal sig ++ s2b ")".

(** What a failed PRE script leads to. *)
Definition pre_script_failed (job : Z) : M unit :=
  upd job TerminateFailure;;
  j ← node job;
  if HasPreSkip j && (_preskip j =? retval j) then
    upd job (fun j => j <| retval := 0 |>);;
    TerminateJob job false false
  else if _alwaysRunPost && bool_decide (is_Some (_scriptPost j)) then
    upd job (post_retValScript (retval j));;
    upd job (post_retValJob DAG_ERROR_JOB_SKIPPED);;
    RunPostScript job _alwaysRunPost (retval j) true;; mret tt
  else if retries j <? retry_max j then
    upd job TerminateFailure;;
    RestartNode job false
  else
    node_failed;;
    when (0 <? retry_max j)
      (upd job (fun j => j <| error_text := snprintf (after_retries (error_text j) j) |>)).

Definition PreScriptReaper (nodeName : bytes) (status : Z) : M unit :=
  job ← find_node nodeName;
  j ← node job;
  if negb (status_is (_Status j) STATUS_PRERUN) then fail "node is not in PRERUN state"
  else
    mod_dag (fun d => d <| _preRunNodeCount ::= Z.pred |>);;
    (if WIFSIGNALED status then
       upd job (fun j => j <| error_text := snprintf (s2b "PRE Script died on " ++ GetExceptionString status) |>
                           <| retval := 0 - WTERMSIG status |>);;
       pre_script_failed job
     else if negb (WEXITSTATUS status =? 0) then
       upd job (fun j => j <| error_text := snprintf (s2b "PRE Script failed with status " ++ print_d (WEXITSTATUS status)) |>
                           <| retval := WEXITSTATUS status |>);;
       pre_script_failed job
     else
       upd job (post_retValScript 0);;
       upd job (fun j => j <| retval := 0 |>);;
       upd job (fun j => SetStatus j STATUS_READY);;
       if _submitDepthFirst then ready_prepend job else ready_append job);;
    CheckForDagAbort job;; mret tt.

Definition reaper (post : bool) : bytes -> Z -> M unit := if post then PostScriptReaper else PreScriptReaper.
Definition RunScript : bool -> Z -> M Z := ScriptQ_Run reaper.

Definition StartNode_body (job : Z) (isRetry : bool) : M bool :=
  j ← node job;
  if negb (CanSubmit j) then fail "Node not ready to submit!"
  else
    if match _scriptPre j with Some sc => negb (_done sc) | None => false end then
      upd job (fun j => SetStatus j STATUS_PRERUN);;
      mod_dag (fun d => d <| _preRunNodeCount ::= Z.succ |>);;
      RunScript false job;;
      mret true
    else
      FixPriority job;;
      (if isRetry && m_retryNodeFirst then ready_prepend job
       else
         upd job (fun j =>
           if _hasNodePriority j
           then j <| varsFromDag ::= fun l => l ++ [(s2b "priority", print_d (_nodePriority j))] |> else j);;
         if _submitDepthFirst then ready_prepend job else ready_append job);;
      mret true.
End Open.

(** StartNode() with bounded nesting; DagTermination.v shows how much is enough. *)
Fixpoint StartNode (fuel : nat) (job : Z) (isRetry : bool) : M bool :=
  match fuel with
  | O => fun _ => RFuel
  | S fuel' => StartNode_body (StartNode fuel') job isRetry
  end.

(** ** Submitting *)

Section Handlers.
Variable fuel : nat.
Notation start := (StartNode fuel).

Inductive submit_result_t := SUBMIT_RESULT_OK | SUBMIT_RESULT_FAILED | SUBMIT_RESULT_NO_SUBMIT.

(** swap_priorities() *)
Definition swap_priorities (job : Z) : M unit :=
  j ← node job;
  p ← gets deep_priority;
  upd job (fun j => j <| _nodePriority := p |>);;
  modify (fun s => s <| deep_priority := _nodePriority j |>).

(** fake_condor_submit() for a NOOP node: it writes the submit and terminated events itself. *)
Definition fake_condor_submit : M (option CondorID) :=
  there ← ask CallChdir;
  if negb there then mret None
  else
    modify (fun s => s <| _subprocID ::= Z.succ |>);;
    sub ← gets _subprocID;
    w1 ← ask CallWriteUserLog;
    if negb w1 then fail "Error: writing dummy submit event for NOOP node failed!"
    else
      w2 ← ask CallWriteUserLog;
      if negb w2 then fail "Error: writing dummy terminated event for NOOP node failed!"
      else mret (Some (mkCondorID 0 NOOP_NODE_PROCID sub)).

(** condor_submit() and stork_submit(): the id read from the output of the command. *)
Definition condor_submit (job : Z) : M (option CondorID) :=
  ok ← ask CallSubmit;
  emit (ASubmit job ok);;
  if negb ok then mret None
  else
    c ← ask_int CallSubmitCluster; p ← ask_int CallSubmitProc; sp ← ask_int CallSubmitSubproc;
    mret (Some (mkCondorID c p sp)).

(** condor_submit_dag -no_submit for a nested DAG; [false] is its failure. *)
Definition run_submit_dag (job : Z) : M bool :=
  j ← node job;
  if bool_decide (_jobType j = TYPE_CONDOR) && negb (_noop j) && bool_decide (is_Some (_dagFile j)) &&
     _generateSubdagSubmits
  then
    p ← gets deep_priority;
    when (_hasNodePriority j && (p <? _nodePriority j)) (swap_priorities job);;
    ok ← ask CallRunSubmitDag;
    j ← node job;
    p ← gets deep_priority;
    when (_hasNodePriority j && (_nodePriority j <? p)) (swap_priorities job);;
    mret ok
  else mret true.

Definition SubmitNodeJob (job : Z) (condorID : CondorID) : M (submit_result_t * CondorID) :=
  j ← node job;
  when (negb (_cluster (_CondorID j) =? _cluster _defaultCondorId))
    (ASSERT (Bool.eqb (JobIsNoop condorID) (_noop j));;
     hash_remove (_noop j) (_jobType j) (GetIndexID (_CondorID j)) "Assertion ERROR on (removeResult == 0)");;
  upd job (fun j => j <| _CondorID := _defaultCondorId |>);;
  generated ← run_submit_dag job;
  if negb generated then mret (SUBMIT_RESULT_NO_SUBMIT, condorID)
  else
    monitored ← MonitorLogFile job;
    if negb monitored then mret (SUBMIT_RESULT_NO_SUBMIT, condorID)
    else
      no_log ← (if negb _allowLogError && bool_decide (_jobType j = TYPE_STORK)
                then has ← ask CallCheckLogFile; mret (negb has) else mret false);
      if (no_log : bool) then
        upd job TerminateFailure;;
        upd job (fun j => j <| error_text := snprintf (s2b "No 'log =' value found in submit file " ++ _cmdFile j) |>);;
        node_failed;;
        mret (SUBMIT_RESULT_NO_SUBMIT, condorID)
      else
        upd job (fun j => j <| _submitTries ::= Z.succ |>);;
        submitted ← (if _noop j then fake_condor_submit else condor_submit job);
        match submitted with
        | Some id => mret (SUBMIT_RESULT_OK, id)
        | None => mret (SUBMIT_RESULT_FAILED, condorID)
        end.

Definition ProcessSuccessfulSubmit (job : Z) (condorID : CondorID) : M unit :=
  modify (fun s => s <| _nextSubmitTime := 0 |> <| _nextSubmitDelay := 1 |>);;
  mod_dag (fun d => d <| _submitQ ::= fun q => q ++ [job] |>);;
  upd job (fun j => SetStatus j STATUS_SUBMITTED);;
  UpdateJobCounts job 1;;
  upd job (fun j => j <| _CondorID := condorID |>);;
  j ← node job;
  ASSERT (Bool.eqb (JobIsNoop condorID) (_noop j));;
  hash_insert (_noop j) (_jobType j) (GetIndexID condorID) job.

Definition ProcessFailedSubmit (job : Z) : M unit :=
  now ← ask_int CallTime;
  modify (fun s => s <| _nextSubmitTime := now + _nextSubmitDelay s |> <| _nextSubmitDelay ::= Z.mul 2 |>);;
  UnmonitorLogFile job;;
  j ← node job;
  if max_submit_attempts <=? _submitTries j then
    modify (fun s => s <| _nextSubmitTime := 0 |> <| _nextSubmitDelay := 1 |>);;
    upd job (fun j => j <| error_text := snprintf (s2b "Job submit failed") |>);;
    upd job (fun j => j <| retries := retry_max j |>);;
    if bool_decide (is_Some (_scriptPost j)) then
      upd job (post_retValJob DAG_ERROR_CONDOR_SUBMIT_FAILED);;
      RunPostScript start job _alwaysRunPost 0 true;; mret tt
    else
      upd job TerminateFailure;;
      node_failed
  else if m_retrySubmitFirst then ready_prepend job else ready_append job.

(** The while loop of SubmitReadyJobs().  Each turn takes a node from the ready queue, and only the
    last one may put any back: [n] turns are enough for [n] nodes. *)
Definition throttled (d : Dag) (j : Job) : bool :=
  match _throttleInfo j ≫= fun category => _catThrottles d !! category with
  | Some t => isSet t && (_maxJobs t <=? _currentJobs t)
  | None => false
  end.

Definition submit_turn (again : PrioritySimpleList Z -> Z -> M (PrioritySimpleList Z * Z))
    (deferred : PrioritySimpleList Z) (submits : Z) : M (PrioritySimpleList Z * Z) :=
  if max_submits_per_interval <=? submits then mret (deferred, submits)
  else
    d ← gets dag;
    if IsEmpty (_readyQ d) then mret (deferred, submits)
    else if negb (_maxJobsSubmitted =? 0) && (_maxJobsSubmitted <=? _numJobsSubmitted d) then mret (deferred, submits)
    else if negb (_maxIdleJobProcs =? 0) && (_maxIdleJobProcs <=? _numIdleJobProcs d) then mret (deferred, submits)
    else
      match Next (Rewind (_readyQ d)) with
      | (_, None) => fail "Assertion ERROR on (job != NULL)"
      | (q, Some job) =>
          mod_dag (fun d => d <| _readyQ := DeleteCurrent q |>);;
          j ← node job;
          if negb (status_is (_Status j) STATUS_READY) then fail "Job status is not STATUS_READY"
          else if throttled d j then again (Prepend deferred job (- _nodePriority j)) submits
          else
            r ← SubmitNodeJob job (mkCondorID 0 0 0);
            match r with
            | (SUBMIT_RESULT_OK, condorID) =>
                ProcessSuccessfulSubmit job condorID;; again deferred (submits + 1)
            | (SUBMIT_RESULT_FAILED, _) => ProcessFailedSubmit job;; mret (deferred, submits)
            | (SUBMIT_RESULT_NO_SUBMIT, _) => again deferred submits
            end
      end.
Fixpoint submit_loop (n : nat) : PrioritySimpleList Z -> Z -> M (PrioritySimpleList Z * Z) :=
  match n with
  | O => submit_turn (fun _ _ _ => RFuel)
  | S n' => submit_turn (submit_loop n')
  end.

(** ScriptQ::RunWaitingScript() and RunAllWaitingScripts().  A script that is deferred again ends
    the loop, so each turn but the last shortens the queue, which only a nested StartNode() makes
    longer. *)
Definition RunWaitingScript (post : bool) : M Z :=
  waiting ← gets (fun s => _waitingQueue (scriptQ post s));
  match waiting with
  | [] => mret 0
  | job :: rest =>
      mod_scriptQ post (fun q => q <| _waitingQueue := rest |>);;
      RunScript start post job
  end.
Fixpoint RunAllWaitingScripts (n : nat) (post : bool) : M unit :=
  match n with
  | O => fun _ => RFuel
  | S n' => r ← RunWaitingScript post; when (0 <? r) (RunAllWaitingScripts n' post)
  end.

Definition SubmitReadyJobs : M Z :=
  next ← gets _nextSubmitTime;
  now ← (if next =? 0 then mret 0 else ask_int CallTime);
  if negb (next =? 0) && (now <? next) then mret 0
  else
    prevDagIsHalted ← gets (fun s => _dagIsHalted (dag s));
    halted ← ask CallHaltFile;
    mod_dag (fun d => d <| _dagIsHalted := halted |>);;
    running_final ← gets (fun s => _runningFinalNode (dag s));
    if halted && negb running_final then mret 0
    else
      when prevDagIsHalted
        (n ← gets (fun s => length (_waitingQueue (_preScriptQ s)));
         RunAllWaitingScripts (S (n + fuel)) false);;
      n ← gets (fun s => length (items (_readyQ (dag s))));
      r ← submit_loop n new_PrioritySimpleList 0;
      let '(deferred, submits) := r in
      for_each (items deferred) ready_prepend;;
      mret submits.

(** ScriptQ::ScriptReaper() *)
Definition ScriptReaper (post : bool) (pid status : Z) : M unit :=
  found ← gets (fun s => HT.lookup hashFuncInt (_scriptPidTable (scriptQ post s)) pid);
  match found with
  | None => fail "Assertion ERROR on (script != NULL)"
  | Some job =>
      mod_scriptQ post (fun q => q <| _scriptPidTable ::= fun t => (HT.remove hashFuncInt t pid).1 |> <| _numScriptsRunning ::= Z.pred |>);;
      sc ← script post job;
      if negb (pid =? _pid sc) then fail "Reaper pid does not match expected script pid!"
      else
        upd job (set_script post (fun sc => sc <| _done := true |>));;
        j ← node job;
        reaper start post (_jobName j) status;;
        RunWaitingScript post;; mret tt
  end.

(** ** Events *)

Definition FindNodeByEventID (logsource : job_type_t) (condorID : CondorID) : M (option Z) :=
  if _cluster condorID =? -1 then mret None
  else
    let isNoop := JobIsNoop condorID in
    found ← gets (fun s => GetEventIDHash isNoop logsource (dag s) !! GetIndexID condorID);
    match found with
    | None => mret None
    | Some job =>
        j ← node job;
        (if _cluster condorID =? _cluster (_CondorID j) then mret tt
         else if negb (_cluster (_CondorID j) =? _cluster _defaultCondorId)
         then fail "Searched for node for cluster; got another!!"
         else warn start 3);;
        ASSERT (Bool.eqb isNoop (_noop j));;
        mret (Some job)
    end.

(** sscanf( notes, "DAG Node: %1023s", nodeName ) == 1 *)
Fixpoint match_text (format s : bytes) : option bytes :=
  match format with
  | [] => Some s
  | f :: format' =>
      if isspace f then match_text format' (skip_spaces s)
      else match s with
           | c :: s' => if bool_decide (c = f) then match_text format' s' else None
           | [] => None
           end
  end.
Fixpoint word (s : bytes) : bytes :=
  match s with
  | [] => []
  | c :: s' => if isspace c then [] else c :: word s'
  end.
Definition scan_node_name (notes : bytes) : option bytes :=
  match match_text (s2b "DAG Node: ") (until_nul notes) with
  | None => None
  | Some s => match word (skip_spaces s) with [] => None | w => Some (take 1023 w) end
  end.

Definition SanityCheckSubmitEvent (condorID : CondorID) (job : Z) : M bool :=
  j ← node job;
  if bool_decide (_CondorID j = _defaultCondorId) then mret true
  else if _cluster condorID =? _cluster (_CondorID j) then mret true
  else if _abortOnScarySubmit then main_shutdown_rescue start EXIT_ERROR DAG_STATUS_ERROR;; mret true
  else mret false.

(** Dag::LogEventNodeLookup(): the node, and whether a submit event is sane. *)
Definition submit_event_node (logsource : job_type_t) (condorID : CondorID) (notes : option bytes)
  : M (option Z * bool) :=
  match notes ≫= scan_node_name with
  | None => mret (None, false)
  | Some nodeName =>
      d ← gets dag;
      found ← lift (FindNodeByName d nodeName);
      match found with
      | None => mret (None, false)
      | Some job =>
          sane ← SanityCheckSubmitEvent condorID job;
          upd job (fun j => j <| _CondorID := condorID |>);;
          let isNoop := JobIsNoop condorID in
          j ← node job;
          ASSERT (Bool.eqb isNoop (_noop j));;
          let id := GetIndexID condorID in
          known ← gets (fun s => GetEventIDHash isNoop logsource (dag s) !! id);
          match known with
          | None => hash_insert isNoop logsource id job
          | Some other => ASSERT (other =? job)
          end;;
          mret (Some job, sane)
      end
  end.
Definition LogEventNodeLookup (logsource : job_type_t) (e : LogEvent) : M (option Z * bool) :=
  let condorID := event_id (event e) in
  if eventNumber (event e) =? ULOG_SUBMIT then submit_event_node logsource condorID (submitEventLogNotes e)
  else
    found ← FindNodeByEventID logsource condorID;
    match found with
    | Some job => mret (Some job, false)
    | None =>
        if (eventNumber (event e) =? ULOG_POST_SCRIPT_TERMINATED) && (cluster (event e) =? -1) then
          d ← gets dag;
          found ← lift (FindNodeByName d (dagNodeName e));
          mret (found, false)
        else mret (None, false)
    end.

(** Dag::EventSanityCheck(): whether to go on with the event, and whether with the DAG. *)
Definition EventSanityCheck (logsource : job_type_t) (e : ULogEvent) : M (bool * bool) :=
  checkResult ← (fun s =>
    match logsource with
    | TYPE_CONDOR => let '(c, (_, r)) := CheckAnEvent (_checkCondorEvents s) e in
                     RDone r (s <| _checkCondorEvents := c |>)
    | TYPE_STORK => let '(c, (_, r)) := CheckAnEvent (_checkStorkEvents s) e in
                    RDone r (s <| _checkStorkEvents := c |>)
    end);
  mret match checkResult with
       | EVENT_OKAY | EVENT_WARNING => (true, true)
       | EVENT_BAD_EVENT => (false, true)
       | EVENT_ERROR => (false, false)
       end.

(** condor_rm or stork_rm of the node's jobs *)
Definition RemoveBatchJob (job : Z) : M unit := emit (ARemove job).

Definition ProcessJobProcEnd (job : Z) (recovery failed : bool) : M unit :=
  j ← node job;
  when (_queuedNodeJobProcs j =? 0) (UnmonitorLogFile job);;
  if failed && negb (bool_decide (is_Some (_scriptPost j))) then
    if retries j <? retry_max j then RestartNode start job recovery
    else
      when (0 <? retry_max j) (upd job (fun j => j <| error_text := snprintf (after_retries (error_text j) j) |>));;
      when (_queuedNodeJobProcs j =? 0) node_failed
  else
    when (_queuedNodeJobProcs j =? 0)
      (if bool_decide (is_Some (_scriptPost j)) then
         if recovery then
           upd job (fun j => SetStatus j STATUS_POSTRUN);;
           mod_dag (fun d => d <| _postRunNodeCount ::= Z.succ |>);;
           MonitorLogFile job;; mret tt
         else RunPostScript start job _alwaysRunPost 0 true;; mret tt
       else when (negb (status_is (_Status j) STATUS_ERROR)) (TerminateJob start job recovery false)).

Definition ProcessAbortEvent (e : ULogEvent) (job : Z) (recovery : bool) : M unit :=
  DecrementJobCounts job;;
  j ← node job;
  when (0 <? _jobProcsOnHold j)
    (mod_dag (fun d => d <| _numHeldJobProcs ::= Z.pred |>);;
     upd job (fun j => j <| _jobProcsOnHold ::= Z.pred |>));;
  when (negb (status_is (_Status j) STATUS_ERROR))
    (upd job TerminateFailure;;
     upd job (fun j => j <| error_text := snprintf (s2b "Condor reported ULOG_JOB_ABORTED event for job proc (" ++
                              proc_id e ++ s2b ")") |>
                         <| retval := DAG_ERROR_CONDOR_JOB_ABORTED |>);;
     when (0 <? _queuedNodeJobProcs j) (RemoveBatchJob job);;
     upd job (post_retValJob DAG_ERROR_CONDOR_JOB_ABORTED));;
  ProcessJobProcEnd job recovery true.

Definition ProcessTerminatedEvent (e : LogEvent) (job : Z) (recovery : bool) : M unit :=
  DecrementJobCounts job;;
  let failed := negb (normal e && (returnValue e =? 0)) in
  j ← node job;
  (if failed then
     when (negb (status_is (_Status j) STATUS_ERROR))
       ((if normal e then
           upd job (fun j => post_retValJob (returnValue e)
             (j <| error_text := snprintf (s2b "Job proc (" ++ proc_id (event e) ++ s2b ") failed with status " ++
                                           print_d (returnValue e)) |>
                <| retval := returnValue e |>))
         else
           upd job (fun j => post_retValJob (0 - signalNumber e)
             (j <| error_text := snprintf (s2b "Job proc (" ++ proc_id (event e) ++ s2b ") failed with signal " ++
                                           print_d (signalNumber e)) |>
                <| retval := 0 - signalNumber e |>)));;
        upd job TerminateFailure;;
        when (0 <? _queuedNodeJobProcs j) (RemoveBatchJob job))
   else
     ASSERT (returnValue e =? 0);;
     when (negb (status_is (_Status j) STATUS_ERROR))
       (upd job (fun j => post_retValJob 0 (j <| retval := 0 |>))));;
  abort ← (if bool_decide (is_Some (_scriptPost j)) then mret false else CheckForDagAbort start job);
  if (abort : bool) then mret tt else ProcessJobProcEnd job recovery failed.

Definition ProcessSubmitEvent (job : Z) (recovery submitEventIsSane : bool) : M unit :=
  j ← node job;
  when (recovery && JobIsNoop (_CondorID j))
    (modify (fun s => s <| _recoveryMaxfakeID ::= Z.max (GetIndexID (_CondorID j)) |>));;
  if negb (QueueIsEmpty Q_WAITING j) then DC_Exit EXIT_ERROR
  else
    let fresh := submitEventIsSane || negb (status_is (_Status j) STATUS_SUBMITTED) in
    when fresh (upd job (fun j => j <| _queuedNodeJobProcs ::= Z.succ |>));;
    j ← node job;
    if recovery then
      when (fresh && (_queuedNodeJobProcs j =? 1)) (UpdateJobCounts job 1);;
      upd job (fun j => SetStatus j STATUS_SUBMITTED)
    else
      logs ← ask_int CallLogFileCount;
      when ((logs =? 1) && (_queuedNodeJobProcs j =? 1))
        (q ← gets (fun s => _submitQ (dag s));
         match q with
         | [] => mret tt
         | expectedJob :: q' =>
             mod_dag (fun d => d <| _submitQ := if expectedJob =? job then q' else q' ++ [expectedJob] |>)
         end).

Definition ProcessIsIdleEvent (job : Z) : M unit :=
  j ← node job;
  when (negb (_isIdle j))
    (upd job (fun j => j <| _isIdle := true |>);;
     mod_dag (fun d => d <| _numIdleJobProcs ::= Z.succ |>)).
Definition ProcessNotIdleEvent (job : Z) : M unit :=
  j ← node job;
  when (_isIdle j)
    (upd job (fun j => j <| _isIdle := false |>);;
     mod_dag (fun d => d <| _numIdleJobProcs ::= Z.pred |>)).
Definition ProcessHeldEvent (job : Z) : M unit :=
  mod_dag (fun d => d <| _numHeldJobProcs ::= Z.succ |>);;
  upd job (fun j => j <| _timesHeld ::= Z.succ |> <| _jobProcsOnHold ::= Z.succ |>);;
  j ← node job;
  when ((0 <? _maxJobHolds) && (_maxJobHolds <=? _timesHeld j)) (RemoveBatchJob job).
Definition ProcessReleasedEvent (job : Z) : M unit :=
  mod_dag (fun d => d <| _numHeldJobProcs ::= Z.pred |>);;
  upd job (fun j => j <| _jobProcsOnHold ::= Z.pred |>).

(** The switch of ProcessOneEvent() on the event number. *)
Definition ProcessEvent (e : LogEvent) (job : Z) (recovery submitEventIsSane : bool) : M unit :=
  let n := eventNumber (event e) in
  if n =? ULOG_EXECUTABLE_ERROR then mret tt
  else if n =? ULOG_JOB_ABORTED then ProcessAbortEvent (event e) job recovery;; ProcessNotIdleEvent job
  else if n =? ULOG_JOB_TERMINATED then ProcessTerminatedEvent e job recovery;; ProcessNotIdleEvent job
  else if n =? ULOG_POST_SCRIPT_TERMINATED then ProcessPostTermEvent start e job recovery
  else if n =? ULOG_SUBMIT then ProcessSubmitEvent job recovery submitEventIsSane;; ProcessIsIdleEvent job
  else if (n =? ULOG_JOB_EVICTED) || (n =? ULOG_JOB_SUSPENDED) || (n =? ULOG_SHADOW_EXCEPTION)
  then ProcessIsIdleEvent job
  else if n =? ULOG_JOB_HELD then ProcessHeldEvent job;; ProcessIsIdleEvent job
  else if n =? ULOG_EXECUTE then ProcessNotIdleEvent job
  else if n =? ULOG_JOB_RELEASED then ProcessReleasedEvent job
  else mret tt.

(** Dag::ProcessOneEvent(): its result and [done]. *)
Definition ProcessOneEvent (logsource : job_type_t) (outcome : ULogEventOutcome) (e : option LogEvent)
    (recovery : bool) : M (bool * bool) :=
  (match outcome with
   | ULOG_UNK_ERROR => mret tt
   | _ => modify (fun s => s <| log_unk_count := 0 |>)
   end);;
  match outcome with
  | ULOG_NO_EVENT => mret (true, true)
  | ULOG_RD_ERROR =>
      modify (fun s => s <| ulog_rd_error_count ::= Z.succ |>);;
      n ← gets ulog_rd_error_count;
      mret (negb (10 <=? n), true)
  | ULOG_UNK_ERROR =>
      modify (fun s => s <| log_unk_count ::= Z.succ |>);;
      n ← gets log_unk_count;
      mret (negb (recovery || (5 <=? n)), true)
  | ULOG_OK =>
      match e with
      | None => fail "Assertion ERROR on (event != NULL)"
      | Some e =>
          r ← LogEventNodeLookup logsource e;
          match r with
          | (None, _) => mret (true, false)
          | (Some job, submitEventIsSane) =>
              check ← EventSanityCheck logsource (event e);
              let '(sane, result) := check in
              when sane (ProcessEvent e job recovery submitEventIsSane);;
              mret (result, false)
          end
      end
  | ULOG_MISSED_EVENT => mret (true, false)
  end.

(** Dag::ProcessLogEvents() on what readEvent() returns; when nothing is left, that is
    ULOG_NO_EVENT. *)
Fixpoint process_events (logsource : job_type_t) (recovery : bool)
    (reads : list (ULogEventOutcome * option LogEvent)) : bool -> M bool := fun result =>
  match reads with
  | [] => r ← ProcessOneEvent logsource ULOG_NO_EVENT None recovery; mret (result && r.1)
  | (o, e) :: reads' =>
      r ← ProcessOneEvent logsource o e recovery;
      if (r.2 : bool) then mret (result && r.1) else process_events logsource recovery reads' (result && r.1)
  end.
Definition ProcessLogEvents (logsource : job_type_t) (recovery : bool)
    (reads : list (ULogEventOutcome * option LogEvent)) : M bool :=
  process_events logsource recovery reads true.

(** ** The state of the DAG *)

Definition final_is_done (d : Dag) : bool :=
  match _final_job d ≫= fun f => _nodeIDHash d !! f with
  | Some j => status_is (_Status j) STATUS_DONE
  | None => false
  end.
Definition HasFinalNode (d : Dag) : bool := bool_decide (is_Some (_final_job d)).
Definition FinishedRunning (d : Dag) (includeFinalNode : bool) : bool :=
  if includeFinalNode && HasFinalNode d && negb (_runningFinalNode d) then false
  else (_numJobsSubmitted d =? 0) && (Number (_readyQ d) =? 0) && (_preRunNodeCount d + _postRunNodeCount d =? 0).
Definition NumNodes (d : Dag) (includeFinal : bool) : Z :=
  Z.of_nat (length (_jobs d)) - (if negb includeFinal && HasFinalNode d then 1 else 0).
Definition NumNodesDone (d : Dag) (includeFinal : bool) : Z :=
  _numNodesDone d - (if negb includeFinal && HasFinalNode d && final_is_done d then 1 else 0).
Definition DoneSuccess (d : Dag) (includeFinalNode : bool) : bool :=
  if NumNodesDone d includeFinalNode =? NumNodes d includeFinalNode then true
  else includeFinalNode && HasFinalNode d && final_is_done d.
Definition DoneFailed (d : Dag) (includeFinalNode : bool) : bool :=
  if negb (FinishedRunning d includeFinalNode) then false
  else if includeFinalNode && HasFinalNode d && final_is_done d then false
  else 0 <? _numNodesFailed d.

(** Dag::CheckAllJobs() *)
Definition CheckAllJobs_result (r : check_event_result_t) : M unit :=
  match r with
  | EVENT_ERROR => fail "Assertion ERROR on (false)"
  | EVENT_BAD_EVENT | EVENT_WARNING => warn start 3
  | EVENT_OKAY => mret tt
  end.
Definition Dag_CheckAllJobs : M unit :=
  c ← gets (fun s => CheckAllJobs (_checkCondorEvents s));
  modify (fun s => s <| _checkCondorEvents := c.1 |>);;
  CheckAllJobs_result c.2.2;;
  c ← gets (fun s => CheckAllJobs (_checkStorkEvents s));
  modify (fun s => s <| _checkStorkEvents := c.1 |>);;
  CheckAllJobs_result c.2.2.

(** ** The main loop *)

(** The last part of condor_event_timer(): is the DAG finished, and how? *)
Definition check_finished : M unit :=
  d ← gets dag;
  ASSERT (NumNodesDone d true + _numNodesFailed d <=? NumNodes d true);;
  if DoneSuccess d true then
    ASSERT (_numJobsSubmitted d =? 0);;
    Dag_CheckAllJobs;;
    d ← gets dag;
    when (negb (_numIdleJobProcs d =? 0)) (warn start 1);;
    DC_Exit EXIT_OKAY
  else if DoneFailed d true then main_shutdown_rescue start EXIT_ERROR (_dagStatus d)
  else if DoneSuccess d false then StartFinalNode start;; mret tt
  else if _dagIsHalted d && (_numJobsSubmitted d =? 0) && (_postRunNodeCount d =? 0) && negb (_runningFinalNode d)
  then main_shutdown_rescue start EXIT_ERROR DAG_STATUS_HALTED
  else if FinishedRunning d false then
    if DoneFailed d false then main_shutdown_rescue start EXIT_ERROR DAG_STATUS_NODE_FAILED
    else
      match isCycle d with
      | None => fail "isCycle"
      | Some (d', cycle) =>
          mod_dag (fun _ => d');;
          main_shutdown_rescue start EXIT_ERROR (if cycle then DAG_STATUS_CYCLE else DAG_STATUS_ERROR)
      end
  else mret tt.

(** condor_event_timer(), with what has appeared in the Condor and Stork logs ([None]: the log has
    not grown). *)
Definition process_log (logsource : job_type_t) (reads : option (list (ULogEventOutcome * option LogEvent))) : M bool :=
  match reads with
  | None => mret true
  | Some reads => ProcessLogEvents logsource false reads
  end.
Definition condor_event_timer (paused : bool)
    (condor stork : option (list (ULogEventOutcome * option LogEvent))) : M unit :=
  if paused then mret tt
  else
    SubmitReadyJobs;;
    ok ← process_log TYPE_CONDOR condor;
    if negb ok then main_shutdown_rescue start EXIT_ERROR DAG_STATUS_ERROR
    else
      ok ← process_log TYPE_STORK stork;
      if negb ok then main_shutdown_rescue start EXIT_ERROR DAG_STATUS_ERROR
      else check_finished.

(** A loop that returns false at the first failure. *)
Fixpoint each_ok (l : list Z) (f : Z -> M bool) : M bool :=
  match l with
  | [] => mret true
  | x :: l' => ok ← f x; if (ok : bool) then each_ok l' f else mret false
  end.

(** The recovery part of Bootstrap(), on the contents of the log files. *)
Definition recover_events (logsource : job_type_t) (reads : list (ULogEventOutcome * option LogEvent)) : M bool :=
  count ← ask_int CallLogFileCount;
  if 0 <? count then
    ok ← ProcessLogEvents logsource true reads;
    when (negb ok) (modify (fun s => s <| _recovery := false |>));;
    mret ok
  else mret true.
Definition recover_dag (condor stork : list (ULogEventOutcome * option LogEvent)) : M bool :=
  modify (fun s => s <| _recovery := true |>);;
  jobs ← gets (fun s => _jobs (dag s));
  ok ← each_ok jobs (fun job => j ← node job; if CanSubmit j then MonitorLogFile job else mret true);
  if negb ok then mret false
  else
    ok ← recover_events TYPE_CONDOR condor;
    if negb ok then mret false
    else
      ok ← recover_events TYPE_STORK stork;
      if negb ok then mret false
      else
        ok ← each_ok jobs (fun job =>
          j ← node job;
          if status_is (_Status j) STATUS_POSTRUN then RunPostScript start job _alwaysRunPost 0 false else mret true);
        if negb ok then mret false
        else
          modify (fun s => s <| _subprocID := _recoveryMaxfakeID s |>);;
          modify (fun s => s <| _recovery := false |>);;
          mret true.

Definition Bootstrap (recovery : option (list (ULogEventOutcome * option LogEvent) * list (ULogEventOutcome * option LogEvent)))
  : M bool :=
  jobs ← gets (fun s => _jobs (dag s));
  for_each jobs (fun job =>
    j ← node job;
    when (status_is (_Status j) STATUS_DONE) (TerminateJob start job false true));;
  ok ← match recovery with Some (condor, stork) => recover_dag condor stork | None => mret true end;
  if negb ok then mret false
  else
    for_each jobs (fun job =>
      j ← node job;
      when (status_is (_Status j) STATUS_READY && QueueIsEmpty Q_WAITING j) (start job false;; mret tt));;
    mret true.

(** What happens to a running DAGMan. *)
Inductive stimulus :=
| Timer (paused : bool) (condor stork : option (list (ULogEventOutcome * option LogEvent)))
| Reap (post : bool) (pid status : Z)
| Remove.

Definition handle (st : stimulus) : M unit :=
  match st with
  | Timer paused condor stork => condor_event_timer paused condor stork
  | Reap post pid status => ScriptReaper post pid status
  | Remove => main_shutdown_rescue start EXIT_ABORT DAG_STATUS_RM
  end.
(** The end of main_init(), then whatever comes. *)
Definition run_dag (recovery : option (list (ULogEventOutcome * option LogEvent) * list (ULogEventOutcome * option LogEvent)))
    (sts : list stimulus) : M unit :=
  ok ← Bootstrap recovery;
  if negb ok then DC_Exit EXIT_ERROR else for_each sts handle.
End Handlers.
End Scheduler.
