(* ===== verification/DagLogic.v ===== *)
(** Reasoning about the handlers of DagRun.v.

    [wp] is the weakest precondition of a computation, with a condition for returning and one for
    leaving the process; an EXCEPT satisfies everything.  Properties that hold throughout a run are
    proved as [pres]: from a state that satisfies an invariant [I] the computation returns or exits
    in a state that satisfies it and is related to the first by a preorder [R], which says what
    never gets undone.  The rules go through a handler statement by statement. *)

From S2P Require Import Prelude CondorId PriorityList DagJob Dag.
From S2P Require Import HashTable CheckEvents DagRun.

Open Scope Z_scope.

Notation nodes s := (_nodeIDHash (dag s)).

(** [fz] says whether running out of fuel is accepted. *)
Definition wp {A} (fz : Prop) (m : M A) (Q : A -> Run -> Prop) (E : Run -> Prop) (s : Run) : Prop :=
  match m s with
  | RDone a s' => Q a s'
  | RExit _ s' => E s'
  | RExcept _ => True
  | RFuel => fz
  end.

Lemma wp_bind {A B} fz (m : M A) (k : A -> M B) Q E s :
  wp fz m (fun a => wp fz (k a) Q E) E s -> wp fz (m ≫= k) Q E s.
Proof. unfold wp, mbind, M_bind. by destruct (m s). Qed.

Lemma wp_mono {A} fz (m : M A) (Q Q' : A -> Run -> Prop) (E E' : Run -> Prop) s :
  wp fz m Q E s -> (forall a s', Q a s' -> Q' a s') -> (forall s', E s' -> E' s') -> wp fz m Q' E' s.
Proof. unfold wp. destruct (m s); auto. Qed.

Section Preservation.
Context (fz : Prop) (I : Run -> Prop) (R : relation Run) `{!PreOrder R}.

Definition kept (s s' : Run) : Prop := I s' /\ R s s'.
Definition pres {A} (m : M A) (Q : A -> Run -> Prop) (s : Run) : Prop :=
  wp fz m (fun a s' => kept s s' /\ Q a s') (kept s) s.
(** Nothing more to say about the result. *)
Local Notation keeps m s := (pres m (fun _ _ => True) s).

Lemma pres_mono {A} (m : M A) (Q Q' : A -> Run -> Prop) s :
  pres m Q s -> (forall a s', I s' -> R s s' -> Q a s' -> Q' a s') -> pres m Q' s.
Proof. intros Hm HQ. eapply wp_mono; [exact Hm| |done]. intros a s' [[? ?] ?]. split; [done|]. auto. Qed.

Lemma pres_keeps {A} (m : M A) Q s : pres m Q s -> keeps m s.
Proof. intros Hm. by eapply pres_mono. Qed.

Lemma pres_bind {A B} (m : M A) (k : A -> M B) Q Q' s :
  pres m Q s -> (forall a s', I s' -> R s s' -> Q a s' -> pres (k a) Q' s') -> pres (m ≫= k) Q' s.
Proof.
  intros Hm Hk. apply wp_bind. eapply wp_mono; [exact Hm| |done].
  intros a s' [[HI HR] HQ]. eapply wp_mono; [by apply Hk| |].
  - intros b s2 [[? ?] ?]. split; [split; [done|by etrans]|done].
  - intros s2 [? ?]. split; [done|by etrans].
Qed.

Lemma keeps_bind {A B} (m : M A) (k : A -> M B) Q' s :
  keeps m s -> (forall a s', I s' -> R s s' -> pres (k a) Q' s') -> pres (m ≫= k) Q' s.
Proof. intros Hm Hk. eapply pres_bind; [exact Hm|]. intros a s' ?? _. auto. Qed.

Lemma pres_ret {A} (a : A) (Q : A -> Run -> Prop) s : I s -> Q a s -> pres (mret a) Q s.
Proof. intros HI HQ. split; [split; [done|reflexivity]|done]. Qed.
Lemma keeps_ret {A} (a : A) s : I s -> keeps (mret a) s.
Proof. intros HI. by apply pres_ret. Qed.
Lemma pres_fail {A} msg (Q : A -> Run -> Prop) s : pres (fail msg) Q s.
Proof. exact Logic.I. Qed.
Lemma pres_exit {A} code (Q : A -> Run -> Prop) s : I s -> pres (DC_Exit code) Q s.
Proof. intros HI. split; [done|reflexivity]. Qed.

Lemma pres_bind_fail {A B} msg (k : A -> M B) Q s : pres (fail msg ≫= k) Q s.
Proof. exact Logic.I. Qed.
Lemma pres_bind_ret {A B} (a : A) (k : A -> M B) Q s : pres (k a) Q s -> pres (mret a ≫= k) Q s.
Proof. done. Qed.
Lemma pres_bind_gets {A B} (f : Run -> A) (k : A -> M B) Q s : pres (k (f s)) Q s -> pres (gets f ≫= k) Q s.
Proof. done. Qed.
Lemma pres_bind_node {B} i (k : Job -> M B) Q s :
  (forall j, nodes s !! i = Some j -> pres (k j) Q s) -> pres (node i ≫= k) Q s.
Proof.
  intros Hk. unfold pres, wp, mbind, M_bind, node. destruct (nodes s !! i) as [j|]; [|done]. by apply Hk.
Qed.
Lemma pres_bind_ASSERT {B} b (k : M B) Q s :
  (b = true -> pres k Q s) -> pres (ASSERT b ≫= fun _ => k) Q s.
Proof. destruct b; simpl; intros Hk; [by apply Hk|exact Logic.I]. Qed.
Lemma pres_ASSERT b Q s : I s -> (b = true -> Q tt s) -> pres (ASSERT b) Q s.
Proof. intros HI HQ. destruct b; [apply pres_ret; auto|exact Logic.I]. Qed.
Lemma pres_bind_lift {A B} (o : outcome A) (k : A -> M B) Q s :
  (forall a, o = Done a -> pres (k a) Q s) -> pres (lift o ≫= k) Q s.
Proof. destruct o as [a|]; intros Hk; [by apply Hk|exact Logic.I]. Qed.

Lemma pres_run {A} (m : M A) a s' (Q : A -> Run -> Prop) s :
  m s = RDone a s' -> I s' -> R s s' -> Q a s' -> pres m Q s.
Proof. intros Hm ???. unfold pres, wp. rewrite Hm. split; [split|]; done. Qed.
Lemma pres_assoc {A B C} (m : M A) (m' : M B) (k : B -> M C) Q s :
  pres ((m ≫= fun _ => m') ≫= k) Q s -> pres (m ≫= fun _ => m' ≫= k) Q s.
Proof. unfold pres, wp, mbind, M_bind. by destruct (m s). Qed.
Lemma pres_assoc2 {A B C D} (m : M A) (m1 : M B) (m2 : B -> M C) (k : M D) Q s :
  pres ((m ≫= fun _ => m1 ≫= m2) ≫= fun _ => k) Q s -> pres ((m ≫= fun _ => m1) ≫= fun b => m2 b ≫= fun _ => k) Q s.
Proof. unfold pres, wp, mbind, M_bind. destruct (m s) as [? s0|? ?|?|]; [|done..]. by destruct (m1 s0). Qed.
Lemma pres_assoc' {A B C} (m : M A) (m' : A -> M B) (k : B -> M C) Q s :
  pres (m ≫= fun a => m' a ≫= k) Q s -> pres ((m ≫= m') ≫= k) Q s.
Proof. unfold pres, wp, mbind, M_bind. by destruct (m s). Qed.
Lemma pres_modify f (Q : unit -> Run -> Prop) s : I (f s) -> R s (f s) -> Q tt (f s) -> pres (modify f) Q s.
Proof. intros ???. split; [split|]; done. Qed.
Lemma keeps_modify f s : I (f s) -> R s (f s) -> keeps (modify f) s.
Proof. intros ??. by apply pres_modify. Qed.

(** A node is changed; the others are not. *)
Lemma pres_upd i f (Q : unit -> Run -> Prop) s :
  (forall j, nodes s !! i = Some j ->
     let s' := s <| dag ::= fun d => put_node d i (f j) |> in I s' /\ R s s' /\ Q tt s') ->
  pres (upd i f) Q s.
Proof.
  intros Hu. unfold upd. apply pres_bind_node. intros j Hj. destruct (Hu j Hj) as (? & ? & ?).
  by apply pres_modify.
Qed.

(** A computation that starts where the invariant is broken for a moment: [s0] is the state before. *)
Definition pres_from {A} (s0 : Run) (m : M A) (Q : A -> Run -> Prop) (s : Run) : Prop :=
  wp fz m (fun a s' => kept s0 s' /\ Q a s') (kept s0) s.
Lemma from_here {A} (m : M A) Q s : pres_from s m Q s -> pres m Q s.
Proof. done. Qed.
Lemma from_restored {A} s0 (m : M A) Q s : R s0 s -> pres m Q s -> pres_from s0 m Q s.
Proof.
  intros HR Hm. eapply wp_mono; [exact Hm| |].
  - intros a s' [[? ?] ?]. split; [split; [done|by etrans]|done].
  - intros s' [? ?]. split; [done|by etrans].
Qed.
Lemma from_step {A B} s0 (m : M A) (k : A -> M B) a s1 Q s :
  m s = RDone a s1 -> pres_from s0 (k a) Q s1 -> pres_from s0 (m ≫= k) Q s.
Proof. intros Hm Hk. unfold pres_from, wp, mbind, M_bind. by rewrite Hm. Qed.
Lemma from_upd {B} s0 i f (k : M B) j Q s :
  nodes s !! i = Some j -> pres_from s0 k Q (s <| dag ::= fun d => put_node d i (f j) |>) ->
  pres_from s0 (upd i f ≫= fun _ => k) Q s.
Proof. intros Hj Hk. eapply from_step; [|exact Hk]. unfold upd, mbind, M_bind, node. by rewrite Hj. Qed.
Lemma from_node {B} s0 i (k : Job -> M B) j Q s :
  nodes s !! i = Some j -> pres_from s0 (k j) Q s -> pres_from s0 (node i ≫= k) Q s.
Proof. intros Hj Hk. eapply from_step; [|exact Hk]. unfold node. by rewrite Hj. Qed.
Lemma from_ASSERT {B} s0 b (k : M B) Q s :
  (b = true -> pres_from s0 k Q s) -> pres_from s0 (ASSERT b ≫= fun _ => k) Q s.
Proof. destruct b; intros Hk; [by apply Hk|exact Logic.I]. Qed.

Lemma keeps_when b m s : I s -> (b = true -> keeps m s) -> keeps (when b m) s.
Proof. intros HI Hm. destruct b; [by apply Hm|by apply keeps_ret]. Qed.

Lemma keeps_for_each {A} (l : list A) (f : A -> M unit) s :
  (forall x s', x ∈ l -> I s' -> R s s' -> keeps (f x) s') -> I s -> keeps (for_each l f) s.
Proof.
  revert s. induction l as [|x l IH]; intros s Hf HI; simpl; [by apply keeps_ret|].
  eapply keeps_bind; [apply Hf; [set_solver|done|reflexivity]|]. intros [] s1 HI1 HR1.
  apply IH; [|done]. intros y s2 Hy HI2 HR2. apply Hf; [set_solver|done|by etrans].
Qed.
Lemma keeps_each_ok (l : list Z) (f : Z -> M bool) s :
  (forall x s', x ∈ l -> I s' -> R s s' -> keeps (f x) s') -> I s -> keeps (each_ok l f) s.
Proof.
  revert s. induction l as [|x l IH]; intros s Hf HI; simpl; [by apply keeps_ret|].
  eapply keeps_bind; [apply Hf; [set_solver|done|reflexivity]|]. intros [] s1 HI1 HR1; [|by apply keeps_ret].
  apply IH; [|done]. intros y s2 Hy HI2 HR2. apply Hf; [set_solver|done|by etrans].
Qed.
End Preservation.

Notation keeps fz I R m s := (pres fz I R m (fun _ _ => True) s).

(** Facts about the handlers, each of the form [keeps (f ...) s] or [pres (f ...) Q s]. *)
Create HintDb sched.

(** One statement of a handler.  What a called handler keeps is looked up in [sched]; case
    distinctions are those of the code. *)
Ltac walk1 :=
  lazymatch goal with
  | |- pres _ _ _ (match ?x with _ => _ end) _ _ => destruct x eqn:?
  | |- pres _ _ _ (when ?b _) _ _ => eapply keeps_when; [apply _|done|intros ?]
  | |- pres _ _ _ (mret _) _ _ => eapply pres_ret; [apply _|done|cbv beta]
  | |- pres _ _ _ (fail _) _ _ => apply pres_fail
  | |- pres _ _ _ (DC_Exit _) _ _ => eapply pres_exit; [apply _|done]
  | |- pres _ _ _ (fail _ ≫= _) _ _ => apply pres_bind_fail
  | |- pres _ _ _ (mret _ ≫= _) _ _ => apply pres_bind_ret
  | |- pres _ _ _ (gets _ ≫= _) _ _ => apply pres_bind_gets
  | |- pres _ _ _ (node _ ≫= _) _ _ => apply pres_bind_node; intros ? ?
  | |- pres _ _ _ (ASSERT _ ≫= _) _ _ => apply pres_bind_ASSERT; intros ?
  | |- pres _ _ _ (ASSERT _) _ _ => eapply pres_ASSERT; [apply _|done|cbv beta; intros ?]
  | |- pres _ _ _ (lift _ ≫= _) _ _ => apply pres_bind_lift; intros ? ?
  | |- pres _ _ _ (_ ≫= _) _ _ => first [eapply keeps_bind; [apply _|solve [eauto with sched]|intros ? ? ? ?]|
                                         eapply keeps_bind; [apply _| |intros ? ? ? ?]]
  | |- True => exact Logic.I
  | |- pres _ _ _ _ _ _ => solve [eauto with sched]
  end.
Ltac walk := repeat (walk1; try done).
(** A statement whose result matters. *)
Ltac seq := eapply pres_bind; [apply _| |].
