(* ===== verification/DagSafety.v ===== *)
(** What a run of DAGMan guarantees whatever the outside does: the scheduler of DagRun.v against any
    answers of the system, any log events and any scripts.

    A node is not worked on (its scripts run, its job submitted) before every parent has ended
    successfully.  The invariant [Inv] behind it also says that the number of finished nodes is right and
    that the counters of submitted jobs respect the throttles; DagRetries.v and DagProgress.v build on
    these parts. *)

From S2P Require Import Prelude CondorId PriorityList DagJob Dag DagCycle DagBuild.
From S2P Require Import HashTable CheckEvents DagRun DagLogic.

Open Scope Z_scope.

(** ** The invariant *)

(** What is never changed in a node. *)
Definition fixed (j : Job) :=
  (_jobID j, _jobName j, _jobType j, _parents j, _children j, _final j, retry_max j, _throttleInfo j, _noop j).
(** Under way: in one of the active states, or with jobs in the queue. *)
Definition busy (j : Job) : Prop := IsActive j = true \/ 0 < _queuedNodeJobProcs j.

(** How a node may change: it stops waiting for parents and may be counted as done. *)
Record job_le (j j' : Job) : Prop := mkJobLe {
  jl_fixed : fixed j' = fixed j;
  jl_waiting : _waiting j' ⊆ _waiting j;
  jl_counted : countedAsDone j = true -> countedAsDone j' = true
}.
#[export] Instance job_le_preorder : PreOrder job_le.
Proof.
  split; [by intros j; split|]. intros j1 j2 j3 [? ? ?] [? ? ?]. split; [congruence|by etrans|auto].
Qed.

Record run_le (s s' : Run) : Prop := mkRunLe {
  rl_jobs : _jobs (dag s') = _jobs (dag s);
  rl_final : _final_job (dag s') = _final_job (dag s);
  rl_nodes : forall i, option_Forall2 job_le (nodes s !! i) (nodes s' !! i);
  rl_trace : exists l, trace s' = trace s ++ l
}.
#[export] Instance run_le_preorder : PreOrder run_le.
Proof.
  split.
  - intros s. split; [done|done|intros i; by destruct (nodes s !! i); constructor|exists []; by rewrite app_nil_r].
  - intros s1 s2 s3 [A1 B1 C1 [l1 D1]] [A2 B2 C2 [l2 D2]]. split; [congruence|congruence| |].
    + intros i. specialize (C1 i). specialize (C2 i). destruct C1; inversion C2; subst; constructor. by etrans.
    + exists (l1 ++ l2). by rewrite D2, D1, app_assoc.
Qed.

(** The node waits for no parent. *)
Definition nowait (s : Run) (i : Z) : Prop := exists j, nodes s !! i = Some j /\ _waiting j = ∅.
Definition counted (s : Run) (i : Z) : Prop := exists j, nodes s !! i = Some j /\ countedAsDone j = true.

Lemma run_le_node s s' i j :
  run_le s s' -> nodes s !! i = Some j -> exists j', nodes s' !! i = Some j' /\ job_le j j'.
Proof.
  intros [_ _ Hn _] Hj. specialize (Hn i). rewrite Hj in Hn. inversion Hn as [? j' Hle Hx Hy|]. eauto.
Qed.
Lemma run_le_node_inv s s' i j' :
  run_le s s' -> nodes s' !! i = Some j' -> exists j, nodes s !! i = Some j /\ job_le j j'.
Proof.
  intros [_ _ Hn _] Hj. specialize (Hn i). rewrite Hj in Hn. inversion Hn as [? ? Hle Hx Hy|]. subst. eauto.
Qed.
Lemma nowait_stable s s' i : run_le s s' -> nowait s i -> nowait s' i.
Proof.
  intros Hle (j & Hj & Hw). destruct (run_le_node _ _ _ _ Hle Hj) as (j' & Hj' & []).
  exists j'. split; [done|]. set_solver.
Qed.
Lemma counted_stable s s' i : run_le s s' -> counted s i -> counted s' i.
Proof.
  intros Hle (j & Hj & Hc). destruct (run_le_node _ _ _ _ Hle Hj) as (j' & Hj' & []). exists j'. auto.
Qed.

(** The node has ended successfully, in this run or, marked DONE in the DAG file, before it. *)
Definition ended (pre : Z -> Prop) (s : Run) (i : Z) : Prop := counted s i \/ pre i.
Lemma ended_stable pre s s' i : run_le s s' -> ended pre s i -> ended pre s' i.
Proof. intros Hle [?|?]; [left; by eapply counted_stable|by right]. Qed.

Definition acts_on (a : action) : option Z :=
  match a with ASpawn i _ _ | ASubmit i _ => Some i | _ => None end.

(** A node in one of the queues of the scheduler, or for which something was done. *)
Definition listed (s : Run) (i : Z) : Prop :=
  i ∈ items (_readyQ (dag s)) \/ i ∈ _waitingQueue (_preScriptQ s) \/ i ∈ _waitingQueue (_postScriptQ s) \/
  exists a, a ∈ trace s /\ acts_on a = Some i.

Definition counted_nodes (m : gmap Z Job) : gmap Z Job := filter (fun p => countedAsDone p.2 = true) m.
Definition done_count (m : gmap Z Job) : Z := Z.of_nat (size (counted_nodes m)).

(** The throttles of [_maxJobsSubmitted] and of the categories. *)
Definition within_throttles `{Config} (d : Dag) : Prop :=
  (_maxJobsSubmitted <> 0 -> _numJobsSubmitted d <= _maxJobsSubmitted) /\
  (forall category t, _catThrottles d !! category = Some t -> isSet t = true -> _currentJobs t <= _maxJobs t).

(** [pre]: the nodes marked DONE in the DAG file.  [rec]: has the log of an earlier run been read?  The jobs found there may be more than the
    throttles allow. *)
Record Inv `{Config} (pre : Z -> Prop) (rec : bool) (s : Run) : Prop := mkInv {
  i_id : forall i j, nodes s !! i = Some j -> _jobID j = i;
  i_waiting : forall c j p, nodes s !! c = Some j -> p ∈ _parents j -> p ∉ _waiting j -> ended pre s p;
  i_busy : forall i j, nodes s !! i = Some j -> busy j -> _waiting j = ∅;
  i_listed : forall i, listed s i -> nowait s i;
  i_retries : forall i j, nodes s !! i = Some j -> retries j <= retry_max j;
  i_done : _numNodesDone (dag s) = done_count (nodes s);
  i_throttle : rec = false -> within_throttles (dag s)
}.

(** ** Changing one node *)

Lemma done_count_put (m : gmap Z Job) i j j' :
  m !! i = Some j ->
  done_count (<[i := j']> m) =
    done_count m + (if countedAsDone j' then 1 else 0) - (if countedAsDone j then 1 else 0).
Proof.
  intros Hj. unfold done_count, counted_nodes.
  assert (Hm : m = <[i := j]> (delete i m)) by (by rewrite insert_delete_id).
  rewrite Hm at 2. rewrite <- (insert_delete_eq m i j').
  assert (Hn : filter (fun p => countedAsDone p.2 = true) (delete i m) !! i = None)
    by (apply map_lookup_filter_None_2; left; apply lookup_delete_eq).
  assert (Hc : forall k, Z.of_nat (size (filter (fun p : Z * Job => countedAsDone p.2 = true) (<[i := k]> (delete i m)))) =
    Z.of_nat (size (filter (fun p : Z * Job => countedAsDone p.2 = true) (delete i m))) + (if countedAsDone k then 1 else 0)).
  { intros k. destruct (countedAsDone k) eqn:Hk.
    - rewrite map_filter_insert_True by done. rewrite map_size_insert_None by done. lia.
    - rewrite map_filter_insert_False by (simpl; congruence).
      rewrite delete_id by apply lookup_delete_eq. lia. }
  rewrite !Hc. lia.
Qed.

Section Safety.
Context `{Config} `{World} (pre : Z -> Prop) (rec : bool).
Notation Inv := (Inv pre rec).
Notation pres := (pres True Inv run_le).
Notation keeps m s := (keeps True Inv run_le m s).

(** A change that keeps what the invariant is about, except that it may make the node busy when it
    waits for nothing. *)
Record job_safe (j j' : Job) : Prop := mkSafe {
  js_fixed : fixed j' = fixed j;
  js_waiting : _waiting j' = _waiting j;
  js_counted : countedAsDone j' = countedAsDone j;
  js_busy : busy j' -> busy j \/ _waiting j = ∅;
  js_retries : retries j' <= retry_max j' \/ retries j' = retries j
}.

Lemma run_le_change s s' i j j' :
  nodes s !! i = Some j -> nodes s' = <[i := j']> (nodes s) -> job_le j j' ->
  _jobs (dag s') = _jobs (dag s) -> _final_job (dag s') = _final_job (dag s) -> trace s' = trace s -> run_le s s'.
Proof.
  intros Hj Hn Hle H1 H2 H3. split; [done|done| |by exists []; rewrite app_nil_r].
  intros k. rewrite Hn. destruct (decide (k = i)) as [->|Hne].
  - rewrite Hj, lookup_insert_eq. by constructor.
  - rewrite lookup_insert_ne by done. destruct (nodes s !! k); by constructor.
Qed.
Lemma put_node_le s i j j' :
  nodes s !! i = Some j -> job_le j j' -> run_le s (s <| dag ::= fun d => put_node d i j' |>).
Proof. intros Hj Hle. by eapply run_le_change. Qed.
Lemma job_safe_le j j' : job_safe j j' -> job_le j j'.
Proof. intros [? Hw Hc ? ?]. split; [done|by rewrite Hw|by rewrite Hc]. Qed.

Lemma fixed_parents j j' : fixed j' = fixed j -> _parents j' = _parents j.
Proof. unfold fixed. congruence. Qed.
Lemma fixed_id j j' : fixed j' = fixed j -> _jobID j' = _jobID j.
Proof. unfold fixed. congruence. Qed.
Lemma fixed_retry_max j j' : fixed j' = fixed j -> retry_max j' = retry_max j.
Proof. unfold fixed. congruence. Qed.

(** The state [s'] has the changed node [j'] in place of [j]. *)
Lemma Inv_change s s' i j j' :
  Inv s -> nodes s !! i = Some j -> nodes s' = <[i := j']> (nodes s) -> run_le s s' -> fixed j' = fixed j ->
  (forall p, p ∈ _parents j' -> p ∉ _waiting j' -> ended pre s' p) -> (busy j' -> _waiting j' = ∅) ->
  retries j' <= retry_max j' -> (forall k, listed s' k -> listed s k) ->
  _numNodesDone (dag s') = done_count (nodes s') -> (rec = false -> within_throttles (dag s')) -> Inv s'.
Proof.
  intros HI Hj Hn Hle Hf Hw Hb Hr Hl Hd Ht.
  assert (Hlk : forall k x, nodes s' !! k = Some x -> (k = i /\ x = j') \/ nodes s !! k = Some x).
  { intros k x. rewrite Hn. destruct (decide (k = i)) as [->|]; [rewrite lookup_insert_eq; naive_solver|].
    rewrite lookup_insert_ne by done. auto. }
  split; [| | | | |done|done].
  - intros k x [[-> ->]|Hx]%Hlk; [rewrite (fixed_id _ _ Hf)|]; by eapply i_id.
  - intros c x p [[-> ->]|Hx]%Hlk Hp Hnw; [by apply Hw|]. eapply (ended_stable _ _ _ _ Hle), i_waiting; eauto.
  - intros k x [[-> ->]|Hx]%Hlk Hbx; [by apply Hb|by eapply i_busy; eauto].
  - intros k Hk. eapply nowait_stable, i_listed; [exact Hle|done|by apply Hl].
  - intros k x [[-> ->]|Hx]%Hlk; [done|by eapply i_retries].
Qed.

Lemma Inv_put s i j j' :
  Inv s -> nodes s !! i = Some j -> job_safe j j' ->
  Inv (s <| dag ::= fun d => put_node d i j' |>).
Proof.
  intros HI Hj Hs. pose proof (put_node_le s i j j' Hj (job_safe_le _ _ Hs)) as Hle.
  destruct Hs as [Hf Hw Hc Hb Hr]. apply (Inv_change s _ i j j'); try done.
  - rewrite Hw, (fixed_parents _ _ Hf). intros p Hp Hnw. eapply ended_stable, i_waiting; eauto.
  - rewrite Hw. intros Hbx. destruct (Hb Hbx); [by eapply i_busy; eauto|done].
  - destruct Hr as [Hr|Hr]; [done|]. rewrite Hr, (fixed_retry_max _ _ Hf). by eapply i_retries.
  - simpl. rewrite (done_count_put _ _ j) by done. rewrite Hc, (i_done _ _ _ HI). lia.
  - apply (i_throttle _ _ _ HI).
Qed.

Lemma pres_put i f s :
  Inv s -> (forall j, nodes s !! i = Some j -> job_safe j (f j)) ->
  pres (upd i f) (fun _ s' => exists j, nodes s !! i = Some j /\ nodes s' = <[i := f j]> (nodes s)) s.
Proof.
  intros HI Hs. apply pres_upd. intros j Hj. simpl. split; [|split].
  - eapply Inv_put; eauto.
  - apply (put_node_le s i j); [done|]. by apply job_safe_le, Hs.
  - by exists j.
Qed.
Lemma keeps_put i f s :
  Inv s -> (forall j, nodes s !! i = Some j -> job_safe j (f j)) -> keeps (upd i f) s.
Proof. intros. by eapply pres_keeps, pres_put. Qed.

(** The invariant looks at the nodes, the queues, the trace and some counters only. *)
Lemma Inv_frame s s' :
  Inv s -> nodes s' = nodes s -> (forall i, listed s' i -> nowait s i) ->
  _numNodesDone (dag s') = _numNodesDone (dag s) ->
  (rec = false -> within_throttles (dag s')) -> Inv s'.
Proof.
  intros HI Hn Hl Hd Ht.
  split; [intros ??; rewrite Hn; apply HI|unfold ended, counted; rewrite Hn; apply HI|intros ??; rewrite Hn; apply HI| |
    intros ??; rewrite Hn; apply HI|rewrite Hn, Hd; apply HI|done].
  intros i Hi. unfold nowait. rewrite Hn. by apply Hl.
Qed.
Lemma run_le_frame s s' :
  nodes s' = nodes s -> _jobs (dag s') = _jobs (dag s) -> _final_job (dag s') = _final_job (dag s) ->
  (exists l, trace s' = trace s ++ l) -> run_le s s'.
Proof. intros Hn Hj Hf Ht. split; [done|done| |done]. intros i. rewrite Hn. by destruct (nodes s !! i); constructor. Qed.

(** A change of something else. *)
Lemma keeps_other f s :
  Inv s -> nodes (f s) = nodes s -> _jobs (dag (f s)) = _jobs (dag s) ->
  _final_job (dag (f s)) = _final_job (dag s) -> (exists l, trace (f s) = trace s ++ l) ->
  (forall i, listed (f s) i -> nowait s i) -> _numNodesDone (dag (f s)) = _numNodesDone (dag s) ->
  (rec = false -> within_throttles (dag (f s))) -> keeps (modify f) s.
Proof.
  intros HI Hn Hj Hf Ht Hl Hd Hth. apply keeps_modify; [by apply (Inv_frame s)|by apply run_le_frame].
Qed.
End Safety.

(** A node that waited for nothing still does. *)
Ltac stays := repeat first [eassumption|eapply nowait_stable; [eassumption|]].
Ltac same_throttle := match goal with HI : Inv _ _ _ |- _ => exact (i_throttle _ _ _ HI) end.
Ltac same_trace := exists []; by rewrite app_nil_r.
(** [keeps_other] when nothing the invariant looks at changes. *)
Ltac keeps_frame :=
  apply keeps_other; [done|done|done|done|same_trace|intros ? ?; by eapply i_listed|done|by same_throttle].

(** [job_safe] for the assignments of the code. *)
Ltac busy_stays := intros [Hb|Hb]; [try done; left; left; exact Hb|left; right; exact Hb].
Ltac job_safe :=
  intros; unfold TerminateFailure, TerminateSuccess, post_retValJob, post_retValScript; split; [reflexivity|reflexivity|reflexivity|first [by busy_stays|by intros; left|by intros; auto]|by right].

(** ** The cycle check only marks nodes *)

Definition marks_only (d d' : Dag) : Prop :=
  exists m n, d' = d <| _nodeIDHash := m |> <| DFS_ORDER := n |> /\ unmarked <$> m = unmarked <$> _nodeIDHash d.

Lemma marks_only_refl d : marks_only d d.
Proof. exists (_nodeIDHash d), (DFS_ORDER d). split; [by destruct d|done]. Qed.
Lemma marks_only_trans d1 d2 d3 : marks_only d1 d2 -> marks_only d2 d3 -> marks_only d1 d3.
Proof.
  intros (m & n & -> & Hm) (m' & n' & -> & Hm'). exists m', n'. split; [done|]. by rewrite Hm', <- Hm.
Qed.
Lemma marks_only_put d i j j' :
  _nodeIDHash d !! i = Some j -> unmarked j' = unmarked j -> marks_only d (put_node d i j').
Proof.
  intros Hj Hu. exists (<[i := j']> (_nodeIDHash d)), (DFS_ORDER d). split; [by destruct d|].
  rewrite fmap_insert, Hu. apply insert_id. by rewrite lookup_fmap, Hj.
Qed.
Lemma marks_only_order d n : marks_only d (d <| DFS_ORDER := n |>).
Proof. exists (_nodeIDHash d), n. split; [by destruct d|done]. Qed.

Lemma DFSVisit_marks fuel d i d' : DFSVisit fuel d i = Some d' -> marks_only d d'.
Proof.
  revert d i d'. induction fuel as [|fuel IH]; intros d i d'; simpl; [done|].
  destruct (_nodeIDHash d !! i) as [j|] eqn:Hj; [|intros [= <-]; apply marks_only_refl].
  destruct (_visited j); [intros [= <-]; apply marks_only_refl|].
  set (d1 := put_node d i (j <| _visited := true |>)).
  assert (Hfold : forall cs od d2, foldl (fun od child => match od with Some d' => DFSVisit fuel d' child | None => None end) od cs = Some d2 ->
    exists d0, od = Some d0 /\ marks_only d0 d2).
  { induction cs as [|c cs IHc]; intros od d2 Hf; simpl in Hf; [exists d2; split; [done|apply marks_only_refl]|].
    destruct (IHc _ _ Hf) as (dx & Hx & Hm). destruct od as [d0|]; [|done].
    exists d0. split; [done|]. eapply marks_only_trans; [by eapply IH|done]. }
  destruct (foldl _ (Some d1) _) as [d2|] eqn:Hf; [|done]. destruct (Hfold _ _ _ Hf) as (d0 & [= <-] & Hm).
  intros [= <-]. eapply marks_only_trans; [by apply (marks_only_put d i j (j <| _visited := true |>))|].
  eapply marks_only_trans; [exact Hm|].
  change (_nodeIDHash (d2 <| DFS_ORDER ::= Z.succ |>)) with (_nodeIDHash d2).
  destruct (_nodeIDHash d2 !! i) as [j'|] eqn:Hj'; [|exact (marks_only_order d2 (Z.succ (DFS_ORDER d2)))].
  eexists (<[i := _]> (_nodeIDHash d2)), (Z.succ (DFS_ORDER d2)). split; [by destruct d2|].
  rewrite fmap_insert. apply insert_id. by rewrite lookup_fmap, Hj'.
Qed.

Lemma isCycle_marks d d' b : isCycle d = Some (d', b) -> marks_only d d'.
Proof.
  unfold isCycle. destruct (foldl number_step _ _) as [d2|] eqn:Hf; [|done].
  destruct (any_true _); [|done]. intros [= <- _].
  assert (Hfold : forall js od d2, foldl number_step od js = Some d2 -> exists d0, od = Some d0 /\ marks_only d0 d2).
  { clear. induction js as [|i js IHj]; intros od d2 Hf; simpl in Hf; [exists d2; split; [done|apply marks_only_refl]|].
    destruct (IHj _ _ Hf) as (dx & Hx & Hm). destruct od as [d0|]; [|done]. exists d0. split; [done|].
    eapply marks_only_trans; [|done]. unfold number_step in Hx. destruct (_nodeIDHash d0 !! i); [|simplify_eq; apply marks_only_refl].
    destruct (_ && _); [by eapply DFSVisit_marks|simplify_eq; apply marks_only_refl]. }
  destruct (Hfold _ _ _ Hf) as (d0 & [= <-] & Hm). eapply marks_only_trans; [apply marks_only_order|done].
Qed.

Lemma unmarked_lookup (m m' : gmap Z Job) i j :
  unmarked <$> m' = unmarked <$> m -> m !! i = Some j -> exists j', m' !! i = Some j' /\ unmarked j' = unmarked j.
Proof.
  intros Hm Hj. assert (Hl : (unmarked <$> m') !! i = Some (unmarked j)) by (by rewrite Hm, lookup_fmap, Hj).
  rewrite lookup_fmap in Hl. apply fmap_Some in Hl as (j' & Hj' & He). eauto.
Qed.

(** ** Counts of submitted jobs between the check of the throttles and the submit *)

Section Counts.
Context `{Config} `{World}.
Definition job_counts (s : Run) := (_numJobsSubmitted (dag s), _catThrottles (dag s)).
Definition same_counts (s s' : Run) : Prop := job_counts s' = job_counts s.
#[local] Instance same_counts_preorder : PreOrder same_counts.
Proof. split; [done|]. unfold same_counts. intros s1 s2 s3 ? ?. congruence. Qed.
Notation keeps m s := (keeps True (fun _ => True) same_counts m s).

Lemma counts_run {A} (m : M A) a s' s : m s = RDone a s' -> same_counts s s' -> keeps m s.
Proof. intros Hm Hc. by eapply pres_run. Qed.
Lemma counts_upd i f s : keeps (upd i f) s.
Proof. apply pres_upd. done. Qed.
Hint Extern 2 (pres _ _ _ (ask _) _ _) => by eapply counts_run : sched.
Hint Extern 2 (pres _ _ _ (ask_int _) _ _) => by eapply counts_run : sched.
Hint Extern 2 (pres _ _ _ (emit _) _ _) => by eapply counts_run : sched.
Hint Extern 2 (pres _ _ _ (modify _) _ _) => by eapply counts_run : sched.
Hint Extern 2 (pres _ _ _ (mod_dag _) _ _) => by eapply counts_run : sched.
Hint Resolve counts_upd : sched.

Lemma counts_MonitorLogFile job s : keeps (MonitorLogFile job) s.
Proof. unfold MonitorLogFile. walk. Qed.
Lemma counts_hash_remove n ty id msg s : keeps (hash_remove n ty id msg) s.
Proof. unfold hash_remove. walk. eapply counts_run; [done|]. unfold set_EventIDHash. by destruct n, ty. Qed.
Lemma counts_node_failed s : keeps node_failed s.
Proof. unfold node_failed. eapply counts_run; [done|]. unfold same_counts, job_counts. simpl. by destruct (decide _). Qed.
Hint Resolve counts_MonitorLogFile counts_hash_remove counts_node_failed : sched.

Lemma counts_SubmitNodeJob job id s : keeps (SubmitNodeJob job id) s.
Proof.
  unfold SubmitNodeJob, run_submit_dag, swap_priorities, fake_condor_submit, condor_submit. walk.
Qed.
End Counts.

Section Specs.
Context `{Config} `{World} (pre : Z -> Prop) (rec : bool).
Notation Inv := (Inv pre rec).
Notation pres := (pres True Inv run_le).
Notation keeps m s := (keeps True Inv run_le m s).

(** ** The outside, log files, counts and ids *)

Lemma ask_keeps c s : Inv s -> keeps (ask c) s.
Proof.
  intros HI. eapply pres_run; [reflexivity|by destruct HI; split| |done]. apply run_le_frame; try done. same_trace.
Qed.
Lemma ask_int_keeps c s : Inv s -> keeps (ask_int c) s.
Proof.
  intros HI. eapply pres_run; [reflexivity|by destruct HI; split| |done]. apply run_le_frame; try done. same_trace.
Qed.
Hint Resolve ask_keeps ask_int_keeps keeps_put : sched.
Hint Extern 1 (nowait _ _) => solve [stays] : sched.

Lemma emit_keeps a s : Inv s -> (forall i, acts_on a = Some i -> nowait s i) -> keeps (emit a) s.
Proof.
  intros HI Ha. apply keeps_other; try done; [by exists [a]| |by same_throttle].
  intros i [?|[?|[?|(b & [Hb| ->%list_elem_of_singleton]%elem_of_app & Hi)]]]; [..|by apply Ha];
    eapply i_listed; try done; [by left|by right; left|by do 2 right; left|by do 3 right; eauto].
Qed.

Lemma LogMonitorFailed_safe j : job_safe j (LogMonitorFailed j).
Proof. unfold LogMonitorFailed. destruct (status_is _ _); job_safe. Qed.
Lemma MonitorLogFile_keeps job s : Inv s -> keeps (MonitorLogFile job) s.
Proof.
  intros HI. unfold MonitorLogFile. walk.
  all: apply keeps_put; [done|]. all: try (intros; apply LogMonitorFailed_safe). job_safe.
Qed.
Lemma UnmonitorLogFile_keeps job s : Inv s -> keeps (UnmonitorLogFile job) s.
Proof. intros HI. unfold UnmonitorLogFile. walk. apply keeps_put; [done|]. job_safe. Qed.
Hint Resolve MonitorLogFile_keeps UnmonitorLogFile_keeps : sched.

Lemma mod_dag_keeps f s :
  Inv s -> _nodeIDHash (f (dag s)) = nodes s -> _jobs (f (dag s)) = _jobs (dag s) ->
  _final_job (f (dag s)) = _final_job (dag s) ->
  (forall i, i ∈ items (_readyQ (f (dag s))) -> i ∈ items (_readyQ (dag s)) \/ nowait s i) ->
  _numNodesDone (f (dag s)) = _numNodesDone (dag s) ->
  (rec = false -> within_throttles (f (dag s))) -> keeps (mod_dag f) s.
Proof.
  intros HI Hn Hj Hf Hq Hd Ht. apply keeps_other; try done; [same_trace|].
  intros i [Hi|Hi]; [|by eapply i_listed; [done|right]].
  destruct (Hq i Hi); [by eapply i_listed; [done|left]|done].
Qed.
(** The other fields of the Dag. *)
Lemma mod_dag_other f s :
  Inv s -> _nodeIDHash (f (dag s)) = nodes s -> _jobs (f (dag s)) = _jobs (dag s) ->
  _final_job (f (dag s)) = _final_job (dag s) -> _readyQ (f (dag s)) = _readyQ (dag s) ->
  _numNodesDone (f (dag s)) = _numNodesDone (dag s) ->
  _numJobsSubmitted (f (dag s)) = _numJobsSubmitted (dag s) ->
  _catThrottles (f (dag s)) = _catThrottles (dag s) -> keeps (mod_dag f) s.
Proof.
  intros HI Hn Hj Hf Hq Hd Hs Hc. apply mod_dag_keeps; try done; [intros i; rewrite Hq; auto|].
  intros Hr. destruct (i_throttle _ _ _ HI Hr). split; rewrite ?Hs, ?Hc; done.
Qed.
Hint Resolve mod_dag_other : sched.

Lemma node_failed_keeps s : Inv s -> keeps node_failed s.
Proof. intros HI. unfold node_failed. apply mod_dag_other; try done; simpl; by destruct (decide _). Qed.
Hint Resolve node_failed_keeps : sched.

Lemma hash_remove_keeps n ty id msg s : Inv s -> keeps (hash_remove n ty id msg) s.
Proof. intros HI. unfold hash_remove. walk. apply mod_dag_other; try done; unfold set_EventIDHash; by destruct n, ty. Qed.
Lemma hash_insert_keeps n ty id job s : Inv s -> keeps (hash_insert n ty id job) s.
Proof. intros HI. unfold hash_insert. walk. apply mod_dag_other; try done; unfold set_EventIDHash; by destruct n, ty. Qed.
Hint Resolve hash_remove_keeps hash_insert_keeps : sched.

(** A decrement of the counts, or an increment below the limits. *)
Definition room (change : Z) (job : Z) (s : Run) : Prop :=
  change <= 0 \/ rec = true \/
  (change = 1 /\ (_maxJobsSubmitted <> 0 -> _numJobsSubmitted (dag s) < _maxJobsSubmitted) /\
   forall j, nodes s !! job = Some j -> throttled (dag s) j = false).

Lemma UpdateJobCounts_keeps job change s : Inv s -> room change job s -> keeps (UpdateJobCounts job change) s.
Proof.
  intros HI Hroom. unfold UpdateJobCounts. seq.
  - unfold mod_dag. apply (pres_modify _ _ _ _ (fun _ s1 => s1 = s <| dag ::= fun d => d <| _numJobsSubmitted ::= Z.add change |> |>)).
    + apply (Inv_frame pre rec s); try done; [intros ? ?; by eapply i_listed|].
      intros Hr. destruct (i_throttle _ _ _ HI Hr) as [H1 H2]. split; [|done]. simpl. intros Hm.
      specialize (H1 Hm). destruct Hroom as [?|[?|(? & Hlt & _)]]; [lia|congruence|specialize (Hlt Hm); lia].
    + by apply run_le_frame; [..|same_trace].
    + done.
  - intros [] s1 HI1 _ ->. walk1. walk1. apply pres_bind_node. intros j Hj.
    destruct (_throttleInfo j) as [category|] eqn:Hcat; [|by walk].
    assert (Hroom' : rec = false -> forall t, _catThrottles (dag s) !! category = Some t -> isSet t = true ->
      change + _currentJobs t <= _maxJobs t).
    { intros Hr t Ht Hset. destruct (i_throttle _ _ _ HI Hr) as [_ H2]. specialize (H2 _ _ Ht Hset).
      destruct Hroom as [?|[?|(-> & _ & Hth)]]; [lia|congruence|]. specialize (Hth _ Hj).
      unfold throttled in Hth. rewrite Hcat in Hth. simpl in Hth. rewrite Ht in Hth. simpl in Hth.
      rewrite Hset in Hth. simpl in Hth. apply Z.leb_gt in Hth. lia. }
    eapply keeps_bind; [apply _| |intros [] s2 HI2 _; by walk].
    apply mod_dag_keeps; try done; [by auto|]. intros Hr. destruct (i_throttle _ _ _ HI1 Hr) as [H2 H3].
    split; [done|]. simpl. intros c t. destruct (decide (c = category)) as [->|].
    + rewrite lookup_alter_eq. intros (t0 & Ht0 & ->)%fmap_Some. exact (Hroom' Hr t0 Ht0).
    + rewrite lookup_alter_ne by done. apply H3.
Qed.

Lemma DecrementJobCounts_keeps job s :
  Inv s -> pres (DecrementJobCounts job) (fun _ s' => nowait s' job) s.
Proof.
  intros HI. unfold DecrementJobCounts. seq.
  - apply (pres_put pre rec job (fun j => j <| _queuedNodeJobProcs ::= Z.pred |>)); [done|].
    intros j Hj. split; [done..| |by right]. intros [Hb|Hb]; [by left; left|]. left; right. simpl in Hb. lia.
  - intros [] s1 HI1 Hle1 (j & Hj & Hn). apply pres_bind_node. intros j1 Hj1. apply pres_bind_ASSERT. intros Hpos.
    assert (Hw : nowait s1 job).
    { rewrite Hn, lookup_insert_eq in Hj1. simplify_eq. exists (j <| _queuedNodeJobProcs ::= Z.pred |>).
      rewrite Hn, lookup_insert_eq. split; [done|]. simpl. eapply i_busy; [exact HI|done|]. right.
      simpl in Hpos. apply Z.leb_le in Hpos. lia. }
    eapply pres_mono; [walk; apply UpdateJobCounts_keeps; [done|by left]|].
    intros [] s2 _ Hle2 _. by eapply nowait_stable.
Qed.

(** ** The ready queue *)

Lemma elem_of_InsertAt (q : PrioritySimpleList Z) k x p i :
  i ∈ items (InsertAt q k x p) -> i ∈ items q \/ i = x.
Proof.
  unfold InsertAt. simpl. rewrite elem_of_app, elem_of_cons. intros [Hi|[->|Hi]]; [left|by right|left].
  - by eapply subseteq_take.
  - by eapply subseteq_drop.
Qed.
Lemma ready_prepend_keeps job s : Inv s -> nowait s job -> keeps (ready_prepend job) s.
Proof.
  intros HI Hw. unfold ready_prepend. walk1. apply mod_dag_keeps; try done; [|same_throttle].
  intros i [?| ->]%elem_of_InsertAt; auto.
Qed.
Lemma ready_append_keeps job s : Inv s -> nowait s job -> keeps (ready_append job) s.
Proof.
  intros HI Hw. unfold ready_append. walk1. apply mod_dag_keeps; try done; [|same_throttle].
  intros i [?| ->]%elem_of_InsertAt; auto.
Qed.
Hint Resolve ready_prepend_keeps ready_append_keeps : sched.

Lemma raise_priorities_safe d ps j0 j : job_safe j0 j -> job_safe j0 (foldl (raise_priority d) j ps).
Proof.
  revert j. induction ps as [|p ps IH]; intros j Hs; simpl; [done|]. apply IH. unfold raise_priority.
  destruct (_nodeIDHash d !! p) as [jp|]; [|done]. destruct (_ && _); [|done]. by destruct Hs.
Qed.
Lemma job_safe_refl j : job_safe j j.
Proof. split; auto. Qed.
Lemma FixPriority_keeps job s : Inv s -> keeps (FixPriority job) s.
Proof.
  intros HI. unfold FixPriority. walk1. apply keeps_put; [done|]. intros j _. by apply raise_priorities_safe, job_safe_refl.
Qed.
Hint Resolve FixPriority_keeps : sched.

Lemma mod_scriptQ_keeps post f s :
  Inv s -> (forall i, i ∈ _waitingQueue (f (scriptQ post s)) -> i ∈ _waitingQueue (scriptQ post s) \/ nowait s i) ->
  keeps (mod_scriptQ post f) s.
Proof.
  intros HI Hq. unfold mod_scriptQ. apply keeps_other; try done; destruct post; try done; try same_trace;
    try same_throttle; simpl in Hq.
  - intros i [?|[?|[[?|?]%Hq|?]]]; try done; eapply i_listed; try done; [by left|by right; left|by do 2 right; left|by do 3 right].
  - intros i [?|[[?|?]%Hq|[?|?]]]; try done; eapply i_listed; try done; [by left|by right; left|by do 2 right; left|by do 3 right].
Qed.
Lemma set_script_safe post f j : job_safe j (set_script post f j).
Proof. unfold set_script. destruct post; job_safe. Qed.

(** ** Everything that starts from StartNode() *)

Section Open.
Variable start : Z -> bool -> M bool.
Hypothesis start_keeps : forall i r s, Inv s -> keeps (start i r) s.
Hint Resolve start_keeps : sched.

Lemma clear_ready_items is_final n (q : PrioritySimpleList Z) i :
  i ∈ items (clear_ready is_final n q) -> i ∈ items q.
Proof.
  revert q. induction n as [|n IH]; intros q; simpl; [done|]. unfold Next.
  destruct (Number q - 1 <=? current q); [done|]. destruct (items q !! _); [|done].
  intros Hi%IH. destruct (is_final _); [done|]. unfold DeleteCurrent in Hi.
  destruct (_ || _); [done|]. by eapply elem_of_sublist, sublist_delete.
Qed.

Lemma SetStatus_keeps job st s :
  Inv s -> status_is st STATUS_PRERUN || status_is st STATUS_SUBMITTED || status_is st STATUS_POSTRUN = false \/ nowait s job ->
  keeps (upd job (fun j => SetStatus j st)) s.
Proof.
  intros HI Hst. apply keeps_put; [done|]. intros j Hj. split; [done..| |by right]. intros [Hb|Hb]; [|by left; right].
  right. destruct Hst as [Hst|(j' & Hj' & Hw)]; [|congruence]. unfold IsActive in Hb. simpl in Hb. congruence.
Qed.

Lemma StartFinalNode_keeps s : Inv s -> keeps (StartFinalNode start) s.
Proof.
  intros HI. unfold StartFinalNode. walk.
  - apply mod_dag_keeps; try done; [|same_throttle]. intros i Hi. left. exact (clear_ready_items _ _ _ _ Hi).
  - apply SetStatus_keeps; [done|by left].
Qed.
Hint Resolve StartFinalNode_keeps : sched.

Lemma RemoveRunningJobs_keeps s : Inv s -> keeps RemoveRunningJobs s.
Proof.
  intros HI. unfold RemoveRunningJobs. walk; [by apply emit_keeps|].
  eapply keeps_for_each; [apply _| |done]. intros job sx _ HIx _. walk. by apply emit_keeps.
Qed.
Lemma RemoveRunningScripts_keeps s : Inv s -> keeps RemoveRunningScripts s.
Proof.
  intros HI. unfold RemoveRunningScripts. walk.
  eapply keeps_for_each; [apply _| |done]. intros job sx _ HIx _. walk; by apply emit_keeps.
Qed.
Hint Resolve RemoveRunningJobs_keeps RemoveRunningScripts_keeps : sched.

Lemma main_shutdown_rescue_keeps v st s : Inv s -> keeps (main_shutdown_rescue start v st) s.
Proof.
  intros HI. unfold main_shutdown_rescue. walk; keeps_frame.
Qed.
Hint Resolve main_shutdown_rescue_keeps : sched.
Lemma warn_keeps l s : Inv s -> keeps (warn start l) s.
Proof. intros HI. unfold warn. walk. Qed.
Hint Resolve warn_keeps : sched.
Lemma CheckForDagAbort_keeps job s : Inv s -> keeps (CheckForDagAbort start job) s.
Proof. intros HI. unfold CheckForDagAbort. walk. Qed.
Hint Resolve CheckForDagAbort_keeps : sched.

Lemma for_warnings_keeps (args : list (bytes * bool)) s :
  Inv s -> keeps (for_each args (fun '(_, warning) => when warning (warn start 1))) s.
Proof. intros HI. eapply keeps_for_each; [apply _| |done]. intros [a b] sx _ HIx _. walk. Qed.
Hint Resolve for_warnings_keeps : sched.

Lemma BackgroundRun_keeps post job s : Inv s -> nowait s job -> keeps (BackgroundRun start post job) s.
Proof.
  intros HI Hw. unfold BackgroundRun, script. apply pres_assoc'. walk.
  - apply emit_keeps; [done|]. intros i [= <-]. eauto with sched.
  - apply keeps_put; [done|]. intros. apply set_script_safe.
Qed.
Hint Resolve BackgroundRun_keeps : sched.

Lemma deferScript_keeps post job s : Inv s -> keeps (deferScript post job) s.
Proof. intros HI. unfold deferScript. walk. Qed.
Hint Resolve deferScript_keeps : sched.
Lemma ScriptQ_Run_keeps (rp : bool -> bytes -> Z -> M unit) post job s :
  (forall name status s, Inv s -> keeps (rp post name status) s) ->
  Inv s -> nowait s job -> keeps (ScriptQ_Run start rp post job) s.
Proof.
  intros Hrp HI Hw. unfold ScriptQ_Run, start_script. walk.
  - apply mod_scriptQ_keeps; [done|]. simpl.
    intros i [?| ->%list_elem_of_singleton]%elem_of_app; [by left|right; stays].
  - apply mod_scriptQ_keeps; [done|]. by left.
Qed.

(** *** The end of a node *)

Lemma count_done_keeps job j s :
  Inv s -> nodes s !! job = Some j -> countedAsDone j = false ->
  pres (mod_dag (fun d => d <| _numNodesDone ::= Z.succ |>);; upd job (fun j => j <| countedAsDone := true |>))
    (fun _ s' => counted s' job) s.
Proof.
  intros HI Hj Hc. set (j' := j <| countedAsDone := true |>).
  assert (Hle : run_le s (s <| dag ::= fun d => put_node (d <| _numNodesDone ::= Z.succ |>) job j' |>))
    by (by eapply run_le_change).
  eapply pres_run; [|clear Hle|exact Hle|].
  - unfold upd, node, mod_dag, modify, mbind, M_bind. simpl. rewrite Hj. reflexivity.
  - eapply Inv_change; [exact HI|exact Hj|reflexivity|by eapply run_le_change|reflexivity| | | | | |].
    + simpl. intros p Hp Hnw. apply (ended_stable pre s); [by eapply run_le_change|by eapply i_waiting].
    + simpl. intros [Hb|Hb]; eapply i_busy; [done|done|by left|done|done|by right].
    + exact (i_retries _ _ _ HI _ _ Hj).
    + done.
    + simpl. rewrite (done_count_put _ _ j) by done. simpl. rewrite Hc, (i_done _ _ _ HI). lia.
    + same_throttle.
  - exists j'. split; [|done]. simpl. apply lookup_insert_eq.
Qed.

Lemma unwait_keeps child job s :
  Inv s -> counted s job -> keeps (upd child (fun c => (RemoveFromQueue Q_WAITING job c).1)) s.
Proof.
  intros HI Hc. apply pres_upd. intros c Hc'. set (c1 := (RemoveFromQueue Q_WAITING job c).1).
  assert (Hcase : c1 = c \/ c1 = c <| _waiting := _waiting c ∖ {[job]} |>).
  { unfold c1, RemoveFromQueue. case_bool_decide; auto. }
  clearbody c1. destruct Hcase as [->| ->].
  { split; [|split]; [|by apply (put_node_le s child c)|done]. eapply Inv_put; [done|done|apply job_safe_refl]. }
  set (c1 := c <| _waiting := _waiting c ∖ {[job]} |>).
  assert (Hle : run_le s (s <| dag ::= fun d => put_node d child c1 |>)).
  { apply (put_node_le s child c); [done|]. split; try done. simpl. set_solver. }
  split; [|split; [exact Hle|done]].
  eapply Inv_change; [exact HI|exact Hc'|reflexivity|exact Hle|done| | | |done| |same_throttle].
  - simpl. intros p Hp Hnw. eapply ended_stable; [exact Hle|].
    destruct (decide (p = job)) as [->|]; [by left|]. eapply i_waiting; [done|exact Hc'|done|]. set_solver.
  - intros Hb. simpl. rewrite (i_busy _ _ _ HI _ _ Hc'); [set_solver|]. destruct Hb; [by left|by right].
  - exact (i_retries _ _ _ HI _ _ Hc').
  - simpl. rewrite (done_count_put _ _ c) by done. simpl. rewrite (i_done _ _ _ HI). lia.
Qed.

Lemma TerminateJob_keeps job recovery bootstrap s : Inv s -> keeps (TerminateJob start job recovery bootstrap) s.
Proof.
  intros HI. unfold TerminateJob. walk1. eapply keeps_bind; [apply _| |intros [] s1 HI1 _].
  { apply mod_dag_other; try done; simpl; by destruct (decide _). }
  eapply keeps_bind; [apply _| |intros [] s2 HI2 _].
  { apply keeps_put; [done|]. intros j _. unfold TerminateSuccess. job_safe. }
  apply pres_bind_node. intros j Hj. eapply (pres_bind _ _ _ _ _ (fun _ s' => counted s' job)).
  - destruct (countedAsDone j) eqn:Hc; simpl.
    + eapply pres_ret; [apply _|done|]. by exists j.
    + apply pres_assoc. seq; [by eapply count_done_keeps|]. intros [] s3 HI3 _ Hc3. walk1.
      eapply pres_ASSERT; [apply _|done|done].
  - intros [] s3 HI3 Hle3 Hc3. eapply keeps_for_each; [apply _| |done]. intros child s4 _ HI4 Hle4.
    assert (Hid : _jobID j = job) by exact (i_id _ _ _ HI2 _ _ Hj). rewrite Hid.
    eapply keeps_bind; [apply _| |intros [] s5 HI5 _].
    { apply unwait_keeps; [done|]. by eapply counted_stable. }
    walk.
Qed.
Hint Resolve TerminateJob_keeps : sched.

(** The retry counter never passes the limit: the assertion sees to it. *)
Lemma count_retry_keeps job s :
  Inv s ->
  keeps (upd job (fun j => j <| retries ::= Z.succ |>);; j ← node job; ASSERT (retries j <=? retry_max j)) s.
Proof.
  intros HI. unfold DagLogic.pres, wp, upd, node, mod_dag, modify, mbind, M_bind, ASSERT.
  destruct (nodes s !! job) as [j|] eqn:Hj; [|done]. simpl. rewrite lookup_insert_eq. simpl.
  destruct (_ <=? _) eqn:Hr; [|done]. apply Z.leb_le in Hr. simpl.
  set (j' := j <| retries ::= Z.succ |>).
  split; [|done]. split; [|by apply (put_node_le s job j j')].
  apply (Inv_put pre rec s job j j'); [done|done|]. split; [done..| |by left].
  intros [Hb|Hb]; [by left; left|by left; right].
Qed.

Lemma RestartNode_keeps job recovery s : Inv s -> keeps (RestartNode start job recovery) s.
Proof.
  intros HI. unfold RestartNode. walk1. walk1; [by walk|]. walk1; [by walk|].
  eapply keeps_bind; [apply _|by apply SetStatus_keeps; [done|left]|intros [] s1 HI1 _].
  apply pres_assoc, pres_assoc2. eapply keeps_bind; [apply _|by apply count_retry_keeps|intros [] s2 HI2 _].
  walk; apply keeps_put; try done; job_safe.
Qed.
Hint Resolve RestartNode_keeps : sched.

Lemma find_node_keeps name s : Inv s -> keeps (find_node name) s.
Proof. intros HI. unfold find_node. walk. Qed.
Hint Resolve find_node_keeps : sched.
Hint Extern 3 (DagLogic.pres _ _ _ (upd _ _) _ _) => apply keeps_put; [done|job_safe] : sched.
Hint Extern 3 (DagLogic.pres _ _ _ (mod_dag _) _ _) => apply mod_dag_other; done : sched.
Hint Extern 3 (DagLogic.pres _ _ _ (modify _) _ _) => keeps_frame : sched.

Lemma ProcessPostTermEvent_keeps e job recovery s : Inv s -> keeps (ProcessPostTermEvent start e job recovery) s.
Proof. intros HI. unfold ProcessPostTermEvent. walk. Qed.
Hint Resolve ProcessPostTermEvent_keeps : sched.

Lemma PostScriptReaper_keeps name status s : Inv s -> keeps (PostScriptReaper start name status) s.
Proof. intros HI. unfold PostScriptReaper. walk. by apply emit_keeps. Qed.
Hint Resolve PostScriptReaper_keeps : sched.

Lemma RunPostScript_keeps job i st c s : Inv s -> nowait s job -> keeps (RunPostScript start job i st c) s.
Proof.
  intros HI Hw. unfold RunPostScript. walk; [by apply SetStatus_keeps; auto|].
  apply ScriptQ_Run_keeps; eauto with sched.
Qed.

Lemma pre_script_failed_keeps job s : Inv s -> nowait s job -> keeps (pre_script_failed start job) s.
Proof. intros HI Hw. unfold pre_script_failed. walk. apply RunPostScript_keeps; [done|stays]. Qed.
Hint Resolve RunPostScript_keeps pre_script_failed_keeps : sched.

Lemma active_nowait s i j : Inv s -> nodes s !! i = Some j -> IsActive j = true -> nowait s i.
Proof. intros HI Hj Ha. exists j. split; [done|]. eapply i_busy; [done|done|by left]. Qed.

Lemma PreScriptReaper_keeps name status s : Inv s -> keeps (PreScriptReaper start name status) s.
Proof.
  intros HI. unfold PreScriptReaper. walk1. walk1. walk1; [by walk|].
  match goal with Hs : negb (status_is (_Status ?j) _) = false, Hj : nodes ?s1 !! ?i = Some ?j |- _ =>
    assert (Hw : nowait s1 i) by (apply negb_false_iff in Hs; eapply active_nowait; [done|done|];
      unfold IsActive; by rewrite Hs) end.
  walk.
Qed.
Hint Resolve PreScriptReaper_keeps : sched.

Lemma RunScript_keeps post job s : Inv s -> nowait s job -> keeps (RunScript start post job) s.
Proof. intros HI Hw. apply ScriptQ_Run_keeps; [|done|done]. intros. destruct post; eauto with sched. Qed.
Hint Resolve RunScript_keeps : sched.

Lemma StartNode_body_keeps job r s : Inv s -> keeps (StartNode_body start job r) s.
Proof.
  intros HI. unfold StartNode_body. apply pres_bind_node. intros j Hj. walk1; [by walk|].
  assert (Hw : nowait s job).
  { exists j. split; [done|]. apply negb_false_iff in Heqb. unfold CanSubmit, QueueIsEmpty in Heqb.
    apply andb_true_iff in Heqb as [?%bool_decide_eq_true _]. done. }
  walk; [apply SetStatus_keeps; auto|].
  apply keeps_put; [done|]. intros j1 _. destruct (_hasNodePriority j1); [job_safe|apply job_safe_refl].
Qed.
End Open.

Lemma StartNode_keeps fuel job r s : Inv s -> keeps (StartNode fuel job r) s.
Proof.
  revert job r s. induction fuel as [|fuel IH]; intros job r s HI; [exact Logic.I|].
  by apply StartNode_body_keeps.
Qed.
Hint Resolve StartNode_keeps main_shutdown_rescue_keeps warn_keeps CheckForDagAbort_keeps StartFinalNode_keeps
  TerminateJob_keeps RestartNode_keeps ProcessPostTermEvent_keeps PostScriptReaper_keeps PreScriptReaper_keeps
  RunPostScript_keeps RunScript_keeps find_node_keeps : sched.
Hint Extern 3 (DagLogic.pres _ _ _ (upd _ _) _ _) => apply keeps_put; [done|job_safe] : sched.
Hint Extern 3 (DagLogic.pres _ _ _ (mod_dag _) _ _) => apply mod_dag_other; done : sched.
Hint Extern 3 (DagLogic.pres _ _ _ (modify _) _ _) => keeps_frame : sched.

(** ** Submitting *)

Section Handlers.
Variable fuel : nat.

Lemma swap_priorities_keeps job s : Inv s -> keeps (swap_priorities job) s.
Proof. intros HI. unfold swap_priorities. walk. Qed.
Hint Resolve swap_priorities_keeps : sched.
Lemma run_submit_dag_keeps job s : Inv s -> keeps (run_submit_dag job) s.
Proof. intros HI. unfold run_submit_dag. walk. Qed.
Lemma fake_condor_submit_keeps s : Inv s -> keeps fake_condor_submit s.
Proof. intros HI. unfold fake_condor_submit. walk. Qed.
Lemma condor_submit_keeps job s : Inv s -> nowait s job -> keeps (condor_submit job) s.
Proof. intros HI Hw. unfold condor_submit. walk. apply emit_keeps; [done|]. intros i [= <-]. stays. Qed.
Hint Resolve run_submit_dag_keeps fake_condor_submit_keeps condor_submit_keeps : sched.

Lemma SubmitNodeJob_keeps job id s : Inv s -> nowait s job -> keeps (SubmitNodeJob job id) s.
Proof. intros HI Hw. unfold SubmitNodeJob. walk. Qed.

(** Both kinds of facts about the same computation. *)
Lemma keeps_counts {A} (m : M A) s :
  keeps m s -> DagLogic.keeps True (fun _ => True) same_counts m s -> pres m (fun _ s' => same_counts s s') s.
Proof.
  unfold DagLogic.pres, wp. intros H1 H2. destruct (m s); [|done..]. destruct H1 as [? _], H2 as [[_ ?] _]. done.
Qed.
Lemma room_stable c job s s' : run_le s s' -> same_counts s s' -> room c job s -> room c job s'.
Proof.
  unfold same_counts, job_counts. intros Hle Hc [?|[?|(? & Hm & Ht)]]; [by left|by right; left|].
  injection Hc as Hc1 Hc2. do 2 right. split; [done|]. split; [by rewrite Hc1|].
  intros j' Hj'. destruct (run_le_node_inv _ _ _ _ Hle Hj') as (j & Hj & [Hf _ _]). specialize (Ht _ Hj).
  unfold throttled in *. assert (_throttleInfo j' = _throttleInfo j) as -> by (unfold fixed in Hf; congruence).
  by rewrite Hc2.
Qed.

Lemma ProcessSuccessfulSubmit_keeps job id s :
  Inv s -> nowait s job -> room 1 job s -> keeps (ProcessSuccessfulSubmit job id) s.
Proof.
  intros HI Hw Hroom. unfold ProcessSuccessfulSubmit.
  seq; [apply keeps_counts; [keeps_frame|by eapply counts_run]|intros [] s1 HI1 Hle1 Hc1].
  seq; [apply keeps_counts; [by apply mod_dag_other|by eapply counts_run]|intros [] s2 HI2 Hle2 Hc2].
  seq; [apply keeps_counts; [apply SetStatus_keeps; eauto with sched|apply counts_upd]|intros [] s3 HI3 Hle3 Hc3].
  eapply keeps_bind; [apply _| |intros [] s4 HI4 _; by walk].
  apply UpdateJobCounts_keeps; [done|]. do 3 (eapply room_stable; [done|done|]). done.
Qed.

Lemma ProcessFailedSubmit_keeps job s : Inv s -> nowait s job -> keeps (ProcessFailedSubmit fuel job) s.
Proof.
  intros HI Hw. unfold ProcessFailedSubmit. walk.
  apply keeps_put; [done|]. intros jx Hjx. split; [done..| |by left]. intros [Hb|Hb]; [by left; left|by left; right].
Qed.

Lemma Next_first (q q' : PrioritySimpleList Z) job :
  Next (Rewind q) = (q', Some job) -> exists l, items q = job :: l /\ items (DeleteCurrent q') = l.
Proof.
  unfold Next, Rewind, DeleteCurrent, Number. simpl.
  destruct (items q) as [|x l] eqn:Hq; simpl; [done|]. destruct (_ <=? _); [done|]. intros [= <- <-]. simpl.
  exists l. split; [done|]. destruct (Z.of_nat (S (length l)) <=? 0) eqn:Hx; [apply Z.leb_le in Hx; lia|]. done.
Qed.

(** The nodes put aside wait for nothing either. *)
Definition all_nowait (s : Run) (q : PrioritySimpleList Z) : Prop := forall i, i ∈ items q -> nowait s i.

Lemma submit_turn_keeps again deferred submits s :
  (forall d n s, Inv s -> all_nowait s d -> pres (again d n) (fun r s' => all_nowait s' r.1) s) ->
  Inv s -> all_nowait s deferred ->
  pres (submit_turn fuel again deferred submits) (fun r s' => all_nowait s' r.1) s.
Proof.
  intros Hagain HI Hd. unfold submit_turn. walk1; [by walk|]. walk1. do 3 (walk1; [by walk|]).
  destruct (Next (Rewind (_readyQ (dag s)))) as [q [job|]] eqn:Hnext; [|by walk].
  destruct (Next_first _ _ _ Hnext) as (l & Hl & Hl').
  assert (Hw : nowait s job). { apply (i_listed _ _ _ HI). left. rewrite Hl. set_solver. }
  seq; [apply keeps_counts; [apply mod_dag_keeps; try done; [|same_throttle]|by eapply counts_run]|intros [] s1 HI1 Hle1 Hc1].
  { simpl. rewrite Hl', Hl. set_solver. }
  assert (Hd1 : all_nowait s1 deferred) by (intros i Hi; eapply nowait_stable; [done|by apply Hd]).
  assert (Hw1 : nowait s1 job) by (by eapply nowait_stable).
  apply pres_bind_node. intros j Hj. walk1; [by walk|]. walk1.
  { apply Hagain; [done|]. intros i [?| ->]%elem_of_InsertAt; [by apply Hd1|done]. }
  seq; [apply keeps_counts; [by apply SubmitNodeJob_keeps|apply counts_SubmitNodeJob]|]. intros [r id] s2 HI2 Hle2 Hc2.
  assert (Hd2 : all_nowait s2 deferred) by (intros i Hi; eapply nowait_stable; [done|by apply Hd1]).
  assert (Hw2 : nowait s2 job) by (by eapply nowait_stable).
  destruct r.
  - eapply keeps_bind; [apply _|apply ProcessSuccessfulSubmit_keeps; [done|done|]|].
    + apply (room_stable _ _ s1); [done|done|]. do 2 right. split; [done|]. injection Hc1 as Hn1 Ht1.
      split.
      * intros Hm. rewrite Hn1. destruct (Z.eqb_spec _maxJobsSubmitted 0); [done|]. simpl in Heqb1. by apply Z.leb_gt in Heqb1.
      * intros j' Hj'. simplify_eq. unfold throttled in *. by rewrite Ht1.
    + intros [] s3 HI3 Hle3. apply Hagain; [done|]. intros i Hi. eapply nowait_stable; [done|by apply Hd2].
  - eapply keeps_bind; [apply _|by apply ProcessFailedSubmit_keeps|]. intros [] s3 HI3 Hle3.
    eapply pres_ret; [apply _|done|]. intros i Hi. eapply nowait_stable; [done|by apply Hd2].
  - by apply Hagain.
Qed.
Lemma submit_loop_keeps n deferred submits s :
  Inv s -> all_nowait s deferred -> pres (submit_loop fuel n deferred submits) (fun r s' => all_nowait s' r.1) s.
Proof.
  revert deferred submits s. induction n as [|n IH]; intros deferred submits s HI Hd; simpl;
    apply submit_turn_keeps; try done.
Qed.

Lemma RunWaitingScript_keeps post s : Inv s -> keeps (RunWaitingScript fuel post) s.
Proof.
  intros HI. unfold RunWaitingScript. walk1. destruct (_waitingQueue (scriptQ post s)) as [|job rest] eqn:Hq; [by walk|].
  assert (Hw : nowait s job).
  { apply (i_listed _ _ _ HI). destruct post; simpl in Hq; [do 2 right; left|right; left]; rewrite Hq; set_solver. }
  eapply keeps_bind; [apply _| |intros [] s1 HI1 Hle1; eauto with sched].
  apply mod_scriptQ_keeps; [done|]. simpl. intros i Hi. left. rewrite Hq. set_solver.
Qed.
Hint Resolve RunWaitingScript_keeps : sched.
Lemma RunAllWaitingScripts_keeps n post s : Inv s -> keeps (RunAllWaitingScripts fuel n post) s.
Proof. revert s. induction n as [|n IH]; intros s HI; simpl; [exact Logic.I|]. walk. Qed.
Hint Resolve RunAllWaitingScripts_keeps : sched.

Lemma SubmitReadyJobs_keeps s : Inv s -> keeps (SubmitReadyJobs fuel) s.
Proof.
  intros HI. unfold SubmitReadyJobs.
  repeat (lazymatch goal with |- DagLogic.pres _ _ _ (submit_loop _ _ _ _ ≫= _) _ _ => fail | _ => walk1 end; try done).
  seq; [apply submit_loop_keeps; [done|]|].
  { by intros i Hi%elem_of_nil. }
  intros [deferred submits] s4 HI4 _ Hd. walk. eapply keeps_for_each; [apply _| |done].
  intros i s5 Hi HI5 Hle5. apply ready_prepend_keeps; [done|]. eapply nowait_stable; [done|by apply Hd].
Qed.
Hint Resolve SubmitReadyJobs_keeps : sched.

Lemma ScriptReaper_keeps post pid status s : Inv s -> keeps (ScriptReaper fuel post pid status) s.
Proof.
  intros HI. unfold ScriptReaper, script. walk1. walk1; [|by walk].
  eapply keeps_bind; [apply _|apply mod_scriptQ_keeps; [done|by auto]|intros [] s1 HI1 _].
  apply pres_assoc'. walk.
  - apply keeps_put; [done|]. intros. apply set_script_safe.
  - unfold reaper. destruct post; eauto with sched.
Qed.

(** ** Events *)

Lemma FindNodeByEventID_keeps ty id s : Inv s -> keeps (FindNodeByEventID fuel ty id) s.
Proof. intros HI. unfold FindNodeByEventID. walk. Qed.
Lemma SanityCheckSubmitEvent_keeps id job s : Inv s -> keeps (SanityCheckSubmitEvent fuel id job) s.
Proof. intros HI. unfold SanityCheckSubmitEvent. walk. Qed.
Hint Resolve FindNodeByEventID_keeps SanityCheckSubmitEvent_keeps : sched.
Lemma LogEventNodeLookup_keeps ty e s : Inv s -> keeps (LogEventNodeLookup fuel ty e) s.
Proof. intros HI. unfold LogEventNodeLookup, submit_event_node. walk. Qed.
Lemma EventSanityCheck_keeps ty e s : Inv s -> keeps (EventSanityCheck ty e) s.
Proof.
  intros HI. unfold EventSanityCheck. eapply keeps_bind; [apply _| |by intros; walk].
  destruct ty.
  - destruct (CheckAnEvent (_checkCondorEvents s) e) as [c [m r]] eqn:Hc.
    eapply pres_run; [by rewrite Hc|by destruct HI; split| |done]. apply run_le_frame; try done. same_trace.
  - destruct (CheckAnEvent (_checkStorkEvents s) e) as [c [m r]] eqn:Hc.
    eapply pres_run; [by rewrite Hc|by destruct HI; split| |done]. apply run_le_frame; try done. same_trace.
Qed.
Hint Resolve LogEventNodeLookup_keeps EventSanityCheck_keeps : sched.

Lemma RemoveBatchJob_keeps job s : Inv s -> keeps (RemoveBatchJob job) s.
Proof. intros HI. by apply emit_keeps. Qed.
Hint Resolve RemoveBatchJob_keeps : sched.

Lemma ProcessJobProcEnd_keeps job recovery failed s :
  Inv s -> nowait s job -> keeps (ProcessJobProcEnd fuel job recovery failed) s.
Proof. intros HI Hw. unfold ProcessJobProcEnd. walk. apply SetStatus_keeps; [done|right; stays]. Qed.
Hint Resolve ProcessJobProcEnd_keeps : sched.

Lemma ProcessAbortEvent_keeps e job recovery s : Inv s -> keeps (ProcessAbortEvent fuel e job recovery) s.
Proof.
  intros HI. unfold ProcessAbortEvent. seq; [by apply DecrementJobCounts_keeps|]. intros [] s1 HI1 _ Hw. walk.
Qed.
Lemma ProcessTerminatedEvent_keeps e job recovery s : Inv s -> keeps (ProcessTerminatedEvent fuel e job recovery) s.
Proof.
  intros HI. unfold ProcessTerminatedEvent. seq; [by apply DecrementJobCounts_keeps|]. intros [] s1 HI1 _ Hw. walk.
Qed.

Lemma queue_empty_nowait s job j : nodes s !! job = Some j -> negb (QueueIsEmpty Q_WAITING j) = false -> nowait s job.
Proof. intros Hj Hq%negb_false_iff. exists j. split; [done|]. by apply bool_decide_eq_true in Hq. Qed.

Lemma ProcessSubmitEvent_keeps job recovery sane s :
  (recovery = true -> rec = true) -> Inv s -> keeps (ProcessSubmitEvent job recovery sane) s.
Proof.
  intros Hrec HI. unfold ProcessSubmitEvent. apply pres_bind_node. intros j Hj.
  eapply keeps_bind; [apply _|by walk|intros [] s1 HI1 Hle1]. destruct (negb _) eqn:Hq; [by walk|].
  assert (Hw : nowait s1 job) by (eapply nowait_stable; [done|]; by eapply queue_empty_nowait).
  walk.
  - apply keeps_put; [done|]. intros jx Hjx. split; [done..| |by right]. intros _. right.
    destruct Hw as (j1 & ? & ?). congruence.
  - apply UpdateJobCounts_keeps; [done|]. right; left. auto.
  - apply SetStatus_keeps; [done|right; stays].
Qed.
Lemma idle_keeps job s :
  Inv s -> keeps (ProcessIsIdleEvent job) s /\ keeps (ProcessNotIdleEvent job) s /\
           keeps (ProcessHeldEvent job) s /\ keeps (ProcessReleasedEvent job) s.
Proof.
  intros HI. unfold ProcessIsIdleEvent, ProcessNotIdleEvent, ProcessHeldEvent, ProcessReleasedEvent.
  split_and!; walk.
Qed.
Hint Resolve ProcessAbortEvent_keeps ProcessTerminatedEvent_keeps ProcessSubmitEvent_keeps : sched.
Hint Extern 2 (DagLogic.pres _ _ _ (ProcessIsIdleEvent _) _ _) => by apply idle_keeps : sched.
Hint Extern 2 (DagLogic.pres _ _ _ (ProcessNotIdleEvent _) _ _) => by apply idle_keeps : sched.
Hint Extern 2 (DagLogic.pres _ _ _ (ProcessHeldEvent _) _ _) => by apply idle_keeps : sched.
Hint Extern 2 (DagLogic.pres _ _ _ (ProcessReleasedEvent _) _ _) => by apply idle_keeps : sched.

Lemma ProcessOneEvent_keeps ty o e recovery s :
  (recovery = true -> rec = true) -> Inv s -> keeps (ProcessOneEvent fuel ty o e recovery) s.
Proof. intros Hrec HI. unfold ProcessOneEvent, ProcessEvent. walk. Qed.
Hint Resolve ProcessOneEvent_keeps : sched.
Lemma ProcessLogEvents_keeps ty recovery reads s :
  (recovery = true -> rec = true) -> Inv s -> keeps (ProcessLogEvents fuel ty recovery reads) s.
Proof.
  intros Hrec. unfold ProcessLogEvents. generalize true as result. revert s.
  induction reads as [|[o e] reads IH]; intros s result HI; simpl; walk.
Qed.
Hint Resolve ProcessLogEvents_keeps : sched.

(** ** The main loop *)

Lemma Dag_CheckAllJobs_keeps s : Inv s -> keeps (Dag_CheckAllJobs fuel) s.
Proof. intros HI. unfold Dag_CheckAllJobs, CheckAllJobs_result. walk. Qed.
Hint Resolve Dag_CheckAllJobs_keeps : sched.

(** Every field but the marks is the same. *)
Lemma unmarked_eq j j' :
  unmarked j' = unmarked j ->
  fixed j' = fixed j /\ _waiting j' = _waiting j /\ countedAsDone j' = countedAsDone j /\ _Status j' = _Status j /\
  _queuedNodeJobProcs j' = _queuedNodeJobProcs j /\ retries j' = retries j.
Proof. intros He. destruct j, j'. unfold unmarked, fixed in *. simpl in *. by simplify_eq. Qed.

Lemma done_count_unmarked (m m' : gmap Z Job) : unmarked <$> m' = unmarked <$> m -> done_count m' = done_count m.
Proof.
  intros Hm. unfold done_count. f_equal.
  rewrite <- !size_dom. f_equal. apply set_eq. intros i. rewrite !elem_of_dom. unfold is_Some, counted_nodes.
  setoid_rewrite map_lookup_filter_Some. simpl.
  split; intros (j & Hj & Hc); [symmetry in Hm|]; destruct (unmarked_lookup _ _ _ _ Hm Hj) as (j' & Hj' & He);
    exists j'; (split; [done|]); destruct (unmarked_eq _ _ He) as (_ & _ & -> & _); done.
Qed.

Lemma mark_keeps d' s : Inv s -> marks_only (dag s) d' -> keeps (mod_dag (fun _ => d')) s.
Proof.
  intros HI (m & n & -> & Hm).
  assert (Hle : run_le s (s <| dag := (dag s) <| _nodeIDHash := m |> <| DFS_ORDER := n |> |>)).
  { split; [done|done| |same_trace]. intros i. simpl. destruct (nodes s !! i) as [j|] eqn:Hj.
    - destruct (unmarked_lookup _ _ _ _ Hm Hj) as (j' & -> & He). constructor.
      destruct (unmarked_eq _ _ He) as (? & Hw & Hc & _). split; [done|by rewrite Hw|by rewrite Hc].
    - destruct (m !! i) as [j'|] eqn:Hj'; [|constructor]. symmetry in Hm.
      destruct (unmarked_lookup _ _ _ _ Hm Hj') as (? & ? & _). congruence. }
  apply keeps_modify; [|exact Hle].
  assert (Hback : forall i j', m !! i = Some j' -> exists j, nodes s !! i = Some j /\ unmarked j' = unmarked j).
  { intros i j' Hj'. symmetry in Hm. destruct (unmarked_lookup _ _ _ _ Hm Hj') as (j & ? & ?). by exists j. }
  split; simpl.
  - intros i j' (j & Hj & (Hf & _)%unmarked_eq)%Hback. rewrite (fixed_id _ _ Hf). by eapply i_id.
  - intros c j' p (j & Hj & (Hf & Hw & _)%unmarked_eq)%Hback Hp Hnw. rewrite (fixed_parents _ _ Hf) in Hp.
    rewrite Hw in Hnw. eapply ended_stable; [exact Hle|]. by eapply i_waiting.
  - intros i j' (j & Hj & (Hf & Hw & _ & Hs & Hq & _)%unmarked_eq)%Hback Hb. rewrite Hw. eapply i_busy; [done|done|].
    unfold busy, IsActive in *. rewrite Hs, Hq in Hb. done.
  - intros i Hi. eapply nowait_stable; [exact Hle|]. by eapply i_listed.
  - intros i j' (j & Hj & (Hf & _ & _ & _ & _ & Hr)%unmarked_eq)%Hback. rewrite Hr, (fixed_retry_max _ _ Hf).
    by eapply i_retries.
  - rewrite (done_count_unmarked _ _ Hm). apply HI.
  - same_throttle.
Qed.

Lemma check_finished_keeps s : Inv s -> keeps (check_finished fuel) s.
Proof.
  intros HI. unfold check_finished. walk. apply mark_keeps; [done|]. by eapply isCycle_marks.
Qed.
Hint Resolve check_finished_keeps : sched.

Lemma condor_event_timer_keeps paused condor stork s : Inv s -> keeps (condor_event_timer fuel paused condor stork) s.
Proof. intros HI. unfold condor_event_timer, process_log. walk; by apply ProcessLogEvents_keeps. Qed.
Hint Resolve condor_event_timer_keeps ScriptReaper_keeps : sched.
Lemma handle_keeps st s : Inv s -> keeps (handle fuel st) s.
Proof. intros HI. unfold handle. destruct st; eauto with sched. Qed.

Definition no_recovery {A} (recovery : option A) : Prop := is_Some recovery -> rec = true.

Lemma Bootstrap_keeps recovery s : no_recovery recovery -> Inv s -> keeps (Bootstrap fuel recovery) s.
Proof.
  intros Hrec HI. unfold Bootstrap. walk1. eapply keeps_bind; [apply _| |intros [] s1 HI1 _].
  { eapply keeps_for_each; [apply _| |done]. intros job sx _ HIx _. walk. }
  eapply keeps_bind; [apply _| |intros ok s2 HI2 _].
  - destruct recovery as [[condor stork]|]; [|by walk].
    assert (Hr : rec = true) by (apply Hrec; eauto). clear Hrec. unfold recover_dag, recover_events. walk.
    + eapply keeps_each_ok; [apply _| |done]. intros job sx _ HIx _. walk.
    + eapply keeps_each_ok; [apply _| |done]. intros job sx _ HIx _. walk.
      apply RunPostScript_keeps; eauto with sched. eapply active_nowait; [done|done|]. unfold IsActive.
      match goal with Hs : status_is _ STATUS_POSTRUN = true |- _ => rewrite Hs end. by rewrite orb_true_r.
  - walk. eapply keeps_for_each; [apply _| |done]. intros job sx _ HIx _. walk.
Qed.

Lemma run_dag_keeps recovery sts s : no_recovery recovery -> Inv s -> keeps (run_dag fuel recovery sts) s.
Proof.
  intros Hrec HI. unfold run_dag. eapply keeps_bind; [apply _|by apply Bootstrap_keeps|intros ok s1 HI1 _]. walk.
  eapply keeps_for_each; [apply _| |done]. intros st sx _ HIx _. by apply handle_keeps.
Qed.
End Handlers.
End Specs.

(** ** Runs *)

(** A DAG as parse() leaves it: the dependencies agree on both sides, nothing has been run. *)
Record fresh (d : Dag) : Prop := mkFresh {
  f_graph : wf_graph d;
  f_waiting : forall c j p, _nodeIDHash d !! c = Some j -> p ∈ _parents j -> p ∉ _waiting j ->
                exists jp, _nodeIDHash d !! p = Some jp /\ _Status jp = STATUS_DONE;
  f_nodes : forall i j, _nodeIDHash d !! i = Some j ->
              IsActive j = false /\ _queuedNodeJobProcs j = 0 /\ countedAsDone j = false /\ retries j <= retry_max j;
  f_names : forall i j, _nodeIDHash d !! i = Some j -> _nodeNameHash d !! _jobName j = Some i;
  f_ready : items (_readyQ d) = [];
  f_counts : _numNodesDone d = 0 /\ _numJobsSubmitted d = 0;
  f_throttles : forall category t, _catThrottles d !! category = Some t -> _currentJobs t = 0
}.

Definition marked_done (d : Dag) (i : Z) : Prop := exists j, _nodeIDHash d !! i = Some j /\ _Status j = STATUS_DONE.

(** The limits are those the user may give. *)
Definition sensible_limits `{Config} (d : Dag) : Prop :=
  0 <= _maxJobsSubmitted /\ forall category t, _catThrottles d !! category = Some t -> isSet t = true -> 0 <= _maxJobs t.

Lemma fresh_Inv `{Config} d allow rec :
  fresh d -> (rec = false -> sensible_limits d) -> Inv (marked_done d) rec (new_Run d allow).
Proof.
  intros [Hg Hw Hn _ Hr [Hd Hs] Ht] Hlim. split; simpl.
  - apply Hg.
  - intros c j p Hj Hp Hnw. right. by eapply Hw.
  - intros i j Hj [Hb|Hb]; destruct (Hn i j Hj) as (Ha & Hq & _); [congruence|lia].
  - intros i [Hi|[Hi|[Hi|(a & Ha & _)]]]; simpl in *; [rewrite Hr in Hi|..]; by apply elem_of_nil in Hi || apply elem_of_nil in Ha.
  - intros i j Hj. apply (Hn i j Hj).
  - rewrite Hd. unfold done_count, counted_nodes.
    replace (filter _ (_nodeIDHash d)) with (∅ : gmap Z Job); [done|]. symmetry. apply map_empty. intros i.
    apply map_lookup_filter_None_2. destruct (_nodeIDHash d !! i) as [j|] eqn:Hj; [right|by left].
    intros j' Hj'. simplify_eq. simpl. destruct (Hn i j' Hj) as (_ & _ & Hc & _). congruence.
  - intros Hrec. destruct (Hlim Hrec) as [Hm Hc]. split; [lia|]. intros c t Hct Hset.
    rewrite (Ht _ _ Hct). by eapply Hc.
Qed.

(** Scripts of the node are running or waiting to run, its job is ready, submitted or queued, or
    something has been done for it already. *)
Definition worked_on (s : Run) (i : Z) (j : Job) : Prop := busy j \/ listed s i.
Definition dependencies_hold (d : Dag) (s : Run) : Prop :=
  forall i j, nodes s !! i = Some j -> worked_on s i j ->
  exists j0, _nodeIDHash d !! i = Some j0 /\ _parents j = _parents j0 /\
             forall p, p ∈ _parents j0 -> marked_done d p \/ counted s p.

Lemma Inv_dependencies `{Config} d allow rec s :
  Inv (marked_done d) rec s -> run_le (new_Run d allow) s -> dependencies_hold d s.
Proof.
  intros HI Hle i j Hj Hwork. destruct (run_le_node_inv _ _ _ _ Hle Hj) as (j0 & Hj0 & [Hf _ _]).
  exists j0. split; [done|]. split; [by apply fixed_parents|]. intros p Hp.
  assert (Hw : _waiting j = ∅).
  { destruct Hwork as [Hb|Hl]; [by eapply i_busy|]. destruct (i_listed _ _ _ HI i Hl) as (j' & Hj' & ?). congruence. }
  destruct (i_waiting _ _ _ HI i j p) as [?|?]; [done|by rewrite (fixed_parents _ _ Hf)|set_solver|by right|by left].
Qed.

(** The run keeps the invariant, whether it is still going or has ended. *)
Lemma run_dag_Inv `{Config} `{World} fuel recovery sts d allow rec (P : Run -> Prop) :
  fresh d -> (rec = false -> sensible_limits d) -> (is_Some recovery -> rec = true) ->
  (forall s, Inv (marked_done d) rec s -> run_le (new_Run d allow) s -> P s) ->
  wp True (run_dag fuel recovery sts) (fun _ => P) P (new_Run d allow).
Proof.
  intros Hf Hlim Hrec HP.
  eapply wp_mono; [by apply (run_dag_keeps (marked_done d) rec fuel recovery sts); [exact Hrec|by apply fresh_Inv]| |];
    [intros a s' [[? ?] _]; auto|intros s' [? ?]; auto].
Qed.

(** C2 (safety): DAGMan respects the dependencies.  In any run of a DAG, with or without recovery,
    whatever the log files say, the scripts return and the system answers, a node whose scripts run or
    wait to run, whose job is ready, submitted or in the queue, or for which a script was started or a
    job submitted at any time, has the parents the DAG file gives it, and each of these was marked DONE
    there or has ended successfully and been counted as done. *)
Theorem dependencies_respected `{Config} `{World} fuel recovery sts d allow :
  fresh d ->
  wp True (run_dag fuel recovery sts) (fun _ => dependencies_hold d) (dependencies_hold d) (new_Run d allow).
Proof.
  intros Hf. apply (run_dag_Inv _ _ _ _ _ true); [done|done|done|]. intros s HI Hle. by eapply Inv_dependencies.
Qed.
