(* ===== verification/DagTermination.v ===== *)
(** The nested calls of the scheduler end.

    StartNode() may come back to itself without returning to the main loop: a PRE script that cannot
    be started fails at once, its node is tried again or ends, and other nodes start.  Each such call
    uses up a retry or moves a node out of the ready state, so the depth is bounded by a potential
    that no handler increases; [dag_fuel] is that potential for a new DAG. *)

From S2P Require Import Prelude CondorId PriorityList DagJob Dag DagCycle DagBuild.
From S2P Require Import HashTable CheckEvents DagRun DagLogic DagSafety.

Open Scope Z_scope.

(** ** The potential *)

Definition pre_pending (j : Job) : bool := match _scriptPre j with Some sc => negb (_done sc) | None => false end.
Definition rank (j : Job) : nat :=
  2 * Z.to_nat (retry_max j - retries j) +
  match _Status j with
  | STATUS_NOT_READY => 2
  | STATUS_READY => if pre_pending j then 1 else 0
  | _ => 0
  end.
Definition ranks (m : gmap Z Job) : nat := map_fold (fun _ j n => rank j + n)%nat 0%nat m.
Definition potential (s : Run) : nat := ranks (nodes s) + length (_waitingQueue (_preScriptQ s)).
Definition dag_fuel (d : Dag) : nat := S (ranks (_nodeIDHash d)).

Lemma ranks_put (m : gmap Z Job) i j j' :
  m !! i = Some j -> (ranks (<[i := j']> m) + rank j = ranks m + rank j')%nat.
Proof.
  intros Hj. unfold ranks.
  rewrite (map_fold_delete_L _ _ i j m) by (try done; intros; lia).
  rewrite <- (insert_delete_eq m i j'). rewrite map_fold_insert_L by (try apply lookup_delete_eq; intros; lia). lia.
Qed.

(** The name of a node leads back to it, and names do not change. *)
Definition names_ok (s : Run) : Prop :=
  forall i j, nodes s !! i = Some j -> _nodeNameHash (dag s) !! _jobName j = Some i.
Definition bounded (n : nat) (s : Run) : Prop := names_ok s /\ (potential s < n)%nat.

Record declines (s s' : Run) : Prop := mkDeclines {
  de_potential : (potential s' <= potential s)%nat;
  de_nodes : forall i j, nodes s !! i = Some j -> is_Some (nodes s' !! i)
}.
#[export] Instance declines_preorder : PreOrder declines.
Proof.
  split; [intros s; split; [done|eauto]|]. intros s1 s2 s3 [? A] [? B]. split; [lia|].
  intros i j Hj. destruct (A i j Hj) as [j' Hj']. eauto.
Qed.

Section Termination.
Context `{Config} `{World}.

(** The bound may as well be a smaller one that holds at the start. *)
Lemma pres_bounded_shrink {A} n n' (m : M A) (Q : A -> Run -> Prop) s :
  (potential s < n)%nat -> pres False (bounded n') declines m Q s -> pres False (bounded n) declines m Q s.
Proof.
  intros Hn Hm. eapply wp_mono; [exact Hm| |].
  - intros a s' [[[? ?] Hd] ?]. split; [split; [split; [done|destruct Hd; lia]|done]|done].
  - intros s' [[? ?] Hd]. split; [split; [done|destruct Hd; lia]|done].
Qed.

Section Bound.
Context (n : nat).
Notation pres := (pres False (bounded n) declines).
Notation keeps m s := (keeps False (bounded n) declines m s).

(** A change of a node that does not raise its rank. *)
Definition lowers (j j' : Job) : Prop := _jobName j' = _jobName j /\ (rank j' <= rank j)%nat.

Lemma bounded_put s s' i j j' :
  bounded n s -> nodes s !! i = Some j -> nodes s' = <[i := j']> (nodes s) -> lowers j j' ->
  _nodeNameHash (dag s') = _nodeNameHash (dag s) -> _preScriptQ s' = _preScriptQ s ->
  bounded n s' /\ declines s s'.
Proof.
  intros [Hb Hp] Hj Hn [Hname Hr] Hh Hq. pose proof (ranks_put (nodes s) i j j' Hj) as Hs. unfold potential in *.
  split; [split|split].
  - intros k x. rewrite Hn, Hh. destruct (decide (k = i)) as [->|].
    + rewrite lookup_insert_eq. intros [= <-]. rewrite Hname. by apply Hb.
    + rewrite lookup_insert_ne by done. apply Hb.
  - unfold potential. rewrite Hn, Hq. lia.
  - unfold potential. rewrite Hn, Hq. lia.
  - intros k x Hx. rewrite Hn. destruct (decide (k = i)) as [->|]; [rewrite lookup_insert_eq|rewrite lookup_insert_ne by done]; eauto.
Qed.
Lemma total_put i f s :
  bounded n s -> (forall j, nodes s !! i = Some j -> lowers j (f j)) -> keeps (upd i f) s.
Proof.
  intros HI Hl. apply pres_upd. intros j Hj.
  destruct (bounded_put s (s <| dag ::= fun d => put_node d i (f j) |>) i j (f j)); auto.
Qed.

Lemma bounded_frame s s' :
  bounded n s -> nodes s' = nodes s -> _nodeNameHash (dag s') = _nodeNameHash (dag s) ->
  (length (_waitingQueue (_preScriptQ s')) <= length (_waitingQueue (_preScriptQ s)))%nat ->
  bounded n s' /\ declines s s'.
Proof.
  intros [Hb Hp] Hn Hh Hq. unfold potential in *. split; [split|split]; unfold names_ok, potential; rewrite ?Hn, ?Hh; try done; eauto; lia.
Qed.
Lemma total_run {A} (m : M A) a s' s :
  bounded n s -> m s = RDone a s' -> nodes s' = nodes s -> _nodeNameHash (dag s') = _nodeNameHash (dag s) ->
  (length (_waitingQueue (_preScriptQ s')) <= length (_waitingQueue (_preScriptQ s)))%nat -> keeps m s.
Proof. intros HI Hm Hn Hh Hq. destruct (bounded_frame s s' HI Hn Hh Hq). by eapply pres_run. Qed.
End Bound.
End Termination.

(** Assignments that do not raise the rank; the status is compared case by case. *)
Ltac lowers :=
  intros ? _; unfold TerminateFailure, TerminateSuccess, SetStatus, post_retValJob, post_retValScript;
  split; [reflexivity|unfold rank, pre_pending; simpl; try done; repeat case_match; simpl in *; lia].
Ltac same_state := eapply total_run; [done|reflexivity|done|done|done].

Section Total.
Context `{Config} `{World} (n : nat).
Notation pres := (pres False (bounded n) declines).
Notation keeps m s := (keeps False (bounded n) declines m s).
Notation bounded := (bounded n).
Hint Extern 2 (DagLogic.pres _ _ _ (ask _) _ _) => same_state : sched.
Hint Extern 2 (DagLogic.pres _ _ _ (ask_int _) _ _) => same_state : sched.
Hint Extern 2 (DagLogic.pres _ _ _ (emit _) _ _) => same_state : sched.
Hint Extern 2 (DagLogic.pres _ _ _ (modify _) _ _) => same_state : sched.
Hint Extern 2 (DagLogic.pres _ _ _ (mod_dag _) _ _) => same_state : sched.
Hint Extern 2 (DagLogic.pres _ _ _ (upd _ _) _ _) => apply total_put; [done|lowers] : sched.

Lemma LogMonitorFailed_lowers j : lowers j (LogMonitorFailed j).
Proof.
  unfold LogMonitorFailed. destruct (status_is _ _); [done|]. split; [reflexivity|]. unfold rank. simpl. lia.
Qed.
Lemma MonitorLogFile_total job s : bounded s -> keeps (MonitorLogFile job) s.
Proof. intros HI. unfold MonitorLogFile. walk; apply total_put; try done; intros; apply LogMonitorFailed_lowers. Qed.
Lemma UnmonitorLogFile_total job s : bounded s -> keeps (UnmonitorLogFile job) s.
Proof. intros HI. unfold UnmonitorLogFile. walk. Qed.
Lemma node_failed_total s : bounded s -> keeps node_failed s.
Proof.
  intros HI. unfold node_failed. eapply total_run; [done|reflexivity|..]; simpl; [by destruct (decide _)..|done].
Qed.
Lemma UpdateJobCounts_total job c s : bounded s -> keeps (UpdateJobCounts job c) s.
Proof. intros HI. unfold UpdateJobCounts. walk. Qed.
Hint Resolve MonitorLogFile_total UnmonitorLogFile_total node_failed_total UpdateJobCounts_total : sched.
Lemma DecrementJobCounts_total job s : bounded s -> keeps (DecrementJobCounts job) s.
Proof. intros HI. unfold DecrementJobCounts. walk. Qed.
Lemma hash_remove_total b ty id msg s : bounded s -> keeps (hash_remove b ty id msg) s.
Proof.
  intros HI. unfold hash_remove. walk.
  eapply total_run; [done|reflexivity|..]; simpl; unfold set_EventIDHash; by destruct b, ty.
Qed.
Lemma hash_insert_total b ty id job s : bounded s -> keeps (hash_insert b ty id job) s.
Proof.
  intros HI. unfold hash_insert. walk.
  eapply total_run; [done|reflexivity|..]; simpl; unfold set_EventIDHash; by destruct b, ty.
Qed.
Lemma ready_prepend_total job s : bounded s -> keeps (ready_prepend job) s.
Proof. intros HI. unfold ready_prepend. walk. Qed.
Lemma ready_append_total job s : bounded s -> keeps (ready_append job) s.
Proof. intros HI. unfold ready_append. walk. Qed.
Hint Resolve DecrementJobCounts_total hash_remove_total hash_insert_total ready_prepend_total ready_append_total : sched.

Lemma raise_priorities_lowers d ps j0 j : lowers j0 j -> lowers j0 (foldl (raise_priority d) j ps).
Proof.
  revert j. induction ps as [|p ps IH]; intros j Hl; simpl; [done|]. apply IH. unfold raise_priority.
  destruct (_nodeIDHash d !! p) as [jp|]; [|done]. destruct (_ && _); [|done]. by destruct Hl.
Qed.
Lemma FixPriority_total job s : bounded s -> keeps (FixPriority job) s.
Proof. intros HI. unfold FixPriority. walk. apply total_put; [done|]. intros j _. by apply raise_priorities_lowers. Qed.
Hint Resolve FixPriority_total : sched.

Section Open.
Variable start : Z -> bool -> M bool.
Hypothesis start_total : forall i r s, bounded s -> keeps (start i r) s.
Hint Resolve start_total : sched.

Lemma StartFinalNode_total s : bounded s -> keeps (StartFinalNode start) s.
Proof.
  intros HI. unfold StartFinalNode. walk1. walk1; [|by walk]. apply pres_bind_node. intros j Hj.
  destruct (status_is (_Status j) STATUS_NOT_READY) eqn:Hst; simpl; [|by walk].
  apply bool_decide_eq_true in Hst. eapply pres_bind; [apply _| |].
  - eapply (pres_run _ _ _ _ _ _ (fun _ s' => nodes s' = nodes s)); [reflexivity|..]; try done;
      eapply bounded_frame; done.
  - intros [] s1 HI1 _ Hn. rewrite <- Hn in Hj.
    eapply keeps_bind; [apply _| |intros [] s2 HI2 _; by walk].
    apply total_put; [done|]. intros j' Hj'. simplify_eq. split; [done|]. unfold rank, SetStatus. simpl. rewrite Hst.
    destruct (pre_pending _); lia.
Qed.
Lemma RemoveRunningJobs_total s : bounded s -> keeps RemoveRunningJobs s.
Proof.
  intros HI. unfold RemoveRunningJobs. walk. eapply keeps_for_each; [apply _| |done]. intros job sx _ HIx _. walk.
Qed.
Lemma RemoveRunningScripts_total s : bounded s -> keeps RemoveRunningScripts s.
Proof.
  intros HI. unfold RemoveRunningScripts. walk. eapply keeps_for_each; [apply _| |done]. intros job sx _ HIx _. walk.
Qed.
Hint Resolve StartFinalNode_total RemoveRunningJobs_total RemoveRunningScripts_total : sched.
Lemma main_shutdown_rescue_total v st s : bounded s -> keeps (main_shutdown_rescue start v st) s.
Proof. intros HI. unfold main_shutdown_rescue. walk. Qed.
Hint Resolve main_shutdown_rescue_total : sched.
Lemma warn_total l s : bounded s -> keeps (warn start l) s.
Proof. intros HI. unfold warn. walk. Qed.
Lemma CheckForDagAbort_total job s : bounded s -> keeps (CheckForDagAbort start job) s.
Proof. intros HI. unfold CheckForDagAbort. walk. Qed.
Hint Resolve warn_total CheckForDagAbort_total : sched.

Lemma set_pid_lowers post pid j : lowers j (set_script post (fun sc => sc <| _pid := pid |>) j).
Proof.
  unfold set_script. destruct post; (split; [reflexivity|]); unfold rank, pre_pending; simpl; [done|].
  by destruct (_scriptPre j).
Qed.
Lemma set_done_lowers post j : lowers j (set_script post (fun sc => sc <| _done := true |>) j).
Proof.
  unfold set_script. destruct post; (split; [reflexivity|]); unfold rank, pre_pending; simpl; [done|].
  destruct (_scriptPre j); simpl; [|done]. repeat case_match; lia.
Qed.

Lemma BackgroundRun_total post job s : bounded s -> keeps (BackgroundRun start post job) s.
Proof.
  intros HI. unfold BackgroundRun, script. apply pres_assoc'. walk.
  - eapply keeps_for_each; [apply _| |done]. intros [? ?] sx _ HIx _. walk.
  - apply total_put; [done|]. intros. apply set_pid_lowers.
Qed.
Hint Resolve BackgroundRun_total : sched.

Lemma deferScript_pure post job s :
  (exists b, deferScript post job s = RDone b s) \/ exists msg, deferScript post job s = RExcept msg.
Proof. unfold deferScript, mbind, M_bind, node. destruct (nodes s !! job); [left|right]; eexists; reflexivity. Qed.
Lemma start_script_total (rp : bool -> bytes -> Z -> M unit) post job s :
  (forall name s, bounded s -> keeps (rp post name (Z.shiftl 1 8)) s) ->
  bounded s -> keeps (start_script start rp post job) s.
Proof.
  intros Hrp HI. unfold start_script. walk. eapply total_run; [done|reflexivity|..]; by destruct post.
Qed.

(** A PRE script may have to wait, which the caller must have paid for. *)
Definition waits_paid {A} (m : M A) (res : A -> Z) (s0 s : Run) : Prop :=
  wp False m
    (fun a s' => kept (DagTermination.bounded (S n)) declines s0 s' /\ (0 < res a -> (potential s' <= potential s)%nat))
    (kept (DagTermination.bounded (S n)) declines s0) s.

Lemma ScriptQ_Run_total (rp : bool -> bytes -> Z -> M unit) post job s0 s :
  (forall name s, bounded s -> keeps (rp post name (Z.shiftl 1 8)) s) ->
  bounded s -> declines s0 s -> (post = false -> potential s < potential s0)%nat -> (potential s0 < S n)%nat ->
  waits_paid (ScriptQ_Run start rp post job) id s0 s.
Proof.
  intros Hrp HI Hle Hpaid Hs0. unfold waits_paid, ScriptQ_Run. apply wp_bind.
  destruct (deferScript_pure post job s) as [[b Hb]|[msg Hb]]; unfold wp at 1; rewrite Hb; [|done].
  destruct b.
  - split; [|simpl; lia]. destruct HI as [Hn Hp]. destruct Hle as [Hd Hnodes].
    assert (Hpot : (potential (if post then s <| _postScriptQ ::= fun q => q <| _waitingQueue ::= fun l => l ++ [job] |> |>
      else s <| _preScriptQ ::= fun q => q <| _waitingQueue ::= fun l => l ++ [job] |> |>) <= potential s0)%nat).
    { destruct post; [exact Hd|]. specialize (Hpaid eq_refl). unfold potential in *. simpl. rewrite length_app. simpl. lia. }
    destruct post; (split; [split; [done|]|split]); try done; unfold potential in *; simpl in *; lia.
  - eapply wp_mono; [by apply start_script_total| |].
    + intros a s' [[[? ?] Hd] _]. split; [|by destruct Hd]. split; [split; [done|lia]|by etrans].
    + intros s' [[? ?] Hd]. split; [split; [done|lia]|by etrans].
Qed.
Lemma ScriptQ_Run_post_total (rp : bool -> bytes -> Z -> M unit) job s :
  (forall name s, bounded s -> keeps (rp true name (Z.shiftl 1 8)) s) ->
  bounded s -> keeps (ScriptQ_Run start rp true job) s.
Proof.
  intros Hrp HI. unfold ScriptQ_Run. eapply keeps_bind; [apply _| |intros b s1 HI1 _].
  - unfold deferScript. walk.
  - destruct b; [|by apply start_script_total]. eapply keeps_bind; [apply _|same_state|intros [] s2 HI2 _; by walk].
Qed.

Lemma unwait_lowers job j : lowers j (RemoveFromQueue Q_WAITING job j).1.
Proof. unfold RemoveFromQueue. case_bool_decide; done. Qed.
Lemma TerminateJob_total job recovery bootstrap s : bounded s -> keeps (TerminateJob start job recovery bootstrap) s.
Proof.
  intros HI. unfold TerminateJob. walk.
  - eapply total_run; [done|reflexivity|..]; simpl; [by destruct (decide _)..|done].
  - eapply keeps_for_each; [apply _| |done]. intros child sx _ HIx _.
    eapply keeps_bind; [apply _| |intros [] sy HIy _; by walk].
    apply total_put; [done|]. intros. apply unwait_lowers.
Qed.
Hint Resolve TerminateJob_total : sched.

(** A retry is paid for with the retry counter. *)
Lemma RestartNode_total job recovery s : bounded s -> keeps (RestartNode start job recovery) s.
Proof.
  intros HI. unfold RestartNode. apply pres_bind_node. intros j Hj.
  destruct (status_is (_Status j) STATUS_ERROR) eqn:Hst; simpl; [|by walk]. apply bool_decide_eq_true in Hst.
  walk1; [by walk|]. apply from_here.
  eapply from_upd; [exact Hj|]. eapply from_upd; [simpl; apply lookup_insert_eq|].
  eapply from_node; [simpl; apply lookup_insert_eq|]. apply from_ASSERT. intros Hr.
  eapply from_upd; [simpl; apply lookup_insert_eq|]. eapply from_upd; [simpl; apply lookup_insert_eq|].
  match goal with |- pres_from _ _ _ _ _ _ ?s' => set (s1 := s') end.
  destruct (bounded_put n s s1 job j (j <| _Status := STATUS_READY |> <| retries ::= Z.succ |>
    <| _scriptPre ::= fmap (fun sc => sc <| _done := false |>) |> <| error_text := [] |>)) as [HI1 Hle1]; try done.
  - unfold s1. simpl. by rewrite !insert_insert_eq.
  - split; [done|]. unfold rank, pre_pending. simpl in *. rewrite Hst. apply Z.leb_le in Hr.
    destruct (_scriptPre j); simpl; lia.
  - eapply from_restored; [apply _|done|]. walk.
Qed.
Hint Resolve RestartNode_total : sched.

Lemma ProcessPostTermEvent_total e job recovery s : bounded s -> keeps (ProcessPostTermEvent start e job recovery) s.
Proof. intros HI. unfold ProcessPostTermEvent. walk. Qed.
Hint Resolve ProcessPostTermEvent_total : sched.
Lemma find_node_total name s : bounded s -> keeps (find_node name) s.
Proof. intros HI. unfold find_node. walk. Qed.
Hint Resolve find_node_total : sched.
Lemma PostScriptReaper_total name status s : bounded s -> keeps (PostScriptReaper start name status) s.
Proof. intros HI. unfold PostScriptReaper. walk. Qed.
Hint Resolve PostScriptReaper_total : sched.
Lemma RunPostScript_total job i st c s : bounded s -> keeps (RunPostScript start job i st c) s.
Proof. intros HI. unfold RunPostScript. walk. apply ScriptQ_Run_post_total; eauto with sched. Qed.
Hint Resolve RunPostScript_total : sched.
Lemma pre_script_failed_total job s : bounded s -> keeps (pre_script_failed start job) s.
Proof. intros HI. unfold pre_script_failed. walk. Qed.
Hint Resolve pre_script_failed_total : sched.

Definition script_succeeded (status : Z) : bool := negb (WIFSIGNALED status) && (WEXITSTATUS status =? 0).

(** The PRE script of a node is through, unless it has failed. *)
Lemma PreScriptReaper_total name status s :
  bounded s ->
  (script_succeeded status = true -> forall i j, _nodeNameHash (dag s) !! name = Some i -> nodes s !! i = Some j -> pre_pending j = false) ->
  keeps (PreScriptReaper start name status) s.
Proof.
  intros HI Hdone. unfold PreScriptReaper, find_node. apply pres_assoc'. walk1. apply pres_assoc'.
  apply pres_bind_lift. intros found Hf. destruct found as [job|]; [|by walk].
  assert (Hname : _nodeNameHash (dag s) !! name = Some job).
  { unfold FindNodeByName in Hf. destruct (_nodeNameHash (dag s) !! name) as [i|]; [|done].
    destruct (nodes s !! i); [|done]. by destruct (streq _ _); simplify_eq. }
  apply pres_bind_ret, pres_bind_node. intros j Hj. destruct (status_is (_Status j) STATUS_PRERUN) eqn:Hst; simpl; [|by walk].
  apply bool_decide_eq_true in Hst.
  destruct (WIFSIGNALED status) eqn:Hsig; [by walk|]. destruct (WEXITSTATUS status =? 0) eqn:Hex; simpl; [|by walk].
  assert (Hp : pre_pending j = false).
  { eapply Hdone; [|exact Hname|done]. unfold script_succeeded. by rewrite Hsig, Hex. }
  apply from_here. eapply from_step; [reflexivity|].
  eapply from_restored; [apply _|by eapply bounded_frame|].
  eapply keeps_bind; [apply _| |intros [] s1 HI1 _; by walk].
  apply from_here. eapply from_upd; [exact Hj|]. eapply from_upd; [simpl; apply lookup_insert_eq|].
  eapply from_upd; [simpl; apply lookup_insert_eq|].
  match goal with |- pres_from _ _ _ ?s0 _ _ ?s' => destruct (bounded_put n s0 s' job j
    (SetStatus ((post_retValScript 0 j) <| retval := 0 |>) STATUS_READY)) as [HI1 Hle1]; try done end.
  - simpl. by rewrite !insert_insert_eq.
  - split; [done|]. unfold rank, pre_pending, SetStatus, post_retValScript in *. simpl. rewrite Hst.
    destruct (_scriptPre j); simpl; [rewrite Hp|]; lia.
  - eapply from_restored; [apply _|done|]. walk.
Qed.

Lemma failing_status : script_succeeded (Z.shiftl 1 8) = false.
Proof. reflexivity. Qed.
Lemma reaper_total post name s : bounded s -> keeps (reaper start post name (Z.shiftl 1 8)) s.
Proof. intros HI. unfold reaper. destruct post; [eauto with sched|]. apply PreScriptReaper_total; [done|]. by rewrite failing_status. Qed.

Lemma RunScript_total post job s0 s :
  bounded s -> declines s0 s -> (post = false -> potential s < potential s0)%nat -> (potential s0 < S n)%nat ->
  waits_paid (RunScript start post job) id s0 s.
Proof. intros. apply ScriptQ_Run_total; try done. intros. by apply reaper_total. Qed.
End Open.
End Total.

Section Loop.
Context `{Config} `{World}.
Hint Resolve FixPriority_total ready_prepend_total ready_append_total : sched.

(** Starting a node with a PRE script takes it out of the ready state, which pays for what follows. *)
Lemma StartNode_body_total n start job r s :
  (forall i r s, bounded n s -> keeps False (bounded n) declines (start i r) s) ->
  bounded (S n) s -> keeps False (bounded (S n)) declines (StartNode_body start job r) s.
Proof.
  intros Hstart HI. unfold StartNode_body. apply pres_bind_node. intros j Hj.
  destruct (CanSubmit j) eqn:Hcan; simpl; [|by walk].
  apply andb_true_iff in Hcan as [_ Hst%bool_decide_eq_true]. fold (pre_pending j).
  destruct (pre_pending j) eqn:Hp.
  - apply from_here. eapply from_upd; [exact Hj|]. eapply from_step; [reflexivity|].
    match goal with |- pres_from _ _ _ _ _ _ ?s' => set (s1 := s') end.
    pose proof (ranks_put (nodes s) job j (SetStatus j STATUS_PRERUN) Hj) as Hr.
    destruct (bounded_put (S n) s s1 job j (SetStatus j STATUS_PRERUN)) as [HI1 Hle1]; try done.
    { split; [done|]. unfold rank. simpl. lia. }
    assert (Hlt : (potential s1 < potential s)%nat).
    { unfold potential. change (nodes s1) with (<[job := SetStatus j STATUS_PRERUN]> (nodes s)).
      assert (Hd : (rank (SetStatus j STATUS_PRERUN) < rank j)%nat).
      { unfold rank. simpl. rewrite Hst, Hp. lia. }
      simpl. lia. }
    destruct HI as [Hn Hpot], HI1 as [Hn1 _].
    assert (Hrun : waits_paid n (RunScript start false job) id s s1).
    { apply RunScript_total; try done. split; [done|lia]. }
    apply wp_bind. eapply wp_mono; [exact Hrun| |done]. intros a s' [Hk _]. done.
  - walk. apply total_put; [done|]. intros j1 _. destruct (_hasNodePriority j1); done.
Qed.

Lemma StartNode_total n job r s : bounded n s -> keeps False (bounded n) declines (StartNode n job r) s.
Proof.
  revert job r s. induction n as [|n IH]; intros job r s HI; [by destruct HI; lia|]. by apply StartNode_body_total.
Qed.
End Loop.

(** ** The ready queue gets shorter while jobs are submitted *)

Section Ready.
Context `{Config} `{World}.
Definition same_ready (s s' : Run) : Prop := _readyQ (dag s') = _readyQ (dag s).
#[local] Instance same_ready_preorder : PreOrder same_ready.
Proof. split; [done|]. unfold same_ready. intros s1 s2 s3 ? ?. congruence. Qed.
Notation keeps m s := (keeps True (fun _ => True) same_ready m s).

Lemma ready_run {A} (m : M A) a s' s : m s = RDone a s' -> same_ready s s' -> keeps m s.
Proof. intros Hm Hc. by eapply pres_run. Qed.
Lemma ready_upd i f s : keeps (upd i f) s.
Proof. apply pres_upd. done. Qed.
Hint Extern 2 (pres _ _ _ (ask _) _ _) => by eapply ready_run : sched.
Hint Extern 2 (pres _ _ _ (ask_int _) _ _) => by eapply ready_run : sched.
Hint Extern 2 (pres _ _ _ (emit _) _ _) => by eapply ready_run : sched.
Hint Extern 2 (pres _ _ _ (modify _) _ _) => by eapply ready_run : sched.
Hint Extern 2 (pres _ _ _ (mod_dag _) _ _) => by eapply ready_run : sched.
Hint Resolve ready_upd : sched.

Lemma ready_MonitorLogFile job s : keeps (MonitorLogFile job) s.
Proof. unfold MonitorLogFile. walk. Qed.
Lemma ready_hash_remove n ty id msg s : keeps (hash_remove n ty id msg) s.
Proof. unfold hash_remove. walk. eapply ready_run; [done|]. unfold set_EventIDHash. by destruct n, ty. Qed.
Lemma ready_hash_insert n ty id job s : keeps (hash_insert n ty id job) s.
Proof. unfold hash_insert. walk. eapply ready_run; [done|]. unfold set_EventIDHash. by destruct n, ty. Qed.
Lemma ready_node_failed s : keeps node_failed s.
Proof. unfold node_failed. eapply ready_run; [done|]. unfold same_ready. simpl. by destruct (decide _). Qed.
Hint Resolve ready_MonitorLogFile ready_hash_remove ready_hash_insert ready_node_failed : sched.
Lemma ready_SubmitNodeJob job id s : keeps (SubmitNodeJob job id) s.
Proof.
  unfold SubmitNodeJob, run_submit_dag, swap_priorities, fake_condor_submit, condor_submit. walk.
Qed.
Lemma ready_ProcessSuccessfulSubmit job id s : keeps (ProcessSuccessfulSubmit job id) s.
Proof. unfold ProcessSuccessfulSubmit, UpdateJobCounts. walk. Qed.
End Ready.

(** ** The handlers *)

Section Handlers.
Context `{Config} `{World} (fuel : nat).
Notation pres := (pres False (bounded fuel) declines).
Notation keeps m s := (keeps False (bounded fuel) declines m s).
Notation bounded := (bounded fuel).
Hint Extern 2 (DagLogic.pres _ _ _ (ask _) _ _) => same_state : sched.
Hint Extern 2 (DagLogic.pres _ _ _ (ask_int _) _ _) => same_state : sched.
Hint Extern 2 (DagLogic.pres _ _ _ (emit _) _ _) => same_state : sched.
Hint Extern 2 (DagLogic.pres _ _ _ (modify _) _ _) => same_state : sched.
Hint Extern 2 (DagLogic.pres _ _ _ (mod_dag _) _ _) => same_state : sched.
Hint Extern 2 (DagLogic.pres _ _ _ (upd _ _) _ _) => apply total_put; [done|lowers] : sched.
Hint Resolve MonitorLogFile_total UnmonitorLogFile_total node_failed_total UpdateJobCounts_total
  DecrementJobCounts_total hash_remove_total hash_insert_total ready_prepend_total ready_append_total
  StartNode_total StartFinalNode_total main_shutdown_rescue_total warn_total CheckForDagAbort_total
  TerminateJob_total RestartNode_total ProcessPostTermEvent_total PostScriptReaper_total RunPostScript_total : sched.

Lemma SubmitNodeJob_total job id s : bounded s -> keeps (SubmitNodeJob job id) s.
Proof.
  intros HI. unfold SubmitNodeJob, run_submit_dag, swap_priorities, fake_condor_submit, condor_submit. walk.
Qed.
Lemma ProcessSuccessfulSubmit_total job id s : bounded s -> keeps (ProcessSuccessfulSubmit job id) s.
Proof. intros HI. unfold ProcessSuccessfulSubmit. walk. Qed.
Lemma ProcessFailedSubmit_total job s : bounded s -> keeps (ProcessFailedSubmit fuel job) s.
Proof. intros HI. unfold ProcessFailedSubmit. walk. Qed.
Hint Resolve SubmitNodeJob_total ProcessSuccessfulSubmit_total ProcessFailedSubmit_total : sched.

(** Both kinds of facts about the same computation. *)
Lemma total_ready {A} (m : M A) s :
  keeps m s -> DagLogic.keeps True (fun _ => True) same_ready m s -> pres m (fun _ s' => same_ready s s') s.
Proof.
  unfold DagLogic.pres, wp. intros H1 H2. destruct (m s); [|done..]. destruct H1 as [? _], H2 as [[_ ?] _]. done.
Qed.

Definition ready_length (s : Run) : nat := length (items (_readyQ (dag s))).

Lemma submit_turn_total n again deferred submits s :
  (forall d k s, bounded s -> (ready_length s < n)%nat -> keeps (again d k) s) ->
  bounded s -> (ready_length s <= n)%nat -> keeps (submit_turn fuel again deferred submits) s.
Proof.
  intros Hagain HI Hlen. unfold submit_turn. walk1; [by walk|]. walk1. do 3 (walk1; [by walk|]).
  destruct (Next (Rewind (_readyQ (dag s)))) as [q [job|]] eqn:Hnext; [|by walk].
  destruct (Next_first _ _ _ Hnext) as (l & Hl & Hl'). unfold ready_length in Hlen. rewrite Hl in Hlen. simpl in Hlen.
  eapply (pres_bind _ _ _ _ _ (fun _ s' => ready_length s' < n)%nat).
  { eapply pres_run; [reflexivity|by eapply bounded_frame|by eapply bounded_frame|].
    unfold ready_length. simpl. rewrite Hl'. lia. }
  intros [] s1 HI1 _ Hlen1. apply pres_bind_node. intros j Hj. walk1; [by walk|]. walk1; [by apply Hagain|].
  eapply pres_bind; [apply _|apply total_ready; [by apply SubmitNodeJob_total|apply ready_SubmitNodeJob]|].
  intros [r id] s2 HI2 _ Hr2.
  assert (Hlen2 : (ready_length s2 < n)%nat) by (unfold ready_length in *; by rewrite Hr2).
  destruct r; [|by walk|by apply Hagain].
  eapply pres_bind; [apply _|apply total_ready; [by apply ProcessSuccessfulSubmit_total|apply ready_ProcessSuccessfulSubmit]|].
  intros [] s3 HI3 _ Hr3. apply Hagain; [done|]. unfold ready_length in *. by rewrite Hr3.
Qed.
Lemma submit_loop_total n deferred submits s :
  bounded s -> (ready_length s <= n)%nat -> keeps (submit_loop fuel n deferred submits) s.
Proof.
  revert deferred submits s. induction n as [|n IH]; intros deferred submits s HI Hlen; simpl.
  - eapply (submit_turn_total 0); [|done|done]. intros ? ? ? ? ?. lia.
  - eapply (submit_turn_total (S n)); [|done|done]. intros d k s' HI' Hlen'. apply IH; [done|lia].
Qed.

(** A script that starts shortens the queue. *)
Lemma RunWaitingScript_total post s :
  bounded s ->
  pres (RunWaitingScript fuel post)
    (fun r s' => post = false -> 0 < r -> (potential s' < potential s)%nat) s.
Proof.
  intros HI. unfold RunWaitingScript. walk1. destruct (_waitingQueue (scriptQ post s)) as [|job rest] eqn:Hq.
  { eapply pres_ret; [apply _|done|lia]. }
  destruct post.
  - eapply keeps_bind; [apply _|eapply total_run; [done|reflexivity|done..]|intros [] s1 HI1 _].
    eapply pres_mono; [apply ScriptQ_Run_post_total|done]; [by eauto with sched| |done].
    intros. apply PostScriptReaper_total; eauto with sched.
  - simpl in Hq. apply from_here. eapply from_step; [reflexivity|].
    match goal with |- pres_from _ _ _ _ _ _ ?s' => set (s1 := s') end.
    assert (Hlt : S (potential s1) = potential s).
    { unfold potential, s1. simpl. rewrite Hq. simpl. lia. }
    pose proof HI as [Hn Hp]. unfold DagTermination.bounded in *. destruct fuel as [|n] eqn:Hfuel; [lia|].
    assert (Hrun : waits_paid n (RunScript (StartNode (S n)) false job) id s s1).
    { apply RunScript_total; [|split; [done|lia]|split; [lia|by eauto]|lia|lia].
      intros i r s2 [Hn2 Hp2]. eapply (pres_bounded_shrink _ (S n)); [lia|]. apply StartNode_total. split; [done|lia]. }
    eapply wp_mono; [exact Hrun| |done]. intros a s' [Hk Ha]. split; [exact Hk|]. simpl in Ha. intros _ Hpos.
    specialize (Ha Hpos). lia.
Qed.
Lemma RunAllWaitingScripts_total n s :
  bounded s -> (potential s < n)%nat -> keeps (RunAllWaitingScripts fuel n false) s.
Proof.
  revert s. induction n as [|n IH]; intros s HI Hn; simpl; [lia|].
  eapply pres_bind; [apply _|by apply RunWaitingScript_total|]. intros r s1 HI1 Hle1 Hr.
  eapply keeps_when; [apply _|done|]. intros Hpos%Z.ltb_lt. apply IH; [done|]. specialize (Hr eq_refl Hpos). lia.
Qed.

Lemma SubmitReadyJobs_total s : bounded s -> keeps (SubmitReadyJobs fuel) s.
Proof.
  intros HI. unfold SubmitReadyJobs. walk.
  - apply RunAllWaitingScripts_total; [done|]. match goal with HI : bounded ?s |- (potential ?s < _)%nat => destruct HI end. lia.
  - by apply submit_loop_total.
  - eapply keeps_for_each; [apply _| |done]. intros i sx _ HIx _. eauto with sched.
Qed.

Lemma ScriptReaper_total post pid status s : bounded s -> keeps (ScriptReaper fuel post pid status) s.
Proof.
  intros HI. unfold ScriptReaper, script. walk1. walk1; [|by walk]. rename z into job.
  eapply keeps_bind; [apply _|eapply total_run; [done|reflexivity|..]; by destruct post|intros [] s1 HI1 _].
  apply pres_assoc'. apply pres_bind_node. intros j0 Hj0. destruct (script_of post j0); [|by walk]. walk1. walk1; [by walk|].
  eapply (pres_bind _ _ _ _ _ (fun _ s' => forall j, nodes s' !! job = Some j -> post = false -> pre_pending j = false)).
  { apply pres_upd. intros j Hj.
    destruct (bounded_put fuel s1 (s1 <| dag ::= fun d => put_node d job (set_script post (fun sc => sc <| _done := true |>) j) |>)
      job j (set_script post (fun sc => sc <| _done := true |>) j)) as [? ?]; try done; [apply set_done_lowers|].
    split; [done|]. split; [done|]. simpl. intros j'. rewrite lookup_insert_eq. intros [= <-] ->.
    unfold pre_pending, set_script. simpl. by destruct (_scriptPre j). }
  intros [] s2 HI2 _ Hdone. apply pres_bind_node. intros j Hj.
  eapply keeps_bind; [apply _| |intros [] s3 HI3 _].
  - unfold reaper. destruct post; [eauto with sched|]. apply PreScriptReaper_total; [eauto with sched|done|].
    intros _ i j' Hi Hj'. assert (Hx : _nodeNameHash (dag s2) !! _jobName j = Some job) by (by apply HI2).
    assert (i = job) as -> by congruence. by eapply Hdone.
  - eapply keeps_bind; [apply _|by eapply pres_keeps, RunWaitingScript_total|intros; by walk].
Qed.
Hint Resolve SubmitReadyJobs_total ScriptReaper_total : sched.

Lemma LogEventNodeLookup_total ty e s : bounded s -> keeps (LogEventNodeLookup fuel ty e) s.
Proof.
  intros HI. unfold LogEventNodeLookup, submit_event_node, FindNodeByEventID, SanityCheckSubmitEvent. walk.
Qed.
Lemma EventSanityCheck_total ty e s : bounded s -> keeps (EventSanityCheck ty e) s.
Proof.
  intros HI. unfold EventSanityCheck. eapply keeps_bind; [apply _| |by intros; walk].
  destruct ty; [destruct (CheckAnEvent (_checkCondorEvents s) e) as [c [m r]] eqn:Hc|
    destruct (CheckAnEvent (_checkStorkEvents s) e) as [c [m r]] eqn:Hc];
    (eapply total_run; [done|by rewrite Hc|done..]).
Qed.
Hint Resolve LogEventNodeLookup_total EventSanityCheck_total : sched.

Lemma ProcessJobProcEnd_total job recovery failed s : bounded s -> keeps (ProcessJobProcEnd fuel job recovery failed) s.
Proof. intros HI. unfold ProcessJobProcEnd. walk. Qed.
Hint Resolve ProcessJobProcEnd_total : sched.
Lemma ProcessEvent_total e job recovery sane s : bounded s -> keeps (ProcessEvent fuel e job recovery sane) s.
Proof.
  intros HI. unfold ProcessEvent, ProcessAbortEvent, ProcessTerminatedEvent, ProcessSubmitEvent, ProcessIsIdleEvent,
    ProcessNotIdleEvent, ProcessHeldEvent, ProcessReleasedEvent, RemoveBatchJob. walk.
Qed.
Hint Resolve ProcessEvent_total : sched.
Lemma ProcessLogEvents_total ty recovery reads s : bounded s -> keeps (ProcessLogEvents fuel ty recovery reads) s.
Proof.
  unfold ProcessLogEvents. generalize true as result. revert s.
  induction reads as [|[o e] reads IH]; intros s result HI; simpl; unfold ProcessOneEvent; walk.
Qed.
Hint Resolve ProcessLogEvents_total : sched.

Lemma bounded_marks d' s : bounded s -> marks_only (dag s) d' -> keeps (mod_dag (fun _ => d')) s.
Proof.
  intros [Hn Hp] (m & k & -> & Hm).
  assert (Hranks : ranks m = ranks (nodes s)).
  { unfold ranks. assert (Hf : forall x : gmap Z Job, map_fold (fun _ j a => rank j + a)%nat 0%nat x =
      map_fold (fun _ j a => rank j + a)%nat 0%nat (unmarked <$> x)).
    { intros x. rewrite map_fold_fmap. done. }
    rewrite (Hf m), Hm, <- Hf. done. }
  apply keeps_modify; (split; [|]); simpl; unfold potential in *; simpl; rewrite ?Hranks; try done.
  - intros i j Hj. symmetry in Hm. destruct (unmarked_lookup _ _ _ _ Hm Hj) as (j' & Hj' & He).
    assert (_jobName j = _jobName j') as -> by (destruct j, j'; unfold unmarked in He; simpl in He; by simplify_eq).
    by apply Hn.
  - intros i j Hj. destruct (unmarked_lookup _ _ _ _ Hm Hj) as (j' & Hj' & _). eauto.
Qed.

Lemma handle_total st s : bounded s -> keeps (handle fuel st) s.
Proof.
  intros HI. unfold handle, condor_event_timer, process_log, check_finished, Dag_CheckAllJobs, CheckAllJobs_result.
  walk. apply bounded_marks; [done|]. by eapply isCycle_marks.
Qed.

Lemma run_dag_total recovery sts s : bounded s -> keeps (run_dag fuel recovery sts) s.
Proof.
  intros HI. unfold run_dag, Bootstrap, recover_dag, recover_events. walk.
  all: first [eapply keeps_for_each|eapply keeps_each_ok]; [apply _| |done]; intros ? ? _ ? _.
  all: first [by apply handle_total|by walk].
Qed.
End Handlers.

(** C7 (termination): the handlers always come back.  With the nesting bounded by [dag_fuel], a number
    computed from the retries of the DAG, no run of a DAG is cut short: every handler returns, leaves
    the process or stops with an error, however often scripts cannot be started. *)
Theorem scheduler_terminates `{Config} `{World} recovery sts d allow fuel :
  fresh d -> (dag_fuel d <= fuel)%nat ->
  run_dag fuel recovery sts (new_Run d allow) <> RFuel.
Proof.
  intros Hf Hfuel Hr.
  assert (Hb : bounded fuel (new_Run d allow)).
  { split; [exact (f_names _ Hf)|]. unfold potential, dag_fuel in *. simpl. lia. }
  pose proof (run_dag_total fuel recovery sts _ Hb) as Ht. unfold pres, wp in Ht. by rewrite Hr in Ht.
Qed.
