(* ===== verification/DagBooks.v ===== *)
(** Books on the statuses of the nodes of a running DAG.

    The counters of the Dag object and of its categories count the nodes with the statuses they stand for, an unblocked ready
    node is in the ready queue, a node waits only for nodes that are not done.  While a handler works
    on a node the books are open on it ([excuse]).  Most of what a handler does leaves the books alone
    ([untouched]); once the final node has been started, which empties the ready queue, they are no
    longer kept ([started]).  DagProgress.v keeps them through the handlers. *)

From S2P Require Import Prelude CondorId PriorityList DagJob Dag DagCycle DagBuild.
From S2P Require Import HashTable CheckEvents DagRun DagLogic DagSafety.

Open Scope Z_scope.

(** ** What the books are about *)

Record Core := mkCore {
  c_fix : Z * bytes * job_type_t * gset Z * gset Z * bool * Z * option bytes * bool * bool * Z;
  c_status : status_t;
  c_waiting : gset Z;
  c_counted : bool;
  c_queued : Z;
  c_post : bool
}.
Definition core (j : Job) : Core :=
  mkCore (fixed j, _visited j, _dfsOrder j) (_Status j) (_waiting j) (countedAsDone j) (_queuedNodeJobProcs j)
    (match _scriptPost j with Some _ => true | None => false end).
#[export] Instance rebuild_Core : Rebuild Core :=
  fun c => mkCore (c_fix c) (c_status c) (c_waiting c) (c_counted c) (c_queued c) (c_post c).
#[export] Instance set_c_status : Setter c_status := ltac:(solve_setter).
#[export] Instance set_c_waiting : Setter c_waiting := ltac:(solve_setter).
#[export] Instance set_c_counted : Setter c_counted := ltac:(solve_setter).
#[export] Instance set_c_queued : Setter c_queued := ltac:(solve_setter).

Record View := mkView {
  v_nodes : gmap Z Core;
  v_jobs : list Z;
  v_final : option Z;
  v_ready : list Z;
  v_pre : Z;
  v_post : Z;
  v_submitted : Z;
  v_failed : Z;
  v_cats : ThrottleByCategory;
  v_recovery : bool;
  v_shutdown : bool
}.
Definition view (s : Run) : View :=
  mkView (core <$> nodes s) (_jobs (dag s)) (_final_job (dag s)) (items (_readyQ (dag s)))
    (_preRunNodeCount (dag s)) (_postRunNodeCount (dag s)) (_numJobsSubmitted (dag s)) (_numNodesFailed (dag s))
    (_catThrottles (dag s)) (_recovery s) (inShutdownRescue s).
#[export] Instance rebuild_View : Rebuild View :=
  fun v => mkView (v_nodes v) (v_jobs v) (v_final v) (v_ready v) (v_pre v) (v_post v) (v_submitted v) (v_failed v)
             (v_cats v) (v_recovery v) (v_shutdown v).
#[export] Instance set_v_nodes : Setter v_nodes := ltac:(solve_setter).
#[export] Instance set_v_ready : Setter v_ready := ltac:(solve_setter).
#[export] Instance set_v_pre : Setter v_pre := ltac:(solve_setter).
#[export] Instance set_v_post : Setter v_post := ltac:(solve_setter).
#[export] Instance set_v_submitted : Setter v_submitted := ltac:(solve_setter).
#[export] Instance set_v_failed : Setter v_failed := ltac:(solve_setter).
#[export] Instance set_v_cats : Setter v_cats := ltac:(solve_setter).
#[export] Instance set_v_shutdown : Setter v_shutdown := ltac:(solve_setter).

(** The final node has been started: regular nodes have been dropped from the ready queue. *)
Definition started (v : View) : Prop :=
  exists f c, v_final v = Some f /\ v_nodes v !! f = Some c /\ c_status c <> STATUS_NOT_READY.

(** ** The final node stays started *)

Definition fwd (s s' : Run) : Prop := started (view s) -> started (view s').
#[export] Instance fwd_preorder : PreOrder fwd.
Proof. split; [intros s Hs; exact Hs|]. unfold fwd. intros s1 s2 s3. tauto. Qed.

Section Forward.
Context `{Config} `{World}.
Notation keeps m s := (keeps True (fun _ => True) fwd m s).

Lemma fwd_run {A} (m : M A) a s' s :
  m s = RDone a s' -> core <$> nodes s' = core <$> nodes s -> _final_job (dag s') = _final_job (dag s) -> keeps m s.
Proof.
  intros Hm Hn Hf. eapply pres_run; [done|done| |done]. intros (f & c & Hfin & Hc & Hs). exists f, c.
  simpl in *. by rewrite Hf, Hn.
Qed.
Lemma fwd_upd i f s :
  (forall j, nodes s !! i = Some j -> _Status j <> STATUS_NOT_READY -> _Status (f j) <> STATUS_NOT_READY) ->
  keeps (upd i f) s.
Proof.
  intros Hf. apply pres_upd. intros j Hj. split; [done|]. split; [|done]. intros (k & c & Hfin & Hc & Hs).
  simpl in *. destruct (decide (k = i)) as [->|Hne].
  - exists i, (core (f j)). simpl. rewrite lookup_fmap, lookup_insert_eq. split; [done|]. split; [done|].
    rewrite lookup_fmap, Hj in Hc. injection Hc as <-. exact (Hf j Hj Hs).
  - exists k, c. simpl. split; [done|]. by rewrite lookup_fmap, lookup_insert_ne, <- lookup_fmap by done.
Qed.
Ltac fwd_same := by eapply fwd_run.
Ltac fwd_put := apply fwd_upd; intros ? _; unfold TerminateFailure, TerminateSuccess, SetStatus, LogMonitorFailed,
  post_retValJob, post_retValScript, set_script, RemoveFromQueue; simpl; repeat case_match; simpl; congruence.
Hint Extern 2 (DagLogic.pres _ _ _ (ask _) _ _) => fwd_same : sched.
Hint Extern 2 (DagLogic.pres _ _ _ (ask_int _) _ _) => fwd_same : sched.
Hint Extern 2 (DagLogic.pres _ _ _ (emit _) _ _) => fwd_same : sched.
Hint Extern 2 (DagLogic.pres _ _ _ (modify _) _ _) => fwd_same : sched.
Hint Extern 2 (DagLogic.pres _ _ _ (mod_dag _) _ _) => fwd_same : sched.
Hint Extern 2 (DagLogic.pres _ _ _ (mod_scriptQ ?b _) _ _) => (destruct b; fwd_same) : sched.
Hint Extern 2 (DagLogic.pres _ _ _ (upd _ _) _ _) => fwd_put : sched.

Lemma fwd_node_failed s : keeps node_failed s.
Proof. unfold node_failed. eapply fwd_run; [done|..]; simpl; by destruct (decide _). Qed.
Lemma fwd_hash_remove n ty id msg s : keeps (hash_remove n ty id msg) s.
Proof. unfold hash_remove. walk. eapply fwd_run; [done|..]; simpl; unfold set_EventIDHash; by destruct n, ty. Qed.
Lemma fwd_hash_insert n ty id job s : keeps (hash_insert n ty id job) s.
Proof. unfold hash_insert. walk. eapply fwd_run; [done|..]; simpl; unfold set_EventIDHash; by destruct n, ty. Qed.
Lemma raise_priorities_core d ps j : core (foldl (raise_priority d) j ps) = core j.
Proof.
  revert j. induction ps as [|p ps IH]; intros j; simpl; [done|]. rewrite IH. unfold raise_priority.
  destruct (_nodeIDHash d !! p); [|done]. by destruct (_ && _).
Qed.
Lemma fwd_FixPriority job s : keeps (FixPriority job) s.
Proof.
  unfold FixPriority. walk. apply fwd_upd. intros j _.
  pose proof (raise_priorities_core (dag s) (ascending_ids (_parents j)) j) as Hc.
  assert (_Status (foldl (raise_priority (dag s)) j (ascending_ids (_parents j))) = _Status j) as -> by exact (f_equal c_status Hc).
  done.
Qed.
Hint Resolve fwd_node_failed fwd_hash_remove fwd_hash_insert fwd_FixPriority : sched.

Lemma fwd_for_each {A} (l : list A) f s : (forall x s, keeps (f x) s) -> keeps (for_each l f) s.
Proof. intros Hf. eapply keeps_for_each; [apply _| |done]. auto. Qed.
Lemma fwd_each_ok l f s : (forall x s, keeps (f x) s) -> keeps (each_ok l f) s.
Proof. intros Hf. eapply keeps_each_ok; [apply _| |done]. auto. Qed.
Hint Extern 2 (DagLogic.pres _ _ _ (for_each _ _) _ _) => (apply fwd_for_each; intros; walk) : sched.
Hint Extern 2 (DagLogic.pres _ _ _ (each_ok _ _) _ _) => (apply fwd_each_ok; intros; walk) : sched.

Section Open.
Variable start : Z -> bool -> M bool.
Hypothesis start_fwd : forall i r s, keeps (start i r) s.
Hint Resolve start_fwd : sched.

Lemma fwd_shutdown v st s : keeps (main_shutdown_rescue start v st) s.
Proof. unfold main_shutdown_rescue, RemoveRunningJobs, RemoveRunningScripts, StartFinalNode. walk. Qed.
Hint Resolve fwd_shutdown : sched.
Lemma fwd_BackgroundRun post job s : keeps (BackgroundRun start post job) s.
Proof. unfold BackgroundRun, script, warn. walk. Qed.
Hint Resolve fwd_BackgroundRun : sched.
Lemma fwd_CheckForDagAbort job s : keeps (CheckForDagAbort start job) s.
Proof. unfold CheckForDagAbort. walk. Qed.
Lemma fwd_TerminateJob job r b s : keeps (TerminateJob start job r b) s.
Proof.
  unfold TerminateJob, MonitorLogFile. walk. eapply fwd_run; [done|..]; simpl; by destruct (decide _).
Qed.
Hint Resolve fwd_CheckForDagAbort fwd_TerminateJob : sched.
Lemma fwd_RestartNode job r s : keeps (RestartNode start job r) s.
Proof. unfold RestartNode, MonitorLogFile. walk. Qed.
Hint Resolve fwd_RestartNode : sched.
Lemma fwd_ProcessPostTermEvent e job r s : keeps (ProcessPostTermEvent start e job r) s.
Proof. unfold ProcessPostTermEvent, UnmonitorLogFile. walk. Qed.
Hint Resolve fwd_ProcessPostTermEvent : sched.
Lemma fwd_PostScriptReaper name st s : keeps (PostScriptReaper start name st) s.
Proof. unfold PostScriptReaper, find_node. walk. Qed.
Lemma fwd_ScriptQ_Run rp post job s :
  (forall name st s, keeps (rp post name st) s) -> keeps (ScriptQ_Run start rp post job) s.
Proof. intros Hrp. unfold ScriptQ_Run, deferScript, start_script. walk. Qed.
Lemma fwd_RunPostScript job i st c s : keeps (RunPostScript start job i st c) s.
Proof. unfold RunPostScript, MonitorLogFile. walk. apply fwd_ScriptQ_Run. intros. apply fwd_PostScriptReaper. Qed.
Hint Resolve fwd_RunPostScript : sched.
Lemma fwd_PreScriptReaper name st s : keeps (PreScriptReaper start name st) s.
Proof. unfold PreScriptReaper, pre_script_failed, find_node, ready_prepend, ready_append. walk. Qed.
Lemma fwd_RunScript post job s : keeps (RunScript start post job) s.
Proof.
  apply fwd_ScriptQ_Run. intros. unfold reaper. destruct post; [apply fwd_PostScriptReaper|apply fwd_PreScriptReaper].
Qed.
Hint Resolve fwd_RunScript : sched.
Lemma fwd_StartNode_body job r s : keeps (StartNode_body start job r) s.
Proof. unfold StartNode_body, ready_prepend, ready_append. walk. Qed.
End Open.

Lemma fwd_StartNode fuel job r s : keeps (StartNode fuel job r) s.
Proof.
  revert job r s. induction fuel as [|fuel IH]; intros job r s; [exact Logic.I|]. by apply fwd_StartNode_body.
Qed.
End Forward.

(** ** The books *)

(** What is being handled just now: a node whose status is not counted; ready nodes that are not in the
    queue; edges to a finished parent that still has to be taken off; finished nodes not counted yet. *)
Record excuse := mkExcuse {
  x_node : option Z;
  x_ready : Z -> Prop;
  x_edge : Z -> Z -> Prop;
  x_done : Z -> Prop
}.
Definition nothing : excuse := mkExcuse None (fun _ => False) (fun _ _ => False) (fun _ => False).

(** The nodes that a counter counts: those with a status, or those submitted in a category. *)
Definition c_cat (c : Core) : option bytes := (c_fix c).1.1.1.2.
Inductive tally := by_status (st : status_t) | by_cat (category : bytes).
Coercion by_status : status_t >-> tally.
Definition counts_as (p : tally) (c : Core) : Prop :=
  match p with
  | by_status st => c_status c = st
  | by_cat category => c_status c = STATUS_SUBMITTED /\ c_cat c = Some category
  end.
#[export] Instance counts_as_dec p c : Decision (counts_as p c).
Proof. destruct p; simpl; apply _. Defined.
Definition with_status (lim : option Z) (st : tally) (m : gmap Z Core) : gmap Z Core :=
  filter (fun p => counts_as st p.2 /\ lim <> Some p.1) m.
Definition count (lim : option Z) (st : tally) (m : gmap Z Core) : Z := Z.of_nat (size (with_status lim st m)).

Record Book (d : Dag) (x : excuse) (v : View) : Prop := mkBook {
  q_fix : c_fix <$> v_nodes v = (fun j => c_fix (core j)) <$> _nodeIDHash d;
  q_jobs : v_jobs v = _jobs d;
  q_final : v_final v = _final_job d;
  q_sub : forall i c j0, v_nodes v !! i = Some c -> _nodeIDHash d !! i = Some j0 -> c_waiting c ⊆ _parents j0;
  q_pre : v_pre v = count (x_node x) STATUS_PRERUN (v_nodes v);
  q_post : v_post v = count (x_node x) STATUS_POSTRUN (v_nodes v);
  q_submitted : v_submitted v = count (x_node x) STATUS_SUBMITTED (v_nodes v);
  q_failed : v_failed v = count (x_node x) STATUS_ERROR (v_nodes v);
  q_ready : forall i c, v_nodes v !! i = Some c -> x_node x <> Some i -> c_status c = STATUS_READY ->
              c_waiting c = ∅ -> i ∈ v_ready v \/ x_ready x i;
  q_wait : forall i c p cp, v_nodes v !! i = Some c -> p ∈ c_waiting c -> v_nodes v !! p = Some cp ->
             c_counted cp = true -> x_edge x p i;
  q_counted : forall i c, v_nodes v !! i = Some c -> x_node x <> Some i -> c_counted c = true -> c_status c = STATUS_DONE;
  q_done : forall i c, v_nodes v !! i = Some c -> x_node x <> Some i -> c_status c = STATUS_DONE ->
             c_counted c = true \/ x_done x i;
  q_procs : forall i c, v_nodes v !! i = Some c -> x_node x <> Some i -> c_queued c <> 0 ->
              c_queued c = 1 /\ c_status c = STATUS_SUBMITTED;
  q_notready : forall i c, v_nodes v !! i = Some c -> c_status c = STATUS_NOT_READY -> v_final v = Some i;
  q_recovery : v_recovery v = false;
  q_shutdown : v_shutdown v = false;
  q_cats : forall category t, v_cats v !! category = Some t ->
             _currentJobs t = count (x_node x) (by_cat category) (v_nodes v);
  q_limits : _maxJobs <$> v_cats v = _maxJobs <$> _catThrottles d
}.

Definition one (lim : option Z) (st : tally) (i : Z) (c : Core) : Z :=
  if bool_decide (counts_as st c /\ lim <> Some i) then 1 else 0.
(** ... for a status, by computation. *)
Lemma one_status (st : status_t) i c : one None st i c = if status_is (c_status c) st then 1 else 0.
Proof.
  unfold one, status_is. destruct (decide (c_status c = st)) as [He|He].
  - by rewrite !bool_decide_true.
  - rewrite !bool_decide_false; [done..|]. by intros [].
Qed.
Lemma count_insert lim st (m : gmap Z Core) i c :
  m !! i = None -> count lim st (<[i := c]> m) = count lim st m + one lim st i c.
Proof.
  intros Hi. unfold count, with_status, one. case_bool_decide as Hk.
  - rewrite map_filter_insert_True by done. rewrite map_size_insert_None; [lia|].
    apply map_lookup_filter_None_2. by left.
  - rewrite map_filter_insert_False by done. rewrite delete_id by done. lia.
Qed.
Lemma count_put lim st (m : gmap Z Core) i c c' :
  m !! i = Some c -> count lim st (<[i := c']> m) = count lim st m + one lim st i c' - one lim st i c.
Proof.
  intros Hc. rewrite <- (insert_delete_id m i c Hc) at 2. rewrite <- (insert_delete_eq m i c').
  rewrite !count_insert by apply lookup_delete_eq. lia.
Qed.
Lemma count_open st (m : gmap Z Core) i c :
  m !! i = Some c -> count (Some i) st m = count None st m - one None st i c.
Proof.
  intros Hc. rewrite <- (insert_delete_id m i c Hc). rewrite !count_insert by apply lookup_delete_eq.
  assert (count (Some i) st (delete i m) = count None st (delete i m)) as ->.
  { unfold count, with_status. do 2 f_equal. apply map_filter_ext. intros k ck Hk.
    destruct (decide (k = i)) as [->|]; [by rewrite lookup_delete_eq in Hk|]. simpl. naive_solver. }
  unfold one at 1. rewrite bool_decide_false by naive_solver. lia.
Qed.
Lemma count_zero (st : status_t) (m : gmap Z Core) i c : count None st m = 0 -> m !! i = Some c -> c_status c <> st.
Proof.
  intros Hz Hc Hs. assert (He : with_status None st m = ∅) by (apply map_size_empty_iff; unfold count in Hz; lia).
  assert (Hl : with_status None st m !! i = Some c) by (by apply map_lookup_filter_Some_2).
  by rewrite He, lookup_empty in Hl.
Qed.

(** *** Opening and closing the books on a node *)

Definition bill (k : Z) (c : Core) (ts : ThrottleByCategory) : ThrottleByCategory :=
  match c_cat c with Some category => alter (fun t => t <| _currentJobs ::= Z.add k |>) category ts | None => ts end.
(** The counters for status [st] of node [c] change. *)
Definition counter (st : status_t) (k : Z) (c : Core) (v : View) : View :=
  match st with
  | STATUS_PRERUN => v <| v_pre ::= fun n => n + k |>
  | STATUS_POSTRUN => v <| v_post ::= fun n => n + k |>
  | STATUS_SUBMITTED => v <| v_submitted ::= fun n => n + k |> <| v_cats ::= bill k c |>
  | STATUS_ERROR => v <| v_failed ::= fun n => n + k |>
  | _ => v
  end.
Definition node_core (i : Z) (v : View) : Core := default (core (new_Job i TYPE_CONDOR [] [] [])) (v_nodes v !! i).
Definition put_core (i : Z) (c : Core) (v : View) : View := v <| v_nodes ::= <[i := c]> |>.
Definition on (i : Z) (x : excuse) : excuse := mkExcuse (Some i) (x_ready x) (x_edge x) (x_done x).

Lemma counter_limits st k c v : _maxJobs <$> v_cats (counter st k c v) = _maxJobs <$> v_cats v.
Proof.
  destruct st; try done. simpl. unfold bill. destruct (c_cat c) as [g|]; [|done]. apply map_eq. intros h.
  rewrite !lookup_fmap. destruct (decide (h = g)) as [->|Hne]; [|by rewrite lookup_alter_ne].
  rewrite lookup_alter_eq. by destruct (v_cats v !! g).
Qed.
Lemma counter_cats k c v g t :
  v_cats (counter (c_status c) k c v) !! g = Some t ->
  exists t0, v_cats v !! g = Some t0 /\ _currentJobs t = _currentJobs t0 + k * (if bool_decide (counts_as (by_cat g) c) then 1 else 0).
Proof.
  assert (Hno : c_status c <> STATUS_SUBMITTED \/ c_cat c <> Some g -> bool_decide (counts_as (by_cat g) c) = false).
  { intros Hn. apply bool_decide_false. simpl. tauto. }
  assert (Hyes : c_status c = STATUS_SUBMITTED -> c_cat c = Some g -> bool_decide (counts_as (by_cat g) c) = true).
  { intros ? ?. by apply bool_decide_true. }
  revert Hno Hyes. generalize (bool_decide (counts_as (by_cat g) c)). intros b Hno Hyes.
  destruct (c_status c) eqn:Hs; simpl; try (intros Ht; exists t; split; [done|]; rewrite Hno; [lia|left; congruence]).
  unfold bill. destruct (c_cat c) as [g'|] eqn:Hg; [|intros Ht; exists t; split; [done|]; rewrite Hno; [lia|by right]].
  destruct (decide (g = g')) as [->|Hne].
  - rewrite lookup_alter_eq. destruct (v_cats v !! g') as [t0|]; [|done]. intros [= <-]. exists t0. split; [done|].
    rewrite Hyes by done. simpl. lia.
  - rewrite lookup_alter_ne by done. intros Ht. exists t. split; [done|]. rewrite Hno; [lia|right; congruence].
Qed.
Lemma book_open d x v i c :
  x_node x = None -> v_nodes v !! i = Some c -> Book d x v -> Book d (on i x) (counter (c_status c) (-1) c v).
Proof.
  intros Hx Hc [K1 K2 K3 K4 P1 P2 P3 P4 K5 K6 K7 K8 K9 K10 K11 K12 C1 C2].
  assert (Hv : v_nodes (counter (c_status c) (-1) c v) = v_nodes v /\ v_ready (counter (c_status c) (-1) c v) = v_ready v /\
    v_jobs (counter (c_status c) (-1) c v) = v_jobs v /\ v_final (counter (c_status c) (-1) c v) = v_final v /\
    v_recovery (counter (c_status c) (-1) c v) = v_recovery v /\ v_shutdown (counter (c_status c) (-1) c v) = v_shutdown v)
    by (by destruct (c_status c)).
  destruct Hv as (Hn & Hr & Hj & Hf & Hv & Hsh).
  rewrite Hx in *.
  split; simpl; rewrite ?Hn, ?Hr, ?Hj, ?Hf, ?Hv, ?Hsh; try done.
  1-4: rewrite (count_open _ _ _ _ Hc), one_status; destruct (c_status c) eqn:Hs; simpl; lia.
  1-4: intros k ck Hk _; by eauto.
  - intros g t (t0 & Ht0 & ->)%counter_cats. rewrite (count_open _ _ _ _ Hc), (C1 g t0 Ht0). unfold one.
    destruct (decide (counts_as (by_cat g) c)); [rewrite !bool_decide_true by done|rewrite !bool_decide_false by tauto]; lia.
  - by rewrite counter_limits.
Qed.

Lemma counter_same st k c v :
  v_nodes (counter st k c v) = v_nodes v /\ v_ready (counter st k c v) = v_ready v /\
  v_jobs (counter st k c v) = v_jobs v /\ v_final (counter st k c v) = v_final v /\
  v_recovery (counter st k c v) = v_recovery v /\ v_shutdown (counter st k c v) = v_shutdown v.
Proof. by destruct st. Qed.

Lemma book_close d x v i c :
  x_node x = None -> v_nodes v !! i = Some c -> Book d (on i x) v ->
  (c_status c = STATUS_READY -> c_waiting c = ∅ -> i ∈ v_ready v \/ x_ready x i) ->
  (c_counted c = true -> c_status c = STATUS_DONE) ->
  (c_status c = STATUS_DONE -> c_counted c = true \/ x_done x i) ->
  (c_queued c <> 0 -> c_queued c = 1 /\ c_status c = STATUS_SUBMITTED) ->
  Book d x (counter (c_status c) 1 c v).
Proof.
  intros Hx Hc [K1 K2 K3 K4 P1 P2 P3 P4 K5 K6 K7 K8 K9 K10 K11 K12 C1 C2] R1 R2 R3 R4.
  destruct (counter_same (c_status c) 1 c v) as (Hn & Hr & Hj & Hf & Hv & Hsh). simpl in *.
  pose proof (fun st => count_open st _ _ _ Hc) as Hopen. rewrite Hopen in P1. rewrite Hopen in P2.
  rewrite Hopen in P3. rewrite Hopen in P4.
  split; rewrite ?Hn, ?Hr, ?Hj, ?Hf, ?Hv, ?Hsh, ?Hx; try done.
  1-4: rewrite one_status in *; destruct (c_status c) eqn:Hs; simpl in *; lia.
  - intros k ck Hk _ Hs Hw. destruct (decide (k = i)) as [->|]; [simplify_eq; auto|]. apply (K5 k ck); try done. congruence.
  - intros k ck Hk _ Hs. destruct (decide (k = i)) as [->|]; [simplify_eq; auto|]. apply (K7 k ck); try done. congruence.
  - intros k ck Hk _ Hs. destruct (decide (k = i)) as [->|]; [simplify_eq; auto|]. apply (K8 k ck); try done. congruence.
  - intros k ck Hk _ Hs. destruct (decide (k = i)) as [->|]; [simplify_eq; auto|]. apply (K9 k ck); try done. congruence.
  - intros g t (t0 & Ht0 & ->)%counter_cats. rewrite (C1 g t0 Ht0), Hopen. unfold one.
    destruct (decide (counts_as (by_cat g) c)); [rewrite !bool_decide_true by done|rewrite !bool_decide_false by tauto]; lia.
  - by rewrite counter_limits.
Qed.

(** While the books are open on a node its status and its jobs may change. *)
Lemma book_put d x v i c c' :
  v_nodes v !! i = Some c -> Book d (on i x) v ->
  c_fix c' = c_fix c -> c_waiting c' = c_waiting c -> c_counted c' = c_counted c ->
  (c_status c' = STATUS_NOT_READY -> c_status c = STATUS_NOT_READY) -> Book d (on i x) (put_core i c' v).
Proof.
  intros Hc [K1 K2 K3 K4 P1 P2 P3 P4 K5 K6 K7 K8 K9 K10 K11 K12 C1 C2] F1 F2 F3 F4. simpl in *.
  assert (Hlk : forall k ck, <[i := c']> (v_nodes v) !! k = Some ck ->
    exists ck0, v_nodes v !! k = Some ck0 /\ c_waiting ck = c_waiting ck0 /\ c_counted ck = c_counted ck0 /\
      (c_status ck = STATUS_NOT_READY -> c_status ck0 = STATUS_NOT_READY) /\ (k <> i -> ck = ck0)).
  { intros k ck. destruct (decide (k = i)) as [->|Hne].
    - rewrite lookup_insert_eq. intros [= <-]. exists c. naive_solver.
    - rewrite lookup_insert_ne by done. intros Hk. exists ck. done. }
  assert (Hone : forall st, one (Some i) st i c' = 0 /\ one (Some i) st i c = 0).
  { intros st. unfold one. by rewrite !bool_decide_false by naive_solver. }
  split; simpl; try done.
  - rewrite fmap_insert, F1, <- K1. apply insert_id. by rewrite lookup_fmap, Hc.
  - intros k ck j0 (ck0 & Hk & -> & _)%Hlk. by eapply K4.
  - rewrite (count_put _ _ _ _ _ c' Hc). destruct (Hone STATUS_PRERUN) as [-> ->]. lia.
  - rewrite (count_put _ _ _ _ _ c' Hc). destruct (Hone STATUS_POSTRUN) as [-> ->]. lia.
  - rewrite (count_put _ _ _ _ _ c' Hc). destruct (Hone STATUS_SUBMITTED) as [-> ->]. lia.
  - rewrite (count_put _ _ _ _ _ c' Hc). destruct (Hone STATUS_ERROR) as [-> ->]. lia.
  - intros k ck (ck0 & Hk & _ & _ & _ & He)%Hlk Hne. rewrite He by congruence. exact (K5 k ck0 Hk Hne).
  - intros k ck p cp (ck0 & Hk & -> & _)%Hlk Hp (cp0 & Hp0 & _ & -> & _)%Hlk. by eapply K6.
  - intros k ck (ck0 & Hk & _ & _ & _ & He)%Hlk Hne. rewrite He by congruence. exact (K7 k ck0 Hk Hne).
  - intros k ck (ck0 & Hk & _ & _ & _ & He)%Hlk Hne. rewrite He by congruence. exact (K8 k ck0 Hk Hne).
  - intros k ck (ck0 & Hk & _ & _ & _ & He)%Hlk Hne. rewrite He by congruence. exact (K9 k ck0 Hk Hne).
  - intros k ck (ck0 & Hk & _ & _ & Hs & _)%Hlk Hnr. eapply K10; eauto.
  - intros g t Hg. rewrite (count_put _ _ _ _ _ c' Hc), (C1 g t Hg). destruct (Hone (by_cat g)) as [-> ->]. lia.
Qed.

(** The node is counted as done: its children still have to be told. *)
Definition edges_of (i : Z) (x : excuse) (ks : list Z) : excuse :=
  mkExcuse (x_node x) (x_ready x) (fun p k => x_edge x p k \/ (p = i /\ k ∈ ks)) (x_done x).
Lemma book_count d x v i c ks :
  v_nodes v !! i = Some c -> Book d (on i x) v ->
  (forall k ck, v_nodes v !! k = Some ck -> i ∈ c_waiting ck -> k ∈ ks) ->
  Book d (on i (edges_of i x ks)) (put_core i (c <| c_counted := true |>) v).
Proof.
  intros Hc [K1 K2 K3 K4 P1 P2 P3 P4 K5 K6 K7 K8 K9 K10 K11 K12 C1 C2] Hks. simpl in *.
  assert (Hlk : forall k ck, <[i := c <| c_counted := true |>]> (v_nodes v) !! k = Some ck ->
    exists ck0, v_nodes v !! k = Some ck0 /\ c_waiting ck = c_waiting ck0 /\ c_status ck = c_status ck0 /\ (k <> i -> ck = ck0)).
  { intros k ck. destruct (decide (k = i)) as [->|Hne].
    - rewrite lookup_insert_eq. intros [= <-]. exists c. naive_solver.
    - rewrite lookup_insert_ne by done. intros Hk. exists ck. done. }
  assert (Hone : forall st, one (Some i) st i (c <| c_counted := true |>) = one (Some i) st i c) by (by intros []).
  split; simpl; try done.
  - rewrite fmap_insert, <- K1. apply insert_id. by rewrite lookup_fmap, Hc.
  - intros k ck j0 (ck0 & Hk & -> & _)%Hlk. by eapply K4.
  - rewrite (count_put _ _ _ _ _ _ Hc), Hone. lia.
  - rewrite (count_put _ _ _ _ _ _ Hc), Hone. lia.
  - rewrite (count_put _ _ _ _ _ _ Hc), Hone. lia.
  - rewrite (count_put _ _ _ _ _ _ Hc), Hone. lia.
  - intros k ck (ck0 & Hk & _ & _ & He)%Hlk Hne. rewrite He by congruence. exact (K5 k ck0 Hk Hne).
  - intros k ck p cp (ck0 & Hk & -> & _)%Hlk Hp Hcp Hcnt. destruct (decide (p = i)) as [->|Hne]; [right; eauto|].
    left. apply Hlk in Hcp as (cp0 & Hcp0 & _ & _ & He). rewrite He in Hcnt by done. by eapply K6.
  - intros k ck (ck0 & Hk & _ & _ & He)%Hlk Hne. rewrite He by congruence. exact (K7 k ck0 Hk Hne).
  - intros k ck (ck0 & Hk & _ & _ & He)%Hlk Hne. rewrite He by congruence. exact (K8 k ck0 Hk Hne).
  - intros k ck (ck0 & Hk & _ & _ & He)%Hlk Hne. rewrite He by congruence. exact (K9 k ck0 Hk Hne).
  - intros k ck (ck0 & Hk & _ & -> & _)%Hlk Hnr. eapply K10; eauto.
  - intros g t Hg. rewrite (count_put _ _ _ _ _ _ Hc), Hone, (C1 g t Hg). lia.
Qed.

(** A child stops waiting; it may have become ready. *)
Definition ready_too (i : Z) (x : excuse) : excuse :=
  mkExcuse (x_node x) (fun k => x_ready x k \/ k = i) (x_edge x) (x_done x).
Lemma book_unwait d x v p i c ks :
  v_nodes v !! i = Some c -> Book d (edges_of p x (i :: ks)) v ->
  Book d (ready_too i (edges_of p x ks)) (put_core i (c <| c_waiting := c_waiting c ∖ {[p]} |>) v).
Proof.
  intros Hc [K1 K2 K3 K4 P1 P2 P3 P4 K5 K6 K7 K8 K9 K10 K11 K12 C1 C2]. simpl in *.
  set (c' := c <| c_waiting := c_waiting c ∖ {[p]} |>).
  assert (Hlk : forall k ck, <[i := c']> (v_nodes v) !! k = Some ck ->
    exists ck0, v_nodes v !! k = Some ck0 /\ c_waiting ck ⊆ c_waiting ck0 /\ c_status ck = c_status ck0 /\
      c_counted ck = c_counted ck0 /\ c_queued ck = c_queued ck0 /\ (k = i -> p ∉ c_waiting ck) /\ (k <> i -> ck = ck0)).
  { intros k ck. destruct (decide (k = i)) as [->|Hne].
    - rewrite lookup_insert_eq. intros [= <-]. exists c. split; [done|]. split; [simpl; set_solver|].
      do 3 (split; [done|]). split; [intros _; simpl; set_solver|done].
    - rewrite lookup_insert_ne by done. intros Hk. exists ck. done. }
  assert (Hone : forall lim st, one lim st i c' = one lim st i c) by (by intros ? []).
  split; simpl; try done.
  - rewrite fmap_insert, <- K1. apply insert_id. by rewrite lookup_fmap, Hc.
  - intros k ck j0 (ck0 & Hk & Hw & _)%Hlk Hj0. etrans; [exact Hw|]. by eapply K4.
  - rewrite (count_put _ _ _ _ _ _ Hc), Hone. lia.
  - rewrite (count_put _ _ _ _ _ _ Hc), Hone. lia.
  - rewrite (count_put _ _ _ _ _ _ Hc), Hone. lia.
  - rewrite (count_put _ _ _ _ _ _ Hc), Hone. lia.
  - intros k ck (ck0 & Hk & _ & _ & _ & _ & _ & He)%Hlk Hx Hs Hw.
    destruct (decide (k = i)) as [->|Hne]; [by right; right|]. rewrite He in Hs, Hw by done.
    destruct (K5 k ck0 Hk Hx Hs Hw); auto.
  - intros k ck q cq (ck0 & Hk & Hw & _ & _ & _ & Hp & _)%Hlk Hq (cq0 & Hq0 & _ & _ & -> & _)%Hlk Hcnt.
    destruct (K6 k ck0 q cq0 Hk (Hw _ Hq) Hq0 Hcnt) as [?|[-> Hin]]; [by left|].
    apply elem_of_cons in Hin as [->|Hin]; [by destruct (Hp eq_refl)|by right].
  - intros k ck (ck0 & Hk & _ & -> & -> & _)%Hlk. by apply K7.
  - intros k ck (ck0 & Hk & _ & -> & -> & _)%Hlk. by apply K8.
  - intros k ck (ck0 & Hk & _ & -> & _ & -> & _)%Hlk. by apply K9.
  - intros k ck (ck0 & Hk & _ & -> & _)%Hlk. by eapply K10.
  - intros g t Hg. rewrite (count_put _ _ _ _ _ _ Hc), Hone, (C1 g t Hg). lia.
Qed.

(** Excuses may be widened; the ready queue may be changed where that is excused. *)
Definition covers (x x' : excuse) (v v' : View) : Prop :=
  x_node x' = x_node x /\ (forall p k, x_edge x p k -> x_edge x' p k) /\ (forall i, x_done x i -> x_done x' i) /\
  (forall i c, v_nodes v !! i = Some c -> c_status c = STATUS_READY -> c_waiting c = ∅ ->
     i ∈ v_ready v \/ x_ready x i -> i ∈ v_ready v' \/ x_ready x' i).
Lemma book_requeue d x x' v q :
  covers x x' v (v <| v_ready := q |>) -> Book d x v -> Book d x' (v <| v_ready := q |>).
Proof.
  intros (Hn & He & Hd & Hr) [K1 K2 K3 K4 P1 P2 P3 P4 K5 K6 K7 K8 K9 K10 K11 K12 C1 C2].
  split; simpl; rewrite ?Hn; try done.
  - intros i c Hc Hx Hs Hw. eapply Hr; eauto.
  - intros. eapply He, K6; eauto.
  - intros i c Hc Hx Hs. destruct (K8 i c Hc Hx Hs); auto.
Qed.
Lemma book_excuse d x x' v : covers x x' v v -> Book d x v -> Book d x' v.
Proof.
  intros Hc Hb. assert (v = v <| v_ready := v_ready v |>) as -> by (by destruct v). by apply (book_requeue d x).
Qed.

(** ** What does not touch the books *)

(** A handler leaves everything the books are about alone, unless it starts the final node. *)
Definition untouched (s s' : Run) : Prop := started (view s') \/ view s' = view s.
#[export] Instance untouched_preorder : PreOrder untouched.
Proof.
  split; [by right|]. unfold untouched. intros s1 s2 s3 H12 [H3|H3]; [by left|]. rewrite H3. exact H12.
Qed.
Lemma untouched_fwd s s' : untouched s s' -> fwd s s'.
Proof. intros [?|He] Hs; [done|]. by rewrite He. Qed.

(** Log files can be monitored and nested DAGs prepared. *)
Class GoodWorld `{World} := mkGood {
  gw_stork_log : forall t, answer_bool t CallStorkLogName = true;
  gw_nfs : forall t, answer_bool t CallNFSError = false;
  gw_subdag : forall t, answer_bool t CallRunSubmitDag = true
}.

Section Untouched.
Context `{Config} `{World} `{!GoodWorld}.
Notation pres := (pres True (fun _ => True) untouched).
Notation keeps m s := (keeps True (fun _ => True) untouched m s).

Lemma unt_run {A} (m : M A) a s' s : m s = RDone a s' -> view s' = view s -> keeps m s.
Proof. intros Hm Hv. eapply pres_run; [done|done|by right|done]. Qed.
Lemma view_put s i j j' :
  nodes s !! i = Some j -> view (s <| dag ::= fun d => put_node d i j' |>) = put_core i (core j') (view s).
Proof. intros Hj. unfold view, put_core. simpl. by rewrite fmap_insert. Qed.
Lemma put_core_same s i j : nodes s !! i = Some j -> put_core i (core j) (view s) = view s.
Proof.
  intros Hj. unfold view, put_core, set_field, set_v_nodes. simpl. f_equal. apply insert_id. by rewrite lookup_fmap, Hj.
Qed.
Ltac core_same := intros; unfold core, post_retValJob, post_retValScript; simpl; by repeat case_match.
Lemma unt_upd i f s : (forall j, nodes s !! i = Some j -> core (f j) = core j) -> keeps (upd i f) s.
Proof.
  intros Hf. apply pres_upd. intros j Hj. split; [done|]. split; [|done]. right.
  rewrite (view_put _ _ j) by done. rewrite (Hf j Hj). by apply put_core_same.
Qed.
(** Once the final node is started nothing matters. *)
Lemma unt_started {A} (m : M A) s : started (view s) -> DagLogic.keeps True (fun _ => True) fwd m s -> keeps m s.
Proof.
  intros Hs Hm. eapply wp_mono; [exact Hm| |].
  - intros a s' [[_ Hf] _]. split; [|done]. split; [done|]. left. by apply Hf.
  - intros s' [_ Hf]. split; [done|]. left. by apply Hf.
Qed.

Hint Extern 2 (DagLogic.pres _ _ _ (ask _) _ _) => by eapply unt_run : sched.
Hint Extern 2 (DagLogic.pres _ _ _ (ask_int _) _ _) => by eapply unt_run : sched.
Hint Extern 2 (DagLogic.pres _ _ _ (emit _) _ _) => by eapply unt_run : sched.
Hint Extern 2 (DagLogic.pres _ _ _ (modify _) _ _) => by eapply unt_run : sched.
Hint Extern 2 (DagLogic.pres _ _ _ (mod_dag _) _ _) => by eapply unt_run : sched.
Hint Extern 2 (DagLogic.pres _ _ _ (mod_scriptQ ?b _) _ _) => (destruct b; by eapply unt_run) : sched.
Hint Extern 2 (DagLogic.pres _ _ _ (upd _ _) _ _) => by (apply unt_upd; core_same) : sched.

(** The answers that a good world gives. *)
Lemma ask_bind {B} c b (k : bool -> M B) Q s :
  (forall t, answer_bool t c = b) -> (forall s', view s' = view s -> pres (k b) Q s') -> pres (ask c ≫= k) Q s.
Proof.
  intros Hb Hk. eapply (pres_bind _ _ _ _ _ (fun a s' => a = b /\ view s' = view s)).
  - eapply pres_run; [reflexivity|done|by right|]. split; [by rewrite Hb|done].
  - intros a s' _ _ [-> Hv]. by apply Hk.
Qed.

Lemma unt_MonitorLogFile job s : pres (MonitorLogFile job) (fun b _ => b = true) s.
Proof.
  unfold MonitorLogFile. walk1. walk1; [by walk|].
  eapply (pres_bind _ _ _ _ _ (fun b _ => b = true)).
  { destruct (decide _); [by walk|]. eapply pres_run; [reflexivity|done|by right|]. apply gw_stork_log. }
  intros b s1 _ _ ->. simpl. apply (ask_bind _ false); [apply gw_nfs|]. intros s2 _. simpl.
  walk1. walk1; [by walk|]. eapply keeps_bind; [apply _|by apply unt_upd|]. intros [] s4 _ _. by walk.
Qed.
Lemma unt_Monitor job s : keeps (MonitorLogFile job) s.
Proof. by eapply pres_keeps, unt_MonitorLogFile. Qed.
Lemma unt_Unmonitor job s : keeps (UnmonitorLogFile job) s.
Proof. unfold UnmonitorLogFile. walk. Qed.
Lemma unt_hash_remove n ty id msg s : keeps (hash_remove n ty id msg) s.
Proof. unfold hash_remove. walk. eapply unt_run; [done|]. unfold view. simpl. unfold set_EventIDHash. by destruct n, ty. Qed.
Lemma unt_hash_insert n ty id job s : keeps (hash_insert n ty id job) s.
Proof. unfold hash_insert. walk. eapply unt_run; [done|]. unfold view. simpl. unfold set_EventIDHash. by destruct n, ty. Qed.
Lemma unt_FixPriority job s : keeps (FixPriority job) s.
Proof. unfold FixPriority. walk. apply unt_upd. intros. apply raise_priorities_core. Qed.
Hint Resolve unt_Monitor unt_Unmonitor unt_hash_remove unt_hash_insert unt_FixPriority : sched.
Lemma unt_for_each {A} (l : list A) f s : (forall x s, keeps (f x) s) -> keeps (for_each l f) s.
Proof. intros Hf. eapply keeps_for_each; [apply _| |done]. auto. Qed.
Hint Extern 2 (DagLogic.pres _ _ _ (for_each _ _) _ _) => (apply unt_for_each; intros; walk) : sched.

Section Open.
Variable start : Z -> bool -> M bool.
Hypothesis start_fwd : forall i r s, DagLogic.keeps True (fun _ => True) fwd (start i r) s.

(** StartFinalNode() either does nothing or starts the final node. *)
Lemma StartFinalNode_wp s :
  wp True (StartFinalNode start) (fun b s' => (b = false /\ s' = s) \/ started (view s')) (fun s' => started (view s')) s.
Proof.
  unfold StartFinalNode. apply wp_bind. unfold wp at 1; simpl. destruct (_final_job (dag s)) as [f|] eqn:Hf; [|by left].
  apply wp_bind. unfold node, wp at 1. destruct (nodes s !! f) as [j|] eqn:Hj; [|done].
  destruct (negb _); [by left|]. unfold upd, node. apply wp_bind. unfold wp at 1; simpl. apply wp_bind.
  unfold wp at 1, mbind, M_bind; simpl. rewrite Hj. simpl.
  match goal with |- wp _ _ _ _ ?s' => set (s1 := s') end.
  assert (Hs1 : started (view s1)).
  { exists f, (core (SetStatus j STATUS_READY)). unfold s1. simpl. by rewrite lookup_fmap, lookup_insert_eq. }
  pose proof (start_fwd f false s1) as Hst. unfold pres, wp, kept, fwd in Hst. unfold wp.
  destruct (start f false s1) as [[] s2|? s2|?|]; [right; apply Hst, Hs1|right; apply Hst, Hs1|apply Hst, Hs1|done|done].
Qed.

(** Commands to the outside only. *)
Definition quiet (m : M unit) : Prop := forall s, wp True m (fun _ s' => view s' = view s) (fun _ => False) s.
Lemma quiet_emit a : quiet (emit a).
Proof. by intros s. Qed.
Lemma quiet_ret : quiet (mret tt).
Proof. by intros s. Qed.
Lemma quiet_bind m k : quiet m -> quiet k -> quiet (m;; k).
Proof.
  intros Hm Hk s. apply wp_bind. eapply wp_mono; [apply Hm| |done]. intros [] s' Hv.
  eapply wp_mono; [apply Hk| |done]. intros [] s2 Hv2. congruence.
Qed.
Lemma quiet_node i k : (forall j, quiet (k j)) -> quiet (node i ≫= k).
Proof. intros Hk s. unfold wp, mbind, M_bind, node. destruct (nodes s !! i) as [j|]; [|done]. apply Hk. Qed.
Lemma quiet_gets {A} (f : Run -> A) k : (forall a, quiet (k a)) -> quiet (gets f ≫= k).
Proof. intros Hk s. apply Hk. Qed.
Lemma quiet_for_each {A} (l : list A) f : (forall x, quiet (f x)) -> quiet (for_each l f).
Proof. intros Hf. induction l as [|x l IH]; simpl; [apply quiet_ret|]. by apply quiet_bind. Qed.
Lemma quiet_when b m : quiet m -> quiet (when b m).
Proof. by destruct b. Qed.
Lemma quiet_fail msg : quiet (fail msg).
Proof. by intros s. Qed.
Lemma quiet_RemoveRunningJobs : quiet RemoveRunningJobs.
Proof.
  apply quiet_gets. intros d. apply quiet_bind; [by apply quiet_when, quiet_emit|]. apply quiet_for_each. intros job.
  apply quiet_node. intros j. by apply quiet_when, quiet_emit.
Qed.
Lemma quiet_RemoveRunningScripts : quiet RemoveRunningScripts.
Proof.
  apply quiet_gets. intros d. apply quiet_for_each. intros job. apply quiet_node. intros j.
  repeat case_match; auto using quiet_when, quiet_emit, quiet_fail, quiet_ret.
Qed.

(** main_shutdown_rescue() comes back only after starting the final node, or from a nested call. *)
Lemma unt_shutdown_started v st s :
  pres (main_shutdown_rescue start v st) (fun _ s' => inShutdownRescue s = false -> started (view s')) s.
Proof.
  unfold main_shutdown_rescue. apply pres_bind_gets. destruct (inShutdownRescue s) eqn:Hin; [by walk|].
  set (T s' := view s' = (view s) <| v_shutdown := true |>).
  unfold pres. apply wp_bind. unfold wp at 1; simpl. apply wp_bind. unfold wp at 1; simpl. apply wp_bind. unfold wp at 1; simpl.
  match goal with |- wp _ _ _ _ ?s' => assert (Hs1 : T s') by done; generalize dependent s'; intros s1 Hs1 end.
  apply wp_bind. eapply wp_mono; [by apply quiet_when, quiet_RemoveRunningJobs| |done]. intros [] s2 Hs2.
  apply wp_bind. eapply wp_mono; [by apply quiet_when, quiet_RemoveRunningScripts| |done]. intros [] s3 Hs3.
  assert (HT : T s3) by (unfold T in *; congruence). clear s2 Hs2 Hs3 Hs1.
  apply wp_bind. eapply wp_mono; [apply StartFinalNode_wp| |].
  - intros b s4 Hs4. apply wp_bind. unfold wp at 1; simpl.
    assert (Hend : untouched s (s4 <| inShutdownRescue := false |>) /\
      (b = true -> started (view (s4 <| inShutdownRescue := false |>)))).
    { destruct Hs4 as [[-> ->]|Hs4]; [|by split; [left|]]. split; [right|done]. unfold T in HT.
      transitivity ((view s3) <| v_shutdown := false |>); [done|]. rewrite HT. unfold view. simpl. by rewrite Hin. }
    destruct Hend as [Hu Hst]. destruct b; [|by split]. split; [by split|]. intros _. by apply Hst.
  - intros s4 Hs4. split; [done|by left].
Qed.
Lemma unt_shutdown v st s : keeps (main_shutdown_rescue start v st) s.
Proof. eapply pres_keeps, unt_shutdown_started. Qed.
Hint Resolve unt_shutdown : sched.
Lemma unt_warn l s : keeps (warn start l) s.
Proof. unfold warn. walk. Qed.
Lemma unt_CheckForDagAbort job s : keeps (CheckForDagAbort start job) s.
Proof. unfold CheckForDagAbort. walk. Qed.
Hint Resolve unt_warn unt_CheckForDagAbort : sched.
Lemma set_script_core post f j : core (set_script post f j) = core j.
Proof. unfold set_script, core. destruct post; simpl; [|done]. by destruct (_scriptPost j). Qed.
Lemma unt_BackgroundRun post job s : keeps (BackgroundRun start post job) s.
Proof. unfold BackgroundRun, script. walk. apply unt_upd. intros. apply set_script_core. Qed.
End Open.
End Untouched.
