(* ===== verification/DagRetries.v ===== *)
(** How often DAGMan runs the job of a node: the successful submits in the trace of a run against the
    RETRY line of the node.

    A node that has still to be submitted ([to_come]) has one run in hand; RestartNode() gives it
    another one and counts it in [retries], which never passes [retry_max].  The rules of DagLogic.v
    take this account through the handlers of DagRun.v. *)

From S2P Require Import Prelude CondorId PriorityList DagJob Dag.
From S2P Require Import HashTable CheckEvents DagRun DagLogic DagSafety.

Open Scope Z_scope.

(** ** The account *)

(** The submits of node [i] that condor_submit or stork_submit reported as successful. *)
Definition ran (i : Z) (a : action) : bool := match a with ASubmit k ok => (k =? i) && ok | _ => false end.
Definition runs (i : Z) (tr : list action) : Z := Z.of_nat (length (filter (fun a => Is_true (ran i a)) tr)).
Lemma runs_app i l l' : runs i (l ++ l') = runs i l + runs i l'.
Proof. unfold runs. rewrite filter_app, length_app. lia. Qed.
Lemma runs_one i a : runs i [a] = if ran i a then 1 else 0.
Proof. unfold runs. rewrite filter_cons, filter_nil. by destruct (ran i a). Qed.

Definition to_come (st : status_t) : bool :=
  status_is st STATUS_NOT_READY || status_is st STATUS_READY || status_is st STATUS_PRERUN.
Definition in_hand (j : Job) : Z := if to_come (_Status j) then 1 else 0.
Lemma in_hand_le j j' : to_come (_Status j') = false \/ to_come (_Status j) = true \/ _Status j' = _Status j -> in_hand j' <= in_hand j.
Proof. unfold in_hand. intros [->|[->| ->]]; [by destruct (to_come _)|by destruct (to_come _)|done]. Qed.

Section Account.
Context (d : Dag).

(** While a node is being submitted its status does not say what is in hand: [Some (i, n)] is for node
    [i] with [n] runs in hand. *)
Definition owed (x : option (Z * Z)) (i : Z) (j : Job) : Z :=
  match x with Some (k, n) => if decide (k = i) then n else in_hand j | None => in_hand j end.
Record Account (x : option (Z * Z)) (s : Run) : Prop := mkAccount {
  a_dom : forall i j, nodes s !! i = Some j -> exists j0, _nodeIDHash d !! i = Some j0 /\ retry_max j = retry_max j0;
  a_max : forall i j, nodes s !! i = Some j -> retries j <= retry_max j;
  a_runs : forall i j j0, nodes s !! i = Some j -> _nodeIDHash d !! i = Some j0 ->
             runs i (trace s) + owed x i j <= 1 + retries j - retries j0
}.
(** What a change of a node may do to the account. *)
Record job_saves (j j' : Job) : Prop := mkSaves {
  sv_max : retry_max j' = retry_max j;
  sv_retries : retries j <= retries j' <= retry_max j' \/ retries j' = retries j;
  sv_hand : in_hand j' <= in_hand j
}.

Lemma account_put x s i j j' :
  Account x s -> nodes s !! i = Some j -> job_saves j j' -> Account x (s <| dag ::= fun d => put_node d i j' |>).
Proof.
  intros [H1 H2 H3] Hj [S1 S2 S3]. split; simpl; intros k jk; (destruct (decide (k = i)) as [->|Hne];
    [rewrite lookup_insert_eq|rewrite lookup_insert_ne by done; solve [apply H1|apply H2|apply H3]]).
  - intros [= <-]. destruct (H1 _ _ Hj) as (j0 & ? & ?). exists j0. split; [done|congruence].
  - intros [= <-]. specialize (H2 _ _ Hj). lia.
  - intros j0 [= <-] Hj0. specialize (H3 _ _ _ Hj Hj0).
    assert (owed x i j' <= owed x i j) by (unfold owed; destruct x as [[k n]|]; [by destruct (decide _)|done]). lia.
Qed.
Lemma account_same x s s' :
  Account x s -> nodes s' = nodes s -> trace s' = trace s -> Account x s'.
Proof. intros [H1 H2 H3] Hn Ht. split; rewrite ?Hn, ?Ht; eauto. Qed.
Lemma account_trace x s s' l :
  Account x s -> nodes s' = nodes s -> trace s' = trace s ++ l -> (forall i, runs i l = 0) -> Account x s'.
Proof.
  intros [H1 H2 H3] Hn Ht Hl. split; rewrite ?Hn; [done..|]. intros i j j0 Hj Hj0. rewrite Ht, runs_app, Hl, Z.add_0_r. eauto.
Qed.
End Account.

Definition anything (_ _ : Run) : Prop := True.
#[export] Instance anything_preorder : PreOrder anything.
Proof. by split. Qed.

Section Basics.
Context `{Config} `{World} (d : Dag) (x : option (Z * Z)).
Notation Free := (Account d x).
Notation pres := (pres True Free anything).
Notation keeps m s := (keeps True Free anything m s).

Lemma free_run {A} (m : M A) a s' s :
  m s = RDone a s' -> Free s -> nodes s' = nodes s -> trace s' = trace s -> keeps m s.
Proof. intros Hm HI Hn Ht. eapply pres_run; [done|by eapply account_same|done|done]. Qed.
Lemma free_emit a s : Free s -> (forall i, ran i a = false) -> keeps (emit a) s.
Proof.
  intros HI Ha. eapply pres_run; [done| |done|done].
  eapply (account_trace _ _ _ _ [a]); [done|done|done|]. intros i. by rewrite runs_one, Ha.
Qed.
Lemma free_upd i f s :
  Free s -> (forall j, nodes s !! i = Some j -> job_saves j (f j)) -> keeps (upd i f) s.
Proof. intros HI Hf. apply pres_upd. intros j Hj. split; [|done]. by eapply account_put; [| |apply Hf]. Qed.

End Basics.

Ltac free_same := eapply free_run; [done|eassumption|done|done].
Ltac saves := unfold TerminateFailure, TerminateSuccess, SetStatus, LogMonitorFailed, post_retValJob, post_retValScript,
  set_script, RemoveFromQueue; simpl; repeat case_match; (split; [done|by right|apply in_hand_le; first [by right; right|by left]]).

(** *** The operations *)

Section Specs.
Context `{Config} `{World} (d : Dag) (x : option (Z * Z)).
Notation Free := (Account d x).
Notation keeps m s := (keeps True Free anything m s).

Hint Extern 2 (DagLogic.pres _ _ _ (ask _) _ _) => free_same : sched.
Hint Extern 2 (DagLogic.pres _ _ _ (ask_int _) _ _) => free_same : sched.
Hint Extern 2 (DagLogic.pres _ _ _ (emit _) _ _) => by apply free_emit : sched.
Hint Extern 2 (DagLogic.pres _ _ _ (modify _) _ _) => free_same : sched.
Hint Extern 2 (DagLogic.pres _ _ _ (mod_dag _) _ _) => free_same : sched.
Hint Extern 2 (DagLogic.pres _ _ _ (mod_scriptQ ?b _) _ _) => (destruct b; free_same) : sched.
Hint Extern 2 (DagLogic.pres _ _ _ (upd _ _) _ _) => (apply free_upd; [done|intros ? ?; saves]) : sched.

Lemma free_node_failed s : Free s -> keeps node_failed s.
Proof. intros HI. unfold node_failed. eapply free_run; [done|done| |]; simpl; repeat case_decide; done. Qed.
Lemma free_hash_remove n ty id msg s : Free s -> keeps (hash_remove n ty id msg) s.
Proof. intros HI. unfold hash_remove. walk. eapply free_run; [done|done|..]; simpl; unfold set_EventIDHash; by destruct n, ty. Qed.
Lemma free_hash_insert n ty id job s : Free s -> keeps (hash_insert n ty id job) s.
Proof. intros HI. unfold hash_insert. walk. eapply free_run; [done|done|..]; simpl; unfold set_EventIDHash; by destruct n, ty. Qed.
Lemma raise_priorities_saves dg ps j0 j : job_saves j0 j -> job_saves j0 (foldl (raise_priority dg) j ps).
Proof.
  revert j. induction ps as [|p ps IH]; intros j Hs; simpl; [done|]. apply IH. unfold raise_priority.
  destruct (_nodeIDHash dg !! p) as [jp|]; [|done]. destruct (_ && _); [|done]. by destruct Hs.
Qed.
Lemma job_saves_refl j : job_saves j j.
Proof. split; [done|by right|lia]. Qed.
Lemma free_FixPriority job s : Free s -> keeps (FixPriority job) s.
Proof. intros HI. unfold FixPriority. walk. apply free_upd; [done|]. intros. by apply raise_priorities_saves, job_saves_refl. Qed.
Hint Resolve free_node_failed free_hash_remove free_hash_insert free_FixPriority : sched.

Lemma free_for_each {A} (l : list A) f s : Free s -> (forall x s, Free s -> keeps (f x) s) -> keeps (for_each l f) s.
Proof. intros HI Hf. eapply keeps_for_each; [apply _| |done]. auto. Qed.
Lemma free_each_ok l f s : Free s -> (forall x s, Free s -> keeps (f x) s) -> keeps (each_ok l f) s.
Proof. intros HI Hf. eapply keeps_each_ok; [apply _| |done]. auto. Qed.
Hint Extern 2 (DagLogic.pres _ _ _ (for_each _ _) _ _) => (apply free_for_each; [done|intros; walk]) : sched.
Hint Extern 2 (DagLogic.pres _ _ _ (each_ok _ _) _ _) => (apply free_each_ok; [done|intros; walk]) : sched.
Lemma free_Monitor job s : Free s -> keeps (MonitorLogFile job) s.
Proof. intros HI. unfold MonitorLogFile. walk. Qed.
Lemma free_Unmonitor job s : Free s -> keeps (UnmonitorLogFile job) s.
Proof. intros HI. unfold UnmonitorLogFile. walk. Qed.
Lemma free_UpdateJobCounts job k s : Free s -> keeps (UpdateJobCounts job k) s.
Proof. intros HI. unfold UpdateJobCounts. walk. Qed.
Lemma free_DecrementJobCounts job s : Free s -> keeps (DecrementJobCounts job) s.
Proof. intros HI. unfold DecrementJobCounts. walk. by apply free_UpdateJobCounts. Qed.
Hint Resolve free_Monitor free_Unmonitor free_UpdateJobCounts free_DecrementJobCounts : sched.

(** *** Everything that starts from StartNode() *)

(** A node that is submitted later stays so. *)
Lemma free_to_come job st s :
  Free s -> (forall j, nodes s !! job = Some j -> to_come (_Status j) = true) ->
  keeps (upd job (fun j => SetStatus j st)) s.
Proof.
  intros HI Hc. apply free_upd; [done|]. intros j Hj. split; [done|by right|]. apply in_hand_le. right; left. by apply Hc.
Qed.
Section Open.
Variable start : Z -> bool -> M bool.
Hypothesis start_free : forall i r s, Free s -> keeps (start i r) s.
Hint Resolve start_free : sched.

Lemma free_StartFinalNode s : Free s -> keeps (StartFinalNode start) s.
Proof.
  intros HI. unfold StartFinalNode. walk1. walk1; [|by walk]. walk1. walk1; [by walk|].
  eapply (pres_bind _ _ _ _ _ (fun _ s1 => nodes s1 = nodes s)).
  { eapply pres_run; [done|by eapply account_same|done|done]. }
  intros [] s1 HI1 _ Hn. eapply keeps_bind; [apply _| |intros [] s2 HI2 _; by walk].
  apply free_to_come; [done|]. rewrite Hn. intros jf Hjf. simplify_eq. unfold to_come.
  by match goal with Hs : negb _ = false |- _ => apply negb_false_iff in Hs; rewrite Hs end.
Qed.
Hint Resolve free_StartFinalNode : sched.
Lemma free_shutdown v st s : Free s -> keeps (main_shutdown_rescue start v st) s.
Proof. intros HI. unfold main_shutdown_rescue, RemoveRunningJobs, RemoveRunningScripts. walk. Qed.
Hint Resolve free_shutdown : sched.
Lemma free_warn l s : Free s -> keeps (warn start l) s.
Proof. intros HI. unfold warn. walk. Qed.
Hint Resolve free_warn : sched.
Lemma free_BackgroundRun post job s : Free s -> keeps (BackgroundRun start post job) s.
Proof. intros HI. unfold BackgroundRun, script. walk. Qed.
Hint Resolve free_BackgroundRun : sched.
Lemma free_CheckForDagAbort job s : Free s -> keeps (CheckForDagAbort start job) s.
Proof. intros HI. unfold CheckForDagAbort. walk. Qed.
Hint Resolve free_CheckForDagAbort : sched.
Lemma free_TerminateJob job r b s : Free s -> keeps (TerminateJob start job r b) s.
Proof.
  intros HI. unfold TerminateJob. walk1. eapply keeps_bind; [apply _| |intros [] s1 HI1 _].
  { eapply free_run; [done|done| |]; simpl; repeat case_decide; done. }
  walk.
Qed.
Hint Resolve free_TerminateJob : sched.

(** RestartNode() puts one run in hand and counts it. *)
Lemma free_RestartNode job r s : Free s -> keeps (RestartNode start job r) s.
Proof.
  intros HI. unfold RestartNode. apply pres_bind_node. intros j Hj. walk1; [by walk|]. walk1; [by walk|].
  apply negb_false_iff in Heqb. apply from_here.
  eapply from_upd; [exact Hj|]. eapply from_upd; [apply lookup_insert_eq|].
  eapply from_node; [apply lookup_insert_eq|]. apply from_ASSERT. intros Hmax%Z.leb_le.
  eapply from_restored; [apply _|done|].
  match goal with |- DagLogic.pres _ _ _ _ _ ?s2 => assert (HI2 : Free s2) end; [|by walk].
  destruct HI as [H1 H2 H3]. split; simpl; intros k jk; (destruct (decide (k = job)) as [->|Hne];
    [rewrite lookup_insert_eq|rewrite !lookup_insert_ne by done; solve [apply H1|apply H2|apply H3]]).
  - intros [= <-]. exact (H1 _ _ Hj).
  - intros [= <-]. exact Hmax.
  - intros j0 [= <-] Hj0. specialize (H3 _ _ _ Hj Hj0). simpl in *.
    match goal with |- _ + owed x job ?j' <= _ => assert (owed x job j' <= 1 + owed x job j) end; [|lia].
    unfold owed, in_hand. destruct x as [[k n]|]; [destruct (decide _); [lia|]|]; by do 2 destruct (to_come _).
Qed.
Hint Resolve free_RestartNode : sched.

Lemma free_ProcessPostTermEvent e job r s : Free s -> keeps (ProcessPostTermEvent start e job r) s.
Proof. intros HI. unfold ProcessPostTermEvent. walk. Qed.
Hint Resolve free_ProcessPostTermEvent : sched.
Lemma free_PostScriptReaper name st s : Free s -> keeps (PostScriptReaper start name st) s.
Proof. intros HI. unfold PostScriptReaper, find_node. walk. Qed.
Hint Resolve free_PostScriptReaper : sched.
Lemma free_ScriptQ_Run (rp : bool -> bytes -> Z -> M unit) post job s :
  (forall name st s, Free s -> keeps (rp post name st) s) -> Free s -> keeps (ScriptQ_Run start rp post job) s.
Proof. intros Hrp HI. unfold ScriptQ_Run, deferScript, start_script. walk. Qed.
Lemma free_RunPostScript job i st c s : Free s -> keeps (RunPostScript start job i st c) s.
Proof. intros HI. unfold RunPostScript. walk. apply free_ScriptQ_Run; [|done]. intros. by apply free_PostScriptReaper. Qed.
Hint Resolve free_RunPostScript : sched.
Lemma free_PreScriptReaper name status s : Free s -> keeps (PreScriptReaper start name status) s.
Proof.
  intros HI. unfold PreScriptReaper, pre_script_failed, find_node, ready_prepend, ready_append.
  eapply keeps_bind; [apply _|by walk|intros job s1 HI1 _]. apply pres_bind_node. intros j Hj.
  destruct (status_is (_Status j) STATUS_PRERUN) eqn:Hst; simpl; [|by walk].
  destruct (WIFSIGNALED status) eqn:?; [by walk|]. destruct (WEXITSTATUS status =? 0) eqn:?; simpl; [|by walk].
  apply from_here. eapply from_step; [reflexivity|].
  eapply from_restored; [apply _|done|]. eapply keeps_bind; [apply _| |intros [] s2 HI2 _; by walk].
  apply from_here. eapply from_upd; [exact Hj|]. eapply from_upd; [simpl; apply lookup_insert_eq|].
  eapply from_upd; [simpl; apply lookup_insert_eq|].
  eapply from_restored; [apply _|done|].
  match goal with |- DagLogic.pres _ _ _ _ _ ?s2 => assert (HI2 : Free s2) end; [|by walk].
  eapply (account_same _ _ (s1 <| dag ::= fun d => put_node d job
    (SetStatus ((post_retValScript 0 j) <| retval := 0 |>) STATUS_READY) |>)); [|simpl; by rewrite !insert_insert_eq|done].
  eapply account_put; [exact HI1|exact Hj|]. split; [done|by right|]. apply in_hand_le. right; left.
  unfold to_come. by rewrite Hst, !orb_true_r.
Qed.
Hint Resolve free_PreScriptReaper : sched.
Lemma free_RunScript post job s : Free s -> keeps (RunScript start post job) s.
Proof. intros HI. apply free_ScriptQ_Run; [|done]. intros. unfold reaper. destruct post; eauto with sched. Qed.
Hint Resolve free_RunScript : sched.
Lemma free_StartNode_body job r s : Free s -> keeps (StartNode_body start job r) s.
Proof.
  intros HI. unfold StartNode_body, ready_prepend, ready_append. apply pres_bind_node. intros j Hj. walk1; [by walk|].
  walk.
  apply free_to_come; [done|]. intros jx Hjx. simplify_eq. unfold to_come.
  match goal with Hc : negb (CanSubmit _) = false |- _ => apply negb_false_iff in Hc; unfold CanSubmit in Hc;
    apply andb_true_iff in Hc as [_ ->] end. by rewrite orb_true_r.
Qed.
End Open.

Lemma free_StartNode fuel job r s : Free s -> keeps (StartNode fuel job r) s.
Proof.
  revert job r s. induction fuel as [|fuel IH]; intros job r s HI; [exact Logic.I|]. by apply free_StartNode_body.
Qed.
Hint Resolve free_StartNode free_shutdown free_warn free_CheckForDagAbort free_StartFinalNode free_TerminateJob
  free_RestartNode free_ProcessPostTermEvent free_PostScriptReaper free_PreScriptReaper free_RunPostScript free_RunScript : sched.

End Specs.

(** ** Submitting *)

Section Handlers.
Context `{Config} `{World} (d : Dag) (fuel : nat).
Notation Free := (Account d None).
Notation Reserved job := (Account d (Some (job, 1))).
Notation Busy job := (Account d (Some (job, 0))).
Notation keeps m s := (keeps True Free anything m s).
Hint Resolve free_StartNode free_shutdown free_warn free_CheckForDagAbort free_StartFinalNode free_TerminateJob
  free_RestartNode free_ProcessPostTermEvent free_PostScriptReaper free_PreScriptReaper free_RunPostScript free_RunScript
  free_node_failed free_hash_remove free_hash_insert free_FixPriority free_Monitor free_Unmonitor free_UpdateJobCounts
  free_DecrementJobCounts : sched.
Hint Extern 2 (DagLogic.pres _ _ _ (ask _) _ _) => free_same : sched.
Hint Extern 2 (DagLogic.pres _ _ _ (ask_int _) _ _) => free_same : sched.
Hint Extern 2 (DagLogic.pres _ _ _ (emit _) _ _) => by apply free_emit : sched.
Hint Extern 2 (DagLogic.pres _ _ _ (modify _) _ _) => free_same : sched.
Hint Extern 2 (DagLogic.pres _ _ _ (mod_dag _) _ _) => free_same : sched.
Hint Extern 2 (DagLogic.pres _ _ _ (mod_scriptQ ?b _) _ _) => (destruct b; free_same) : sched.
Hint Extern 2 (DagLogic.pres _ _ _ (upd _ _) _ _) => (apply free_upd; [done|intros ? ?; saves]) : sched.
Hint Extern 2 (DagLogic.pres _ _ _ (for_each _ _) _ _) => (apply free_for_each; [done|intros; walk]) : sched.
Hint Extern 2 (DagLogic.pres _ _ _ (each_ok _ _) _ _) => (apply free_each_ok; [done|intros; walk]) : sched.

(** What is owed may be less. *)
Lemma account_less x x' s :
  (forall i j, nodes s !! i = Some j -> owed x' i j <= owed x i j) -> Account d x s -> Account d x' s.
Proof.
  intros Hle [H1 H2 H3]. split; [done|done|]. intros i j j0 Hj Hj0. specialize (H3 _ _ _ Hj Hj0). specialize (Hle _ _ Hj). lia.
Qed.
Lemma in_hand_bound j : 0 <= in_hand j <= 1.
Proof. unfold in_hand. by destruct (to_come _). Qed.
Lemma reserve job j s : Free s -> nodes s !! job = Some j -> _Status j = STATUS_READY -> Reserved job s.
Proof.
  intros HI Hj Hst. eapply account_less; [|exact HI]. intros i j' Hj'. simpl. case_decide; [|done]. simplify_eq.
  unfold in_hand. by rewrite Hst.
Qed.
Lemma release job s : Reserved job s -> Free s.
Proof. apply account_less. intros i j _. simpl. pose proof (in_hand_bound j). case_decide; lia. Qed.
Lemma release_busy job s : Reserved job s -> Busy job s.
Proof. apply account_less. intros i j _. simpl. by case_decide. Qed.

Lemma wp_step {A B} I (m : M A) (k : A -> M B) Q (E : Run -> Prop) s :
  DagLogic.keeps True I anything m s -> (forall s', I s' -> E s') -> (forall a s', I s' -> wp True (k a) Q E s') ->
  wp True (m ≫= k) Q E s.
Proof.
  intros Hm HE Hk. apply wp_bind. eapply wp_mono; [exact Hm| |].
  - intros a s' [[HI _] _]. by apply Hk.
  - intros s' [HI _]. by apply HE.
Qed.

Lemma wp_modify {B} f (k : M B) Q (E : Run -> Prop) s : wp True k Q E (f s) -> wp True (modify f ≫= fun _ => k) Q E s.
Proof. done. Qed.

Lemma wp_node {B} i (k : Job -> M B) Q (E : Run -> Prop) s :
  (forall j, nodes s !! i = Some j -> wp True (k j) Q E s) -> wp True (node i ≫= k) Q E s.
Proof. intros Hk. unfold wp, mbind, M_bind, node. destruct (nodes s !! i) as [j|]; [|done]. by apply Hk. Qed.

Lemma wp_upd {B} i f (k : M B) Q (E : Run -> Prop) s :
  (forall j, nodes s !! i = Some j -> wp True k Q E (s <| dag ::= fun d => put_node d i (f j) |>)) ->
  wp True (upd i f ≫= fun _ => k) Q E s.
Proof. intros Hk. unfold wp, upd, mbind, M_bind, node. destruct (nodes s !! i) as [j|]; [|done]. by apply Hk. Qed.

Lemma emit_submit job s : Reserved job s -> Busy job (s <| trace ::= fun l => l ++ [ASubmit job true] |>).
Proof.
  intros [H1 H2 H3]. split; [done|done|]. simpl. intros i j j0 Hj Hj0. specialize (H3 _ _ _ Hj Hj0). simpl in H3.
  rewrite runs_app, runs_one. unfold ran. rewrite andb_true_r.
  destruct (Z.eqb_spec job i) as [->|]; [rewrite !decide_True in * by done|rewrite !decide_False in * by done]; lia.
Qed.
(** What a submit leaves of the run that was reserved. *)
Definition submit_left {A} (job : Z) (r : option A) (s : Run) : Prop := if r is Some _ then Busy job s else Reserved job s.

Lemma condor_submit_runs job s :
  Reserved job s -> wp True (condor_submit job) (submit_left job) Free s.
Proof.
  intros HI. unfold condor_submit. eapply (wp_step (Reserved job)); [free_same|by apply release|]. intros ok s1 HI1.
  apply wp_modify. destruct ok; simpl.
  - unfold wp, ask_int. simpl. eapply account_same; [by apply (emit_submit job s1)|done|done].
  - eapply (account_trace _ _ s1 _ [ASubmit job false]); [done|done|done|]. intros i. rewrite runs_one. simpl. by rewrite andb_false_r.
Qed.
Lemma fake_condor_submit_runs job s : Reserved job s -> wp True fake_condor_submit (submit_left job) Free s.
Proof.
  intros HI. assert (Hk : DagLogic.keeps True (Reserved job) anything fake_condor_submit s).
  { unfold fake_condor_submit. walk. }
  eapply wp_mono; [exact Hk| |intros s' [Hs _]; exact (release job s' Hs)].
  intros r s' [[Hs _] _]. destruct r; [by apply release_busy|done].
Qed.
Lemma SubmitNodeJob_runs job id s :
  Reserved job s ->
  wp True (SubmitNodeJob job id)
    (fun r s' => match r.1 with SUBMIT_RESULT_OK => Busy job s' | _ => Free s' end) Free s.
Proof.
  intros HI. unfold SubmitNodeJob, run_submit_dag, swap_priorities.
  apply wp_node. intros j _. eapply (wp_step (Reserved job)); [by walk|by apply release|]. intros [] s2 HI2.
  eapply (wp_step (Reserved job)); [by walk|by apply release|]. intros [] s3 HI3.
  eapply (wp_step (Reserved job)); [by walk|by apply release|]. intros [|] s4 HI4; simpl; [|by apply (release job)].
  eapply (wp_step (Reserved job)); [by walk|by apply release|]. intros [|] s5 HI5; simpl; [|by apply (release job)].
  eapply (wp_step (Reserved job)); [by walk|by apply release|]. intros [|] s6 HI6; simpl.
  { eapply (wp_step (Reserved job)); [by walk|by apply release|]. intros [] s7 HI7.
    eapply (wp_step (Reserved job)); [by walk|by apply release|]. intros [] s8 HI8.
    eapply (wp_step (Reserved job)); [by walk|by apply release|]. intros [] s9 HI9. by apply (release job). }
  eapply (wp_step (Reserved job)); [by walk|by apply release|]. intros [] s7 HI7. apply wp_bind.
  eapply wp_mono; [|intros r s8 Hr|done].
  - destruct (_noop j); [by apply fake_condor_submit_runs|by apply condor_submit_runs].
  - destruct r; [exact Hr|by apply (release job)].
Qed.

Lemma ProcessSuccessfulSubmit_runs job id s :
  Busy job s -> wp True (ProcessSuccessfulSubmit job id) (fun _ => Free) Free s.
Proof.
  intros HI. unfold ProcessSuccessfulSubmit. apply wp_modify, wp_modify.
  match goal with |- wp _ _ _ _ ?s1 => assert (Hb : Busy job s1) by (by eapply account_same); generalize dependent s1 end.
  clear s HI. intros s Hb. apply wp_upd. intros j Hj.
  match goal with |- wp _ _ _ _ ?s1 => assert (HI : Free s1) end.
  { destruct Hb as [H1 H2 H3]. split; simpl; intros k jk; (destruct (decide (k = job)) as [->|Hne];
      [rewrite lookup_insert_eq|rewrite !lookup_insert_ne by done; try solve [apply H1|apply H2]]).
    - intros [= <-]. exact (H1 _ _ Hj).
    - intros [= <-]. exact (H2 _ _ Hj).
    - intros j0 [= <-] Hj0. specialize (H3 _ _ _ Hj Hj0). simpl in *. by rewrite decide_True in H3.
    - intros j0 Hk Hj0. specialize (H3 _ _ _ Hk Hj0). simpl in *. by rewrite decide_False in H3 by done. }
  eapply (wp_step Free); [by apply free_UpdateJobCounts|done|]. intros [] s2 HI2.
  eapply (wp_step Free); [by walk|done|]. intros [] s3 HI3. apply wp_node. intros j1 _.
  eapply wp_mono; [assert (Hk : keeps (ASSERT (Bool.eqb (JobIsNoop id) (_noop j1)) ≫= fun _ =>
    hash_insert (_noop j1) (_jobType j1) (GetIndexID id) job) s3) by walk; exact Hk|by intros ? ? [[? _] _]|by intros ? [? _]].
Qed.

Lemma free_ProcessFailedSubmit job s : Free s -> keeps (ProcessFailedSubmit fuel job) s.
Proof.
  intros HI. unfold ProcessFailedSubmit, ready_prepend, ready_append. walk.
  apply free_upd; [done|]. intros jx Hjx. split; [done|left|by apply in_hand_le; right; right].
  simpl. match goal with Hf : Free ?s, Hn : nodes ?s !! _ = Some ?j |- context [retries ?j] => pose proof (a_max _ _ _ Hf _ _ Hn) end. lia.
Qed.

Lemma free_of_wp {A} (m : M A) s : wp True m (fun _ => Free) Free s -> keeps m s.
Proof. intros Hm. eapply wp_mono; [exact Hm|done|done]. Qed.
Lemma free_submit_turn again deferred submits s :
  (forall q n s, Free s -> keeps (again q n) s) -> Free s -> keeps (submit_turn fuel again deferred submits) s.
Proof.
  intros Hagain HI. unfold submit_turn. walk1; [by walk|]. walk1. do 3 (walk1; [by walk|]).
  destruct (Next (Rewind (_readyQ (dag s)))) as [q [job|]]; [|by walk].
  eapply keeps_bind; [apply _|free_same|intros [] s1 HI1 _]. apply pres_bind_node. intros j Hj.
  destruct (status_is (_Status j) STATUS_READY) eqn:Hst; simpl; [|by walk]. apply bool_decide_eq_true in Hst. destruct (throttled _ _); [by apply Hagain|].
  apply free_of_wp, wp_bind. eapply wp_mono; [by apply SubmitNodeJob_runs, (reserve job j)| |done].
  intros [r id] s2 Hr. simpl in Hr. destruct r.
  - apply wp_bind. eapply wp_mono; [by apply ProcessSuccessfulSubmit_runs| |done]. intros [] s3 HI3.
    eapply wp_mono; [by apply Hagain|by intros ? ? [[? _] _]|by intros ? [? _]].
  - eapply (wp_step Free); [by apply free_ProcessFailedSubmit|done|]. by intros [] s3 HI3.
  - eapply wp_mono; [by apply Hagain|by intros ? ? [[? _] _]|by intros ? [? _]].
Qed.
Lemma free_submit_loop n deferred submits s : Free s -> keeps (submit_loop fuel n deferred submits) s.
Proof.
  revert deferred submits s. induction n as [|n IH]; intros deferred submits s HI; simpl; by apply free_submit_turn.
Qed.
Hint Resolve free_submit_loop : sched.
Lemma free_RunWaitingScript post s : Free s -> keeps (RunWaitingScript fuel post) s.
Proof. intros HI. unfold RunWaitingScript. walk. Qed.
Hint Resolve free_RunWaitingScript : sched.
Lemma free_RunAllWaitingScripts n post s : Free s -> keeps (RunAllWaitingScripts fuel n post) s.
Proof. revert s. induction n as [|n IH]; intros s HI; simpl; [exact Logic.I|]. walk. Qed.
Hint Resolve free_RunAllWaitingScripts : sched.
Lemma free_SubmitReadyJobs s : Free s -> keeps (SubmitReadyJobs fuel) s.
Proof. intros HI. unfold SubmitReadyJobs, ready_prepend. walk. Qed.
Lemma free_ScriptReaper post pid status s : Free s -> keeps (ScriptReaper fuel post pid status) s.
Proof.
  intros HI. unfold ScriptReaper, script. walk1. walk1; [|by walk].
  eapply keeps_bind; [apply _|destruct post; free_same|intros [] s1 HI1 _].
  apply pres_assoc'. walk. unfold reaper. destruct post; eauto with sched.
Qed.
Hint Resolve free_SubmitReadyJobs free_ScriptReaper : sched.

(** ** Events *)

Lemma free_FindNodeByEventID ty id s : Free s -> keeps (FindNodeByEventID fuel ty id) s.
Proof. intros HI. unfold FindNodeByEventID. walk. Qed.
Lemma free_SanityCheckSubmitEvent id job s : Free s -> keeps (SanityCheckSubmitEvent fuel id job) s.
Proof. intros HI. unfold SanityCheckSubmitEvent. walk. Qed.
Hint Resolve free_FindNodeByEventID free_SanityCheckSubmitEvent : sched.
Lemma free_LogEventNodeLookup ty e s : Free s -> keeps (LogEventNodeLookup fuel ty e) s.
Proof. intros HI. unfold LogEventNodeLookup, submit_event_node. walk. Qed.
Lemma free_EventSanityCheck ty e s : Free s -> keeps (EventSanityCheck ty e) s.
Proof.
  intros HI. unfold EventSanityCheck. eapply keeps_bind; [apply _| |by intros; walk]. destruct ty.
  - destruct (CheckAnEvent (_checkCondorEvents s) e) as [c [m r]] eqn:Hc.
    eapply free_run; [by rewrite Hc|done|done|done].
  - destruct (CheckAnEvent (_checkStorkEvents s) e) as [c [m r]] eqn:Hc.
    eapply free_run; [by rewrite Hc|done|done|done].
Qed.
Lemma free_RemoveBatchJob job s : Free s -> keeps (RemoveBatchJob job) s.
Proof. intros HI. by apply free_emit. Qed.
Hint Resolve free_LogEventNodeLookup free_EventSanityCheck free_RemoveBatchJob : sched.
Lemma free_ProcessJobProcEnd job recovery failed s : Free s -> keeps (ProcessJobProcEnd fuel job recovery failed) s.
Proof. intros HI. unfold ProcessJobProcEnd. walk. Qed.
Hint Resolve free_ProcessJobProcEnd : sched.
Lemma free_ProcessAbortEvent e job recovery s : Free s -> keeps (ProcessAbortEvent fuel e job recovery) s.
Proof. intros HI. unfold ProcessAbortEvent. walk. Qed.
Lemma free_ProcessTerminatedEvent e job recovery s : Free s -> keeps (ProcessTerminatedEvent fuel e job recovery) s.
Proof. intros HI. unfold ProcessTerminatedEvent. walk. Qed.
Lemma free_ProcessSubmitEvent job recovery sane s : Free s -> keeps (ProcessSubmitEvent job recovery sane) s.
Proof. intros HI. unfold ProcessSubmitEvent. walk. Qed.
Lemma free_idle job s :
  Free s -> keeps (ProcessIsIdleEvent job) s /\ keeps (ProcessNotIdleEvent job) s /\
            keeps (ProcessHeldEvent job) s /\ keeps (ProcessReleasedEvent job) s.
Proof.
  intros HI. unfold ProcessIsIdleEvent, ProcessNotIdleEvent, ProcessHeldEvent, ProcessReleasedEvent. split_and!; walk.
Qed.
Hint Resolve free_ProcessAbortEvent free_ProcessTerminatedEvent free_ProcessSubmitEvent : sched.
Hint Extern 2 (DagLogic.pres _ _ _ (ProcessIsIdleEvent _) _ _) => by apply free_idle : sched.
Hint Extern 2 (DagLogic.pres _ _ _ (ProcessNotIdleEvent _) _ _) => by apply free_idle : sched.
Hint Extern 2 (DagLogic.pres _ _ _ (ProcessHeldEvent _) _ _) => by apply free_idle : sched.
Hint Extern 2 (DagLogic.pres _ _ _ (ProcessReleasedEvent _) _ _) => by apply free_idle : sched.

Lemma free_ProcessOneEvent ty o e recovery s : Free s -> keeps (ProcessOneEvent fuel ty o e recovery) s.
Proof. intros HI. unfold ProcessOneEvent, ProcessEvent. walk. Qed.
Hint Resolve free_ProcessOneEvent : sched.
Lemma free_ProcessLogEvents ty recovery reads s : Free s -> keeps (ProcessLogEvents fuel ty recovery reads) s.
Proof.
  unfold ProcessLogEvents. generalize true as result. revert s.
  induction reads as [|[o e] reads IH]; intros s result HI; simpl; walk.
Qed.
Hint Resolve free_ProcessLogEvents : sched.

(** ** The main loop *)

Lemma free_CheckAllJobs s : Free s -> keeps (Dag_CheckAllJobs fuel) s.
Proof. intros HI. unfold Dag_CheckAllJobs, CheckAllJobs_result. walk. Qed.
Hint Resolve free_CheckAllJobs : sched.
(** The marks of the cycle check are not in the account. *)
Lemma free_marks d' s : Free s -> marks_only (dag s) d' -> keeps (mod_dag (fun _ => d')) s.
Proof.
  intros [H1 H2 H3] (m & n & -> & Hm).
  assert (Hback : forall i j', m !! i = Some j' -> exists j, nodes s !! i = Some j /\
    retry_max j' = retry_max j /\ retries j' = retries j /\ in_hand j' = in_hand j).
  { intros i j' Hj'. symmetry in Hm. destruct (unmarked_lookup _ _ _ _ Hm Hj') as (j & Hj & He). exists j.
    symmetry in He. destruct (unmarked_eq _ _ He) as (Hf & _ & _ & Hs & _ & Hr). unfold in_hand. rewrite Hs.
    by rewrite (fixed_retry_max _ _ Hf). }
  eapply pres_run; [done| |done|done]. split; simpl.
  - intros i j' (j & Hj & -> & _)%Hback. eauto.
  - intros i j' (j & Hj & -> & -> & _)%Hback. eauto.
  - intros i j' j0 (j & Hj & _ & -> & ->)%Hback. eauto.
Qed.
Lemma free_check_finished s : Free s -> keeps (check_finished fuel) s.
Proof. intros HI. unfold check_finished. walk. apply free_marks; [done|]. by eapply isCycle_marks. Qed.
Hint Resolve free_check_finished : sched.
Lemma free_condor_event_timer paused condor stork s : Free s -> keeps (condor_event_timer fuel paused condor stork) s.
Proof. intros HI. unfold condor_event_timer, process_log. walk. Qed.
Hint Resolve free_condor_event_timer : sched.
Lemma free_handle st s : Free s -> keeps (handle fuel st) s.
Proof. intros HI. unfold handle. destruct st; eauto with sched. Qed.
Lemma free_Bootstrap recovery s : Free s -> keeps (Bootstrap fuel recovery) s.
Proof. intros HI. unfold Bootstrap, recover_dag, recover_events. walk. Qed.
Hint Resolve free_handle free_Bootstrap : sched.
Lemma free_run_dag recovery sts s : Free s -> keeps (run_dag fuel recovery sts) s.
Proof. intros HI. unfold run_dag. walk. Qed.
End Handlers.

(** ** The books *)

Record books_right (d : Dag) (allow : Z) (s : Run) : Prop := mkBooks {
  br_runs : forall i j, nodes s !! i = Some j -> exists j0, _nodeIDHash d !! i = Some j0 /\
              runs i (trace s) + in_hand j <= 1 + (retries j - retries j0) /\ retries j <= retry_max j0;
  br_done : _numNodesDone (dag s) = done_count (nodes s);
  br_kept : run_le (new_Run d allow) s
}.

Lemma fresh_account d allow : fresh d -> Account d None (new_Run d allow).
Proof.
  intros Hf. split; simpl.
  - intros i j Hj. by exists j.
  - intros i j Hj. by apply (f_nodes _ Hf i j Hj).
  - intros i j j0 Hj Hj0. simplify_eq. pose proof (in_hand_bound j). unfold runs. simpl. lia.
Qed.
Lemma account_right d allow rec s `{Config} :
  Account d None s -> Inv (marked_done d) rec s -> run_le (new_Run d allow) s -> books_right d allow s.
Proof.
  intros [H1 H2 H3] HI Hle. split; [|apply (i_done _ _ _ HI)|done].
  intros i j Hj. destruct (H1 _ _ Hj) as (j0 & Hj0 & Hm). exists j0. split; [done|]. rewrite <- Hm. split; [|by eauto].
  specialize (H3 _ _ _ Hj Hj0). simpl in H3. lia.
Qed.

(** C11 (invariant): the books are right in any run, with or without recovery, whatever the logs,
    scripts and system calls say, also when DAGMan exits. A node's job is run, that is submitted by this
    DAGMan with success, at most once more than the node has been retried, counting a submit that is
    still to come, and it is retried at most as often as its RETRY line allows. The count of finished
    nodes is the number of nodes counted as done, a node counted as done stays so, and the DAG keeps its
    nodes and dependencies. *)
Theorem bookkeeping_right `{Config} `{World} fuel recovery sts d allow :
  fresh d ->
  wp True (run_dag fuel recovery sts) (fun _ => books_right d allow) (books_right d allow) (new_Run d allow).
Proof.
  intros Hf.
  assert (HA := free_run_dag d fuel recovery sts _ (fresh_account d allow Hf)).
  assert (HS := run_dag_Inv fuel recovery sts d allow true
    (fun s => Inv (marked_done d) true s /\ run_le (new_Run d allow) s) Hf (fun e => False_ind _ (diff_true_false e))
    (fun _ => eq_refl) (fun s H1 H2 => conj H1 H2)).
  unfold wp, DagLogic.pres, wp in *. destruct (run_dag fuel recovery sts (new_Run d allow)); [| |done..].
  - destruct HA as [[HA _] _]. destruct HS. by eapply account_right.
  - destruct HA as [HA _]. destruct HS. by eapply account_right.
Qed.
