(* ===== verification/DagProgress.v ===== *)
(** A DAG does not get stuck, and its throttles are respected.

    When nothing is submitted, ready or running and no node has failed, every node is done, or the
    dependencies have a cycle: the branch of condor_event_timer() that reports an "unknown error
    condition" is not taken; and the nodes that are submitted are at most as many as -maxjobs and the
    categories allow.  This holds in a run without recovery, until the final node starts, as long as log files can be monitored, nested DAGs can be
    prepared, and a submit event in the log belongs to a job that has been submitted and not been
    reported yet (which excludes clusters with several jobs); DagRunExamples.v has what happens
    otherwise.

    The handlers keep the books of DagBooks.v: each has a lemma that says on which node they are open
    before and after it. *)

From S2P Require Import Prelude CondorId PriorityList DagJob Dag DagCycle DagBuild.
From S2P Require Import HashTable CheckEvents DagRun DagLogic DagSafety DagBooks.

Open Scope Z_scope.

(** ** Books through a handler *)

(** The final node has been started, or [P] holds. *)
Definition Up (P : View -> Prop) (s : Run) : Prop := started (view s) \/ P (view s).

Lemma up_mono (P Q : View -> Prop) s : (P (view s) -> Q (view s)) -> Up P s -> Up Q s.
Proof. intros HPQ [?|?]; [by left|right; auto]. Qed.
Lemma up_view (P Q : View -> Prop) s s' :
  v_nodes (view s') = v_nodes (view s) -> v_final (view s') = v_final (view s) ->
  (P (view s) -> Q (view s')) -> Up P s -> Up Q s'.
Proof.
  intros Hn Hf HPQ [(f & c & ? & ? & ?)|?]; [|right; auto]. left. exists f, c. by rewrite Hn, Hf.
Qed.
(** A node is changed, and keeps a status. *)
Lemma up_put (P Q : View -> Prop) s i j j' :
  nodes s !! i = Some j -> (_Status j <> STATUS_NOT_READY -> _Status j' <> STATUS_NOT_READY) ->
  (P (view s) -> Q (put_core i (core j') (view s))) -> Up P s -> Up Q (s <| dag ::= fun d => put_node d i j' |>).
Proof.
  intros Hj Hst HPQ [(f & c & Hf & Hc & Hs)|HP]; [left|right; rewrite (view_put _ _ j) by done; auto].
  rewrite (view_put _ _ j) by done. destruct (decide (f = i)) as [->|Hne].
  - exists i, (core j'). simpl in *. rewrite lookup_insert_eq. split; [done|]. split; [done|].
    rewrite lookup_fmap, Hj in Hc. injection Hc as <-. exact (Hst Hs).
  - exists f, c. simpl in *. by rewrite lookup_insert_ne.
Qed.

Definition jp {A} (m : M A) (Q : A -> Run -> Prop) (s : Run) : Prop := wp True m Q (fun _ => True) s.

Lemma jp_mono {A} (m : M A) (Q Q' : A -> Run -> Prop) s : jp m Q s -> (forall a s', Q a s' -> Q' a s') -> jp m Q' s.
Proof. intros Hm HQ. by eapply wp_mono. Qed.
Lemma jp_bind {A B} (m : M A) (k : A -> M B) Q Q' s :
  jp m Q s -> (forall a s', Q a s' -> jp (k a) Q' s') -> jp (m ≫= k) Q' s.
Proof. intros Hm Hk. apply wp_bind. by eapply wp_mono. Qed.
Lemma jp_ret {A} (a : A) (Q : A -> Run -> Prop) s : Q a s -> jp (mret a) Q s.
Proof. done. Qed.
Lemma jp_fail {A} msg (Q : A -> Run -> Prop) s : jp (fail msg) Q s.
Proof. done. Qed.
Lemma jp_exit {A} code (Q : A -> Run -> Prop) s : jp (DC_Exit code) Q s.
Proof. done. Qed.
Lemma jp_bind_fail {A B} msg (k : A -> M B) Q s : jp (fail msg ≫= k) Q s.
Proof. done. Qed.
Lemma jp_bind_ret {A B} (a : A) (k : A -> M B) Q s : jp (k a) Q s -> jp (mret a ≫= k) Q s.
Proof. done. Qed.
Lemma jp_bind_gets {A B} (f : Run -> A) (k : A -> M B) Q s : jp (k (f s)) Q s -> jp (gets f ≫= k) Q s.
Proof. done. Qed.
Lemma jp_bind_node {B} i (k : Job -> M B) Q s :
  (forall j, nodes s !! i = Some j -> jp (k j) Q s) -> jp (node i ≫= k) Q s.
Proof. intros Hk. unfold jp, wp, mbind, M_bind, node. destruct (nodes s !! i) as [j|]; [|done]. by apply Hk. Qed.
Lemma jp_bind_ASSERT {B} b (k : M B) Q s : (b = true -> jp k Q s) -> jp (ASSERT b ≫= fun _ => k) Q s.
Proof. destruct b; simpl; intros Hk; [by apply Hk|done]. Qed.
Lemma jp_ASSERT b (Q : unit -> Run -> Prop) s : (b = true -> Q tt s) -> jp (ASSERT b) Q s.
Proof. destruct b; simpl; intros Hk; [by apply Hk|done]. Qed.
Lemma jp_bind_lift {A B} (o : outcome A) (k : A -> M B) Q s :
  (forall a, o = Done a -> jp (k a) Q s) -> jp (lift o ≫= k) Q s.
Proof. destruct o as [a|]; intros Hk; [by apply Hk|done]. Qed.
Lemma jp_when b m (Q : unit -> Run -> Prop) s : (b = true -> jp m Q s) -> (b = false -> Q tt s) -> jp (when b m) Q s.
Proof. destruct b; intros H1 H2; [by apply H1|by apply jp_ret, H2]. Qed.
Lemma jp_bind_mod_dag {B} f (k : M B) Q s : jp k Q (s <| dag ::= f |>) -> jp (mod_dag f ≫= fun _ => k) Q s.
Proof. done. Qed.
Lemma jp_upd i f (Q : unit -> Run -> Prop) s :
  (forall j, nodes s !! i = Some j -> Q tt (s <| dag ::= fun d => put_node d i (f j) |>)) -> jp (upd i f) Q s.
Proof. intros Hk. unfold upd. apply jp_bind_node. intros j Hj. by apply Hk. Qed.
Lemma jp_bind_upd {B} i f (k : M B) Q s :
  (forall j, nodes s !! i = Some j -> jp k Q (s <| dag ::= fun d => put_node d i (f j) |>)) -> jp (upd i f ≫= fun _ => k) Q s.
Proof.
  intros Hk. apply (jp_bind _ _ (fun _ s' => exists j, nodes s !! i = Some j /\ s' = s <| dag ::= fun d => put_node d i (f j) |>)).
  - apply jp_upd. eauto.
  - intros [] s' (j & Hj & ->). by apply Hk.
Qed.
(** Nothing more to show. *)
Lemma jp_started {A} (m : M A) P s :
  keeps True (fun _ => True) fwd m s -> started (view s) -> jp m (fun _ => Up P) s.
Proof. intros Hm Hs. eapply wp_mono; [exact Hm| |done]. intros a s' [[_ Hf] _]. left. by apply Hf. Qed.
(** The books do not notice. *)
Lemma jp_unt {A} (m : M A) P s :
  keeps True (fun _ => True) untouched m s -> Up P s -> jp m (fun _ => Up P) s.
Proof.
  intros Hm HP. eapply wp_mono; [exact Hm| |done]. intros a s' [[_ [Hs|Hv]] _]; [by left|]. unfold Up. by rewrite Hv.
Qed.
Lemma jp_bind_unt {A B} (m : M A) (k : A -> M B) P Q s :
  keeps True (fun _ => True) untouched m s -> Up P s -> (forall a s', Up P s' -> jp (k a) Q s') -> jp (m ≫= k) Q s.
Proof. intros Hm HP Hk. eapply jp_bind; [by eapply jp_unt|done]. Qed.
Lemma jp_for_each {A} (l : list A) f (I : list A -> Run -> Prop) s :
  (forall x l' s', x ∈ l -> I (x :: l') s' -> jp (f x) (fun _ => I l') s') -> I l s -> jp (for_each l f) (fun _ => I []) s.
Proof.
  revert s. induction l as [|x l IH]; intros s Hf HI; simpl; [done|].
  eapply jp_bind; [by eapply Hf; [set_solver|]|]. intros [] s' HI'. apply IH; [|done]. intros y l' s2 Hy. apply Hf. set_solver.
Qed.

(** ** Working on one node *)

(** The books are open on node [i], which has status [st] and no jobs, and is not counted as done. *)
Definition held (d : Dag) (x : excuse) (i : Z) (st : status_t) (post : bool) (v : View) : Prop :=
  x_node x = None /\ Book d (on i x) v /\
  exists c, v_nodes v !! i = Some c /\ c_status c = st /\ c_counted c = false /\ c_queued c = 0 /\ c_post c = post.
Definition has_post (j : Job) : bool := c_post (core j).

Lemma view_node s i j : nodes s !! i = Some j -> v_nodes (view s) !! i = Some (core j).
Proof. intros Hj. simpl. by rewrite lookup_fmap, Hj. Qed.

Lemma book_on d x i v : Book d (on i (ready_too i x)) v -> Book d (on i x) v.
Proof.
  intros [K1 K2 K3 K4 P1 P2 P3 P4 K5 K6 K7 K8 K9 K10 K11 K12 C1 C2]. split; try done.
  intros k c Hk Hne Hs Hw. destruct (K5 k c Hk Hne Hs Hw) as [?|[?| ->]]; [by left|by right|done].
Qed.
Lemma book_ready_too d x i v : Book d x v -> Book d (ready_too i x) v.
Proof. apply book_excuse. split; [done|]. split; [done|]. split; [done|]. simpl. naive_solver. Qed.
(** A node that is not ready needs no excuse. *)
Lemma book_not_ready d x i c v :
  v_nodes v !! i = Some c -> c_status c <> STATUS_READY \/ c_waiting c <> ∅ -> Book d (ready_too i x) v -> Book d x v.
Proof.
  intros Hc Hn. apply book_excuse. split; [done|]. split; [done|]. split; [done|]. simpl.
  intros k ck Hk Hs Hw [?|[?| ->]]; [by left|by right|]. simplify_eq. naive_solver.
Qed.

Lemma up_open d x i j s s' :
  x_node x = None -> nodes s !! i = Some j -> _Status j <> STATUS_DONE -> _Status j <> STATUS_SUBMITTED ->
  view s' = counter (_Status j) (-1) (core j) (view s) ->
  Up (Book d (ready_too i x)) s -> Up (held d x i (_Status j) (has_post j)) s'.
Proof.
  intros Hx Hj Hd Hsub Hv. destruct (counter_same (_Status j) (-1) (core j) (view s)) as (Hn & _ & _ & Hf & _).
  rewrite <- Hv in Hn, Hf. apply (up_view _ _ _ _ Hn Hf). intros Hb. pose proof (view_node _ _ _ Hj) as Hc.
  split; [done|]. rewrite Hv in Hn |- *. split.
  - apply book_on. exact (book_open d (ready_too i x) (view s) i (core j) Hx Hc Hb).
  - exists (core j). rewrite Hn. split; [done|]. split; [done|]. split; [|split; [|done]].
    + destruct (c_counted (core j)) eqn:He; [|done]. destruct Hd. apply (q_counted _ _ _ Hb i (core j)); [done| |done]. simpl. congruence.
    + destruct (decide (c_queued (core j) = 0)) as [|He]; [done|]. destruct Hsub.
      apply (q_procs _ _ _ Hb i (core j)); [done| |done]. simpl. congruence.
Qed.

Lemma up_status d x i st post j j' s :
  nodes s !! i = Some j -> core j' = (core j) <| c_status := _Status j' |> -> _Status j' <> STATUS_NOT_READY ->
  Up (held d x i st post) s -> Up (held d x i (_Status j') post) (s <| dag ::= fun d => put_node d i j' |>).
Proof.
  intros Hj Hc Hst. eapply up_put; [done|done|]. intros (Hx & Hb & c & Hl & Hs & Hcnt & Hq & Hp).
  rewrite (view_node _ _ _ Hj) in Hl. injection Hl as <-. split; [done|]. split.
  - eapply book_put; [by apply view_node|done|by rewrite Hc..|]. intros He. by destruct Hst.
  - exists (core j'). split; [apply lookup_insert_eq|]. rewrite Hc. by split.
Qed.

Lemma up_close d x i st post s s' :
  st <> STATUS_READY -> st <> STATUS_DONE ->
  view s' = counter st 1 (node_core i (view s)) (view s) ->
  Up (held d x i st post) s -> Up (Book d x) s'.
Proof.
  intros Hr Hd Hv. destruct (counter_same st 1 (node_core i (view s)) (view s)) as (Hn & _ & _ & Hf & _).
  rewrite <- Hv in Hn, Hf. apply (up_view _ _ _ _ Hn Hf). intros (Hx & Hb & c & Hl & <- & Hcnt & Hq & Hp). rewrite Hv.
  assert (node_core i (view s) = c) as -> by (unfold node_core; by rewrite Hl).
  eapply book_close; try done; congruence.
Qed.
Lemma up_close_ready d x i post s :
  Up (held d x i STATUS_READY post) s -> Up (Book d (ready_too i x)) s.
Proof.
  apply up_mono. intros (Hx & Hb & c & Hl & Hs & Hcnt & Hq & Hp).
  pose proof (book_close d (ready_too i x) (view s) i c) as Hclose. rewrite Hs in Hclose. simpl in Hclose.
  apply Hclose; try done; try congruence; [|naive_solver].
  eapply book_excuse; [|exact Hb]. split; [done|]. split; [done|]. split; [done|]. simpl. naive_solver.
Qed.

(** What the node read from the state says. *)
Lemma held_look d x i st post s j :
  Up (held d x i st post) s -> nodes s !! i = Some j ->
  Up (fun v => held d x i st post v /\ _Status j = st /\ countedAsDone j = false /\ _queuedNodeJobProcs j = 0 /\ has_post j = post) s.
Proof.
  intros Hh Hj. eapply up_mono; [|exact Hh]. intros Hv. split; [done|]. destruct Hv as (Hx & Hb & c & Hl & ?).
  rewrite (view_node _ _ _ Hj) in Hl. by injection Hl as <-.
Qed.

Ltac jw :=
  lazymatch goal with
  | |- jp (match ?x with _ => _ end) _ _ => destruct x eqn:?
  | |- jp (mret _) _ _ => apply jp_ret
  | |- jp (fail _) _ _ => apply jp_fail
  | |- jp (DC_Exit _) _ _ => apply jp_exit
  | |- jp (fail _ ≫= _) _ _ => apply jp_bind_fail
  | |- jp (mret _ ≫= _) _ _ => apply jp_bind_ret
  | |- jp (gets _ ≫= _) _ _ => apply jp_bind_gets
  | |- jp (node _ ≫= _) _ _ => apply jp_bind_node; intros ? ?
  | |- jp (ASSERT _ ≫= _) _ _ => apply jp_bind_ASSERT; intros ?
  | |- jp (ASSERT _) _ _ => apply jp_ASSERT; intros ?
  | |- jp (lift _ ≫= _) _ _ => apply jp_bind_lift; intros ? ?
  | |- jp (when _ _) _ _ => apply jp_when; intros ?
  end.

Section Progress.
Context `{Config} `{World} `{!GoodWorld} (d : Dag) (Hwf : wf_graph d).
Notation unt m s := (keeps True (fun _ => True) untouched m s).
Hint Resolve unt_Monitor unt_Unmonitor unt_hash_remove unt_hash_insert unt_FixPriority : sched.
Hint Extern 2 (DagLogic.pres _ _ _ (ask _) _ _) => by eapply unt_run : sched.
Hint Extern 2 (DagLogic.pres _ _ _ (ask_int _) _ _) => by eapply unt_run : sched.
Hint Extern 2 (DagLogic.pres _ _ _ (emit _) _ _) => by eapply unt_run : sched.
Hint Extern 2 (DagLogic.pres _ _ _ (modify _) _ _) => by eapply unt_run : sched.
Hint Extern 2 (DagLogic.pres _ _ _ (mod_scriptQ ?b _) _ _) => (destruct b; by eapply unt_run) : sched.
Ltac core_same := intros; unfold core, post_retValJob, post_retValScript; simpl; by repeat case_match.
Hint Extern 2 (DagLogic.pres _ _ _ (upd _ _) _ _) => by (apply unt_upd; core_same) : sched.
(** A step that the books do not notice. *)
Ltac ju := eapply jp_bind_unt; [solve [eauto with sched]|eassumption|intros ? ? ?].

(** One more failed node. *)
Lemma node_failed_books x i post s : Up (held d x i STATUS_ERROR post) s -> jp node_failed (fun _ => Up (Book d x)) s.
Proof.
  intros Hh. unfold node_failed, jp, wp. simpl. eapply (up_close _ _ _ STATUS_ERROR); [done|done| |exact Hh].
  unfold view, counter, set_field, set_v_failed. simpl. by case_decide.
Qed.

(** The ready queue. *)
Lemma in_InsertAt (q : PrioritySimpleList Z) k a p i : i ∈ items q \/ i = a -> i ∈ items (InsertAt q k a p).
Proof.
  unfold InsertAt. simpl. rewrite elem_of_app, elem_of_cons. intros [Hi| ->]; [|auto].
  rewrite <- (take_drop (Z.to_nat k) (items q)), elem_of_app in Hi. naive_solver.
Qed.
Lemma queue_books x i f s :
  (forall q k, k ∈ items q \/ k = i -> k ∈ items (f q)) -> Up (Book d (ready_too i x)) s ->
  Up (Book d x) (s <| dag ::= fun d => d <| _readyQ ::= f |> |>).
Proof.
  intros Hf. apply up_view; [done|done|]. intros Hb.
  apply (book_requeue d (ready_too i x) x (view s) (items (f (_readyQ (dag s))))); [|done].
  split; [done|]. split; [done|]. split; [done|]. simpl. intros k c _ _ _ [Hk|[Hk|Hk]]; [left|by right|left]; apply Hf; auto.
Qed.
Lemma ready_prepend_books x i s : Up (Book d (ready_too i x)) s -> jp (ready_prepend i) (fun _ => Up (Book d x)) s.
Proof. intros Hb. unfold ready_prepend. jw. apply (queue_books x i); [|done]. intros q k. apply in_InsertAt. Qed.
Lemma ready_append_books x i s : Up (Book d (ready_too i x)) s -> jp (ready_append i) (fun _ => Up (Book d x)) s.
Proof. intros Hb. unfold ready_append. jw. apply (queue_books x i); [|done]. intros q k. apply in_InsertAt. Qed.

Lemma up_post x i st post s j :
  Up (held d x i st post) s -> nodes s !! i = Some j -> has_post j = true -> Up (held d x i st true) s.
Proof.
  intros Hh Hj Hp. eapply up_mono; [|exact (held_look _ _ _ _ _ _ _ Hh Hj)]. intros (Hv & _ & _ & _ & He). congruence.
Qed.
Lemma has_post_is j : has_post j = bool_decide (is_Some (_scriptPost j)).
Proof. unfold has_post. simpl. destruct (_scriptPost j); [by rewrite bool_decide_true by eauto|done]. Qed.
Lemma Monitor_books P i s : Up P s -> jp (MonitorLogFile i) (fun b s' => b = true /\ Up P s') s.
Proof.
  intros HP. eapply wp_mono; [apply unt_MonitorLogFile| |done]. intros b s' [[_ [Hs|Hv]] Hb]; (split; [done|]); [by left|].
  unfold Up. by rewrite Hv.
Qed.

Section Open.
Variable start : Z -> bool -> M bool.
Hypothesis start_fwd : forall i r s, keeps True (fun _ => True) fwd (start i r) s.
Hypothesis start_books : forall x i r s,
  x_node x = None -> Up (Book d (ready_too i x)) s -> jp (start i r) (fun _ => Up (Book d x)) s.

Lemma unt_warn' l s : unt (warn start l) s.
Proof. by apply unt_warn. Qed.
Lemma unt_abort job s : unt (CheckForDagAbort start job) s.
Proof. by apply unt_CheckForDagAbort. Qed.
Lemma unt_Background post job s : unt (BackgroundRun start post job) s.
Proof. by apply unt_BackgroundRun. Qed.
Lemma unt_down v st s : unt (main_shutdown_rescue start v st) s.
Proof. by apply unt_shutdown. Qed.
Hint Resolve unt_warn' unt_abort unt_Background unt_down : sched.

Lemma RestartNode_books x i post s :
  x_node x = None -> Up (held d x i STATUS_ERROR post) s -> jp (RestartNode start i false) (fun _ => Up (Book d x)) s.
Proof.
  intros Hx Hh. unfold RestartNode. jw. jw; [jw|]. jw; [by eapply node_failed_books|].
  apply jp_bind_upd. intros j1 Hj1.
  eapply (up_status _ _ _ _ _ _ (SetStatus j1 STATUS_READY)) in Hh; [|exact Hj1|done|done].
  ju. jw. jw. ju. ju. simpl. eapply jp_bind; [eapply start_books; [done|by eapply up_close_ready]|].
  intros ? s1 Hs1. by jw.
Qed.

(** *** TerminateJob() *)

Lemma book_fix x v i c : Book d x v -> v_nodes v !! i = Some c ->
  exists j0, _nodeIDHash d !! i = Some j0 /\ c_fix c = c_fix (core j0).
Proof.
  intros Hb Hc. pose proof (f_equal (.!! i) (q_fix _ _ _ Hb)) as Hf. rewrite !lookup_fmap, Hc in Hf. simpl in Hf.
  destruct (_nodeIDHash d !! i) as [j0|]; [|done]. exists j0. split; [done|]. by injection Hf.
Qed.
Lemma book_fixed x s i j : Book d x (view s) -> nodes s !! i = Some j ->
  exists j0, _nodeIDHash d !! i = Some j0 /\ fixed j = fixed j0 /\ _visited j = _visited j0 /\ _dfsOrder j = _dfsOrder j0.
Proof.
  intros Hb Hj. destruct (book_fix x _ i _ Hb (view_node _ _ _ Hj)) as (j0 & Hj0 & Hf). exists j0. split; [done|].
  split; [exact (f_equal (fun p => p.1.1) Hf)|]. split; [exact (f_equal (fun p => p.1.2) Hf)|exact (f_equal snd Hf)].
Qed.
Lemma book_id x s i j : Book d x (view s) -> nodes s !! i = Some j -> _jobID j = i.
Proof.
  intros Hb Hj. destruct (book_fixed x s i j Hb Hj) as (j0 & Hj0 & Hf & _). rewrite (fixed_id _ _ Hf). by apply (wf_ids d Hwf).
Qed.
Lemma fixed_children j j' : fixed j' = fixed j -> _children j' = _children j.
Proof. intros Hf. exact (f_equal (fun p => p.1.1.1.1.2) Hf). Qed.
(** The nodes that wait for a node are among its children. *)
Lemma waiting_children x s i j k ck :
  Book d x (view s) -> nodes s !! i = Some j -> v_nodes (view s) !! k = Some ck -> i ∈ c_waiting ck ->
  k ∈ ascending_ids (_children j).
Proof.
  intros Hb Hj Hk Hi. apply elem_of_ascending_ids. destruct (book_fix x _ k ck Hb Hk) as (k0 & Hk0 & _).
  pose proof (q_sub _ _ _ Hb k ck k0 Hk Hk0 i Hi) as Hp.
  destruct (proj2 (wf_sym d Hwf i k)) as (j0 & Hj0 & Hc); [by exists k0|].
  destruct (book_fixed x s i j Hb Hj) as (j1 & Hj1 & Hf & _). assert (j1 = j0) as -> by congruence. by rewrite (fixed_children _ _ Hf).
Qed.

Lemma counted_books x i post j s :
  Up (held d x i STATUS_DONE post) s -> nodes s !! i = Some j ->
  jp (when (negb (countedAsDone j))
       (mod_dag (fun d => d <| _numNodesDone ::= Z.succ |>);;
        upd i (fun j => j <| countedAsDone := true |>);;
        d' ← gets dag; ASSERT (_numNodesDone d' <=? Z.of_nat (length (_jobs d')))))
     (fun _ => Up (Book d (edges_of i x (ascending_ids (_children j))))) s.
Proof.
  intros Hh Hj. jw.
  2: { eapply up_mono; [|exact (held_look _ _ _ _ _ _ _ Hh Hj)]. intros (_ & _ & Hc & _). by rewrite Hc in *. }
  apply jp_bind_mod_dag. match goal with |- jp _ _ ?s' =>
    change (Up (held d x i STATUS_DONE post) s') in Hh; change (nodes s' !! i = Some j) in Hj;
    generalize dependent s'; clear s; intros s Hh Hj end.
  apply jp_bind_upd. intros j' Hj'. assert (j' = j) as -> by congruence. jw. jw.
  eapply up_put; [exact Hj|done| |exact Hh]. intros (Hx & Hb & c & Hlc & Hs & Hcnt & Hq & Hp).
  rewrite (view_node _ _ _ Hj) in Hlc. injection Hlc as <-.
  change (core (j <| countedAsDone := true |>)) with ((core j) <| c_counted := true |>).
  pose proof (book_count d x (view s) i (core j) (ascending_ids (_children j)) (view_node _ _ _ Hj) Hb
    (fun k ck Hk Hi => waiting_children _ s i j k ck Hb Hj Hk Hi)) as Hbk.
  pose proof (book_close d (edges_of i x (ascending_ids (_children j))) _ i ((core j) <| c_counted := true |>) Hx
    (lookup_insert_eq _ _ _) Hbk) as Hcl.
  simpl in Hs, Hq, Hcl. rewrite Hs in Hcl. simpl in Hcl. apply Hcl; auto; congruence.
Qed.

(** A child is told, and started if it was waiting for nothing else. *)
Lemma child_books x p ks i (bootstrap : bool) s :
  x_node x = None -> (bootstrap = true -> forall k, x_ready x k) ->
  Up (Book d (edges_of p x (i :: ks))) s ->
  jp (upd i (fun c => (RemoveFromQueue Q_WAITING p c).1);;
      c ← node i;
      when (status_is (_Status c) STATUS_READY && QueueIsEmpty Q_WAITING c && negb bootstrap) (start i false;; mret tt))
     (fun _ => Up (Book d (edges_of p x ks))) s.
Proof.
  intros Hx Hboot Hb. apply jp_bind_upd. intros c Hc.
  assert (Hb1 : Up (Book d (ready_too i (edges_of p x ks)))
    (s <| dag ::= fun d => put_node d i (RemoveFromQueue Q_WAITING p c).1 |>)).
  { eapply up_put; [exact Hc| | |exact Hb].
    - unfold RemoveFromQueue. by destruct (bool_decide _).
    - intros Hv. pose proof (book_unwait d x (view s) p i (core c) ks (view_node _ _ _ Hc) Hv) as Hu.
      assert (core (RemoveFromQueue Q_WAITING p c).1 = (core c) <| c_waiting := c_waiting (core c) ∖ {[p]} |>) as ->; [|done].
      unfold RemoveFromQueue. simpl. case_bool_decide; [done|]. unfold core, set_field, set_c_waiting. simpl.
      f_equal. set_solver. }
  jw. jw.
  - eapply jp_bind; [by eapply start_books; [|exact Hb1]|]. intros ? s2 Hs2. by jw.
  - eapply up_mono; [|exact Hb1]. intros Hv. destruct bootstrap.
    + eapply book_excuse; [|exact Hv]. split; [done|]. split; [done|]. split; [done|]. simpl. intros. right. by apply Hboot.
    + eapply book_not_ready; [by apply view_node| |exact Hv]. simpl.
      rewrite andb_true_r in *. unfold status_is, QueueIsEmpty in *. simpl in *.
      do 2 (case_bool_decide; auto).
Qed.

Lemma children_books x i l (bootstrap : bool) s :
  x_node x = None -> (bootstrap = true -> forall k, x_ready x k) -> Up (Book d (edges_of i x l)) s ->
  jp (for_each l (fun child =>
        upd child (fun c => (RemoveFromQueue Q_WAITING i c).1);;
        c ← node child;
        when (status_is (_Status c) STATUS_READY && QueueIsEmpty Q_WAITING c && negb bootstrap) (start child false;; mret tt)))
     (fun _ => Up (Book d x)) s.
Proof.
  intros Hx Hboot Hb. eapply jp_mono; [apply (jp_for_each _ _ (fun ks => Up (Book d (edges_of i x ks))))|].
  - intros k ks s3 _ Hs3. by apply child_books.
  - exact Hb.
  - intros ? s3. apply up_mono. apply book_excuse. split; [done|]. split; [|done]. intros p k [?|[_ Hin]]; [done|].
    by apply elem_of_nil in Hin.
Qed.

Lemma TerminateJob_books x i st post bootstrap s :
  x_node x = None -> (bootstrap = true -> forall k, x_ready x k) ->
  Up (held d x i st post) s -> jp (TerminateJob start i false bootstrap) (fun _ => Up (Book d x)) s.
Proof.
  intros Hx Hboot [Hst|Hh]; [by apply jp_started; [apply fwd_TerminateJob|]|].
  assert (Hid : forall j, nodes s !! i = Some j -> _jobID j = i) by (intros j; apply (book_id (on i x)), Hh).
  unfold TerminateJob. jw. apply jp_bind_mod_dag.
  match goal with |- jp _ _ ?s' => assert (Hs' : view s' = view s /\ nodes s' = nodes s) by (unfold view; simpl; by case_decide);
    generalize dependent s'; intros s1 [Hv Hn] end.
  assert (Hh1 : Up (held d x i st post) s1) by (right; by rewrite Hv).
  apply jp_bind_upd. intros j Hj.
  eapply (up_status _ _ _ _ _ _ (TerminateSuccess j)) in Hh1; [|exact Hj|done|done]. simpl in Hh1.
  apply jp_bind_node. intros j1 Hj1.
  assert (Hid1 : _jobID j1 = i).
  { simpl in Hj1. rewrite lookup_insert_eq in Hj1. injection Hj1 as <-. apply (Hid j). by rewrite <- Hn. }
  eapply jp_bind; [by eapply counted_books|]. intros ? s2 Hs2. rewrite Hid1.
  by apply children_books.
Qed.

(** A node that is marked DONE from the start. *)
Definition done_too (i : Z) (x : excuse) : excuse :=
  mkExcuse (x_node x) (x_ready x) (x_edge x) (fun k => x_done x k \/ k = i).
Lemma book_done_too x i c v :
  v_nodes v !! i = Some c -> c_counted c = true -> Book d (done_too i x) v -> Book d x v.
Proof.
  intros Hc Hcnt [K1 K2 K3 K4 P1 P2 P3 P4 K5 K6 K7 K8 K9 K10 K11 K12 C1 C2]. split; try done.
  intros k ck Hk Hx Hs. destruct (K8 k ck Hk Hx Hs) as [?|[?| ->]]; [by left|by right|]. left. congruence.
Qed.
Lemma open_done x i j s :
  x_node x = None -> nodes s !! i = Some j -> _Status j = STATUS_DONE -> countedAsDone j = false ->
  Up (Book d (done_too i x)) s -> Up (held d x i STATUS_DONE (has_post j)) s.
Proof.
  intros Hx Hj Hst Hcnt. apply up_mono. intros Hb. pose proof (view_node _ _ _ Hj) as Hc. split; [done|]. split.
  - pose proof (book_open d (done_too i x) (view s) i (core j) Hx Hc Hb) as Ho. simpl in Ho. rewrite Hst in Ho. simpl in Ho.
    destruct Ho as [K1 K2 K3 K4 P1 P2 P3 P4 K5 K6 K7 K8 K9 K10 K11 K12 C1 C2]. split; try done.
    intros k ck Hk Hne Hs. destruct (K8 k ck Hk Hne Hs) as [?|[?| ->]]; [by left|by right|done].
  - exists (core j). split; [done|]. split; [done|]. split; [done|]. split; [|done].
    destruct (decide (c_queued (core j) = 0)) as [|He]; [done|].
    destruct (q_procs _ _ _ Hb i (core j) Hc) as [_ Hsub]; [simpl; congruence|done|]. simpl in Hsub. congruence.
Qed.
Lemma TerminateJob_boot x i j s :
  x_node x = None -> (forall k, x_ready x k) -> nodes s !! i = Some j -> _Status j = STATUS_DONE ->
  Up (Book d (done_too i x)) s -> jp (TerminateJob start i false true) (fun _ => Up (Book d x)) s.
Proof.
  intros Hx Hr Hj Hst HU. destruct (countedAsDone j) eqn:Hcnt; [|by eapply TerminateJob_books, open_done].
  assert (HU2 : Up (Book d x) s).
  { eapply up_mono; [|exact HU]. intros Hb. eapply book_done_too; [by apply view_node|done|exact Hb]. }
  clear HU. destruct HU2 as [Hs|Hb]; [by apply jp_started; [apply fwd_TerminateJob|]|].
  unfold TerminateJob. jw. apply jp_bind_mod_dag.
  match goal with |- jp _ _ ?s' => assert (Hs' : view s' = view s /\ nodes s' = nodes s) by (unfold view; simpl; by case_decide);
    generalize dependent s'; intros s1 [Hv Hn] end.
  apply jp_bind_upd. intros j1 Hj1. assert (j1 = j) as -> by congruence.
  assert (Hsame : TerminateSuccess j = j) by (unfold TerminateSuccess; rewrite <- Hst; by destruct j).
  apply jp_bind_node. intros j1. simpl. rewrite lookup_insert_eq. intros [= <-]. rewrite Hsame, Hcnt. simpl.
  apply jp_bind_ret. rewrite (book_id x s i j Hb Hj). apply (children_books x i _ true); [done|done|].
  right. rewrite (view_put _ _ j) by done. rewrite put_core_same by done. rewrite Hv.
  eapply book_excuse; [|exact Hb]. split; [done|]. split; [by left|done].
Qed.

(** *** Scripts *)

Lemma ProcessPostTermEvent_books x e i s :
  x_node x = None -> Up (Book d x) s -> jp (ProcessPostTermEvent start e i false) (fun _ => Up (Book d x)) s.
Proof.
  intros Hx Hb. unfold ProcessPostTermEvent. ju. apply jp_bind_node. intros j Hj.
  eapply (jp_bind _ _ (fun _ => Up (held d x i STATUS_POSTRUN (has_post j)))).
  { destruct (status_is (_Status j) STATUS_POSTRUN) eqn:Hst; [|by jw]. apply bool_decide_eq_true in Hst. unfold jp, wp. simpl.
    rewrite <- Hst. eapply up_open; [done|exact Hj|by rewrite Hst..| |]; [by rewrite Hst|].
    eapply up_mono; [apply book_ready_too|done]. }
  intros [] s1 Hh. eapply (jp_bind _ _ (fun _ => Up (Book d x))).
  - destruct (negb _).
    + apply jp_bind_upd. intros j1 Hj1.
      eapply (up_status _ _ _ _ _ _ (TerminateFailure j1)) in Hh; [|exact Hj1|done|done]. simpl in Hh.
      eapply (jp_bind _ _ (fun _ => Up (held d x i STATUS_ERROR (has_post j)))).
      { destruct (normal e); (eapply jp_unt; [eauto with sched|done]). }
      intros [] s2 Hh2. jw. jw; [by eapply RestartNode_books|].
      eapply jp_bind; [by eapply node_failed_books|]. intros ? s3 Hs3. eapply jp_unt; [eauto with sched|done].
    + jw. ju. by eapply TerminateJob_books.
  - intros [] s2 Hs2. ju. by jw.
Qed.

Lemma find_node_books {B} P name (k : Z -> M B) Q s :
  Up P s -> (forall i s', Up P s' -> jp (k i) Q s') -> jp (find_node name ≫= k) Q s.
Proof.
  intros HP Hk. eapply (jp_bind _ _ (fun _ => Up P)); [|intros i s1 Hs1; by apply Hk].
  unfold find_node. jw. jw. by destruct a; jw.
Qed.

Lemma PostScriptReaper_books x name st s :
  x_node x = None -> Up (Book d x) s -> jp (PostScriptReaper start name st) (fun _ => Up (Book d x)) s.
Proof.
  intros Hx [Hst|Hb]; [by apply jp_started; [apply fwd_PostScriptReaper|]|].
  assert (Hr : forall s', view s' = view s -> _recovery s' = false).
  { intros s' Hv. apply (f_equal v_recovery) in Hv. simpl in Hv. rewrite Hv. exact (q_recovery _ _ _ Hb). }
  assert (HU : Up (Book d x) s) by (by right).
  eapply (jp_bind _ _ (fun _ s' => s' = s)); [unfold find_node; jw; jw; by destruct a; jw|].
  intros i s1 ->. jw. jw; [jw|]. cbv zeta. jw.
  - ju. jw; [|by eapply jp_unt; [eauto with sched|]]. eapply jp_unt; [eauto with sched|done].
  - jw. rewrite (Hr s) by done. by apply ProcessPostTermEvent_books.
Qed.

Lemma ScriptQ_Run_books rp P post i s :
  (forall name st s, Up P s -> jp (rp post name st) (fun _ => Up P) s) -> Up P s ->
  jp (ScriptQ_Run start rp post i) (fun _ => Up P) s.
Proof.
  intros Hrp HP. unfold ScriptQ_Run. eapply (jp_bind _ _ (fun _ => Up P)).
  - unfold deferScript. jw. jw. jw. by jw.
  - intros [] s1 Hs1; [ju; by jw|]. unfold start_script. ju. jw; [ju; by jw|]. jw.
    eapply jp_bind; [by apply Hrp|]. intros ? s2 Hs2. by jw.
Qed.

Lemma RunPostScript_books x i st ignore status s :
  x_node x = None -> ignore = true \/ status = 0 -> Up (held d x i st true) s ->
  jp (RunPostScript start i ignore status true) (fun _ => Up (Book d x)) s.
Proof.
  intros Hx Hig Hh. unfold RunPostScript. apply jp_bind_node. intros j Hj. destruct (_scriptPost j) as [sc|] eqn:Hsc.
  2: { jw. eapply up_mono; [|exact (held_look _ _ _ _ _ _ _ Hh Hj)]. intros (_ & _ & _ & _ & Hp).
       unfold has_post in Hp. simpl in Hp. by rewrite Hsc in Hp. }
  assert (negb ignore && negb (status =? 0) = false) as -> by (destruct Hig as [-> | ->]; [done|by destruct ignore]).
  apply jp_bind_upd. intros j1 Hj1.
  eapply (up_status _ _ _ _ _ _ (SetStatus j1 STATUS_POSTRUN)) in Hh; [|exact Hj1|done|done]. simpl in Hh.
  eapply jp_bind; [by eapply Monitor_books|]. intros b s1 [-> Hs1]. simpl. apply jp_bind_mod_dag.
  eapply jp_bind; [eapply ScriptQ_Run_books|].
  - intros name st' s2 Hs2. by apply PostScriptReaper_books.
  - by eapply (up_close _ _ _ STATUS_POSTRUN); [done|done| |exact Hs1].
  - intros ? s2 Hs2. by jw.
Qed.

Lemma pre_script_failed_books x i post s :
  x_node x = None -> Up (held d x i STATUS_PRERUN post) s -> jp (pre_script_failed start i) (fun _ => Up (Book d x)) s.
Proof.
  intros Hx Hh. unfold pre_script_failed. apply jp_bind_upd. intros j Hj.
  eapply (up_status _ _ _ _ _ _ (TerminateFailure j)) in Hh; [|exact Hj|done|done]. simpl in Hh.
  apply jp_bind_node. intros j1 Hj1. jw; [|jw; [|jw]].
  - ju. by eapply TerminateJob_books.
  - assert (Hpj : has_post j1 = true) by (rewrite has_post_is; by destruct _alwaysRunPost).
    pose proof (up_post _ _ _ _ _ _ Hh Hj1 Hpj) as Hp.
    eapply jp_bind_unt; [eauto with sched|exact Hp|]. intros ? s1 Hs1.
    eapply jp_bind_unt; [eauto with sched|exact Hs1|]. intros ? s2 Hs2.
    eapply jp_bind; [eapply RunPostScript_books; [done| |exact Hs2]|].
    + left. by destruct _alwaysRunPost.
    + intros ? s3 Hs3. by jw.
  - apply jp_bind_upd. intros j2 Hj2.
    eapply (up_status _ _ _ _ _ _ (TerminateFailure j2)) in Hh; [|exact Hj2|done|done]. simpl in Hh.
    by eapply RestartNode_books.
  - eapply jp_bind; [by eapply node_failed_books|]. intros ? s3 Hs3. jw; [|done]. eapply jp_unt; [eauto with sched|done].
Qed.

Lemma PreScriptReaper_books x name st s :
  x_node x = None -> Up (Book d x) s -> jp (PreScriptReaper start name st) (fun _ => Up (Book d x)) s.
Proof.
  intros Hx Hb. unfold PreScriptReaper. eapply find_node_books; [exact Hb|]. intros i s1 Hs1. apply jp_bind_node. intros j Hj.
  destruct (status_is (_Status j) STATUS_PRERUN) eqn:Hst; [|done]. apply bool_decide_eq_true in Hst. cbn [negb].
  apply jp_bind_mod_dag.
  match goal with |- jp _ _ ?s' => assert (Hh : Up (held d x i STATUS_PRERUN (has_post j)) s') end.
  { rewrite <- Hst. eapply up_open; [done|exact Hj|by rewrite Hst..| |]; [by rewrite Hst|].
    eapply up_mono; [apply book_ready_too|done]. }
  eapply (jp_bind _ _ (fun _ => Up (Book d x))); [|intros ? s2 Hs2; ju; by jw].
  jw; [|jw].
  - ju. by eapply pre_script_failed_books.
  - ju. by eapply pre_script_failed_books.
  - ju. ju. apply jp_bind_upd. intros j2 Hj2. clear Hh.
    match goal with Hk : Up (held _ _ _ _ _) _ |- _ =>
      eapply (up_status _ _ _ _ _ _ (SetStatus j2 STATUS_READY)) in Hk; [|exact Hj2|done|done]; apply up_close_ready in Hk end.
    jw; [by apply ready_prepend_books|by apply ready_append_books].
Qed.

Lemma RunScript_books x post i s :
  x_node x = None -> Up (Book d x) s -> jp (RunScript start post i) (fun _ => Up (Book d x)) s.
Proof.
  intros Hx Hb. unfold RunScript. apply ScriptQ_Run_books; [|done]. intros name st s1 Hs1. unfold reaper.
  destruct post; [by apply PostScriptReaper_books|by apply PreScriptReaper_books].
Qed.

(** *** StartNode() *)

Lemma StartNode_body_books x i r s :
  x_node x = None -> Up (Book d (ready_too i x)) s -> jp (StartNode_body start i r) (fun _ => Up (Book d x)) s.
Proof.
  intros Hx Hb. unfold StartNode_body. apply jp_bind_node. intros j Hj. jw; [jw|].
  assert (Hst : _Status j = STATUS_READY).
  { destruct (CanSubmit j) eqn:Hcan; [|done]. unfold CanSubmit in Hcan. apply andb_true_iff in Hcan as [_ Hcan].
    by apply bool_decide_eq_true in Hcan. }
  jw.
  - apply jp_bind_upd. intros j1 Hj1.
    assert (Hh : Up (held d x i STATUS_READY (has_post j)) s).
    { rewrite <- Hst. eapply up_open; [done|exact Hj|by rewrite Hst..| |exact Hb]. by rewrite Hst. }
    eapply (up_status _ _ _ _ _ _ (SetStatus j1 STATUS_PRERUN)) in Hh; [|exact Hj1|done|done]. simpl in Hh.
    apply jp_bind_mod_dag. eapply jp_bind; [apply RunScript_books; [exact Hx|]|].
    + by eapply (up_close _ _ _ STATUS_PRERUN); [done|done| |exact Hh].
    + intros ? s2 Hs2. by jw.
  - ju. eapply (jp_bind _ _ (fun _ => Up (Book d x))); [|intros ? s2 Hs2; by jw].
    jw; [by apply ready_prepend_books|].
    eapply jp_bind_unt; [apply unt_upd; intros j2 _; by destruct (_hasNodePriority j2)|eassumption|intros ? s2 Hs2].
    jw; [by apply ready_prepend_books|by apply ready_append_books].
Qed.
End Open.

Lemma StartNode_books fuel x i r s :
  x_node x = None -> Up (Book d (ready_too i x)) s -> jp (StartNode fuel i r) (fun _ => Up (Book d x)) s.
Proof.
  revert x i r s. induction fuel as [|fuel IH]; intros x i r s Hx Hb; [done|].
  apply StartNode_body_books; [by apply fwd_StartNode|exact IH|done|done].
Qed.

(** ** The handlers *)

Section Handlers.
Variable fuel : nat.
Notation start := (StartNode fuel).
#[local] Hint Resolve fwd_StartNode StartNode_books : core.

Lemma unt_w l s : unt (warn start l) s.
Proof. by apply unt_warn. Qed.
Lemma unt_a job s : unt (CheckForDagAbort start job) s.
Proof. by apply unt_CheckForDagAbort. Qed.
Lemma unt_d v st s : unt (main_shutdown_rescue start v st) s.
Proof. by apply unt_shutdown. Qed.
Lemma unt_when b m s : unt m s -> unt (when b m) s.
Proof. intros Hm. by eapply keeps_when; [apply _|done|]. Qed.
Hint Resolve unt_w unt_a unt_d unt_when : sched.
Hint Extern 2 (DagLogic.pres _ _ _ (mod_dag _) _ _) => by eapply unt_run : sched.

(** Use of a lemma on the code below StartNode(). *)
Ltac st l := solve [eapply l; first [done|by eauto]].

(** *** Counts of submitted jobs *)

Lemma UpdateJobCounts_books Q i k s :
  (forall s', view s' = counter STATUS_SUBMITTED k (node_core i (view s)) (view s) -> Up Q s') ->
  jp (UpdateJobCounts i k) (fun _ => Up Q) s.
Proof.
  intros HQ. unfold UpdateJobCounts. apply jp_bind_mod_dag. jw. jw. apply jp_bind_node. intros j Hj. simpl in Hj.
  assert (Hv : forall s', view s' = counter STATUS_SUBMITTED k (core j) (view s) -> Up Q s').
  { intros s' Hv. apply HQ. rewrite Hv. unfold node_core. by rewrite (view_node _ _ _ Hj). }
  jw.
  - apply jp_bind_mod_dag. jw. jw; [|jw]. jw. apply Hv. unfold view, counter, bill, set_field, set_v_submitted, set_v_cats.
    simpl. unfold c_cat. simpl. rewrite Heqo. f_equal. lia.
  - jw. apply Hv. unfold view, counter, bill, set_field, set_v_submitted, set_v_cats. simpl. unfold c_cat. simpl.
    rewrite Heqo. f_equal. lia.
Qed.

Lemma DecrementJobCounts_books x i j s :
  x_node x = None -> nodes s !! i = Some j -> Up (Book d x) s ->
  jp (DecrementJobCounts i) (fun _ => Up (held d x i STATUS_SUBMITTED (has_post j))) s.
Proof.
  intros Hx Hj Hb. unfold DecrementJobCounts. apply jp_bind_upd. intros j0 Hj0. assert (j0 = j) as -> by congruence.
  set (j' := j <| _queuedNodeJobProcs ::= Z.pred |>). apply jp_bind_node. intros j1. simpl. rewrite lookup_insert_eq.
  intros [= <-]. apply jp_bind_ASSERT. intros Hq%Z.leb_le. simpl in Hq.
  assert (Hmid : Up (fun v => held d x i STATUS_SUBMITTED (has_post j) (counter STATUS_SUBMITTED (-1) (core j) v) /\ _queuedNodeJobProcs j = 1)
    (s <| dag ::= fun d => put_node d i j' |>)).
  { eapply up_put; [exact Hj|done| |exact Hb]. intros Hbk. pose proof (view_node _ _ _ Hj) as Hc.
    destruct (q_procs _ _ _ Hbk i (core j) Hc) as [Hq1 Hst]; [by rewrite Hx|simpl; lia|]. simpl in Hq1, Hst.
    split; [|done]. split; [done|]. split.
    - pose proof (book_open d x (view s) i (core j) Hx Hc Hbk) as Ho. simpl in Ho. rewrite Hst in Ho.
      by eapply (book_put d x _ i (core j) (core j')) in Ho.
    - exists (core j'). simpl. rewrite lookup_insert_eq. split; [done|]. split; [done|].
      split; [|split; [rewrite Hq1; done|done]]. destruct (countedAsDone j) eqn:He; [|done].
      pose proof (q_counted _ _ _ Hbk i (core j) Hc) as Hd. simpl in Hd. rewrite Hst in Hd.
      discriminate Hd; [by rewrite Hx|done]. }
  jw.
  - apply UpdateJobCounts_books. intros s' Hv.
    assert (Hnc : node_core i (view (s <| dag ::= fun d => put_node d i j' |>)) = core j').
    { unfold node_core. rewrite (view_node _ i j'); [done|]. simpl. apply lookup_insert_eq. }
    rewrite Hnc in Hv. change (counter STATUS_SUBMITTED (-1) (core j')) with (counter STATUS_SUBMITTED (-1) (core j)) in Hv.
    destruct (counter_same STATUS_SUBMITTED (-1) (core j) (view (s <| dag ::= fun d => put_node d i j' |>))) as (Hn & _ & _ & Hf & _).
    rewrite <- Hv in Hn, Hf. eapply (up_view _ _ _ _ Hn Hf); [|exact Hmid]. intros [Hh _]. by rewrite Hv.
  - eapply up_mono; [|exact Hmid]. intros [_ Hq1]. simpl in *. rewrite Hq1 in *. done.
Qed.
(** The handlers of events begin with it. *)
Lemma Decrement_begin {B} x i (k : M B) Q s :
  x_node x = None -> Up (Book d x) s ->
  (forall post s', Up (held d x i STATUS_SUBMITTED post) s' -> jp k Q s') -> jp (DecrementJobCounts i ≫= fun _ => k) Q s.
Proof.
  intros Hx Hb Hk. destruct (nodes s !! i) as [j|] eqn:Hj.
  - eapply jp_bind; [by eapply DecrementJobCounts_books|]. intros [] s1 Hs1. by eapply Hk.
  - unfold jp, wp, mbind, M_bind, DecrementJobCounts, upd, mbind, M_bind, node. by rewrite Hj.
Qed.

(** *** The end of a job *)

Definition known (x : excuse) (i : Z) (st : status_t) (post : bool) (j : Job) (v : View) : Prop :=
  held d x i st post v /\ _Status j = st /\ countedAsDone j = false /\ _queuedNodeJobProcs j = 0 /\ has_post j = post.

Lemma ProcessJobProcEnd_books x i st post (failed : bool) s :
  x_node x = None -> st = (if failed then STATUS_ERROR else STATUS_SUBMITTED) -> Up (held d x i st post) s ->
  jp (ProcessJobProcEnd fuel i false failed) (fun _ => Up (Book d x)) s.
Proof.
  intros Hx Hst Hh. unfold ProcessJobProcEnd. apply jp_bind_node. intros j Hj.
  pose proof (held_look _ _ _ _ _ _ _ Hh Hj : Up (known x i st post j) s) as Hk. clear Hh.
  eapply jp_bind_unt; [eauto with sched|exact Hk|]. clear Hk. intros ? s1 Hk1.
  assert (Hheld : Up (held d x i st post) s1) by (eapply up_mono; [|exact Hk1]; by intros []).
  destruct (failed && negb (bool_decide (is_Some (_scriptPost j)))) eqn:Hf.
  - apply andb_true_iff in Hf as [-> _]. simpl in Hst. subst st. jw; [st RestartNode_books|].
    eapply jp_bind_unt; [eauto 6 with sched|exact Hk1|]. intros ? s2 Hk2. jw.
    + eapply node_failed_books. eapply up_mono; [|exact Hk2]. by intros [].
    + eapply up_mono; [|exact Hk2]. intros (_ & _ & _ & Hq & _). rewrite Hq in *. done.
  - jw; [|eapply up_mono; [|exact Hk1]; intros (_ & _ & _ & Hq & _); rewrite Hq in *; done].
    rewrite <- has_post_is in *. destruct (has_post j) eqn:Hp.
    + eapply jp_bind; [eapply RunPostScript_books; [eauto..|by right|]|intros ? s3 Hs3; by jw].
      eapply up_mono; [|exact Hk1]. intros (Hv & _ & _ & _ & <-). rewrite Hp in Hv. exact Hv.
    + rewrite andb_true_r in Hf. subst failed st. jw; [st TerminateJob_books|].
      eapply up_mono; [|exact Hk1]. intros (_ & Hs & _). rewrite Hs in *. done.
Qed.

(** CheckForDagAbort() says that it has aborted the DAG only when the final node was started. *)
Lemma CheckForDagAbort_books P i s :
  (P (view s) -> v_shutdown (view s) = false) -> Up P s ->
  jp (CheckForDagAbort start i) (fun b s' => Up P s' /\ (b = true -> started (view s'))) s.
Proof.
  intros Hsh HU. unfold CheckForDagAbort. apply jp_bind_node. intros j Hj. jw; [|by jw]. jw; [by jw|].
  assert (Hgo : forall v st, jp (main_shutdown_rescue start v st) (fun _ s' => Up P s' /\ started (view s')) s).
  { intros v st. eapply wp_mono; [by apply (unt_shutdown_started start (fwd_StartNode fuel))| |done].
    intros [] s' [[_ Hu] Hst]. assert (Hs' : started (view s')); [|by split; [left|]].
    destruct HU as [Hs|HP]; [by apply (untouched_fwd _ _ Hu)|]. by apply Hst, Hsh. }
  eapply (jp_bind _ _ (fun _ s' => Up P s' /\ started (view s'))).
  - destruct (abort_dag_return_val j); apply Hgo.
  - intros [] s1 [? ?]. by jw.
Qed.


(** Reading the node that is worked on. *)
Lemma look_begin {B} x i st post (k : Job -> M B) Q s :
  Up (held d x i st post) s ->
  (forall j, nodes s !! i = Some j -> Up (known x i st post j) s -> jp (k j) Q s) -> jp (node i ≫= k) Q s.
Proof. intros Hh Hk. apply jp_bind_node. intros j Hj. apply Hk; [done|]. by apply held_look. Qed.
Lemma known_held x i st post j s : Up (known x i st post j) s -> Up (held d x i st post) s.
Proof. apply up_mono. by intros []. Qed.

Lemma ProcessAbortEvent_books x e i s :
  x_node x = None -> Up (Book d x) s -> jp (ProcessAbortEvent fuel e i false) (fun _ => Up (Book d x)) s.
Proof.
  intros Hx Hb. unfold ProcessAbortEvent. eapply Decrement_begin; [done|exact Hb|]. intros post s1 Hh.
  eapply look_begin; [exact Hh|]. intros j Hj Hk.
  eapply jp_bind_unt; [|exact Hk|].
  { apply unt_when. eapply keeps_bind; [apply _|eauto with sched|]. intros. eauto with sched. }
  intros ? s2 Hk2. eapply (jp_bind _ _ (fun _ => Up (held d x i STATUS_ERROR post))).
  - jw; [|eapply up_mono; [|exact Hk2]; intros (_ & Hs & _); rewrite Hs in *; done].
    apply known_held in Hk2. apply jp_bind_upd. intros j1 Hj1.
    eapply (up_status _ _ _ _ _ _ (TerminateFailure j1)) in Hk2; [|exact Hj1|done|done]. simpl in Hk2.
    ju. unfold RemoveBatchJob. ju. eapply jp_unt; [eauto with sched|done].
  - intros [] s3 Hs3. by eapply ProcessJobProcEnd_books.
Qed.

Lemma ProcessTerminatedEvent_books x e i s :
  x_node x = None -> Up (Book d x) s -> jp (ProcessTerminatedEvent fuel e i false) (fun _ => Up (Book d x)) s.
Proof.
  intros Hx Hb. unfold ProcessTerminatedEvent. eapply Decrement_begin; [done|exact Hb|]. intros post s1 Hh. cbv zeta.
  set (failed := negb (normal e && (returnValue e =? 0))).
  eapply look_begin; [exact Hh|]. intros j Hj Hk.
  set (st := if failed then STATUS_ERROR else STATUS_SUBMITTED).
  eapply (jp_bind _ _ (fun _ => Up (held d x i st post))).
  - unfold st. destruct failed.
    + jw; [|eapply up_mono; [|exact Hk]; intros (_ & Hs & _); rewrite Hs in *; done].
      eapply (jp_bind _ _ (fun _ => Up (held d x i STATUS_SUBMITTED post))).
      { destruct (normal e); (eapply jp_unt; [eauto with sched|done]). }
      intros [] s2 Hs2. apply jp_bind_upd. intros j1 Hj1.
      eapply (up_status _ _ _ _ _ _ (TerminateFailure j1)) in Hs2; [|exact Hj1|done|done]. simpl in Hs2.
      unfold RemoveBatchJob. eapply jp_unt; [eauto with sched|done].
    + jw. eapply jp_unt; [eauto with sched|done].
  - intros [] s2 Hs2. eapply (jp_bind _ _ (fun b s' => Up (held d x i st post) s' /\ (b = true -> started (view s')))).
    + jw; [by jw|]. apply CheckForDagAbort_books; [|done]. intros (_ & Hbk & _). exact (q_shutdown _ _ _ Hbk).
    + intros [] s3 [Hs3 Hst]; [jw; left; by apply Hst|]. by eapply ProcessJobProcEnd_books.
Qed.

(** *** The submit event *)

Lemma book_queued x v i c q :
  v_nodes v !! i = Some c -> (q <> 0 -> q = 1 /\ c_status c = STATUS_SUBMITTED) -> Book d x v ->
  Book d x (put_core i (c <| c_queued := q |>) v).
Proof.
  intros Hc Hq [K1 K2 K3 K4 P1 P2 P3 P4 K5 K6 K7 K8 K9 K10 K11 K12 C1 C2]. simpl in *.
  assert (Hlk : forall k ck, <[i := c <| c_queued := q |>]> (v_nodes v) !! k = Some ck ->
    exists ck0, v_nodes v !! k = Some ck0 /\ c_waiting ck = c_waiting ck0 /\ c_status ck = c_status ck0 /\
      c_counted ck = c_counted ck0 /\ (c_queued ck = c_queued ck0 \/ c_queued ck = q /\ ck0 = c)).
  { intros k ck. destruct (decide (k = i)) as [->|Hne].
    - rewrite lookup_insert_eq. intros [= <-]. exists c. naive_solver.
    - rewrite lookup_insert_ne by done. intros Hk. exists ck. naive_solver. }
  assert (Hone : forall lim st, one lim st i (c <| c_queued := q |>) = one lim st i c) by (by intros ? []).
  split; simpl; try done.
  - rewrite fmap_insert, <- K1. apply insert_id. by rewrite lookup_fmap, Hc.
  - intros k ck j0 (ck0 & Hk & -> & _)%Hlk. by eapply K4.
  - rewrite (count_put _ _ _ _ _ _ Hc), Hone. lia.
  - rewrite (count_put _ _ _ _ _ _ Hc), Hone. lia.
  - rewrite (count_put _ _ _ _ _ _ Hc), Hone. lia.
  - rewrite (count_put _ _ _ _ _ _ Hc), Hone. lia.
  - intros k ck (ck0 & Hk & -> & -> & _)%Hlk. by eapply K5.
  - intros k ck p cp (ck0 & Hk & -> & _)%Hlk Hp (cp0 & Hcp & _ & _ & -> & _)%Hlk. by eapply K6.
  - intros k ck (ck0 & Hk & _ & -> & -> & _)%Hlk. by eapply K7.
  - intros k ck (ck0 & Hk & _ & -> & -> & _)%Hlk. by eapply K8.
  - intros k ck (ck0 & Hk & _ & -> & _ & [->|[-> ->]])%Hlk; [by eapply K9|]. intros _. by apply Hq.
  - intros k ck (ck0 & Hk & _ & -> & _)%Hlk. by eapply K10.
  - intros g t Hg. rewrite (count_put _ _ _ _ _ _ Hc), Hone, (C1 g t Hg). lia.
Qed.

(** The job of the node has been submitted, and no event of it has been read. *)
Definition announced (i : Z) (v : View) : Prop :=
  forall c, v_nodes v !! i = Some c -> c_status c = STATUS_SUBMITTED /\ c_queued c = 0.

Lemma ProcessSubmitEvent_books x i sane s :
  Up (fun v => Book d x v /\ announced i v) s -> jp (ProcessSubmitEvent i false sane) (fun _ => Up (Book d x)) s.
Proof.
  intros HU. unfold ProcessSubmitEvent. apply jp_bind_node. intros j Hj. simpl. apply jp_bind_ret. jw; [jw|]. cbv zeta.
  eapply (jp_bind _ _ (fun _ => Up (Book d x))).
  - jw; [|eapply up_mono; [|exact HU]; by intros []]. apply jp_upd. intros j1 Hj1. assert (j1 = j) as -> by congruence.
    eapply up_put; [exact Hj|done| |exact HU]. intros [Hb Ha]. destruct (Ha _ (view_node _ _ _ Hj)) as [Hs Hq]. simpl in Hs, Hq.
    apply (book_queued x (view s) i (core j) (Z.succ (_queuedNodeJobProcs j))); [by apply view_node| |done].
    intros _. split; [rewrite Hq; done|done].
  - intros [] s1 Hs1. jw. ju. jw; [|done]. jw. jw; [by jw|]. eapply jp_unt; [eauto with sched|done].
Qed.

Lemma unt_IsIdle i s : unt (ProcessIsIdleEvent i) s.
Proof. unfold ProcessIsIdleEvent. walk. Qed.
Lemma unt_NotIdle i s : unt (ProcessNotIdleEvent i) s.
Proof. unfold ProcessNotIdleEvent. walk. Qed.
Lemma unt_Held i s : unt (ProcessHeldEvent i) s.
Proof. unfold ProcessHeldEvent, RemoveBatchJob. walk. Qed.
Lemma unt_Released i s : unt (ProcessReleasedEvent i) s.
Proof. unfold ProcessReleasedEvent. walk. Qed.
Hint Resolve unt_IsIdle unt_NotIdle unt_Held unt_Released : sched.

Lemma ProcessEvent_books x e i sane s :
  x_node x = None ->
  Up (fun v => Book d x v /\ (eventNumber (event e) = ULOG_SUBMIT -> announced i v)) s ->
  jp (ProcessEvent fuel e i false sane) (fun _ => Up (Book d x)) s.
Proof.
  intros Hx HU. assert (Hb : Up (Book d x) s) by (eapply up_mono; [|exact HU]; by intros []). unfold ProcessEvent. cbv zeta.
  jw; [by jw|]. jw; [eapply jp_bind; [by apply ProcessAbortEvent_books|]; intros ? s1 Hs1; eapply jp_unt; [eauto with sched|done]|].
  jw; [eapply jp_bind; [by apply ProcessTerminatedEvent_books|]; intros ? s1 Hs1; eapply jp_unt; [eauto with sched|done]|].
  jw; [st ProcessPostTermEvent_books|].
  jw.
  { eapply jp_bind; [eapply (ProcessSubmitEvent_books x)|]; [|intros ? s1 Hs1; eapply jp_unt; [eauto with sched|done]].
    eapply up_mono; [|exact HU]. intros [? Ha]. split; [done|]. apply Ha. lia. }
  jw; [eapply jp_unt; [eauto with sched|done]|].
  jw; [ju; eapply jp_unt; [eauto with sched|done]|].
  jw; [eapply jp_unt; [eauto with sched|done]|].
  jw; [eapply jp_unt; [eauto with sched|done]|by jw].
Qed.

(** *** Reading an event *)

Lemma unt_SanityCheck id i s : unt (SanityCheckSubmitEvent fuel id i) s.
Proof. unfold SanityCheckSubmitEvent. walk. Qed.
Lemma unt_FindNodeByEventID ls id s : unt (FindNodeByEventID fuel ls id) s.
Proof. unfold FindNodeByEventID. walk. Qed.
Lemma unt_EventSanityCheck ls e s : unt (EventSanityCheck ls e) s.
Proof.
  unfold EventSanityCheck. eapply keeps_bind; [apply _| |intros; walk]. unfold pres, wp.
  destruct ls; destruct (CheckAnEvent _ e) as [c [? r]]; (split; [|done]); (split; [done|by right]).
Qed.
Hint Resolve unt_SanityCheck unt_FindNodeByEventID unt_EventSanityCheck : sched.

Lemma FindNodeByName_name d' name i : FindNodeByName d' name = Done (Some i) -> _nodeNameHash d' !! name = Some i.
Proof.
  unfold FindNodeByName. destruct (_nodeNameHash d' !! name) as [k|]; [|done]. destruct (_nodeIDHash d' !! k) as [j|]; [|done].
  destruct (streq _ _); congruence.
Qed.
(** The node a submit event is about is the one named in it. *)
Lemma LogEventNodeLookup_books P ls e s :
  Up P s ->
  jp (LogEventNodeLookup fuel ls e) (fun r s' => Up P s' /\ forall i, r.1 = Some i -> eventNumber (event e) = ULOG_SUBMIT ->
    exists name, submitEventLogNotes e ≫= scan_node_name = Some name /\ _nodeNameHash (dag s) !! name = Some i) s.
Proof.
  intros HP. unfold LogEventNodeLookup. cbv zeta. destruct (eventNumber (event e) =? ULOG_SUBMIT) eqn:Hn.
  - unfold submit_event_node. destruct (submitEventLogNotes e ≫= scan_node_name) as [name|] eqn:Hname; [|by jw].
    jw. apply jp_bind_lift. intros [i|] Hi; [|by jw]. apply FindNodeByName_name in Hi. cbv zeta.
    ju. ju. jw. jw. jw. eapply (jp_bind _ _ (fun _ => Up P)).
    + jw; [jw; done|]. eapply jp_unt; [eauto with sched|done].
    + intros ? s1 Hs1. jw. split; [done|]. intros k [= <-] _. eauto.
  - apply Z.eqb_neq in Hn. eapply (jp_mono _ (fun _ => Up P)).
    + ju. jw; [by jw|]. jw; [|by jw]. jw. jw. by jw.
    + intros r s1 Hs1. split; [done|]. intros i _ ?. done.
Qed.

(** A submit event is about a job that was submitted and not reported yet. *)
Definition good_event (e : LogEvent) (s : Run) : Prop :=
  eventNumber (event e) = ULOG_SUBMIT ->
  forall name i j, submitEventLogNotes e ≫= scan_node_name = Some name -> _nodeNameHash (dag s) !! name = Some i ->
  nodes s !! i = Some j -> _Status j = STATUS_SUBMITTED /\ _queuedNodeJobProcs j = 0.
Definition good_read (e : option LogEvent) (s : Run) : Prop :=
  match e with Some e => good_event e s | None => True end.

Lemma ProcessOneEvent_books x ls o e s :
  x_node x = None -> good_read e s -> Up (Book d x) s ->
  jp (ProcessOneEvent fuel ls o e false) (fun _ => Up (Book d x)) s.
Proof.
  intros Hx Hg HU. unfold ProcessOneEvent.
  eapply (jp_bind _ _ (fun _ s' => dag s' = dag s /\ view s' = view s)); [by destruct o|].
  intros [] s1 [Hd Hv]. assert (HU1 : Up (Book d x) s1) by (unfold Up; by rewrite Hv).
  destruct o; [|by jw|ju; jw; by jw|by jw|ju; jw; by jw]. destruct e as [e|]; [|jw].
  set (P v := Book d x v /\ (eventNumber (event e) = ULOG_SUBMIT -> forall name i,
    submitEventLogNotes e ≫= scan_node_name = Some name -> _nodeNameHash (dag s1) !! name = Some i -> announced i v)).
  assert (HP : Up P s1).
  { eapply up_mono; [|exact HU1]. intros Hb. split; [done|]. intros Hn name i Hname Hi c Hc. rewrite Hd in Hi.
    simpl in Hc. rewrite lookup_fmap, Hd in Hc. destruct (nodes s !! i) as [j|] eqn:Hj; [|done]. injection Hc as <-.
    exact (Hg Hn name i j Hname Hi Hj). }
  eapply jp_bind; [by apply LogEventNodeLookup_books|]. intros [[i|] sane] s2 [Hs2 Hi].
  2: { jw. eapply up_mono; [|exact Hs2]. by intros []. }
  simpl in Hi. eapply jp_bind_unt; [eauto with sched|exact Hs2|]. intros [go r] s3 Hs3.
  eapply (jp_bind _ _ (fun _ => Up (Book d x))); [|intros [] s4 Hs4; by jw].
  jw; [|eapply up_mono; [|exact Hs3]; by intros []]. apply ProcessEvent_books; [done|].
  eapply up_mono; [|exact Hs3]. intros [Hb Ha]. split; [done|]. intros Hn. destruct (Hi i eq_refl Hn) as (name & ? & ?). by eapply Ha.
Qed.

(** *** The end of a script *)

Lemma RunWaitingScript_books x post s :
  x_node x = None -> Up (Book d x) s -> jp (RunWaitingScript fuel post) (fun _ => Up (Book d x)) s.
Proof.
  intros Hx HU. unfold RunWaitingScript. jw. jw; [by jw|]. ju. st RunScript_books.
Qed.
Lemma ScriptReaper_books x post pid status s :
  x_node x = None -> Up (Book d x) s -> jp (ScriptReaper fuel post pid status) (fun _ => Up (Book d x)) s.
Proof.
  intros Hx HU. unfold ScriptReaper. jw. jw; [|jw]. ju.
  eapply (jp_bind _ _ (fun _ => Up (Book d x))); [unfold script; jw; by jw; jw|]. intros sc s1 Hs1. jw; [jw|].
  eapply jp_bind_unt; [apply unt_upd; intros; apply set_script_core|exact Hs1|]. intros ? s2 Hs2. jw.
  eapply (jp_bind _ _ (fun _ => Up (Book d x))).
  - unfold reaper. destruct post; [st PostScriptReaper_books|st PreScriptReaper_books].
  - intros [] s3 Hs3. eapply jp_bind; [by apply RunWaitingScript_books|]. intros ? s4 Hs4. by jw.
Qed.

(** *** Submitting *)

(** Nodes that were put aside. *)
Definition aside (l : list Z) : excuse := mkExcuse None (fun i => i ∈ l) (fun _ _ => False) (fun _ => False).

Definition ready_node (x : excuse) (i : Z) (v : View) : Prop :=
  Book d (ready_too i x) v /\ exists c, v_nodes v !! i = Some c /\ c_status c = STATUS_READY.

Lemma open_ready x i j s :
  x_node x = None -> nodes s !! i = Some j -> Up (ready_node x i) s -> Up (held d x i STATUS_READY (has_post j)) s.
Proof.
  intros Hx Hj HU. destruct (decide (_Status j = STATUS_READY)) as [Hs|Hs].
  - rewrite <- Hs. eapply (up_open d x i j s s); [done|done|by rewrite Hs..|by rewrite Hs|].
    eapply up_mono; [|exact HU]. by intros [].
  - eapply up_mono; [|exact HU]. intros (_ & c & Hc & Hst). rewrite (view_node _ _ _ Hj) in Hc. by injection Hc as <-.
Qed.

Lemma run_submit_dag_books P i s : Up P s -> jp (run_submit_dag i) (fun b s' => b = true /\ Up P s') s.
Proof.
  intros HP. unfold run_submit_dag. jw. jw; [|by jw]. jw.
  assert (Hsw : forall s, unt (swap_priorities i) s) by (intros; unfold swap_priorities; walk).
  eapply jp_bind_unt; [eauto with sched|exact HP|]. intros ? s1 Hs1.
  eapply (jp_bind _ _ (fun b s' => b = true /\ Up P s')).
  { unfold jp, wp. simpl. split; [apply gw_subdag|exact Hs1]. }
  intros b s2 [-> Hs2]. jw. jw. eapply jp_bind_unt; [eauto with sched|exact Hs2|]. intros ? s3 Hs3. by jw.
Qed.
Lemma unt_fake s : unt fake_condor_submit s.
Proof. unfold fake_condor_submit. walk. Qed.
Lemma unt_submit i s : unt (condor_submit i) s.
Proof. unfold condor_submit. walk. Qed.
Hint Resolve unt_fake unt_submit : sched.

Lemma SubmitNodeJob_books x i id s :
  x_node x = None -> Up (ready_node x i) s ->
  jp (SubmitNodeJob i id) (fun r => match r.1 with SUBMIT_RESULT_NO_SUBMIT => Up (Book d x) | _ => Up (ready_node x i) end) s.
Proof.
  intros Hx HU. unfold SubmitNodeJob. apply jp_bind_node. intros j Hj.
  eapply (jp_bind _ _ (fun _ => Up (ready_node x i))).
  { jw; [|done]. jw. eapply jp_unt; [eauto with sched|done]. }
  intros [] s1 Hs1. ju. eapply jp_bind; [by eapply run_submit_dag_books|]. intros b s2 [-> Hs2]. simpl.
  eapply jp_bind; [by eapply Monitor_books|]. intros b s3 [-> Hs3]. simpl.
  eapply (jp_bind _ _ (fun _ => Up (ready_node x i))).
  { jw; [|by jw]. ju. by jw. }
  intros no_log s4 Hs4. jw.
  - apply jp_bind_upd. intros j4 Hj4. apply (open_ready _ _ _ _ Hx Hj4) in Hs4 as Hh.
    eapply (up_status _ _ _ _ _ _ (TerminateFailure j4)) in Hh; [|exact Hj4|done|done]. simpl in Hh. clear Hs4.
    ju. eapply jp_bind; [by eapply node_failed_books|]. intros ? s5 Hs5. by jw.
  - ju. eapply (jp_bind _ _ (fun _ => Up (ready_node x i))).
    { jw; (eapply jp_unt; [eauto with sched|done]). }
    intros [] s5 Hs5; by jw.
Qed.

Lemma ProcessSuccessfulSubmit_books x i id s :
  x_node x = None -> Up (ready_node x i) s -> jp (ProcessSuccessfulSubmit i id) (fun _ => Up (Book d x)) s.
Proof.
  intros Hx HU. unfold ProcessSuccessfulSubmit. ju. ju. apply jp_bind_upd. intros j Hj. rename H3 into HU1.
  apply (open_ready _ _ _ _ Hx Hj) in HU1 as Hh.
  eapply (up_status _ _ _ _ _ _ (SetStatus j STATUS_SUBMITTED)) in Hh; [|exact Hj|done|done]. simpl in Hh.
  eapply (jp_bind _ _ (fun _ => Up (Book d x))).
  - apply UpdateJobCounts_books. intros s2 Hv. by eapply (up_close _ _ _ STATUS_SUBMITTED); [done|done|exact Hv|exact Hh].
  - intros [] s2 Hs2. ju. jw. jw. eapply jp_unt; [eauto with sched|done].
Qed.

Lemma ProcessFailedSubmit_books x i s :
  x_node x = None -> Up (ready_node x i) s -> jp (ProcessFailedSubmit fuel i) (fun _ => Up (Book d x)) s.
Proof.
  intros Hx HU. unfold ProcessFailedSubmit. ju. ju. ju. apply jp_bind_node. intros j Hj. rename H4 into HU1.
  pose proof (open_ready _ _ _ _ Hx Hj HU1) as Hh. jw.
  - ju. clear Hh. ju. ju. rewrite <- has_post_is. destruct (has_post j).
    + ju. eapply jp_bind; [eapply RunPostScript_books; [eauto..|by right|eassumption]|intros ? s8 Hs8; by jw].
    + apply jp_bind_upd. intros j2 Hj2.
      match goal with Hk : Up (held _ _ _ _ _) ?s |- jp _ _ (?s <| dag ::= _ |>) =>
        eapply (up_status _ _ _ _ _ _ (TerminateFailure j2)) in Hk; [|exact Hj2|done|done]; by eapply node_failed_books end.
  - assert (Hb : Up (Book d (ready_too i x)) s'1) by (eapply up_mono; [|exact HU1]; by intros []).
    jw; [by apply ready_prepend_books|by apply ready_append_books].
Qed.

(** The loop keeps its promise as long as the nodes put aside are accounted for. *)
Lemma submit_turn_books again deferred submits s :
  (forall l n s, Up (Book d (aside (items l))) s -> jp (again l n) (fun r => Up (Book d (aside (items r.1)))) s) ->
  Up (Book d (aside (items deferred))) s ->
  jp (submit_turn fuel again deferred submits) (fun r => Up (Book d (aside (items r.1)))) s.
Proof.
  intros Hagain HU. unfold submit_turn. jw; [by jw|]. jw. jw; [by jw|]. jw; [by jw|]. jw; [by jw|].
  destruct (Next (Rewind (_readyQ (dag s)))) as [q [i|]] eqn:Hnext; [|jw].
  destruct (Next_first _ _ _ Hnext) as (l & Hl & Hdel). apply jp_bind_mod_dag.
  assert (HU1 : Up (Book d (ready_too i (aside (items deferred)))) (s <| dag ::= fun d => d <| _readyQ := DeleteCurrent q |> |>)).
  { eapply (up_view (Book d (aside (items deferred))) _ s); [done|done| |exact HU]. intros Hb.
    apply (book_requeue d (aside (items deferred)) _ (view s) (items (DeleteCurrent q))); [|done].
    split; [done|]. split; [done|]. split; [done|]. simpl. rewrite Hl, Hdel. intros k c _ _ _.
    rewrite elem_of_cons. naive_solver. }
  apply jp_bind_node. intros j Hj. jw; [jw|].
  assert (HU2 : Up (ready_node (aside (items deferred)) i) (s <| dag ::= fun d => d <| _readyQ := DeleteCurrent q |> |>)).
  { eapply up_mono; [|exact HU1]. intros Hb. split; [done|]. exists (core j). split; [by apply view_node|]. simpl.
    destruct (status_is (_Status j) STATUS_READY) eqn:Hst; [|done]. by apply bool_decide_eq_true in Hst. }
  jw.
  - apply Hagain. eapply up_mono; [|exact HU1]. apply book_excuse. split; [done|]. split; [done|]. split; [done|]. simpl.
    intros k c _ _ _ [?|[?| ->]]; [by left|right..]; apply (in_InsertAt _ _ _ 0); auto.
  - eapply jp_bind; [by apply (SubmitNodeJob_books (aside (items deferred)))|]. intros [[] id] s1 Hs1; simpl in Hs1.
    + eapply jp_bind; [by apply (ProcessSuccessfulSubmit_books (aside (items deferred)))|]. intros ? s2 Hs2. by apply Hagain.
    + eapply jp_bind; [by apply (ProcessFailedSubmit_books (aside (items deferred)))|]. intros ? s2 Hs2. by jw.
    + by apply Hagain.
Qed.
Lemma submit_loop_books n deferred submits s :
  Up (Book d (aside (items deferred))) s ->
  jp (submit_loop fuel n deferred submits) (fun r => Up (Book d (aside (items r.1)))) s.
Proof.
  revert deferred submits s. induction n as [|n IH]; intros deferred submits s HU; by apply submit_turn_books.
Qed.

Lemma book_aside l i v : Book d (aside (i :: l)) v -> Book d (ready_too i (aside l)) v.
Proof.
  apply book_excuse. split; [done|]. split; [done|]. split; [done|]. simpl. intros k c _ _ _. rewrite elem_of_cons. naive_solver.
Qed.
Lemma RunAllWaitingScripts_books x n post s :
  x_node x = None -> Up (Book d x) s -> jp (RunAllWaitingScripts fuel n post) (fun _ => Up (Book d x)) s.
Proof.
  intros Hx. revert s. induction n as [|n IH]; intros s HU; simpl; [done|].
  eapply jp_bind; [by apply RunWaitingScript_books|]. intros r s1 Hs1. jw; [by apply IH|done].
Qed.

Lemma SubmitReadyJobs_books s :
  Up (Book d (aside [])) s -> jp (SubmitReadyJobs fuel) (fun _ => Up (Book d (aside []))) s.
Proof.
  intros HU. unfold SubmitReadyJobs. jw. eapply (jp_bind _ _ (fun _ => Up (Book d (aside [])))).
  { jw; [by jw|]. eapply jp_unt; [eauto with sched|done]. }
  intros now s1 Hs1. jw; [by jw|]. jw. ju. ju. jw. jw; [by jw|].
  eapply (jp_bind _ _ (fun _ => Up (Book d (aside [])))).
  { jw; [|done]. jw. by apply RunAllWaitingScripts_books. }
  intros [] s2 Hs2. jw. eapply jp_bind; [by apply submit_loop_books|]. intros [deferred submits] s3 Hs3. simpl in Hs3.
  eapply (jp_bind _ _ (fun _ => Up (Book d (aside [])))); [|intros ? s4 Hs4; by jw].
  apply (jp_for_each _ _ (fun l => Up (Book d (aside l)))); [|done].
  intros i l s4 _ Hs4. apply ready_prepend_books. eapply up_mono; [|exact Hs4]. apply book_aside.
Qed.

(** *** Starting *)

(** The nodes marked DONE that have not been visited. *)
Definition marked (l : list Z) : excuse := mkExcuse None (fun _ => True) (fun _ _ => False) (fun i => i ∈ l).

Lemma Bootstrap_books s :
  _jobs (dag s) = _jobs d -> Up (Book d (marked (_jobs d))) s -> jp (Bootstrap fuel None) (fun _ => Up (Book d (aside []))) s.
Proof.
  intros Hjobs HU. unfold Bootstrap. jw. rewrite Hjobs.
  eapply (jp_bind _ _ (fun _ => Up (Book d (marked [])))).
  { apply (jp_for_each _ _ (fun l => Up (Book d (marked l)))); [|done]. intros i l s1 _ Hs1.
    assert (Hs1' : Up (Book d (done_too i (marked l))) s1).
    { eapply up_mono; [|exact Hs1]. apply book_excuse. split; [done|]. split; [done|]. split; [|done].
      intros k. simpl. rewrite elem_of_cons. naive_solver. }
    apply jp_bind_node. intros j Hj. jw.
    - eapply TerminateJob_boot; [eauto..|done|done|exact Hj| |exact Hs1']. by eapply bool_decide_eq_true.
    - eapply up_mono; [|exact Hs1']. intros [K1 K2 K3 K4 P1 P2 P3 P4 K5 K6 K7 K8 K9 K10 K11 K12 C1 C2]. split; try done.
      intros k c Hk Hx Hs. destruct (K8 k c Hk Hx Hs) as [?|[?| ->]]; [by left|by right|].
      rewrite (view_node _ _ _ Hj) in Hk. injection Hk as <-. simpl in Hs. unfold status_is in *.
      by rewrite bool_decide_true in *. }
  intros [] s1 Hs1. apply jp_bind_ret. simpl.
  eapply (jp_bind _ _ (fun _ => Up (Book d (aside [])))); [|intros ? s2 Hs2; by jw].
  apply (jp_for_each _ _ (fun l => Up (Book d (aside l)))).
  - intros i l s2 _ Hs2. apply jp_bind_node. intros j Hj. 
    assert (Hs2' : Up (Book d (ready_too i (aside l))) s2) by (eapply up_mono; [|exact Hs2]; apply book_aside).
    jw; [eapply jp_bind; [by eapply StartNode_books; [|exact Hs2']|]; intros ? s3 Hs3; by jw|].
    eapply up_mono; [|exact Hs2']. apply (book_not_ready d (aside l) i (core j)); [by apply view_node|].
    simpl. unfold status_is, QueueIsEmpty in *. simpl in *. do 2 (case_bool_decide; auto).
  - eapply up_mono; [|exact Hs1]. intros Hb. eapply book_excuse; [|exact Hb]. split; [done|]. split; [done|].
    split; [by intros i ?%elem_of_nil|]. simpl. intros i c Hc _ _ _. right. apply (wf_jobs d Hwf).
    destruct (book_fix _ _ i c Hb Hc) as (j0 & Hj0 & _). by exists j0.
Qed.
End Handlers.
End Progress.

(** ** A DAG that can be run *)

Record unrun (d : Dag) : Prop := mkUnrun {
  r_fresh : fresh d;
  r_marks : forall i j, _nodeIDHash d !! i = Some j -> _visited j = false /\ _dfsOrder j = -1;
  r_waiting : forall i j, _nodeIDHash d !! i = Some j -> _waiting j ⊆ _parents j;
  r_status : forall i j, _nodeIDHash d !! i = Some j ->
               _Status j = STATUS_READY \/ _Status j = STATUS_DONE \/ _Status j = STATUS_NOT_READY /\ _final_job d = Some i;
  r_final : forall f, _final_job d = Some f -> exists j, _nodeIDHash d !! f = Some j /\ _children j = ∅;
  r_counts : _preRunNodeCount d = 0 /\ _postRunNodeCount d = 0 /\ _numNodesFailed d = 0;
  r_nodup : NoDup (_jobs d)
}.

Lemma count_none (st : tally) (m : gmap Z Core) : (forall i c, m !! i = Some c -> ~ counts_as st c) -> count None st m = 0.
Proof.
  intros Hm. unfold count. replace (with_status None st m) with (∅ : gmap Z Core); [done|]. symmetry. apply map_empty. intros i.
  apply map_lookup_filter_None_2. destruct (m !! i) as [c|] eqn:Hc; [right|by left]. intros c' ? [Hs _]. simplify_eq.
  exact (Hm i c' Hc Hs).
Qed.

Lemma unrun_Book d allow : unrun d -> Book d (marked (_jobs d)) (view (new_Run d allow)).
Proof.
  intros [Hf Hm Hw Hs Hfin (Hc1 & Hc2 & Hc3) Hnd].
  assert (Hn : forall i c, (core <$> _nodeIDHash d) !! i = Some c -> exists j, _nodeIDHash d !! i = Some j /\ c = core j).
  { intros i c. rewrite lookup_fmap. destruct (_nodeIDHash d !! i) as [j|]; [|done]. intros [= <-]. eauto. }
  assert (Hz : forall st, st <> STATUS_READY -> st <> STATUS_DONE -> st <> STATUS_NOT_READY ->
    forall p, p = by_status st \/ (exists g, p = by_cat g) /\ st = STATUS_SUBMITTED -> count None p (core <$> _nodeIDHash d) = 0).
  { intros st H1 H2 H3 p Hp. apply count_none. intros i c (j & Hj & ->)%Hn Hc.
    assert (_Status j = st) by (destruct Hp as [->|[[g ->] ->]]; [exact Hc|apply Hc]).
    destruct (Hs i j Hj) as [|[|[]]]; congruence. }
  assert (Hz0 := fun (st : status_t) H1 H2 H3 => Hz st H1 H2 H3 st (or_introl eq_refl)).
  destruct (f_counts _ Hf) as [Hc4 Hc5].
  split; simpl; try done; try (rewrite Hz0 by done; done).
  - apply map_eq. intros i. rewrite !lookup_fmap. by destruct (_nodeIDHash d !! i).
  - intros i c j0 (j & Hj & ->)%Hn Hj0. simplify_eq. simpl. by eapply Hw.
  - intros. by right.
  - intros i c p cp _ _ (j & Hj & ->)%Hn Hcnt. simpl in Hcnt. destruct (f_nodes _ Hf p j Hj) as (_ & _ & ? & _). congruence.
  - intros i c (j & Hj & ->)%Hn _ Hcnt. simpl in Hcnt. destruct (f_nodes _ Hf i j Hj) as (_ & _ & ? & _). congruence.
  - intros i c (j & Hj & ->)%Hn _ _. right. apply (wf_jobs d (f_graph _ Hf)). eauto.
  - intros i c (j & Hj & ->)%Hn _ Hq. simpl in Hq. destruct (f_nodes _ Hf i j Hj) as (_ & ? & _). congruence.
  - intros i c (j & Hj & ->)%Hn Hst. simpl in Hst. destruct (Hs i j Hj) as [|[|[_ ?]]]; [congruence|congruence|done].
  - intros g t Ht. rewrite (f_throttles _ Hf g t Ht). symmetry. apply (Hz STATUS_SUBMITTED); eauto.
Qed.

(** ** The states of a run *)

Section Reachable.
Context `{Config} `{World} (fuel : nat) (d : Dag) (allow : Z).

Inductive reachable : Run -> Prop :=
| reach_boot b s : Bootstrap fuel None (new_Run d allow) = RDone b s -> reachable s
| reach_submit s n s' : reachable s -> SubmitReadyJobs fuel s = RDone n s' -> reachable s'
| reach_event s logsource o e r s' :
    reachable s -> good_read e s -> ProcessOneEvent fuel logsource o e false s = RDone r s' -> reachable s'
| reach_script s post pid status s' : reachable s -> ScriptReaper fuel post pid status s = RDone tt s' -> reachable s'.
End Reachable.

Lemma jp_run {A} (m : M A) Q s a s' : jp m Q s -> m s = RDone a s' -> Q a s'.
Proof. unfold jp, wp. intros Hm He. by rewrite He in Hm. Qed.
Lemma pres_done {A} fz I R (m : M A) Q s a s' : pres fz I R m Q s -> m s = RDone a s' -> I s'.
Proof. unfold pres, wp, kept. intros Hm He. rewrite He in Hm. by apply Hm. Qed.

Lemma reachable_books `{Config} `{World} `{!GoodWorld} fuel d allow rec s :
  unrun d -> (rec = false -> sensible_limits d) -> reachable fuel d allow s ->
  Up (Book d (aside [])) s /\ Inv (marked_done d) rec s.
Proof.
  intros Hu Hlim. pose proof (f_graph _ (r_fresh _ Hu)) as Hwf.
  induction 1 as [b s Hr|s n s' _ [IH HI] Hr|s ls o e r s' _ [IH HI] Hg Hr|s post pid st s' _ [IH HI] Hr].
  - split.
    + eapply (jp_run _ _ _ _ _ (Bootstrap_books d Hwf fuel (new_Run d allow) eq_refl (or_intror (unrun_Book d allow Hu))) Hr).
    + eapply pres_done; [|exact Hr]. apply Bootstrap_keeps; [by intros []|]. apply fresh_Inv; [apply Hu|done].
  - split; [exact (jp_run _ _ _ _ _ (SubmitReadyJobs_books d Hwf fuel s IH) Hr)|].
    eapply pres_done; [|exact Hr]. by apply SubmitReadyJobs_keeps.
  - split; [exact (jp_run _ _ _ _ _ (ProcessOneEvent_books d Hwf fuel (aside []) ls o e s eq_refl Hg IH) Hr)|].
    eapply pres_done; [|exact Hr]. by apply ProcessOneEvent_keeps.
  - split; [exact (jp_run _ _ _ _ _ (ScriptReaper_books d Hwf fuel (aside []) post pid st s eq_refl IH) Hr)|].
    eapply pres_done; [|exact Hr]. by apply ScriptReaper_keeps.
Qed.

(** ** Nothing is forgotten *)

(** The graph is that of the DAG file. *)
Lemma book_graph d x s :
  wf_graph d -> Book d x (view s) -> wf_graph (dag s) /\ forall u v, edge (dag s) u v <-> edge d u v.
Proof.
  intros Hwf Hb.
  assert (Hf : forall i j, nodes s !! i = Some j -> exists j0, _nodeIDHash d !! i = Some j0 /\ fixed j = fixed j0).
  { intros i j Hj. destruct (book_fixed d x s i j Hb Hj) as (j0 & ? & ? & _). eauto. }
  assert (Hg : forall i j0, _nodeIDHash d !! i = Some j0 -> exists j, nodes s !! i = Some j).
  { intros i j0 Hj0. pose proof (f_equal (.!! i) (q_fix _ _ _ Hb)) as He. simpl in He. rewrite !lookup_fmap, Hj0 in He.
    destruct (nodes s !! i); [eauto|done]. }
  assert (He : forall u v, edge (dag s) u v <-> edge d u v).
  { intros u v. split.
    - intros (j & Hj & Hv). destruct (Hf u j Hj) as (j0 & Hj0 & Hfx). exists j0. by rewrite <- (fixed_children _ _ Hfx).
    - intros (j0 & Hj0 & Hv). destruct (Hg u j0 Hj0) as [j Hj]. exists j. split; [done|].
      destruct (Hf u j Hj) as (j1 & Hj1 & Hfx). assert (j1 = j0) as -> by congruence. by rewrite (fixed_children _ _ Hfx). }
  split; [|done]. split.
  - intros i j Hj. by eapply book_id.
  - intros i. pose proof (q_jobs _ _ _ Hb) as Hjobs. simpl in Hjobs. rewrite Hjobs, (wf_jobs d Hwf). split; intros [j Hj].
    + destruct (Hg i j Hj). eauto.
    + destruct (Hf i j Hj) as (? & ? & _). eauto.
  - intros u v. rewrite He, (wf_sym d Hwf). split; intros (j & Hj & Hu).
    + destruct (Hg v j Hj) as [j1 Hj1]. destruct (Hf v j1 Hj1) as (j2 & Hj2 & Hfx). assert (j2 = j) as -> by congruence. exists j1.
      by rewrite (fixed_parents _ _ Hfx).
    + destruct (Hf v j Hj) as (j0 & Hj0 & Hfx). exists j0. by rewrite <- (fixed_parents _ _ Hfx).
Qed.

(** A node that is neither done nor the final node. *)
Definition left_over (s : Run) : gmap Z Job :=
  filter (fun p => countedAsDone p.2 = false /\ _final_job (dag s) <> Some p.1) (nodes s).

(** With nothing going on and nothing failed, it waits for another one. *)
Lemma left_over_waits d s i j :
  wf_graph d -> (forall f, _final_job d = Some f -> exists j, _nodeIDHash d !! f = Some j /\ _children j = ∅) ->
  Book d (aside []) (view s) ->
  FinishedRunning (dag s) false = true -> _numNodesFailed (dag s) = 0 ->
  left_over s !! i = Some j -> exists p, p ∈ dom (left_over s) /\ edge d p i.
Proof.
  intros Hwf Hfin Hb Hrun Hfail (Hj & Hcnt & Hnf)%map_lookup_filter_Some. simpl in Hcnt, Hnf.
  unfold FinishedRunning in Hrun. simpl in Hrun. apply andb_true_iff in Hrun as [Hrun Hscripts%Z.eqb_eq].
  apply andb_true_iff in Hrun as [Hsub%Z.eqb_eq Hready%Z.eqb_eq].
  pose proof (q_pre _ _ _ Hb) as Qpre. pose proof (q_post _ _ _ Hb) as Qpost. pose proof (q_submitted _ _ _ Hb) as Qsub.
  pose proof (q_failed _ _ _ Hb) as Qfail. simpl in Qpre, Qpost, Qsub, Qfail. pose proof (view_node _ _ _ Hj) as Hc.
  assert (Hst : _Status j = STATUS_READY).
  { assert (Hz : forall st : status_t, count None st (core <$> nodes s) = 0 -> _Status j <> st).
    { intros st Hz. exact (count_zero st _ i (core j) Hz Hc). }
    assert (0 <= count None STATUS_PRERUN (core <$> nodes s)) by (unfold count; lia).
    assert (0 <= count None STATUS_POSTRUN (core <$> nodes s)) by (unfold count; lia).
    destruct (_Status j) eqn:Hs; [|done|..].
    - destruct Hnf. exact (q_notready _ _ _ Hb i (core j) Hc Hs).
    - exfalso. apply (Hz STATUS_PRERUN); [lia|done].
    - exfalso. apply (Hz STATUS_SUBMITTED); [lia|done].
    - exfalso. apply (Hz STATUS_POSTRUN); [lia|done].
    - destruct (q_done _ _ _ Hb i (core j) Hc) as [He|He]; [done|done| |done]. simpl in He. congruence.
    - exfalso. apply (Hz STATUS_ERROR); [lia|done]. }
  destruct (decide (_waiting j = ∅)) as [Hw|Hw].
  { exfalso. destruct (q_ready _ _ _ Hb i (core j) Hc) as [Hin|Hin]; [done..| |by apply elem_of_nil in Hin].
    simpl in Hin. unfold Number in Hready. destruct (items (_readyQ (dag s))); [by apply elem_of_nil in Hin|done]. }
  apply set_choose_L in Hw as [p Hp].
  destruct (book_fix d _ _ i (core j) Hb Hc) as (j0 & Hj0 & _).
  pose proof (q_sub _ _ _ Hb i (core j) j0 Hc Hj0 p Hp) as Hpar.
  assert (He : edge d p i) by (apply (wf_sym d Hwf); eauto). exists p. split; [|done].
  destruct (proj2 (book_graph d _ s Hwf Hb) p i) as [_ He']. destruct (He' He) as (jp & Hjp & _).
  apply elem_of_dom. exists jp. apply map_lookup_filter_Some. split; [done|]. simpl. split.
  - destruct (countedAsDone jp) eqn:Hcp; [|done]. exfalso. exact (q_wait _ _ _ Hb i (core j) p (core jp) Hc Hp (view_node _ _ _ Hjp) Hcp).
  - pose proof (q_final _ _ _ Hb) as Hfj. simpl in Hfj. rewrite Hfj. intros Hpf. destruct He as (jp0 & Hjp0 & Hch).
    destruct (Hfin p Hpf) as (jp1 & Hjp1 & Hnone). simplify_eq. set_solver.
Qed.

(** The final node has not been started. *)
Definition final_waits (s : Run) : Prop :=
  forall f j, _final_job (dag s) = Some f -> nodes s !! f = Some j -> _Status j = STATUS_NOT_READY.
Lemma final_waits_started s : final_waits s -> ~ started (view s).
Proof.
  intros Hf (f & c & Hfin & Hc & Hs). simpl in Hfin, Hc. rewrite lookup_fmap in Hc.
  destruct (nodes s !! f) as [j|] eqn:Hj; [|done]. injection Hc as <-. by apply Hs, (Hf f j).
Qed.

(** When nothing is left over, every node has been counted. *)
Lemma nothing_left d s :
  unrun d -> Book d (aside []) (view s) -> _numNodesDone (dag s) = done_count (nodes s) -> final_waits s ->
  left_over s = ∅ -> DoneSuccess (dag s) false = true.
Proof.
  intros Hu Hb Hdone Hfw Hnone. pose proof (f_graph _ (r_fresh _ Hu)) as Hwf.
  destruct (book_graph d _ s Hwf Hb) as [Hwf' _].
  pose proof (q_jobs _ _ _ Hb) as Hjobs. pose proof (q_final _ _ _ Hb) as Hfin. simpl in Hjobs, Hfin.
  assert (Hlen : length (_jobs (dag s)) = size (nodes s)).
  { rewrite <- size_dom. replace (dom (nodes s)) with (list_to_set (_jobs (dag s)) : gset Z).
    - rewrite size_list_to_set; [done|]. rewrite Hjobs. apply Hu.
    - apply set_eq. intros i. rewrite elem_of_list_to_set, elem_of_dom. apply (wf_jobs _ Hwf'). }
  assert (Hall : forall i j, nodes s !! i = Some j -> _final_job (dag s) <> Some i -> countedAsDone j = true).
  { intros i j Hj Hnf. destruct (countedAsDone j) eqn:Hc; [done|]. pose proof (f_equal (.!! i) Hnone) as Hl.
    assert (left_over s !! i = Some j) as Hl' by (by apply map_lookup_filter_Some_2). rewrite Hl', lookup_empty in Hl. done. }
  unfold DoneSuccess, NumNodesDone, NumNodes. simpl. rewrite Hdone, Hlen. unfold done_count, counted_nodes, HasFinalNode.
  destruct (_final_job (dag s)) as [f|] eqn:Hf.
  - rewrite bool_decide_true by eauto. destruct (r_final _ Hu f) as (j0 & Hj0 & _); [congruence|].
    assert (Hnode : exists j, nodes s !! f = Some j) by (apply (wf_jobs _ Hwf'); rewrite Hjobs; apply (wf_jobs _ Hwf); eauto).
    destruct Hnode as [j Hj]. pose proof (Hfw f j Hf Hj) as Hst.
    assert (Hnd : final_is_done (dag s) = false) by (unfold final_is_done; rewrite Hf; simpl; by rewrite Hj, Hst).
    assert (Hncnt : countedAsDone j = false).
    { destruct (countedAsDone j) eqn:Hc; [|done]. pose proof (q_counted _ _ _ Hb f (core j) (view_node _ _ _ Hj)) as Hd.
      simpl in Hd. rewrite Hst in Hd. discriminate Hd; done. }
    rewrite Hnd. simpl.
    assert (filter (fun p => countedAsDone p.2 = true) (nodes s) = delete f (nodes s)) as ->.
    { apply map_eq. intros i. destruct (decide (i = f)) as [->|Hne].
      - rewrite lookup_delete_eq. apply map_lookup_filter_None_2. right. intros j' Hj'. simplify_eq. simpl. congruence.
      - rewrite lookup_delete_ne by done. destruct (nodes s !! i) as [k|] eqn:Hk.
        + apply map_lookup_filter_Some_2; [done|]. simpl. apply (Hall i k Hk). congruence.
        + apply map_lookup_filter_None_2. by left. }
    rewrite map_size_delete_Some by eauto. assert (0 < size (nodes s))%nat.
    { rewrite <- (insert_delete_id _ _ _ Hj). rewrite map_size_insert_None by apply lookup_delete_eq. lia. }
    replace (_ =? _) with true; [done|]. symmetry. apply Z.eqb_eq. lia.
  - rewrite bool_decide_false by (by intros []). simpl.
    assert (filter (fun p => countedAsDone p.2 = true) (nodes s) = nodes s) as ->.
    { apply map_filter_id. intros i k Hk. simpl. by apply (Hall i k Hk). }
    by rewrite Z.eqb_refl.
Qed.

(** C3 (liveness): no node is forgotten. Take a run, without recovery, of a DAG none of whose nodes has
    been started, in a world where log files can be monitored and are not refused for lying on NFS and
    nested DAGs can be prepared, and in which a submit event in the log is about a node whose job is
    submitted and not yet reported (one job per cluster). Between handlers, and as long as the final
    node has not been started: when nothing is submitted, ready or running, no node has failed and the
    DAG is not complete, isCycle() reports a cycle, so that in these conditions condor_event_timer()
    does not end the DAG for an unknown reason. (When a log cannot be monitored or a nested DAG cannot
    be prepared it does.) *)
Theorem dag_not_stuck `{Config} `{World} `{!GoodWorld} fuel d allow s :
  unrun d -> reachable fuel d allow s -> final_waits s ->
  FinishedRunning (dag s) false = true -> DoneFailed (dag s) false = false -> DoneSuccess (dag s) false = false ->
  exists d', isCycle (dag s) = Some (d', true).
Proof.
  intros Hu Hr Hfw Hrun Hnf Hns. destruct (reachable_books fuel d allow true s Hu ltac:(done) Hr) as [[Hst|Hb] HI].
  { by destruct (final_waits_started s Hfw). }
  pose proof (f_graph _ (r_fresh _ Hu)) as Hwf. destruct (book_graph d _ s Hwf Hb) as [Hwf' Hedge].
  assert (Hfail : _numNodesFailed (dag s) = 0).
  { unfold DoneFailed in Hnf. rewrite Hrun in Hnf. simpl in Hnf. apply Z.ltb_ge in Hnf.
    pose proof (q_failed _ _ _ Hb) as Qf. simpl in Qf. unfold count in Qf. lia. }
  assert (Hcyc : exists n, tc (edge d) n n).
  { apply (finite_descent_cycle _ (dom (left_over s))).
    - intros He. apply dom_empty_iff_L in He. rewrite (nothing_left d s Hu Hb (i_done _ _ _ HI) Hfw He) in Hns. done.
    - intros i [j Hj]%elem_of_dom. eapply left_over_waits; eauto. apply Hu. }
  destruct (isCycle_total_iff (dag s) Hwf') as (d' & b & Hc & Hb' & _).
  { intros i j Hj. destruct (book_fixed d _ s i j Hb Hj) as (j0 & Hj0 & _ & -> & ->). by eapply r_marks. }
  exists d'. rewrite Hc. destruct b; [done|]. exfalso. destruct Hcyc as [n Hn]. apply (proj1 Hb' eq_refl n).
  assert (Htc : forall u v, tc (edge d) u v -> tc (edge (dag s)) u v); [|by apply Htc].
  clear -Hedge. intros u v Hn. induction Hn as [u v He|u v w He _ IH]; [apply tc_once, Hedge, He|].
  eapply tc_l; [apply Hedge, He|exact IH].
Qed.

(** ** The throttles *)

(** The nodes whose jobs are submitted, and those of a category. *)
Definition submitted (s : Run) : gmap Z Job := filter (fun p => _Status p.2 = STATUS_SUBMITTED) (nodes s).
Definition submitted_in (category : bytes) (s : Run) : gmap Z Job :=
  filter (fun p => _Status p.2 = STATUS_SUBMITTED /\ _throttleInfo p.2 = Some category) (nodes s).

Lemma count_size p (P : Z * Job -> Prop) `{!forall q, Decision (P q)} (m : gmap Z Job) :
  (forall i j, counts_as p (core j) <-> P (i, j)) -> count None p (core <$> m) = Z.of_nat (size (filter P m)).
Proof.
  intros HP. unfold count, with_status. rewrite map_filter_fmap, map_size_fmap. do 2 f_equal.
  apply map_filter_ext. intros i j _. simpl. rewrite (HP i j). naive_solver.
Qed.

(** C10 (bounds): the throttles are respected. In a run without recovery of a DAG none of whose nodes
    has been started and whose limits are sensible, in a world where logs can be monitored and nested
    DAGs prepared, and with submit events only for nodes whose job is submitted and not yet reported
    (one job per cluster): between handlers, until the final node is started, the counter of submitted
    jobs is the number of nodes in STATUS_SUBMITTED; that number does not exceed -maxjobs, and the
    number of submitted nodes of a category does not exceed its MAXJOBS line. *)
Theorem throttles_respected `{Config} `{World} `{!GoodWorld} fuel d allow s :
  unrun d -> sensible_limits d -> reachable fuel d allow s -> final_waits s ->
  _numJobsSubmitted (dag s) = Z.of_nat (size (submitted s)) /\
  (_maxJobsSubmitted <> 0 -> Z.of_nat (size (submitted s)) <= _maxJobsSubmitted) /\
  (forall category t, _catThrottles d !! category = Some t -> isSet t = true ->
     Z.of_nat (size (submitted_in category s)) <= _maxJobs t).
Proof.
  intros Hu Hlim Hr Hfw. destruct (reachable_books fuel d allow false s Hu ltac:(done) Hr) as [[Hst|Hb] HI].
  { by destruct (final_waits_started s Hfw). }
  destruct (i_throttle _ _ _ HI eq_refl) as [Hmax Hcat].
  assert (Hn : _numJobsSubmitted (dag s) = Z.of_nat (size (submitted s))).
  { pose proof (q_submitted _ _ _ Hb) as Hq. simpl in Hq. rewrite Hq. by apply count_size. }
  split; [done|]. split; [intros Hm; rewrite <- Hn; by apply Hmax|]. intros g t Ht Hset.
  pose proof (f_equal (.!! g) (q_limits _ _ _ Hb)) as Hl. simpl in Hl. rewrite !lookup_fmap, Ht in Hl.
  destruct (_catThrottles (dag s) !! g) as [t'|] eqn:Ht'; [|done]. injection Hl as Hl. rewrite <- Hl.
  pose proof (q_cats _ _ _ Hb g t' Ht') as Hq. simpl in Hq. unfold submitted_in.
  rewrite <- (count_size (by_cat g)) by done. rewrite <- Hq. apply (Hcat g t' Ht'). unfold isSet in *. by rewrite Hl.
Qed.
