(* ===== verification/DagStart.v ===== *)
(** From building to running: a DAG that the lines of its input file have built is one the scheduler
    can start from, so what DagSafety.v, DagTermination.v and DagProgress.v show holds of every DAG
    that was read. *)

From S2P Require Import Prelude CondorId PriorityList DagJob Dag DagCycle DagBuild.
From S2P Require Import HashTable CheckEvents DagRun DagLogic DagSafety DagTermination DagBooks DagProgress.

Open Scope Z_scope.

(** A node that has not been started. *)
Definition resting (j : Job) : Prop :=
  IsActive j = false /\ _queuedNodeJobProcs j = 0 /\ countedAsDone j = false /\ retries j = 0 /\ 0 <= retry_max j /\
  (_final j = true -> retry_max j = 0).

(** Nothing of the DAG has run yet. *)
Record quiet (d : Dag) : Prop := mkQuiet {
  d_nodes : forall i j, _nodeIDHash d !! i = Some j -> resting j;
  d_ready : items (_readyQ d) = [];
  d_counts : _numNodesDone d = 0 /\ _numJobsSubmitted d = 0;
  d_throttles : forall category t, _catThrottles d !! category = Some t -> _currentJobs t = 0;
  d_status : forall i j, _nodeIDHash d !! i = Some j ->
               _Status j = STATUS_READY \/ _Status j = STATUS_DONE \/ _Status j = STATUS_NOT_READY /\ _final_job d = Some i;
  d_final : forall f, _final_job d = Some f -> exists j, _nodeIDHash d !! f = Some j /\ _final j = true;
  d_scripts : _preRunNodeCount d = 0 /\ _postRunNodeCount d = 0 /\ _numNodesFailed d = 0
}.
(** And its own nodes can be found by their names. *)
Record idle (d : Dag) : Prop := mkIdle {
  d_quiet : quiet d;
  d_names : forall i j, i ∈ _jobs d -> _nodeIDHash d !! i = Some j -> _nodeNameHash d !! _jobName j = Some i;
  d_nodup : NoDup (_jobs d)
}.

Lemma fresh_of_built d next : built d next -> idle d -> fresh d.
Proof.
  intros Hb [[Hn Hr Hc Ht _ _ _] Hm _]. split; try done; [apply Hb|apply (b_done _ _ Hb)| |].
  - intros i j (? & ? & ? & ? & ? & ?)%Hn. split_and!; try done. lia.
  - intros i j Hj. apply Hm; [|done]. apply (wf_jobs _ (b_graph _ _ Hb)). eauto.
Qed.
Lemma unrun_of_built d next : built d next -> idle d -> unrun d.
Proof.
  intros Hb Hi. split; [by eapply fresh_of_built|apply Hb|apply Hb|apply Hi| |apply Hi|apply Hi].
  intros f Hf. destruct (d_final _ (d_quiet _ Hi) f Hf) as (j & Hj & Hfin). exists j. split; [done|]. by apply (b_final _ _ Hb f j).
Qed.

Lemma idle_new : idle new_Dag.
Proof.
  split; [split|..]; try done; try (intros ?? Hl; simpl in Hl; by rewrite lookup_empty in Hl). apply NoDup_nil_2.
Qed.

(** What a line may do to a node: nothing that looks like running it. *)
Record unstarted (j j' : Job) : Prop := mkUnstarted {
  u_active : IsActive j = false -> IsActive j' = false;
  u_procs : _queuedNodeJobProcs j' = _queuedNodeJobProcs j;
  u_counted : countedAsDone j' = countedAsDone j;
  u_retries : retries j' = retries j;
  u_max : 0 <= retry_max j -> 0 <= retry_max j';
  u_fmax : _final j = true -> retry_max j' = retry_max j;
  u_name : _jobName j' = _jobName j;
  u_final : _final j' = _final j;
  u_status : _Status j' = _Status j \/ _Status j' = STATUS_DONE
}.
#[export] Instance unstarted_preorder : PreOrder unstarted.
Proof.
  split; [by split; try left|]. intros a b c [A1 A2 A3 A4 A5 A6 A7 A8 A9] [B1 B2 B3 B4 B5 B6 B7 B8 B9].
  split; auto; try congruence.
  - intros Hf. rewrite B6 by congruence. auto.
  - destruct B9 as [->|]; auto.
Qed.

(** Everything but the nodes. *)
Definition same_rest (d d' : Dag) : Prop :=
  _nodeNameHash d' = _nodeNameHash d /\ _readyQ d' = _readyQ d /\ _numNodesDone d' = _numNodesDone d /\
  _numJobsSubmitted d' = _numJobsSubmitted d /\ _catThrottles d' = _catThrottles d /\ _final_job d' = _final_job d /\
  _preRunNodeCount d' = _preRunNodeCount d /\ _postRunNodeCount d' = _postRunNodeCount d /\
  _numNodesFailed d' = _numNodesFailed d /\ _jobs d' = _jobs d.

Lemma unstarted_resting j j' : unstarted j j' -> resting j -> resting j'.
Proof.
  intros [] (? & ? & ? & ? & ? & ?). split_and!; auto; try congruence. intros Hf. rewrite u_final0 in Hf. rewrite u_fmax0; auto.
Qed.

Lemma idle_nodes d d' :
  idle d ->
  (forall i j', _nodeIDHash d' !! i = Some j' -> exists j, _nodeIDHash d !! i = Some j /\ unstarted j j') ->
  (forall i, is_Some (_nodeIDHash d !! i) -> is_Some (_nodeIDHash d' !! i)) ->
  same_rest d d' -> idle d'.
Proof.
  intros [[Hn Hr Hc Ht Hs Hf Hx] Hm Hd] Hnode Hthere (E1 & E2 & E3 & E4 & E5 & E6 & E7 & E8 & E9 & E10).
  split; [split|..]; rewrite ?E2, ?E3, ?E4, ?E5, ?E6, ?E7, ?E8, ?E9, ?E10; try done.
  - intros i j' (j & Hj & Hu)%Hnode. eapply unstarted_resting; eauto.
  - intros i j' (j & Hj & [])%Hnode. destruct u_status0 as [->|]; [by apply Hs|auto].
  - intros f (j & Hj & Hfj)%Hf. destruct (Hthere f) as [j' Hj']; [eauto|]. exists j'. split; [done|].
    destruct (Hnode f j' Hj') as (j1 & Hj1 & []). congruence.
  - intros i j' Hi (j & Hj & [])%Hnode. rewrite E1, u_name0. by apply Hm.
Qed.

Lemma idle_put d i j j' :
  idle d -> _nodeIDHash d !! i = Some j -> unstarted j j' -> idle (put_node d i j').
Proof.
  intros Hd Hj Hu. eapply idle_nodes; [exact Hd| | |done].
  - intros k j2. simpl. destruct (decide (k = i)) as [->|Hne].
    + rewrite lookup_insert_eq. intros [= <-]. eauto.
    + rewrite lookup_insert_ne by done. intros Hk. exists j2. split; [done|reflexivity].
  - intros k Hk. simpl. destruct (decide (k = i)) as [->|Hne]; [by rewrite lookup_insert_eq|by rewrite lookup_insert_ne].
Qed.

Lemma add_child_unstarted c j : unstarted j (add_child c j).
Proof. by split; try left. Qed.
Lemma add_parent_unstarted p b j : unstarted j (add_parent p b j).
Proof. by split; try left. Qed.

(** ** The lines *)

Lemma AddJob_idle d j d' :
  (forall i, i ∈ _jobs d -> is_Some (_nodeIDHash d !! i)) -> idle d -> resting j ->
  _Status j = STATUS_READY \/ _Status j = STATUS_DONE -> AddJob d j = Done (d', true) -> idle d'.
Proof.
  intros Hjobs [[Hn Hr Hc Ht Hs Hfi Hx] Hm Hd] Hre Hst. unfold AddJob.
  destruct (_nodeNameHash d !! _jobName j) eqn:Hname; [done|]. destruct (_nodeIDHash d !! _jobID j) eqn:Hid; [done|].
  assert (Hnew : _jobID j ∉ _jobs d) by (intros [? ?]%Hjobs; congruence).
  assert (Hgen : forall d1 j1, _nodeIDHash d1 = <[_jobID j := j1]> (_nodeIDHash d) ->
    _nodeNameHash d1 = <[_jobName j := _jobID j]> (_nodeNameHash d) -> _jobs d1 = _jobs d ++ [_jobID j] ->
    resting j1 -> _jobName j1 = _jobName j -> _final j1 = _final j ->
    (_Status j1 = STATUS_READY \/ _Status j1 = STATUS_DONE \/ _Status j1 = STATUS_NOT_READY /\ _final_job d1 = Some (_jobID j)) ->
    (forall f, _final_job d1 = Some f -> f = _jobID j /\ _final j = true \/ _final_job d = Some f) ->
    (forall f, _final_job d = Some f -> _final_job d1 = Some f) ->
    _readyQ d1 = _readyQ d -> _numNodesDone d1 = _numNodesDone d -> _numJobsSubmitted d1 = _numJobsSubmitted d ->
    _catThrottles d1 = _catThrottles d -> _preRunNodeCount d1 = _preRunNodeCount d ->
    _postRunNodeCount d1 = _postRunNodeCount d -> _numNodesFailed d1 = _numNodesFailed d -> idle d1).
  { intros d1 j1 E1 E2 E3 A1 A5 A6 A7 F1 F2 G1 G2 G3 G4 G5 G6 G7.
    assert (Hlk : forall i k, _nodeIDHash d1 !! i = Some k -> (i = _jobID j /\ k = j1) \/ (i <> _jobID j /\ _nodeIDHash d !! i = Some k)).
    { intros i k. rewrite E1. destruct (decide (i = _jobID j)) as [->|Hne].
      - rewrite lookup_insert_eq. intros [= <-]. auto.
      - rewrite lookup_insert_ne by done. auto. }
    split; [split|..]; rewrite ?G1, ?G2, ?G3, ?G4, ?G5, ?G6, ?G7; try done.
    - intros i k [[-> ->]|[_ Hk]]%Hlk; [auto|by eapply Hn].
    - intros i k [[-> ->]|[Hne Hk]]%Hlk; [done|]. destruct (Hs i k Hk) as [|[|[? ?]]]; auto.
    - intros f [[-> Hf]|Hf]%F1.
      + exists j1. rewrite E1, lookup_insert_eq. split; [done|congruence].
      + destruct (Hfi f Hf) as (k & Hk & Hfk). exists k. rewrite E1, lookup_insert_ne; [done|]. congruence.
    - intros i k Hi [[-> ->]|[Hne Hk]]%Hlk; rewrite E2; [by rewrite A5, lookup_insert_eq|].
      assert (i ∈ _jobs d) as Hi' by (rewrite E3 in Hi; set_solver). pose proof (Hm i k Hi' Hk).
      rewrite lookup_insert_ne; [done|]. congruence.
    - rewrite E3. apply NoDup_app. split; [done|]. split; [|apply NoDup_singleton].
      intros i Hi ->%list_elem_of_singleton. done. }
  destruct (_final j) eqn:Hf; [destruct (_final_job d) eqn:Hfj|]; intros He; simplify_eq.
  - eapply (Hgen _ (SetStatus j STATUS_NOT_READY)); simpl; try done; try congruence; auto.
    + by rewrite insert_insert_eq.
    + destruct Hre as (? & ? & ? & ? & ? & ?). by split_and!.
    + intros f [= <-]. auto.
  - eapply (Hgen _ j); simpl; try done; auto. tauto.
Qed.

(** A node that AddNode() has not put into the DAG yet. *)
Definition offline (j : Job) : Prop :=
  _Status j = STATUS_READY /\ _queuedNodeJobProcs j = 0 /\ countedAsDone j = false /\ retries j = 0 /\ retry_max j = 0.
Lemma AddScript_offline j post cmd j' ok why : offline j -> AddScript j post cmd = (j', ok, why) -> offline j'.
Proof.
  intros Hb. unfold AddScript. destruct cmd as [[|c cmd]|]; intros He; [by simplify_eq| |by simplify_eq].
  destruct (if post then _scriptPost j else _scriptPre j); [by simplify_eq|]. by destruct post; simplify_eq.
Qed.

Lemma AddNode_idle d next type name dir sub pre post noop isDone isFinal d' next' why :
  (forall i, i ∈ _jobs d -> is_Some (_nodeIDHash d !! i)) -> idle d ->
  AddNode d next type name dir sub pre post noop isDone isFinal = Done (d', next', true, why) -> idle d'.
Proof.
  intros Hbt Hb. unfold AddNode, obind. destruct (IsValidNodeName d name) as [[valid w]|]; [|done].
  destruct valid; [|done]. destruct name as [name|]; [|by destruct (IsValidSubmitFileName sub)].
  destruct (IsValidSubmitFileName sub) as [[] w2]; [|done]. destruct sub as [sub|]; [|done].
  set (node := new_Job next type name dir sub). assert (Hn0 : offline node) by done.
  destruct (match pre with Some _ => AddScript node false pre | None => (node, true, []) end)
    as [[n1 ok1] why1] eqn:H1.
  assert (Hn1 : offline n1) by (destruct pre; [by eapply AddScript_offline|by simplify_eq]).
  destruct ok1; [|done]. cbn [negb].
  destruct (match post with Some _ => AddScript n1 true post | None => (n1, true, []) end)
    as [[n2 ok2] why2'] eqn:H2.
  assert (Hn2 : offline n2) by (destruct post; [by eapply AddScript_offline|by simplify_eq]).
  destruct ok2; [|done]. cbn [negb].
  match goal with |- context [AddJob d ?n] => destruct (AddJob d n) as [[d1 added]|] eqn:Ha end; [|done].
  destruct added; [|done]. intros He. injection He as <- <- <-. destruct Hn2 as (A1 & A2 & A3 & A4 & A5).
  eapply AddJob_idle; [exact Hbt|exact Hb|..|exact Ha]; destruct (isDone && negb isFinal); simpl; auto;
    unfold resting, IsActive, status_is; simpl; rewrite ?A1; split_and!; done || lia.
Qed.

Lemma AddDependency_idle strict d p c d' :
  (forall i j, _nodeIDHash d !! i = Some j -> _jobID j = i) -> idle d ->
  AddDependency strict d (Some p) (Some c) = Done (d', true) -> idle d'.
Proof.
  intros Hwf Hd Ha.
  assert (Hrest : same_rest d d').
  { revert Ha. unfold AddDependency, obind. destruct (_nodeIDHash d !! p) as [jp|]; [|done].
    destruct (AddChild _ _ _) as [[[jp' []] w1]|]; [|done..]. simpl.
    destruct (_ !! c) as [jc|]; [|done]. destruct (AddParent _ _ _) as [[[jc' []] w2]|]; [|..|done].
    - intros [= <-]. done.
    - destruct (_ !! p); [|done]. by destruct (RemoveChild _ _) as [[? []] ?]. }
  destruct (AddDependency_spec strict d p c d' Hwf Ha) as (jp & jc & Hjp & Hjc & _ & _ & _ & Hlk).
  eapply idle_nodes; [exact Hd| |intros i Hi; rewrite Hlk; by apply fmap_is_Some|exact Hrest]. intros i j'. rewrite Hlk.
  destruct (_nodeIDHash d !! i) as [j|] eqn:Hi; [|done]. intros [= <-]. exists j. split; [done|].
  transitivity ((if decide (i = p) then add_child c else id) j);
    [destruct (decide (i = p))|destruct (decide (i = c))]; try reflexivity;
    auto using add_child_unstarted, add_parent_unstarted.
Qed.

Lemma set_done_idle strict d job d' : idle d -> set_done_line strict d job = (d', true) -> idle d'.
Proof.
  intros Hd. unfold set_done_line. destruct (_nodeIDHash d !! job) as [j|] eqn:Hj; [|intros He; by simplify_eq].
  destruct (_final j); [intros He; by simplify_eq|]. intros [= <-]. eapply idle_put; [done..|]. by split; try right.
Qed.

Lemma build_step_idle strict d next op d' next' :
  built d next -> idle d -> build_step strict (d, next) op = Done (d', next', true) -> idle d'.
Proof.
  intros Hb Hd. destruct op as [type name dir sub pre post noop isDone isFinal|p c|job]; cbn [build_step fst snd]; unfold obind.
  - destruct (AddNode _ _ _ _ _ _ _ _ _ _ _) as [[[[d1 n1] ok] why]|] eqn:Ha; [|done].
    intros He. simplify_eq. eapply AddNode_idle; [|done..]. intros i. apply (wf_jobs _ (b_graph _ _ Hb)).
  - destruct (AddDependency strict d (Some p) (Some c)) as [[d1 ok]|] eqn:Ha; [|done].
    intros He. simplify_eq. eapply AddDependency_idle; [apply Hb|done..].
  - destruct (set_done_line strict d job) as [d1 ok] eqn:Ha. intros He. simplify_eq. by eapply set_done_idle.
Qed.

Lemma build_idle strict ops d next d' next' :
  built d next -> idle d -> build strict (d, next) ops = Done (d', next', true) -> idle d'.
Proof.
  revert d next. induction ops as [|op ops IH]; intros d next Hb Hd He; simpl in He; [by simplify_eq|].
  unfold obind in He. destruct (build_step strict (d, next) op) as [[[d1 n1] ok]|] eqn:Hs; [|done].
  destruct ok; [|done]. eapply IH; [| |done]; [by eapply build_step_built|by eapply build_step_idle].
Qed.

Lemma build_unrun strict ops d next : build strict (new_Dag, 0) ops = Done (d, next, true) -> unrun d.
Proof.
  intros Hb. eapply unrun_of_built; [by eapply build_built; [apply built_new|]|].
  by eapply build_idle; [apply built_new|apply idle_new|].
Qed.
