(* ===== verification/DagParse.v ===== *)
(** DAG input files: condor_dagman/parse.cpp, the parts of dag.cpp and dagman_main.cpp that read them,
    and getline() of condor_utils/config.cpp.

    A file is the list of its bytes; getline() joins continued lines, parse() tokenises each line and
    calls one function per keyword.  The static variables of parse.cpp and the members of [Dag] that
    only the input file sets are fields of [Parser].  While a file is read, the nodes of its splices
    are in the store of the DAG that reads it, where their pointers can be followed, but not yet in
    its node list and its name hash; LiftSplices() puts them there.  A warning that DAGMAN_USE_STRICT
    makes fatal ends the process.  Debug output is not modelled. *)

From S2P Require Import Prelude HashTable CondorId PriorityList DagJob Dag.

Open Scope Z_scope.

(** ** Lines: getline() *)

(** What fgets() returns call by call: the lines with their LF, the last one perhaps without.  Lines
    are shorter than the buffer, which grows when it has to. *)
Fixpoint fgets_lines (file : bytes) (cur : bytes) : list bytes :=
  match file with
  | [] => if bool_decide (cur = []) then [] else [rev cur]
  | c :: file' =>
      if bool_decide (c = LF) then rev (c :: cur) :: fgets_lines file' [] else fgets_lines file' (c :: cur)
  end.

Definition rtrim (s : bytes) : bytes := rev (skip_spaces (rev s)).
Definition ends_with (c : ascii) (s : bytes) : bool :=
  match last s with Some c' => bool_decide (c' = c) | None => false end.

(** The results of getline() until it returns NULL.  [buf] is the buffer before [line_ptr], [cur] what
    was read after it: a NUL hides the end of its line, which is then joined with the next one.  At
    the end of the file the buffer is returned as it is, neither trimmed nor continued. *)
Fixpoint getlines (lines : list bytes) (buf cur : bytes) : list bytes :=
  match lines with
  | [] => if bool_decide (buf ++ cur = []) then [] else [buf ++ cur]
  | l :: lines' =>
      let cur := cur ++ until_nul l in
      if negb (ends_with LF (until_nul l)) then getlines lines' buf cur
      else
        let buf := buf ++ skip_spaces (rtrim cur) in
        if ends_with BSLASH buf then getlines lines' (removelast buf) []
        else buf :: getlines lines' [] []
  end.

(** ** Tokens *)

Definition COMMENT : ascii := "#"%char.
Definition isDelimiter (c : ascii) : bool := bool_decide (c = SP) || bool_decide (c = TAB).
Definition isNewline (c : ascii) : bool := bool_decide (c = LF).

Fixpoint skip_delims (delim : ascii -> bool) (s : bytes) : bytes :=
  match s with
  | c :: s' => if delim c then skip_delims delim s' else s
  | [] => []
  end.
(** Up to the next delimiter, which is overwritten with NUL, and what follows it. *)
Fixpoint until_delim (delim : ascii -> bool) (s : bytes) : bytes * bytes :=
  match s with
  | [] => ([], [])
  | c :: s' => if delim c then ([], s') else let '(t, r) := until_delim delim s' in (c :: t, r)
  end.
(** strtok(): the next token and the rest of the line, [None] for NULL. *)
Definition strtok (delim : ascii -> bool) (s : bytes) : option (bytes * bytes) :=
  match skip_delims delim s with
  | [] => None
  | s' => Some (until_delim delim s')
  end.

(** The tokens that calls of strtok() return before it returns NULL. *)
Fixpoint tokens_from (s cur : bytes) : list bytes :=
  match s with
  | [] => if bool_decide (cur = []) then [] else [rev cur]
  | c :: s' =>
      if isDelimiter c then (if bool_decide (cur = []) then [] else [rev cur]) ++ tokens_from s' []
      else tokens_from s' (c :: cur)
  end.
Definition tokens (s : bytes) : list bytes := tokens_from s [].

(** strtol(s, &end, 10): the value and the string at [end]; [None] when nothing was converted. *)
Fixpoint skip_digits (s : bytes) : bytes :=
  match s with
  | c :: s' => match digit c with Some _ => skip_digits s' | None => s end
  | [] => []
  end.
Definition skip_sign (s : bytes) : bytes :=
  match s with "-"%char :: s' | "+"%char :: s' => s' | _ => s end.
Definition strtol (s : bytes) : option (Z * bytes) :=
  match scan_int s with
  | Some z => Some (clamp_long z, skip_digits (skip_sign (skip_spaces s)))
  | None => None
  end.
(** [(int)strtol(...)], the number at the head of a token. *)
Definition parse_int (s : bytes) : option Z :=
  match strtol s with Some (z, _) => Some (wrap32 z) | None => None end.

Fixpoint prefixb (p s : bytes) : bool :=
  match p, s with
  | [], _ => true
  | a :: p', b :: s' => bool_decide (a = b) && prefixb p' s'
  | _ :: _, [] => false
  end.
(** [strstr(s, needle) != NULL] for a needle that is not empty. *)
Fixpoint strstr (s needle : bytes) : bool :=
  match s with
  | [] => false
  | _ :: s' => prefixb needle s || strstr s' needle
  end.
(** MyString::replaceString(): every occurrence, from left to right; [skip] counts the characters of
    the current one that are still to be dropped. *)
Fixpoint replace_from (needle repl s : bytes) (skip : nat) : bytes :=
  match s with
  | [] => []
  | c :: s' =>
      match skip with
      | S n => replace_from needle repl s' n
      | O => if prefixb needle s then repl ++ replace_from needle repl s' (length needle - 1)
             else c :: replace_from needle repl s' 0
      end
  end.
Definition replaceString (s needle repl : bytes) : bytes := replace_from needle repl s 0.

(** ** Paths *)

Definition isPathDelim (c : ascii) : bool := bool_decide (c = BSLASH) || bool_decide (c = "/"%char).
Fixpoint last_delim (s : bytes) (i : nat) (found : option nat) : option nat :=
  match s with
  | [] => found
  | c :: s' => last_delim s' (S i) (if isPathDelim c then Some i else found)
  end.
Definition condor_dirname (path : bytes) : bytes :=
  match last_delim path 0 None with
  | None => s2b "."
  | Some O => take 1 path
  | Some i => take i path
  end.
Definition condor_basename (path : bytes) : bytes :=
  match last_delim path 0 None with None => path | Some i => drop (S i) path end.

(** The file system: chdir() from a directory, and the content of a file that can be opened from it
    while [opened] other DAG files are open.  parse() keeps its file open while it reads the splices in
    it, so the limit on open files bounds how deep splices nest. *)
Class Files := {
  chdir : bytes -> bytes -> option bytes;
  fopen (opened : nat) : bytes -> bytes -> option bytes
}.

(** class TmpDir.  Nothing is done for an empty path and for ".". *)
Definition stays (dir : bytes) : bool := streq dir [] || streq dir (s2b ".").
Definition Cd2TmpDir `{Files} (cwd dir : bytes) : option bytes :=
  if stays dir then Some cwd else chdir cwd dir.
Definition Cd2MainDir `{Files} (mainDir dir cwd : bytes) : outcome bytes :=
  if stays dir then Done cwd
  else match chdir cwd mainDir with
       | Some cwd' => Done cwd'
       | None => EXCEPT "Unable to chdir() to original directory!"
       end.

(** ** The state of the parser *)

(** What a DAG keeps of a splice after it was read: the members that LiftSplices() and PARENT lines
    use.  Its nodes are in the store of the DAG that holds the splice. *)
Record Splice := mkSplice {
  s_jobs : list Z;
  s_initial : list Z;
  s_final : list Z;
  s_throttles : ThrottleByCategory;
  s_reject : bool;
  s_rejectLoc : bytes
}.

Record Parser := mkParser {
  p_dag : Dag;
  _splices : HT.HashTable bytes Splice;
  _splice_initial_nodes : list Z;
  _splice_final_nodes : list Z;
  m_directory : bytes;
  _dot_file_name : option bytes;
  _dot_include_file_name : option bytes;
  _update_dot_file : bool;
  _overwrite_dot_file : bool;
  _statusFileName : option bytes;
  _minStatusUpdateTime : Z;
  _jobstateLogFile : option bytes;
  _reject : bool;
  _firstRejectLoc : bytes;
  _jobID_counter : Z;
  _thisDagNum : Z;
  _mungeNames : bool;
  _spliceScope : list bytes;
  p_cwd : bytes
}.

#[export] Instance rebuild_Parser : Rebuild Parser := fun p =>
  mkParser (p_dag p) (_splices p) (_splice_initial_nodes p) (_splice_final_nodes p) (m_directory p)
    (_dot_file_name p) (_dot_include_file_name p) (_update_dot_file p) (_overwrite_dot_file p)
    (_statusFileName p) (_minStatusUpdateTime p) (_jobstateLogFile p) (_reject p) (_firstRejectLoc p)
    (_jobID_counter p) (_thisDagNum p) (_mungeNames p) (_spliceScope p) (p_cwd p).
#[export] Instance set_p_dag : Setter p_dag := ltac:(solve_setter).
#[export] Instance set_splices : Setter _splices := ltac:(solve_setter).
#[export] Instance set_splice_initial_nodes : Setter _splice_initial_nodes := ltac:(solve_setter).
#[export] Instance set_splice_final_nodes : Setter _splice_final_nodes := ltac:(solve_setter).
#[export] Instance set_m_directory : Setter m_directory := ltac:(solve_setter).
#[export] Instance set_dot_file_name : Setter _dot_file_name := ltac:(solve_setter).
#[export] Instance set_dot_include_file_name : Setter _dot_include_file_name := ltac:(solve_setter).
#[export] Instance set_update_dot_file : Setter _update_dot_file := ltac:(solve_setter).
#[export] Instance set_overwrite_dot_file : Setter _overwrite_dot_file := ltac:(solve_setter).
#[export] Instance set_statusFileName : Setter _statusFileName := ltac:(solve_setter).
#[export] Instance set_minStatusUpdateTime : Setter _minStatusUpdateTime := ltac:(solve_setter).
#[export] Instance set_jobstateLogFile : Setter _jobstateLogFile := ltac:(solve_setter).
#[export] Instance set_reject : Setter _reject := ltac:(solve_setter).
#[export] Instance set_firstRejectLoc : Setter _firstRejectLoc := ltac:(solve_setter).
#[export] Instance set_jobID_counter : Setter _jobID_counter := ltac:(solve_setter).
#[export] Instance set_thisDagNum : Setter _thisDagNum := ltac:(solve_setter).
#[export] Instance set_mungeNames : Setter _mungeNames := ltac:(solve_setter).
#[export] Instance set_spliceScope : Setter _spliceScope := ltac:(solve_setter).
#[export] Instance set_p_cwd : Setter p_cwd := ltac:(solve_setter).

Definition hashFuncMyString (key : bytes) : Z :=
  foldl (fun i c => wrapu32 (i + Z.of_nat (nat_of_ascii c))) 0 key.

(** The Dag of the constructor, with the counter of Job and the static variables as they are. *)
Definition new_Parser (next dagNum : Z) (munge : bool) (scope : list bytes) (dir cwd : bytes) : Parser :=
  mkParser new_Dag (HT.initialize HT.rejectDuplicateKeys) [] [] dir None None false true None 0 None
    false [] next dagNum munge scope cwd.

Definition munge_job_name (p : Parser) (jobName : bytes) : bytes :=
  if _mungeNames p then print_d (_thisDagNum p) ++ s2b "." ++ jobName else jobName.
Definition current_splice_scope (p : Parser) : bytes :=
  match last (_spliceScope p) with Some s => s ++ s2b "+" | None => [] end.

Definition LookupSplice (p : Parser) (name : bytes) : option Splice :=
  HT.lookup hashFuncMyString (_splices p) name.

Definition find_job (p : Parser) (jobName : bytes) : outcome (option Z) :=
  FindNodeByName (p_dag p) (munge_job_name p jobName).
(** [job->field = ...] *)
Definition on_job (p : Parser) (job : Z) (f : Job -> Job) : Parser :=
  match _nodeIDHash (p_dag p) !! job with
  | Some j => p <| p_dag ::= fun d => put_node d job (f j) |>
  | None => p
  end.
Definition job_at (p : Parser) (job : Z) : outcome Job :=
  match _nodeIDHash (p_dag p) !! job with Some j => Done j | None => EXCEPT "dangling pointer" end.

(** The results of a line. *)
Definition accept (p : Parser) : outcome (Parser * bool) := Done (p, true).
Definition fail (p : Parser) : outcome (Parser * bool) := Done (p, false).

(** A line that names a node: find it, or fail. *)
Definition with_job (p : Parser) (jobName : bytes) (k : Z -> Job -> outcome (Parser * bool))
  : outcome (Parser * bool) :=
  (let! found := find_job p jobName in
   match found with
   | None => fail p
   | Some job => let! j := job_at p job in k job j
   end)%outcome.

(** ** Nodes *)

Definition DAG_SUBMIT_FILE_SUFFIX : bytes := s2b ".condor.sub".

Definition SetNodeDagFile (p : Parser) (nodeName dagFile : bytes) : outcome (Parser * bool) :=
  (let! found := FindNodeByName (p_dag p) nodeName in
   match found with
   | Some job => accept (on_job p job (fun j => j <| _dagFile := Some dagFile |>))
   | None => fail p
   end)%outcome.

Section parser.
Context `{Files} (strict : Z).

(** The DIR option of a node line: the directory of the node, the directory the process is in then
    and the tokens that follow; [None] is an error. *)
Definition node_dir (cwd directory : bytes) (toks : list bytes) : option (bytes * bytes * list bytes) :=
  match toks with
  | t :: toks1 =>
      if strcaseeq t (s2b "DIR") then
        if negb (streq directory []) then None
        else match toks1 with
             | [] => None
             | dir :: toks2 =>
                 match Cd2TmpDir cwd dir with Some cwd' => Some (dir, cwd', toks2) | None => None end
             end
      else Some (directory, cwd, toks)
  | [] => Some (directory, cwd, [])
  end.
(** The options NOOP and DONE, in that order, and nothing else. *)
Definition node_flags (toks : list bytes) : option (bool * bool) :=
  let '(noop, toks) :=
    match toks with
    | t :: toks1 => if strcaseeq t (s2b "NOOP") then (true, toks1) else (false, toks)
    | [] => (false, [])
    end in
  match toks with
  | [] => Some (noop, false)
  | [t] => if strcaseeq t (s2b "DONE") then Some (noop, true) else None
  | _ => None
  end.

(** The submit file of a node line, and its DAG file if it is a nested DAG. *)
Definition nested_names (keyword submitFile : bytes) : outcome (bytes * bytes) :=
  if strcaseeq keyword (s2b "SUBDAG") then Done (submitFile ++ DAG_SUBMIT_FILE_SUFFIX, submitFile)
  else if strstr submitFile DAG_SUBMIT_FILE_SUFFIX then
    check_warning_strictness strict 3
      (submitFile, replaceString submitFile DAG_SUBMIT_FILE_SUFFIX [])
  else Done (submitFile, []).

Definition parse_node (p : Parser) (nodeType : job_type_t) (keyword directory : bytes) (toks : list bytes)
  : outcome (Parser * bool) :=
  match toks with
  | name :: submitFile :: toks' =>
      let nodeName := munge_job_name p name in
      match node_dir (p_cwd p) directory toks' with
      | None => fail p
      | Some (dir, cwd', toks2) =>
          (* the destructor of nodeDir, or the explicit call at the end *)
          let leave (r : Parser * bool) : outcome (Parser * bool) :=
            (let! cwd := Cd2MainDir (p_cwd p) (if streq directory [] then dir else []) cwd' in
             Done (r.1 <| p_cwd := cwd |>, r.2))%outcome in
          match node_flags toks2 with
          | None => leave (p, false)
          | Some (noop, done) =>
          match LookupSplice p nodeName with
          | Some _ => leave (p, false)
          | None =>
              let! (submitFile, nestedDagFile) := nested_names keyword submitFile in
              let isFinal := strcaseeq keyword (s2b "FINAL") in
              let! (d, next, added, _) :=
                AddNode (p_dag p) (_jobID_counter p) nodeType (Some nodeName) dir (Some submitFile)
                  None None noop done isFinal in
              let p1 := p <| p_dag := d |> <| _jobID_counter := next |> in
              if negb added then leave (p1, false)
              else if streq nestedDagFile [] then leave (p1, true)
              else let! r := SetNodeDagFile p1 nodeName nestedDagFile in leave r
          end
          end
      end
  | _ => fail p
  end%outcome.

(** A SUBDAG keyword that stands alone makes strcasecmp() read a NULL pointer. *)
Definition parse_subdag (p : Parser) (nodeType : job_type_t) (keyword directory : bytes) (toks : list bytes)
  : outcome (Parser * bool) :=
  match toks with
  | [] => EXCEPT "Segmentation fault"
  | inlineOrExt :: toks' =>
      if strcaseeq inlineOrExt (s2b "EXTERNAL") then parse_node p nodeType keyword directory toks' else fail p
  end.

(** ** Scripts and dependencies *)

(** SCRIPT (PRE|POST) JobName Script Args ...  The command is the rest of the line; a line that ends
    with the node name, or with delimiters after it, has none. *)
Definition parse_script (p : Parser) (line : bytes) : outcome (Parser * bool) :=
  match strtok isDelimiter line with
  | None => fail p
  | Some (prepost, rest) =>
      match (if strcaseeq prepost (s2b "PRE") then Some false
             else if strcaseeq prepost (s2b "POST") then Some true else None) with
      | None => fail p
      | Some post =>
          match strtok isDelimiter rest with
          | None => fail p
          | Some (jobName, rest) =>
              if isReservedWord jobName then fail p
              else with_job p jobName (fun job j =>
                match skip_delims isDelimiter rest with
                | [] => fail p
                | cmd =>
                    let '(j', ok, _) := AddScript j post (Some cmd) in
                    Done (on_job p job (fun _ => j'), ok)
                end)
          end
      end
  end.

(** The nodes a name of a PARENT line stands for: those recorded for a splice, or one node. *)
Definition named_nodes (nodes_of : Splice -> list Z) (p : Parser) (name : bytes) : outcome (option (list Z)) :=
  match LookupSplice p (munge_job_name p name) with
  | Some s => Done (Some (nodes_of s))
  | None =>
      (let! found := find_job p name in
       Done match found with Some job => Some [job] | None => None end)%outcome
  end.
Fixpoint all_named (nodes_of : Splice -> list Z) (p : Parser) (names : list bytes) : outcome (option (list Z)) :=
  match names with
  | [] => Done (Some [])
  | name :: names' =>
      let! r := named_nodes nodes_of p name in
      match r with
      | None => Done None
      | Some l =>
          let! rs := all_named nodes_of p names' in
          Done match rs with Some ls => Some (l ++ ls) | None => None end
      end
  end%outcome.
(** The tokens before the CHILD keyword and those after it. *)
Fixpoint split_child (toks : list bytes) : list bytes * option (list bytes) :=
  match toks with
  | [] => ([], None)
  | t :: toks' =>
      if strcaseeq t (s2b "CHILD") then ([], Some toks')
      else let '(l, r) := split_child toks' in (t :: l, r)
  end.
(** AddDependency() for each pair, until one fails. *)
Fixpoint add_dependencies (d : Dag) (edges : list (Z * Z)) : outcome (Dag * bool) :=
  match edges with
  | [] => Done (d, true)
  | (parent, child) :: edges' =>
      let! (d', ok) := AddDependency strict d (Some parent) (Some child) in
      if (ok : bool) then add_dependencies d' edges' else Done (d', false)
  end%outcome.
Definition pairs (parents children : list Z) : list (Z * Z) :=
  parents ≫= fun parent => pair parent <$> children.

Definition parse_parent (p : Parser) (toks : list bytes) : outcome (Parser * bool) :=
  let '(before, after) := split_child toks in
  (let! parents := all_named s_final p before in
   match parents, after with
   | Some ((_ :: _) as parents), Some after =>
       let! children := all_named s_initial p after in
       match children with
       | Some ((_ :: _) as children) =>
           let! (d, ok) := add_dependencies (p_dag p) (pairs parents children) in
           Done (p <| p_dag := d |>, ok)
       | _ => fail p
       end
   | _, _ => fail p
   end)%outcome.

(** ** Settings of a node *)

(** RETRY JobName n [UNLESS-EXIT e].  The member is assigned before it is checked. *)
Definition parse_retry (p : Parser) (toks : list bytes) : outcome (Parser * bool) :=
  match toks with
  | [] => fail p
  | jobName :: toks1 => with_job p jobName (fun job j =>
      if _final j then fail p
      else match toks1 with
      | [] => fail p
      | s :: toks2 =>
          let p1 := on_job p job (fun j => j <| retry_max := default 0 (parse_int s) |>) in
          match parse_int s with
          | None => fail p1
          | Some n =>
              if n <? 0 then fail p1
              else match toks2 with
              | [] => accept p1
              | opt :: toks3 =>
                  if negb (strcaseeq opt (s2b "UNLESS-EXIT")) then fail p1
                  else match toks3 with
                  | [] => fail p1
                  | e :: _ =>
                      match strtol e with
                      | Some (z, []) => accept (on_job p1 job (fun j => j <| retry_abort_val := Some (wrap32 z) |>))
                      | _ => fail p1
                      end
                  end
              end
          end
      end)
  end.

(** ABORT-DAG-ON JobName value [RETURN value] *)
Definition parse_abort (p : Parser) (toks : list bytes) : outcome (Parser * bool) :=
  match toks with
  | [] => fail p
  | jobName :: toks1 => with_job p jobName (fun job j =>
      if _final j then fail p
      else match toks1 with
      | [] => fail p
      | s :: toks2 =>
          match parse_int s with
          | None => fail p
          | Some abortVal =>
              let set (ret : option Z) :=
                accept (on_job p job (fun j => j <| abort_dag_val := Some abortVal |> <| abort_dag_return_val := ret |>)) in
              match toks2 with
              | [] => set None
              | opt :: toks3 =>
                  if negb (strcaseeq opt (s2b "RETURN")) then fail p
                  else match toks3 with
                  | [] => fail p
                  | r :: _ =>
                      match parse_int r with
                      | None => fail p
                      | Some returnVal =>
                          if (returnVal <? 0) || (255 <? returnVal) then fail p else set (Some returnVal)
                      end
                  end
              end
          end
      end)
  end.

(** One name="value" pair of a VARS line. *)
Definition isalnum (c : ascii) : bool :=
  isdigit c || let n := nat_of_ascii c in
  ((65 <=? n)%nat && (n <=? 90)%nat) || ((97 <=? n)%nat && (n <=? 122)%nat).
Definition isname (c : ascii) : bool := isalnum c || bool_decide (c = "_"%char).
Fixpoint span_name (s : bytes) : bytes * bytes :=
  match s with
  | c :: s' => if isname c then let '(n, r) := span_name s' in (c :: n, r) else ([], s)
  | [] => ([], [])
  end.
(** After the opening quote: the value and what follows the closing quote.  Only quotes and
    backslashes may be escaped, and single quotes are refused. *)
Fixpoint read_value (s : bytes) (escaped : bool) : option (bytes * bytes) :=
  match s with
  | [] => None
  | c :: s' =>
      let keep (r : option (bytes * bytes)) := match r with Some (v, rest) => Some (c :: v, rest) | None => None end in
      if escaped then
        if bool_decide (c = BSLASH) || bool_decide (c = DQUOTE) then keep (read_value s' false) else None
      else if bool_decide (c = DQUOTE) then Some ([], s')
      else if bool_decide (c = BSLASH) then read_value s' true
      else if bool_decide (c = SQUOTE) then None
      else keep (read_value s' false)
  end.
Inductive var_pair := NoMoreVars | BadVar | Var (name value rest : bytes).
Definition read_pair (s : bytes) : var_pair :=
  match skip_spaces s with
  | [] => NoMoreVars
  | s1 =>
      match span_name s1 with
      | ([], _) => BadVar
      | (name, s2) =>
          match skip_spaces s2 with
          | "="%char :: s3 =>
              match skip_spaces s3 with
              | c :: s4 =>
                  if negb (bool_decide (c = DQUOTE)) then BadVar
                  else match read_value s4 false with
                       | None => BadVar
                       | Some (value, rest) =>
                           if prefixb (s2b "queue") (lower name) then BadVar else Var name value rest
                       end
              | [] => BadVar
              end
          | _ => BadVar
          end
      end
  end.
(** The new pair, after those that are already there, less one of the same name. *)
Definition add_var (name value : bytes) (j : Job) : Job :=
  j <| varsFromDag ::= fun l => filter (fun nv => nv.1 <> name) l ++ [(name, value)] |>.
(** Each pair takes characters off the line: [fuel] is more than its length.  [n] counts the pairs. *)
Fixpoint parse_pairs (fuel : nat) (s : bytes) (n : nat) (j : Job) : outcome (Job * bool) :=
  match fuel with
  | O => Done (j, false)
  | S fuel' =>
      match read_pair s with
      | BadVar => Done (j, false)
      | NoMoreVars => Done (j, negb (n =? 0)%nat)
      | Var name value rest =>
          (let! j' :=
             (if bool_decide (name ∈ (varsFromDag j).*1) then check_warning_strictness strict 2 (add_var name value j)
              else Done (add_var name value j)) in
           parse_pairs fuel' rest (S n) j')%outcome
      end
  end.
Definition parse_vars (p : Parser) (line : bytes) : outcome (Parser * bool) :=
  match strtok isDelimiter line with
  | None => fail p
  | Some (jobName, rest) => with_job p jobName (fun job j =>
      let str := match strtok isNewline rest with Some (s, _) => s | None => [] end in
      let! (j', ok) := parse_pairs (S (length str)) str 0 j in
      Done (on_job p job (fun _ => j'), ok))
  end%outcome.

(** PRIORITY JobName n *)
Definition parse_priority (p : Parser) (toks : list bytes) : outcome (Parser * bool) :=
  match toks with
  | [] => fail p
  | jobName :: toks1 =>
      if isReservedWord jobName then fail p
      else with_job p jobName (fun job j =>
        if _final j then fail p
        else match toks1 with
        | [value] =>
            match parse_int value with
            | None => fail p
            | Some n =>
                let p' := on_job p job (fun j => j <| _hasNodePriority := true |> <| _nodePriority := n |>) in
                if _hasNodePriority j && negb (_nodePriority j =? n) then check_warning_strictness strict 2 (p', true)
                else accept p'
            end
        | _ => fail p
        end)
  end.

(** Job::SetCategory().  [foreign] says that the node's ThrottleInfo belongs to another DAG, a splice
    whose nodes are being lifted, so that its address differs even when the name is the same. *)
Definition SetCategory (ts : ThrottleByCategory) (foreign : bool) (j : Job) (category : bytes)
  : outcome (ThrottleByCategory * Job) :=
  (let! _ :=
     (match _throttleInfo j with
      | Some old => if negb (streq category old) then check_warning_strictness strict 3 tt else Done tt
      | None => Done tt
      end) in
   let! ts1 := (match ts !! category with Some _ => Done ts | None => AddCategory ts category noThrottleSetting end) in
   let ts2 :=
     match _throttleInfo j with
     | Some old =>
         if foreign then alter (fun t => t <| _totalJobs ::= Z.succ |>) category ts1
         else if streq category old then ts1
         else alter (fun t => t <| _totalJobs ::= Z.succ |>) category
                (alter (fun t => t <| _totalJobs ::= Z.pred |>) old ts1)
     | None => alter (fun t => t <| _totalJobs ::= Z.succ |>) category ts1
     end in
   Done (ts2, j <| _throttleInfo := Some category |>))%outcome.

(** CATEGORY JobName name *)
Definition parse_category (p : Parser) (toks : list bytes) : outcome (Parser * bool) :=
  match toks with
  | [] => fail p
  | jobName :: toks1 =>
      if isReservedWord jobName then fail p
      else with_job p jobName (fun job j =>
        if _final j then fail p
        else match toks1 with
        | [category] =>
            let! (ts, j') := SetCategory (_catThrottles (p_dag p)) false j category in
            accept ((on_job p job (fun _ => j')) <| p_dag ::= fun d => d <| _catThrottles := ts |> |>)
        | _ => fail p
        end)
  end%outcome.

(** PRE_SKIP JobName code *)
Definition parse_pre_skip (p : Parser) (toks : list bytes) : outcome (Parser * bool) :=
  match toks with
  | [] => fail p
  | jobName :: toks1 =>
      if isReservedWord jobName then fail p
      else with_job p jobName (fun job j =>
        match toks1 with
        | [code] =>
            match parse_int code with
            | None => fail p
            | Some exitCode =>
                let '(j', ok, _) := AddPreSkip j exitCode in Done (on_job p job (fun _ => j'), ok)
            end
        | _ => fail p
        end)
  end.

(** DONE JobName.  An unknown node and a final node are warnings. *)
Definition parse_done (p : Parser) (toks : list bytes) : outcome (Parser * bool) :=
  match toks with
  | [jobName] =>
      let! found := find_job p jobName in
      match found with
      | None => Done (p, negb (1 <=? strict))
      | Some job => let '(d, ok) := set_done_line strict (p_dag p) job in Done (p <| p_dag := d |>, ok)
      end
  | _ => fail p
  end%outcome.

(** ** Settings of the DAG *)

(** The options of a DOT line; unknown tokens are ignored. *)
Fixpoint dot_options (p : Parser) (toks : list bytes) : Parser * bool :=
  match toks with
  | [] => (p, true)
  | t :: toks' =>
      if strcaseeq t (s2b "UPDATE") then dot_options (p <| _update_dot_file := true |>) toks'
      else if strcaseeq t (s2b "DONT-UPDATE") then dot_options (p <| _update_dot_file := false |>) toks'
      else if strcaseeq t (s2b "OVERWRITE") then dot_options (p <| _overwrite_dot_file := true |>) toks'
      else if strcaseeq t (s2b "DONT-OVERWRITE") then dot_options (p <| _overwrite_dot_file := false |>) toks'
      else if strcaseeq t (s2b "INCLUDE") then
        match toks' with
        | [] => (p, false)
        | file :: toks'' => dot_options (p <| _dot_include_file_name := Some file |>) toks''
        end
      else dot_options p toks'
  end.
Definition parse_dot (p : Parser) (toks : list bytes) : outcome (Parser * bool) :=
  match toks with
  | [] => fail p
  | dot_file_name :: toks' =>
      let '(p', ok) := dot_options p toks' in
      if ok then accept (p' <| _dot_file_name := Some dot_file_name |>) else fail p'
  end.

(** MAXJOBS category n *)
Definition parse_maxjobs (p : Parser) (toks : list bytes) : outcome (Parser * bool) :=
  match toks with
  | [category; value] =>
      match parse_int value with
      | None => fail p
      | Some n =>
          if n <? 0 then fail p
          else let! ts := SetThrottle strict (_catThrottles (p_dag p)) category n in
               accept (p <| p_dag ::= fun d => d <| _catThrottles := ts |> |>)
      end
  | _ => fail p
  end%outcome.

Definition SetNodeStatusFileName (p : Parser) (statusFileName : bytes) (minUpdateTime : Z) : Parser :=
  match _statusFileName p with
  | Some _ => p
  | None => p <| _statusFileName := Some statusFileName |> <| _minStatusUpdateTime := minUpdateTime |>
  end.
(** NODE_STATUS_FILE file [seconds]; what follows is ignored. *)
Definition parse_node_status_file (p : Parser) (toks : list bytes) : outcome (Parser * bool) :=
  match toks with
  | [] => fail p
  | [file] => accept (SetNodeStatusFileName p file 0)
  | file :: min :: _ =>
      match parse_int min with
      | None => fail p
      | Some n => accept (SetNodeStatusFileName p file n)
      end
  end.

Definition SetReject (p : Parser) (location : bytes) : Parser :=
  (if streq (_firstRejectLoc p) [] then p <| _firstRejectLoc := location |> else p) <| _reject := true |>.
Definition parse_reject (p : Parser) (filename : bytes) (lineNumber : Z) (toks : list bytes)
  : outcome (Parser * bool) :=
  match toks with
  | [] => accept (SetReject p (filename ++ s2b " (line " ++ print_d lineNumber ++ s2b ")"))
  | _ => fail p
  end.

Definition SetJobstateLogFileName (p : Parser) (logFileName : bytes) : Parser :=
  match _jobstateLogFile p with Some _ => p | None => p <| _jobstateLogFile := Some logFileName |> end.
Definition parse_jobstate_log (p : Parser) (toks : list bytes) : outcome (Parser * bool) :=
  match toks with [file] => accept (SetJobstateLogFileName p file) | _ => fail p end.

(** ** Splices *)

(** A function for each node of a list, in order. *)
Fixpoint each_job (f : Job -> Job) (d : Dag) (jobs : list Z) : Dag :=
  match jobs with
  | [] => d
  | job :: jobs' =>
      each_job f (match _nodeIDHash d !! job with Some j => put_node d job (f j) | None => d end) jobs'
  end.
(** The name hash, with the nodes of a list added under their names. *)
Fixpoint index_names (error : string) (d : Dag) (jobs : list Z) : outcome Dag :=
  match jobs with
  | [] => Done d
  | job :: jobs' =>
      match _nodeIDHash d !! job with
      | None => EXCEPT "dangling pointer"
      | Some j =>
          match _nodeNameHash d !! _jobName j with
          | Some _ => EXCEPT error
          | None => index_names error (d <| _nodeNameHash ::= <[_jobName j := job]> |>) jobs'
          end
      end
  end.

Definition PropogateDirectoryToAllNodes (p : Parser) : Parser :=
  if streq (m_directory p) (s2b ".") then p
  else p <| p_dag ::= fun d => each_job (fun j => PrefixDirectory j (m_directory p)) d (_jobs d) |>
         <| m_directory := s2b "." |>.

Definition PrefixAllNodeNames (p : Parser) (prefix : bytes) : outcome Parser :=
  let d := each_job (fun j => PrefixName j prefix) (p_dag p) (_jobs (p_dag p)) in
  (let! d' := index_names "Dag::PrefixAllNodeNames(): This is an impossible error" (d <| _nodeNameHash := ∅ |>) (_jobs d) in
   Done (p <| p_dag := d' |>))%outcome.

Definition isGlobal (category : bytes) : bool := match category with "+"%char :: _ => true | _ => false end.
Definition prefix_category (prefix category : bytes) : bytes :=
  if isGlobal category then category else prefix ++ category.
Fixpoint prefix_throttles (prefix : bytes) (l : list (bytes * ThrottleInfo)) (ts : ThrottleByCategory)
  : outcome ThrottleByCategory :=
  match l with
  | [] => Done ts
  | (category, info) :: l' =>
      match ts !! prefix_category prefix category with
      | Some _ => EXCEPT "HashTable error"
      | None => prefix_throttles prefix l' (<[prefix_category prefix category := info]> ts)
      end
  end.
(** The name of a ThrottleInfo changes for the nodes that point to it. *)
Definition PrefixAllCategoryNames (p : Parser) (prefix : bytes) : outcome Parser :=
  (let! ts := prefix_throttles prefix (map_to_list (_catThrottles (p_dag p))) ∅ in
   Done (p <| p_dag ::= fun d =>
     each_job (fun j => j <| _throttleInfo ::= fmap (prefix_category prefix) |>) (d <| _catThrottles := ts |>) (_jobs d) |>))%outcome.

(** [job->NumParents() == 0] or [job->NumChildren() == 0], through the pointer. *)
Definition has_none (count : Job -> Z) (d : Dag) (job : Z) : bool :=
  match _nodeIDHash d !! job with Some j => count j =? 0 | None => false end.
Definition RecordInitialAndFinalNodes (p : Parser) : Parser :=
  let d := p_dag p in
  p <| _splice_initial_nodes ::= fun l => l ++ filter (fun job => has_none NumParents d job = true) (_jobs d) |>
    <| _splice_final_nodes ::= fun l => l ++ filter (fun job => has_none NumChildren d job = true) (_jobs d) |>.

(** AssumeOwnershipofNodes(), step 0: the higher-level value of a category wins. *)
Fixpoint merge_throttles (l : list (bytes * ThrottleInfo)) (ts : ThrottleByCategory) : outcome ThrottleByCategory :=
  match l with
  | [] => Done ts
  | (category, info) :: l' =>
      let! ts' :=
        (match ts !! category with
         | Some main =>
             if isSet main && negb (_maxJobs main =? _maxJobs info) then check_warning_strictness strict 2 ts
             else SetThrottle strict ts category (_maxJobs info)
         | None => SetThrottle strict ts category (_maxJobs info)
         end) in
      merge_throttles l' ts'
  end%outcome.
(** Step 1b: the categories of the nodes, in the table of this DAG. *)
Fixpoint adopt_categories (d : Dag) (jobs : list Z) : outcome Dag :=
  match jobs with
  | [] => Done d
  | job :: jobs' =>
      match _nodeIDHash d !! job with
      | None => EXCEPT "dangling pointer"
      | Some j =>
          match _throttleInfo j with
          | None => adopt_categories d jobs'
          | Some category =>
              let! (ts, j') := SetCategory (_catThrottles d) true j category in
              adopt_categories (put_node (d <| _catThrottles := ts |>) job j') jobs'
          end
      end
  end%outcome.
Definition AssumeOwnershipofNodes (p : Parser) (s : Splice) : outcome Parser :=
  let d := p_dag p in
  let initial := filter (fun job => has_none NumParents d job = true) (s_jobs s) in
  let final := filter (fun job => has_none NumParents d job = false /\ has_none NumChildren d job = true) (s_jobs s) in
  (let! ts := merge_throttles (map_to_list (s_throttles s)) (_catThrottles d) in
  let! d1 := adopt_categories (d <| _catThrottles := ts |>) (s_jobs s) in
  let! d2 := index_names "Found name collision while taking ownership of node"
               (d1 <| _jobs ::= fun l => l ++ s_jobs s |>) (s_jobs s) in
  let p1 := p <| p_dag := d2 |> <| _splice_initial_nodes ::= fun l => l ++ initial |>
              <| _splice_final_nodes ::= fun l => l ++ final |> in
  Done (if s_reject s then SetReject p1 (s_rejectLoc s) else p1))%outcome.

(** The splices in the order _splices.iterate() returns them. *)
Definition all_splices (t : HT.HashTable bytes Splice) : list (bytes * Splice) :=
  match HT.drain (S (Z.to_nat (HT.numElems t))) (HT.startIterations t) with
  | Some (l, _) => l
  | None => []
  end.
Fixpoint assume_all (p : Parser) (l : list (bytes * Splice)) : outcome Parser :=
  match l with
  | [] => Done p
  | (_, s) :: l' => let! p' := AssumeOwnershipofNodes p s in assume_all p' l'
  end%outcome.
(** LiftSplices(SELF).  A splice has lifted its own splices when it was read, so that
    LiftSplices(DESCENDENTS) only hands over its nodes.  Removing every key in a second iteration
    empties the table and leaves the iterator before its first chain. *)
Definition LiftSplices (p : Parser) : outcome Parser :=
  (let! p' := assume_all p (all_splices (_splices p)) in
   Done (PropogateDirectoryToAllNodes (p' <| _splices ::= fun t => HT.clear (HT.startIterations t) |>)))%outcome.

(** ** Lines and files *)

Notation result := (option (outcome (Parser * bool))).

(** [parse(splice_dag, ...)] is a parameter here: a DAG object for the splice, and the file. *)
Definition parse_splice (parse : Parser -> bytes -> result) (p : Parser) (toks : list bytes) : result :=
  match toks with
  | [] => Some (fail p)
  | spliceName :: toks1 =>
      match NodeExists (p_dag p) spliceName with
      | EXCEPT e => Some (EXCEPT e)
      | Done true => Some (fail p)
      | Done false =>
          let scope := _spliceScope p ++ [munge_job_name p spliceName] in
          let p1 := p <| _spliceScope := scope |> in
          match toks1 with
          | [] => Some (fail p1)
          | spliceFile :: toks2 =>
              (* a token that is not DIR is dropped *)
              match
                match toks2 with
                | [] => Some (s2b ".", [])
                | t :: toks3 =>
                    if strcaseeq t (s2b "DIR")
                    then match toks3 with [] => None | dir :: toks4 => Some (dir, toks4) end
                    else Some (s2b ".", toks3)
                end with
              | None | Some (_, _ :: _) => Some (fail p1)
              | Some (directory, []) =>
                  match Cd2TmpDir (p_cwd p1) directory with
                  | None => Some (fail p1)
                  | Some cwd =>
                      let sub := new_Parser (_jobID_counter p1) (_thisDagNum p1 - 1) (_mungeNames p1) scope directory cwd in
                      match parse sub spliceFile with
                      | None => None
                      | Some (EXCEPT e) => Some (EXCEPT e)
                      | Some (Done (_, false)) => Some (EXCEPT "Failed to parse splice")
                      | Some (Done (q, true)) => Some
                          (let! cwd' := Cd2MainDir (p_cwd p1) directory (p_cwd q) in
                           let p2 := p1 <| _jobID_counter := _jobID_counter q |> <| _thisDagNum := _thisDagNum q |>
                                        <| _mungeNames := _mungeNames q |> <| _spliceScope := _spliceScope q |>
                                        <| p_cwd := cwd' |> in
                           if bool_decide (is_Some (_final_job (p_dag q))) then fail p2
                           else
                             let! q1 := PrefixAllNodeNames q (current_splice_scope p2) in
                             let! q2 := PrefixAllCategoryNames q1 (current_splice_scope p2) in
                             let s := mkSplice (_jobs (p_dag q2)) (_splice_initial_nodes q2) (_splice_final_nodes q2)
                                        (_catThrottles (p_dag q2)) (_reject q2) (_firstRejectLoc q2) in
                             match HT.insert hashFuncMyString (_splices p2) (munge_job_name p2 spliceName) s with
                             | (_, -1) => fail p2
                             | (t, _) => accept (p2 <| _splices := t |>
                                 <| p_dag ::= fun d => d <| _nodeIDHash ::= fun m => m ∪ _nodeIDHash (p_dag q2) |> |>
                                 <| _spliceScope ::= fun l => removelast l |>)
                             end)%outcome
                      end
                  end
              end
          end
      end
  end.

Definition parse_line (parse : Parser -> bytes -> result) (p : Parser) (filename directory : bytes)
    (lineNumber : Z) (line : bytes) : result :=
  match line with
  | [] => Some (accept p)
  | c :: _ =>
      if bool_decide (c = COMMENT) then Some (accept p)
      else match strtok isDelimiter line with
      | None => Some (accept p)
      | Some (token, rest) =>
          let kw k := strcaseeq token (s2b k) in
          let toks := tokens rest in
          if kw "JOB" then Some (parse_node p TYPE_CONDOR token directory toks)
          else if kw "DAP" then Some
            (let! r := parse_node p TYPE_STORK token directory toks in check_warning_strictness strict 2 r)%outcome
          else if kw "DATA" then Some (parse_node p TYPE_STORK token directory toks)
          else if kw "SUBDAG" then Some (parse_subdag p TYPE_CONDOR token directory toks)
          else if kw "FINAL" then Some (parse_node p TYPE_CONDOR token directory toks)
          else if kw "SCRIPT" then Some (parse_script p rest)
          else if kw "PARENT" then Some (parse_parent p toks)
          else if kw "RETRY" then Some (parse_retry p toks)
          else if kw "ABORT-DAG-ON" then Some (parse_abort p toks)
          else if kw "DOT" then Some (parse_dot p toks)
          else if kw "VARS" then Some (parse_vars p rest)
          else if kw "PRIORITY" then Some (parse_priority p toks)
          else if kw "CATEGORY" then Some (parse_category p toks)
          else if kw "MAXJOBS" then Some (parse_maxjobs p toks)
          else if kw "CONFIG" then Some (accept p)
          else if kw "SPLICE" then parse_splice parse p toks
          else if kw "NODE_STATUS_FILE" then Some (parse_node_status_file p toks)
          else if kw "REJECT" then Some (parse_reject p filename lineNumber toks)
          else if kw "JOBSTATE_LOG" then Some (parse_jobstate_log p toks)
          else if kw "PRE_SKIP" then Some (parse_pre_skip p toks)
          else if kw "DONE" then Some (parse_done p toks)
          else Some (fail p)
      end
  end%string.

Fixpoint parse_lines (parse : Parser -> bytes -> result) (p : Parser) (filename directory : bytes)
    (lineNumber : Z) (lines : list bytes) : result :=
  match lines with
  | [] => Some (accept p)
  | line :: lines' =>
      match parse_line parse p filename directory (lineNumber + 1) line with
      | Some (Done (p', true)) => parse_lines parse p' filename directory (lineNumber + 1) lines'
      | r => r
      end
  end.

(** parse().  [None] is an exhausted fuel: [fuel] bounds the depth of nested splices.  [opened]: the files
    that the parser has open already. *)
Fixpoint parse (fuel opened : nat) (useDagDir : bool) (p : Parser) (filename : bytes) : result :=
  match fuel with
  | O => None
  | S fuel' =>
      let p1 := p <| _thisDagNum ::= Z.succ |> in
      let directory := if useDagDir then condor_dirname filename else [] in
      match Cd2TmpDir (p_cwd p1) directory with
      | None => Some (fail p1)
      | Some cwd =>
          (* the destructor of dagDir, or the explicit call at the end *)
          let leave (r : Parser * bool) : outcome (Parser * bool) :=
            (let! cwd' := Cd2MainDir (p_cwd p) directory (p_cwd r.1) in Done (r.1 <| p_cwd := cwd' |>, r.2))%outcome in
          let p2 := p1 <| p_cwd := cwd |> in
          match fopen opened cwd (if useDagDir then condor_basename filename else filename) with
          | None => Some (leave (p2, false))
          | Some file =>
              match parse_lines (parse fuel' (S opened) useDagDir) p2 filename directory 0 (getlines (fgets_lines file []) [] []) with
              | None => None
              | Some (EXCEPT e) => Some (EXCEPT e)
              | Some (Done (p3, false)) => Some (leave (p3, false))
              | Some (Done (p3, true)) => Some
                  (let! p4 := LiftSplices p3 in leave (RecordInitialAndFinalNodes p4, true))%outcome
              end
          end
      end
  end.

(** ** Reading the DAG: main_init() *)

Fixpoint parse_files (fuel : nat) (useDagDir : bool) (p : Parser) (files : list bytes) : option (outcome Parser) :=
  match files with
  | [] => Some (Done p)
  | file :: files' =>
      match parse fuel 0 useDagDir p file with
      | None => None
      | Some (EXCEPT e) => Some (EXCEPT e)
      | Some (Done (_, false)) => Some (EXCEPT "Failed to parse")
      | Some (Done (p', true)) => parse_files fuel useDagDir p' files'
      end
  end.

Definition SetDefaultPriorities (defaultPriority : Z) (d : Dag) : Dag :=
  if defaultPriority =? 0 then d
  else each_job (fun j =>
         if negb (_hasNodePriority j) then j <| _hasNodePriority := true |> <| _nodePriority := defaultPriority |>
         else if _nodePriority j <? defaultPriority then j <| _nodePriority := defaultPriority |> else j) d (_jobs d).

Fixpoint check_throttles (l : list (bytes * ThrottleInfo)) : outcome unit :=
  match l with
  | [] => Done tt
  | (_, info) :: l' =>
      if _totalJobs info <? 0 then EXCEPT "Assertion ERROR on (info->_totalJobs >= 0)"
      else
        let! _ := (if _totalJobs info <? 1 then check_warning_strictness strict 2 tt else Done tt) in
        let! _ := (if negb (isSet info) then check_warning_strictness strict 2 tt else Done tt) in
        check_throttles l'
  end%outcome.
Definition CheckThrottleCats (d : Dag) : outcome unit := check_throttles (map_to_list (_catThrottles d)).

(** Job::ResolveVarsInterpolations(), and for every node. *)
Definition resolve_vars (j : Job) : Job :=
  j <| varsFromDag ::= fmap (fun nv => (nv.1, replaceString nv.2 (s2b "$(JOB)") (_jobName j))) |>.
Definition ResolveVarsInterpolations (d : Dag) : Dag := each_job resolve_vars d (_jobs d).

(** What main_init() does with the input files and the rescue DAG, up to the cycle check. *)
Definition read_dag (fuel : nat) (useDagDir : bool) (defaultPriority : Z) (cwd : bytes) (files : list bytes)
    (rescue : option bytes) : option (outcome Parser) :=
  let p0 := new_Parser 0 (-1) (bool_decide (1 < length files)%nat) [] (s2b ".") cwd in
  match parse_files fuel useDagDir p0 files with
  | None => None
  | Some (EXCEPT e) => Some (EXCEPT e)
  | Some (Done p1) =>
      match LiftSplices (p1 <| p_dag ::= SetDefaultPriorities defaultPriority |>) with
      | EXCEPT e => Some (EXCEPT e)
      | Done p2 =>
          match
            match rescue with
            | None => Some (Done p2)
            | Some file => parse_files fuel useDagDir (p2 <| _mungeNames := false |>) [file]
            end with
          | Some (Done p3) => Some
              (let! _ := CheckThrottleCats (p_dag p3) in Done (p3 <| p_dag ::= ResolveVarsInterpolations |>))%outcome
          | r => r
          end
      end
  end.
End parser.
