(* ===== verification/DagRead.v ===== *)
(** What DAG input files build: whatever the files hold, splices included, a DAG that was read without
    an error is one the scheduler can start from, so that what DagSafety.v, DagTermination.v and
    DagProgress.v show holds of every DAG that DAGMan runs.

    The invariant of the parser, [parsing], says of the DAG under construction together with the nodes
    of its pending splices what DagBuild.v and DagStart.v say of a DAG; it is kept by every line.  Reading
    ends, since nested files stay open and the process can open only so many. *)

From S2P Require Import Prelude HashTable CondorId PriorityList DagJob Dag DagCycle DagBuild.
From S2P Require Import CheckEvents DagRun DagLogic DagSafety DagTermination DagBooks DagProgress DagStart DagParse.

Open Scope Z_scope.

(** ** Nodes that differ only in their description *)

(** Everything the invariants look at but the name. *)
Record kin (j j' : Job) : Prop := mkKin {
  k_id : _jobID j' = _jobID j;
  k_status : _Status j' = _Status j;
  k_par : _parents j' = _parents j;
  k_wait : _waiting j' = _waiting j;
  k_child : _children j' = _children j;
  k_visited : _visited j' = _visited j;
  k_order : _dfsOrder j' = _dfsOrder j;
  k_fin : _final j' = _final j;
  k_procs : _queuedNodeJobProcs j' = _queuedNodeJobProcs j;
  k_counted : countedAsDone j' = countedAsDone j;
  k_retries : retries j' = retries j;
  k_max : 0 <= retry_max j -> 0 <= retry_max j';
  k_fmax : _final j = true -> retry_max j' = retry_max j
}.
#[export] Instance kin_preorder : PreOrder kin.
Proof.
  split; [by split|]. intros a b c [] []. split; try congruence; [auto|]. intros Hf.
  rewrite k_fmax1 by congruence. auto.
Qed.

Definition namesake (j j' : Job) : Prop := kin j j' /\ _jobName j' = _jobName j.
#[export] Instance namesake_preorder : PreOrder namesake.
Proof. split; [by split|]. intros a b c [? ?] [? ?]. split; [by etransitivity|congruence]. Qed.

Lemma kin_resting j j' : kin j j' -> resting j -> resting j'.
Proof.
  intros [] (? & ? & ? & ? & ? & Hm). split_and!; auto; try congruence.
  - unfold IsActive in *. by rewrite k_status0.
  - intros Hf. rewrite k_fin0 in Hf. rewrite k_fmax0; auto.
Qed.
Lemma namesake_unstarted j j' : namesake j j' -> unstarted j j'.
Proof.
  intros [[] ?]. split; auto; try congruence. unfold IsActive. by rewrite k_status0.
Qed.

(** The same nodes, up to a relation. *)
Definition node_wise (R : relation Job) (m m' : gmap Z Job) : Prop := forall i, option_Forall2 R (m !! i) (m' !! i).

#[export] Instance node_wise_preorder R `{!PreOrder R} : PreOrder (node_wise R).
Proof.
  split; [intros m i; destruct (m !! i); by constructor|]. intros a b c Hab Hbc i.
  specialize (Hab i). specialize (Hbc i). destruct Hab; inversion Hbc; subst; constructor. by etransitivity.
Qed.
Lemma node_wise_back {R m m'} : node_wise R m m' -> forall i j', m' !! i = Some j' -> exists j, m !! i = Some j /\ R j j'.
Proof. intros Hm i j' Hj. specialize (Hm i). rewrite Hj in Hm. inversion Hm; subst. eauto. Qed.
Lemma node_wise_forth {R m m'} : node_wise R m m' -> forall i j, m !! i = Some j -> exists j', m' !! i = Some j' /\ R j j'.
Proof. intros Hm i j Hj. specialize (Hm i). rewrite Hj in Hm. inversion Hm; subst. eauto. Qed.
Lemma node_wise_is_Some {R m m'} i : node_wise R m m' -> is_Some (m' !! i) <-> is_Some (m !! i).
Proof. intros Hm. specialize (Hm i). inversion Hm; split; intros []; done || eauto. Qed.
Lemma node_wise_insert R `{!PreOrder R} m i j j' : m !! i = Some j -> R j j' -> node_wise R m (<[i := j']> m).
Proof.
  intros Hj Hr k. destruct (decide (k = i)) as [->|Hne].
  - rewrite lookup_insert_eq, Hj. by constructor.
  - rewrite lookup_insert_ne by done. destruct (m !! k); by constructor.
Qed.
Lemma node_wise_mono (R R' : relation Job) m m' :
  (forall j j', R j j' -> R' j j') -> node_wise R m m' -> node_wise R' m m'.
Proof. intros Hr Hm i. destruct (Hm i); constructor; auto. Qed.

Lemma built_kin d d' next :
  built d next -> node_wise kin (_nodeIDHash d) (_nodeIDHash d') -> (forall i, i ∈ _jobs d' <-> i ∈ _jobs d) ->
  built d' next.
Proof.
  intros [[Hi Hj Hs] Hn Hm Hw Hd Hf] Hk Hjobs.
  assert (Hedge : forall u v, edge d' u v <-> edge d u v).
  { intros u v. split.
    - intros (j' & Hj' & Hv). destruct (node_wise_back Hk _ _ Hj') as (j & Hj0 & []). exists j. split; [done|]. congruence.
    - intros (j & Hj0 & Hv). destruct (node_wise_forth Hk _ _ Hj0) as (j' & Hj' & []). exists j'. split; [done|]. congruence. }
  split.
  - split.
    + intros i j' (j & Hj0 & [])%(node_wise_back Hk). rewrite k_id0. by apply Hi.
    + intros i. by rewrite Hjobs, Hj, (node_wise_is_Some i Hk).
    + intros u v. rewrite Hedge, Hs. split.
      * intros (j & Hj0 & Hu). destruct (node_wise_forth Hk _ _ Hj0) as (j' & Hj' & []). exists j'. split; [done|]. congruence.
      * intros (j' & Hj' & Hu). destruct (node_wise_back Hk _ _ Hj') as (j & Hj0 & []). exists j. split; [done|]. congruence.
  - intros i Hsome. apply Hn. by rewrite <- (node_wise_is_Some i Hk).
  - intros i j' (j & Hj0 & [])%(node_wise_back Hk). rewrite k_visited0, k_order0. by eapply Hm.
  - intros i j' (j & Hj0 & [])%(node_wise_back Hk). rewrite k_wait0, k_par0. by eapply Hw.
  - intros i j' q (j & Hj0 & [])%(node_wise_back Hk). rewrite k_wait0, k_par0. intros H1 H2.
    destruct (Hd i j q Hj0 H1 H2) as (jq & Hjq & Hst). destruct (node_wise_forth Hk _ _ Hjq) as (jq' & Hjq' & []).
    exists jq'. split; [done|]. congruence.
  - intros i j' (j & Hj0 & [])%(node_wise_back Hk). rewrite k_fin0, k_par0, k_child0, k_status0. by eapply Hf.
Qed.

Lemma quiet_kin d d' :
  quiet d -> node_wise kin (_nodeIDHash d) (_nodeIDHash d') ->
  _readyQ d' = _readyQ d -> _numNodesDone d' = _numNodesDone d -> _numJobsSubmitted d' = _numJobsSubmitted d ->
  (forall c t, _catThrottles d' !! c = Some t -> _currentJobs t = 0) ->
  _final_job d' = _final_job d -> _preRunNodeCount d' = _preRunNodeCount d ->
  _postRunNodeCount d' = _postRunNodeCount d -> _numNodesFailed d' = _numNodesFailed d -> quiet d'.
Proof.
  intros [Hn Hr Hc Ht Hs Hf Hx] Hk E1 E2 E3 Ht' E4 E5 E6 E7.
  split; rewrite ?E1, ?E2, ?E3, ?E4, ?E5, ?E6, ?E7; try done.
  - intros i j' (j & Hj & Hkj)%(node_wise_back Hk). eapply kin_resting; eauto.
  - intros i j' (j & Hj & [])%(node_wise_back Hk). rewrite k_status0. by apply Hs.
  - intros f (j & Hj & Hfj)%Hf. destruct (node_wise_forth Hk _ _ Hj) as (j' & Hj' & []). exists j'. split; [done|congruence].
Qed.

(** A store with more nodes, apart from those that are there. *)
Lemma built_union d1 d2 d' n1 n2 :
  built d1 n1 -> built d2 n2 -> (forall i, is_Some (_nodeIDHash d2 !! i) -> n1 <= i) -> n1 <= n2 ->
  _nodeIDHash d' = _nodeIDHash d1 ∪ _nodeIDHash d2 -> (forall i, i ∈ _jobs d' <-> i ∈ _jobs d1 \/ i ∈ _jobs d2) ->
  built d' n2.
Proof.
  intros [[Hi1 Hj1 Hs1] Hn1 Hm1 Hw1 Hd1 Hf1] [[Hi2 Hj2 Hs2] Hn2 Hm2 Hw2 Hd2 Hf2] Hlo Hle Hnode Hjobs.
  assert (Hdisj : _nodeIDHash d1 ##ₘ _nodeIDHash d2).
  { apply map_disjoint_spec. intros i j j' H1 H2. assert (i < n1) by (apply Hn1; eauto).
    assert (n1 <= i) by (apply Hlo; eauto). lia. }
  assert (Hlk : forall i j, _nodeIDHash d' !! i = Some j <-> _nodeIDHash d1 !! i = Some j \/ _nodeIDHash d2 !! i = Some j).
  { intros i j. rewrite Hnode. by apply lookup_union_Some. }
  split.
  - split.
    + intros i j [Hj|Hj]%Hlk; auto.
    + intros i. rewrite Hjobs, Hj1, Hj2. split.
      * intros [[j Hj]|[j Hj]]; exists j; apply Hlk; auto.
      * intros [j [Hj|Hj]%Hlk]; eauto.
    + intros u v. split.
      * intros (j & [Hj|Hj]%Hlk & Hv).
        -- destruct (proj1 (Hs1 u v)) as (jv & ? & ?); [by exists j|]. exists jv. rewrite Hlk. auto.
        -- destruct (proj1 (Hs2 u v)) as (jv & ? & ?); [by exists j|]. exists jv. rewrite Hlk. auto.
      * intros (j & [Hj|Hj]%Hlk & Hv).
        -- destruct (proj2 (Hs1 u v)) as (ju & ? & ?); [by exists j|]. exists ju. rewrite Hlk. auto.
        -- destruct (proj2 (Hs2 u v)) as (ju & ? & ?); [by exists j|]. exists ju. rewrite Hlk. auto.
  - intros i [j [Hj|Hj]%Hlk]; [|apply Hn2; eauto]. assert (i < n1) by (apply Hn1; eauto). lia.
  - intros i j [Hj|Hj]%Hlk; eauto.
  - intros i j [Hj|Hj]%Hlk; eauto.
  - intros i j q [Hj|Hj]%Hlk H1 H2; [destruct (Hd1 i j q) as (jq & ? & ?)|destruct (Hd2 i j q) as (jq & ? & ?)]; auto; exists jq; rewrite Hlk; auto.
  - intros i j [Hj|Hj]%Hlk; eauto.
Qed.

(** ** The invariant *)

(** The DAG with another node list. *)
Definition over (l : list Z) (d : Dag) : Dag := d <| _jobs := l |>.

Definition limits_ok (ts : ThrottleByCategory) : Prop := forall c t, ts !! c = Some t -> noThrottleSetting <= _maxJobs t.

(** The nodes of the DAG and of the splices [pend] that are still to be lifted. *)
Definition all_jobs_of (p : Parser) (pend : list Splice) : list Z := _jobs (p_dag p) ++ concat (s_jobs <$> pend).

(** [lo] is the first id that this parse could give out. *)
Record parsing_with (lo : Z) (p : Parser) (pend : list Splice) : Prop := mkParsing {
  g_built : built (over (all_jobs_of p pend) (p_dag p)) (_jobID_counter p);
  g_idle : idle (p_dag p);
  g_ids : forall i, is_Some (_nodeIDHash (p_dag p) !! i) -> lo <= i;
  g_next : lo <= _jobID_counter p;
  g_nodup : NoDup (all_jobs_of p pend);
  g_limits : limits_ok (_catThrottles (p_dag p));
  g_splices : Forall (fun s => limits_ok (s_throttles s)) pend
}.

Definition table_ok (t : HT.HashTable bytes Splice) : Prop :=
  HT.wf hashFuncMyString t /\ HT.unique t /\ HT.duplicateKeyBehavior t = HT.rejectDuplicateKeys.
Definition pending (p : Parser) : list Splice := (HT.entries (_splices p)).*2.
Definition parsing (lo : Z) (p : Parser) : Prop := table_ok (_splices p) /\ parsing_with lo p (pending p).

(** A line that was accepted keeps the invariant. *)
Definition line_ok (lo : Z) (r : outcome (Parser * bool)) : Prop :=
  match r with Done (p, true) => parsing lo p | _ => True end.

Lemma own_node lo p pend i : parsing_with lo p pend -> i ∈ _jobs (p_dag p) -> is_Some (_nodeIDHash (p_dag p) !! i).
Proof.
  intros [[[_ Hj _] _] _] Hi. apply (Hj i). simpl. unfold all_jobs_of. set_solver.
Qed.
Lemma node_id lo p pend i j : parsing_with lo p pend -> _nodeIDHash (p_dag p) !! i = Some j -> _jobID j = i.
Proof. intros [[[Hi _ _] _] _]. apply Hi. Qed.

(** What a state looks like after nodes changed their descriptions. *)
Lemma parsing_kin lo p p' pend :
  parsing_with lo p pend -> node_wise kin (_nodeIDHash (p_dag p)) (_nodeIDHash (p_dag p')) ->
  _jobs (p_dag p') = _jobs (p_dag p) -> _jobID_counter p' = _jobID_counter p ->
  idle (p_dag p') -> limits_ok (_catThrottles (p_dag p')) -> parsing_with lo p' pend.
Proof.
  intros [Hb Hi Hids Hn Hnd Hl Hs] Hk Ej Ec Hi' Hl'. unfold all_jobs_of in *. split; try done; rewrite ?Ec; try done.
  - eapply built_kin; [exact Hb|done|]. intros i. unfold over, all_jobs_of. simpl. by rewrite Ej.
  - intros i. rewrite (node_wise_is_Some i Hk). apply Hids.
  - unfold all_jobs_of. by rewrite Ej.
Qed.

(** Fields the invariant does not look at. *)
Lemma parsing_ext lo p p' :
  parsing lo p -> p_dag p' = p_dag p -> _splices p' = _splices p -> _jobID_counter p' = _jobID_counter p -> parsing lo p'.
Proof.
  intros [Ht Hp] Ed Es Ec. unfold parsing, pending. rewrite Es. split; [done|].
  eapply parsing_kin; [exact Hp|rewrite Ed; reflexivity|by rewrite Ed|done|rewrite Ed; apply Hp|rewrite Ed; apply Hp].
Qed.

(** A line that changes the description of one node. *)
Lemma on_job_kin lo p job j j' f :
  parsing lo p -> _nodeIDHash (p_dag p) !! job = Some j -> f j = j' -> namesake j j' -> parsing lo (on_job p job f).
Proof.
  intros [Ht Hp] Hj Hf Hk. unfold on_job. rewrite Hj, Hf. split; [done|].
  eapply parsing_kin; [exact Hp| |done|done| |apply Hp].
  - simpl. eapply node_wise_insert; [apply _|done|apply Hk].
  - eapply idle_put; [apply Hp|done|by apply namesake_unstarted].
Qed.

(** Throttles *)
Lemma parsing_throttles lo p ts :
  parsing lo p -> limits_ok ts -> (forall c t, ts !! c = Some t -> _currentJobs t = 0) ->
  parsing lo (p <| p_dag ::= fun d => d <| _catThrottles := ts |> |>).
Proof.
  intros [Ht Hp] Hl Hc. split; [done|]. eapply parsing_kin; [exact Hp|reflexivity|done|done| |done].
  destruct (g_idle _ _ _ Hp) as [Hq Hm Hd]. split; [|done|done]. eapply quiet_kin; try done.
Qed.

Lemma with_job_ok lo p name k :
  (forall job j, _nodeIDHash (p_dag p) !! job = Some j -> line_ok lo (k job j)) -> line_ok lo (with_job p name k).
Proof.
  intros Hk. unfold with_job, obind, job_at. destruct (find_job p name) as [[job|]|]; [|done..].
  destruct (_nodeIDHash (p_dag p) !! job) as [j|] eqn:Hj; [|done]. by apply Hk.
Qed.

Lemma strictness_ok {A} strict level (a a' : A) : check_warning_strictness strict level a = Done a' -> a' = a.
Proof. unfold check_warning_strictness. case_match; congruence. Qed.

(** ** The lines that describe a node *)

Ltac by_kin := eapply on_job_kin; [eassumption|eassumption|reflexivity|by repeat split].

Lemma AddScript_kin j post cmd j' ok why : AddScript j post cmd = (j', ok, why) -> namesake j j'.
Proof. unfold AddScript. repeat case_match; intros He; simplify_eq; by repeat split. Qed.
Lemma AddPreSkip_kin j code j' ok why : AddPreSkip j code = (j', ok, why) -> namesake j j'.
Proof. unfold AddPreSkip. repeat case_match; intros He; simplify_eq; by repeat split. Qed.

Section lines.
Context `{Files} (strict lo : Z).

Lemma parse_script_ok p line : parsing lo p -> line_ok lo (parse_script p line).
Proof.
  intros Hp. unfold parse_script. destruct (strtok _ _) as [[pp rest]|]; [|done].
  case_match; [|done]. destruct (strtok _ rest) as [[name r]|]; [|done].
  destruct (isReservedWord name); [done|]. apply with_job_ok. intros job j Hj.
  destruct (skip_delims _ _) as [|c cmd]; [done|].
  destruct (AddScript j _ _) as [[j' ok] why] eqn:Ha. destruct ok; [|done].
  eapply on_job_kin; [done..|]. by eapply AddScript_kin.
Qed.

Lemma parse_pre_skip_ok p toks : parsing lo p -> line_ok lo (parse_pre_skip p toks).
Proof.
  intros Hp. unfold parse_pre_skip. destruct toks as [|name toks]; [done|].
  destruct (isReservedWord name); [done|]. apply with_job_ok. intros job j Hj.
  destruct toks as [|code [|]]; [done| |done]. destruct (parse_int code); [|done].
  destruct (AddPreSkip j _) as [[j' []] why] eqn:Ha; [|done]. eapply on_job_kin; [done..|]. by eapply AddPreSkip_kin.
Qed.

Lemma on_job_at p job f j : _nodeIDHash (p_dag p) !! job = Some j -> _nodeIDHash (p_dag (on_job p job f)) !! job = Some (f j).
Proof. intros Hj. unfold on_job. rewrite Hj. simpl. apply lookup_insert_eq. Qed.

Lemma parse_retry_ok p toks : parsing lo p -> line_ok lo (parse_retry p toks).
Proof.
  intros Hp. unfold parse_retry. destruct toks as [|name toks]; [done|]. apply with_job_ok. intros job j Hj.
  destruct (_final j) eqn:Hf; [done|]. destruct toks as [|s toks]; [done|]. destruct (parse_int s) as [n|]; [|done].
  destruct (Z.ltb_spec n 0); [done|]. cbn [default].
  set (f := fun j : Job => j <| retry_max := n |>).
  assert (H1 : parsing lo (on_job p job f)).
  { eapply on_job_kin; [done..|]. repeat split; try done. simpl. congruence. }
  repeat (case_match; try done). eapply on_job_kin; [exact H1|by apply on_job_at|reflexivity|by repeat split].
Qed.

Lemma parse_abort_ok p toks : parsing lo p -> line_ok lo (parse_abort p toks).
Proof.
  intros Hp. unfold parse_abort. destruct toks as [|name toks]; [done|]. apply with_job_ok. intros job j Hj.
  repeat (case_match; try done); by_kin.
Qed.

Lemma parse_pairs_kin fuel s n j j' ok : parse_pairs strict fuel s n j = Done (j', ok) -> namesake j j'.
Proof.
  revert s n j. induction fuel as [|fuel IH]; intros s n j; simpl; [intros [= <- _]; reflexivity|].
  destruct (read_pair s) as [| |name value rest]; [intros [= <- _]; reflexivity..|].
  unfold obind. case_match eqn:He; [|done]. intros Hp%IH. etransitivity; [|exact Hp].
  case_bool_decide; [apply strictness_ok in He|]; simplify_eq; by repeat split.
Qed.
Lemma parse_vars_ok p line : parsing lo p -> line_ok lo (parse_vars strict p line).
Proof.
  intros Hp. unfold parse_vars. destruct (strtok _ _) as [[name rest]|]; [|done]. apply with_job_ok. intros job j Hj. unfold obind.
  destruct (parse_pairs _ _ _ _ _) as [[j' []]|] eqn:He; [|done..]. eapply on_job_kin; [done..|]. by eapply parse_pairs_kin.
Qed.

Lemma parse_priority_ok p toks : parsing lo p -> line_ok lo (parse_priority strict p toks).
Proof.
  intros Hp. unfold parse_priority. destruct toks as [|name toks]; [done|].
  destruct (isReservedWord name); [done|]. apply with_job_ok. intros job j Hj.
  repeat (case_match; try done); [unfold check_warning_strictness; case_match; [done|]|]; by_kin.
Qed.
End lines.

(** ** Throttles *)

Definition unused (ts : ThrottleByCategory) : Prop :=
  limits_ok ts /\ forall c t, ts !! c = Some t -> _currentJobs t = 0.

Lemma unused_insert ts c t : unused ts -> noThrottleSetting <= _maxJobs t -> _currentJobs t = 0 -> unused (<[c := t]> ts).
Proof.
  intros [Hl Hc] Hm Ht. split; intros c' t'; (destruct (decide (c' = c)) as [->|Hne];
    [rewrite lookup_insert_eq; intros [= <-]; done|rewrite lookup_insert_ne by done; eauto]).
Qed.
Lemma unused_alter ts c f :
  unused ts -> (forall t, _maxJobs (f t) = _maxJobs t /\ _currentJobs (f t) = _currentJobs t) -> unused (alter f c ts).
Proof.
  intros [Hl Hc] Hf. split; intros c' t' Ht; apply lookup_alter_Some in Ht as [(-> & t & Ht & ->)|[_ Ht]]; eauto;
    destruct (Hf t) as [E1 E2]; rewrite ?E1, ?E2; eauto.
Qed.
Lemma AddCategory_unused ts c n ts' : unused ts -> noThrottleSetting <= n -> AddCategory ts c n = Done ts' -> unused ts'.
Proof. intros Hu Hn. unfold AddCategory. case_match; [done|]. intros [= <-]. by apply unused_insert. Qed.

Section throttles.
Context (strict : Z).

Lemma SetThrottle_unused ts c n ts' : unused ts -> noThrottleSetting <= n -> SetThrottle strict ts c n = Done ts' -> unused ts'.
Proof.
  intros Hu Hn. unfold SetThrottle. destruct (ts !! c) as [t|] eqn:Ht; [|by apply AddCategory_unused].
  assert (Hi : unused (<[c := t <| _maxJobs := n |>]> ts)) by (apply unused_insert; [done..|]; simpl; by eapply Hu).
  case_match; [intros ->%strictness_ok; done|by intros [= <-]].
Qed.
Lemma SetCategory_unused ts foreign j c ts' j' :
  unused ts -> SetCategory strict ts foreign j c = Done (ts', j') -> unused ts' /\ namesake j j'.
Proof.
  intros Hu. unfold SetCategory, obind.
  destruct (match _throttleInfo j with Some _ => _ | None => _ end) as [[]|] eqn:He; [|done].
  destruct (match ts !! c with Some _ => _ | None => _ end) as [ts1|] eqn:H1; [|done]. intros [= <- <-].
  assert (Hu1 : unused ts1).
  { destruct (ts !! c); [by simplify_eq|]. by apply (AddCategory_unused _ _ _ _ Hu (Z.le_refl _) H1). }
  split; [|by repeat split]. destruct (_throttleInfo j) as [old|]; [|by apply unused_alter].
  destruct foreign; [by apply unused_alter|]. destruct (streq c old); [done|]. apply unused_alter; [|done]. by apply unused_alter.
Qed.
Lemma merge_throttles_unused l ts ts' :
  unused ts -> Forall (fun ct => noThrottleSetting <= _maxJobs ct.2) l -> merge_throttles strict l ts = Done ts' -> unused ts'.
Proof.
  intros Hu Hl. revert ts Hu. induction Hl as [|[c t] l Ht _ IH]; intros ts Hu; simpl; [by intros [= <-]|].
  unfold obind. case_match eqn:He; [|done]. apply IH. destruct (ts !! c) as [main|]; [case_match|].
  - apply strictness_ok in He as ->. done.
  - by eapply SetThrottle_unused.
  - by eapply SetThrottle_unused.
Qed.
End throttles.
Lemma prefix_throttles_limits prefix l ts ts' :
  limits_ok ts -> Forall (fun ct => noThrottleSetting <= _maxJobs ct.2) l -> prefix_throttles prefix l ts = Done ts' -> limits_ok ts'.
Proof.
  intros Hu Hl. revert ts Hu. induction Hl as [|[c t] l Ht _ IH]; intros ts Hu; simpl; [by intros [= <-]|].
  case_match; [done|]. apply IH. intros c' t'. rewrite lookup_insert_Some. intros [[_ <-]|[_ Hc]]; [done|eauto].
Qed.
Lemma limits_list ts : limits_ok ts -> Forall (fun ct => noThrottleSetting <= _maxJobs ct.2) (map_to_list ts).
Proof. intros Hl. apply Forall_forall. intros [c t] Ht%elem_of_map_to_list. by eapply Hl. Qed.

Lemma parsing_unused lo p : parsing lo p -> unused (_catThrottles (p_dag p)).
Proof. intros [_ Hp]. split; [apply Hp|apply (d_throttles _ (d_quiet _ (g_idle _ _ _ Hp)))]. Qed.

(** ** Nodes and dependencies *)

Lemma AddJob_over l d j d' :
  AddJob d j = Done (d', true) ->
  AddJob (over l d) j = Done (over (l ++ [_jobID j]) d', true) /\ _jobs d' = _jobs d ++ [_jobID j] /\
  _catThrottles d' = _catThrottles d /\ exists j', _nodeIDHash d' = <[_jobID j := j']> (_nodeIDHash d).
Proof.
  unfold AddJob, over. simpl. repeat case_match; intros He; simplify_eq; split_and!; try done; simpl; [|by eauto].
  exists (SetStatus j STATUS_NOT_READY). by rewrite insert_insert_eq.
Qed.
Lemma AddNode_over l d next type name dir sub pre post noop isDone isFinal d' next' why :
  AddNode d next type name dir sub pre post noop isDone isFinal = Done (d', next', true, why) ->
  AddNode (over l d) next type name dir sub pre post noop isDone isFinal = Done (over (l ++ [next]) d', next', true, why) /\
  _jobs d' = _jobs d ++ [next] /\ _catThrottles d' = _catThrottles d /\ next' = next + 1 /\
  exists j, _nodeIDHash d' = <[next := j]> (_nodeIDHash d).
Proof.
  unfold AddNode, obind.
  replace (IsValidNodeName (over l d) name) with (IsValidNodeName d name) by (by destruct name as [[]|]).
  destruct (IsValidNodeName d name) as [[valid w]|]; [|done]. destruct valid; [|done].
  destruct name as [name|]; [|by destruct (IsValidSubmitFileName sub)].
  destruct (IsValidSubmitFileName sub) as [[] w2]; [|done]. destruct sub as [sub|]; [|done].
  set (node := new_Job next type name dir sub). assert (Hn0 : _jobID node = next) by done.
  assert (Hid : forall j post cmd j' ok why, AddScript j post cmd = (j', ok, why) -> _jobID j' = _jobID j).
  { intros j b cmd j' ok why0 Ha. apply (k_id _ _ (proj1 (AddScript_kin _ _ _ _ _ _ Ha))). }
  destruct (match pre with Some _ => AddScript node false pre | None => (node, true, []) end) as [[n1 ok1] why1] eqn:H1.
  assert (Hn1 : _jobID n1 = next) by (destruct pre; [apply Hid in H1; congruence|by simplify_eq]).
  destruct ok1; [|done]. cbn [negb].
  destruct (match post with Some _ => AddScript n1 true post | None => (n1, true, []) end) as [[n2 ok2] why2'] eqn:H2.
  assert (Hn2 : _jobID n2 = next) by (destruct post; [apply Hid in H2; congruence|by simplify_eq]).
  destruct ok2; [|done]. cbn [negb].
  match goal with |- context [AddJob d ?n] => destruct (AddJob d n) as [[d1 added]|] eqn:Ha; [assert (Hn3 : _jobID n = next) by
    (destruct (isDone && negb isFinal); done)|] end; [|done].
  destruct added; [|done]. intros He. injection He as <- <- <-.
  destruct (AddJob_over l _ _ _ Ha) as (Ho & Hj & Ht & Hm). rewrite Ho. rewrite Hn3 in *. done.
Qed.
Lemma AddDependency_over strict l d p c d' ok :
  AddDependency strict d (Some p) (Some c) = Done (d', ok) ->
  AddDependency strict (over l d) (Some p) (Some c) = Done (over l d', ok) /\ _jobs d' = _jobs d.
Proof.
  unfold AddDependency, obind, over. simpl. destruct (_nodeIDHash d !! p) as [jp|]; [|done].
  destruct (AddChild _ _ _) as [[[jp' ok1] w1]|]; [|done]. destruct ok1; simpl; [|intros [= <- <-]; done].
  destruct (_ !! c) as [jc|]; [|done]. destruct (AddParent _ _ _) as [[[jc' ok2] w2]|]; [|done].
  destruct ok2; [intros [= <- <-]; done|]. destruct (_ !! p); [|done].
  destruct (RemoveChild _ _) as [[? []] ?]; [|done]. intros [= <- <-]. done.
Qed.
Lemma set_done_over strict l d job d' ok :
  set_done_line strict d job = (d', ok) -> set_done_line strict (over l d) job = (over l d', ok) /\ _jobs d' = _jobs d.
Proof.
  unfold set_done_line, over. simpl. repeat case_match; intros [= <- <-]; done.
Qed.

Lemma all_jobs_other p d' pend : _jobs d' = _jobs (p_dag p) -> all_jobs_of (p <| p_dag := d' |>) pend = all_jobs_of p pend.
Proof. intros Hj. unfold all_jobs_of. simpl. by rewrite Hj. Qed.

Section more_lines.
Context `{Files} (strict lo : Z).

Lemma parse_category_ok p toks : parsing lo p -> line_ok lo (parse_category strict p toks).
Proof.
  intros Hp. unfold parse_category. destruct toks as [|name toks]; [done|].
  destruct (isReservedWord name); [done|]. apply with_job_ok. intros job j Hj.
  destruct (_final j); [done|]. destruct toks as [|category [|]]; [done| |done]. unfold obind.
  destruct (SetCategory _ _ _ _ _) as [[ts j']|] eqn:Hs; [|done].
  destruct (SetCategory_unused _ _ _ _ _ _ _ (parsing_unused lo p Hp) Hs) as [[Hl Hc] Hk].
  apply parsing_throttles; [|done..]. by eapply on_job_kin.
Qed.
Lemma parse_maxjobs_ok p toks : parsing lo p -> line_ok lo (parse_maxjobs strict p toks).
Proof.
  intros Hp. unfold parse_maxjobs. destruct toks as [|c [|v [|]]]; try done. destruct (parse_int v) as [n|]; [|done].
  destruct (Z.ltb_spec n 0); [done|]. unfold obind. destruct (SetThrottle _ _ _ _) as [ts|] eqn:Hs; [|done].
  eapply SetThrottle_unused in Hs as [Hl Hc]; [|by eapply parsing_unused|unfold noThrottleSetting; lia].
  by apply parsing_throttles.
Qed.
Lemma dot_options_fields p toks p' ok :
  dot_options p toks = (p', ok) -> p_dag p' = p_dag p /\ _splices p' = _splices p /\ _jobID_counter p' = _jobID_counter p.
Proof.
  revert p. remember (length toks) as n eqn:Hn. revert toks Hn. induction (lt_wf n) as [n _ IH]. intros toks -> p.
  destruct toks as [|t toks]; simpl; [by intros [= <- _]|]. repeat case_match; try (by intros [= <- _]);
    intros He; (eapply IH in He; [exact He|..|reflexivity]; simpl; lia).
Qed.
Lemma parse_dot_ok p toks : parsing lo p -> line_ok lo (parse_dot p toks).
Proof.
  intros Hp. unfold parse_dot. destruct toks as [|f toks]; [done|].
  destruct (dot_options p toks) as [p' []] eqn:Hd; [|done]. apply dot_options_fields in Hd as (? & ? & ?).
  by eapply parsing_ext.
Qed.
Lemma SetNodeStatusFileName_ok p f n : parsing lo p -> parsing lo (SetNodeStatusFileName p f n).
Proof. intros Hp. unfold SetNodeStatusFileName. case_match; [done|]. by eapply parsing_ext. Qed.
Lemma parse_node_status_file_ok p toks : parsing lo p -> line_ok lo (parse_node_status_file p toks).
Proof.
  intros Hp. unfold parse_node_status_file. repeat (case_match; try done); by apply SetNodeStatusFileName_ok.
Qed.
Lemma SetReject_fields p loc :
  p_dag (SetReject p loc) = p_dag p /\ _splices (SetReject p loc) = _splices p /\ _jobID_counter (SetReject p loc) = _jobID_counter p.
Proof. unfold SetReject. by case_match. Qed.
Lemma parse_reject_ok p f n toks : parsing lo p -> line_ok lo (parse_reject p f n toks).
Proof.
  intros Hp. unfold parse_reject. case_match; [|done].
  match goal with |- line_ok _ (accept (SetReject p ?l)) => destruct (SetReject_fields p l) as (? & ? & ?) end. by eapply parsing_ext.
Qed.
Lemma parse_jobstate_log_ok p toks : parsing lo p -> line_ok lo (parse_jobstate_log p toks).
Proof.
  intros Hp. unfold parse_jobstate_log, SetJobstateLogFileName. destruct toks as [|f [|]]; try done. simpl.
  case_match; [done|by eapply parsing_ext].
Qed.

(** A dependency *)
Lemma add_dependency_ok p a b d' :
  parsing lo p -> AddDependency strict (p_dag p) (Some a) (Some b) = Done (d', true) -> parsing lo (p <| p_dag := d' |>).
Proof.
  intros [Ht Hp] Ha. split; [done|]. change (pending (p <| p_dag := d' |>)) with (pending p).
  destruct (AddDependency_over strict (all_jobs_of p (pending p)) _ _ _ _ _ Ha) as [Ho Hj].
  pose proof (AddDependency_idle _ _ _ _ _ (fun i j => node_id _ _ _ i j Hp) (g_idle _ _ _ Hp) Ha) as Hidle.
  destruct (AddDependency_spec _ _ _ _ _ (fun i j => node_id _ _ _ i j Hp) Ha) as (jp & jc & _ & _ & _ & _ & _ & Hlk).
  assert (Ets : _catThrottles d' = _catThrottles (p_dag p)).
  { revert Ha. unfold AddDependency, obind. destruct (_ !! a) as [jp0|]; [|done].
    destruct (AddChild _ _ _) as [[[jp' []] w1]|]; [|done..]. simpl. destruct (_ !! b) as [jc0|]; [|done].
    destruct (AddParent _ _ _) as [[[jc' []] w2]|]; [by intros [= <-]|..|done].
    destruct (_ !! a); [|done]. by destruct (RemoveChild _ _) as [[? []] ?]. }
  destruct Hp as [Hb Hi Hids Hn Hnd Hl Hs]. split; rewrite ?all_jobs_other by done; simpl; try done.
  - eapply (proj1 (AddDependency_built _ _ _ _ _ _ Hb Ho)).
  - intros i. rewrite Hlk, fmap_is_Some. apply Hids.
  - by rewrite Ets.
Qed.
Lemma add_dependencies_ok p edges d' :
  parsing lo p -> add_dependencies strict (p_dag p) edges = Done (d', true) -> parsing lo (p <| p_dag := d' |>).
Proof.
  revert p. induction edges as [|[a b] edges IH]; intros p Hp; cbn [add_dependencies].
  - intros [= <-]. by eapply parsing_ext.
  - unfold obind. destruct (AddDependency strict (p_dag p) (Some a) (Some b)) as [[d1 []]|] eqn:Ha; [|done..]. intros Hr.
    eapply parsing_ext; [apply (IH (p <| p_dag := d1 |>)); [by eapply add_dependency_ok|exact Hr]|done..].
Qed.
Lemma parse_parent_ok p toks : parsing lo p -> line_ok lo (parse_parent strict p toks).
Proof.
  intros Hp. unfold parse_parent. destruct (split_child toks) as [before after]. unfold obind.
  destruct (all_named s_final p before) as [[[|a parents]|]|]; try done. destruct after as [after|]; [|done].
  destruct (all_named s_initial p after) as [[[|b children]|]|]; try done.
  destruct (add_dependencies _ _ _) as [[d' []]|] eqn:Ha; [|done..]. by eapply add_dependencies_ok.
Qed.

(** DONE *)
Lemma parse_done_ok p toks : parsing lo p -> line_ok lo (parse_done strict p toks).
Proof.
  intros [Ht Hp]. unfold parse_done. destruct toks as [|name [|]]; try done. unfold obind.
  destruct (find_job p name) as [[job|]|]; [|simpl; by case_match|done].
  destruct (set_done_line strict (p_dag p) job) as [d' []] eqn:Hd; [|done]. split; [done|].
  change (pending (p <| p_dag := d' |>)) with (pending p).
  destruct (set_done_over strict (all_jobs_of p (pending p)) _ _ _ _ Hd) as [Ho Hj].
  pose proof (set_done_idle _ _ _ _ (g_idle _ _ _ Hp) Hd) as Hidle.
  assert (Hsame : _catThrottles d' = _catThrottles (p_dag p) /\ forall i, is_Some (_nodeIDHash d' !! i) <-> is_Some (_nodeIDHash (p_dag p) !! i)).
  { revert Hd. unfold set_done_line. destruct (_ !! job) as [j|] eqn:Hjob; [|by intros [= <-]].
    destruct (_final j); [by intros [= <-]|]. intros [= <-]. split; [done|]. intros i. simpl.
    destruct (decide (i = job)) as [->|Hne]; [rewrite lookup_insert_eq, Hjob; naive_solver|by rewrite lookup_insert_ne]. }
  destruct Hsame as [Ets Hdom]. destruct Hp as [Hb Hi Hids Hn Hnd Hl Hs]. split; rewrite ?all_jobs_other by done; simpl; try done.
  - eapply set_done_built; [exact Hb|exact Ho].
  - intros i. rewrite Hdom. apply Hids.
  - by rewrite Ets.
Qed.

(** Nodes *)
Lemma add_node_ok p type name dir sub pre post noop isDone isFinal d' next' why :
  parsing lo p ->
  AddNode (p_dag p) (_jobID_counter p) type name dir sub pre post noop isDone isFinal = Done (d', next', true, why) ->
  parsing lo (p <| p_dag := d' |> <| _jobID_counter := next' |>).
Proof.
  intros [Ht Hp] Ha. split; [done|]. change (pending (p <| p_dag := d' |> <| _jobID_counter := next' |>)) with (pending p).
  destruct (AddNode_over (all_jobs_of p (pending p)) _ _ _ _ _ _ _ _ _ _ _ _ _ _ Ha) as (Ho & Hj & Ets & -> & j & Hm).
  pose proof (AddNode_idle _ _ _ _ _ _ _ _ _ _ _ _ _ _ (fun i => own_node _ _ _ i Hp) (g_idle _ _ _ Hp) Ha) as Hidle.
  destruct Hp as [Hb Hi Hids Hn Hnd Hl Hs].
  assert (Hfresh : _jobID_counter p ∉ all_jobs_of p (pending p)).
  { intros Hin. apply (wf_jobs _ (b_graph _ _ Hb)), (b_next _ _ Hb) in Hin. lia. }
  assert (Hperm : all_jobs_of (p <| p_dag := d' |> <| _jobID_counter := _jobID_counter p + 1 |>) (pending p) ≡ₚ
    _jobID_counter p :: all_jobs_of p (pending p)).
  { unfold all_jobs_of. simpl. rewrite Hj. solve_Permutation. }
  split; simpl; try done.
  - eapply built_kin; [exact (AddNode_built _ _ _ _ _ _ _ _ _ _ _ _ _ _ Hb Ho)|reflexivity|].
    intros i. simpl. rewrite Hperm, elem_of_cons, elem_of_app, list_elem_of_singleton. tauto.
  - intros i. rewrite Hm. intros [k Hk]. apply lookup_insert_Some in Hk as [[<- _]|[_ Hk]]; eauto.
  - lia.
  - rewrite Hperm. by apply NoDup_cons.
  - by rewrite Ets.
Qed.
Lemma SetNodeDagFile_ok p name file : parsing lo p -> line_ok lo (SetNodeDagFile p name file).
Proof.
  intros Hp. unfold SetNodeDagFile, obind. destruct (FindNodeByName _ _) as [[job|]|]; [|done..]. simpl.
  destruct (_nodeIDHash (p_dag p) !! job) as [j|] eqn:Hj; [by_kin|]. unfold on_job. by rewrite Hj.
Qed.
Lemma parse_node_ok p type keyword directory toks :
  parsing lo p -> line_ok lo (parse_node strict p type keyword directory toks).
Proof.
  intros Hp. unfold parse_node. destruct toks as [|name [|sub toks]]; [done..|].
  destruct (node_dir _ _ _) as [[[dir cwd'] toks2]|]; [|done].
  set (leave := fun r : Parser * bool => obind (Cd2MainDir (p_cwd p) (if streq directory [] then dir else []) cwd')
    (fun cwd => Done (r.1 <| p_cwd := cwd |>, r.2))). cbn zeta.
  assert (Hleave : forall r : Parser * bool, (r.2 = true -> parsing lo r.1) -> line_ok lo (leave r)).
  { intros [q b] Hq. unfold leave, obind. destruct (Cd2MainDir _ _ _); [|done]. destruct b; [|done]. simpl in *.
    eapply parsing_ext; [by apply Hq|done..]. }
  change (line_ok lo match node_flags toks2 with None => leave (p, false) | Some (noop, done) =>
    match LookupSplice p (munge_job_name p name) with Some _ => leave (p, false) | None =>
    obind (nested_names strict keyword sub) (fun '(submitFile, nested) =>
      obind (AddNode (p_dag p) (_jobID_counter p) type (Some (munge_job_name p name)) dir (Some submitFile) None None noop done
        (strcaseeq keyword (s2b "FINAL"))) (fun '(d, next, added, _) =>
          if negb added then leave (p <| p_dag := d |> <| _jobID_counter := next |>, false)
          else if streq nested [] then leave (p <| p_dag := d |> <| _jobID_counter := next |>, true)
          else obind (SetNodeDagFile (p <| p_dag := d |> <| _jobID_counter := next |>) (munge_job_name p name) nested) leave)) end end).
  destruct (node_flags toks2) as [[noop isDone]|]; [|by apply Hleave]. destruct (LookupSplice _ _); [by apply Hleave|].
  unfold obind at 1. destruct (nested_names _ _ _) as [[file nested]|]; [|done].
  unfold obind at 1. destruct (AddNode _ _ _ _ _ _ _ _ _ _ _) as [[[[d' next'] added] why]|] eqn:Ha; [|done].
  destruct added; [|by apply Hleave]. cbn [negb]. apply (add_node_ok p) in Ha; [|done].
  destruct (streq nested []); [by apply Hleave|]. unfold obind at 1.
  pose proof (SetNodeDagFile_ok _ (munge_job_name p name) nested Ha) as Hs.
  destruct (SetNodeDagFile _ _ _) as [[q ok]|]; [|done]. apply Hleave. simpl. intros ->. exact Hs.
Qed.
Lemma parse_subdag_ok p type keyword directory toks :
  parsing lo p -> line_ok lo (parse_subdag strict p type keyword directory toks).
Proof. intros Hp. unfold parse_subdag. repeat (case_match; try done). by apply parse_node_ok. Qed.
End more_lines.

(** ** Splices *)

Lemma each_job_spec (R : relation Job) `{!PreOrder R} f d jobs :
  (forall j, R j (f j)) -> exists m, each_job f d jobs = d <| _nodeIDHash := m |> /\ node_wise R (_nodeIDHash d) m.
Proof.
  intros Hf. revert d. induction jobs as [|job jobs IH]; intros d; simpl.
  { exists (_nodeIDHash d). split; [by destruct d|reflexivity]. }
  destruct (_nodeIDHash d !! job) as [j|] eqn:Hj; [|apply IH].
  destruct (IH (put_node d job (f j))) as (m & -> & Hm). exists m. split; [done|].
  etransitivity; [|exact Hm]. by eapply node_wise_insert.
Qed.
Lemma index_names_spec error d jobs d' :
  index_names error d jobs = Done d' ->
  exists names, d' = d <| _nodeNameHash := names |> /\
    (forall n i, _nodeNameHash d !! n = Some i -> names !! n = Some i) /\
    (forall i, i ∈ jobs -> exists j, _nodeIDHash d !! i = Some j /\ names !! _jobName j = Some i).
Proof.
  revert d. induction jobs as [|job jobs IH]; intros d; simpl.
  { intros [= <-]. exists (_nodeNameHash d). split_and!; [by destruct d|done|]. by intros i ?%elem_of_nil. }
  destruct (_nodeIDHash d !! job) as [j|] eqn:Hj; [|done]. destruct (_nodeNameHash d !! _jobName j) eqn:Hn; [done|].
  intros (names & -> & Hold & Hnew)%IH. exists names. split_and!; [done|..].
  - intros n i Hi. apply Hold. simpl. rewrite lookup_insert_ne; [done|congruence].
  - intros i [->|Hi]%elem_of_cons; [|by apply Hnew]. exists j. split; [done|]. apply Hold. simpl. apply lookup_insert_eq.
Qed.
Lemma adopt_categories_spec strict d jobs d' :
  unused (_catThrottles d) -> adopt_categories strict d jobs = Done d' ->
  exists m ts, d' = d <| _nodeIDHash := m |> <| _catThrottles := ts |> /\ node_wise namesake (_nodeIDHash d) m /\ unused ts.
Proof.
  revert d. induction jobs as [|job jobs IH]; intros d Hu; cbn [adopt_categories].
  { intros [= <-]. exists (_nodeIDHash d), (_catThrottles d). split_and!; [by destruct d|reflexivity|done]. }
  destruct (_nodeIDHash d !! job) as [j|] eqn:Hj; [|done]. destruct (_throttleInfo j) as [c|]; [|by apply IH].
  unfold obind. destruct (SetCategory _ _ _ _ _) as [[ts j']|] eqn:Hs; [|done].
  destruct (SetCategory_unused _ _ _ _ _ _ _ Hu Hs) as [Hu1 Hk].
  intros (m & ts' & -> & Hm & Hu')%IH; [|done]. exists m, ts'. split_and!; [done| |done].
  etransitivity; [|exact Hm]. simpl. by eapply node_wise_insert; [apply _|..].
Qed.

Lemma AssumeOwnershipofNodes_ok strict lo p s pend p' :
  parsing_with lo p (s :: pend) -> AssumeOwnershipofNodes strict p s = Done p' ->
  parsing_with lo p' pend /\ _splices p' = _splices p.
Proof.
  intros [Hb Hi Hids Hn Hnd Hl Hs]. apply Forall_cons in Hs as [Hls Hs]. unfold AssumeOwnershipofNodes, obind.
  destruct (merge_throttles _ _ _) as [ts|] eqn:Hm; [|done].
  apply merge_throttles_unused in Hm; [|split; [done|apply (d_throttles _ (d_quiet _ Hi))]|by apply limits_list].
  destruct (adopt_categories _ _ _) as [d1|] eqn:Ha; [|done].
  apply adopt_categories_spec in Ha as (m & ts' & -> & Hk & [Hl' Hc']); [|done]. simpl in Hk.
  destruct (index_names _ _ _) as [d2|] eqn:Hx; [|done].
  apply index_names_spec in Hx as (names & -> & Hold & Hnew). simpl in Hold, Hnew.
  set (d2 := set_field _nodeNameHash _ _). intros He.
  assert (Hp' : p_dag p' = d2 /\ _splices p' = _splices p /\ _jobID_counter p' = _jobID_counter p).
  { destruct (s_reject s); injection He as <-; [|done].
    match goal with |- context [SetReject ?q ?l] => destruct (SetReject_fields q l) as (-> & -> & ->) end. done. }
  clear He. destruct Hp' as (Ed & Es & Ec). split; [|done].
  assert (Ej : all_jobs_of p' pend = all_jobs_of p (s :: pend)).
  { unfold all_jobs_of. rewrite Ed. simpl. by rewrite (assoc_L (++)). }
  assert (Hkin : node_wise kin (_nodeIDHash (p_dag p)) m) by (eapply node_wise_mono; [|exact Hk]; by intros ?? []).
  split; rewrite ?Ej, ?Ec; try done.
  - rewrite Ed. eapply built_kin; [exact Hb|exact Hkin|done].
  - rewrite Ed. destruct Hi as [Hq Hnm Hnd0]. split; simpl.
    + eapply quiet_kin; [exact Hq|exact Hkin|done..].
    + intros i j' [Hi|Hi]%elem_of_app Hj'.
      * destruct (node_wise_back Hk _ _ Hj') as (j & Hj & _ & Hname). rewrite Hname. apply Hold. by apply Hnm.
      * destruct (Hnew i Hi) as (j & Hj & Hname). congruence.
    + unfold all_jobs_of in Hnd. simpl in Hnd. rewrite (assoc_L (++)) in Hnd. by apply NoDup_app in Hnd as [? _].
  - rewrite Ed. simpl. intros i. rewrite (node_wise_is_Some i Hkin). apply Hids.
  - by rewrite Ed.
Qed.

Lemma PropogateDirectory_ok lo p pend :
  parsing_with lo p pend -> parsing_with lo (PropogateDirectoryToAllNodes p) pend /\ _splices (PropogateDirectoryToAllNodes p) = _splices p.
Proof.
  intros Hp. unfold PropogateDirectoryToAllNodes. case_match; [done|]. split; [|done]. simpl.
  destruct (each_job_spec namesake (fun j => PrefixDirectory j (m_directory p)) (p_dag p) (_jobs (p_dag p))) as (m & He & Hm).
  { intros j. unfold PrefixDirectory. repeat case_match; by repeat split. }
  eapply parsing_kin; [exact Hp|..]; simpl; rewrite ?He; simpl; try done.
  - eapply node_wise_mono; [|exact Hm]. by intros ?? [].
  - eapply idle_nodes; [apply Hp|..|done].
    + simpl. intros i j' (j & Hj & Hk)%(node_wise_back Hm). exists j. split; [done|by apply namesake_unstarted].
    + simpl. intros i. by rewrite (node_wise_is_Some i Hm).
  - apply Hp.
Qed.

Lemma assume_all_ok strict lo l p p' :
  parsing_with lo p l.*2 -> assume_all strict p l = Done p' -> parsing_with lo p' [] /\ _splices p' = _splices p.
Proof.
  revert p. induction l as [|[k s] l IH]; intros p Hp; cbn [assume_all]; [intros [= <-]; done|].
  unfold obind. destruct (AssumeOwnershipofNodes _ _ _) as [p1|] eqn:Ha; [|done].
  destruct (AssumeOwnershipofNodes_ok strict lo p s l.*2 p1 Hp Ha) as [Hp1 Es]. intros [Hp2 Es2]%IH; [|done]. split; [done|congruence].
Qed.

Lemma all_splices_entries t : table_ok t -> all_splices t = HT.entries t.
Proof. intros (Hwf & _). unfold all_splices. by rewrite (HT.drain_all hashFuncMyString). Qed.

Lemma emptied_table t :
  table_ok t -> table_ok (HT.clear (HT.startIterations t)) /\ HT.entries (HT.clear (HT.startIterations t)) = [].
Proof.
  intros (Hwf & _ & Hr). assert (Hs : HT.wf hashFuncMyString (HT.startIterations t)).
  { apply HT.wf_set_cursor; [done|]. pose proof (HT.wf_pos _ _ Hwf). unfold HT.cursor_ok; simpl. lia. }
  destruct (HT.clear_spec hashFuncMyString (HT.startIterations t) Hs eq_refl) as [Hw Hu _ _ _]. split; [done|].
  unfold HT.entries, HT.contents; simpl. clear. by induction (HT.ht t).
Qed.

Lemma LiftSplices_ok strict lo p p' : parsing lo p -> LiftSplices strict p = Done p' -> parsing lo p' /\ pending p' = [].
Proof.
  intros [Ht Hp]. unfold LiftSplices, obind. rewrite all_splices_entries by done.
  destruct (assume_all _ _ _) as [p1|] eqn:Ha; [|done]. intros [= <-].
  destruct (assume_all_ok _ _ _ _ _ Hp Ha) as [Hp1 Es]. destruct (emptied_table _ Ht) as [Ht' He].
  set (p2 := p1 <| _splices ::= _ |>).
  assert (Hp2 : parsing_with lo p2 []).
  { eapply parsing_kin; [exact Hp1|reflexivity|done|done|apply Hp1|apply Hp1]. }
  destruct (PropogateDirectory_ok lo p2 [] Hp2) as [Hp3 Es3].
  assert (Hpend : pending (PropogateDirectoryToAllNodes p2) = []).
  { unfold pending. rewrite Es3. unfold p2. simpl. by rewrite Es, He. }
  split; [|done]. split; [|by rewrite Hpend]. rewrite Es3. unfold p2. simpl. by rewrite Es.
Qed.

Lemma RecordInitialAndFinalNodes_ok lo p : parsing lo p -> parsing lo (RecordInitialAndFinalNodes p).
Proof. intros Hp. by eapply parsing_ext. Qed.

(** A new splice: its nodes join the store. *)
Lemma inserted_entries t k (s : Splice) t' :
  table_ok t -> HT.insert hashFuncMyString t k s = (t', 0) -> table_ok t' /\ HT.entries t' ≡ₚ (k, s) :: HT.entries t.
Proof.
  intros (Hwf & Hu & Hr) Hi. pose proof (HT.insert_spec hashFuncMyString t k s Hwf Hu) as Hsp. rewrite Hi, Hr in Hsp.
  destruct Hsp as (Hwf' & Hu' & _ & Hr' & Hm); [done|]. split; [done|].
  unfold HT.insert in Hi. rewrite Hr in Hi. destruct (HT.find_bucket _ _); [done|]. injection Hi as <-.
  destruct (HT.addItem_spec hashFuncMyString t k s Hwf) as (_ & Hp & _). unfold HT.entries. by rewrite Hp.
Qed.

Lemma insert_splice_ok lo p q d2 s k t p' :
  parsing lo p -> parsing (_jobID_counter p) q -> pending q = [] -> _final_job (p_dag q) = None ->
  node_wise kin (_nodeIDHash (p_dag q)) (_nodeIDHash d2) -> s_jobs s = _jobs (p_dag q) -> limits_ok (s_throttles s) ->
  HT.insert hashFuncMyString (_splices p) k s = (t, 0) ->
  _splices p' = t -> _jobID_counter p' = _jobID_counter q ->
  p_dag p' = (p_dag p) <| _nodeIDHash ::= fun m => m ∪ _nodeIDHash d2 |> -> parsing lo p'.
Proof.
  intros [Ht Hp] [_ Hq] Eq Hnf Hk Ejs Hls Hins Es Ec Ed. rewrite Eq in Hq.
  destruct (inserted_entries _ _ _ _ Ht Hins) as [Ht' Hent].
  assert (Hpend : pending p' ≡ₚ s :: pending p) by (unfold pending; rewrite Es, Hent; done).
  assert (Hall : all_jobs_of p' (pending p') ≡ₚ _jobs (p_dag q) ++ all_jobs_of p (pending p)).
  { unfold all_jobs_of. rewrite Hpend, Ed. simpl. rewrite Ejs. solve_Permutation. }
  destruct Hp as [Hb Hi Hids Hn Hnd Hl Hs], Hq as [Hb' Hi' Hids' Hn' Hnd' Hl' _].
  assert (Hb2 : built (over (_jobs (p_dag q)) d2) (_jobID_counter q)).
  { eapply built_kin; [exact Hb'|exact Hk|]. intros i. simpl. unfold all_jobs_of. simpl. by rewrite app_nil_r. }
  assert (Hids2 : forall i, is_Some (_nodeIDHash d2 !! i) -> _jobID_counter p <= i).
  { intros i. rewrite (node_wise_is_Some i Hk). apply Hids'. }
  split; [by rewrite Es|]. split; try done.
  - rewrite Ec, Ed. eapply (built_union (over (all_jobs_of p (pending p)) (p_dag p)) (over (_jobs (p_dag q)) d2)); try done.
    intros i. simpl. rewrite Hall, elem_of_app. tauto.
  - destruct Hi as [[Qn Qr Qc Qt Qs Qf Qx] Hnm Hnd0]. rewrite Ed. split; [split|..]; simpl; try done.
    + intros i j [Hj|[_ Hj]]%lookup_union_Some_raw; [by eapply Qn|].
      destruct (node_wise_back Hk _ _ Hj) as (j0 & Hj0 & Hkj). eapply kin_resting; [exact Hkj|]. by eapply (d_nodes _ (d_quiet _ Hi')).
    + intros i j [Hj|[_ Hj]]%lookup_union_Some_raw; [by apply Qs|].
      destruct (node_wise_back Hk _ _ Hj) as (j0 & Hj0 & []). rewrite k_status0.
      destruct (d_status _ (d_quiet _ Hi') i j0 Hj0) as [?|[?|[? ?]]]; auto. congruence.
    + intros f (j & Hj & Hfj)%Qf. exists j. split; [|done]. by apply lookup_union_Some_l.
    + intros i j Hin [Hj|[Hnone _]]%lookup_union_Some_raw; [by apply Hnm|].
      assert (is_Some (_nodeIDHash (p_dag p) !! i)) as [? ?].
      { apply (wf_jobs _ (b_graph _ _ Hb)). simpl. unfold all_jobs_of. rewrite elem_of_app. by left. } congruence.
  - rewrite Ed. simpl. intros i [j [Hj|[_ Hj]]%lookup_union_Some_raw]; [eauto|]. assert (_jobID_counter p <= i) by eauto. lia.
  - rewrite Ec. lia.
  - rewrite Hall. apply NoDup_app. split; [apply (d_nodup _ Hi')|]. split; [|done]. intros i H1 H2.
    apply (wf_jobs _ (b_graph _ _ Hb)), (b_next _ _ Hb) in H2. apply (wf_jobs _ (b_graph _ _ Hb2)) in H1.
    assert (_jobID_counter p <= i) by eauto. lia.
  - by rewrite Ed.
  - rewrite Hpend. by constructor.
Qed.

(** ** Files *)

Definition result_ok (lo : Z) (r : option (outcome (Parser * bool))) : Prop :=
  match r with Some o => line_ok lo o | None => True end.
(** A file that was read leaves no pending splices. *)
Definition file_ok (lo : Z) (r : option (outcome (Parser * bool))) : Prop :=
  match r with Some (Done (p, true)) => parsing lo p /\ pending p = [] | _ => True end.

Lemma new_Parser_ok next n munge scope dir cwd : parsing next (new_Parser next n munge scope dir cwd).
Proof.
  destruct (HT.initialize_wf hashFuncMyString (Value:=Splice) HT.rejectDuplicateKeys) as (Hw & Hu & _).
  split; [done|]. split; try done; [|apply idle_new|intros i []; done|apply NoDup_nil_2].
  eapply (built_kin new_Dag); [|reflexivity|done]. destruct built_new as [Hg Hn Hm Hwt Hd Hf]. split; try done.
  by intros i [? ?].
Qed.

Lemma PrefixAllNodeNames_spec q prefix q1 :
  PrefixAllNodeNames q prefix = Done q1 ->
  exists d1, q1 = q <| p_dag := d1 |> /\ node_wise kin (_nodeIDHash (p_dag q)) (_nodeIDHash d1) /\
    _jobs d1 = _jobs (p_dag q) /\ _catThrottles d1 = _catThrottles (p_dag q).
Proof.
  unfold PrefixAllNodeNames, obind.
  destruct (each_job_spec kin (fun j => PrefixName j prefix) (p_dag q) (_jobs (p_dag q))) as (m & -> & Hm); [by repeat split|].
  destruct (index_names _ _ _) as [d'|] eqn:Hx; [|done]. intros [= <-].
  apply index_names_spec in Hx as (names & -> & _). eexists. split_and!; [done|exact Hm|done|done].
Qed.
Lemma PrefixAllCategoryNames_spec q prefix q1 :
  limits_ok (_catThrottles (p_dag q)) -> PrefixAllCategoryNames q prefix = Done q1 ->
  exists d1, q1 = q <| p_dag := d1 |> /\ node_wise kin (_nodeIDHash (p_dag q)) (_nodeIDHash d1) /\
    _jobs d1 = _jobs (p_dag q) /\ limits_ok (_catThrottles d1).
Proof.
  intros Hl. unfold PrefixAllCategoryNames, obind. destruct (prefix_throttles _ _ _) as [ts|] eqn:Hp; [|done].
  apply prefix_throttles_limits in Hp; [|by intros ??|by apply limits_list]. intros [= <-].
  eexists. split; [done|]. simpl.
  destruct (each_job_spec kin (fun j => j <| _throttleInfo ::= fmap (prefix_category prefix) |>)
    ((p_dag q) <| _catThrottles := ts |>) (_jobs (p_dag q))) as (m & -> & Hm); [by repeat split|]. done.
Qed.

Section files.
Context `{Files} (strict : Z).

Lemma parse_splice_ok lo rec p toks :
  (forall lo q f, parsing lo q -> file_ok lo (rec q f)) -> parsing lo p -> result_ok lo (parse_splice rec p toks).
Proof.
  intros Hrec Hp. unfold parse_splice. destruct toks as [|name toks]; [done|].
  destruct (NodeExists _ _) as [[]|]; [done| |done]. destruct toks as [|file toks]; [done|].
  match goal with |- context [match ?o with None => _ | Some _ => _ end] => destruct o as [[dir [|]]|] end; [|done..].
  destruct (Cd2TmpDir _ _) as [cwd|]; [|done]. cbn zeta.
  match goal with |- context [rec ?sub file] => pose proof (Hrec _ sub file (new_Parser_ok _ _ _ _ _ _)) as Hsub; destruct (rec sub file) as [[[q []]|]|] end;
    [|done..].
  simpl in Hsub. destruct Hsub as [Hq Eq]. simpl. unfold obind at 1. destruct (Cd2MainDir _ _ _) as [cwd'|]; [|done].
  case_bool_decide as Hfin; [done|].
  unfold obind at 1. destruct (PrefixAllNodeNames _ _) as [q1|] eqn:H1; [|done].
  apply PrefixAllNodeNames_spec in H1 as (d1 & -> & Hk1 & Ej1 & Et1).
  unfold obind at 1. destruct (PrefixAllCategoryNames _ _) as [q2|] eqn:H2; [|done].
  apply PrefixAllCategoryNames_spec in H2 as (d2 & -> & Hk2 & Ej2 & Hl2); [|simpl; rewrite Et1; apply (proj2 Hq)].
  simpl in Hk2, Ej2 |- *. destruct (HT.insert _ _ _ _) as [t r] eqn:Hi.
  assert (Hr : r = 0 \/ r = -1).
  { revert Hi. unfold HT.insert. repeat case_match; intros [= _ <-]; auto. }
  destruct Hr as [-> | ->]; [|done].
  eapply (insert_splice_ok lo p q d2); [exact Hp|exact Hq|exact Eq| |by etransitivity| | |exact Hi|done..].
  - destruct (_final_job (p_dag q)); [|done]. destruct Hfin. eauto.
  - simpl. congruence.
  - done.
Qed.

Lemma parse_line_ok lo rec p file dir n line :
  (forall lo q f, parsing lo q -> file_ok lo (rec q f)) -> parsing lo p -> result_ok lo (parse_line strict rec p file dir n line).
Proof.
  intros Hrec Hp. unfold parse_line. destruct line as [|c line]; [done|]. case_bool_decide; [done|].
  destruct (strtok _ _) as [[token rest]|]; [|done]. cbn zeta.
  repeat (match goal with |- context [if strcaseeq token ?k then _ else _] => destruct (strcaseeq token k) end;
    [try (by cbn [result_ok]; auto using parse_node_ok, parse_subdag_ok, parse_script_ok, parse_parent_ok, parse_retry_ok, parse_abort_ok, parse_dot_ok,
       parse_vars_ok, parse_priority_ok, parse_category_ok, parse_maxjobs_ok, parse_node_status_file_ok, parse_reject_ok,
       parse_jobstate_log_ok, parse_pre_skip_ok, parse_done_ok, parse_splice_ok)|]); [|done].
  simpl. unfold obind. pose proof (parse_node_ok strict lo p TYPE_STORK token dir (tokens rest) Hp) as Hn.
  destruct (parse_node _ _ _ _ _ _) as [r|]; [|done]. unfold check_warning_strictness. by case_match.
Qed.
Lemma parse_lines_ok lo rec p file dir n lines :
  (forall lo q f, parsing lo q -> file_ok lo (rec q f)) -> parsing lo p -> result_ok lo (parse_lines strict rec p file dir n lines).
Proof.
  intros Hrec. revert p n. induction lines as [|line lines IH]; intros p n Hp; simpl; [done|].
  pose proof (parse_line_ok lo rec p file dir (n + 1) line Hrec Hp) as Hl.
  destruct (parse_line _ _ _ _ _ _ _) as [[[p' []]|]|]; try done. by apply IH.
Qed.

Lemma parse_ok fuel opened useDagDir lo p file : parsing lo p -> file_ok lo (parse strict fuel opened useDagDir p file).
Proof.
  revert opened lo p file. induction fuel as [|fuel IH]; intros opened lo p file Hp; cbn [parse]; [done|].
  destruct (Cd2TmpDir _ _) as [cwd|]; [|done]. cbn zeta.
  assert (Hleave : forall dir (r : Parser * bool), (r.2 = true -> parsing lo r.1 /\ pending r.1 = []) ->
    file_ok lo (Some (let! cwd' := Cd2MainDir (p_cwd p) dir (p_cwd r.1) in Done (r.1 <| p_cwd := cwd' |>, r.2))%outcome)).
  { intros dir [q b] Hq. unfold obind. destruct (Cd2MainDir _ _ _); [|done]. destruct b; [|done]. simpl in *.
    destruct (Hq eq_refl) as [Hq1 Hq2]. split; [by eapply parsing_ext|done]. }
  destruct (fopen _ _ _) as [content|]; [|by apply (Hleave _ (_, false))].
  match goal with |- context [parse_lines _ _ ?q _ _ _ _] => assert (Hq : parsing lo q) by (by eapply parsing_ext) end.
  match goal with |- context [parse_lines ?a ?b ?c ?d ?e ?f ?g] =>
    pose proof (parse_lines_ok lo b c d e f g (IH (S opened)) Hq) as Hl; destruct (parse_lines a b c d e f g) as [[[p3 []]|]|] end;
    [|by apply (Hleave _ (_, false))|done..].
  simpl in Hl. unfold obind at 1. destruct (LiftSplices strict p3) as [p4|] eqn:Hlift; [|done].
  destruct (LiftSplices_ok _ _ _ _ Hl Hlift) as [Hp4 E4]. apply (Hleave _ (_, true)). intros _. split; [|done].
  by apply RecordInitialAndFinalNodes_ok.
Qed.

Lemma parse_files_ok fuel useDagDir lo p files p' :
  parsing lo p -> pending p = [] -> parse_files strict fuel useDagDir p files = Some (Done p') -> parsing lo p' /\ pending p' = [].
Proof.
  revert p. induction files as [|file files IH]; intros p Hp Hn; cbn [parse_files]; [by intros [= <-]|].
  pose proof (parse_ok fuel 0 useDagDir lo p file Hp) as Hf.
  destruct (parse _ _ _ _ _ _) as [[[q []]|]|]; try done. apply IH; apply Hf.
Qed.

(** Changes of descriptions by the code after parsing. *)
Lemma each_job_ok lo p f :
  parsing lo p -> (forall j, namesake j (f j)) -> parsing lo (p <| p_dag ::= fun d => each_job f d (_jobs d) |>).
Proof.
  intros [Ht Hp] Hf. destruct (each_job_spec namesake f (p_dag p) (_jobs (p_dag p)) Hf) as (m & He & Hm). split; [done|].
  eapply parsing_kin; [exact Hp|..]; simpl; rewrite ?He; simpl; try done.
  - eapply node_wise_mono; [|exact Hm]. by intros ?? [].
  - eapply idle_nodes; [apply Hp|..|done]; simpl.
    + intros i j' (j & Hj & Hk)%(node_wise_back Hm). exists j. split; [done|by apply namesake_unstarted].
    + intros i. by rewrite (node_wise_is_Some i Hm).
  - apply Hp.
Qed.
Lemma SetDefaultPriorities_ok lo prio p : parsing lo p -> parsing lo (p <| p_dag ::= SetDefaultPriorities prio |>).
Proof.
  intros Hp. unfold SetDefaultPriorities. destruct (prio =? 0); [by eapply parsing_ext|].
  apply each_job_ok; [done|]. intros j. repeat case_match; by repeat split.
Qed.

Lemma read_dag_parsing fuel useDagDir prio cwd files rescue p :
  read_dag strict fuel useDagDir prio cwd files rescue = Some (Done p) -> parsing 0 p /\ pending p = [].
Proof.
  unfold read_dag. destruct (parse_files _ _ _ _ files) as [[p1|]|] eqn:H1; [|done..].
  apply (parse_files_ok _ _ 0) in H1 as [Hp1 E1]; [|apply new_Parser_ok|done].
  destruct (LiftSplices _ _) as [p2|] eqn:H2; [|done].
  apply (LiftSplices_ok _ 0) in H2 as [Hp2 E2]; [|by apply SetDefaultPriorities_ok].
  assert (Hr : forall r, match rescue with None => Some (Done p2) | Some file => parse_files strict fuel useDagDir (p2 <| _mungeNames := false |>) [file] end
    = Some (Done r) -> parsing 0 r /\ pending r = []).
  { intros r. destruct rescue as [file|]; [|by intros [= <-]]. apply parse_files_ok; [by eapply parsing_ext|done]. }
  destruct (match rescue with None => _ | Some _ => _ end) as [[p3|]|]; [|done..]. destruct (Hr p3 eq_refl) as [Hp3 E3].
  unfold obind. destruct (CheckThrottleCats _ _); [|done]. intros [= <-]. split; [|done].
  apply each_job_ok; [done|by repeat split].
Qed.
End files.

(** ** What was read *)

(** The throttles that MAXJOBS lines may give. *)
Definition limits_sensible (d : Dag) : Prop := limits_ok (_catThrottles d).

Lemma parsed_dag p : parsing 0 p -> pending p = [] -> built (p_dag p) (_jobID_counter p) /\ idle (p_dag p) /\ limits_sensible (p_dag p).
Proof.
  intros [_ Hp] He. rewrite He in Hp. destruct Hp as [Hb Hi _ _ _ Hl _]. split_and!; [|done..].
  eapply built_kin; [exact Hb|reflexivity|]. intros i. simpl. unfold all_jobs_of. simpl. by rewrite app_nil_r.
Qed.

(** C5 (type): whatever the input files hold (nodes, scripts, dependencies, categories, splices, the
    rescue DAG, in any order and any number), if DAGMan reads them without an error, then the DAG is
    well formed: ids are keys, children and parents agree, every parent a node does not wait for is
    done, the final node has no dependencies, each node is found under its own name, nothing has run,
    no throttle is below -1; the cycle check answers correctly on it, and it is a state the scheduler
    may start from. *)
Theorem parsed_dag_well_formed `{Files} strict fuel useDagDir prio cwd files rescue p :
  read_dag strict fuel useDagDir prio cwd files rescue = Some (Done p) ->
  built (p_dag p) (_jobID_counter p) /\ idle (p_dag p) /\ unrun (p_dag p) /\ limits_sensible (p_dag p) /\
  exists d' b, isCycle (p_dag p) = Some (d', b) /\ (b = false <-> forall n, ~ tc (edge (p_dag p)) n n).
Proof.
  intros [Hp He]%read_dag_parsing. destruct (parsed_dag p Hp He) as (Hb & Hi & Hl). split_and!; try done.
  - by eapply unrun_of_built.
  - destruct (isCycle_total_iff (p_dag p) (b_graph _ _ Hb) (b_marks _ _ Hb)) as (d' & b & H1 & H2 & _). eauto.
Qed.

(** ** Reading ends *)

Section ends.
Context `{Files} (strict : Z) (limit : nat).
Hypothesis descriptors : forall opened dir name, (limit <= opened)%nat -> fopen opened dir name = None.

Definition ends {A} (r : option A) : Prop := is_Some r.
Lemma parse_splice_ends rec p toks : (forall q file, ends (rec q file)) -> ends (parse_splice rec p toks).
Proof.
  intros Hrec. unfold parse_splice, ends. repeat case_match; eauto.
  all: match goal with E : _ ?q ?f = None |- _ => destruct (Hrec q f) as [? He]; congruence end.
Qed.
Lemma parse_line_ends rec p file dir n line : (forall q file, ends (rec q file)) -> ends (parse_line strict rec p file dir n line).
Proof. intros Hrec. unfold parse_line. repeat case_match; try (by eexists). by apply parse_splice_ends. Qed.
Lemma parse_lines_ends rec p file dir n lines :
  (forall q file, ends (rec q file)) -> ends (parse_lines strict rec p file dir n lines).
Proof.
  intros Hrec. revert p n. induction lines as [|line lines IH]; intros p n; cbn [parse_lines]; [by eexists|].
  destruct (parse_line_ends rec p file dir (n + 1) line Hrec) as [r ->]. destruct r as [[q []]|]; eauto; by eexists.
Qed.
Lemma parse_ends fuel opened useDagDir p file :
  (limit - opened < fuel)%nat -> ends (parse strict fuel opened useDagDir p file).
Proof.
  revert opened p file. induction fuel as [|fuel IH]; intros opened p file Hf; [lia|]. cbn [parse].
  destruct (Cd2TmpDir _ _) as [cwd|]; [|by eexists].
  destruct (fopen opened _ _) as [content|] eqn:Ho; [|by eexists].
  assert (Hlt : (opened < limit)%nat).
  { destruct (decide (opened < limit)%nat); [done|]. by rewrite descriptors in Ho by lia. }
  match goal with |- context [parse_lines ?a ?b ?c ?d ?e ?f ?g] => destruct (parse_lines_ends b c d e f g) as [r ->] end.
  - intros q file'. apply IH. lia.
  - destruct r as [[q []]|]; by eexists.
Qed.
Lemma parse_files_ends fuel useDagDir p files : (limit < fuel)%nat -> ends (parse_files strict fuel useDagDir p files).
Proof.
  intros Hf. revert p. induction files as [|file files IH]; intros p; cbn [parse_files]; [by eexists|].
  destruct (parse_ends fuel 0 useDagDir p file ltac:(lia)) as [r ->]. destruct r as [[q []]|]; eauto; by eexists.
Qed.
End ends.

(** C38 (termination): reading the DAG files and the rescue DAG always comes to an end, with a DAG or an
    error, however splices include each other and even if a file includes itself: each level keeps its
    file open while the ones below are read, fopen() fails once as many DAG files are open as the
    process may have, and nesting deeper than that limit is not needed. *)
Theorem reading_terminates `{Files} strict limit fuel useDagDir prio cwd files rescue :
  (forall opened dir name, (limit <= opened)%nat -> fopen opened dir name = None) -> (limit < fuel)%nat ->
  exists r, read_dag strict fuel useDagDir prio cwd files rescue = Some r.
Proof.
  intros Hd Hf. unfold read_dag. destruct (parse_files_ends strict limit Hd fuel useDagDir
    (new_Parser 0 (-1) (bool_decide (1 < length files)%nat) [] (s2b ".") cwd) files Hf) as [r ->].
  destruct r as [p1|]; [|by eexists]. destruct (LiftSplices _ _) as [p2|]; [|by eexists].
  destruct rescue as [file|]; [|by eexists].
  destruct (parse_files_ends strict limit Hd fuel useDagDir (p2 <| _mungeNames := false |>) [file] Hf) as [r ->].
  destruct r; by eexists.
Qed.
