(* ===== verification/Rescue.v ===== *)
(** Rescue DAGs: Dag::WriteRescue() and Dag::WriteNodeToRescue() of condor_dagman/dag.cpp, and the names
    of the files (dagman_multi_dag.cpp).

    When a DAG fails, DAGMan writes a file from which it can be run again.  A partial rescue DAG has
    only DONE and RETRY lines and is read on top of the original files; a full one describes the whole
    DAG.  The file is the list of its lines.  Reading a partial rescue DAG after the original files
    gives back exactly which nodes were done and their retries. *)

From S2P Require Import Prelude HashTable CondorId PriorityList DagJob Dag DagCycle DagBuild.
From S2P Require Import CheckEvents DagRun DagLogic DagSafety DagTermination DagBooks DagProgress DagStart DagParse DagRead.

Open Scope Z_scope.

(** ** Writing *)

Definition text (lines : list bytes) : bytes := concat ((fun l => l ++ [LF]) <$> lines).

(** The escapes of a VARS value. *)
Definition escape_value (v : bytes) : bytes :=
  v ≫= fun c => if bool_decide (c = DQUOTE) then [BSLASH; DQUOTE]
                else if bool_decide (c = BSLASH) then [BSLASH; BSLASH] else [c].
Definition vars_text (l : list (bytes * bytes)) : bytes :=
  l ≫= fun nv => [SP] ++ nv.1 ++ s2b "=" ++ [DQUOTE] ++ escape_value nv.2 ++ [DQUOTE].

Definition opt_line {A} (o : option A) (f : A -> bytes) : list bytes := match o with Some a => [f a] | None => [] end.

(** The description of a node, in a full rescue DAG. *)
Definition description_lines (j : Job) : list bytes :=
  let name := _jobName j in
  let keyword :=
    if _final j then s2b "FINAL"
    else match _jobType j with
         | TYPE_CONDOR => match _dagFile j with Some _ => s2b "SUBDAG EXTERNAL" | None => s2b "JOB" end
         | TYPE_STORK => s2b "DATA"
         end in
  [[]; keyword ++ s2b " " ++ name ++ s2b " " ++ default (_cmdFile j) (_dagFile j) ++ s2b " " ++
       (if streq (_directory j) [] then [] else s2b "DIR " ++ _directory j ++ s2b " ") ++
       (if _noop j then s2b "NOOP " else [])] ++
  opt_line (_scriptPre j) (fun s => s2b "SCRIPT PRE  " ++ name ++ s2b " " ++ _cmd s) ++
  (if HasPreSkip j then [s2b "PRE_SKIP " ++ name ++ s2b " " ++ print_d (_preskip j)] else []) ++
  opt_line (_scriptPost j) (fun s => s2b "SCRIPT POST " ++ name ++ s2b " " ++ _cmd s) ++
  (match varsFromDag j with [] => [] | vars => [s2b "VARS " ++ name ++ vars_text vars] end) ++
  opt_line (abort_dag_val j) (fun v => s2b "ABORT-DAG-ON " ++ name ++ s2b " " ++ print_d v ++
    match abort_dag_return_val j with Some r => s2b " RETURN " ++ print_d r | None => [] end) ++
  (if _hasNodePriority j then [s2b "PRIORITY " ++ name ++ s2b " " ++ print_d (_nodePriority j)] else []) ++
  opt_line (_throttleInfo j) (fun c => s2b "CATEGORY " ++ name ++ s2b " " ++ c).

Definition done_lines (j : Job) : list bytes :=
  if status_is (_Status j) STATUS_DONE && negb (_final j) then [s2b "DONE " ++ _jobName j] else [].

(** The comment before a RETRY line. *)
Definition retry_comment (reset : bool) (j : Job) : list bytes :=
  if status_is (_Status j) STATUS_ERROR && (retries j <? retry_max j) &&
     bool_decide (retry_abort_val j = Some (retval j)) then
    [s2b "# " ++ print_d (retries j) ++ s2b " of " ++ print_d (retry_max j) ++
     s2b " retries performed; remaining attempts aborted after node returned " ++ print_d (retval j)]
  else if negb reset then
    [s2b "# " ++ print_d (retries j) ++ s2b " of " ++ print_d (retry_max j) ++
     s2b " retries already performed; " ++ print_d (retry_max j - retries j) ++ s2b " remaining"]
  else [].
Definition retry_lines (reset : bool) (j : Job) : outcome (list bytes) :=
  if retry_max j <=? 0 then Done []
  else if retry_max j <? retries j then EXCEPT "Assertion ERROR on (node->retries <= node->retry_max)"
  else Done (retry_comment reset j ++
    [s2b "RETRY " ++ _jobName j ++ s2b " " ++ print_d (if reset then retry_max j else retry_max j - retries j) ++
     match retry_abort_val j with Some v => s2b " UNLESS-EXIT " ++ print_d v | None => [] end]).

Definition WriteNodeToRescue (reset isPartial : bool) (j : Job) : outcome (list bytes) :=
  (let! retry := retry_lines reset j in
   Done ((if isPartial then [] else description_lines j) ++ done_lines j ++ retry))%outcome.
Fixpoint write_nodes (reset isPartial : bool) (d : Dag) (jobs : list Z) : outcome (list bytes) :=
  match jobs with
  | [] => Done []
  | job :: jobs' =>
      match _nodeIDHash d !! job with
      | None => EXCEPT "dangling pointer"
      | Some j =>
          let! l := WriteNodeToRescue reset isPartial j in
          let! ls := write_nodes reset isPartial d jobs' in
          Done (l ++ ls)
      end
  end%outcome.

(** The PARENT line of a node that has children. *)
Fixpoint child_names (d : Dag) (children : list Z) : outcome bytes :=
  match children with
  | [] => Done []
  | c :: children' =>
      let! found := FindNodeByNodeID d c in
      match found with
      | None => EXCEPT "Assertion ERROR on (child != NULL)"
      | Some child => let! names := child_names d children' in Done ([SP] ++ _jobName child ++ names)
      end
  end%outcome.
Fixpoint write_dependencies (d : Dag) (jobs : list Z) : outcome (list bytes) :=
  match jobs with
  | [] => Done []
  | job :: jobs' =>
      match _nodeIDHash d !! job with
      | None => EXCEPT "dangling pointer"
      | Some j =>
          let! ls := write_dependencies d jobs' in
          if QueueIsEmpty Q_CHILDREN j then Done ls
          else let! names := child_names d (ascending_ids (_children j)) in
               Done ((s2b "PARENT " ++ _jobName j ++ s2b " CHILD" ++ names) :: ls)
      end
  end%outcome.
(** ThrottleByCategory::PrintThrottles(), in the order of the finite map. *)
Definition PrintThrottles (ts : ThrottleByCategory) : list bytes :=
  map_to_list ts ≫= fun ct =>
    if isSet ct.2 then [s2b "MAXJOBS " ++ ct.1 ++ s2b " " ++ print_d (_maxJobs ct.2)] else [].

Definition RESCUE_DAG_VERSION : bytes := s2b "2.0.1".

(** [created] is the date; [failed] the names of the failed nodes. *)
Definition failed_names (d : Dag) : bytes :=
  _jobs d ≫= fun job =>
    match _nodeIDHash d !! job with
    | Some j => if status_is (_Status j) STATUS_ERROR then _jobName j ++ s2b "," else []
    | None => []
    end.
Definition rescue_header (dagFile created : bytes) (parseFailed isPartial : bool) (d : Dag) : list bytes :=
  [(if parseFailed then s2b "# " ++ [DQUOTE] ++ s2b "Rescue" ++ [DQUOTE] ++ s2b " DAG file, created after failure parsing"
    else s2b "# Rescue DAG file, created after running");
   s2b "#   the " ++ dagFile ++ s2b " DAG file";
   s2b "# Created " ++ created ++ s2b " UTC";
   s2b "# Rescue DAG version: " ++ RESCUE_DAG_VERSION ++ s2b " (" ++ (if isPartial then s2b "partial" else s2b "full") ++ s2b ")";
   s2b "#";
   s2b "# Total number of Nodes: " ++ print_d (Z.of_nat (length (_jobs d)));
   s2b "# Nodes premarked DONE: " ++ print_d (_numNodesDone d);
   s2b "# Nodes that failed: " ++ print_d (_numNodesFailed d);
   s2b "#   " ++ failed_names d ++ s2b "<ENDLIST>";
   []].

(** Dag::WriteRescue().  The DAG is [p_dag p], with the settings of the parser and the CONFIG file. *)
Definition WriteRescue (p : Parser) (configFile : option bytes) (dagFile created : bytes)
    (parseFailed isPartial reset : bool) : outcome (list bytes) :=
  let d := p_dag p in
  (let! nodes := write_nodes reset isPartial d (_jobs d) in
   if isPartial then Done (rescue_header dagFile created parseFailed true d ++ nodes)
   else
     let! deps := write_dependencies d (_jobs d) in
     Done (rescue_header dagFile created parseFailed false d ++
       (if parseFailed then [s2b "REJECT"; []] else []) ++
       (match configFile with Some f => [s2b "CONFIG " ++ f; []] | None => [] end) ++
       (match _statusFileName p with Some f => [s2b "NODE_STATUS_FILE " ++ f; []] | None => [] end) ++
       (match _jobstateLogFile p with Some f => [s2b "JOBSTATE_LOG " ++ f; []] | None => [] end) ++
       nodes ++ [[]] ++ deps ++ PrintThrottles (_catThrottles d)))%outcome.

(** ** File names *)

(** [%.3d] for a positive number. *)
Definition print_3d (n : Z) : bytes :=
  let s := print_d n in repeat "0"%char (3 - length s) ++ s.
Definition RescueDagName (primaryDagFile : bytes) (multiDags : bool) (rescueDagNum : Z) : outcome bytes :=
  if rescueDagNum <? 1 then EXCEPT "Assertion ERROR on (rescueDagNum >= 1)"
  else Done (primaryDagFile ++ (if multiDags then s2b "_multi" else []) ++ s2b ".rescue" ++ print_3d rescueDagNum).

(** The loop of FindLastRescueDagNum() over the numbers [test], [test] + 1, ...; [exists_] is access(). *)
Fixpoint find_last (exists_ : bytes -> bool) (dagFile : bytes) (multi : bool) (test : Z) (n : nat) (lastRescue : Z) : outcome Z :=
  match n with
  | O => Done lastRescue
  | S n' =>
      let! name := RescueDagName dagFile multi test in
      find_last exists_ dagFile multi (test + 1) n' (if exists_ name then test else lastRescue)
  end%outcome.
Definition FindLastRescueDagNum (exists_ : bytes -> bool) (dagFile : bytes) (multi : bool) (maxRescueDagNum : Z) : outcome Z :=
  find_last exists_ dagFile multi 1 (Z.to_nat maxRescueDagNum) 0.

(** The file Dag::Rescue() writes. *)
Definition RescueFile (exists_ : bytes -> bool) (dagFile : bytes) (multi : bool) (maxRescueDagNum : Z) (overwrite parseFailed : bool)
  : outcome bytes :=
  if parseFailed then Done (dagFile ++ s2b ".parse_failed")
  else
    (let! last := FindLastRescueDagNum exists_ dagFile multi maxRescueDagNum in
     let next := last + 1 in
     let next := if overwrite && (1 <? next) then next - 1 else next in
     let next := if maxRescueDagNum <? next then maxRescueDagNum else next in
     RescueDagName dagFile multi next)%outcome.

(** ** Lines that are read as they were written *)

Definition no_eol (l : bytes) : Prop := (LF ∉ l) /\ (NUL ∉ l).
Record tidy (l : bytes) : Prop := mkTidy {
  t_eol : no_eol l;
  t_head : skip_spaces l = l;
  t_tail : rtrim l = l;
  t_slash : ends_with BSLASH l = false
}.

Lemma fgets_lines_app l rest cur :
  LF ∉ l -> fgets_lines (l ++ LF :: rest) cur = (rev cur ++ l ++ [LF]) :: fgets_lines rest [].
Proof.
  revert cur. induction l as [|c l IH]; intros cur Hl; simpl.
  - done.
  - apply not_elem_of_cons in Hl as [Hc Hl]. rewrite bool_decide_false by done.
    rewrite IH by done. simpl. by rewrite <- (assoc_L (++)).
Qed.
Lemma until_nul_absent s : NUL ∉ s -> until_nul s = s.
Proof.
  induction s as [|c s IH]; simpl; [done|]. intros [Hc Hs]%not_elem_of_cons. rewrite bool_decide_false by done. by rewrite IH.
Qed.
Lemma ends_with_snoc c s : ends_with c (s ++ [c]) = true.
Proof. unfold ends_with. rewrite last_snoc. by rewrite bool_decide_true. Qed.
Lemma rtrim_eol l : rtrim (l ++ [LF]) = rtrim l.
Proof. unfold rtrim. by rewrite rev_app_distr. Qed.

(** Lines without surrounding white space, and not continued, survive getline(). *)
Lemma getlines_text lines : Forall tidy lines -> getlines (fgets_lines (text lines) []) [] [] = lines.
Proof.
  induction 1 as [|l lines [[Hlf Hnul] Hh Ht Hs] _ IH]; [done|].
  assert (Et : text (l :: lines) = l ++ LF :: text lines) by (unfold text; simpl; by rewrite <- (assoc_L (++))).
  rewrite Et, fgets_lines_app by done. cbn [rev app getlines].
  rewrite until_nul_absent by (rewrite elem_of_app; intros [?|Hn%list_elem_of_singleton]; done).
  rewrite ends_with_snoc. cbn [negb app]. rewrite rtrim_eol, Ht, Hh, Hs. by rewrite IH.
Qed.

(** ** Tokens *)

Definition token (w : bytes) : Prop := w <> [] /\ Forall (fun c => isDelimiter c = false) w.

Lemma skip_delims_token w s : token w -> skip_delims isDelimiter (w ++ s) = w ++ s.
Proof. intros [Hn Hw]. destruct Hw as [|c w Hc _]; [done|]. simpl. by rewrite Hc. Qed.
Lemma until_delim_token w s : Forall (fun c => isDelimiter c = false) w -> until_delim isDelimiter (w ++ SP :: s) = (w, s).
Proof. induction 1 as [|c w Hc _ IH]; [done|]. simpl. by rewrite Hc, IH. Qed.
Lemma strtok_token w s : token w -> strtok isDelimiter (w ++ SP :: s) = Some (w, s).
Proof.
  intros Hw. unfold strtok. rewrite skip_delims_token by done. destruct Hw as [Hn Hw].
  destruct w as [|c w]; [done|]. change (Some (until_delim isDelimiter ((c :: w) ++ SP :: s)) = Some (c :: w, s)).
  by rewrite until_delim_token.
Qed.
Lemma tokens_from_app w s cur :
  Forall (fun c => isDelimiter c = false) w -> tokens_from (w ++ s) cur = tokens_from s (rev w ++ cur).
Proof.
  intros Hw. revert cur. induction Hw as [|c w Hc _ IH]; intros cur; [done|]. simpl. rewrite Hc, IH. by rewrite <- (assoc_L (++)).
Qed.
Lemma rev_token w : token w -> bool_decide (rev w = []) = false.
Proof. intros [Hn _]. apply bool_decide_false. intros He. apply Hn. rewrite <- (rev_involutive w), He. done. Qed.
Lemma tokens_cons w s : token w -> tokens (w ++ SP :: s) = w :: tokens s.
Proof.
  intros Hw. unfold tokens. rewrite tokens_from_app by apply Hw. cbn [tokens_from].
  change (isDelimiter SP) with true. cbn iota. rewrite app_nil_r, rev_token by done. by rewrite rev_involutive.
Qed.
Lemma tokens_one w : token w -> tokens w = [w].
Proof.
  intros Hw. unfold tokens. rewrite <- (app_nil_r w) at 1. rewrite tokens_from_app by apply Hw. simpl.
  rewrite app_nil_r, rev_token by done. by rewrite rev_involutive.
Qed.
Lemma word_token w : wordb w -> token w.
Proof.
  intros [Hn Hw]%wordb_chars. split; [done|]. apply Is_true_true in Hw. rewrite forallb_forall in Hw.
  apply Forall_forall. intros c Hc%list_elem_of_In. specialize (Hw c Hc). unfold wordchar, isDelimiter in *.
  apply andb_true_iff in Hw as [Hs _]. apply orb_false_iff; split; apply bool_decide_false; intros ->; by vm_compute in Hs.
Qed.

(** ** Numbers *)

Lemma print_u_digits n : 0 <= n -> forallb isdigit (print_u n).
Proof. intros Hn. by apply print_digits_all. Qed.
Lemma skip_digits_all s : forallb isdigit s -> skip_digits s = [].
Proof.
  induction s as [|c s IH]; simpl; [done|]. intros [Hc Hs]%andb_True. unfold isdigit in Hc. destruct (digit c); [auto|done].
Qed.
Lemma digit_head c (A : Type) (x y z : A) : isdigit c -> match c with "-"%char => x | "+"%char => y | _ => z end = z.
Proof. destruct c as [[] [] [] [] [] [] [] []]; done. Qed.
Lemma clamp_wrap v : - 2 ^ 31 <= v < 2 ^ 31 -> clamp_long v = v /\ wrap32 v = v.
Proof.
  intros Hv. split; [unfold clamp_long; lia|]. unfold wrap32. rewrite Z.mod_small by lia. lia.
Qed.
Lemma print_u_shape n : 0 <= n -> exists c w, print_u n = c :: w /\ isdigit c /\ wordb (print_u n).
Proof.
  intros Hn. pose proof (print_u_word n Hn) as Hw. pose proof (print_u_digits n Hn) as Hd.
  destruct (print_u n) as [|c w]; [done|]. simpl in Hd. apply andb_True in Hd as [Hc _]. by exists c, w.
Qed.
Lemma strtol_print_d v : - 2 ^ 31 <= v < 2 ^ 31 -> strtol (print_d v) = Some (v, []).
Proof.
  intros Hv. destruct (clamp_wrap v Hv) as [Hc _]. unfold strtol, print_d. destruct (Z.ltb_spec v 0) as [Hneg|Hpos].
  - destruct (print_u_shape (- v) ltac:(lia)) as (c & w & He & Hcd & Hw).
    assert (Hs : scan_int ("-"%char :: print_u (- v)) = Some v).
    { unfold scan_int. cbn [until_nul]. rewrite bool_decide_false by done.
      destruct (wordb_chars _ Hw) as [_ Hch]. rewrite word_no_nul by done. cbn [skip_spaces].
      change (isspace "-"%char) with false. cbn iota. rewrite scan_print_u by lia. f_equal. lia. }
    rewrite Hs, Hc. cbn [skip_spaces]. change (isspace "-"%char) with false. cbn iota. cbn [skip_sign].
    rewrite skip_digits_all by (apply print_u_digits; lia). done.
  - rewrite scan_int_print_u, Hc by lia. destruct (print_u_shape v Hpos) as (c & w & He & Hcd & Hw).
    destruct (wordb_chars _ Hw) as [_ Hch]. rewrite word_no_space by done. rewrite He. unfold skip_sign.
    rewrite (digit_head c) by done. rewrite <- He. rewrite skip_digits_all by (by apply print_u_digits). done.
Qed.
Lemma parse_int_print_d v : - 2 ^ 31 <= v < 2 ^ 31 -> parse_int (print_d v) = Some v.
Proof. intros Hv. unfold parse_int. rewrite strtol_print_d by done. by rewrite (proj2 (clamp_wrap v Hv)). Qed.
Lemma print_d_word v : wordb (print_d v).
Proof.
  unfold print_d. destruct (Z.ltb_spec v 0); [|by apply print_u_word].
  pose proof (print_u_word (- v) ltac:(lia)) as Hw. apply wordb_chars in Hw as [Hn Hw]. unfold wordb. simpl. done.
Qed.

(** ** What a partial rescue DAG does to the node it was written for *)

Definition rescued (reset : bool) (written j : Job) : Job :=
  let j := if status_is (_Status written) STATUS_DONE && negb (_final written) then SetStatus j STATUS_DONE else j in
  if retry_max written <=? 0 then j
  else
    let j := j <| retry_max := if reset then retry_max written else retry_max written - retries written |> in
    match retry_abort_val written with Some v => j <| retry_abort_val := Some v |> | None => j end.

Lemma Done_inj {A} (a b : A) : Done a = Done b -> a = b.
Proof. congruence. Qed.

(** A node that can be written and found again. *)
Record writable (j : Job) : Prop := mkWritable {
  w_name : wordb (_jobName j);
  w_slash : ends_with BSLASH (_jobName j) = false;
  w_retries : 0 <= retries j <= retry_max j;
  w_max : retry_max j < 2 ^ 31;
  w_abort : forall v, retry_abort_val j = Some v -> - 2 ^ 31 <= v < 2 ^ 31;
  w_final : _final j = true -> retry_max j = 0
}.

Lemma on_job_twice p job f g : on_job (on_job p job f) job g = on_job p job (fun j => g (f j)).
Proof.
  unfold on_job. destruct (_nodeIDHash (p_dag p) !! job) as [j|] eqn:Hj; [|by rewrite Hj]. simpl.
  rewrite lookup_insert_eq. destruct p as [d]. unfold set_field, set_p_dag, put_node; simpl.
  unfold set_field, set_nodeIDHash; simpl. by rewrite insert_insert_eq.
Qed.
Lemma on_job_id p job f : (forall j, _nodeIDHash (p_dag p) !! job = Some j -> f j = j) -> on_job p job f = p.
Proof.
  intros Hf. unfold on_job. destruct (_nodeIDHash (p_dag p) !! job) as [j|] eqn:Hj; [|done]. rewrite (Hf j eq_refl).
  destruct p as [[]]. unfold set_field, set_p_dag, put_node; simpl. unfold set_field, set_nodeIDHash; simpl in *. by rewrite insert_id.
Qed.

(** The node of a name. *)
Record named (p : Parser) (job : Z) (j : Job) : Prop := mkNamed {
  n_munge : _mungeNames p = false;
  n_hash : _nodeNameHash (p_dag p) !! _jobName j = Some job;
  n_node : _nodeIDHash (p_dag p) !! job = Some j
}.
Lemma find_named p job j : named p job j -> find_job p (_jobName j) = Done (Some job).
Proof.
  intros [Hm Hh Hn]. unfold find_job, munge_job_name, FindNodeByName. rewrite Hm, Hh, Hn. unfold streq. by rewrite bool_decide_true.
Qed.
Lemma named_on_job p job j f : named p job j -> _jobName (f j) = _jobName j -> named (on_job p job f) job (f j).
Proof.
  intros [Hm Hh Hn] Hf. unfold on_job. rewrite Hn. split; simpl; [done|by rewrite Hf|apply lookup_insert_eq].
Qed.

(** Keywords are looked up by computation. *)
Ltac keywords :=
  repeat match goal with
  | |- context [strcaseeq (s2b ?a) (s2b ?b)] =>
      let v := eval vm_compute in (strcaseeq (s2b a) (s2b b)) in change (strcaseeq (s2b a) (s2b b)) with v
  end; cbn iota.

Section reading.
Context `{Files} (strict : Z) (rec : Parser -> bytes -> option (outcome (Parser * bool))).

Lemma line_DONE p f dir n rest : parse_line strict rec p f dir n (s2b "DONE" ++ SP :: rest) = Some (parse_done strict p (tokens rest)).
Proof.
  unfold parse_line. rewrite strtok_token by (apply word_token; by vm_compute).
  change (s2b "DONE" ++ SP :: rest) with ("D"%char :: s2b "ONE" ++ SP :: rest). cbn iota.
  rewrite bool_decide_false by done. cbn zeta beta. by keywords.
Qed.
Lemma line_RETRY p f dir n rest : parse_line strict rec p f dir n (s2b "RETRY" ++ SP :: rest) = Some (parse_retry p (tokens rest)).
Proof.
  unfold parse_line. rewrite strtok_token by (apply word_token; by vm_compute).
  change (s2b "RETRY" ++ SP :: rest) with ("R"%char :: s2b "ETRY" ++ SP :: rest). cbn iota.
  rewrite bool_decide_false by done. cbn zeta beta. by keywords.
Qed.
Definition ignored (line : bytes) : Prop := match line with [] => True | c :: _ => c = COMMENT end.
Lemma parse_lines_ignored p f dir n lines rest :
  Forall ignored lines -> exists n', parse_lines strict rec p f dir n (lines ++ rest) = parse_lines strict rec p f dir n' rest.
Proof.
  intros Hl. revert n. induction Hl as [|l lines Hl _ IH]; intros n; [by exists n|]. destruct (IH (n + 1)) as [n' Hn].
  exists n'. rewrite <- Hn. cbn [app parse_lines]. destruct l as [|c l]; [done|]. simpl in Hl. subst c. by cbn [parse_line].
Qed.

Lemma read_done_lines p f dir n job j written rest :
  named p job j -> _jobName written = _jobName j -> _final written = _final j -> writable written ->
  exists n', parse_lines strict rec p f dir n (done_lines written ++ rest) =
    parse_lines strict rec (on_job p job (fun j => if status_is (_Status written) STATUS_DONE && negb (_final written)
                                                    then SetStatus j STATUS_DONE else j)) f dir n' rest.
Proof.
  intros Hnm En Ef Hw. unfold done_lines.
  destruct (status_is (_Status written) STATUS_DONE && negb (_final written)) eqn:Hd.
  2: { exists n. by rewrite on_job_id. }
  exists (n + 1). cbn [app parse_lines].
  change (s2b "DONE " ++ _jobName written) with (s2b "DONE" ++ SP :: _jobName written). rewrite line_DONE.
  rewrite tokens_one by (by apply word_token, w_name). unfold parse_done, obind. rewrite En, (find_named p job j Hnm).
  unfold set_done_line, on_job. rewrite (n_node _ _ _ Hnm). rewrite <- Ef.
  apply andb_true_iff in Hd as [_ Hf]. destruct (_final written); [done|]. done.
Qed.

Lemma retry_tokens name n v :
  token name -> tokens (name ++ SP :: print_d n ++ match v with Some v => s2b " UNLESS-EXIT " ++ print_d v | None => [] end) =
    name :: print_d n :: match v with Some v => [s2b "UNLESS-EXIT"; print_d v] | None => [] end.
Proof.
  intros Hn. rewrite tokens_cons by done. f_equal. destruct v as [v|].
  - change (s2b " UNLESS-EXIT " ++ print_d v) with (SP :: s2b "UNLESS-EXIT" ++ SP :: print_d v).
    rewrite tokens_cons by (apply word_token, print_d_word). rewrite tokens_cons by (apply word_token; by vm_compute).
    by rewrite tokens_one by (apply word_token, print_d_word).
  - rewrite app_nil_r. by rewrite tokens_one by (apply word_token, print_d_word).
Qed.
Lemma retry_comment_ignored reset j : Forall ignored (retry_comment reset j).
Proof. unfold retry_comment. repeat case_match; repeat constructor. Qed.

Lemma read_retry_lines reset p f dir n job j written lines rest :
  named p job j -> _jobName written = _jobName j -> _final written = _final j -> writable written ->
  retry_lines reset written = Done lines ->
  exists n', parse_lines strict rec p f dir n (lines ++ rest) =
    parse_lines strict rec (on_job p job (fun j => if retry_max written <=? 0 then j else
      let j := j <| retry_max := if reset then retry_max written else retry_max written - retries written |> in
      match retry_abort_val written with Some v => j <| retry_abort_val := Some v |> | None => j end)) f dir n' rest.
Proof.
  intros Hnm En Ef [Hwn _ Hr Hm Ha Hfin]. unfold retry_lines. destruct (Z.leb_spec (retry_max written) 0) as [H0|H0].
  { intros [= <-]. exists n. by rewrite on_job_id. }
  destruct (retry_max written <? retries written); [done|]. intros <-%Done_inj.
  set (left := if reset then retry_max written else retry_max written - retries written).
  assert (Hleft : 0 <= left < 2 ^ 31) by (unfold left; destruct reset; lia).
  set (opt := match retry_abort_val written with Some v => s2b " UNLESS-EXIT " ++ print_d v | None => [] end).
  change (s2b "RETRY " ++ _jobName written ++ s2b " " ++ print_d left ++ opt) with
    (s2b "RETRY" ++ SP :: _jobName written ++ SP :: print_d left ++ opt).
  rewrite <- app_assoc. destruct (parse_lines_ignored p f dir n (retry_comment reset written)
    ([s2b "RETRY" ++ SP :: _jobName written ++ SP :: print_d left ++ opt] ++ rest) (retry_comment_ignored reset written)) as [n1 ->].
  exists (n1 + 1). cbn [app parse_lines].
  rewrite line_RETRY. unfold opt. rewrite retry_tokens by (by apply word_token). rewrite En. unfold parse_retry, with_job, obind.
  rewrite (find_named p job j Hnm). unfold job_at. rewrite (n_node _ _ _ Hnm).
  destruct (_final j) eqn:Hfj; [rewrite Ef, Hfin in *; lia|].
  rewrite parse_int_print_d by lia. destruct (Z.ltb_spec left 0); [lia|]. cbn [default].
  destruct (retry_abort_val written) as [v|] eqn:Hv; [|done].
  change (strcaseeq (s2b "UNLESS-EXIT") (s2b "UNLESS-EXIT")) with true. cbn [negb].
  rewrite strtol_print_d by (by apply Ha). rewrite (proj2 (clamp_wrap v (Ha v eq_refl))). unfold accept.
  by rewrite on_job_twice.
Qed.

Lemma read_node_lines reset p f dir n job j written lines rest :
  named p job j -> _jobName written = _jobName j -> _final written = _final j -> writable written ->
  WriteNodeToRescue reset true written = Done lines ->
  exists n', parse_lines strict rec p f dir n (lines ++ rest) =
    parse_lines strict rec (on_job p job (rescued reset written)) f dir n' rest.
Proof.
  intros Hnm En Ef Hw. unfold WriteNodeToRescue, obind. destruct (retry_lines reset written) as [retry|] eqn:Hr; [|done].
  intros <-%Done_inj. cbn [app]. rewrite <- app_assoc.
  set (mark := fun j => if status_is (_Status written) STATUS_DONE && negb (_final written) then SetStatus j STATUS_DONE else j).
  destruct (read_done_lines p f dir n job j written (retry ++ rest) Hnm En Ef Hw) as [n1 ->]. fold mark.
  assert (Hmark : _jobName (mark j) = _jobName j /\ _final (mark j) = _final j) by (unfold mark; by case_match).
  destruct (read_retry_lines reset (on_job p job mark) f dir n1 job (mark j) written retry rest) as [n2 ->]; try done.
  - apply named_on_job; [done|apply Hmark].
  - destruct Hmark. congruence.
  - destruct Hmark. congruence.
  - exists n2. by rewrite on_job_twice.
Qed.
End reading.

(** ** The lines of a partial rescue DAG are tidy *)

Lemma no_eol_app a b : no_eol (a ++ b) <-> no_eol a /\ no_eol b.
Proof. unfold no_eol. rewrite !elem_of_app. tauto. Qed.
Lemma word_no_eol w : wordb w -> no_eol w.
Proof.
  intros [_ Hw]%wordb_chars. apply Is_true_true in Hw. rewrite forallb_forall in Hw.
  split; intros Hc%list_elem_of_In%Hw; by vm_compute in Hc.
Qed.
Ltac literal := apply (bool_decide_unpack _); by vm_compute.
#[export] Instance no_eol_dec l : Decision (no_eol l).
Proof. unfold no_eol. apply _. Defined.

(** The last character of a word that does not continue its line. *)
Definition solid (w : bytes) : Prop := wordb w /\ ends_with BSLASH w = false.

Lemma solid_last w : solid w -> exists w' c, w = w' ++ [c] /\ isspace c = false /\ c <> BSLASH.
Proof.
  intros [[Hn Hw]%wordb_chars Hs]. destruct (exists_last Hn) as (w' & c & ->). exists w', c. split; [done|].
  apply Is_true_true in Hw. rewrite forallb_forall in Hw. specialize (Hw c ltac:(apply in_or_app; simpl; auto)).
  unfold wordchar in Hw. apply andb_true_iff in Hw as [Hc _]. split; [by destruct (isspace c)|].
  intros ->. rewrite ends_with_snoc in Hs. done.
Qed.
Lemma tidy_nil : tidy [].
Proof. split; [literal|done..]. Qed.
Lemma print_d_solid v : solid (print_d v).
Proof.
  split; [apply print_d_word|].
  assert (Hd : forall n, 0 <= n -> forall x, last (x :: print_u n) <> Some BSLASH).
  { intros n Hn x Hl. pose proof (print_u_digits n Hn) as Hd. destruct (print_u_shape n Hn) as (c & w & He & _).
    rewrite He in Hd, Hl. change (last (c :: w) = Some BSLASH) in Hl.
    apply Is_true_true in Hd. rewrite forallb_forall in Hd. apply last_Some in Hl as [l' Hl']. rewrite Hl' in Hd.
    specialize (Hd BSLASH ltac:(apply in_or_app; simpl; auto)). done. }
  unfold ends_with, print_d. destruct (Z.ltb_spec v 0) as [Hv|Hv].
  - destruct (last _) as [c|] eqn:Hl; [|done]. apply bool_decide_false. intros ->. by apply (Hd (- v) ltac:(lia)) in Hl.
  - destruct (last _) as [c|] eqn:Hl; [|done]. apply bool_decide_false. intros ->. apply (Hd v Hv SP).
    destruct (print_u_shape v Hv) as (c & w & He & _). by rewrite He in *.
Qed.

Lemma print_d_no_eol v : no_eol (print_d v).
Proof. apply word_no_eol, print_d_word. Qed.

(** The end of a line, through its concatenations. *)
Definition ends_solid (l : bytes) : Prop := exists x z, l = x ++ z /\ solid z.
Lemma ends_solid_app a b : ends_solid b -> ends_solid (a ++ b).
Proof. intros (x & z & -> & Hz). exists (a ++ x), z. by rewrite (assoc_L (++)). Qed.
Lemma ends_solid_word z : solid z -> ends_solid z.
Proof. intros Hz. by exists [], z. Qed.
Lemma ends_solid_literal x c : isspace c = false -> c <> BSLASH -> c <> NUL -> ends_solid (x ++ [c]).
Proof.
  intros Hs Hb Hn. exists x, [c]. split; [done|]. split.
  - unfold wordb, wordchar. simpl. rewrite Hs, (bool_decide_false (c = NUL)) by done. done.
  - unfold ends_with. simpl. by apply bool_decide_false.
Qed.
Definition starts_solid (l : bytes) : Prop := match l with c :: _ => isspace c = false | [] => False end.
Lemma tidy_intro l : starts_solid l -> no_eol l -> ends_solid l -> tidy l.
Proof.
  intros Hs Hn (x & z & -> & Hz). destruct (solid_last z Hz) as (w & e & -> & He & Hb). split.
  - done.
  - destruct (x ++ w ++ [e]) as [|c l]; [done|]. simpl in *. by rewrite Hs.
  - rewrite (assoc_L (++)). generalize (x ++ w). intros y. unfold rtrim. rewrite rev_app_distr. simpl. rewrite He.
    simpl. by rewrite rev_involutive.
  - unfold ends_with. rewrite (assoc_L (++)), last_snoc. by apply bool_decide_false.
Qed.

(** A line made of literals, words and numbers. *)
Ltac line_end :=
  first [ assumption
        | apply ends_solid_word, print_d_solid
        | apply ends_solid_word; assumption
        | lazymatch goal with |- ends_solid (s2b ?s) =>
            let l := eval vm_compute in (removelast (s2b s)) in let c := eval vm_compute in (List.last (s2b s) NUL) in
            change (s2b s) with (l ++ [c]); apply ends_solid_literal; [by vm_compute|by vm_compute|by vm_compute] end ].
Ltac tidy_tac :=
  apply tidy_intro;
  [exact eq_refl
  |repeat (apply no_eol_app; split); first [assumption | apply print_d_no_eol | lazymatch goal with |- no_eol (s2b _) => literal | |- no_eol [_] => literal end]
  |repeat lazymatch goal with |- ends_solid (_ ++ _) => apply ends_solid_app end; line_end].

Lemma done_lines_tidy j : writable j -> Forall tidy (done_lines j).
Proof.
  intros [Hn Hs _ _ _ _]. unfold done_lines. case_match; [|done]. constructor; [|done].
  pose proof (word_no_eol _ Hn). assert (solid (_jobName j)) by done. tidy_tac.
Qed.
Lemma retry_comment_tidy reset j : Forall tidy (retry_comment reset j).
Proof.
  unfold retry_comment. case_match; [apply Forall_singleton; tidy_tac|]. case_match; [apply Forall_singleton; tidy_tac|done].
Qed.
Lemma retry_lines_tidy reset j lines : writable j -> retry_lines reset j = Done lines -> Forall tidy lines.
Proof.
  intros [Hn Hs _ _ _ _]. unfold retry_lines. case_match; [intros <-%Done_inj; done|]. case_match; [done|].
  intros <-%Done_inj. pose proof (word_no_eol _ Hn). apply Forall_app. split; [apply retry_comment_tidy|apply Forall_singleton].
  destruct (retry_abort_val j); rewrite ?app_nil_r; tidy_tac.
Qed.
Lemma node_lines_tidy reset j lines : writable j -> WriteNodeToRescue reset true j = Done lines -> Forall tidy lines.
Proof.
  intros Hw. unfold WriteNodeToRescue, obind. destruct (retry_lines reset j) as [l|] eqn:Hl; [|done].
  intros <-%Done_inj. cbn [app]. apply Forall_app. split; [by apply done_lines_tidy|by eapply retry_lines_tidy].
Qed.
Lemma write_nodes_tidy reset d jobs lines :
  (forall i j, i ∈ jobs -> _nodeIDHash d !! i = Some j -> writable j) -> write_nodes reset true d jobs = Done lines -> Forall tidy lines.
Proof.
  revert lines. induction jobs as [|job jobs IH]; intros lines Hw; cbn [write_nodes]; [intros <-%Done_inj; constructor|].
  destruct (_nodeIDHash d !! job) as [j|] eqn:Hj; [|done]. unfold obind.
  destruct (WriteNodeToRescue _ _ _) as [l|] eqn:Hl; [|done]. destruct (write_nodes _ _ _ _) as [ls|]; [|done].
  intros <-%Done_inj. apply Forall_app. split; [eapply node_lines_tidy; [|done]; eapply Hw; [|done]; by left|].
  apply IH; [|done]. intros i k Hi. apply Hw. by right.
Qed.
Lemma failed_names_no_eol d :
  (forall i j, i ∈ _jobs d -> _nodeIDHash d !! i = Some j -> writable j) -> no_eol (failed_names d).
Proof.
  unfold failed_names. induction (_jobs d) as [|job jobs IH]; intros Hw; [literal|]. cbn [mbind list_bind].
  apply no_eol_app. split; [|apply IH; intros i j Hi; apply Hw; by right].
  destruct (_nodeIDHash d !! job) as [j|] eqn:Hj; [|literal]. case_match; [|literal].
  apply no_eol_app. split; [|literal]. apply word_no_eol, w_name. eapply Hw; [|done]. by left.
Qed.
Lemma rescue_header_tidy dagFile created parseFailed isPartial d :
  no_eol dagFile -> no_eol created -> no_eol (failed_names d) -> Forall tidy (rescue_header dagFile created parseFailed isPartial d).
Proof.
  intros Hd Hc Hf. unfold rescue_header, RESCUE_DAG_VERSION. repeat (apply Forall_cons; split); [..|apply Forall_nil_2]; try apply tidy_nil;
    try tidy_tac; [destruct parseFailed|destruct isPartial]; tidy_tac.
Qed.
Lemma rescue_header_ignored dagFile created parseFailed isPartial d : Forall ignored (rescue_header dagFile created parseFailed isPartial d).
Proof. unfold rescue_header. destruct parseFailed; repeat (apply Forall_cons; split; [done|]); done. Qed.

(** ** Reading a partial rescue DAG *)

(** The DAG [d] that was written is the DAG that is being read again, some time later. *)
Record resumes (p : Parser) (d : Dag) : Prop := mkResumes {
  m_jobs : _jobs d = _jobs (p_dag p);
  m_nodes : forall i, i ∈ _jobs d -> exists j written, _nodeIDHash (p_dag p) !! i = Some j /\ _nodeIDHash d !! i = Some written /\
              _jobName written = _jobName j /\ _final written = _final j /\ writable written /\
              _nodeNameHash (p_dag p) !! _jobName j = Some i
}.

(** Every node in turn. *)
Definition rescue_nodes (reset : bool) (d : Dag) (m : gmap Z Job) (jobs : list Z) : gmap Z Job :=
  foldl (fun m i => match _nodeIDHash d !! i with Some written => alter (rescued reset written) i m | None => m end) m jobs.

Lemma rescue_nodes_lookup reset d m jobs i :
  NoDup jobs -> rescue_nodes reset d m jobs !! i =
    (if bool_decide (i ∈ jobs) then match _nodeIDHash d !! i with Some written => rescued reset written <$> m !! i | None => m !! i end else m !! i).
Proof.
  unfold rescue_nodes. revert m. induction jobs as [|k jobs IH]; intros m Hnd; cbn [foldl].
  { by rewrite bool_decide_false by apply not_elem_of_nil. }
  apply NoDup_cons in Hnd as [Hk Hnd]. rewrite IH by done.
  assert (Hm : forall j, j <> k -> match _nodeIDHash d !! k with Some w => alter (rescued reset w) k m | None => m end !! j = m !! j).
  { intros j Hj. destruct (_nodeIDHash d !! k); [|done]. by rewrite lookup_alter_ne. }
  destruct (decide (i = k)) as [->|Hne].
  - rewrite (bool_decide_false (k ∈ jobs)), (bool_decide_true (k ∈ k :: jobs)) by (done || by left).
    destruct (_nodeIDHash d !! k); [|done]. by rewrite lookup_alter_eq.
  - rewrite Hm by done. assert (Hiff : bool_decide (i ∈ k :: jobs) = bool_decide (i ∈ jobs)).
    { apply bool_decide_ext. rewrite elem_of_cons. tauto. } by rewrite Hiff.
Qed.

Lemma rescued_same reset w j : _jobName (rescued reset w j) = _jobName j /\ _final (rescued reset w j) = _final j.
Proof. unfold rescued. repeat case_match; done. Qed.

Lemma on_job_alter p job f : on_job p job f = p <| p_dag ::= fun d => d <| _nodeIDHash ::= alter f job |> |>.
Proof.
  unfold on_job. destruct p as [d]. destruct d as [jobs nodes]. unfold set_field, set_p_dag, put_node; simpl.
  unfold set_field, set_nodeIDHash; simpl. destruct (nodes !! job) as [j|] eqn:Hj.
  - by rewrite (alter_insert_eq) || (f_equal; f_equal; apply map_eq; intros i; destruct (decide (i = job)) as [->|Hne];
      [rewrite lookup_insert_eq, lookup_alter_eq, Hj|rewrite lookup_insert_ne, lookup_alter_ne]; done).
  - f_equal; f_equal. apply map_eq. intros i. destruct (decide (i = job)) as [->|Hne]; [by rewrite lookup_alter_eq, Hj|by rewrite lookup_alter_ne].
Qed.

Section reading_all.
Context `{Files} (strict : Z) (rec : Parser -> bytes -> option (outcome (Parser * bool))).

Lemma read_all_nodes reset d jobs p f dir n lines rest :
  _mungeNames p = false ->
  (forall i, i ∈ jobs -> exists j written, _nodeIDHash (p_dag p) !! i = Some j /\ _nodeIDHash d !! i = Some written /\
     _jobName written = _jobName j /\ _final written = _final j /\ writable written /\ _nodeNameHash (p_dag p) !! _jobName j = Some i) ->
  write_nodes reset true d jobs = Done lines ->
  exists n', parse_lines strict rec p f dir n (lines ++ rest) =
    parse_lines strict rec (p <| p_dag ::= fun d0 => d0 <| _nodeIDHash ::= fun m => rescue_nodes reset d m jobs |> |>) f dir n' rest.
Proof.
  revert p n lines. induction jobs as [|job jobs IH]; intros p n lines Hm Hn; cbn [write_nodes].
  { intros <-%Done_inj. exists n. destruct p as [[]]. done. }
  destruct (Hn job ltac:(by left)) as (j & w & Hj & Hw & En & Ef & Hwr & Hname). rewrite Hw. unfold obind.
  destruct (WriteNodeToRescue reset true w) as [l|] eqn:Hl; [|done].
  destruct (write_nodes reset true d jobs) as [ls|] eqn:Hls; [|done]. intros <-%Done_inj. rewrite <- app_assoc.
  destruct (read_node_lines strict rec reset p f dir n job j w l (ls ++ rest)) as [n1 ->]; try done.
  destruct (IH (on_job p job (rescued reset w)) n1 ls) as [n2 ->]; try done.
  - rewrite on_job_alter. done.
  - intros i Hi. destruct (Hn i ltac:(by right)) as (ji & wi & Hji & Hwi & Eni & Efi & Hwri & Hnamei).
    rewrite on_job_alter. simpl. destruct (decide (i = job)) as [->|Hne].
    + exists (rescued reset w ji), wi. destruct (rescued_same reset w ji) as [E1 E2].
      rewrite lookup_alter_eq, Hji. split_and!; try done; congruence.
    + exists ji, wi. rewrite lookup_alter_ne by done. done.
  - exists n2. rewrite on_job_alter. unfold rescue_nodes. simpl. rewrite Hw. destruct p as [[]]. done.
Qed.
End reading_all.

Lemma LiftSplices_none strict p :
  table_ok (_splices p) -> pending p = [] -> m_directory p = s2b "." ->
  LiftSplices strict p = Done (p <| _splices ::= fun t => HT.clear (HT.startIterations t) |>).
Proof.
  intros Ht Hp Hm. unfold LiftSplices. rewrite all_splices_entries by done.
  assert (He : HT.entries (_splices p) = []) by (unfold pending in Hp; by destruct (HT.entries (_splices p))).
  rewrite He. cbn [assume_all obind]. unfold PropogateDirectoryToAllNodes. simpl. rewrite Hm. unfold streq. by rewrite bool_decide_true.
Qed.
Lemma LiftSplices_directory strict p p' : LiftSplices strict p = Done p' -> m_directory p' = s2b ".".
Proof.
  unfold LiftSplices, obind. destruct (assume_all _ _ _); [|done]. intros [= <-]. unfold PropogateDirectoryToAllNodes.
  destruct (streq _ _) eqn:Hs; [|done]. unfold streq in Hs. by apply bool_decide_eq_true_1 in Hs.
Qed.

(** Reading a partial rescue DAG changes the nodes and nothing else of the DAG. *)
Lemma read_partial_rescue `{Files} strict fuel reset p q config dagFile created file lines :
  table_ok (_splices p) -> pending p = [] -> m_directory p = s2b "." -> _mungeNames p = false -> resumes p (p_dag q) ->
  no_eol dagFile -> no_eol created -> WriteRescue q config dagFile created false true reset = Done lines ->
  fopen 0 (p_cwd p) file = Some (text lines) ->
  exists p', parse strict (S fuel) 0 false p file = Some (Done (p', true)) /\
    p_dag p' = (p_dag p) <| _nodeIDHash ::= fun m => rescue_nodes reset (p_dag q) m (_jobs (p_dag q)) |>.
Proof.
  intros Ht Hp Hm Hmunge [Hj Hn] Hdf Hcr. unfold WriteRescue, obind.
  destruct (write_nodes reset true (p_dag q) (_jobs (p_dag q))) as [nodes|] eqn:Hw; [|done]. intros <-%Done_inj Hopen.
  assert (Hwr : forall i j, i ∈ _jobs (p_dag q) -> _nodeIDHash (p_dag q) !! i = Some j -> writable j).
  { intros i j Hi Hji. destruct (Hn i Hi) as (j0 & w & _ & Hwi & _ & _ & Hok & _). congruence. }
  cbn [parse]. unfold Cd2TmpDir at 1. cbn [stays streq]. change (stays []) with true. cbn iota.
  change (p_cwd (p <| _thisDagNum ::= Z.succ |>)) with (p_cwd p). rewrite Hopen, getlines_text.
  2: { apply Forall_app. split; [apply rescue_header_tidy; [done|done|by apply failed_names_no_eol]|by eapply write_nodes_tidy]. }
  set (p2 := set_field p_cwd _ _).
  destruct (parse_lines_ignored strict (parse strict fuel 1 false) p2 file [] 0 _ nodes
    (rescue_header_ignored dagFile created false true (p_dag q))) as [n1 ->].
  destruct (read_all_nodes strict (parse strict fuel 1 false) reset (p_dag q) (_jobs (p_dag q)) p2 file [] n1 nodes []) as [n2 Hr]; try done.
  rewrite app_nil_r in Hr. rewrite Hr. cbn [parse_lines]. unfold accept. cbn iota.
  rewrite LiftSplices_none by done. cbn [obind].
  unfold Cd2MainDir. change (stays []) with true. cbn iota. cbn [obind]. eexists. split; [reflexivity|]. done.
Qed.

(** ** Running again *)

Lemma each_job_lookup f d jobs i :
  NoDup jobs -> _nodeIDHash (each_job f d jobs) !! i = (if bool_decide (i ∈ jobs) then f <$> _nodeIDHash d !! i else _nodeIDHash d !! i).
Proof.
  revert d. induction jobs as [|k jobs IH]; intros d Hnd; cbn [each_job].
  { by rewrite bool_decide_false by apply not_elem_of_nil. }
  apply NoDup_cons in Hnd as [Hk Hnd]. rewrite IH by done. destruct (decide (i = k)) as [->|Hne].
  - rewrite (bool_decide_false (k ∈ jobs)), (bool_decide_true (k ∈ k :: jobs)) by (done || by left).
    destruct (_nodeIDHash d !! k) as [j|] eqn:Hj; [|by rewrite Hj]. simpl. by rewrite lookup_insert_eq.
  - assert (Hiff : bool_decide (i ∈ k :: jobs) = bool_decide (i ∈ jobs)) by (apply bool_decide_ext; rewrite elem_of_cons; tauto).
    rewrite Hiff. destruct (_nodeIDHash d !! k); [|done]. simpl. by rewrite lookup_insert_ne.
Qed.
Lemma rescued_resolve reset w j : resolve_vars (rescued reset w j) = rescued reset w (resolve_vars j).
Proof. unfold rescued. repeat case_match; done. Qed.

Lemma ResolveVars_spec d :
  exists m, ResolveVarsInterpolations d = d <| _nodeIDHash := m |> /\
    (NoDup (_jobs d) -> forall i, m !! i = if bool_decide (i ∈ _jobs d) then resolve_vars <$> _nodeIDHash d !! i else _nodeIDHash d !! i).
Proof.
  destruct (each_job_spec kin resolve_vars d (_jobs d)) as (m & He & _); [by repeat split|]. exists m. split; [exact He|].
  intros Hnd i. rewrite <- each_job_lookup by done. by rewrite He.
Qed.

(** C6 (roundtrip): after a run of a DAG that was read from its input files without -usedagdir, write a
    partial rescue DAG and read the same files again with it: parsing succeeds, the DAG is the same, and
    a node (other than the final one, which is never marked) is done if it was done when the rescue DAG
    was written or is marked done in the input files, with the number of retries that were left, or all
    of them when retries are reset. The run has kept the nodes and their names; names are words that do
    not end in a backslash; retry counts and UNLESS-EXIT values fit an int; a final node has no retries;
    the name of the DAG file and the date hold no end of line; the rescue file can be opened from every
    directory. *)
Theorem rescue_dag_restores `{Files} strict fuel prio cwd files p q config dagFile created reset file lines :
  read_dag strict (S fuel) false prio cwd files None = Some (Done p) ->
  resumes p (p_dag q) -> no_eol dagFile -> no_eol created ->
  WriteRescue q config dagFile created false true reset = Done lines ->
  (forall dir, fopen 0 dir file = Some (text lines)) ->
  exists p' nodes, read_dag strict (S fuel) false prio cwd files (Some file) = Some (Done p') /\
    p_dag p' = (p_dag p) <| _nodeIDHash := nodes |> /\
    forall i j w, i ∈ _jobs (p_dag p) -> _nodeIDHash (p_dag p) !! i = Some j -> _nodeIDHash (p_dag q) !! i = Some w ->
      nodes !! i = Some (rescued reset w j).
Proof.
  intros Hread [Hj Hn] Hdf Hcr Hw Hopen. pose proof (read_dag_parsing _ _ _ _ _ _ _ _ Hread) as [[_ Hpar] _].
  pose proof (d_nodup _ (g_idle _ _ _ Hpar)) as Hnd.
  revert Hread. unfold read_dag. destruct (parse_files _ _ _ _ files) as [[p1|]|] eqn:H1; [|done..].
  apply (parse_files_ok _ _ _ 0) in H1 as [Hp1 E1]; [|apply new_Parser_ok|done].
  destruct (LiftSplices _ _) as [p2|] eqn:H2; [|done]. pose proof (LiftSplices_directory _ _ _ H2) as Hdir.
  apply (LiftSplices_ok _ 0) in H2 as [[Ht2 Hp2] E2]; [|by apply SetDefaultPriorities_ok].
  unfold obind at 1. destruct (CheckThrottleCats strict (p_dag p2)) as [[]|] eqn:Hc; [|done]. intros [= <-]. simpl in Hj, Hn, Hnd.
  change (p_dag (p2 <| p_dag ::= ResolveVarsInterpolations |>)) with (ResolveVarsInterpolations (p_dag p2)).
  destruct (ResolveVars_spec (p_dag p2)) as (m & Em & Hm). rewrite Em in Hj, Hn, Hnd |- *. simpl in Hj, Hn, Hnd. specialize (Hm Hnd).
  assert (Hres : resumes (p2 <| _mungeNames := false |>) (p_dag q)).
  { split; [done|]. intros i Hi. destruct (Hn i Hi) as (j & w & Hji & Hwi & En & Ef & Hok & Hname).
    rewrite Hm, bool_decide_true in Hji by congruence. simpl. destruct (_nodeIDHash (p_dag p2) !! i) as [j2|]; [|done].
    simpl in Hji. injection Hji as <-. by exists j2, w. }
  destruct (read_partial_rescue strict fuel reset (p2 <| _mungeNames := false |>) q config dagFile created file lines) as (p3 & Hp3 & Ed3);
    try done; try apply Hopen. cbn [parse_files]. rewrite Hp3. cbn iota. unfold obind.
  rewrite Ed3. unfold CheckThrottleCats in *. simpl. rewrite Hc.
  destruct (ResolveVars_spec ((p_dag p2) <| _nodeIDHash ::= fun m => rescue_nodes reset (p_dag q) m (_jobs (p_dag q)) |>)) as (m' & Em' & Hm').
  specialize (Hm' Hnd). eexists _, m'. split; [reflexivity|]. split; [simpl; rewrite Ed3; exact Em'|].
  intros i j w Hi Hji Hwi. rewrite Hm', bool_decide_true by done. simpl.
  rewrite rescue_nodes_lookup, bool_decide_true, Hwi by congruence. rewrite Hm, bool_decide_true in Hji by done.
  destruct (_nodeIDHash (p_dag p2) !! i) as [j2|]; [|done]. simpl in Hji |- *. injection Hji as <-. by rewrite rescued_resolve.
Qed.

(** ** VARS lines *)

Lemma isname_facts c : isname c = true -> isspace c = false /\ isDelimiter c = false /\ c <> NUL /\ c <> LF.
Proof. destruct c as [[] [] [] [] [] [] [] []]; vm_compute; done. Qed.
Lemma not_isname_eq : isname "="%char = false.
Proof. done. Qed.

Record var_ok (nv : bytes * bytes) : Prop := mkVarOk {
  v_nonempty : nv.1 <> [];
  v_chars : Forall (fun c => isname c = true) nv.1;
  v_queue : prefixb (s2b "queue") (lower nv.1) = false;
  v_value : Forall (fun c => c <> SQUOTE) nv.2
}.

Lemma span_name_app n s c : Forall (fun c => isname c = true) n -> isname c = false -> span_name (n ++ c :: s) = (n, c :: s).
Proof. intros Hn Hc. induction Hn as [|x n Hx _ IH]; simpl; [by rewrite Hc|]. by rewrite Hx, IH. Qed.
(** Escaping a value and reading it back. *)
Lemma read_escaped v rest : Forall (fun c => c <> SQUOTE) v -> read_value (escape_value v ++ DQUOTE :: rest) false = Some (v, rest).
Proof.
  induction 1 as [|c v Hc _ IH]; [done|]. unfold escape_value. cbn [mbind list_bind]. fold (escape_value v).
  destruct (decide (c = DQUOTE)) as [->|Hd]; [rewrite bool_decide_true by done; cbn; by rewrite IH|].
  rewrite (bool_decide_false (c = DQUOTE)) by done.
  destruct (decide (c = BSLASH)) as [->|Hb]; [rewrite bool_decide_true by done; cbn; by rewrite IH|].
  rewrite (bool_decide_false (c = BSLASH)) by done. cbn [app read_value].
  rewrite !bool_decide_false by done. by rewrite IH.
Qed.
Definition pair_text (nv : bytes * bytes) : bytes := nv.1 ++ s2b "=" ++ [DQUOTE] ++ escape_value nv.2 ++ [DQUOTE].
Lemma vars_text_cons nv l : vars_text (nv :: l) = SP :: pair_text nv ++ vars_text l.
Proof. unfold vars_text, pair_text. cbn [mbind list_bind]. by rewrite <- !app_assoc. Qed.
Lemma read_pair_text nv rest : var_ok nv -> read_pair (pair_text nv ++ rest) = Var nv.1 nv.2 rest.
Proof.
  intros [Hne Hch Hq Hv]. destruct nv as [n v]. cbn [fst snd] in *. unfold pair_text. cbn [fst snd]. rewrite <- !app_assoc.
  assert (Hsk : skip_spaces (n ++ s2b "=" ++ [DQUOTE] ++ escape_value v ++ [DQUOTE] ++ rest) = n ++ s2b "=" ++ [DQUOTE] ++ escape_value v ++ [DQUOTE] ++ rest).
  { destruct n as [|c n]; [done|]. inversion Hch; subst. simpl. by rewrite (proj1 (isname_facts c ltac:(done))). }
  unfold read_pair. rewrite Hsk.
  change (n ++ s2b "=" ++ [DQUOTE] ++ escape_value v ++ [DQUOTE] ++ rest) with (n ++ "="%char :: DQUOTE :: escape_value v ++ DQUOTE :: rest).
  pose proof (span_name_app n (DQUOTE :: escape_value v ++ DQUOTE :: rest) "="%char Hch not_isname_eq) as Hsp.
  destruct n as [|c n]; [done|]. cbn [app] in Hsp |- *. rewrite Hsp. cbn iota.
  change (skip_spaces ("="%char :: DQUOTE :: escape_value v ++ DQUOTE :: rest)) with ("="%char :: DQUOTE :: escape_value v ++ DQUOTE :: rest).
  cbn iota. change (skip_spaces (DQUOTE :: escape_value v ++ DQUOTE :: rest)) with (DQUOTE :: escape_value v ++ DQUOTE :: rest).
  change (negb (bool_decide (DQUOTE = DQUOTE))) with false. cbn iota. rewrite read_escaped by done. by rewrite Hq.
Qed.
Lemma read_pair_space s : read_pair (SP :: s) = read_pair s.
Proof. done. Qed.

Lemma add_var_new n v j : n ∉ (varsFromDag j).*1 -> varsFromDag (add_var n v j) = varsFromDag j ++ [(n, v)].
Proof.
  intros Hn. unfold add_var. simpl. f_equal. induction (varsFromDag j) as [|[n' v'] l IH]; [done|].
  apply not_elem_of_cons in Hn as [Hne Hn]. rewrite filter_cons_True by (intros He; apply Hne; symmetry; exact He). by rewrite IH.
Qed.
Lemma parse_pairs_text strict vars fuel k j s :
  read_pair s = read_pair (vars_text vars) -> Forall var_ok vars -> NoDup ((varsFromDag j).*1 ++ vars.*1) ->
  (length vars < fuel)%nat -> (0 < k + length vars)%nat ->
  parse_pairs strict fuel s k j = Done (j <| varsFromDag ::= fun l => l ++ vars |>, true).
Proof.
  revert fuel k j s. induction vars as [|nv vars IH]; intros fuel k j s Hs Hok Hnd Hf Hk; (destruct fuel as [|fuel]; [simpl in *; lia|]);
    cbn [parse_pairs]; rewrite Hs.
  - simpl. destruct k; [simpl in Hk; lia|]. simpl. do 2 f_equal. destruct j; unfold set_field, set_varsFromDag; simpl. by rewrite app_nil_r.
  - apply Forall_cons in Hok as [Hnv Hok]. rewrite vars_text_cons, read_pair_space, read_pair_text by done.
    assert (Hnew : nv.1 ∉ (varsFromDag j).*1).
    { apply NoDup_app in Hnd as (_ & Hd & _). intros Hin. apply (Hd _ Hin). simpl. by left. }
    rewrite bool_decide_false by done. cbn [obind]. rewrite IH; [|done|done| |simpl in Hf; lia|lia].
    + do 2 f_equal. pose proof (add_var_new nv.1 nv.2 j Hnew) as Ha. destruct nv as [n v]. unfold add_var in *.
      destruct j; unfold set_field, set_varsFromDag in *; simpl in *. by rewrite Ha, <- app_assoc.
    + rewrite add_var_new by done. rewrite fmap_app, <- app_assoc. by destruct nv.
Qed.

Lemma escape_length v : (length v <= length (escape_value v))%nat.
Proof.
  induction v as [|c v IH]; [done|]. unfold escape_value. cbn [mbind list_bind]. fold (escape_value v).
  rewrite length_app. case_bool_decide; [simpl; lia|]. case_bool_decide; simpl; lia.
Qed.
Lemma vars_text_length vars : (length vars <= length (vars_text vars))%nat.
Proof.
  induction vars as [|nv vars IH]; [done|]. rewrite vars_text_cons. simpl. rewrite length_app. lia.
Qed.
Lemma strtok_line s : s <> [] -> LF ∉ s -> strtok isNewline s = Some (s, []).
Proof.
  intros Hne Hlf. unfold strtok. destruct s as [|c s]; [done|].
  assert (Hnl : forall x, x ∈ c :: s -> isNewline x = false) by (intros x Hx; apply bool_decide_false; congruence).
  cbn [skip_delims]. rewrite Hnl by (by left). revert Hnl. generalize (c :: s). intros l Hl. f_equal.
  induction l as [|x l IH]; [done|]. simpl. rewrite Hl by (by left). rewrite IH by (intros y Hy; apply Hl; by right). done.
Qed.
Lemma vars_text_no_lf vars : Forall var_ok vars -> Forall (fun nv => LF ∉ nv.2) vars -> LF ∉ vars_text vars.
Proof.
  induction 1 as [|nv vars [Hne Hch Hq Hv] _ IH]; intros Hlf; [by intros ?%elem_of_nil|].
  apply Forall_cons in Hlf as [Hl Hlf]. rewrite vars_text_cons. unfold pair_text. intros Hin.
  assert (Hn : LF ∉ nv.1).
  { intros Hx. rewrite Forall_forall in Hch. by apply Hch, isname_facts in Hx as (_ & _ & _ & ?). }
  assert (He : LF ∉ escape_value nv.2).
  { unfold escape_value. intros (c & Hc & Hx)%list_elem_of_bind. revert Hc. case_bool_decide; [|case_bool_decide].
    - by intros [?|[?|?%elem_of_nil]%elem_of_cons]%elem_of_cons.
    - by intros [?|[?|?%elem_of_nil]%elem_of_cons]%elem_of_cons.
    - intros <-%list_elem_of_singleton. done. }
  apply elem_of_cons in Hin as [?|Hin]; [done|]. rewrite !elem_of_app in Hin.
  destruct Hin as [[?|[Hx|[Hx|[?|Hx]]]]|?]; try done; [|by apply list_elem_of_singleton in Hx..|by apply IH].
  by apply list_elem_of_singleton in Hx.
Qed.

(** C40 (roundtrip): the VARS line that a full rescue DAG has for a node gives the node the same variables when it
    is read: names and values come back in order, whatever spaces, double quotes and backslashes the
    values hold. The node has a word for its name, is found by it and has no variables yet; the
    variables have distinct legal names that do not begin with queue, and values without single quotes
    and ends of line, as the parser demands of them. *)
Theorem vars_roundtrip strict p job j vars :
  named p job j -> wordb (_jobName j) -> varsFromDag j = [] -> vars <> [] -> Forall var_ok vars ->
  Forall (fun nv => LF ∉ nv.2) vars -> NoDup vars.*1 ->
  parse_vars strict p (_jobName j ++ vars_text vars) = Done (on_job p job (fun j => j <| varsFromDag := vars |>), true).
Proof.
  intros Hnm Hw He Hne Hok Hlf Hnd. destruct vars as [|nv vars]; [done|].
  pose proof (vars_text_no_lf _ Hok Hlf) as Hl. rewrite vars_text_cons in *. apply not_elem_of_cons in Hl as [_ Hl].
  unfold parse_vars. rewrite strtok_token by (by apply word_token). unfold with_job, obind.
  rewrite (find_named p job j Hnm). unfold job_at. rewrite (n_node _ _ _ Hnm).
  assert (Hnil : pair_text nv ++ vars_text vars <> []).
  { unfold pair_text. destruct nv as [[|] v]; done. }
  rewrite strtok_line by done. rewrite (parse_pairs_text strict (nv :: vars)); [|by rewrite vars_text_cons|done|by rewrite He| |simpl; lia].
  - assert (Ej : j <| varsFromDag ::= fun l => l ++ nv :: vars |> = j <| varsFromDag := nv :: vars |>).
    { destruct j; unfold set_field, set_varsFromDag; simpl in *. by rewrite He. }
    unfold on_job. rewrite (n_node _ _ _ Hnm), Ej. done.
  - pose proof (vars_text_length vars). rewrite length_app. simpl. unfold pair_text. rewrite !length_app. simpl. lia.
Qed.
