(* ===== verification/ToyExprs.v ===== *)
(** A small expression language that satisfies [ExprLangLaws], for worked examples: an expression
    is any line of text, unparsed as itself; a string literal is a quote followed by the bits of
    the string. *)

From S2P Require Import Prelude ClassAd.

Open Scope Z_scope.

Definition line : Type := { b : bytes | lineb b }.

#[export] Instance line_eq_dec : EqDecision line.
Proof.
  intros [a Ha] [b Hb]. destruct (decide (a = b)) as [Heq|Hne].
  - left. destruct Heq. by rewrite (proof_irrel Ha Hb).
  - right. intros [= Heq]. done.
Defined.

Definition line_of (b : bytes) : option line :=
  match decide (Is_true (lineb b)) with
  | left H => Some (exist _ b H)
  | right _ => None
  end.

Definition bit (b : bool) : ascii := if b then "1"%char else "0"%char.
Definition unbit (c : ascii) : bool := bool_decide (c = "1"%char).
Definition bits (c : ascii) : bytes :=
  match c with Ascii a b c d e f g h => [bit a; bit b; bit c; bit d; bit e; bit f; bit g; bit h] end.
Fixpoint unbits (s : bytes) : bytes :=
  match s with
  | a :: b :: c :: d :: e :: f :: g :: h :: r =>
      Ascii (unbit a) (unbit b) (unbit c) (unbit d) (unbit e) (unbit f) (unbit g) (unbit h) :: unbits r
  | _ => []
  end.

Lemma unbits_bits s : unbits (concat (bits <$> s)) = s.
Proof.
  induction s as [|c s IH]; [done|]. destruct c as [[] [] [] [] [] [] [] []]; simpl; by f_equal.
Qed.
Lemma literal_line s : lineb (SQUOTE :: concat (bits <$> s)).
Proof.
  unfold lineb. simpl. induction s as [|c s IH]; [done|].
  destruct c as [[] [] [] [] [] [] [] []]; simpl; done.
Qed.

Definition toy_literal (s : bytes) : line := exist _ (SQUOTE :: concat (bits <$> s)) (literal_line s).
Definition toy_eval (e : line) : option bytes :=
  match proj1_sig e with
  | c :: r => if bool_decide (c = SQUOTE) then Some (unbits r) else None
  | [] => None
  end.
Lemma undefined_line : lineb (s2b "UNDEFINED").
Proof. done. Qed.

#[export] Instance Toy : ExprLang := {|
  expr := line;
  ParseExpression := line_of;
  ExprTreeToString := @proj1_sig _ _;
  StringLiteral := toy_literal;
  UndefinedLiteral := exist _ (s2b "UNDEFINED") undefined_line;
  EvaluateString := fun _ e => toy_eval e
|}.

#[export] Instance ToyLaws : ExprLangLaws Toy.
Proof.
  split. intros scope s. simpl. unfold toy_eval. simpl. by rewrite unbits_bits.
Qed.
