(* ===== verification/EnvExamples.v ===== *)
(** Environments at work: the theorems of Env at concrete environments, and an environment for a Windows
    machine that a Unix daemon reads back wrongly. *)

From Stdlib Require Import Sorted.
From S2P Require Import Prelude HashTable ClassAd ArgList Env ToyExprs.

Open Scope Z_scope.

(** The environment after some calls. *)
Definition env_of (r : outcome (Env * list env_answer)) : Env := match r with Done (e, _) => e | EXCEPT _ => new_Env end.
Lemma env_of_rep `{Platform} os : env_rep (env_of (env_run new_Env os)) (spec_run ∅ os).1.
Proof. destruct (env_run_rep os new_Env ∅ new_Env_rep) as (e & -> & Hr). exact Hr. Qed.

(** Properties of all variables, by computation. *)
Lemma map_check (m : env) (P : bytes -> bytes -> Prop) (f : bytes * bytes -> bool) :
  (forall k v, f (k, v) = true -> P k v) -> forallb f (map_to_list m) = true -> map_Forall P m.
Proof.
  intros Hf Hm k v Hkv. apply Hf. rewrite forallb_forall in Hm. apply Hm, list_elem_of_In. by apply elem_of_map_to_list.
Qed.
Definition expressibleb (kv : bytes * bytes) : bool :=
  match split_equal kv.1 with None => true | Some _ => false end && (has_value kv.2 || has_dollars kv.1).
Lemma expressibleb_ok k v : expressibleb (k, v) = true -> expressible k v.
Proof.
  unfold expressibleb, expressible. simpl. destruct (split_equal k); [done|]. intros Ho. split; [done|]. intros Hv. by rewrite Hv in Ho.
Qed.
Definition plain_nameb (kv : bytes * bytes) : bool :=
  match kv.1 with c :: _ => negb (isspace c) && negb (ceq c DQUOTE) | [] => true end.
Lemma plain_nameb_ok k v : plain_nameb (k, v) = true -> match k with c :: _ => isspace c = false /\ c <> DQUOTE | [] => True end.
Proof.
  unfold plain_nameb. destruct k as [|c k]; simpl; [done|]. rewrite andb_true_iff, !negb_true_iff. intros [H1 H2]. split; [done|]. by apply ceq_false.
Qed.

Definition ex_ops : list env_op :=
  [OMergeV2 (s2b "PATH=/bin:/usr/bin 'GREETING=it''s; done' EMPTY= $$(macro)"); OSet (s2b "PATH") (s2b "/opt/bin"); OGetV1 NUL].
Definition old_ops : list env_op := [OMergeV1 (s2b "PATH=/sbin;HOME=/root")].

(** ** On Unix *)
Section unix.
#[local] Instance on_unix : Platform := false.

Definition ex_env : Env := env_of (env_run new_Env ex_ops).
Definition ex_map : env := (spec_run ∅ ex_ops).1.
Definition ex_old : Env := env_of (env_run new_Env old_ops).
Definition ex_old_map : env := (spec_run ∅ old_ops).1.

(** One value cannot be written in V1, so the writer of V1 stops half way. *)
Example ex_env_entries :
  (spec_run ∅ ex_ops).2 = [AOk true; AOk true; AOk false] /\
  ex_map !! s2b "PATH" = Some (s2b "/opt/bin") /\ ex_map !! s2b "GREETING" = Some (s2b "it's; done") /\
  ex_map !! s2b "EMPTY" = Some [] /\ ex_map !! s2b "$$(macro)" = Some NO_ENVIRONMENT_VALUE /\ size ex_map = 4%nat.
Proof. vm_compute. done. Qed.

Lemma env_v2_roundtrip_witness :
  exists e' s e1, getDelimitedStringV2Raw ex_env [] false = Done (e', s) /\ MergeFromV2Raw ex_old (Some s) None = Done (e1, true, None) /\
    env_rep e1 (ex_map ∪ ex_old_map).
Proof.
  destruct (env_v2_roundtrip ex_env ex_map ex_old ex_old_map None (env_of_rep ex_ops)
    ltac:(apply (map_check _ _ expressibleb expressibleb_ok); vm_compute; reflexivity) (env_of_rep old_ops))
    as ((e' & s & e1 & H1 & H2 & _ & H3) & _). eauto 10.
Defined.

Lemma env_v1_preferring_roundtrip_witness :
  exists e' s e1, getDelimitedStringV1or2Raw ex_env [] NUL = Done (e', s) /\ MergeFromV1or2Raw ex_old (Some s) None = Done (e1, true, None) /\
    env_rep e1 (ex_map ∪ ex_old_map).
Proof.
  destruct (env_v1_preferring_roundtrip ex_env ex_map ex_old ex_old_map None (env_of_rep ex_ops)
    ltac:(apply (map_check _ _ expressibleb expressibleb_ok); vm_compute; reflexivity)
    ltac:(apply (map_check _ _ plain_nameb plain_nameb_ok); vm_compute; reflexivity) (env_of_rep old_ops))
    as ((e' & s & e1 & H1 & H2 & _ & H3) & _). eauto 10.
Defined.

Definition empty_ad : ClassAd := mkClassAd ∅ ∅ false None.
Lemma env_ad_roundtrip_witness :
  exists e' ad' err' e1, InsertEnvIntoClassAd ex_env empty_ad None None None = Done (e', ad', true, err') /\ env_rep e' ex_map /\
    MergeFrom_ad ex_old ad' None = Done (e1, true, None) /\ env_rep e1 (ex_map ∪ ex_old_map).
Proof.
  apply (env_ad_roundtrip ex_env ex_map ex_old ex_old_map empty_ad None None None (env_of_rep ex_ops)).
  - apply (map_check _ _ expressibleb expressibleb_ok). vm_compute. reflexivity.
  - apply (map_check _ _ (fun kv => no_nul kv.1 && no_nul kv.2)); [intros k v Hkv; by apply Is_true_true|vm_compute; reflexivity].
  - apply env_of_rep.
  - exact I.
  - right. reflexivity.
Defined.

(** An ad that already has a V1 environment. *)
Definition v1_ad : ClassAd := Assign empty_ad ATTR_JOB_ENVIRONMENT1 (s2b "A=0").
Definition two_vars : Env := env_of (env_run new_Env [OSet (s2b "A") (s2b "1"); OSet (s2b "B") (s2b "2")]).

Definition misread : option (option bytes * Z * option bytes) :=
  match InsertEnvIntoClassAd two_vars v1_ad None (Some (s2b "WINNT51")) None with
  | Done (_, ad', true, None) =>
      match MergeFrom_ad new_Env ad' None with
      | Done (e1, true, None) => Some (LookupString ad' ATTR_JOB_ENVIRONMENT1_DELIM, EnvCount e1, GetEnv e1 (s2b "A"))
      | _ => None
      end
  | _ => None
  end.

(** The delimiter of a V1 environment is recorded in the ad when it is written, but not
    consulted when it is read: two variables written by a Unix daemon for a Windows machine are read back
    by a Unix daemon as one variable. *)
Theorem recorded_delimiter_not_read :
  exists e ad', InsertEnvIntoClassAd two_vars v1_ad None (Some (s2b "WINNT51")) None = Done (e, ad', true, None) /\
    LookupString ad' ATTR_JOB_ENVIRONMENT1_DELIM = Some (s2b "|") /\
    exists e1, MergeFrom_ad new_Env ad' None = Done (e1, true, None) /\
      EnvCount two_vars = 2 /\ EnvCount e1 = 1 /\ GetEnv e1 (s2b "A") = Some (s2b "1|B=2").
Proof.
  assert (E : misread = Some (Some (s2b "|"), 1, Some (s2b "1|B=2"))) by (vm_compute; reflexivity). unfold misread in E.
  destruct (InsertEnvIntoClassAd two_vars _ _ _ _) as [[[[e ad'] [|]] [|]]|]; try done. exists e, ad'. split; [done|].
  destruct (MergeFrom_ad new_Env ad' None) as [[[e1 [|]] [|]]|]; try done. injection E as E1 E2 E3.
  split; [done|]. exists e1. split; [done|]. split; [vm_compute; reflexivity|done].
Qed.

(** A name that begins with a blank is accepted, and V1 syntax is chosen for it; the reader
    of the wire format takes the blank for the mark of V2 and makes one variable of two. *)
Theorem leading_blank_changes_syntax :
  let e := env_of (env_run new_Env [OSet (s2b "B") (s2b "2"); OSet (s2b " A") (s2b "1")]) in
  exists e' s e1, getDelimitedStringV1or2Raw e [] NUL = Done (e', s) /\ MergeFromV1or2Raw new_Env (Some s) None = Done (e1, true, None) /\
    EnvCount e = 2 /\ EnvCount e1 = 1 /\ GetEnv e1 (s2b "A") = Some (s2b "1;B=2").
Proof.
  eexists _, _, _. split; [vm_compute; reflexivity|]. split; [vm_compute; reflexivity|]. vm_compute. done.
Qed.
End unix.

(** ** On Windows *)
Section windows.
#[local] Instance on_windows : Platform := true.

Definition after_set (e : Env) (var val : bytes) : Env := match SetEnv e var val with Done (e', _) => e' | EXCEPT _ => e end.
Lemma windows_block_last_wins_witness :
  exists e1 e2, SetEnv new_Env (s2b "Path") (s2b "C:\") = Done (e1, true) /\ SetEnv e1 (s2b "PATH") (s2b "D:\") = Done (e2, true) /\
    getWindowsEnvironmentString e2 = Done [s2b "PATH=D:\"].
Proof.
  destruct (windows_block_last_wins (H := on_windows) new_Env ∅ (s2b "Path") (s2b "C:\") eq_refl new_Env_win_rep ltac:(done)) as (e1 & H1 & Hr1 & _).
  destruct (windows_block_last_wins (H := on_windows) e1 _ (s2b "PATH") (s2b "D:\") eq_refl Hr1 ltac:(done)) as (e2 & H2 & _ & H3 & _).
  exists e1, e2. split; [done|]. split; [done|]. assert (E1 : e1 = after_set new_Env (s2b "Path") (s2b "C:\")) by (unfold after_set; by rewrite H1).
  assert (E2 : e2 = after_set e1 (s2b "PATH") (s2b "D:\")) by (unfold after_set; by rewrite H2). subst e2 e1. vm_compute. reflexivity.
Defined.
End windows.
