(* ===== verification/ClassAdExamples.v ===== *)
(** ClassAd evaluation on concrete ads: the theorems of the operators, of evaluation and of matching
    applied, and two inputs on which the code does not do what it is meant to. *)

From S2P Require Import Prelude ClassAdOps ClassAdEval ClassAdFunctions ClassAdRuns ClassAdTermination ClassAdMatch.

Open Scope Z_scope.

Definition lit (v : Value) : ExprTree := Literal v NO_FACTOR.
Definition op2 (o : OpKind) (a b : ExprTree) : ExprTree := Operation o (Some a) (Some b) None.
Definition plain_ad (l : list (string * ExprTree)) : Ad := mkAd (attrs_of l) None None None.
Definition idle (h : Heap) : EvalState := mkEvalState h None None 0.

(** ** A subscript that begins a new count *)

Section self.
Context `{F : Functions}.

(** The ad [ x = self["x"] ]. *)
Definition self_subscript : ExprTree := op2 SUBSCRIPT_OP (ref "self") (lit (StringValue (s2b "x"))).
Definition selfish : Ad := plain_ad [("x", self_subscript)]%string.
Definition selfish_heap : Heap := {[10 := selfish]}.

Lemma self_evaluates old fuel s : heap s = selfish_heap -> curAd s = Some 10 -> 0 < depth_remaining s ->
  Evaluate old fuel (ref "self") s = None \/ Evaluate old fuel (ref "self") s = Some (Done (s, (true, ClassAdValue 10))).
Proof.
  intros Hh Hc Hd. destruct fuel as [|[|fuel]]; [by left|left|right].
  - cbn [Evaluate]. unfold ref, evaluate_reference, FindExpr, find_from, LookupInScope, bind, get. by rewrite Hc.
  - unfold ref. rewrite (eval_ad_name old fuel (s2b "self") false 10 10 s s); [by destruct s; simplify_eq/=|done| |done].
    unfold LookupInScope. cbn [lookup_in_scope Lookup]. unfold bind, modify, deref, bind, get, ret. destruct s; simplify_eq/=. by vm_compute.
Qed.
Lemma has_x s : heap s = selfish_heap -> exists ad, heap s !! 10 = Some ad /\ ad_attrs ad !! lower (s2b "x") = Some self_subscript /\ ad_parentScope ad = None.
Proof. intros ->. by exists selfish. Qed.
Lemma attr_diverges fuel (Eval : ExprTree -> M (bool * Value)) s :
  heap s = selfish_heap -> Eval self_subscript (mkEvalState selfish_heap (Some 10) (Some 10) MAX_CLASSAD_RECURSION) = None ->
  EvaluateAttr (S fuel) Eval 10 (s2b "x") s = None.
Proof.
  intros Hh HE. destruct (has_x s Hh) as (ad & Ha & Hx & Hp). unfold EvaluateAttr. rewrite (new_state_at fuel 10 ad _ s Ha Hp).
  unfold LookupInScope, bind at 1 2. rewrite (scope_here fuel 10 10 ad (s2b "x") self_subscript); [|exact Ha|exact Hx].
  unfold set_field, set_curAd. cbn [heap rootAd curAd depth_remaining]. by rewrite Hh, HE.
Qed.
Lemma subscript_diverges old fuel s : heap s = selfish_heap -> curAd s = Some 10 -> 0 < depth_remaining s -> Evaluate old fuel self_subscript s = None.
Proof.
  revert s. induction fuel as [|fuel IH]; [done|]. intros s Hh Hc Hd. unfold self_subscript, op2. cbn [Evaluate].
  unfold evaluate_operation, evaluate_child, bind at 1. destruct (self_evaluates old fuel s Hh Hc Hd) as [->| ->]; [done|].
  destruct fuel as [|fuel]; [done|].
  change (bind (subscript (S fuel) (Evaluate old (S fuel)) (ClassAdValue 10) (StringValue (s2b "x"))) (fun v => ret (true, v)) s = None).
  destruct (has_x s Hh) as (ad & Ha & Hx & _). unfold subscript, bind at 1 2. rewrite (Lookup_here fuel 10 ad (s2b "x") self_subscript s Ha Hx).
  unfold bind at 1. rewrite (attr_diverges fuel (Evaluate old (S fuel)) s Hh); [done|]. by apply IH.
Qed.

(** The limit on nested references does not stop an attribute that subscripts its own ad:
    each self["x"] begins a new count, and no amount of stack is enough for the ad [ x = self["x"] ]. *)
Theorem self_subscript_diverges old fuel root cur d : EvaluateExpr old fuel 10 (ref "x") (mkEvalState selfish_heap root cur d) = None.
Proof.
  set (s := mkEvalState selfish_heap root cur d). assert (Hh : heap s = selfish_heap) by done. destruct fuel as [|fuel]; [done|]. destruct (has_x s Hh) as (ad & Ha & Hx & Hp).
  unfold EvaluateExpr. rewrite (new_state_at fuel 10 ad _ s Ha Hp). set (s1 := mkEvalState (heap s) (Some 10) (Some 10) MAX_CLASSAD_RECURSION).
  destruct fuel as [|fuel]; [done|]. unfold bind at 1, ref.
  rewrite (reference_found old (S fuel) None (s2b "x") false self_subscript s1 s1); [|eapply find_name; [reflexivity|]|done].
  - unfold bind at 1. by rewrite subscript_diverges.
  - unfold LookupInScope. rewrite (scope_here fuel 10 10 ad (s2b "x") self_subscript s1); [done|exact Ha|exact Hx].
Qed.
End self.

(** No functions are defined. *)
#[local] Instance no_functions : Functions := fun _ => None.

(** ** Operators *)

Lemma shifts_spec_witness :
  doBitwise RIGHT_SHIFT_OP (IntegerValue (-16)) (IntegerValue 2) = Done (IntegerValue (-4), SIG_BOTH) /\
  doBitwise URIGHT_SHIFT_OP (IntegerValue (-16)) (IntegerValue 2) = Done (IntegerValue 1073741820, SIG_BOTH) /\
  doBitwise LEFT_SHIFT_OP (IntegerValue (-16)) (IntegerValue 2) = Done (IntegerValue (-64), SIG_BOTH).
Proof.
  destruct (shifts_spec (-16) 2) as (H1 & H2 & H3); [unfold int_range; lia|lia|].
  split; [apply H1; lia|]. split; [apply H2; lia|apply H3; lia].
Defined.

(** ** Attributes that refer to each other in a circle *)

Definition circle : Ad := plain_ad [("a", op2 ADDITION_OP (ref "b") (lit (IntegerValue 1))); ("b", ref "a")]%string.
Definition circle_heap : Heap := {[10 := circle]}.
Lemma circle_scoped : scoped circle_heap (fun _ => O) 0.
Proof. intros a ad Ha. unfold circle_heap in Ha; apply lookup_singleton_Some in Ha as [<- <-]. done. Qed.
Lemma circle_plain : plain_heap circle_heap 1.
Proof.
  intros a ad n t Ha. unfold circle_heap in Ha; apply lookup_singleton_Some in Ha as [<- <-].
  assert (Hall : map_Forall (fun _ t => plain t = true /\ (height t <= 1)%nat) (ad_attrs circle)).
  { apply map_Forall_to_list. vm_compute map_to_list. repeat constructor. }
  intros Ht. destruct (Hall n t Ht) as [Hp Hh]. split; [by rewrite Hp|done].
Qed.
Lemma evaluation_terminates_witness : is_Some (EvaluateExpr true 2003 10 (ref "a") (idle circle_heap)).
Proof.
  apply (evaluation_terminates true circle_heap (fun _ => O) 0 1 10 circle); [exact circle_scoped|exact circle_plain|reflexivity|reflexivity|exact I|simpl; lia|].
  unfold enough, MAX_CLASSAD_RECURSION. lia.
Defined.


(** ** A match *)

(** A job that asks for memory, and a machine whose Requirements are a number. *)
Definition job : Ad := plain_ad [("requirements", op2 GREATER_THAN_OP (dot (ref "target") "memory") (lit (IntegerValue 512)))]%string.
Definition machine (requirements : Value) : Ad := plain_ad [("Memory", lit (IntegerValue 1024)); ("requirements", lit requirements)]%string.
Definition match_of (requirements : Value) : Heap := InitMatchClassAd {[10 := job; 11 := machine requirements]} 1 2 3 10 11.
Definition in_job (requirements : Value) : EvalState := mkEvalState (match_of requirements) (Some 1) (Some 10) 999.

Lemma target_crosses_witness :
  Evaluate true 10 (dot (ref "target") "memory") (in_job (IntegerValue 1)) = evaluate_inside true 9 11 (lit (IntegerValue 1024)) (in_job (IntegerValue 1)).
Proof.
  apply (target_crosses true {[10 := job; 11 := machine (IntegerValue 1)]} 1 2 3 10 11 job (machine (IntegerValue 1)) 10 11 job (machine (IntegerValue 1)) "target" "memory" _ 6);
    try reflexivity; try (by apply (bool_decide_unpack _)); by left || lia.
Defined.
Lemma symmetric_match_both_witness :
  symmetricMatch true 20 1 (idle (match_of (IntegerValue 1))) = Some (Done (idle (match_of (IntegerValue 1)), true)) /\
  leftMatchesRight true 19 1 (idle (match_of (IntegerValue 1))) = Some (Done (idle (match_of (IntegerValue 1)), true)) /\
  rightMatchesLeft true 19 1 (idle (match_of (IntegerValue 1))) = Some (Done (idle (match_of (IntegerValue 1)), true)).
Proof.
  eapply (symmetric_match_both true {[10 := job; 11 := machine (IntegerValue 1)]} 1 2 3 10 11 job (machine (IntegerValue 1)) _ _ 16 (idle (match_of (IntegerValue 1)))
    (mkEvalState (match_of (IntegerValue 1)) (Some 1) (Some 11) 999) (in_job (IntegerValue 1)) (true, IntegerValue 1) (true, BooleanValue true)).
  - by apply (bool_decide_unpack _).
  - reflexivity.
  - reflexivity.
  - reflexivity.
  - reflexivity.
  - reflexivity.
  - vm_compute; reflexivity.
  - vm_compute; reflexivity.
  - by split_and!.
  - by split_and!.
Defined.

Definition answer (r : option (outcome (EvalState * bool))) : option bool := match r with Some (Done (_, b)) => Some b | _ => None end.
(** The three questions asked of a match ad do not agree on Requirements that are numbers.  In
    the old semantics a real that is not zero counts as true in symmetricMatch(), but not in
    leftMatchesRight(); in the new semantics it is the other way round for an integer. *)
Theorem number_requirements_disagree :
  let two := RealValue (double_of_Z 2) in
  (answer (symmetricMatch true 20 1 (idle (match_of two))) = Some true /\ answer (leftMatchesRight true 20 1 (idle (match_of two))) = Some false) /\
  (answer (symmetricMatch false 20 1 (idle (match_of (IntegerValue 1)))) = Some false /\
   answer (leftMatchesRight false 20 1 (idle (match_of (IntegerValue 1)))) = Some true /\
   answer (rightMatchesLeft false 20 1 (idle (match_of (IntegerValue 1)))) = Some true).
Proof. vm_compute. done. Qed.

(** ** Functions *)

Definition str (x : string) : ExprTree := lit (StringValue (s2b x)).
Definition int_lit (i : Z) : ExprTree := lit (IntegerValue i).
Lemma list_functions_spec_witness :
  let E := Evaluate true 3 in let s := idle ∅ in let l := [int_lit 3; int_lit 1; int_lit 2] in
  testMember true E (s2b "member") [int_lit 2; ExprList None l] s = Some (Done (s, (true, BooleanValue true))) /\
  minMax true E (s2b "max") [ExprList None l] s = Some (Done (s, (true, IntegerValue 3))).
Proof.
  assert (Hl : Forall2 (evals (Evaluate true 3) (idle ∅)) [int_lit 3; int_lit 1; int_lit 2] (IntegerValue <$> [3; 1; 2])) by (repeat constructor).
  pose proof (list_functions_spec true (Evaluate true 3) (idle ∅) (int_lit 2) (ExprList None [int_lit 3; int_lit 1; int_lit 2]) (int_lit 2) None
    [int_lit 3; int_lit 1; int_lit 2] (IntegerValue <$> [3; 1; 2]) (IntegerValue 2) eq_refl Hl) as (Hm & _ & Hn).
  split; [exact (Hm eq_refl eq_refl eq_refl)|].
  apply (Hn 3 [1; 2] eq_refl). unfold int_range. repeat (apply Forall_cons; split; [lia|]). by apply Forall_nil.
Defined.
Lemma bool_of_string_inverted_witness :
  convBool (Evaluate true 3) [str "true"] (idle ∅) = Some (Done (idle ∅, (true, BooleanValue false))).
Proof. exact (bool_of_string_inverted (Evaluate true 3) (idle ∅) (str "true") (s2b "true") eq_refl). Defined.
