(* ===== verification/PolicyExamples.v ===== *)
(** Job policies on concrete ads: the theorems applied, and two jobs with which the code does not do what
    their policy asks for. *)

From S2P Require Import Prelude ClassAdOps ClassAdEval ClassAdFunctions UserPolicy.

Open Scope Z_scope.

#[local] Instance no_functions : Functions := fun _ => None.
#[local] Instance no_macros : Site := {| time := 1000; param := fun _ => None; ParseExpression := fun _ => None; ExprTreeToString := fun _ => [] |}.

Definition lit (v : Value) : ExprTree := Literal v NO_FACTOR.
Definition job_ad (status : Z) (hold release remove exit_hold exit_remove : Value) : Ad :=
  mkAd (attrs_of [("JobStatus", lit (IntegerValue status)); ("PeriodicHold", lit hold); ("PeriodicRelease", lit release); ("PeriodicRemove", lit remove);
    ("OnExitHold", lit exit_hold); ("OnExitRemove", lit exit_remove); ("ExitBySignal", lit (BooleanValue false)); ("ExitCode", lit (IntegerValue 0))]%string) None None None.
Definition queue (ad : Ad) : EvalState := mkEvalState {[1 := ad]} None None 0.
Definition the_policy : UserPolicy := mkUserPolicy (Some 1) (-1) FS_NotYet None.
Definition T : Value := BooleanValue true.
Definition N : Value := BooleanValue false.

(** A job that exits and is to be removed then. *)
Definition exited : Ad := job_ad 2 N N N N T.
Lemma policy_precedence_witness :
  exists p', AnalyzePolicy false 5 the_policy PERIODIC_THEN_EXIT (queue exited) = Some (Done (queue exited, (p', REMOVE_FROM_QUEUE))) /\
    m_fire_expr p' = Some ATTR_ON_EXIT_REMOVE_CHECK.
Proof.
  apply (policy_precedence false 3 1 exited (queue exited) the_policy PERIODIC_THEN_EXIT 2 (mkPolicy false false false false true)).
  - repeat split.
  - repeat split.
  - reflexivity.
  - reflexivity.
  - intros _. by split; eexists.
Defined.
Lemma policy_explained_witness : explains false 5 1 (queue exited) 2 PERIODIC_THEN_EXIT (mkUserPolicy (Some 1) 1 FS_JobAttribute (Some ATTR_ON_EXIT_REMOVE_CHECK)) REMOVE_FROM_QUEUE.
Proof.
  apply (policy_explained false 5 the_policy 1 PERIODIC_THEN_EXIT (queue exited) (queue exited) 2 (queue exited)); vm_compute; reflexivity.
Defined.

(** A held job whose PeriodicRelease is true. *)
Definition releasable : Ad := job_ad 5 N T N N T.
Definition action_of (r : option (outcome (EvalState * gmap bytes ExprTree))) : option (option ExprTree * option ExprTree) :=
  match r with Some (Done (_, m)) => Some (m !! lower ATTR_TAKE_ACTION, m !! lower ATTR_USER_POLICY_ACTION) | _ => None end.
Definition decision_of (r : option (outcome (EvalState * (UserPolicy * policy_action)))) : option policy_action :=
  match r with Some (Done (_, (_, x))) => Some x | _ => None end.

(** A held job that its policy releases is reported by user_job_policy() as one to be removed. *)
Theorem released_job_is_removed :
  decision_of (AnalyzePolicy false 5 the_policy PERIODIC_ONLY (queue releasable)) = Some RELEASE_FROM_HOLD /\
  action_of (user_job_policy false 5 (Some 1) (queue releasable)) = Some (Some (lit T), Some (lit (IntegerValue REMOVE_JOB))).
Proof. split; vm_compute; reflexivity. Qed.

(** A policy expression with a real value counts as true when it is zero and as false when it
    is not: PeriodicRemove = 0.0 removes the job and PeriodicRemove = 1.0 does not, while the integers 0
    and 1 do what they should. *)
Theorem real_policy_inverted :
  let removes v := decision_of (AnalyzePolicy false 5 the_policy PERIODIC_ONLY (queue (job_ad 2 N N v N T))) in
  removes (RealValue (double_of_Z 0)) = Some REMOVE_FROM_QUEUE /\ removes (RealValue (double_of_Z 1)) = Some STAYS_IN_QUEUE /\
  removes (IntegerValue 0) = Some STAYS_IN_QUEUE /\ removes (IntegerValue 1) = Some REMOVE_FROM_QUEUE.
Proof. vm_compute. done. Qed.
