(* ===== verification/HadExamples.v ===== *)
(** A pool of three high availability daemons: the hypotheses of the theorems of Had and HadElection hold
    of it, and the election can be watched. *)

From S2P Require Import Prelude Sinful CondorList StringList Had HadElection.

Open Scope Z_scope.

Definition always (_ : list Event) (_ : Peer) : bool := true.
Definition numeric (_ : bytes) : bool := true.
Definition no_names (_ : bytes) : list bytes := [].
Definition cm_list : bytes := s2b "10.0.0.1:51450, 10.0.0.2:51450, 10.0.0.3:51450".
Definition cm_config : Config := mkConfig None None (Some cm_list) None None None None None.
Definition cm_host (addr : string) : Host := mkHost (Some (s2b addr)) (Some (s2b "condor")) (s2b "cm.cs.wisc.edu").
Definition start (addr : string) : result unit := main_init always numeric no_names (cm_host addr) cm_config (mkWorld [] ∅ 0).
Definition started (addr : string) : Daemon :=
  match start addr with Ok _ st w => mkDaemon (s2b addr) st w | _ => mkDaemon [] new_HADStateMachine (mkWorld [] ∅ 0) end.

Definition cm_addrs : list string := ["<10.0.0.1:51450>"; "<10.0.0.2:51450>"; "<10.0.0.3:51450>"].
Definition cm_pool : list Daemon := started <$> cm_addrs.
Definition cm_ident (i : nat) : Z := 2 - Z.of_nat i.

(** What main_init() makes of a daemon of the pool. *)
Definition check_started (i : nat) (addr : string) (others : list bytes) : bool :=
  match start addr with
  | Ok _ st w =>
      m_masterDaemon st && negb (m_standAloneMode st) && negb (m_useReplication st) && (m_callsCounter st =? 0) &&
      (m_selfId st =? cm_ident i) && negb (m_isPrimary st) && bool_decide (strings (m_otherHadIps st) = others) &&
      bool_decide (m_controlleeName st = s2b "NEGOTIATOR") && bool_decide (m_state st = PRE_STATE) &&
      match m_classAd st with
      | Some ad => (ATTR_HAD_SELF_ID ad =? m_selfId st) && bool_decide (ATTR_HAD_CONTROLLEE_NAME ad = s2b "NEGOTIATOR") && fits (ATTR_HAD_LIST ad)
      | None => false
      end
  | _ => false
  end.
Lemma started_ok i addr others :
  check_started i addr others -> (s2b <$> cm_addrs) !! i = Some (s2b addr) -> NoDup others ->
  (forall j a, (s2b <$> cm_addrs) !! j = Some a -> a ∈ others <-> j <> i) ->
  daemon_ok false (s2b <$> cm_addrs) cm_ident (lower (s2b "NEGOTIATOR")) i (started addr) /\ m_state (d_st (started addr)) = PRE_STATE.
Proof.
  unfold check_started, started, daemon_ok. destruct (start addr) as [[] st w| |]; try done. cbn [d_st d_addr]. rewrite !andb_True, !bool_decide_spec.
  intros (((((((((Hm & Hsa) & Hr) & Hc) & Hid) & Hp) & Ho) & Hn) & Hs) & Had) Ha Hnd Hel. rewrite Ho, Hn. split; [|done].
  apply Is_true_eq_true, Z.eqb_eq in Hc, Hid. destruct (m_isPrimary st); [done|].
  split; [|split; [by left|split_and!; try done]].
  - split_and!; [by apply Is_true_eq_true|by destruct (m_standAloneMode st)|by destruct (m_useReplication st)].
  - destruct (m_classAd st) as [ad|]; [|done]. rewrite !andb_True, bool_decide_spec in Had. destruct Had as [[Hi Hcn] Hf].
    apply Is_true_eq_true, Z.eqb_eq in Hi. exists (ATTR_HAD_LIST ad). cbn [message_of]. rewrite Hi, Hcn. split; [done|]. split; [by vm_compute|done].
Qed.

(** The addresses that a daemon sends to. *)
Lemma cm_others i j k x y :
  (i < 3)%nat -> (s2b <$> cm_addrs) !! j = Some x -> (s2b <$> cm_addrs) !! k = Some y -> i <> j -> i <> k -> j <> k ->
  NoDup [x; y] /\ forall m a, (s2b <$> cm_addrs) !! m = Some a -> a ∈ [x; y] <-> m <> i.
Proof.
  intros Hi Hj Hk Hij Hik Hjk.
  assert (H3 : forall m a, (s2b <$> cm_addrs) !! m = Some a -> (m < 3)%nat) by (intros m a Hm; by apply lookup_lt_Some in Hm).
  assert (Hinj : forall m m' a, (s2b <$> cm_addrs) !! m = Some a -> (s2b <$> cm_addrs) !! m' = Some a -> m = m').
  { intros m m' a. apply NoDup_lookup. repeat constructor; vm_compute; set_solver. }
  split. { apply NoDup_cons. split; [|apply NoDup_singleton]. intros ->%list_elem_of_singleton. eauto. }
  intros m a Hm. rewrite elem_of_cons, list_elem_of_singleton. split.
  - intros [-> | ->] ->; eauto.
  - intros Hne. pose proof (H3 _ _ Hm). pose proof (H3 _ _ Hj). pose proof (H3 _ _ Hk).
    assert (m = j \/ m = k) as [-> | ->] by lia; [left|right]; congruence.
Qed.

Lemma cm_pool_started i d :
  cm_pool !! i = Some d ->
  daemon_ok false (s2b <$> cm_addrs) cm_ident (lower (s2b "NEGOTIATOR")) i d /\ m_state (d_st d) = PRE_STATE.
Proof.
  assert (A : (s2b <$> cm_addrs) !! 0%nat = Some (s2b "<10.0.0.1:51450>")) by done.
  assert (B : (s2b <$> cm_addrs) !! 1%nat = Some (s2b "<10.0.0.2:51450>")) by done.
  assert (C : (s2b <$> cm_addrs) !! 2%nat = Some (s2b "<10.0.0.3:51450>")) by done.
  intros Hd. unfold cm_pool in Hd. rewrite list_lookup_fmap in Hd. destruct (cm_addrs !! i) as [addr|] eqn:E; [|done].
  cbn [fmap option_fmap option_map] in Hd. injection Hd as <-. destruct i as [|[|[|i]]]; cbn in E; simplify_eq.
  - destruct (cm_others 0 1 2 _ _ ltac:(lia) B C) as [? ?]; [lia..|]. 
    refine (started_ok 0 "<10.0.0.1:51450>" [s2b "<10.0.0.2:51450>"; s2b "<10.0.0.3:51450>"] _ A _ _); [by vm_compute|done|done].
  - destruct (cm_others 1 0 2 _ _ ltac:(lia) A C) as [? ?]; [lia..|]. 
    refine (started_ok 1 "<10.0.0.2:51450>" [s2b "<10.0.0.1:51450>"; s2b "<10.0.0.3:51450>"] _ B _ _); [by vm_compute|done|done].
  - destruct (cm_others 2 0 1 _ _ ltac:(lia) A B) as [? ?]; [lia..|]. 
    refine (started_ok 2 "<10.0.0.3:51450>" [s2b "<10.0.0.1:51450>"; s2b "<10.0.0.2:51450>"] _ C _ _); [by vm_compute|done|done].
Qed.
Lemma cm_pool_configured : configured false (s2b <$> cm_addrs) cm_ident (lower (s2b "NEGOTIATOR")) cm_pool.
Proof. split; [done|]. intros i d Hd. by apply cm_pool_started. Qed.
Lemma cm_pool_settled : pool_settled cm_ident cm_pool.
Proof. intros j d x Hd Hl. destruct (cm_pool_started j d Hd) as [_ Hs]. congruence. Qed.

(** Rounds in two different orders. *)
Definition cm_rounds : list (list nat) := [[0; 1; 2]; [2; 0; 1]; [2; 0; 1]; [0; 1; 2]; [1; 2; 0]; [0; 1; 2]; [2; 0; 1]; [0; 1; 2]; [0; 1; 2]; [1; 2; 0]]%nat.
Lemma cm_rounds_ok : Forall (round_order 3) cm_rounds.
Proof. repeat (apply Forall_cons; split; [unfold round_order; cbn; solve_Permutation|]). constructor. Qed.

Lemma one_leader_elected_witness :
  exists i, forall more, Forall (round_order 3) more ->
    exists pool', daemon_rounds always (cm_rounds ++ more) cm_pool = Some pool' /\ forall j, leader pool' j <-> j = i.
Proof.
  destruct (one_leader_elected always false (s2b <$> cm_addrs) cm_ident (lower (s2b "NEGOTIATOR")) cm_rounds cm_pool) as (i & _ & H);
    [done|done|unfold cm_ident; cbn; lia|cbn; lia|exact cm_pool_configured|exact cm_pool_settled|exact cm_rounds_ok|cbn; lia|].
  exists i. intros more Hm. destruct (H more Hm) as (pool' & E & _ & Hl). exists pool'. split; [exact E|exact Hl].
Defined.

(** The first of the list wins; a partition would make two leaders, one on each side. *)
Lemma first_daemon_wins :
  (List.map (fun d => m_state (d_st d)) <$> daemon_rounds always cm_rounds cm_pool) = Some [LEADER_STATE; PASSIVE_STATE; PASSIVE_STATE].
Proof. vm_compute. reflexivity. Qed.
Definition parted (_ : list Event) (p : Peer) : bool := match p with TheHad _ => false | _ => true end.
Lemma partition_splits_the_pool :
  (List.map (fun d => m_state (d_st d)) <$> daemon_rounds parted cm_rounds cm_pool) = Some [LEADER_STATE; LEADER_STATE; LEADER_STATE].
Proof. vm_compute. reflexivity. Qed.

(** ** The other theorems at a daemon of the pool *)

Definition peers_config : Config := mkConfig None None (Some (s2b "10.0.0.1:51450, 10.0.0.7:51450, 10.0.0.8:51450")) None None None None None.
Definition one : Daemon := started "<10.0.0.1:51450>".

Lemma cm_host_ok : host_ok (cm_host "<10.0.0.1:51450>").
Proof. split; [by eexists|by vm_compute]. Qed.

Lemma had_invariant_witness :
  match bind (reinitialize always numeric no_names (cm_host "<10.0.0.1:51450>") cm_config)
    (fun _ => handle_all always numeric no_names (cm_host "<10.0.0.1:51450>") [OnCycle; OnUpdate; OnConfig peers_config; OnCycle]) new_HADStateMachine (mkWorld [] ∅ 0) with
  | Ok _ st w => had_inv st w
  | Exited w => switched_off w
  | Excepted _ => Exists oversized [OnCycle; OnUpdate; OnConfig peers_config; OnCycle]
  end.
Proof. exact (had_invariant always numeric no_names (cm_host "<10.0.0.1:51450>") cm_config [OnCycle; OnUpdate; OnConfig peers_config; OnCycle] (mkWorld [] ∅ 0) cm_host_ok eq_refl ltac:(done)). Defined.

Lemma step_refines_witness :
  match step always (d_st one) (d_w one) with
  | Ok _ st' w' =>
      node_of st' = node_step (m_selfId (d_st one)) (m_isPrimary (d_st one)) (node_of (d_st one)) /\ settings st' = settings (d_st one) /\
      exists es, events w' = es ++ events (d_w one) /\ change_cmds (m_state (d_st one)) (m_state st') (master_cmds es)
  | Exited w' => switched_off w'
  | Excepted _ => False
  end.
Proof. apply step_refines. split_and!; by vm_compute. Defined.

Lemma had_identity_witness :
  exists r, getHadList always numeric no_names (cm_host "<10.0.0.2:51450>") cm_list true (new_StringList None default_delim) (new_StringList None default_delim) (-1)
      (d_st one) (d_w one) = Ok r (d_st one) (d_w one) /\
    hl_selfId r = 1 /\ hl_primary r = false /\ strings (hl_other r) = [s2b "<10.0.0.1:51450>"; s2b "<10.0.0.3:51450>"].
Proof.
  destruct (had_identity always numeric no_names (cm_host "<10.0.0.2:51450>") cm_list [s2b "10.0.0.1:51450"] (s2b "10.0.0.2:51450") [s2b "10.0.0.3:51450"]
    [s2b "<10.0.0.1:51450>"] (s2b "<10.0.0.2:51450>") [s2b "<10.0.0.3:51450>"] true (new_StringList None default_delim) (new_StringList None default_delim) (-1) (d_st one) (d_w one))
    as (r & E & Hi & Hp & Ho & _); [by split; [eexists|vm_compute]|by vm_compute|by vm_compute|by vm_compute|by vm_compute|by vm_compute|by vm_compute|by vm_compute|by vm_compute|by vm_compute|].
  exists r. split_and!; [exact E|exact Hi|exact Hp|exact Ho].
Defined.

Lemma changed_peers_ignored_witness :
  ends_well (main_config always numeric no_names (cm_host "<10.0.0.1:51450>") peers_config (d_st one) (d_w one)) (d_w one) (fun _ st' _ =>
    strings (m_otherHadIps st') = [s2b "<10.0.0.2:51450>"; s2b "<10.0.0.3:51450>"]).
Proof.
  destruct (had_identity always numeric no_names (cm_host "<10.0.0.1:51450>") (s2b "10.0.0.1:51450, 10.0.0.7:51450, 10.0.0.8:51450") [] (s2b "10.0.0.1:51450") [s2b "10.0.0.7:51450"; s2b "10.0.0.8:51450"]
    [] (s2b "<10.0.0.1:51450>") [s2b "<10.0.0.7:51450>"; s2b "<10.0.0.8:51450>"] false (new_StringList None default_delim) (new_StringList None default_delim) (-1) (d_st one) (d_w one))
    as (r & E & Hi & _); [exact cm_host_ok|by vm_compute|by vm_compute|by vm_compute|by vm_compute|by vm_compute|by vm_compute|by vm_compute|by vm_compute|by vm_compute|].
  pose proof (changed_peers_ignored always numeric no_names (cm_host "<10.0.0.1:51450>") peers_config (s2b "10.0.0.1:51450, 10.0.0.7:51450, 10.0.0.8:51450") r (d_st one) (d_w one)) as H.
  specialize (H ltac:(by vm_compute) ltac:(by vm_compute) ltac:(by vm_compute) eq_refl).
  assert (Hp : m_usePrimary (d_st one) = false) by (by vm_compute). rewrite Hp in H. specialize (H E).
  assert (Hs : hl_selfId r = m_selfId (d_st one)) by (rewrite Hi; by vm_compute). specialize (H Hs).
  destruct (main_config always numeric no_names (cm_host "<10.0.0.1:51450>") peers_config (d_st one) (d_w one)) as [[] st' w'| |]; [|exact H|exact H].
  cbn [ends_well] in *. destruct H as [H _]. rewrite H. vm_compute. reflexivity.
Defined.

(** ** Observations *)

(** A leader that steps down while its master is not reached goes on as passive: nobody has switched
    its controlled daemon off. *)
Definition deposed : HADStateMachine := (d_st one) <| m_state := LEADER_STATE |> <| receivedAliveList := [7] |>.
Lemma lost_off_leaves_controllee_running :
  match step (fun _ p => match p with TheMaster => false | _ => true end) deposed (mkWorld [ToMaster CHILD_ON (s2b "NEGOTIATOR") true] ∅ 0) with
  | Ok _ st w => m_state st = PASSIVE_STATE /\ master_cmds (events w) = [(CHILD_OFF_FAST, false); (CHILD_ON, true)]
  | _ => False
  end.
Proof. vm_compute. done. Qed.

(** A hard reconfiguration keeps the peers of the old list and adds those of the new one. *)
Lemma hard_reconfiguration_keeps_old_peers :
  match reinitialize always numeric no_names (cm_host "<10.0.0.1:51450>") peers_config (d_st one) (d_w one) with
  | Ok _ st _ => strings (m_otherHadIps st) = [s2b "<10.0.0.2:51450>"; s2b "<10.0.0.7:51450>"; s2b "<10.0.0.8:51450>"; s2b "<10.0.0.3:51450>"]
  | _ => False
  end.
Proof. vm_compute. done. Qed.

(** An address without a port is taken, as port -1. *)
Lemma address_without_port : utilToSinful numeric no_names (s2b "10.0.0.1") = Some (s2b "<10.0.0.1:-1>").
Proof. vm_compute. reflexivity. Qed.
