(* ===== verification/ReplicationExamples.v ===== *)
(** A replication daemon at work: a run that joins a pool and fetches the version of its leader, the
    witnesses of the theorems of Replication, and runs that show where the daemon goes wrong. *)

From S2P Require Import Prelude Sinful CondorList StringList Had HadElection HadExamples Replication ReplicationInv ReplicationVersions.

Open Scope Z_scope.

(** ** A system on which everything succeeds *)

(** The clock advances [step] seconds whenever it is read. *)
Definition ticks (es : list Done) : Z :=
  Z.of_nat (length (List.filter (fun d => match d with Clock _ => true | _ => false end) es)).
Definition processes (es : list Done) : Z :=
  Z.of_nat (length (List.filter (fun d => match d with Created _ _ => true | _ => false end) es)).
Definition system_of (step : Z) : System :=
  mkSystem (fun _ _ => true) (fun es => step * (1 + ticks es)) (fun es => 100 + processes es) (fun _ => true) (fun _ => 1000%nat) (fun _ => []).
Definition calm_system : System := system_of 50.
Definition rep_list : bytes := s2b "10.0.0.1:9620, 10.0.0.2:9620".
Definition rep_config : RepConfig :=
  mkRepConfig (Some rep_list) None (Some (s2b "/usr/sbin/condor_transferer")) (Some (s2b "/spool")) None None None None None (Some cm_list) None.
Definition rep_host : RepHost := mkRepHost (s2b "<10.0.0.1:9620>") 9620 (s2b "cm.cs.wisc.edu").
Definition peer : bytes := s2b "<10.0.0.2:9620>".
Definition version_file : bytes := s2b "/spool/Version".
Definition state_file : bytes := s2b "/spool/Accountantnew.log".
Definition fresh_world : RepWorld := mkRepWorld [] ∅ ∅ 0.

(** What the other daemon sends: its address, then its version and state. *)
Definition version_message (clock : Z) (s : ReplicatorState) : list Field :=
  WStr peer :: code (mkVersion [] [] 0 clock peer 0 0) ++ [WInt (state_number s)].
(** The files that a transferer leaves. *)
Definition fetched (pid clock : Z) (with_state : bool) (fs : gmap bytes File) : gmap bytes File :=
  let ext := extension pid DOWNLOADING_TEMPORARY_FILES_EXTENSION in
  let fs := <[temporaryFilePath version_file ext := mkFile (version_text (mkVersion [] [] 0 clock [] 0 0)) 7000]> fs in
  if with_state then <[temporaryFilePath state_file ext := mkFile (s2b "usage") 7000]> fs else fs.

Definition run_on (sys : System) (cs : list Call) : outcome unit :=
  rbind (rep_reinitialize sys numeric no_names rep_host rep_config) (fun _ => calls sys numeric no_names rep_host cs)
    new_ReplicatorStateMachine fresh_world.
Definition run : list Call -> outcome unit := run_on calm_system.
(** What is seen of an outcome: the state, the version, the transferer that downloads. *)
Definition seen (r : outcome unit) : option (ReplicatorState * Z * Z * Z) :=
  match r with
  | Returns _ st _ => Some (m_state st, m_gid (m_myVersion st), m_logicalClock (m_myVersion st), m_pid (m_downloadTransfererMetadata st))
  | _ => None
  end.
Definition ended (r : outcome unit) : bool := match r with Ends _ => true | _ => false end.

Definition joining_calls : list Call := [Receives REPLICATION_SOLICIT_VERSION_REPLY (version_message 5 REPLICATION_LEADER); Fires 2].
Definition backup_calls : list Call :=
  joining_calls ++ [FilesChange (fetched 100 5 true); DownloadEnds 100 (ExitCode 0)].
(** The daemon joins, fetches the version of the leader, and is a backup. *)
Lemma joins_the_pool :
  seen (run []) = Some (VERSION_REQUESTING, 0, 0, -1) /\ seen (run joining_calls) = Some (VERSION_DOWNLOADING, 0, 0, 100) /\
  seen (run backup_calls) = Some (BACKUP, 0, 5, -1).
Proof. split_and!; vm_compute; reflexivity. Qed.
(** It leads when its HAD does, and counts the clock up when the state file has changed. *)
Definition leader_calls : list Call := backup_calls ++ [Receives (FromHad HAD_AFTER_ELECTION_STATE) [WStr []]].
Lemma leads_and_counts :
  seen (run (leader_calls ++ [FilesChange (<[state_file := mkFile (s2b "more") 9000]>); Fires 1])) = Some (REPLICATION_LEADER, 0, 6, -1).
Proof. vm_compute. reflexivity. Qed.

(** ** Witnesses *)

Lemma replication_invariant_witness :
  sys_ok calm_system /\ rep_timers fresh_world = ∅ /\ 0 <= next_id fresh_world /\ Forall (fun c => ~ joins_again c) leader_calls /\
  match run leader_calls with
  | Returns _ st w' => rep_inv st w'
  | Ends w' => rep_timers w' = ∅
  | Crashes y _ => y = NullVersion /\ Exists undecodable leader_calls
  end.
Proof.
  assert (Hs : sys_ok calm_system) by (split; intros es; cbn; unfold processes, ticks; lia).
  assert (Hc : Forall (fun c => ~ joins_again c) leader_calls) by (repeat constructor; intros []).
  split_and!; [exact Hs|reflexivity|done|exact Hc|].
  exact (replication_invariant calm_system numeric no_names rep_host Hs rep_config leader_calls fresh_world eq_refl ltac:(cbn; lia) Hc).
Defined.
Lemma version_file_roundtrip_witness :
  version_ok (mkVersion [] [] 3 17 [] 0 0) /\
  let '(loaded, gid, clock) := load_text (take 4 (version_text (mkVersion [] [] 3 17 [] 0 0))) (-1) in
  (loaded = true <-> (length (print_d 3) < 4)%nat) /\ (loaded = true -> gid = 3 /\ 0 <= clock <= 17) /\
  ((length (version_text (mkVersion [] [] 3 17 [] 0 0)) <= 4)%nat -> clock = 17).
Proof.
  assert (Hv : version_ok (mkVersion [] [] 3 17 [] 0 0)) by (split; cbn; unfold INT_MAX; lia).
  split; [exact Hv|]. exact (version_file_roundtrip (mkVersion [] [] 3 17 [] 0 0) 4 (-1) Hv).
Defined.

(** A backup with the files that a transferer left. *)
Definition before_end : option (ReplicatorStateMachine * RepWorld) :=
  match run (backup_calls ++ [Receives REPLICATION_LEADER_VERSION (version_message 8 REPLICATION_LEADER); FilesChange (fetched 101 8 true)]) with
  | Returns _ st w => Some (st, w)
  | _ => None
  end.
Lemma download_installs_witness :
  exists st w, before_end = Some (st, w) /\ m_pid (m_downloadTransfererMetadata st) = 101 /\
  exists st' w', downloadReplicaTransfererReaper calm_system 101 (ExitCode 0) st w = Returns true st' w' /\
    m_gid (m_myVersion st') = 0 /\ m_logicalClock (m_myVersion st') = 8 /\ downloadTransferersNumber st' = 0 /\ m_state st' = BACKUP.
Proof.
  destruct before_end as [[st w]|] eqn:E; [|by vm_compute in E]. exists st, w. split; [reflexivity|].
  assert (H : option_map (fun '(st, w) => (m_pid (m_downloadTransfererMetadata st), m_state st, v_versionFilePath (m_myVersion st), v_stateFilePath (m_myVersion st),
      m_versionFilePath st, m_stateFilePath st, files w !! temporaryFilePath version_file (extension 101 DOWNLOADING_TEMPORARY_FILES_EXTENSION),
      files w !! temporaryFilePath state_file (extension 101 DOWNLOADING_TEMPORARY_FILES_EXTENSION))) before_end =
    Some (101, BACKUP, version_file, state_file, version_file, state_file, Some (mkFile (s2b "0" ++ LF :: s2b "8") 7000), Some (mkFile (s2b "usage") 7000)))
    by (vm_compute; reflexivity).
  rewrite E in H. cbn in H. injection H as H1 H2 H3 H4 H5 H6 H7 H8. split; [exact H1|].
  destruct (download_installs calm_system 101 _ _ 0 8 st w (fun _ => eq_refl) (eq_trans H3 (eq_sym H5)) (eq_trans H4 (eq_sym H6))
    ltac:(rewrite H2; done) ltac:(rewrite H5; done) ltac:(rewrite H6; done) ltac:(rewrite H5, H6; done) ltac:(rewrite H5, H6; by vm_compute)
    ltac:(rewrite H5; exact H7) ltac:(rewrite H6; exact H8) eq_refl ltac:(lia) ltac:(lia)) as (st' & w' & E' & _ & _ & Hg & Hc & Hd & Hs).
  exists st', w'. rewrite Hs. split_and!; assumption.
Defined.

(** ** Where the daemon goes wrong *)

(** A backup is told a newer version and starts a transferer. *)
Definition told : list Call := backup_calls ++ [Receives REPLICATION_LEADER_VERSION (version_message 8 REPLICATION_LEADER)].

(** The version file is renamed before the state file: when the second rename fails the version of the
    daemon is not that of its file, and the next timer ends the daemon. *)
Lemma half_rotation_ends_daemon :
  seen (run (told ++ [FilesChange (fetched 101 8 false); DownloadEnds 101 (ExitCode 0)])) = Some (BACKUP, 0, 5, -1) /\
  ended (run (told ++ [FilesChange (fetched 101 8 false); DownloadEnds 101 (ExitCode 0); Fires 1])) = true.
Proof. split; vm_compute; reflexivity. Qed.
(** A version file that was saved halfway ends the daemon as well: the clock 17 was cut to 1. *)
Lemma torn_version_file : load_text (take 3 (version_text (mkVersion [] [] 3 17 [] 0 0))) (-1) = (true, 3, 1).
Proof. reflexivity. Qed.
(** The end of a transferer that was killed is taken for the end of the one that runs: a third one is
    started beside it. *)
Lemma stale_end_forgets_download :
  let killed_and_told := told ++ [Fires 1; Receives REPLICATION_LEADER_VERSION (version_message 8 REPLICATION_LEADER)] in
  seen (run_on (system_of 1000) told) = Some (BACKUP, 0, 5, 101) /\ seen (run_on (system_of 1000) killed_and_told) = Some (BACKUP, 0, 5, 102) /\
  seen (run_on (system_of 1000) (killed_and_told ++ [DownloadEnds 101 (ExitSignaled 9)])) = Some (BACKUP, 0, 5, -1) /\
  seen (run_on (system_of 1000) (killed_and_told ++ [DownloadEnds 101 (ExitSignaled 9); Receives REPLICATION_LEADER_VERSION (version_message 8 REPLICATION_LEADER)])) =
    Some (BACKUP, 0, 5, 103).
Proof. split_and!; vm_compute; reflexivity. Qed.
(** Repeated HAD_BEFORE_PASSIVE_STATE commands leave timers behind, which unseat a leader later. *)
Lemma repeated_join_unseats_leader :
  let again := Receives HAD_BEFORE_PASSIVE_STATE [WStr []] in
  seen (run [again; again; Fires 2; Receives (FromHad HAD_AFTER_ELECTION_STATE) [WStr []]]) = Some (REPLICATION_LEADER, 0, 0, -1) /\
  seen (run [again; again; Fires 2; Receives (FromHad HAD_AFTER_ELECTION_STATE) [WStr []]; Fires 3]) = Some (BACKUP, 0, 0, -1).
Proof. split; vm_compute; reflexivity. Qed.
(** An announcement that is cut short ends the daemon with a null pointer. *)
Lemma short_announcement_crashes :
  match run (backup_calls ++ [Receives REPLICATION_LEADER_VERSION [WStr peer; WInt 0]]) with Crashes NullVersion _ => True | _ => False end.
Proof. vm_compute. exact I. Qed.

(** ** A HAD and its replication daemon *)

Definition replicators : bytes := s2b "10.0.0.1:9620, 10.0.0.2:9620, 10.0.0.3:9620".
Definition replicating (controllee : option bytes) : Config :=
  mkConfig controllee None (Some cm_list) None None (Some true) (Some replicators) None.
(** A number of cycles of a HAD that hears no other one. *)
Fixpoint cycles (n : nat) : M unit := match n with O => ret tt | S n' => bind (cycle parted) (fun _ => cycles n') end.
(** The HAD starts and is elected, is told to control another daemon, and is elected again. *)
Definition reconfigured_had : result unit :=
  let me := cm_host "<10.0.0.1:51450>" in
  bind (reinitialize parted numeric no_names me (replicating None)) (fun _ =>
  bind (cycles 9) (fun _ =>
  bind (main_config parted numeric no_names me (replicating (Some (s2b "COLLECTOR")))) (fun _ => cycles 9)))
    new_HADStateMachine (mkWorld [] ∅ 0).
(** The commands it has sent to its replication daemon, the first one first. *)
Definition replication_commands (r : result unit) : list command :=
  match r with
  | Ok _ _ w => omap (fun e => match e with ToReplication c _ true => Some c | _ => None end) (reverse (events w))
  | _ => []
  end.
Definition deliver (cmds : list command) : list Call := map (fun c => Receives (FromHad c) [WStr []]) cmds.

(** A HAD that leads and is given another daemon to control starts over without telling its
    replication daemon that it does not lead any more.  When it is elected again it sends
    HAD_AFTER_ELECTION_STATE a second time, and the replication daemon, which is still leader, ends
    itself on an assertion. *)
Theorem reconfigured_had_ends_replicator :
  replication_commands reconfigured_had =
    [HAD_AFTER_ELECTION_STATE; HAD_IN_LEADER_STATE; HAD_IN_LEADER_STATE; HAD_AFTER_ELECTION_STATE; HAD_IN_LEADER_STATE; HAD_IN_LEADER_STATE] /\
  seen (run (backup_calls ++ deliver (take 3 (replication_commands reconfigured_had)))) = Some (REPLICATION_LEADER, 0, 5, -1) /\
  ended (run (backup_calls ++ deliver (take 4 (replication_commands reconfigured_had)))) = true.
Proof. split_and!; vm_compute; reflexivity. Qed.
