(* ===== verification/Examples.v ===== *)
(** Worked examples: the theorems of the development at concrete inputs, and concrete runs that
    show defects of the log on a faulty disk.  The expression language is that of ToyExprs.v. *)

From S2P Require Import Prelude HashTable LogRecord ClassAd Transaction ClassAdLog.
From S2P Require Import Recovery Compaction TransactionView Backup ArgList CondorId.
From S2P Require Import CheckEvents ToyExprs.

Open Scope Z_scope.

(** ** Hash tables of numbers *)

Definition ex_ops : list (HT.table_op (Index:=nat) (Value:=nat)) :=
  [HT.OpInsert 1 10; HT.OpInsert 8 80; HT.OpInsert 3 30; HT.OpLookup 8; HT.OpRemove 1;
   HT.OpInsert 15 150; HT.OpInsert 4 40; HT.OpInsert 5 50; HT.OpInsert 6 60]%nat.
Definition ex_table : HT.HashTable nat nat :=
  (HT.table_run Z.of_nat (HT.initialize HT.rejectDuplicateKeys) ex_ops).1.

Lemma ex_table_sim :
  HT.sim Z.of_nat ex_table (HT.map_run HT.rejectDuplicateKeys ∅ ex_ops).1.
Proof. apply HT.run_sim; [done..|]. apply HT.initialize_sim. Qed.

Lemma hash_table_refines_map_witness :
  HT.rejectDuplicateKeys <> HT.allowDuplicateKeys /\
  (HT.table_run Z.of_nat (HT.initialize HT.rejectDuplicateKeys) ex_ops).2 =
    (HT.map_run HT.rejectDuplicateKeys ∅ ex_ops).2 /\
  HT.to_map (HT.table_run Z.of_nat (HT.initialize HT.rejectDuplicateKeys) ex_ops).1 =
    (HT.map_run HT.rejectDuplicateKeys ∅ ex_ops).1.
Proof.
  split; [discriminate|].
  apply (HT.hash_table_refines_map Z.of_nat HT.rejectDuplicateKeys ex_ops). discriminate.
Defined.

Lemma load_factor_bounded_witness :
  HT.rejectDuplicateKeys <> HT.allowDuplicateKeys /\
  5 * HT.numElems ex_table < 4 * HT.tableSize ex_table /\
  HT.numElems ex_table = Z.of_nat (size (HT.map_run HT.rejectDuplicateKeys ∅ ex_ops).1).
Proof.
  split; [discriminate|].
  apply (HT.load_factor_bounded Z.of_nat HT.rejectDuplicateKeys ex_ops). discriminate.
Defined.

Lemma iteration_visits_all_witness :
  HT.wf Z.of_nat ex_table /\
  exists l, HT.drain (S (Z.to_nat (HT.numElems ex_table))) (HT.startIterations ex_table) =
      Some (l, HT.startIterations ex_table) /\
    (forall k v, (k, v) ∈ l <-> exists b, b ∈ HT.contents ex_table /\ HT.entry b = (k, v)) /\
    Z.of_nat (length l) = HT.numElems ex_table.
Proof.
  split; [apply (HT.sim_wf _ _ _ ex_table_sim)|].
  apply (HT.iteration_visits_all Z.of_nat ex_table). apply (HT.sim_wf _ _ _ ex_table_sim).
Defined.

Definition ex_step : HT.HashTable nat nat * option (nat * nat) :=
  default (ex_table, None) (HT.iterate ex_table).

Lemma remove_current_keeps_iteration_witness :
  HT.iterate ex_table = Some (ex_step.1, Some (15, 150)%nat) /\
  let '(t2, r) := HT.remove Z.of_nat ex_step.1 15%nat in
  r = 0 /\ HT.wf Z.of_nat t2 /\
  HT.drain (S (length (HT.remaining ex_step.1))) t2 =
    Some (HT.entry <$> HT.remaining ex_step.1, HT.startIterations t2).
Proof.
  split; [vm_compute; reflexivity|].
  apply (HT.remove_current_keeps_iteration Z.of_nat ex_table ex_step.1 15%nat 150%nat).
  - apply (HT.sim_wf _ _ _ ex_table_sim).
  - apply (HT.sim_unique _ _ _ ex_table_sim).
  - vm_compute. reflexivity.
Defined.

(** A table that allows duplicate keys, with two entries for the key 2. *)
Definition ex_dup : HT.HashTable nat nat :=
  HT.addItem Z.of_nat (HT.addItem Z.of_nat (HT.initialize HT.allowDuplicateKeys) 2%nat 20%nat) 2%nat 21%nat.
Lemma ex_dup_wf : HT.wf Z.of_nat ex_dup.
Proof.
  apply HT.addItem_spec, HT.addItem_spec. apply (HT.initialize_wf Z.of_nat HT.allowDuplicateKeys).
Qed.
Lemma resize_reverses_duplicates_witness :
  HT.lookup Z.of_nat ex_dup 2%nat = Some 21%nat /\
  HT.lookup Z.of_nat (HT.resize_hash_table Z.of_nat ex_dup (-1)) 2%nat = Some 20%nat.
Proof.
  destruct (HT.resize_reverses_duplicates Z.of_nat ex_dup 2%nat ex_dup_wf) as [H1 H2].
  rewrite H1, H2. vm_compute. auto.
Defined.

(** ** Log records *)

Definition ex_set : LogRecord := LogSetAttribute (s2b "1.0") (s2b "Owner") (s2b "alice") true.

Lemma write_read_record_witness :
  record_okb ex_set /\ exists line, data (Write ex_set (new_FILE [])).2 = [] ++ line /\
    ReadLogEntry (line ++ s2b "106 ") = Done (Some (reread ex_set), s2b "106 ").
Proof.
  split; [vm_compute; exact I|].
  apply (write_read_record ex_set (new_FILE []) (Write ex_set (new_FILE [])).2 (s2b "106 ")).
  - vm_compute. exact I.
  - vm_compute. reflexivity.
Defined.

Lemma torn_record_not_read_witness :
  ReadLogEntry (s2b "103 1.0 Own") = Done (None, []).
Proof.
  apply (torn_record_not_read ex_set (s2b "103 1.0 Own")); [vm_compute; exact I|].
  exists (s2b "er alice" ++ [LF]). split; [vm_compute; reflexivity|discriminate].
Defined.

(** ** Ads *)

Definition ex_parent : ClassAd := (InsertAttr (mkClassAd ∅ ∅ true None) (s2b "Owner") (s2b "alice")).1.
Definition ex_ad : ClassAd :=
  ChainToAd (InsertAttr (mkClassAd ∅ ∅ true None) (s2b "ProcId") (s2b "0")).1 (Some ex_parent).

Lemma insert_delete_lookup_witness :
  Lookup (Insert ex_ad (s2b "owner") UndefinedLiteral).1 (s2b "OWNER") = Some UndefinedLiteral /\
  Lookup (Delete ex_ad (s2b "owner")).1 (s2b "OWNER") = Some UndefinedLiteral.
Proof.
  destruct (insert_delete_lookup ex_ad (s2b "owner") UndefinedLiteral (s2b "OWNER")) as (H1 & H2 & _);
    [discriminate|].
  rewrite H1, H2 by reflexivity. vm_compute. auto.
Defined.

Lemma chained_delete_lost_on_replay_witness :
  Lookup (Delete ex_ad (s2b "Owner")).1 (s2b "Owner") = Some UndefinedLiteral /\
  Lookup (ChainToAd (Delete (Unchain ex_ad) (s2b "Owner")).1 (Some ex_parent)) (s2b "Owner") =
    Some (StringLiteral (s2b "alice")).
Proof.
  apply (chained_delete_lost_on_replay ex_ad ex_parent (s2b "Owner") (StringLiteral (s2b "alice")));
    [discriminate | reflexivity | vm_compute; reflexivity].
Defined.

Lemma merge_overrides_witness :
  Lookup (MergeClassAds ex_ad ex_parent true true) (s2b "ownER") = Some (StringLiteral (s2b "alice")).
Proof.
  rewrite (merge_overrides ex_ad ex_parent true (s2b "ownER")).
  - vm_compute. reflexivity.
  - reflexivity.
  - intros k ne. unfold ex_parent. simpl. rewrite lookup_insert_Some.
    intros [[<- <-]|[_ Hk]]; [split; [reflexivity|discriminate]|]. by rewrite lookup_empty in Hk.
Defined.

(** ** A log in use *)

(** A new log file: the header record. *)
Definition ex_header : LogRecord := LogHistoricalSequenceNumber 1 1000.
Definition ex_file (sc : list io) : FILE := (Write ex_header (new_FILE sc)).2.
Definition ex_log (sc : list io) : ClassAdLog :=
  mkLog (HT.initialize HT.allowDuplicateKeys) None (Some (ex_file sc)) 0 1 1000 0.
Definition ex_store : Store := mkStore [Single ex_header] 0 None 0.
Definition ex_env : BackupEnv := mkBackupEnv None None false false [].

Lemma ex_tracks sc : (Write ex_header (new_FILE sc)).1 = true -> tracks true (ex_log sc) (ex_file sc) ex_store.
Proof.
  intros Hw. destruct (managed_initialize (L:=Toy) HT.allowDuplicateKeys) as [Hm Ha].
  apply (tracks_new true (ex_file sc) 0 (initial_replay 1000)); try done.
  unfold ex_file. pose proof (Write_spec ex_header (new_FILE sc)) as Hs.
  destruct (Write ex_header (new_FILE sc)) as [ok f]. simpl in Hw. subst ok.
  destruct Hs as (p & (Hd & Hf & Hdu) & ->). done.
Qed.

(** A transaction that creates an ad, and a change outside a transaction. *)
Definition ex_new : LogRecord := LogNewClassAd (s2b "1.0") (s2b "Job") (s2b "Machine").
Definition ex_client : list client_op :=
  [CBegin; CAppend ex_new; CAppend ex_set; CCommit; CAppend (LogDeleteAttribute (s2b "1.0") (s2b "Owner"));
   CBegin; CAppend (LogDestroyClassAd (s2b "1.0")); CAbort].

(** The disk fills up while the transaction is being written. *)
Definition ex_faults : list io := [IoOk; IoOk; IoOk; IoOk; IoOk; IoFail 2 28].

Definition returned (r : run unit) : bool := match r with Returns _ _ _ => true | Dies _ _ _ => false end.

Lemma ex_returns : returned (exec true ex_env (ex_log []) ex_client) = true.
Proof. vm_compute. reflexivity. Qed.
Lemma ex_dies : returned (exec true ex_env (ex_log ex_faults) ex_client) = false.
Proof. vm_compute. reflexivity. Qed.

Lemma log_refines_store_witness :
  exists l', exec true ex_env (ex_log []) ex_client = Returns _ l' tt /\
  abs (table l') = store_of true (committed (spec_run ex_store ex_client)).
Proof.
  assert (Hr := ex_returns).
  destruct (exec true ex_env (ex_log []) ex_client) as [l' []|l' msg] eqn:He; [|discriminate Hr].
  exists l'. split; [reflexivity|].
  apply (log_refines_store true ex_env ex_client (ex_log []) (ex_file []) ex_store l').
  - apply ex_tracks. reflexivity.
  - vm_compute. exact I.
  - left. reflexivity.
  - exact He.
Defined.

(** The same run on the failing disk dies in the commit (the fourth operation), and whatever is on
    the disk then still recovers. *)
Lemma crash_recovery_witness :
  match exec true ex_env (ex_log ex_faults) ex_client with
  | Returns _ _ _ => False
  | Dies _ l' _ => exists i f', (i < length ex_client)%nat /\ log_fp l' = Some f' /\
      recovers true f' (committed (spec_run ex_store (take (S i) ex_client)))
        (synced (spec_run ex_store (take i ex_client)))
  end.
Proof.
  assert (Hx := crash_recovery true ex_env ex_client (ex_log ex_faults) (ex_file ex_faults) ex_store).
  assert (Hd := ex_dies).
  destruct (exec true ex_env (ex_log ex_faults) ex_client) as [l' []|l' msg] eqn:He; [discriminate Hd|].
  apply Hx.
  - apply ex_tracks. reflexivity.
  - vm_compute. exact I.
  - right. split; [reflexivity | vm_compute; exact I].
Defined.

(** The log after a committed transaction, with the next one open. *)
Definition ex_open : list client_op :=
  [CBegin; CAppend ex_new; CAppend ex_set; CCommit;
   CBegin; CAppend (LogSetAttribute (s2b "1.0") (s2b "OWNER") (s2b "bob") false)].
Definition ex_l : ClassAdLog :=
  match exec true ex_env (ex_log []) ex_open with Returns _ l _ => l | Dies _ l _ => l end.
Definition ex_sp : Store := spec_run ex_store ex_open.

Lemma ex_l_tracks : exists f, tracks true ex_l f ex_sp /\ script f = [].
Proof.
  assert (Hr : returned (exec true ex_env (ex_log []) ex_open) = true) by (vm_compute; reflexivity).
  pose proof (exec_spec true ex_env ex_open (ex_log []) (ex_file []) ex_store) as Hx. unfold ex_l.
  destruct (exec true ex_env (ex_log []) ex_open) as [l u|l msg]; [|discriminate Hr].
  destruct Hx as (f & Ht & Hs); [by apply ex_tracks | by vm_compute | by left |]. exists f. auto.
Qed.

(** Storability can be computed. *)
Definition storableb (a : ClassAd) : bool :=
  bool_decide (map_Forall (fun k ne => k = lower ne.1 /\ wordb ne.1 /\ faithful ne.2) (attrList a)) &&
  bool_decide (map_Forall (fun k ne => fst <$> (attrList a !! k) = Some ne.1)
    (attrList (fresh_ad true (GetMyTypeName a) (GetTargetTypeName a)))) &&
  (type_okb (GetMyTypeName a) && type_okb (GetTargetTypeName a)).
Lemma storableb_sound a : storableb a -> storable true a.
Proof.
  unfold storableb. intros [[H1 H2]%andb_True H3]%andb_True.
  apply bool_decide_unpack in H1, H2. split; [done| |done].
  intros k ne Hk. specialize (H2 k ne Hk). simpl in H2. apply fmap_Some in H2 as ([n e] & Ha & Hn).
  exists e. etransitivity; [exact Ha|]. destruct ne as [n0 e0]. simpl in *. by subst n0.
Qed.
Lemma table_storable_check t :
  bool_decide (map_Forall (fun k a => wordb k && storableb a) (HT.to_map t)) -> table_storable true t.
Proof.
  intros Hb%bool_decide_unpack k a Hk. specialize (Hb k a Hk). simpl in Hb.
  apply andb_True in Hb as [? ?]. auto using storableb_sound.
Qed.

Definition ex_rotate : RotateEnv := mkRotateEnv true true true true [] true true [].


(** The image of a disk that kept all of the log. *)
Definition ex_image (l : ClassAdLog) : bytes := match log_fp l with Some f => data f | None => [] end.
Definition recovered (img : bytes) (now : Z) : Replay :=
  match recover true img now with Some (Done (s, _, _)) => s | _ => initial_replay now end.

Lemma reopen_after_crash_witness :
  exists r d', open_log true ex_rotate [] (ex_image ex_l) (mkDisk None ∅) 0 1000 = Some (Done (r, d')) /\
  match r with
  | Returns _ l' _ => exists k f' sp', (synced ex_sp <= k <= length (committed ex_sp))%nat /\
      tracks true l' f' sp' /\ pending sp' = None /\ level sp' = 0 /\
      store_of true (committed sp') = store_of true (take k (committed ex_sp))
  | Dies _ _ _ => ~ (reliable ex_rotate /\ @nil io = [])
  end.
Proof.
  destruct ex_l_tracks as (f & Ht & _).
  assert (Himg : ex_image ex_l = data f) by (unfold ex_image; by rewrite (tr_fp _ _ _ _ Ht)).
  assert (Hst : table_storable true (r_table (recovered (ex_image ex_l) 1000)))
    by (apply table_storable_check; vm_compute; exact I).
  apply (reopen_after_crash true ex_rotate [] f (committed ex_sp) (synced ex_sp) (ex_image ex_l)
           (mkDisk None ∅) 0 1000).
  - apply Ht.
  - exists (length (data f)). rewrite Himg. split; [|by rewrite take_ge].
    destruct (file_durable _ _ _ _ (tr_file _ _ _ _ Ht)). lia.
  - reflexivity.
  - vm_compute. exact I.
  - intros s p Hrec. unfold recovered in Hst. by rewrite Hrec in Hst.
Defined.

(** *** The open transaction *)

Lemma ad_exists_iff_in_view_witness :
  AdExistsInTableOrTransaction ex_l (s2b "1.0") = true.
Proof.
  destruct ex_l_tracks as (f & Ht & _).
  rewrite (ad_exists_iff_in_view true ex_l f ex_sp (s2b "1.0") Ht); [vm_compute; reflexivity | discriminate].
Defined.

Lemma lookup_in_transaction_sound_witness :
  exists a0 a, store_of true (committed ex_sp) !! s2b "1.0" = Some a0 /\ view true ex_sp !! s2b "1.0" = Some a /\
    let '(code, v) := LookupInTransaction true ex_l (s2b "1.0") (Some (s2b "owner")) in
    (code = 1 /\ exists x e, v = Some x /\ ParseExpression x = Some e /\ snd <$> (a !! lower (s2b "owner")) = Some e) \/
    (code = -1 /\ a !! lower (s2b "owner") = None) \/
    (code = 0 /\ a !! lower (s2b "owner") = a0 !! lower (s2b "owner")).
Proof.
  destruct ex_l_tracks as (f & Ht & _).
  destruct (store_of true (committed ex_sp) !! s2b "1.0") as [a0|] eqn:H0.
  2: { exfalso. apply (f_equal (fun o => bool_decide (is_Some o))) in H0. vm_compute in H0. discriminate. }
  destruct (view true ex_sp !! s2b "1.0") as [a|] eqn:Ha.
  2: { exfalso. apply (f_equal (fun o => bool_decide (is_Some o))) in Ha. vm_compute in Ha. discriminate. }
  exists a0, a. split; [reflexivity|]. split; [reflexivity|].
  apply (lookup_in_transaction_sound true ex_l f ex_sp
           [LogSetAttribute (s2b "1.0") (s2b "OWNER") (s2b "bob") false] (s2b "1.0") (s2b "owner") a0 a Ht);
    [reflexivity | discriminate | vm_compute; exact I | exact H0 | exact Ha].
Defined.

(** The ad is changed, destroyed and created again in one transaction. *)
Definition ex_recreate : list client_op :=
  [CAppend ex_new; CBegin; CAppend ex_set; CAppend (LogDestroyClassAd (s2b "1.0")); CAppend ex_new].
Lemma lookup_in_transaction_stale_witness :
  exists l, LookupInTransaction true l (s2b "1.0") (Some (s2b "Owner")) = (1, Some (s2b "alice")) /\
    view true (spec_run ex_store ex_recreate) !! s2b "1.0" =
      Some (attrList (fresh_ad true (s2b "Job") (s2b "Machine"))).
Proof.
  assert (Hr : returned (exec true ex_env (ex_log []) ex_recreate) = true) by (vm_compute; reflexivity).
  pose proof (exec_spec true ex_env ex_recreate (ex_log []) (ex_file []) ex_store) as Hx.
  destruct (exec true ex_env (ex_log []) ex_recreate) as [l u|l msg]; [|discriminate Hr].
  destruct Hx as (f & Ht & _); [by apply ex_tracks | by vm_compute | by left |]. exists l.
  apply (lookup_in_transaction_stale true l f (spec_run ex_store ex_recreate) (s2b "1.0") (s2b "Owner")
           (s2b "alice") (s2b "Job") (s2b "Machine") true Ht). reflexivity.
Defined.

(** *** Backups *)

Definition ex_backup : BackupEnv := mkBackupEnv (Some (s2b "FAILED")) (Some (s2b "/backup")) true true [].
Definition ex_txn : Transaction := foldl append_record new_Transaction [LogBeginTransaction; ex_new; LogEndTransaction].
Definition ex_full_disk : FILE := new_FILE [IoOk; IoOk; IoFail 1 28].

Lemma failed_commit_backed_up_witness :
  exists b, closed (c_backup (Commit true ex_backup ex_txn (Some ex_full_disk)
    (HT.initialize HT.allowDuplicateKeys) false)) = Some b /\ data b = log_text (ordered_op_log ex_txn).
Proof.
  assert (Hb := failed_commit_backed_up true ex_backup ex_txn ex_full_disk (HT.initialize HT.allowDuplicateKeys)).
  assert (He : match c_except (Commit true ex_backup ex_txn (Some ex_full_disk) (HT.initialize HT.allowDuplicateKeys) false)
    with Some _ => true | None => false end = true) by (vm_compute; reflexivity).
  set (c := Commit _ _ _ _ _ _) in *. simpl in Hb.
  destruct (c_except c) as [[[w e] made]|]; [|discriminate He].
  destruct Hb as (_ & _ & b & Hc & Hd & _).
  - split; [reflexivity | by eexists | reflexivity | reflexivity | reflexivity].
  - apply forallb_True. vm_compute. exact I.
  - exists b. auto.
Defined.

(** *** Faulty disks *)

(** A nondurable commit during which one write falls short, then a durable commit. *)
Definition ex_nondurable : list client_op :=
  [CBegin; CAppend ex_new; CCommitNondurable;
   CBegin; CAppend (LogNewClassAd (s2b "2.0") (s2b "Job") (s2b "Machine")); CCommit].
Definition ex_short_write : list io := [IoOk; IoOk; IoOk; IoOk; IoOk; IoFail 1 28].
Definition ex_corrupt : ClassAdLog :=
  match exec true ex_env (ex_log ex_short_write) ex_nondurable with Returns _ l _ => l | Dies _ l _ => l end.

(** A write error during a nondurable commit goes unreported and takes later commits
    with it: every operation returns, the transaction committed after it is synced to the disk, and
    yet that transaction is not there after a restart, because the reader stops at the half-written
    record.  (This is why the crash theorem excludes faults in nondurable commits.) *)
Theorem nondurable_write_error_loses_commits :
  returned (exec true ex_env (ex_log ex_short_write) ex_nondurable) = true /\
  synced (spec_run ex_store ex_nondurable) = length (committed (spec_run ex_store ex_nondurable)) /\
  bool_decide (is_Some (abs (table ex_corrupt) !! s2b "2.0")) = true /\
  bool_decide (is_Some (abs (r_table (recovered (ex_image ex_corrupt) 1000)) !! s2b "2.0")) = false.
Proof. vm_compute. auto. Qed.

(** TruncLog() does not truncate the temporary file.  If a longer one is left over from
    an earlier rotation that failed, its tail stays behind the new records and becomes part of the
    log: here an ad that does not exist any more is back after the next restart. *)
Theorem stale_temporary_file_resurrects_ads :
  let leftover := log_text (replicate 3 ex_header ++ [LogNewClassAd (s2b "9.9") [] []]) in
  match (TruncLog ex_rotate (ex_log []) (mkDisk (Some leftover) ∅)).1 with
  | Returns _ l' ok =>
      ok = true /\ bool_decide (is_Some (abs (table l') !! s2b "9.9")) = false /\
      bool_decide (is_Some (abs (r_table (recovered (ex_image l') 1000)) !! s2b "9.9")) = true
  | Dies _ _ _ => False
  end.
Proof. vm_compute. auto. Qed.

(** ** Arguments *)

Definition ex_args (l : list bytes) : ArgList := mkArgList l false UNIX_ARGV1_SYNTAX.
Definition ex_list : list bytes := [s2b "a b"; []; s2b "it's"; s2b "c:\dir\"; [DQUOTE]].

Lemma v1_preferring_roundtrip_witness :
  AppendArgsV1or2Raw (ex_args []) (Some (GetArgsStringV1or2Raw (ex_args ex_list) [])) [] =
    (ex_args ex_list, true, []) /\
  AppendArgsV1WackedOrV2Quoted (ex_args []) (GetArgsStringV1WackedOrV2Quoted (ex_args ex_list) []) [] =
    Done (ex_args ex_list, true, []).
Proof. apply (v1_preferring_roundtrip (ex_args []) (ex_args ex_list) []). reflexivity. Defined.

Definition ex_win : list bytes := [s2b "c:\dir\"; s2b "a b\"; BSLASH :: [DQUOTE]].
Lemma win32_args_roundtrip_witness :
  forallb win32_okb ex_win /\
  AppendArgsV1Raw_win32 (ex_args []) (GetArgsStringWin32 (ex_args ex_win) [] 0) [] = (ex_args ex_win, true, []).
Proof.
  split; [vm_compute; exact I|].
  apply (win32_args_roundtrip (ex_args []) (ex_args ex_win) []); [reflexivity | vm_compute; exact I].
Defined.

Lemma ad_args_roundtrip_witness :
  exists ad', InsertArgsIntoClassAd (ex_args ex_list) ex_ad None [] = (ad', true, []) /\
    AppendArgsFromClassAd (ex_args []) ad' [] = (ex_args ex_list, true, []).
Proof.
  apply (ad_args_roundtrip (ex_args []) (ex_args ex_list) ex_ad None []); vm_compute; exact I.
Defined.

(** ** Job ids and events *)

Lemma reverse_bits_spec_witness :
  0 <= 6 < 2 ^ 32 /\ Z.testbit (reverse_bits 6) 30 = Z.testbit 6 1.
Proof. split; [lia|]. apply (reverse_bits_spec 6 30); lia. Defined.

(** Two jobs whose events interleave. *)
Definition ex_events : list ULogEvent :=
  [mkEvent ULOG_SUBMIT 1 0 0; mkEvent ULOG_SUBMIT 2 0 0; mkEvent ULOG_EXECUTE 2 0 0;
   mkEvent ULOG_EXECUTE 1 0 0; mkEvent ULOG_JOB_TERMINATED 2 0 0; mkEvent ULOG_JOB_ABORTED 1 0 0;
   mkEvent ULOG_POST_SCRIPT_TERMINATED 1 0 0].

Lemma ex_events_ids : Forall (fun e => event_id e <> noSubmitId) ex_events.
Proof. repeat constructor; discriminate. Qed.
Lemma ex_events_okay : all_okay (check_run (new_CheckEvents ALLOW_NONE) ex_events).2.
Proof.
  assert (H : forallb (fun r => bool_decide (r = EVENT_OKAY)) (check_run (new_CheckEvents ALLOW_NONE) ex_events).2)
    by (vm_compute; exact I).
  revert H. generalize (check_run (new_CheckEvents ALLOW_NONE) ex_events).2. intros rs H.
  apply forallb_True in H. eapply Forall_impl; [exact H|]. intros r Hr. by apply bool_decide_unpack in Hr.
Qed.

Lemma events_okay_iff_lifecycle_witness :
  is_Some (life_run Unsubmitted (events_of (mkCondorID 1 0 0) ex_events)).
Proof.
  apply (events_okay_iff_lifecycle ALLOW_NONE ex_events); [apply ex_events_ids | apply ex_events_okay].
Defined.

Lemma all_jobs_okay_iff_ended_witness :
  (CheckAllJobs (check_run (new_CheckEvents ALLOW_NONE) ex_events).1).2.2 = EVENT_OKAY /\
  (life_run Unsubmitted (events_of (mkCondorID 2 0 0) ex_events) = Some Ended \/
   life_run Unsubmitted (events_of (mkCondorID 2 0 0) ex_events) = Some Posted).
Proof.
  assert (Hok : (CheckAllJobs (check_run (new_CheckEvents ALLOW_NONE) ex_events).1).2.2 = EVENT_OKAY)
    by (vm_compute; reflexivity).
  split; [exact Hok|].
  apply (proj1 (all_jobs_okay_iff_ended ALLOW_NONE ex_events ex_events_ids ex_events_okay) Hok);
    [|reflexivity].
  apply list_elem_of_fmap. exists (mkEvent ULOG_SUBMIT 2 0 0). split; [reflexivity|].
  right. left.
Defined.

(** A checker that has seen job 1 end. *)
Lemma ex_checker allow :
  exists m, checker (check_run (new_CheckEvents allow) [mkEvent ULOG_JOB_TERMINATED 1 0 0]).1 m /\
    m = <[mkCondorID 1 0 0 := mkInfo 0 0 0 1 0]> ∅ /\
    allowEvents (check_run (new_CheckEvents allow) [mkEvent ULOG_JOB_TERMINATED 1 0 0]).1 = allow.
Proof.
  pose proof (CheckAnEvent_map _ _ (mkEvent ULOG_JOB_TERMINATED 1 0 0) (new_checker allow)) as H.
  cbn [check_run]. destruct (CheckAnEvent _ _) as [c [msg r]]. destruct H as (Hc & Ha & _).
  eexists. split; [exact Hc|]. split; [reflexivity | exact Ha].
Qed.

Lemma tolerance_monotone_witness :
  (CheckAnEvent (check_run (new_CheckEvents ALLOW_ALMOST_ALL) [mkEvent ULOG_JOB_TERMINATED 1 0 0]).1
     (mkEvent ULOG_EXECUTE 1 0 0)).2.2 = EVENT_ERROR /\
  (CheckAnEvent (check_run (new_CheckEvents ALLOW_NONE) [mkEvent ULOG_JOB_TERMINATED 1 0 0]).1
     (mkEvent ULOG_EXECUTE 1 0 0)).2.2 = EVENT_ERROR.
Proof.
  assert (He : (CheckAnEvent (check_run (new_CheckEvents ALLOW_ALMOST_ALL) [mkEvent ULOG_JOB_TERMINATED 1 0 0]).1
    (mkEvent ULOG_EXECUTE 1 0 0)).2.2 = EVENT_ERROR) by (vm_compute; reflexivity).
  split; [exact He|].
  destruct (ex_checker ALLOW_NONE) as (m & Hm & -> & Ha), (ex_checker ALLOW_ALMOST_ALL) as (m' & Hm' & -> & Ha').
  apply (tolerance_monotone _ _ _ (mkEvent ULOG_EXECUTE 1 0 0) Hm Hm'); [rewrite Ha, Ha'; reflexivity | exact He].
Defined.

Lemma almost_all_rejects_only_reruns_witness :
  (CheckAnEvent (check_run (new_CheckEvents ALLOW_ALMOST_ALL) [mkEvent ULOG_JOB_TERMINATED 1 0 0]).1
     (mkEvent ULOG_EXECUTE 1 0 0)).2.2 = EVENT_ERROR.
Proof.
  destruct (ex_checker ALLOW_ALMOST_ALL) as (m & Hm & -> & Ha).
  apply (almost_all_rejects_only_reruns _ _ (mkEvent ULOG_EXECUTE 1 0 0) Hm).
  - rewrite Ha. reflexivity.
  - rewrite Ha. reflexivity.
  - split; [reflexivity|]. vm_compute. discriminate.
Defined.
