(* ===== verification/DagExamples.v ===== *)
(** Worked examples on DAGMan: the theorems on priority lists and DAGs at concrete inputs. *)

From S2P Require Import Prelude CondorId PriorityList DagJob Dag DagCycle.
From S2P Require Import DagBuild.

Open Scope Z_scope.

(** ** Priority lists *)

Definition ex_plist : PrioritySimpleList nat :=
  Append (Append (Prepend (Append new_PrioritySimpleList 1%nat 0) 2%nat 0) 3%nat (-5)) 4%nat 7.

Lemma priority_insert_stable_witness :
  entries_by_priority ex_plist = [(3%nat, -5); (2%nat, 0); (1%nat, 0); (4%nat, 7)] /\
  entries_by_priority (Append ex_plist 9%nat 0) = [(3%nat, -5); (2%nat, 0); (1%nat, 0); (9%nat, 0); (4%nat, 7)].
Proof.
  split; [reflexivity|].
  destruct (priority_insert_stable ex_plist 9%nat 0) as (_ & _ & Ha & _).
  - split; [reflexivity|]. change (priorities ex_plist) with [-5; 0; 0; 7].
    repeat (apply ascending_cons; split; [repeat constructor; lia|]).
    intros i j x y _ Hx. by rewrite lookup_nil in Hx.
  - rewrite Ha. vm_compute. reflexivity.
Defined.

(** ** DAGs *)

Definition ex_node (n : string) : build_op :=
  BNode TYPE_CONDOR (Some (s2b n)) [] (Some (s2b "a.sub")) None None false false false.
(** A diamond, and a second node that depends on itself through another. *)
Definition ex_diamond : list build_op :=
  [ex_node "A"; ex_node "B"; ex_node "C"; ex_node "D"; BDepend 0 1; BDepend 0 2; BDepend 1 3; BDepend 2 3].
Definition ex_loop : list build_op := [ex_node "A"; ex_node "B"; ex_node "C"; BDepend 0 1; BDepend 1 2; BDepend 2 1].

Definition built_from (ops : list build_op) : Dag :=
  match build 0 (new_Dag, 0) ops with Done (d, _, _) => d | EXCEPT _ => new_Dag end.
Definition verdict (d : Dag) : option bool := snd <$> isCycle d.

Example ex_verdicts : verdict (built_from ex_diamond) = Some false /\ verdict (built_from ex_loop) = Some true.
Proof. vm_compute. done. Qed.

Lemma build_ok ops next :
  (match build 0 (new_Dag, 0) ops with Done (_, n, ok) => ok && (n =? next) | EXCEPT _ => false end) = true ->
  build 0 (new_Dag, 0) ops = Done (built_from ops, next, true).
Proof.
  unfold built_from. destruct (build 0 (new_Dag, 0) ops) as [[[d n] ok]|]; [|done].
  intros [-> ->%Z.eqb_eq]%andb_true_iff. done.
Qed.
Lemma ex_built ops next :
  (match build 0 (new_Dag, 0) ops with Done (_, n, ok) => ok && (n =? next) | EXCEPT _ => false end) = true ->
  built (built_from ops) next.
Proof. intros Hb%build_ok. eapply build_built; [apply built_new|exact Hb]. Qed.

Lemma isCycle_iff_cycle_witness :
  wf_graph (built_from ex_diamond) /\ forall n, ~ tc (edge (built_from ex_diamond)) n n.
Proof.
  assert (Hb : built (built_from ex_diamond) 4) by (apply ex_built; vm_compute; reflexivity).
  split; [apply Hb|].
  destruct (isCycle_iff_cycle (built_from ex_diamond) (b_graph _ _ Hb) (b_marks _ _ Hb)) as (d' & b & Hc & Hiff & _).
  apply Hiff. pose proof (proj1 ex_verdicts) as Hv. unfold verdict in Hv. rewrite Hc in Hv. simpl in Hv. congruence.
Defined.

Lemma built_dag_consistent_witness :
  build 0 (new_Dag, 0) ex_loop = Done (built_from ex_loop, 3, true) /\
  ~ (forall n, ~ tc (edge (built_from ex_loop)) n n).
Proof.
  assert (Hb : build 0 (new_Dag, 0) ex_loop = Done (built_from ex_loop, 3, true))
    by (apply build_ok; vm_compute; reflexivity).
  split; [exact Hb|]. destruct (built_dag_consistent 0 ex_loop _ _ Hb) as (_ & _ & d' & b & Hc & Hiff).
  intros Hn. apply Hiff in Hn. pose proof (proj2 ex_verdicts) as Hv. unfold verdict in Hv. rewrite Hc in Hv.
  simpl in Hv. congruence.
Defined.

Definition ex_pair : Dag := built_from [ex_node "A"; ex_node "B"; BDepend 0 1].
Definition ex_pair_done : Dag := built_from [ex_node "A"; ex_node "B"; BDepend 0 1; BDone 1].

Lemma ex_edge d p c :
  (match _nodeIDHash d !! p with Some j => bool_decide (c ∈ _children j) | None => false end) = true -> edge d p c.
Proof.
  destruct (_nodeIDHash d !! p) as [j|] eqn:Hp; [|done]. intros Hc%bool_decide_eq_true. by exists j.
Qed.

(** A field of a node of a concrete DAG, found by evaluation. *)
Lemma ex_field {T} (field : Job -> T) d i j v :
  _nodeIDHash d !! i = Some j -> field <$> _nodeIDHash d !! i = Some v -> field j = v.
Proof. intros -> He. by apply (inj Some) in He. Qed.

Definition waits_for (p : Z) (j : Job) : bool := bool_decide (p ∈ _waiting j).
Lemma ex_waits p j : waits_for p j = true -> p ∈ _waiting j.
Proof. apply bool_decide_eq_true_1. Qed.

Lemma removed_dependency_still_waits_witness :
  exists d' w jc', RemoveDependency ex_pair (Some 0) (Some 1) = Done (d', true, w) /\
    _nodeIDHash d' !! 1 = Some jc' /\ CanSubmit jc' = false.
Proof.
  assert (Hb : built ex_pair 2) by (apply ex_built; vm_compute; reflexivity).
  assert (He : edge ex_pair 0 1) by (apply ex_edge; vm_compute; reflexivity).
  destruct (_nodeIDHash ex_pair !! 1) as [jc|] eqn:Hc; [|discriminate].
  destruct (removed_dependency_still_waits ex_pair 2 0 1 jc Hb) as (d' & w & jc' & H1 & _ & H3 & _ & _ & H6).
  - discriminate.
  - exact He.
  - exact Hc.
  - apply (ex_waits 0 jc).
    exact (ex_field (waits_for 0) _ _ _ true Hc ltac:(vm_compute; reflexivity)).
  - exists d', w, jc'. split; [exact H1|]. split; [exact H3|exact H6].
Defined.

Lemma failed_dependency_breaks_symmetry_witness :
  exists d', AddDependency 0 ex_pair_done (Some 0) (Some 1) = Done (d', false) /\ ~ edge d' 0 1.
Proof.
  assert (Hb : built ex_pair_done 2) by (apply ex_built; vm_compute; reflexivity).
  assert (He : edge ex_pair_done 0 1) by (apply ex_edge; vm_compute; reflexivity).
  destruct (_nodeIDHash ex_pair_done !! 0) as [jp|] eqn:Hp; [|discriminate].
  destruct (_nodeIDHash ex_pair_done !! 1) as [jc|] eqn:Hc; [|discriminate].
  destruct (failed_dependency_breaks_symmetry 0 ex_pair_done 2 0 1 jp jc Hb) as (d' & H1 & H2 & _);
    [discriminate|lia|exact He|exact Hp|exact Hc|..].
  - eapply ex_field; [exact Hp|vm_compute; reflexivity].
  - eapply ex_field; [exact Hc|vm_compute; reflexivity].
  - rewrite (ex_field _Status _ _ _ STATUS_DONE Hc); [discriminate|vm_compute; reflexivity].
  - rewrite (ex_field _Status _ _ _ STATUS_READY Hp); [discriminate|vm_compute; reflexivity].
  - exists d'. split; assumption.
Defined.
