(* ===== verification/DagRunExamples.v ===== *)
(** Runs of small DAGs: the theorems on the scheduler at concrete inputs, a run from the first node
    to the exit, and runs that show where the scheduler stops itself. *)

From S2P Require Import Prelude CondorId PriorityList DagJob Dag DagCycle DagBuild.
From S2P Require Import HashTable CheckEvents DagRun DagLogic DagSafety DagTermination DagBooks DagRetries DagProgress DagStart.
From S2P Require Import DagParse DagRead Rescue DagExamples.

Open Scope Z_scope.

(** ** A system in which everything works *)

(** At most two jobs at a time. *)
#[local] Instance ex_config : Config := mkConfig 0 2 0 0 0 0 100 6 true false false false false true false.
(** The n-th question gives cluster 100 + n and process 1000 + n. *)
#[local] Instance ex_world : World :=
  mkWorld (fun t c => match c with CallNFSError | CallHaltFile => false | _ => true end)
    (fun t c => match c with
                | CallSubmitCluster => 100 + Z.of_nat t
                | CallCreateProcess => 1000 + Z.of_nat t
                | CallLogFileCount => 1
                | _ => 0
                end) (fun _ => []).

Definition ex_log (n c p sp : Z) (value : Z) (name notes : bytes) : LogEvent :=
  mkLogEvent (mkEvent n c p sp) true value 0 name (Some notes).
Definition ex_event (n c p sp : Z) (value : Z) (name notes : bytes) : ULogEventOutcome * option LogEvent :=
  (ULOG_OK, Some (ex_log n c p sp value name notes)).
Definition ex_submit (c p sp : Z) (name : string) := ex_event ULOG_SUBMIT c p sp 0 [] (s2b "DAG Node: " ++ s2b name).
Definition ex_end (c p sp value : Z) := ex_event ULOG_JOB_TERMINATED c p sp value [] [].
Definition ex_abort (c p sp : Z) := ex_event ULOG_JOB_ABORTED c p sp 0 [] [].
Definition ex_post (c p sp value : Z) (name : string) := ex_event ULOG_POST_SCRIPT_TERMINATED c p sp value (s2b name) [].
Definition ex_timer (l : list (ULogEventOutcome * option LogEvent)) : stimulus := Timer false (Some l) None.

(** ** The diamond, from the first submit to the exit *)

Definition ex_dag : Dag := built_from ex_diamond.
Definition ex_part : list stimulus :=
  [ex_timer [ex_submit 104 0 0 "A"; ex_end 104 0 0 0]; ex_timer [ex_submit 113 0 0 "B"; ex_submit 119 0 0 "C"]].
Definition ex_rest : list stimulus :=
  [ex_timer [ex_end 119 0 0 0; ex_end 113 0 0 0]; ex_timer [ex_submit 131 0 0 "D"; ex_end 131 0 0 0]].
Definition ex_run (sts : list stimulus) : result unit := run_dag 10 None sts (new_Run ex_dag 0).

Example ex_run_exits :
  match ex_run (ex_part ++ ex_rest) with
  | RExit code s => code = EXIT_OKAY /\ trace s = [ASubmit 0 true; ASubmit 1 true; ASubmit 2 true; ASubmit 3 true] /\ _numNodesDone (dag s) = 4
  | _ => False
  end.
Proof. vm_compute. done. Qed.

Lemma ex_fresh : fresh ex_dag.
Proof. apply r_fresh, (build_unrun 0 ex_diamond _ 4). apply build_ok. vm_compute. reflexivity. Qed.
Lemma ex_sensible : sensible_limits ex_dag.
Proof. split; [done|]. intros category t Ht. vm_compute in Ht. by destruct category. Qed.

(** The state after a part of the run, as a value. *)
Definition state_of (r : result unit) : Run :=
  match r with RDone _ s => s | RExit _ s => s | _ => new_Run new_Dag 0 end.
Definition ex_middle : Run := state_of (run_dag 10 None ex_part (new_Run ex_dag 0)).
Definition returned (r : result unit) : bool := match r with RDone _ _ => true | _ => false end.

Lemma returned_wp (Q : Run -> Prop) (m : M unit) s :
  returned (m s) = true -> wp True m (fun _ => Q) Q s -> Q (state_of (m s)).
Proof. unfold wp. by destruct (m s). Qed.
Lemma ex_returned : returned (run_dag 10 None ex_part (new_Run ex_dag 0)) = true.
Proof. vm_compute. reflexivity. Qed.

(** B and C are in the queue, so A has ended. *)
Lemma dependencies_respected_witness :
  dependencies_hold ex_dag ex_middle /\ worked_on ex_middle 1 (default (new_Job 0 TYPE_CONDOR [] [] []) (nodes ex_middle !! 1)) /\
  counted ex_middle 0.
Proof.
  split.
  - exact (returned_wp _ _ _ ex_returned (dependencies_respected 10 None ex_part ex_dag 0 ex_fresh)).
  - split.
    + left. vm_compute. left. reflexivity.
    + eexists. split; vm_compute; reflexivity.
Defined.

(** Node 1 was run once, as it has no retries. *)
Lemma bookkeeping_right_witness :
  _numNodesDone (dag ex_middle) = done_count (nodes ex_middle) /\ runs 1 (trace ex_middle) = 1 /\
  exists j0, _nodeIDHash ex_dag !! 1 = Some j0 /\ runs 1 (trace ex_middle) <= 1 + (retry_max j0 - retries j0).
Proof.
  pose proof (returned_wp (books_right ex_dag 0) _ _ ex_returned (bookkeeping_right 10 None ex_part ex_dag 0 ex_fresh)) as [H1 H2 H3].
  fold ex_middle in H1, H2.
  split; [exact H2|]. split; [vm_compute; reflexivity|].
  assert (Hj : is_Some (nodes ex_middle !! 1)) by (vm_compute; eauto). destruct Hj as [j Hj].
  destruct (H1 1 j Hj) as (j0 & Hj0 & Hle & Hmax). exists j0. split; [exact Hj0|].
  assert (0 <= in_hand j) by (unfold in_hand; destruct (to_come _); lia). lia.
Defined.

Lemma scheduler_terminates_witness : (dag_fuel ex_dag <= 10)%nat /\ ex_run (ex_part ++ ex_rest) <> RFuel.
Proof.
  assert (Hfuel : (dag_fuel ex_dag <= 10)%nat) by (vm_compute; lia).
  split; [exact Hfuel|]. exact (scheduler_terminates None (ex_part ++ ex_rest) ex_dag 0 10 ex_fresh Hfuel).
Defined.

(** ** A DAG with a cycle gets stuck behind it, and the cycle is found *)

#[local] Instance ex_good : GoodWorld.
Proof. by split. Qed.

Definition is_done {A} (r : result A) : bool := match r with RDone _ _ => true | _ => false end.
Definition after {A} (m : M A) (s : Run) : Run := match m s with RDone _ s' => s' | _ => s end.
Lemma after_done {A} (m : M A) s : is_done (m s) = true -> exists a, m s = RDone a (after m s).
Proof. unfold after. destruct (m s) as [a s'|? ?|?|]; [by exists a|done..]. Qed.

Definition ex_loop_dag : Dag := built_from ex_loop.
Definition ex_read (e : LogEvent) : M (bool * bool) := ProcessOneEvent 10 TYPE_CONDOR ULOG_OK (Some e) false.
Definition ex_submit_A : LogEvent := ex_log ULOG_SUBMIT 104 0 0 0 [] (s2b "DAG Node: A").
Definition ex_end_A : LogEvent := ex_log ULOG_JOB_TERMINATED 104 0 0 0 [] [].
Definition ex_loop_0 : Run := after (Bootstrap 10 None) (new_Run ex_loop_dag 0).
Definition ex_loop_1 : Run := after (SubmitReadyJobs 10) ex_loop_0.
Definition ex_loop_2 : Run := after (ex_read ex_submit_A) ex_loop_1.
Definition ex_loop_3 : Run := after (ex_read ex_end_A) ex_loop_2.

Lemma ex_loop_reachable : reachable 10 ex_loop_dag 0 ex_loop_3.
Proof.
  destruct (after_done (Bootstrap 10 None) (new_Run ex_loop_dag 0)) as [b H0]; [vm_compute; reflexivity|].
  destruct (after_done (SubmitReadyJobs 10) ex_loop_0) as [n H1]; [vm_compute; reflexivity|].
  destruct (after_done (ex_read ex_submit_A) ex_loop_1) as [r2 H2]; [vm_compute; reflexivity|].
  destruct (after_done (ex_read ex_end_A) ex_loop_2) as [r3 H3]; [vm_compute; reflexivity|].
  assert (R1 : reachable 10 ex_loop_dag 0 ex_loop_1).
  { exact (reach_submit 10 ex_loop_dag 0 ex_loop_0 n ex_loop_1 (reach_boot 10 ex_loop_dag 0 b ex_loop_0 H0) H1). }
  assert (R2 : reachable 10 ex_loop_dag 0 ex_loop_2).
  { refine (reach_event 10 ex_loop_dag 0 ex_loop_1 TYPE_CONDOR ULOG_OK (Some ex_submit_A) r2 ex_loop_2 R1 _ H2).
    intros _ name i j Hn Hi Hj. vm_compute in Hn. injection Hn as <-. vm_compute in Hi. injection Hi as <-.
    vm_compute in Hj. injection Hj as <-. split; reflexivity. }
  refine (reach_event 10 ex_loop_dag 0 ex_loop_2 TYPE_CONDOR ULOG_OK (Some ex_end_A) r3 ex_loop_3 R2 _ H3).
  intros Hn. vm_compute in Hn. discriminate Hn.
Qed.

Lemma dag_not_stuck_witness :
  (FinishedRunning (dag ex_loop_3) false = true /\ DoneSuccess (dag ex_loop_3) false = false) /\
  exists d', isCycle (dag ex_loop_3) = Some (d', true).
Proof.
  assert (Hu : unrun ex_loop_dag) by (apply (build_unrun 0 ex_loop _ 3), build_ok; vm_compute; reflexivity).
  assert (Hf : final_waits ex_loop_3) by (intros f j Hf; vm_compute in Hf; discriminate Hf).
  assert (H1 : FinishedRunning (dag ex_loop_3) false = true) by (vm_compute; reflexivity).
  assert (H2 : DoneFailed (dag ex_loop_3) false = false) by (vm_compute; reflexivity).
  assert (H3 : DoneSuccess (dag ex_loop_3) false = false) by (vm_compute; reflexivity).
  split; [split; assumption|]. exact (dag_not_stuck 10 ex_loop_dag 0 ex_loop_3 Hu ex_loop_reachable Hf H1 H2 H3).
Defined.

(** ** A category with room for one job *)

#[local] Instance ex_files : Files :=
  {| chdir := fun _ dir => Some dir;
     fopen := fun _ _ _ => Some (text (s2b <$>
       ["JOB A a.sub"; "JOB B b.sub"; "CATEGORY A big"; "CATEGORY B big"; "MAXJOBS big 1"]%string)) |}.
Definition ex_parser : Parser :=
  match read_dag 0 1 false 0 (s2b "/home") [s2b "main.dag"] None with Some (Done p) => p | _ => new_Parser 0 0 false [] [] [] end.
Lemma ex_parsed : read_dag 0 1 false 0 (s2b "/home") [s2b "main.dag"] None = Some (Done ex_parser).
Proof. vm_compute. reflexivity. Qed.
Definition ex_cat_dag : Dag := p_dag ex_parser.
Lemma ex_cat_unrun : unrun ex_cat_dag /\ sensible_limits ex_cat_dag.
Proof.
  destruct (read_dag_parsing _ _ _ _ _ _ _ _ ex_parsed) as [Hp He]. destruct (parsed_dag _ Hp He) as (Hb & Hi & Hl).
  split; [by eapply unrun_of_built|]. split; [done|]. intros category t Ht Hset. specialize (Hl category t Ht).
  unfold isSet, noThrottleSetting in *. apply negb_true_iff, Z.eqb_neq in Hset. lia.
Qed.
Definition ex_cat_0 : Run := after (Bootstrap 10 None) (new_Run ex_cat_dag 0).
Definition ex_cat_1 : Run := after (SubmitReadyJobs 10) ex_cat_0.
Lemma ex_cat_reachable : reachable 10 ex_cat_dag 0 ex_cat_1.
Proof.
  destruct (after_done (Bootstrap 10 None) (new_Run ex_cat_dag 0)) as [b H0]; [vm_compute; reflexivity|].
  destruct (after_done (SubmitReadyJobs 10) ex_cat_0) as [n H1]; [vm_compute; reflexivity|].
  exact (reach_submit 10 ex_cat_dag 0 ex_cat_0 n ex_cat_1 (reach_boot 10 ex_cat_dag 0 b ex_cat_0 H0) H1).
Qed.

(** A is submitted, and B waits in the ready queue. *)
Lemma throttles_respected_witness :
  (size (submitted_in (s2b "big") ex_cat_1) = 1%nat /\ items (_readyQ (dag ex_cat_1)) = [1]) /\
  Z.of_nat (size (submitted ex_cat_1)) <= 2 /\ Z.of_nat (size (submitted_in (s2b "big") ex_cat_1)) <= 1.
Proof.
  split; [split; vm_compute; reflexivity|]. destruct ex_cat_unrun as [Hu Hl].
  assert (Hf : final_waits ex_cat_1) by (intros f j Hf; vm_compute in Hf; discriminate Hf).
  destruct (throttles_respected 10 ex_cat_dag 0 ex_cat_1 Hu Hl ex_cat_reachable Hf) as (_ & Hm & Hc).
  split; [by apply Hm|]. assert (Ht : exists t, _catThrottles ex_cat_dag !! s2b "big" = Some t /\ _maxJobs t = 1).
  { eexists. split; vm_compute; reflexivity. }
  destruct Ht as (t & Ht & <-). apply (Hc _ t Ht). unfold isSet. by vm_compute in Ht; injection Ht as <-.
Defined.

(** ** Runs that stop DAGMan *)

(** [RETRY]: a node that may be tried again. *)
#[local] Instance set_retry_max : Setter retry_max := ltac:(solve_setter).
Definition with_retry (i n : Z) (d : Dag) : Dag := d <| _nodeIDHash ::= alter (fun j => j <| retry_max := n |>) i |>.

Definition ex_noop_node : build_op :=
  BNode TYPE_CONDOR (Some (s2b "A")) [] (Some (s2b "a.sub")) None (Some (s2b "post.sh")) true false false.
Definition ex_noop : Dag := with_retry 0 1 (built_from [ex_noop_node]).
Definition ex_noop_id : CondorID := mkCondorID 0 NOOP_NODE_PROCID 1.

(** A NOOP node cannot be retried.  Its fake job ends, the POST script fails, the node goes
    back to the ready queue; when it is submitted again SubmitNodeJob() asserts that the job id it is
    to fill in, not the one the node had, is that of a NOOP job, and DAGMan stops. *)
Theorem noop_retry_stops_dagman :
  let sts := [ex_timer [ex_submit 0 NOOP_NODE_PROCID 1 "A"; ex_end 0 NOOP_NODE_PROCID 1 0]; Reap true 1011 256;
              ex_timer [ex_post 0 NOOP_NODE_PROCID 1 1 "A"]] in
  (exists s j, run_dag 10 None sts (new_Run ex_noop 0) = RDone tt s /\
     items (_readyQ (dag s)) = [0] /\ nodes s !! 0 = Some j /\ _Status j = STATUS_READY /\ retries j = 1 /\
     _CondorID j = ex_noop_id) /\
  run_dag 10 None (sts ++ [Timer false None None]) (new_Run ex_noop 0) = RExcept "Assertion ERROR".
Proof.
  split; [|vm_compute; reflexivity]. eexists _, _. split; [vm_compute; reflexivity|]. vm_compute. done.
Qed.

Definition ex_two_procs : Dag := with_retry 0 2 (built_from [ex_node "A"]).

(** A node with two job procs and RETRY 2 is restarted when the first proc fails, while the
    second, which DAGMan removes, is still in the queue.  The abort event of the second restarts it
    again: the node is in the ready queue twice with both retries used up, and the next attempt to
    submit jobs stops DAGMan. *)
Theorem early_restart_stops_dagman :
  let sts := [ex_timer [ex_submit 104 0 0 "A"; ex_submit 104 1 0 "A"; ex_end 104 0 0 1; ex_abort 104 1 0]] in
  (exists s j, run_dag 10 None sts (new_Run ex_two_procs 0) = RDone tt s /\
     items (_readyQ (dag s)) = [0; 0] /\ nodes s !! 0 = Some j /\ _Status j = STATUS_READY /\ retries j = 2) /\
  run_dag 10 None (sts ++ [Timer false None None]) (new_Run ex_two_procs 0) = RExcept "Job status is not STATUS_READY".
Proof.
  split; [|vm_compute; reflexivity]. eexists _, _. split; [vm_compute; reflexivity|]. vm_compute. done.
Qed.
