(* ===== verification/ParseExamples.v ===== *)
(** DAG input files at work: the theorems on reading and on rescue DAGs at concrete files, and files that
    show where the parser goes wrong. *)

From S2P Require Import Prelude HashTable CondorId PriorityList DagJob Dag DagCycle DagBuild.
From S2P Require Import CheckEvents DagRun DagLogic DagSafety DagTermination DagBooks DagProgress DagStart DagParse DagRead Rescue.

Open Scope Z_scope.

(** ** Files *)

(** The lines of a file. *)
Definition file_of (lines : list string) : bytes := text (s2b <$> lines).
(** A file system with a few files, the same from every directory. *)
Definition files_of (l : list (string * bytes)) : Files :=
  {| chdir := fun _ dir => Some dir;
     fopen := fun _ _ name => (fun r => r.2.2) <$> list_find (fun f => s2b f.1 = name) l |}.

Definition ex_main : bytes := file_of
  ["# a diamond whose left side is a splice"; "JOB A a.sub"; "  Job D d.sub DIR out NOOP  "; "JOB C c.sub";
   "SPLICE L left.dag DIR sub"; "PARENT A CHILD L \"; "   C"; "PARENT L C CHILD D"; "RETRY D 3 UNLESS-EXIT 2";
   "SCRIPT PRE A  prepare.sh $JOB now"; "CATEGORY A big"; "MAXJOBS big 2"; "PRIORITY A 10"; "PRE_SKIP A 4";
   "ABORT-DAG-ON A 3 RETURN 1"; "NODE_STATUS_FILE status 30"; "FINAL F end.sub"]%string.
Definition ex_left : bytes := file_of
  ["JOB X x.sub"; "JOB Y y.sub DIR deep"; "PARENT X CHILD Y"; "CATEGORY X small"; "MAXJOBS small 1"]%string.
Definition ex_files : list (string * bytes) := [("main.dag"%string, ex_main); ("left.dag"%string, ex_left)].

Definition parser_of (r : option (outcome Parser)) : Parser :=
  match r with Some (Done p) => p | _ => new_Parser 0 0 false [] [] [] end.
Definition was_read (r : option (outcome Parser)) : bool := match r with Some (Done _) => true | _ => false end.
Lemma was_read_ok r : was_read r = true -> r = Some (Done (parser_of r)).
Proof. by destruct r as [[]|]. Qed.

Section with_main_files.
#[local] Instance main_files : Files := files_of ex_files.

Definition ex_read := read_dag 0 2 false 0 (s2b "/home") [s2b "main.dag"] None.

Definition about_node (d : Dag) (name : string) : option (Z * bytes * status_t * list Z * list Z * option bytes) :=
  job ← _nodeNameHash d !! s2b name; j ← _nodeIDHash d !! job;
  Some (job, _directory j, _Status j, ascending_ids (_parents j), ascending_ids (_children j), _throttleInfo j).

(** The nodes of the splice come last, with the name and the directory of the splice. *)
Example ex_nodes :
  let d := p_dag (parser_of ex_read) in
  _jobs d = [0; 1; 2; 5; 3; 4] /\
  about_node d "A" = Some (0, [], STATUS_READY, [], [2; 3], Some (s2b "big")) /\
  about_node d "L+X" = Some (3, s2b "sub/", STATUS_READY, [0], [4], Some (s2b "L+small")) /\
  about_node d "L+Y" = Some (4, s2b "sub/deep", STATUS_READY, [3], [1], None) /\
  about_node d "D" = Some (1, s2b "out", STATUS_READY, [2; 4], [], None) /\
  about_node d "F" = Some (5, [], STATUS_NOT_READY, [], [], None) /\
  _maxJobs <$> _catThrottles d !! s2b "L+small" = Some 1.
Proof. vm_compute. done. Qed.

(** The theorem at this DAG, with the cycle check. *)
Lemma parsed_dag_well_formed_witness :
  unrun (p_dag (parser_of ex_read)) /\ limits_sensible (p_dag (parser_of ex_read)) /\
  exists d', isCycle (p_dag (parser_of ex_read)) = Some (d', false).
Proof.
  destruct (parsed_dag_well_formed 0 2 false 0 (s2b "/home") [s2b "main.dag"] None (parser_of ex_read)
    ltac:(apply was_read_ok; vm_compute; reflexivity)) as (_ & _ & Hu & Hl & d' & b & Hc & _).
  split_and!; [done|done|]. exists d'. rewrite Hc. f_equal. f_equal.
  assert (Hb : (snd <$> isCycle (p_dag (parser_of ex_read))) = Some false) by (vm_compute; reflexivity). rewrite Hc in Hb. by injection Hb.
Defined.
End with_main_files.

(** ** A rescue DAG *)

(** Decision procedures for the hypotheses. *)
Definition writableb (j : Job) : bool :=
  wordb (_jobName j) && negb (ends_with BSLASH (_jobName j)) && (0 <=? retries j) && (retries j <=? retry_max j) &&
  (retry_max j <? 2 ^ 31) &&
  match retry_abort_val j with Some v => (- 2 ^ 31 <=? v) && (v <? 2 ^ 31) | None => true end &&
  (negb (_final j) || (retry_max j =? 0)).
Lemma writableb_ok j : writableb j = true -> writable j.
Proof.
  unfold writableb. rewrite !andb_true_iff. intros ((((((H1 & H2) & H3) & H4) & H5) & H6) & H7).
  apply Z.leb_le in H3, H4. apply Z.ltb_lt in H5. split; [by apply Is_true_true|by destruct (ends_with _ _)|done|done|..].
  - intros v Hv. rewrite Hv in H6. apply andb_true_iff in H6 as [?%Z.leb_le ?%Z.ltb_lt]. done.
  - intros Hf. rewrite Hf in H7. by apply Z.eqb_eq.
Qed.
Definition resumes_node (p : Parser) (d : Dag) (i : Z) : bool :=
  match _nodeIDHash (p_dag p) !! i, _nodeIDHash d !! i with
  | Some j, Some w =>
      bool_decide (_jobName w = _jobName j) && Bool.eqb (_final w) (_final j) && writableb w &&
      bool_decide (_nodeNameHash (p_dag p) !! _jobName j = Some i)
  | _, _ => false
  end.
Lemma resumes_check p d :
  bool_decide (_jobs d = _jobs (p_dag p)) && forallb (resumes_node p d) (_jobs d) = true -> resumes p d.
Proof.
  rewrite andb_true_iff, bool_decide_eq_true, forallb_forall. intros [Hj Hn]. split; [done|]. intros i Hi.
  apply list_elem_of_In, Hn in Hi. unfold resumes_node in Hi. destruct (_nodeIDHash (p_dag p) !! i) as [j|]; [|done].
  destruct (_nodeIDHash d !! i) as [w|]; [|done]. rewrite !andb_true_iff, !bool_decide_eq_true, eqb_true_iff in Hi.
  destruct Hi as (((? & ?) & ?%writableb_ok) & ?). by exists j, w.
Qed.

(** The DAG after a while: A is done, the first node of the splice has failed, D was tried once. *)
Definition ex_later : Parser :=
  on_job (on_job (on_job (parser_of ex_read) 0 (fun j => SetStatus j STATUS_DONE)) 3 (fun j => SetStatus j STATUS_ERROR))
    1 (fun j => j <| retries := 1 |>).
Definition lines_of (r : outcome (list bytes)) : list bytes := match r with Done l => l | EXCEPT _ => [] end.
Definition was_written (r : outcome (list bytes)) : bool := match r with Done _ => true | EXCEPT _ => false end.
Lemma was_written_ok r : was_written r = true -> r = Done (lines_of r).
Proof. by destruct r. Qed.
Definition ex_rescue : outcome (list bytes) :=
  WriteRescue ex_later None (s2b "main.dag") (s2b "1/2/2013 03:04:05") false true false.
Example ex_rescue_lines :
  lines_of ex_rescue = s2b <$>
    ["# Rescue DAG file, created after running"; "#   the main.dag DAG file"; "# Created 1/2/2013 03:04:05 UTC";
     "# Rescue DAG version: 2.0.1 (partial)"; "#"; "# Total number of Nodes: 6"; "# Nodes premarked DONE: 0";
     "# Nodes that failed: 0"; "#   L+X,<ENDLIST>"; ""; "DONE A"; "# 1 of 3 retries already performed; 2 remaining";
     "RETRY D 2 UNLESS-EXIT 2"]%string.
Proof. vm_compute. done. Qed.

Definition node_of (p : Parser) (job : Z) : Job := default (new_Job 0 TYPE_CONDOR [] [] []) (_nodeIDHash (p_dag p) !! job).
Lemma node_of_ok p job : bool_decide (is_Some (_nodeIDHash (p_dag p) !! job)) = true -> _nodeIDHash (p_dag p) !! job = Some (node_of p job).
Proof. rewrite bool_decide_eq_true. intros [j Hj]. unfold node_of. by rewrite Hj. Qed.

Definition rescue_files : Files := files_of (("main.dag.rescue001"%string, text (lines_of ex_rescue)) :: ex_files).

(** The same files, beside the rescue DAG. *)
Definition ex_reread := read_dag (H := rescue_files) 0 2 false 0 (s2b "/home") [s2b "main.dag"] None.

Lemma rescue_dag_restores_witness :
  let again := read_dag (H := rescue_files) 0 2 false 0 (s2b "/home") [s2b "main.dag"] (Some (s2b "main.dag.rescue001")) in
  exists p' A D, again = Some (Done p') /\
    _nodeIDHash (p_dag p') !! 0 = Some A /\ _Status A = STATUS_DONE /\
    _nodeIDHash (p_dag p') !! 1 = Some D /\ _Status D = STATUS_READY /\ retry_max D = 2 /\ retry_abort_val D = Some 2.
Proof.
  destruct (rescue_dag_restores (H := rescue_files) 0 1 0 (s2b "/home") [s2b "main.dag"] (parser_of ex_reread) ex_later None
    (s2b "main.dag") (s2b "1/2/2013 03:04:05") false (s2b "main.dag.rescue001") (lines_of ex_rescue)) as (p' & nodes & Hr & Ed & Hn).
  - apply was_read_ok. vm_compute. reflexivity.
  - apply resumes_check. vm_compute. reflexivity.
  - apply (bool_decide_unpack _). vm_compute. exact I.
  - apply (bool_decide_unpack _). vm_compute. exact I.
  - apply was_written_ok. vm_compute. reflexivity.
  - intros dir. reflexivity.
  - exists p', (rescued false (node_of ex_later 0) (node_of (parser_of ex_reread) 0)),
      (rescued false (node_of ex_later 1) (node_of (parser_of ex_reread) 1)). rewrite Ed.
    assert (H0 : nodes !! 0 = Some (rescued false (node_of ex_later 0) (node_of (parser_of ex_reread) 0))).
    { apply Hn; [|apply node_of_ok; vm_compute; reflexivity..]. apply (bool_decide_unpack _). vm_compute. exact I. }
    assert (H1 : nodes !! 1 = Some (rescued false (node_of ex_later 1) (node_of (parser_of ex_reread) 1))).
    { apply Hn; [|apply node_of_ok; vm_compute; reflexivity..]. apply (bool_decide_unpack _). vm_compute. exact I. }
    split_and!; [exact Hr|exact H0|vm_compute; reflexivity|exact H1|vm_compute; reflexivity..].
Defined.

(** ** Variables *)

Definition ex_vars : list (bytes * bytes) :=
  [(s2b "name", s2b "two words"); (s2b "path", s2b "C:\dir\"); (s2b "quote_1", [DQUOTE] ++ s2b "q" ++ [DQUOTE]); (s2b "none", [])].
Definition ex_vars_parser : Parser := (parser_of ex_read) <| _mungeNames := false |>.
Lemma vars_roundtrip_witness :
  exists j p', _nodeIDHash (p_dag ex_vars_parser) !! 2 = Some j /\
    parse_vars 0 ex_vars_parser (s2b "C" ++ vars_text ex_vars) = Done (p', true) /\
    (varsFromDag <$> _nodeIDHash (p_dag p') !! 2) = Some ex_vars.
Proof.
  pose (j := node_of ex_vars_parser 2).
  exists j. eexists. split; [vm_compute; reflexivity|]. split.
  - change (s2b "C") with (_jobName j). apply (vars_roundtrip 0 ex_vars_parser 2 j ex_vars).
    + split; vm_compute; reflexivity.
    + vm_compute. exact I.
    + vm_compute. reflexivity.
    + done.
    + repeat (apply Forall_cons; split); [..|apply Forall_nil_2]; (split; [done|by repeat constructor|reflexivity|by repeat constructor]).
    + repeat (apply Forall_cons; split); [..|apply Forall_nil_2]; apply (bool_decide_unpack _); vm_compute; exact I.
    + apply (bool_decide_unpack _). vm_compute. exact I.
  - vm_compute. reflexivity.
Defined.

(** ** Files that break the parser *)

(** A splice whose file is the file it is in, with room for three open files. *)
Section with_self_splice.
#[local] Instance self_files : Files :=
  {| chdir := fun _ dir => Some dir;
     fopen := fun opened _ _ => if (opened <? 3)%nat then Some (file_of ["SPLICE S m.dag"]%string) else None |}.
Lemma reading_terminates_witness :
  exists r, read_dag 0 4 false 0 (s2b "/home") [s2b "m.dag"] None = Some r /\ r = EXCEPT "Failed to parse splice".
Proof.
  destruct (reading_terminates 0 3 4 false 0 (s2b "/home") [s2b "m.dag"] None) as [r Hr].
  - intros n dir name Hn. simpl. by rewrite (proj2 (Nat.ltb_ge n 3)).
  - lia.
  - exists r. split; [exact Hr|]. vm_compute in Hr. congruence.
Defined.
End with_self_splice.

(** A node may have a name that ends in a backslash; in a rescue DAG its DONE line continues on the next line. *)
Definition slash_files (rescue : list bytes) : Files :=
  files_of [("main.dag"%string, file_of ["JOB A\ a.sub"; "JOB B b.sub"]%string); ("main.dag.rescue001"%string, text rescue)].
Definition slash_read rescue := read_dag (H := slash_files rescue) 0 1 false 0 (s2b "/home") [s2b "main.dag"].
Definition slash_later : Parser :=
  on_job (on_job (parser_of (slash_read [] None)) 0 (fun j => SetStatus j STATUS_DONE)) 1 (fun j => SetStatus j STATUS_DONE).
(** A rescue DAG in which a node has such a name cannot be read back. *)
Lemma backslash_name_breaks_rescue :
  was_read (slash_read [] None) = true /\
  exists lines, WriteRescue slash_later None (s2b "main.dag") [] false true false = Done lines /\
    slash_read lines (Some (s2b "main.dag.rescue001")) = Some (EXCEPT "Failed to parse").
Proof. split; [vm_compute; reflexivity|]. eexists. split; [vm_compute; reflexivity|]. vm_compute. reflexivity. Qed.

(** A final node that runs a nested DAG: its submit file ends in .condor.sub. *)
Definition nested_files : Files := files_of [("main.dag"%string, file_of ["JOB A a.sub"; "FINAL F x.dag.condor.sub"]%string)].
Definition nested_read := read_dag (H := nested_files) 0 1 false 0 (s2b "/home") [s2b "main.dag"] None.
(** A full rescue DAG names the DAG file as its submit file. *)
Lemma full_rescue_renames_nested_final :
  (_cmdFile <$> _nodeIDHash (p_dag (parser_of nested_read)) !! 1) = Some (s2b "x.dag.condor.sub") /\
  s2b "FINAL F x.dag " ∈ lines_of (WriteRescue (parser_of nested_read) None (s2b "main.dag") [] false false false).
Proof. split; [vm_compute; reflexivity|]. apply (bool_decide_unpack _). vm_compute. exact I. Qed.
